(* ===== verification/_CoqProject ===== *)
-Q . S2P
Prelude.v
Utils.v
Crc32.v
Multiboot.v
PhysMem.v
AddressSpace.v
MemManager.v
DlHeap.v
DlBins.v
DlTrie.v
DlFree.v
DlLayout.v
Dlmalloc.v
DlSearch.v
DlAlloc.v
DlRelease.v
DlResize.v
DlRealloc.v
DlAlign.v
DlSpace.v
KernelHeap.v
Initrd.v
Deflate.v
Tinfl.v
TinflTable.v
TinflStream.v
TinflInflate.v
TinflTotal.v
Transport.v
Engine.v
Timeouts.v
Pool.v
Thread.v
Sched.v
Natives.v
Io.v
Apic.v
Acpi.v
Idt.v
Printf.v
Console.v
Threadlib.v
Boot.v
Wrappers.v
AcpiOs.v
AcpiPci.v
Startup.v
Syscalls.v
Profiler.v
