(* ===== verification/Prelude.v ===== *)
(** * A verification library for the JsOS kernel

    JsOS (a fork of runtime.js) is a unikernel: a C++ kernel (src/src) that boots on a PC,
    sets up memory, interrupts and timers, and runs V8; drivers and applications are
    JavaScript.  This library models the kernel's own code as executable definitions and
    proves what makes its parts correct.

    ** The parts and how they interact

    The boot loader leaves a multiboot structure and one module in memory.  [KernelMain]
    (kernel-main.cc) builds the global objects in order: the console, the physical page
    allocator (from the memory map), the interrupt table, the page tables and malloc, and
    then reads the files of the boot archive, makes the engines and runs the loader, the
    first script.  From then on the page fault handler maps memory on demand, interrupts
    are dispatched to the queues of threads, and a thread manager runs the event loops of
    the threads: messages, timers, immediates.
    JavaScript values move between threads as serialised messages.  Scripts reach the
    machine through natives: ranges of memory, ports and interrupts, physical addresses of
    buffers, devices that ACPI describes, the console and the files.

    ** Files, and the sources they translate (paths under src/src)

    - Prelude: outcomes, machine integers, bytes in memory, shared lemmas and tactics.
    - Utils: kernel/utils.h (alignment, ranges, big-endian reads, zones).
    - Crc32: kernel/crc32.cc.    - Multiboot: kernel/multiboot.h, .cc.
    - PhysMem: [PagesStack], [PhysicalAllocator] of kernel/mem-manager.h, .cc.
    - AddressSpace: [PageEntry], [VirtualAddress], [AddressSpaceX64] of
      kernel/x64/address-space-x64.h, .cc.
    - MemManager: [VirtualAllocator], [MemManager] of kernel/mem-manager.h, .cc.
    - malloc, kernel/dlmalloc.cc: DlHeap (chunks and their words), DlBins (bins and tries),
      DlTrie, DlFree, DlLayout (the invariant of a space), Dlmalloc (the operations on a space),
      DlSearch, DlAlloc, DlRelease, DlResize, DlRealloc, DlAlign (what each operation does),
      DlSpace (the abstract heap that a space implements).
    - KernelHeap: malloc over the memory manager, with page faults.
    - Initrd: [PackageReader], [Initrd] of kernel/initrd.h, .cc.
    - The inflater, deps/miniz/tinfl.c: Deflate (the format, RFC 1950 and 1951, from the side
      of the writer), Tinfl (the decoder, for one call with the whole input), TinflTable (the
      lookup tables), TinflStream (fields and symbols of a stream), TinflInflate (what it
      returns on a stream of the format), TinflTotal (what it does on any input).
    - Transport: [TransportData] of kernel/transport.h, .cc, with the array buffers of V8
      (deps/v8/src/objects.h, api.cc).
    - Engine: [EngineThread], [IrqDispatcher], [Engines] of kernel/engine.h, engines.h,
      irq-dispatcher.h, .cc.
    - Timeouts: [Timeouts] of kernel/timeouts.h, [V8Platform] of kernel/v8platform.cc.
    - Pool: [IndexedPool] (v8utils.h), [FunctionExports] (thread.h), [LocalStorage].
    - Thread: [Thread] of kernel/thread.h, .cc.   - Sched: the thread manager and the event
      loop (kernel/thread-manager.h, .cc, Thread::Run) with the timer natives.
    - Natives: [Args], [Resources], [MemoryNatives] of kernel/native-object.cc, v8utils.h.
    - Io: [IoPortsX64] of kernel/x64/io-x64.h, [PortAccess] (the ports that the objects of
      Natives reach).   - Apic: [IoApic], [Hpet], [LocalApic].
    - Acpi: [AcpiX64] of kernel/x64/acpi-x64.cc.
    - Idt: [IrqsArch], [Interrupts], [Platform] of kernel/x64/irqs-x64.cc, irqs.cc,
      irq-vectors-x64.asm, platform.h.
    - Printf: deps/printf/printf.cc.   - Console: [LogWriterVideo], [Logger], [FileIo] of kernel/logger.h, .cc, fileio.h, .cc,
      libc_calls.cc.   - Threadlib: the locks of kernel/threadlib.
    - Boot: [KernelMain] of kernel/kernel-main.cc.   - Startup: Engines::Startup, CpuEnter
      (kernel/engines.h) and ThreadEntryPoint (kernel/thread-manager.cc).
    - Wrappers: native objects in JavaScript (kernel/object-wrapper.h, template-cache.h).
    - AcpiOs: kernel/acpica-platform.cc.   - AcpiPci: [AcpiManager], [AcpiHandleObject]
      (kernel/acpi-manager.cc, native-object.cc) and the walk over resources of ACPICA.
    - Syscalls: [ConsoleNatives], [FileNatives], [TextNatives], [InfoNatives] of
      kernel/native-object.cc.
    - Profiler: kernel/profiler, runtime-state.h, allocation-tracker.h, heap-snapshot.cc.

    A doc comment before a definition names the lines it translates.  Records are the
    members of the classes, with their names; an operation takes the state and returns an
    [outcome], which is [Fatal] where an assertion fails or the kernel aborts.

    ** Conventions

    A machine integer is a [Z]; [u8] to [u64] write out the wrap-around where the code
    computes.  Memory is a function from addresses to bytes ([ram]).  The state of devices
    is behind the interface [Ports] or a record of registers.  Code outside the kernel is a
    parameter: the heap of [std::priority_queue]
    through [PriorityQueue], V8's conversions and calls of scripts, and
    the answers of the ACPI interpreter.  Loops that are not structural have fuel: either
    a bound the code gives (the number of records of an archive, the length of a table, the
    size of a buffer), and then a theorem shows that it is enough, or a bound that stands
    for the patience of the caller (polls of a busy device), where [OutOfFuel] means
    that the code does not return.  A search in a trie of malloc has 64 steps, a level per bit
    of a size; a walk over a ring or over the segment has the number of its chunks.  The
    inflater has eight blocks a byte of input and eight more, a symbol a byte of output and
    one more, and 16 steps in a tree; [tinfl_terminates] shows that this is enough on any input.
    The archive reader has the inflater as a parameter, which Boot instantiates by the model
    of tinfl.c.
    The memory manager uses malloc through the interface [MspaceOps], which KernelHeap
    implements by the operations of Dlmalloc.  The code of malloc runs over memory that is
    mapped on demand: an operation takes the list of the addresses that it accesses, which
    the theorems leave open within the space of the heap, and each of them may fault; the
    machine stops when no page or table is left.  During the boot the parts of physical memory
    that the kernel itself uses (its data, stack and tables, the pages handed out) hold
    arbitrary bytes ([kernel_writes] of Boot).  What JavaScript does is a parameter that
    yields the natives it calls, the interrupts that arrive and the tasks that V8 posts.

    ** What the theorems show

    - Memory: the allocator implements sets of free and used pages, never gives a page out
      twice and is built from exactly the zones of the memory map; page tables implement
      a map from pages to frames ([MapPage_correct], [VirtualToPhysical_correct]); page
      faults map on demand and never share a page ([demand_never_shared]).
    - malloc: a space satisfies its invariant after every operation and refines a heap of
      blocks that are apart and keep what is written to them ([space_refines_heap]); the search
      of the tries is best fit ([best_large_correct]); over the page tables of
      the kernel, with the page faults of malloc's own accesses and other allocations in
      between, a request is served or the machine stops for want of pages or tables, and the
      bytes of different blocks have different physical addresses ([kernel_heap_sound]).
    - Boot: from what the loader left in memory to the files of the archive
      ([boot_loads_files]), with the inflater, which inverts every encoder of the format
      ([tinfl_inflates]) and returns on any input, in bounds unless a code uses one of the two
      lengths that the format reserves ([tinfl_terminates]); and from the files to the first script, which is exactly the
      file that the archive names ([startup_runs_loader]); reading the archive terminates on any bytes, keeps only files
      whose checksum matches, and inverts the archive writer; the natives return the files
      byte by byte; the checksum is CRC-32 ([Compute_bitwise]).
    - Messages: serialising and deserialising is the identity on plain values and external
      buffers, and terminates on cyclic ones; other buffers stop the machine
      ([MoveValue_shared_buffer]); the queues conserve messages.
    - Scheduling: the next thread is the one of highest priority, among equals round robin;
      the event loop keeps its invariant on every message, and stops only when a script
      binds an interrupt that the dispatcher does not have ([Run_safe]); timers fire in order.
    - Interrupts: the table has the gates the code means to install, and an interrupt of a
      device reaches the threads that bound it and is acknowledged, but for the two numbers
      whose gates are the timer ([irq_delivered]).
    - Natives: nothing that a script obtains from a resource lies outside it, and an access
      through a port object reaches at most three ports beyond ([resources_confined]); the addresses
      of a buffer are those of each byte; native objects are typed and alive, but for those
      that a script makes by the constructor of one ([wrappers_typed]); the screen shows the last lines written
      ([console_shows]), formats print their fields ([tfp_format_shows]) and stay inside
      their buffer below 2^31 characters ([tfp_vsnprintf_bounded]).
    - Devices: ACPI tables and the interrupt routing table are decoded to what they
      encode; the accesses to PCI configuration space touch exactly the named bytes.
    - Locks: mutual exclusion of the spinlock under every interleaving of single accesses, and
      of the mutex, a recursive one only between processors; the condition variable is a stack
      of waiters.
    - Measuring: the profiler finds the code at an address; a heap snapshot is complete.

    Other theorems, or parts of these, prove where the code does not do what it means to: the
    bus number that is lost, interrupt messages that are dropped, a buffer that is lost when
    it occurs twice in a message or stops the machine when V8 owns it, references that leak,
    the reserved lengths of the inflater, a clock that goes back, a mutex that two threads
    hold, names of moved code that are bytes of it.

    ** Not modelled

    V8 (but for the neutering of array buffers), ACPICA (but for the walk over resources),
    musl and libsodium are third-party.
    Of tinfl.c: the re-entry of the coroutine with more input, and the wrappers
    that the kernel does not call (mem_to_heap, mem_to_callback).
    Of dlmalloc: bulk operations, statistics, and what the configuration compiles out
    (several segments, mmap, trimming).  src/gen is generated and src/js is JavaScript.  Of
    the kernel: register switches of native threads, the processor start code and single
    privileged instructions (assembly); backtraces and
    debug output (only text); the static constructors, the snapshot mode and libsodium in
    the start; eval, halt, vesaGetCInfo and reset (a call or an instruction each); the
    table of names that a context gets.  Floating-point numbers are transported as bit
    patterns; a number that a native receives is integral.

    ** Left for later

    The construction of the platform between the archive and the engines, runs of
    several turns of the threads with interrupts between them, and the interleaving of the
    collector with the transport of native objects. *)

From Stdlib Require Export ZArith Lia Btauto.
From stdpp Require Export strings gmap.
From stdpp Require Export list.

#[global] Open Scope Z_scope.

(** ** Outcomes

    [RT_ASSERT] expands to [assert], whose failure calls
    [__assert_fail] and from there [BootServices::FatalError], which hangs the
    machine; [abort] ends in the same place.  An operation of the kernel
    therefore either returns, or stops the machine for good ([Fatal]), or, for
    the loops that are modelled with fuel, uses the fuel up ([OutOfFuel]). *)
Inductive outcome (A : Type) : Type :=
  | Ret (a : A)
  | Fatal (why : string)
  | OutOfFuel.
Arguments Ret {A} a.
Arguments Fatal {A} why.
Arguments OutOfFuel {A}.

#[export] Instance outcome_ret : MRet outcome := fun A a => Ret a.
#[export] Instance outcome_bind : MBind outcome := fun A B f m =>
  match m with
  | Ret a => f a
  | Fatal w => Fatal w
  | OutOfFuel => OutOfFuel
  end.

#[export] Instance outcome_eq_dec `{EqDecision A} : EqDecision (outcome A).
Proof. intros x y; unfold Decision; decide equality; solve_decision. Defined.

(** [RT_ASSERT(b)]. *)
Definition rt_assert (b : bool) (why : string) : outcome unit :=
  if b then Ret tt else Fatal why.

(** The value of an outcome, when there is one. *)
Definition result {A} (m : outcome A) : option A :=
  match m with Ret a => Some a | _ => None end.

Lemma bind_Ret {A B} (m : outcome A) (f : A -> outcome B) b :
  m ≫= f = Ret b <-> exists a, m = Ret a /\ f a = Ret b.
Proof. destruct m; simpl; naive_solver. Qed.

Lemma rt_assert_Ret b w u : rt_assert b w = Ret u <-> b = true.
Proof. destruct b, u; naive_solver. Qed.

(** ** Machine integers

    An unsigned [w]-bit integer is a [Z] in [[0, 2^w)]; every operation of the
    code that can leave the range is followed by [wrap w]. *)
Definition wrap (w z : Z) : Z := z `mod` 2 ^ w.
Definition u8 (z : Z) : Z := wrap 8 z.
Definition u16 (z : Z) : Z := wrap 16 z.
Definition u32 (z : Z) : Z := wrap 32 z.
Definition u64 (z : Z) : Z := wrap 64 z.

(** Two's complement reading of a [w]-bit pattern. *)
Definition sign_of (w z : Z) : Z :=
  let r := wrap w z in if decide (r < 2 ^ (w - 1)) then r else r - 2 ^ w.

Definition in_range (w z : Z) : Prop := 0 <= z < 2 ^ w.
#[export] Instance in_range_dec w z : Decision (in_range w z).
Proof. unfold in_range. apply _. Defined.

Lemma wrap_small w z : in_range w z -> wrap w z = z.
Proof. intros H. apply Z.mod_small, H. Qed.

Lemma wrap_range w z : 0 <= w -> in_range w (wrap w z).
Proof. intros Hw. apply Z.mod_pos_bound, Z.pow_pos_nonneg; lia. Qed.

Lemma wrap_idemp w z : wrap w (wrap w z) = wrap w z.
Proof. apply Zmod_mod. Qed.

Lemma sign_of_small w z :
  0 < w -> - 2 ^ (w - 1) <= z < 2 ^ (w - 1) -> sign_of w z = z.
Proof.
  intros Hw Hz. unfold sign_of, wrap.
  assert (2 ^ w = 2 * 2 ^ (w - 1)) as E.
  { rewrite <- Z.pow_succ_r by lia. f_equal; lia. }
  assert (0 < 2 ^ (w - 1)) by (apply Z.pow_pos_nonneg; lia).
  destruct (decide (0 <= z)).
  - rewrite Z.mod_small by lia. rewrite decide_True; lia.
  - replace (z `mod` 2 ^ w) with (z + 2 ^ w).
    2: { apply Z.mod_unique with (q := -1); lia. }
    rewrite decide_False; lia.
Qed.

(** ** Sizes ([Constants] in constants.h) *)
Definition KiB : Z := 1024.
Definition MiB : Z := 1024 * 1024.
Definition GiB : Z := 1024 * 1024 * 1024.

(** ** Bit-level equalities

    [bits] proves an equality of integers bit by bit: both sides are compared
    at an arbitrary non-negative index. *)
Lemma testbit_wrap w z i :
  0 <= w -> Z.testbit (wrap w z) i = bool_decide (i < w) && Z.testbit z i.
Proof.
  intros Hw. unfold wrap. rewrite <- Z.land_ones, Z.land_spec by done.
  destruct (decide (0 <= i)).
  - rewrite Z.ones_spec by lia. by rewrite andb_comm.
  - by rewrite (Z.testbit_neg_r z), andb_false_r by lia.
Qed.

Create HintDb kbits.
Create Rewrite HintDb kbits.
#[export] Hint Rewrite Z.lor_spec Z.land_spec Z.lxor_spec Z.ldiff_spec
  Z.testbit_0_l : kbits.
#[export] Hint Rewrite Z.shiftl_spec Z.shiftr_spec Z.ones_spec testbit_wrap
  Z.lnot_spec using lia : kbits.

Ltac bool_split :=
  repeat (case_bool_decide; try lia); simpl; try btauto.

Ltac bits :=
  apply Z.bits_inj'; let i := fresh "i" in let Hi := fresh "Hi" in
  intros i Hi; autorewrite with kbits.

(** A value below [2^w] has no bit at or above [w]. *)
Lemma testbit_high w z i : in_range w z -> w <= i -> Z.testbit z i = false.
Proof.
  intros [Hz Hzw] Hi. destruct (decide (z = 0)) as [-> | Hnz].
  - apply Z.testbit_0_l.
  - apply Z.bits_above_log2; [lia |].
    assert (Z.log2 z < w); [| lia]. apply Z.log2_lt_pow2; lia.
Qed.

(** Masking the low [w] bits is reduction modulo [2^w]. *)
Lemma land_mask w z m : m = Z.ones w -> 0 <= w -> Z.land z m = wrap w z.
Proof. intros -> Hw. by apply Z.land_ones. Qed.

Lemma land_range w a b : 0 <= w -> 0 <= a -> in_range w b -> in_range w (Z.land a b).
Proof.
  intros Hw Ha Hb. split; [apply Z.land_nonneg; auto |].
  assert (Z.land a b = wrap w (Z.land a b)) as ->.
  { bits. rewrite bool_decide_decide. destruct decide; [done |].
    rewrite (testbit_high w b) by (done || lia). by rewrite andb_false_r. }
  apply wrap_range; lia.
Qed.

Lemma lor_range w a b : 0 <= w -> in_range w a -> in_range w b -> in_range w (Z.lor a b).
Proof.
  intros Hw Ha Hb. split; [apply Z.lor_nonneg; split; [apply Ha | apply Hb] |].
  assert (Z.lor a b = wrap w (Z.lor a b)) as ->.
  { bits. rewrite bool_decide_decide. destruct decide; [done |].
    by rewrite (testbit_high w a), (testbit_high w b) by (done || lia). }
  apply wrap_range; lia.
Qed.

Lemma lxor_range w a b : 0 <= w -> in_range w a -> in_range w b -> in_range w (Z.lxor a b).
Proof.
  intros Hw Ha Hb. split.
  - apply Z.lxor_nonneg. destruct Ha, Hb. tauto.
  - assert (Z.lxor a b = wrap w (Z.lxor a b)) as ->.
    { bits. rewrite bool_decide_decide. destruct decide; [done |].
      by rewrite (testbit_high w a), (testbit_high w b) by (done || lia). }
    apply wrap_range; lia.
Qed.

Lemma shiftr_range w a n : 0 <= n -> in_range w a -> in_range w (Z.shiftr a n).
Proof.
  intros Hn [Ha Haw]. split; [by apply Z.shiftr_nonneg |].
  rewrite Z.shiftr_div_pow2 by done.
  assert (0 < 2 ^ n) by (apply Z.pow_pos_nonneg; lia).
  apply Z.le_lt_trans with a; [| done].
  apply Z.div_le_upper_bound; [done |]. nia.
Qed.

#[export] Hint Resolve wrap_range land_range lor_range lxor_range shiftr_range : kbits.

(** ** Memory

    Memory that an operation only reads is a function from byte addresses to
    bytes; a load of [n] bytes is little endian, as on the machine. *)
Definition ram := Z -> Z.

Definition load (m : ram) (addr : Z) (n : nat) : Z :=
  little_endian_to_Z 8 (map (fun i => m (addr + Z.of_nat i)) (seq 0 n)).
Definition load16 (m : ram) (a : Z) : Z := load m a 2.
Definition load32 (m : ram) (a : Z) : Z := load m a 4.
Definition load64 (m : ram) (a : Z) : Z := load m a 8.

(** Bytes of a memory are bytes. *)
Definition ram_ok (m : ram) : Prop := forall a, in_range 8 (m a).

Lemma load_range m a n : ram_ok m -> in_range (8 * Z.of_nat n) (load m a n).
Proof.
  intros Hm. unfold load, in_range.
  pose proof (little_endian_to_Z_bound 8
    (map (fun i => m (a + Z.of_nat i)) (seq 0 n))) as B.
  rewrite length_map, length_seq, (Z.mul_comm _ 8) in B. apply B; [lia |].
  apply Forall_forall. intros x (i & -> & _)%list_elem_of_fmap. apply Hm.
Qed.

(** A memory image that holds the bytes [bs] from [base] on, and zero elsewhere. *)
Definition ram_of (base : Z) (bs : list Z) : ram := fun a =>
  if decide (base <= a) then default 0 (bs !! Z.to_nat (a - base)) else 0.

Lemma ram_of_ok base bs : Forall (in_range 8) bs -> ram_ok (ram_of base bs).
Proof.
  intros F a. unfold ram_of. case_decide; [| by split].
  destruct (_ !! _) as [x |] eqn:E; simpl; [| by split].
  by eapply (Forall_lookup_1 _ _ _ _ F).
Qed.

(** Memory after the bytes [bs] were stored at [p]. *)
Definition store_bytes (m : ram) (p : Z) (bs : list Z) : ram := fun a =>
  if decide (p <= a) then default (m a) (bs !! Z.to_nat (a - p)) else m a.

Lemma store_bytes_in m p bs i b :
  bs !! i = Some b -> store_bytes m p bs (p + Z.of_nat i) = b.
Proof.
  intros E. unfold store_bytes. rewrite decide_True by lia.
  replace (Z.to_nat (p + Z.of_nat i - p)) with i by lia. by rewrite E.
Qed.

Lemma store_bytes_out m p bs a :
  a < p \/ p + Z.of_nat (length bs) <= a -> store_bytes m p bs a = m a.
Proof.
  intros Ha. unfold store_bytes. case_decide; [| done].
  rewrite lookup_ge_None_2 by lia. done.
Qed.

(** ** Lists *)

Lemma fold_left_cons {A B} (f : A -> B -> A) x l a :
  fold_left f (x :: l) a = fold_left f l (f a x).
Proof. reflexivity. Qed.

(** The index of the first element that satisfies [p], counted from [i]. *)
Fixpoint find_from {A} (p : A -> bool) (i : nat) (l : list A) : option nat :=
  match l with
  | [] => None
  | x :: l' => if p x then Some i else find_from p (S i) l'
  end.

Lemma find_from_Some {A} (p : A -> bool) l i k :
  find_from p i l = Some k <->
  exists j x, k = (i + j)%nat /\ l !! j = Some x /\ p x = true /\
            forall j' y, (j' < j)%nat -> l !! j' = Some y -> p y = false.
Proof.
  revert i; induction l as [| x l IH]; intros i; simpl.
  { split; [done |]. intros (j & y & _ & Hl & _). by rewrite lookup_nil in Hl. }
  destruct (p x) eqn:Hp.
  - split.
    + intros [= <-]. exists 0%nat, x. repeat split; [lia | done |]. lia.
    + intros (j & y & -> & Hl & Hy & Hmin). destruct j as [| j]; [f_equal; lia |].
      specialize (Hmin 0%nat x ltac:(lia) eq_refl). congruence.
  - rewrite IH. split.
    + intros (j & y & -> & Hl & Hy & Hmin). exists (S j), y.
      repeat split; [lia | done | done |].
      intros [| j'] z Hj' Hz; simpl in Hz; [congruence | eapply Hmin; [| exact Hz]; lia].
    + intros (j & y & -> & Hl & Hy & Hmin). destruct j as [| j]; simpl in Hl; [congruence |].
      exists j, y. repeat split; [lia | done | done |].
      intros j' z Hj' Hz. apply (Hmin (S j') z); [lia | done].
Qed.

Lemma find_from_None {A} (p : A -> bool) l i :
  find_from p i l = None <-> Forall (fun x => p x = false) l.
Proof.
  revert i; induction l as [| x l IH]; intros i; simpl; [by split |].
  rewrite Forall_cons. destruct (p x) eqn:Hp; [split; [done | by intros [? _]] |].
  rewrite IH. tauto.
Qed.

(** Distinct numbers of an interval are at most as many as its length. *)
Lemma NoDup_range_length (l : list Z) lo hi :
  NoDup l -> (forall x, x ∈ l -> lo <= x < hi) -> Z.of_nat (length l) <= Z.max 0 (hi - lo).
Proof.
  intros Hnd Hr. assert (l ⊆+ seqZ lo (hi - lo)) as Hs%submseteq_length.
  { apply NoDup_submseteq; [done |]. intros x Hx. apply elem_of_seqZ.
    specialize (Hr x Hx). lia. }
  rewrite length_seqZ in Hs. lia.
Qed.

Lemma set_range_size (X : gset Z) lo hi :
  (forall x, x ∈ X -> lo <= x < hi) -> Z.of_nat (size X) <= Z.max 0 (hi - lo).
Proof.
  intros Hr. unfold size, set_size; simpl. apply NoDup_range_length.
  - apply NoDup_elements.
  - intros x Hx. apply Hr. by apply elem_of_elements in Hx.
Qed.

Lemma size_map_inj (f : Z -> Z) (X : gset Z) :
  (forall x y, f x = f y -> x = y) -> size (set_map f X : gset Z) = size X.
Proof.
  intros Hf. induction X as [| x X Hx IH] using set_ind_L.
  - by rewrite set_map_empty.
  - rewrite set_map_union_L, set_map_singleton_L, !size_union, !size_singleton, IH;
      [done | set_solver |].
    apply disjoint_singleton_l. intros (y & E & Hy)%elem_of_map. apply Hf in E. congruence.
Qed.

(** [n] bytes of [z], least significant first. *)
Definition le_bytes (n z : Z) : list Z := Z_to_little_endian n 8 z.

Lemma length_le_bytes n z : 0 <= n -> length (le_bytes n z) = Z.to_nat n.
Proof. intros Hn. unfold le_bytes. pose proof (length_Z_to_little_endian n 8 z Hn). lia. Qed.

(** ** Bytes in memory *)

Definition zlen {A} (l : list A) : Z := Z.of_nat (length l).

Lemma zlen_nonneg {A} (l : list A) : 0 <= zlen l.
Proof. unfold zlen. lia. Qed.

Lemma zlen_app {A} (a b : list A) : zlen (a ++ b) = zlen a + zlen b.
Proof. unfold zlen. rewrite length_app. lia. Qed.

(** The memory holds the bytes [bs] at [p]. *)
Definition holds (m : ram) (p : Z) (bs : list Z) : Prop :=
  forall i b, bs !! i = Some b -> m (p + Z.of_nat i) = b.

Lemma holds_app m p a b : holds m p (a ++ b) <-> holds m p a /\ holds m (p + zlen a) b.
Proof.
  unfold holds, zlen. split.
  - intros Hh. split; intros i x Hx.
    + apply Hh. by apply lookup_app_l_Some.
    + rewrite <- (Hh (length a + i)%nat x); [f_equal; lia |].
      rewrite lookup_app_r by lia. rewrite <- Hx. f_equal. lia.
  - intros [Ha Hb] i x [Hx | [Hi Hx]]%lookup_app_Some; [by apply Ha |].
    rewrite <- (Hb _ _ Hx). f_equal. lia.
Qed.

Lemma holds_load_wrap m a n z : holds m a (le_bytes (Z.of_nat n) z) -> load m a n = wrap (8 * Z.of_nat n) z.
Proof.
  intros H. unfold load.
  assert (map (fun i => m (a + Z.of_nat i)) (seq 0 n) = le_bytes (Z.of_nat n) z) as ->.
  { apply list_eq_same_length with n; [by rewrite length_le_bytes, Nat2Z.id by lia | by rewrite length_map, length_seq |].
    intros i x y Hi Hx Hy. apply list_lookup_fmap_Some in Hx as (j & -> & Hj). apply lookup_seq in Hj as [-> _].
    cbn. by apply H. }
  unfold le_bytes. rewrite little_endian_to_Z_to_little_endian by lia. by rewrite (Z.mul_comm (Z.of_nat n)).
Qed.

Lemma holds_load m a n z : holds m a (le_bytes (Z.of_nat n) z) -> in_range (8 * Z.of_nat n) z -> load m a n = z.
Proof. intros H Hz. rewrite (holds_load_wrap _ _ _ _ H). by apply wrap_small. Qed.

Lemma holds_cons m a b bs : holds m a (b :: bs) <-> m a = b /\ holds m (a + 1) bs.
Proof.
  change (b :: bs) with ([b] ++ bs). rewrite holds_app. split; intros [H1 H2]; split; try done.
  - pose proof (H1 0%nat b eq_refl) as E. by rewrite Z.add_0_r in E.
  - intros i c Hi. destruct i as [| i]; [| done]. cbn in Hi. injection Hi as <-. by rewrite Z.add_0_r.
Qed.

Lemma store_holds m p bs : holds (store_bytes m p bs) p bs.
Proof.
  intros i b Hi. by apply store_bytes_in.
Qed.

(** *** C strings *)

(** The bytes of the string at [p], up to its terminating zero. *)
Fixpoint cstr (m : ram) (p : Z) (fuel : nat) : outcome (list Z) :=
  match fuel with
  | O => OutOfFuel
  | S n => if m p =? 0 then Ret [] else s ← cstr m (p + 1) n; Ret (m p :: s)
  end.

Lemma holds_cstr m p s n :
  holds m p (s ++ [0]) -> Forall (fun b => b <> 0) s -> (length s < n)%nat -> cstr m p n = Ret s.
Proof.
  revert p n. induction s as [| b s IH]; intros p n Hh Hz Hn; destruct n as [| n]; [lia | | lia |].
  - cbn. pose proof (Hh 0%nat 0 eq_refl) as E. rewrite Z.add_0_r in E. by rewrite E.
  - apply Forall_cons in Hz as [Hb Hz]. cbn. pose proof (Hh 0%nat b eq_refl) as E.
    rewrite Z.add_0_r in E. rewrite E, (proj2 (Z.eqb_neq b 0)) by done.
    simpl in Hn. rewrite (IH (p + 1)); [done | | done | lia].
    intros i x Hx. rewrite <- (Hh (S i) x Hx). f_equal. lia.
Qed.
