(* ===== verification/Utils.v ===== *)
(** * kernel/utils.h: the helpers the other components share

    Alignment, big-endian reads, number formatting, memory zones, [Nullable]
    and closed ranges.  Pointers are byte addresses; [uintptr_t], [size_t] and
    [uint64_t] are 64 bits wide. *)

From S2P Require Import Prelude.

Module Utils.

(** kernel/utils.h:30-36, Utils::Align.  Rounds [value] up to [alignment]; the
    addition wraps at 64 bits. *)
Definition Align (value alignment : Z) : outcome Z :=
  _ ← rt_assert (negb (alignment =? 0)) "alignment";
  if negb (value `mod` alignment =? 0)
  then Ret (u64 (value + (alignment - value `mod` alignment)))
  else Ret value.

(** kernel/utils.h:44-47, Utils::AlignPtr. *)
Definition AlignPtr (ptr alignment : Z) : outcome Z := Align ptr alignment.

(** kernel/utils.h:55-57, Utils::IsSafeDouble. *)
Definition IsSafeDouble (value : Z) : bool := value =? Z.land value 0x1fffffffffffff.

(** kernel/utils.h:66-69, Utils::ReadUint32BE. *)
Definition ReadUint32BE (m : ram) (p : Z) : Z :=
  u32 (Z.lor (Z.lor (Z.lor (m (p + 3)) (Z.shiftl (m (p + 2)) 8))
                    (Z.shiftl (m (p + 1)) 16))
             (Z.shiftl (m p) 24)).

(** kernel/utils.h:71-74, Utils::ReadUint16BE. *)
Definition ReadUint16BE (m : ram) (p : Z) : Z :=
  u16 (Z.lor (m (p + 1)) (Z.shiftl (m p) 8)).

(** ** Number formatting *)

(** kernel/utils.h:96-101, the digit written for [i] in Utils::ToString. *)
Definition digit_char (i : Z) : Z := if i <? 10 then i + 48 else i + 97 - 10.

(** kernel/utils.h:93-102, the digit loop of Utils::ToString.  [first] is the
    test [tp == tmp]; the digits come out least significant first.  A 64-bit
    value has at most 64 digits in any radix, the fuel of [ToString]. *)
Fixpoint digits (fuel : nat) (first : bool) (v radix : Z) : option (list Z) :=
  if negb (v =? 0) || first then
    match fuel with
    | O => None
    | S fuel' =>
        match digits fuel' false (v / radix) radix with
        | Some ds => Some (digit_char (v `mod` radix) :: ds)
        | None => None
        end
    end
  else Some [].

(** kernel/utils.h:77-111, Utils::ToString.  The characters stored at [sp],
    the terminating zero included; [value] is of a signed or unsigned integer
    type of at most 64 bits. *)
Definition ToString (value radix0 : Z) : option (list Z) :=
  let radix := if (radix0 <? 2) || (36 <? radix0) then 10 else radix0 in
  let sign := (radix =? 10) && (value <? 0) in
  let v := if sign then u64 (- value) else u64 value in
  match digits 64 true v radix with
  | Some tmp => Some ((if sign then [45] else []) ++ rev tmp ++ [0])
  | None => None
  end.

(** ** Zones, nullable values, ranges *)

(** kernel/utils.h:126-147, MemoryZone.  A null pointer is address zero. *)
Record MemoryZone : Type := mkZone { zone_ptr : Z; zone_size : Z }.

(** kernel/utils.h:140-142, MemoryZone::empty. *)
Definition zone_empty (z : MemoryZone) : bool := (zone_ptr z =? 0) && (zone_size z =? 0).

(** kernel/utils.h:149-166, Nullable.  [None] is the empty value. *)
Definition Nullable (A : Type) : Type := option A.

(** kernel/utils.h:159-162, Nullable::get. *)
Definition Nullable_get {A} (n : Nullable A) : outcome A :=
  match n with Some a => Ret a | None => Fatal "!empty_" end.

(** kernel/utils.h:171-200, Range: the closed range [[begin_, end_]]. *)
Record Range : Type := mkRange { begin_ : Z; end_ : Z }.

(** kernel/utils.h:174-177, Range::Range. *)
Definition Range_new (b e : Z) : outcome Range :=
  _ ← rt_assert (b <=? e) "begin_ <= end_"; Ret (mkRange b e).

(** kernel/utils.h:179-181, Range::IsOverlaps. *)
Definition IsOverlaps (r other : Range) : bool :=
  (begin_ r <=? end_ other) && (begin_ other <=? end_ r).

(** kernel/utils.h:183-185, Range::IsSubrangeOf. *)
Definition IsSubrangeOf (r other : Range) : bool :=
  (begin_ r >=? begin_ other) && (end_ r <=? end_ other).

(** kernel/utils.h:187-189, Range::Contains. *)
Definition Contains (r : Range) (value : Z) : bool :=
  (value >=? begin_ r) && (value <=? end_ r).

(** ** Lemmas *)

Lemma Align_up value alignment :
  in_range 64 value -> 0 < alignment -> value + alignment <= 2 ^ 64 ->
  exists r, Align value alignment = Ret r /\
    (alignment | r) /\ value <= r < value + alignment.
Proof.
  intros [Hv0 Hv] Ha Hbig. unfold Align.
  rewrite (proj2 (Z.eqb_neq alignment 0)) by lia. simpl.
  pose proof (Z.mod_pos_bound value alignment Ha) as Hm.
  pose proof (Z.div_mod value alignment ltac:(lia)) as Hd.
  destruct (Z.eqb_spec (value `mod` alignment) 0) as [E | E]; simpl.
  - exists value. split; [done |]. split; [| lia].
    apply Z.mod_divide; lia.
  - unfold u64. rewrite wrap_small by (red; lia). eexists; split; [done |].
    split; [| lia]. exists (value / alignment + 1). nia.
Qed.

(** The address of a page that ends before the 64-bit space does is aligned up
    without wrapping. *)
Lemma Align_multiple value alignment :
  0 < alignment -> (alignment | value) -> Align value alignment = Ret value.
Proof.
  intros Ha Hd. unfold Align. rewrite (proj2 (Z.eqb_neq alignment 0)) by lia. simpl.
  apply Z.mod_divide in Hd; [| lia]. by rewrite Hd.
Qed.

Lemma lor_shiftl_add a b n :
  0 <= n -> in_range n a -> Z.lor a (Z.shiftl b n) = a + b * 2 ^ n.
Proof.
  intros Hn Ha. rewrite <- Z.shiftl_mul_pow2 by done.
  assert (Z.land a (Z.shiftl b n) = 0) as E.
  { bits. destruct (decide (i < n)).
    - by rewrite (Z.testbit_neg_r b), andb_false_r by lia.
    - by rewrite (testbit_high n a) by (done || lia). }
  rewrite <- Z.lxor_lor by done. symmetry. by apply Z.add_nocarry_lxor.
Qed.

Lemma ReadUint16BE_value m p :
  ram_ok m -> ReadUint16BE m p = m p * 2 ^ 8 + m (p + 1).
Proof.
  intros Hm. unfold ReadUint16BE, u16.
  pose proof (Hm p). pose proof (Hm (p + 1)). unfold in_range in *.
  rewrite lor_shiftl_add by (done || lia). rewrite wrap_small; [lia | red; lia].
Qed.

(** Each byte of a big-endian read goes to its place. *)
Lemma ReadUint32BE_value m p :
  ram_ok m ->
  ReadUint32BE m p =
    m p * 2 ^ 24 + m (p + 1) * 2 ^ 16 + m (p + 2) * 2 ^ 8 + m (p + 3).
Proof.
  intros Hm. unfold ReadUint32BE, u32.
  pose proof (Hm p). pose proof (Hm (p + 1)). pose proof (Hm (p + 2)).
  pose proof (Hm (p + 3)). unfold in_range in *.
  rewrite (lor_shiftl_add (m (p + 3)) _ 8) by (lia || red; lia).
  rewrite (lor_shiftl_add (m (p + 3) + _) _ 16) by (lia || red; lia).
  rewrite (lor_shiftl_add (m (p + 3) + _ + _) _ 24) by (lia || red; lia).
  rewrite wrap_small; [lia | red; lia].
Qed.

(** Reading back a string of digits, most significant first. *)
Definition digit_value (c : Z) : Z := if c <? 58 then c - 48 else c - 97 + 10.
Definition number_of (radix : Z) (ds : list Z) : Z :=
  fold_left (fun acc c => acc * radix + digit_value c) ds 0.

Lemma digit_value_char i : 0 <= i < 36 -> digit_value (digit_char i) = i.
Proof.
  intros Hi. unfold digit_value, digit_char.
  destruct (Z.ltb_spec i 10); case_match eqn:E; rewrite ?Z.ltb_lt, ?Z.ltb_ge in E; lia.
Qed.

Lemma number_of_snoc radix ds c :
  number_of radix (ds ++ [c]) = number_of radix ds * radix + digit_value c.
Proof. unfold number_of. by rewrite fold_left_app. Qed.

Lemma digits_complete fuel first v radix :
  2 <= radix <= 36 -> 0 <= v < 2 ^ Z.of_nat fuel ->
  (first = true -> (0 < fuel)%nat) ->
  exists ds, digits fuel first v radix = Some ds /\
    (length ds <= fuel)%nat /\ number_of radix (rev ds) = v.
Proof.
  intros Hr. revert first v. induction fuel as [| n IH]; intros first v Hv Hf.
  - assert (v = 0) as -> by (simpl in Hv; lia).
    destruct first; [specialize (Hf eq_refl); lia |]. by exists [].
  - simpl. destruct (negb (v =? 0) || first) eqn:Hc.
    2: { apply orb_false_iff in Hc as [Hz _].
         rewrite negb_false_iff, Z.eqb_eq in Hz. subst. exists []. simpl. auto with lia. }
    rewrite Nat2Z.inj_succ, Z.pow_succ_r in Hv by lia.
    pose proof (Z.mod_pos_bound v radix ltac:(lia)).
    pose proof (Z.div_mod v radix ltac:(lia)) as Hd.
    destruct (IH false (v / radix)) as (ds & -> & Hl & Hn); [| done |].
    + split; [apply Z.div_pos; lia |]. apply Z.div_lt_upper_bound; nia.
    + eexists; split; [done |]. simpl. split; [lia |].
      rewrite number_of_snoc, Hn, digit_value_char by lia. lia.
Qed.

End Utils.
