(* ===== verification/Crc32.v ===== *)
(** * kernel/crc32.cc: the checksum of initrd files

    The table-driven [CRC32::Compute], and the bit-serial definition of the
    same checksum (the reflected polynomial 0xEDB88320) it is proved equal to. *)

From S2P Require Import Prelude Utils.

Module CRC32.

(** kernel/crc32.cc:5-70, crc32_table. *)
Definition crc32_table : list Z := [
  0x00000000; 0x77073096; 0xee0e612c; 0x990951ba;
  0x076dc419; 0x706af48f; 0xe963a535; 0x9e6495a3;
  0x0edb8832; 0x79dcb8a4; 0xe0d5e91e; 0x97d2d988;
  0x09b64c2b; 0x7eb17cbd; 0xe7b82d07; 0x90bf1d91;
  0x1db71064; 0x6ab020f2; 0xf3b97148; 0x84be41de;
  0x1adad47d; 0x6ddde4eb; 0xf4d4b551; 0x83d385c7;
  0x136c9856; 0x646ba8c0; 0xfd62f97a; 0x8a65c9ec;
  0x14015c4f; 0x63066cd9; 0xfa0f3d63; 0x8d080df5;
  0x3b6e20c8; 0x4c69105e; 0xd56041e4; 0xa2677172;
  0x3c03e4d1; 0x4b04d447; 0xd20d85fd; 0xa50ab56b;
  0x35b5a8fa; 0x42b2986c; 0xdbbbc9d6; 0xacbcf940;
  0x32d86ce3; 0x45df5c75; 0xdcd60dcf; 0xabd13d59;
  0x26d930ac; 0x51de003a; 0xc8d75180; 0xbfd06116;
  0x21b4f4b5; 0x56b3c423; 0xcfba9599; 0xb8bda50f;
  0x2802b89e; 0x5f058808; 0xc60cd9b2; 0xb10be924;
  0x2f6f7c87; 0x58684c11; 0xc1611dab; 0xb6662d3d;
  0x76dc4190; 0x01db7106; 0x98d220bc; 0xefd5102a;
  0x71b18589; 0x06b6b51f; 0x9fbfe4a5; 0xe8b8d433;
  0x7807c9a2; 0x0f00f934; 0x9609a88e; 0xe10e9818;
  0x7f6a0dbb; 0x086d3d2d; 0x91646c97; 0xe6635c01;
  0x6b6b51f4; 0x1c6c6162; 0x856530d8; 0xf262004e;
  0x6c0695ed; 0x1b01a57b; 0x8208f4c1; 0xf50fc457;
  0x65b0d9c6; 0x12b7e950; 0x8bbeb8ea; 0xfcb9887c;
  0x62dd1ddf; 0x15da2d49; 0x8cd37cf3; 0xfbd44c65;
  0x4db26158; 0x3ab551ce; 0xa3bc0074; 0xd4bb30e2;
  0x4adfa541; 0x3dd895d7; 0xa4d1c46d; 0xd3d6f4fb;
  0x4369e96a; 0x346ed9fc; 0xad678846; 0xda60b8d0;
  0x44042d73; 0x33031de5; 0xaa0a4c5f; 0xdd0d7cc9;
  0x5005713c; 0x270241aa; 0xbe0b1010; 0xc90c2086;
  0x5768b525; 0x206f85b3; 0xb966d409; 0xce61e49f;
  0x5edef90e; 0x29d9c998; 0xb0d09822; 0xc7d7a8b4;
  0x59b33d17; 0x2eb40d81; 0xb7bd5c3b; 0xc0ba6cad;
  0xedb88320; 0x9abfb3b6; 0x03b6e20c; 0x74b1d29a;
  0xead54739; 0x9dd277af; 0x04db2615; 0x73dc1683;
  0xe3630b12; 0x94643b84; 0x0d6d6a3e; 0x7a6a5aa8;
  0xe40ecf0b; 0x9309ff9d; 0x0a00ae27; 0x7d079eb1;
  0xf00f9344; 0x8708a3d2; 0x1e01f268; 0x6906c2fe;
  0xf762575d; 0x806567cb; 0x196c3671; 0x6e6b06e7;
  0xfed41b76; 0x89d32be0; 0x10da7a5a; 0x67dd4acc;
  0xf9b9df6f; 0x8ebeeff9; 0x17b7be43; 0x60b08ed5;
  0xd6d6a3e8; 0xa1d1937e; 0x38d8c2c4; 0x4fdff252;
  0xd1bb67f1; 0xa6bc5767; 0x3fb506dd; 0x48b2364b;
  0xd80d2bda; 0xaf0a1b4c; 0x36034af6; 0x41047a60;
  0xdf60efc3; 0xa867df55; 0x316e8eef; 0x4669be79;
  0xcb61b38c; 0xbc66831a; 0x256fd2a0; 0x5268e236;
  0xcc0c7795; 0xbb0b4703; 0x220216b9; 0x5505262f;
  0xc5ba3bbe; 0xb2bd0b28; 0x2bb45a92; 0x5cb36a04;
  0xc2d7ffa7; 0xb5d0cf31; 0x2cd99e8b; 0x5bdeae1d;
  0x9b64c2b0; 0xec63f226; 0x756aa39c; 0x026d930a;
  0x9c0906a9; 0xeb0e363f; 0x72076785; 0x05005713;
  0x95bf4a82; 0xe2b87a14; 0x7bb12bae; 0x0cb61b38;
  0x92d28e9b; 0xe5d5be0d; 0x7cdcefb7; 0x0bdbdf21;
  0x86d3d2d4; 0xf1d4e242; 0x68ddb3f8; 0x1fda836e;
  0x81be16cd; 0xf6b9265b; 0x6fb077e1; 0x18b74777;
  0x88085ae6; 0xff0f6a70; 0x66063bca; 0x11010b5c;
  0x8f659eff; 0xf862ae69; 0x616bffd3; 0x166ccf45;
  0xa00ae278; 0xd70dd2ee; 0x4e048354; 0x3903b3c2;
  0xa7672661; 0xd06016f7; 0x4969474d; 0x3e6e77db;
  0xaed16a4a; 0xd9d65adc; 0x40df0b66; 0x37d83bf0;
  0xa9bcae53; 0xdebb9ec5; 0x47b2cf7f; 0x30b5ffe9;
  0xbdbdf21c; 0xcabac28a; 0x53b39330; 0x24b4a3a6;
  0xbad03605; 0xcdd70693; 0x54de5729; 0x23d967bf;
  0xb3667a2e; 0xc4614ab8; 0x5d681b02; 0x2a6f2b94;
  0xb40bbe37; 0xc30c8ea1; 0x5a05df1b; 0x2d02ef8d
].

(** kernel/crc32.cc:76-76, the body of the loop of CRC32::Compute. *)
Definition step (r b : Z) : Z :=
  Z.lxor (Z.shiftr r 8)
         (default 0 (crc32_table !! Z.to_nat (Z.land (Z.lxor r b) 0xff))).

(** kernel/crc32.cc:75-77, the loop of CRC32::Compute over [length] bytes at [p]. *)
Fixpoint crc_loop (m : ram) (p : Z) (length : nat) (r : Z) : Z :=
  match length with
  | O => r
  | S i => crc_loop m (p + 1) i (step r (m p))
  end.

(** kernel/crc32.cc:72-79, CRC32::Compute. *)
Definition Compute (m : ram) (s : Z) (length : Z) : Z :=
  let r := crc_loop m s (Z.to_nat length) 0xffffffff in
  u32 (Z.lnot r).

(** ** The reference: one bit at a time *)

Definition poly : Z := 0xEDB88320.

Definition crc_bit (r : Z) : Z :=
  Z.lxor (Z.shiftr r 1) (if Z.testbit r 0 then poly else 0).

Definition crc_byte (r b : Z) : Z := Nat.iter 8 crc_bit (Z.lxor r b).

Definition crc_ref (bs : list Z) : Z :=
  u32 (Z.lnot (fold_left crc_byte bs 0xffffffff)).

(** The [length] bytes at [s]. *)
Definition bytes_at (m : ram) (s : Z) (length : nat) : list Z :=
  map (fun i => m (s + Z.of_nat i)) (seq 0 length).

#[local] Arguments step : simpl never.
#[local] Arguments crc_byte : simpl never.

(** ** Lemmas *)

Lemma crc_bit_lxor a b : crc_bit (Z.lxor a b) = Z.lxor (crc_bit a) (crc_bit b).
Proof.
  unfold crc_bit. rewrite Z.shiftr_lxor, Z.lxor_spec.
  destruct (Z.testbit a 0), (Z.testbit b 0); simpl;
    rewrite ?Z.lxor_0_r, <- ?Z.lxor_assoc; try done.
  - rewrite (Z.lxor_assoc (Z.shiftr a 1) poly), (Z.lxor_comm poly), <- Z.lxor_assoc.
    by rewrite Z.lxor_assoc, Z.lxor_nilpotent, Z.lxor_0_r.
  - rewrite !Z.lxor_assoc. f_equal. apply Z.lxor_comm.
Qed.

Lemma crc_bits_lxor n a b :
  Nat.iter n crc_bit (Z.lxor a b) = Z.lxor (Nat.iter n crc_bit a) (Nat.iter n crc_bit b).
Proof. induction n as [| n IH]; simpl; [done | by rewrite IH, crc_bit_lxor]. Qed.

(** Bits above the ones shifted out only move down. *)
Lemma crc_bits_shiftl n a :
  Nat.iter n crc_bit (Z.shiftl a (Z.of_nat n)) = a.
Proof.
  revert a; induction n as [| n IH]; intros a; [apply Z.shiftl_0_r |].
  rewrite Nat.iter_succ_r. unfold crc_bit at 2.
  rewrite Z.shiftl_spec, (Z.testbit_neg_r a), Z.lxor_0_r by lia.
  rewrite Z.shiftr_shiftl_l by lia. replace (Z.of_nat (S n) - 1) with (Z.of_nat n) by lia.
  apply IH.
Qed.

Lemma split_byte r : r = Z.lxor (Z.shiftl (Z.shiftr r 8) 8) (Z.land r 0xff).
Proof.
  change 0xff with (Z.ones 8). bits. case_bool_decide; simpl.
  - rewrite (Z.testbit_neg_r _ (i - 8)), andb_true_r by lia. by destruct (Z.testbit r i).
  - rewrite Z.shiftr_spec, andb_false_r, xorb_false_r by lia. f_equal; lia.
Qed.

Lemma table_bits :
  forallb (fun i => default 0 (crc32_table !! i) =? Nat.iter 8 crc_bit (Z.of_nat i))
          (seq 0 256) = true.
Proof. vm_compute. reflexivity. Qed.

Lemma land_byte x : 0 <= Z.land x 0xff < 256.
Proof. rewrite (land_mask 8) by (done || lia). apply (wrap_range 8); lia. Qed.

Lemma table_lookup x :
  default 0 (crc32_table !! Z.to_nat (Z.land x 0xff)) =
  Nat.iter 8 crc_bit (Z.land x 0xff).
Proof.
  pose proof (land_byte x) as H. pose proof table_bits as T.
  rewrite List.forallb_forall in T.
  specialize (T (Z.to_nat (Z.land x 0xff))).
  rewrite Z.eqb_eq, Z2Nat.id in T by lia. apply T, in_seq. lia.
Qed.

Lemma step_bits r b : in_range 8 b -> step r b = crc_byte r b.
Proof.
  intros Hb. unfold step, crc_byte. rewrite table_lookup.
  rewrite (split_byte (Z.lxor r b)) at 2.
  rewrite crc_bits_lxor. f_equal.
  change 8 with (Z.of_nat 8) at 3. rewrite crc_bits_shiftl.
  rewrite Z.shiftr_lxor. replace (Z.shiftr b 8) with 0; [by rewrite Z.lxor_0_r |].
  symmetry. rewrite Z.shiftr_div_pow2 by lia. apply Z.div_small, Hb.
Qed.

Lemma bytes_at_S m p n : bytes_at m p (S n) = m p :: bytes_at m (p + 1) n.
Proof.
  unfold bytes_at. cbn [seq map]. rewrite Z.add_0_r. f_equal.
  rewrite <- seq_shift, map_map. apply map_ext. intros i. f_equal. lia.
Qed.

Lemma crc_loop_fold m p n r :
  ram_ok m -> crc_loop m p n r = fold_left crc_byte (bytes_at m p n) r.
Proof.
  intros Hm. revert p r. induction n as [| n IH]; intros p r; [reflexivity |].
  transitivity (crc_loop m (p + 1) n (step r (m p))); [reflexivity |].
  by rewrite bytes_at_S, IH, (step_bits r (m p) (Hm p)), fold_left_cons.
Qed.

(** The top bytes of the table entries are pairwise different, so the register
    determines, and is determined by, the byte that was fed to it. *)
Lemma table_top_NoDup : NoDup (map (fun t => Z.shiftr t 24) crc32_table).
Proof. apply (bool_decide_unpack _). vm_compute. exact I. Qed.

Lemma table_range x : in_range 32 (default 0 (crc32_table !! x)).
Proof.
  destruct (crc32_table !! x) as [t |] eqn:E; simpl; [| by split].
  assert (Forall (in_range 32) crc32_table) as F
    by (apply (bool_decide_unpack _); vm_compute; exact I).
  by eapply (Forall_lookup_1 _ _ _ _ F).
Qed.

Lemma step_range r b : in_range 32 r -> in_range 32 (step r b).
Proof.
  intros Hr. apply lxor_range; [lia | | apply table_range].
  apply shiftr_range; [lia | done].
Qed.

Lemma table_top_inj x y :
  Z.shiftr (default 0 (crc32_table !! Z.to_nat (Z.land x 0xff))) 24 =
  Z.shiftr (default 0 (crc32_table !! Z.to_nat (Z.land y 0xff))) 24 ->
  Z.land x 0xff = Z.land y 0xff.
Proof.
  pose proof (land_byte x). pose proof (land_byte y). intros E.
  assert (forall z, 0 <= z < 256 -> exists t, crc32_table !! Z.to_nat z = Some t) as L.
  { intros z Hz. apply lookup_lt_is_Some. simpl. lia. }
  destruct (L (Z.land x 0xff)) as [t Ht]; [done |].
  destruct (L (Z.land y 0xff)) as [t' Ht']; [done |].
  rewrite Ht, Ht' in E. simpl in E.
  assert (Z.to_nat (Z.land x 0xff) = Z.to_nat (Z.land y 0xff)); [| lia].
  eapply (NoDup_lookup _ _ _ _ table_top_NoDup);
    rewrite list_lookup_fmap; [rewrite Ht | rewrite Ht']; simpl; [done | by rewrite E].
Qed.

Lemma step_top r b :
  in_range 32 r ->
  Z.shiftr (step r b) 24 =
  Z.shiftr (default 0 (crc32_table !! Z.to_nat (Z.land (Z.lxor r b) 0xff))) 24.
Proof.
  intros [Hr0 Hr]. unfold step. rewrite Z.shiftr_lxor, Z.shiftr_shiftr by lia.
  rewrite (Z.shiftr_div_pow2 r) by lia. by rewrite Z.div_small, Z.lxor_0_l by lia.
Qed.

(** Equal registers after a step come from equal low bytes and equal rests. *)
Lemma step_inv r b r' b' :
  in_range 32 r -> in_range 32 r' -> step r b = step r' b' ->
  Z.land (Z.lxor r b) 0xff = Z.land (Z.lxor r' b') 0xff /\ Z.shiftr r 8 = Z.shiftr r' 8.
Proof.
  intros Hr Hr' E.
  assert (Z.land (Z.lxor r b) 0xff = Z.land (Z.lxor r' b') 0xff) as E8.
  { apply table_top_inj. by rewrite <- !step_top, E. }
  split; [done |]. unfold step in E. rewrite E8 in E.
  apply (f_equal (fun z => Z.lxor z (default 0
    (crc32_table !! Z.to_nat (Z.land (Z.lxor r' b') 0xff))))) in E.
  by rewrite !Z.lxor_assoc, !Z.lxor_nilpotent, !Z.lxor_0_r in E.
Qed.

Lemma lxor_cancel_r a b c : Z.lxor a c = Z.lxor b c -> a = b.
Proof.
  intros E%(f_equal (fun z => Z.lxor z c)).
  by rewrite !Z.lxor_assoc, !Z.lxor_nilpotent, !Z.lxor_0_r in E.
Qed.

Lemma land_byte_lxor a b : Z.land (Z.lxor a b) 0xff = Z.lxor (Z.land a 0xff) (Z.land b 0xff).
Proof. bits. btauto. Qed.

Lemma step_inj_r r r' b :
  in_range 32 r -> in_range 32 r' -> step r b = step r' b -> r = r'.
Proof.
  intros Hr Hr' [E8 Eh]%step_inv; [| done..].
  rewrite !land_byte_lxor in E8. apply lxor_cancel_r in E8.
  rewrite (split_byte r), (split_byte r'). by rewrite Eh, E8.
Qed.

Lemma step_inj_b r b b' :
  in_range 32 r -> in_range 8 b -> in_range 8 b' -> step r b = step r b' -> b = b'.
Proof.
  intros Hr Hb Hb' [E8 _]%step_inv; [| done..].
  rewrite !land_byte_lxor, (Z.lxor_comm (Z.land r _)), (Z.lxor_comm (Z.land r _)) in E8.
  apply lxor_cancel_r in E8. rewrite !(land_mask 8) in E8 by (done || lia).
  by rewrite !wrap_small in E8.
Qed.

Lemma crc_loop_inj m m' p n r r' :
  in_range 32 r -> in_range 32 r' ->
  (forall a, p <= a < p + Z.of_nat n -> m a = m' a) ->
  crc_loop m p n r = crc_loop m' p n r' -> r = r'.
Proof.
  revert p r r'; induction n as [| n IH]; intros p r r' Hr Hr' Hm E; [done |].
  simpl in E. apply IH in E; [| by apply step_range..| intros; apply Hm; lia].
  rewrite (Hm p) in E by lia. by apply step_inj_r in E.
Qed.

Lemma crc_loop_detects m m' p n k r :
  ram_ok m -> ram_ok m' -> in_range 32 r -> (k < n)%nat ->
  (forall a, p <= a < p + Z.of_nat n -> a <> p + Z.of_nat k -> m a = m' a) ->
  m (p + Z.of_nat k) <> m' (p + Z.of_nat k) ->
  crc_loop m p n r <> crc_loop m' p n r.
Proof.
  intros Hm Hm'. revert p k r; induction n as [| n IH]; intros p k r Hr Hk Heq Hne; [lia |].
  simpl. destruct k as [| k].
  - intros E. apply crc_loop_inj in E; [| by apply step_range..| intros; apply Heq; lia].
    rewrite Z.add_0_r in Hne. by apply step_inj_b in E.
  - rewrite <- (Heq p) by lia. apply (IH _ k); [by apply step_range | lia | |].
    + intros a Ha Hak. apply Heq; lia.
    + by replace (p + 1 + Z.of_nat k) with (p + Z.of_nat (S k)) by lia.
Qed.

Lemma crc_loop_range m p n r : in_range 32 r -> in_range 32 (crc_loop m p n r).
Proof.
  revert p r; induction n as [| n IH]; intros p r Hr; [done |]. by apply IH, step_range.
Qed.

Lemma u32_lnot_inj a b :
  in_range 32 a -> in_range 32 b -> u32 (Z.lnot a) = u32 (Z.lnot b) -> a = b.
Proof.
  intros Ha Hb E. rewrite <- (wrap_small 32 a), <- (wrap_small 32 b) by done.
  apply Z.bits_inj'. intros i Hi. apply (f_equal (fun z => Z.testbit z i)) in E.
  unfold u32 in E. rewrite !testbit_wrap, !Z.lnot_spec in * by lia.
  case_bool_decide; simpl in *; [| done].
  by destruct (Z.testbit a i), (Z.testbit b i).
Qed.

(** ** Theorems *)

(** C20. The table-driven checksum of any buffer is the bit-serial CRC-32 of its
    bytes (reflected polynomial 0xEDB88320, initial value and final complement
    of all ones). *)
Theorem Compute_bitwise (m : ram) (s length : Z) (Hm : ram_ok m) :
  Compute m s length = crc_ref (bytes_at m s (Z.to_nat length)).
Proof. unfold Compute, crc_ref. by rewrite crc_loop_fold. Qed.

Lemma Compute_bitwise_witness :
  Compute (ram_of 0x1000 [49; 50; 51; 52; 53; 54; 55; 56; 57]) 0x1000 9
  = crc_ref [49; 50; 51; 52; 53; 54; 55; 56; 57] /\
  crc_ref [49; 50; 51; 52; 53; 54; 55; 56; 57] = 0xCBF43926.
Proof.
  split; [| vm_compute; reflexivity].
  apply Compute_bitwise, ram_of_ok, (bool_decide_unpack _). vm_compute. exact I.
Defined.

(** Corrupting a single byte of a file, anywhere, always changes its
    checksum: an initrd file with one wrong byte is never accepted. *)
Theorem Compute_detects_byte (m m' : ram) (s length k : Z)
  (Hm : ram_ok m) (Hm' : ram_ok m') (Hk : 0 <= k < length)
  (Heq : forall a, s <= a < s + length -> a <> s + k -> m a = m' a)
  (Hne : m (s + k) <> m' (s + k)) :
  Compute m s length <> Compute m' s length.
Proof.
  unfold Compute. intros E. apply u32_lnot_inj in E; try (apply crc_loop_range; by split).
  revert E. apply (crc_loop_detects _ _ _ _ (Z.to_nat k));
    rewrite ?Z2Nat.id by lia; [done | done | by split | lia | done | done].
Qed.

Lemma Compute_detects_byte_witness :
  Compute (ram_of 0 [1; 2; 3]) 0 3 <> Compute (ram_of 0 [1; 7; 3]) 0 3.
Proof.
  apply (Compute_detects_byte _ _ 0 3 1).
  - apply ram_of_ok, (bool_decide_unpack _). vm_compute. exact I.
  - apply ram_of_ok, (bool_decide_unpack _). vm_compute. exact I.
  - lia.
  - intros a Ha Hk. assert (a = 0 \/ a = 2) as [-> | ->] by lia; reflexivity.
  - vm_compute. discriminate.
Defined.

End CRC32.
