(* ===== verification/Multiboot.v ===== *)
(** * kernel/multiboot.h, kernel/multiboot.cc: the boot information

    The structure the boot loader leaves in memory, and the enumerator over
    its memory map that the physical allocator is filled from.  Memory is read
    only here: a [ram]. *)

From S2P Require Import Prelude Utils.

Module Multiboot.
Import Utils.

(** kernel/multiboot.h:33-52, MultibootStruct.  Packed, so field [i] is at
    offset [4 * i]. *)
Record MultibootStruct : Type := mkMultibootStruct {
  flags : Z; mem_lower : Z; mem_upper : Z; boot_device : Z; cmdline : Z;
  module_count : Z; module_addr : Z; syms1 : Z; syms2 : Z; syms3 : Z;
  reserved : Z; mmap_len : Z; mmap_addr : Z; drives_len : Z; drives_addr : Z;
  config_tbl : Z; bootloader_name : Z }.

Definition MultibootStruct_at (m : ram) (p : Z) : MultibootStruct :=
  let f i := load32 m (p + 4 * i) in
  mkMultibootStruct (f 0) (f 1) (f 2) (f 3) (f 4) (f 5) (f 6) (f 7) (f 8) (f 9)
    (f 10) (f 11) (f 12) (f 13) (f 14) (f 15) (f 16).

(** kernel/multiboot.h:54-59, MultibootMemoryMapEntry.  Packed: 24 bytes. *)
Record MultibootMemoryMapEntry : Type := mkEntry {
  e_size : Z; e_base_addr : Z; e_length : Z; e_type : Z }.

Definition entry_at (m : ram) (p : Z) : MultibootMemoryMapEntry :=
  mkEntry (load32 m p) (load64 m (p + 4)) (load64 m (p + 12)) (load32 m (p + 20)).

(** kernel/multiboot.h:61-64, MultibootModuleEntry. *)
Record MultibootModuleEntry : Type := mkModule { mod_start : Z; mod_end : Z }.

Definition module_at (m : ram) (p : Z) : MultibootModuleEntry :=
  mkModule (load32 m p) (load32 m (p + 4)).

(** kernel/multiboot.h:66-74, MultibootMemoryMapEnumerator.  The three members
    are [uint32_t]. *)
Record MultibootMemoryMapEnumerator : Type := mkEnum {
  mmap_start_ : Z; mmap_current_ : Z; mmap_len_ : Z }.

(** kernel/multiboot.cc:24-47, MultibootMemoryMapEnumerator::MultibootMemoryMapEnumerator. *)
Definition memory_map (m : ram) (base_addr : Z) : outcome MultibootMemoryMapEnumerator :=
  let len := mmap_len (MultibootStruct_at m base_addr) in
  let addr := mmap_addr (MultibootStruct_at m base_addr) in
  if (addr =? 0) || (len =? 0) then Fatal "Invalid memory map provided."
  else Ret (mkEnum addr addr len).

(** kernel/multiboot.cc:49-80, MultibootMemoryMapEnumerator::NextAvailableMemory.
    The end of the map is a 32-bit sum, and the position advances modulo
    [2^32]; the fuel counts the entries that are skipped. *)
Fixpoint NextAvailableMemory (m : ram) (fuel : nat) (e : MultibootMemoryMapEnumerator)
  : outcome (MemoryZone * MultibootMemoryMapEnumerator) :=
  if mmap_current_ e >=? u32 (mmap_start_ e + mmap_len_ e) then Ret (mkZone 0 0, e)
  else match fuel with
  | O => OutOfFuel
  | S fuel' =>
      let cur := mmap_current_ e in
      _ ← rt_assert (negb (cur =? 0)) "entry";
      let ent := entry_at m cur in
      _ ← rt_assert (negb (e_size ent =? 0)) "size";
      let e' := mkEnum (mmap_start_ e) (u32 (cur + (e_size ent + 4))) (mmap_len_ e) in
      if negb (e_type ent =? 1) then NextAvailableMemory m fuel' e'
      else Ret (mkZone (e_base_addr ent) (e_length ent), e')
  end.

(** ** Well-formed memory maps

    [mmap_wf m cur stop es]: the entries [es] lie back to back from [cur] to
    [stop], below the 32-bit limit. *)
Inductive mmap_wf (m : ram) : Z -> Z -> list MultibootMemoryMapEntry -> Prop :=
  | mmap_nil stop : mmap_wf m stop stop []
  | mmap_cons cur stop ent es :
      0 < cur -> cur < stop -> stop < 2 ^ 32 ->
      entry_at m cur = ent -> 0 < e_size ent -> cur + e_size ent + 4 <= stop ->
      mmap_wf m (cur + e_size ent + 4) stop es ->
      mmap_wf m cur stop (ent :: es).

Definition available (ent : MultibootMemoryMapEntry) : bool := e_type ent =? 1.
Definition zone_of (ent : MultibootMemoryMapEntry) : MemoryZone :=
  mkZone (e_base_addr ent) (e_length ent).

(** The zones the enumerator yields, in order. *)
Definition zones (es : list MultibootMemoryMapEntry) : list MemoryZone :=
  map zone_of (List.filter available es).

Lemma mmap_wf_le m cur stop es : mmap_wf m cur stop es -> cur <= stop.
Proof. induction 1; lia. Qed.

Lemma NextAvailable_end m fuel start len :
  in_range 32 (start + len) ->
  NextAvailableMemory m fuel (mkEnum start (start + len) len) =
  Ret (mkZone 0 0, mkEnum start (start + len) len).
Proof.
  intros H. destruct fuel; simpl; unfold u32; rewrite wrap_small by done;
    by rewrite (proj2 (Z.geb_le _ _)) by lia.
Qed.

(** On a well-formed map the enumerator returns the first available entry, or
    the empty zone at the end; [length es] is fuel enough. *)
Lemma NextAvailable_wf m es start len cur fuel :
  0 <= start <= cur -> start + len < 2 ^ 32 ->
  mmap_wf m cur (start + len) es -> (length es <= fuel)%nat ->
  match zones es with
  | [] => NextAvailableMemory m fuel (mkEnum start cur len)
          = Ret (mkZone 0 0, mkEnum start (start + len) len)
  | z :: zs => exists cur' es',
      NextAvailableMemory m fuel (mkEnum start cur len) = Ret (z, mkEnum start cur' len) /\
      mmap_wf m cur' (start + len) es' /\ zones es' = zs /\
      start <= cur' /\ (length es' < length es)%nat
  end.
Proof.
  intros Hs Hlen Hwf. remember (start + len) as stop eqn:Hstop. revert fuel.
  induction Hwf as [stop | cur stop ent es Hc Hcs H32 He Hsz Hnext Hwf IH];
    intros fuel Hf.
  { subst. apply NextAvailable_end. red; lia. }
  destruct fuel as [| fuel]; [simpl in Hf; lia |].
  pose proof (mmap_wf_le _ _ _ _ Hwf).
  assert (NextAvailableMemory m (S fuel) (mkEnum start cur len) =
          if negb (available ent)
          then NextAvailableMemory m fuel (mkEnum start (cur + e_size ent + 4) len)
          else Ret (zone_of ent, mkEnum start (cur + e_size ent + 4) len)) as ->.
  { cbn [NextAvailableMemory mmap_current_ mmap_start_ mmap_len_]. unfold u32.
    rewrite <- Hstop, He, wrap_small by (red; lia).
    destruct (Z.geb_spec cur stop); [lia |].
    rewrite (proj2 (Z.eqb_neq cur 0)), (proj2 (Z.eqb_neq (e_size ent) 0)) by lia.
    cbn. rewrite Z.add_assoc, wrap_small by (red; lia). done. }
  unfold zones. simpl. destruct (available ent) eqn:Hav; simpl.
  - exists (cur + e_size ent + 4), es. split_and!; [done | done | done | lia | lia].
  - specialize (IH ltac:(lia) Hstop Hlen fuel ltac:(simpl in Hf; lia)).
    unfold zones in IH. destruct (map zone_of (List.filter available es)); [done |].
    destruct IH as (cur' & es' & ? & ? & ? & ? & ?). exists cur', es'. auto with lia.
Qed.

(** ** The whole map *)

(** Enumerates the zones until the empty one, as the physical allocator does. *)
Fixpoint all_zones (m : ram) (fuel : nat) (e : MultibootMemoryMapEnumerator)
  : outcome (list MemoryZone) :=
  match fuel with
  | O => OutOfFuel
  | S fuel' =>
      '(z, e') ← NextAvailableMemory m fuel e;
      if zone_empty z then Ret []
      else zs ← all_zones m fuel' e'; Ret (z :: zs)
  end.

Lemma all_zones_wf m es start len cur fuel :
  0 <= start <= cur -> start + len < 2 ^ 32 ->
  mmap_wf m cur (start + len) es -> (length es < fuel)%nat ->
  Forall (fun z => zone_empty z = false) (zones es) ->
  all_zones m fuel (mkEnum start cur len) = Ret (zones es).
Proof.
  revert es cur. induction fuel as [| fuel IH]; intros es cur Hs Hlen Hwf Hf Hne; [lia |].
  cbn [all_zones].
  pose proof (NextAvailable_wf m es start len cur (S fuel) Hs Hlen Hwf ltac:(lia)) as N.
  destruct (zones es) as [| z zs] eqn:E.
  - rewrite N. done.
  - destruct N as (cur' & es' & -> & Hwf' & Hz & Hc & Hl).
    apply Forall_cons in Hne as [Hz0 Hne]. cbn. rewrite Hz0.
    rewrite (IH es' cur'); [by rewrite Hz | lia | done | done | lia |]. by rewrite Hz.
Qed.

End Multiboot.
