(* ===== verification/PhysMem.v ===== *)
(** * kernel/mem-manager.h, kernel/mem-manager.cc: physical pages

    [PagesStack] (the two stacks of free page numbers kept at fixed physical
    addresses) and [PhysicalAllocator] (2 MiB pages, filled from the multiboot
    memory map), with an abstract specification, a pair of disjoint sets of
    pages, that the allocator refines.

    A stack is the three pointers of the class and the words of memory written
    through them.  [pages_status_] is the byte array at 24 MiB: [true] is a page
    that is in use or not managed, [false] a page that is on a stack. *)

From S2P Require Import Prelude Utils Multiboot.

Module PagesStack.

(** kernel/mem-manager.h:57-61, PagesStack. *)
Record t : Type := mk {
  location_overflow_ : Z; location_ : Z; current_location_ : Z;
  cells : gmap Z Z }.

(** kernel/mem-manager.h:43-48, PagesStack::push.  A full stack drops the page. *)
Definition push (s : t) (pageid : Z) : t :=
  if current_location_ s =? location_overflow_ s then s
  else mk (location_overflow_ s) (location_ s) (current_location_ s - 8)
          (<[current_location_ s := pageid]> (cells s)).

(** kernel/mem-manager.h:50-55, PagesStack::pop. *)
Definition pop (s : t) : Z * t :=
  if current_location_ s =? location_ s then (0, s)
  else let c := current_location_ s + 8 in
       (default 0 (cells s !! c), mk (location_overflow_ s) (location_ s) c (cells s)).

(** kernel/mem-manager.h:34-41, PagesStack::PagesStack. *)
Definition new (location size : Z) : outcome t :=
  _ ← rt_assert (negb (location =? 0)) "location";
  _ ← rt_assert (negb (size =? 0)) "size";
  let c := location + size - 8 in
  Ret (push (mk location c c ∅) 0).

(** ** What a stack holds

    [rep s l]: the words above the current position are [l], top first.
    [holds s ps]: they are the pages [ps], with or without the guard word at
    the bottom (popping an empty stack consumes the guard). *)
Definition rep (s : t) (l : list Z) : Prop :=
  current_location_ s = location_ s - 8 * Z.of_nat (length l) /\
  forall i x, l !! i = Some x ->
    cells s !! (current_location_ s + 8 * (Z.of_nat i + 1)) = Some x.

Definition holds (s : t) (ps : list Z) : Prop :=
  exists g, (g = [] \/ g = [0]) /\ rep s (ps ++ g).

(** The number of pages there is room for besides the guard. *)
Definition capacity (s : t) : Z := (location_ s - location_overflow_ s) / 8 - 1.

Definition same_frame (s s' : t) : Prop :=
  location_overflow_ s' = location_overflow_ s /\ location_ s' = location_ s.

Lemma rep_push s l p :
  rep s l -> 8 * Z.of_nat (length l) < location_ s - location_overflow_ s ->
  rep (push s p) (p :: l) /\ same_frame s (push s p).
Proof.
  intros [Hc Hl] Hroom. unfold push.
  destruct (Z.eqb_spec (current_location_ s) (location_overflow_ s)); [lia |].
  split; [| done]. split; simpl; [lia |].
  intros [| i] x Hx; simpl in Hx.
  - injection Hx as ->. replace (_ + _) with (current_location_ s) by lia.
    apply lookup_insert_eq.
  - rewrite lookup_insert_ne by lia. rewrite <- (Hl i x Hx). f_equal. lia.
Qed.

Lemma rep_pop s x l :
  rep s (x :: l) -> exists s', pop s = (x, s') /\ rep s' l /\ same_frame s s'.
Proof.
  intros [Hc Hl]. simpl in Hc. unfold pop.
  destruct (Z.eqb_spec (current_location_ s) (location_ s)); [lia |].
  pose proof (Hl 0%nat x eq_refl) as H0.
  replace (_ + 8 * _) with (current_location_ s + 8) in H0 by lia.
  rewrite H0. eexists; split; [done |]. split; [| done]. split; simpl; [lia |].
  intros i y Hy. rewrite <- (Hl (S i) y Hy). f_equal. lia.
Qed.

Lemma rep_pop_nil s : rep s [] -> pop s = (0, s).
Proof.
  intros [Hc _]. simpl in Hc. unfold pop. by rewrite (proj2 (Z.eqb_eq _ _)) by lia.
Qed.

Lemma holds_push s ps p :
  holds s ps -> Z.of_nat (length ps) < capacity s ->
  holds (push s p) (p :: ps) /\ same_frame s (push s p).
Proof.
  intros (g & Hg & Hr) Hcap. unfold capacity in Hcap.
  pose proof (Z.mul_div_le (location_ s - location_overflow_ s) 8 ltac:(lia)).
  destruct (rep_push s (ps ++ g) p Hr) as [Hr' Hf].
  { rewrite length_app. destruct Hg as [-> | ->]; simpl; lia. }
  split; [by exists g | done].
Qed.

Lemma holds_pop s p ps :
  holds s (p :: ps) -> exists s', pop s = (p, s') /\ holds s' ps /\ same_frame s s'.
Proof.
  intros (g & Hg & Hr). destruct (rep_pop s p (ps ++ g) Hr) as (s' & ? & ? & ?).
  exists s'. split; [done |]. split; [by exists g | done].
Qed.

Lemma holds_pop_nil s :
  holds s [] -> exists s', pop s = (0, s') /\ holds s' [] /\ same_frame s s'.
Proof.
  intros (g & [-> | ->] & Hr).
  - exists s. split; [by apply rep_pop_nil |]. split; [| done]. exists []. auto.
  - destruct (rep_pop s 0 [] Hr) as (s' & ? & ? & ?). exists s'.
    split; [done |]. split; [| done]. exists []. auto.
Qed.

Lemma new_holds location size s :
  8 < size -> new location size = Ret s ->
  holds s [] /\ location_overflow_ s = location /\ location_ s = location + size - 8.
Proof.
  intros Hsz. unfold new. destruct (location =? 0); [done |].
  destruct (size =? 0); [done |]. simpl. intros [= <-].
  destruct (rep_push (mk location (location + size - 8) (location + size - 8) ∅) [] 0)
    as [Hr [-> ->]].
  - split; simpl; [lia |]. intros i x Hx. by rewrite lookup_nil in Hx.
  - simpl. lia.
  - split; [| done]. exists [0]. auto.
Qed.

(** ** Memory bounds: every word a stack touches lies in its own region *)

(** The addresses of the cells a stack has written. *)
Definition within (s : t) : Prop :=
  (8 | location_ s - current_location_ s) /\
  (8 | location_ s - location_overflow_ s) /\
  location_overflow_ s <= current_location_ s <= location_ s /\
  forall a x, cells s !! a = Some x -> location_overflow_ s < a <= location_ s.

Lemma within_push s p : within s -> within (push s p).
Proof.
  intros (D1 & D2 & B & C). unfold push.
  destruct (Z.eqb_spec (current_location_ s) (location_overflow_ s)) as [E | E]; [done |].
  destruct D1 as [k Hk], D2 as [k' Hk'].
  split_and!; simpl; [exists (k + 1); lia | by exists k' | lia | lia |].
  intros a x. rewrite lookup_insert. case_decide; [| by apply C].
  subst. lia.
Qed.

Lemma within_pop s : within s -> within (pop s).2.
Proof.
  intros (D1 & D2 & B & C). unfold pop.
  destruct (Z.eqb_spec (current_location_ s) (location_ s)) as [E | E]; [done |].
  destruct D1 as [k Hk].
  split_and!; simpl; [exists (k - 1); lia | done | lia | lia | done].
Qed.

End PagesStack.

Module PhysicalAllocator.
Import Utils Multiboot.

(** kernel/mem-manager.h:198-203, PhysicalAllocator constants. *)
Definition kPageSizeBytes : Z := 2 * MiB.
Definition kAllocStartAddress : Z := 32 * MiB.
Definition kPageDirectoryStart : Z := 26 * MiB.
Definition kStackStartAddress : Z := 22 * MiB.
Definition kPagesStatusStartAddress : Z := 24 * MiB.
Definition kPagesStatusSize : Z := 2 * MiB.

(** The last page number below 4 GiB. *)
Definition last_32bit : Z := 0xffffffff / kPageSizeBytes.

(** kernel/mem-manager.h:205-209, PhysicalAllocator members.  The constructor
    sets the whole status array to one ([memset]), the default of the map. *)
Record t : Type := mk {
  stack_32_ : PagesStack.t;
  stack_64_ : PagesStack.t;
  pages_status_ : gmap Z bool;
  available_phys_memory_ : Z;
  used_phys_memory_ : Z }.

Definition status (pa : t) (pageid : Z) : bool := default true (pages_status_ pa !! pageid).

(** kernel/mem-manager.h:129-134, the choice of the stack in PhysicalAllocator::free. *)
Definition push_page (pa : t) (pageid : Z) : PagesStack.t * PagesStack.t :=
  if pageid <=? last_32bit
  then (PagesStack.push (stack_32_ pa) pageid, stack_64_ pa)
  else (stack_32_ pa, PagesStack.push (stack_64_ pa) pageid).

(** kernel/mem-manager.h:117-137, PhysicalAllocator::free. *)
Definition free (pa : t) (addr : Z) : outcome t :=
  if addr =? 0 then Ret pa
  else
    let pageid := addr / kPageSizeBytes in
    if negb (status pa pageid) then Fatal "Double free."
    else
      let '(s32, s64) := push_page pa pageid in
      Ret (mk s32 s64 (<[pageid := false]> (pages_status_ pa))
              (available_phys_memory_ pa) (u64 (used_phys_memory_ pa - kPageSizeBytes))).

(** kernel/mem-manager.h:139-147, PhysicalAllocator::page_directory_zone. *)
Definition page_directory_zone : outcome MemoryZone :=
  _ ← rt_assert (negb (kAllocStartAddress =? 0)) "kAllocStartAddress";
  _ ← rt_assert (negb (kPageDirectoryStart =? 0)) "kPageDirectoryStart";
  _ ← rt_assert (kAllocStartAddress - kPageDirectoryStart >=? 1 * MiB) "zone size";
  Ret (mkZone kPageDirectoryStart (kAllocStartAddress - kPageDirectoryStart)).

(** kernel/mem-manager.h:156-158, the end of PhysicalAllocator::alloc32 (and of
    PhysicalAllocator::alloc): the page is marked and counted. *)
Definition mark_used (pa : t) (s32 s64 : PagesStack.t) (pageid : Z) : t :=
  mk s32 s64 (<[pageid := true]> (pages_status_ pa)) (available_phys_memory_ pa)
     (u64 (used_phys_memory_ pa + kPageSizeBytes)).

(** kernel/mem-manager.h:149-159, PhysicalAllocator::alloc32. *)
Definition alloc32 (pa : t) : outcome (Z * t) :=
  let '(pageid, s32) := PagesStack.pop (stack_32_ pa) in
  if pageid =? 0 then Fatal "No more physical pages to allocate (32 bit)."
  else Ret (u64 (pageid * kPageSizeBytes), mark_used pa s32 (stack_64_ pa) pageid).

(** kernel/mem-manager.h:161-175, PhysicalAllocator::alloc. *)
Definition alloc (pa : t) : outcome (Z * t) :=
  let '(p64, s64) := PagesStack.pop (stack_64_ pa) in
  let '(pageid, s32) :=
    if p64 =? 0 then PagesStack.pop (stack_32_ pa) else (p64, stack_32_ pa) in
  if pageid =? 0 then Fatal "No more physical pages to allocate."
  else Ret (u64 (pageid * kPageSizeBytes), mark_used pa s32 s64 pageid).

(** kernel/mem-manager.h:185-187, PhysicalAllocator::chunk_size. *)
Definition chunk_size : Z := kPageSizeBytes.

(** kernel/mem-manager.h:189-191, PhysicalAllocator::identity_mapped_region_size. *)
Definition identity_mapped_region_size : Z := kAllocStartAddress.

(** kernel/mem-manager.h:193-196, PhysicalAllocator::PageAligned.  The mask is
    the 64-bit sign extension of [~0x1FFFFF]. *)
Definition PageAligned (ptr : Z) : Z := Z.land ptr (u64 (Z.lnot 0x1FFFFF)).

(** kernel/mem-manager.h:221-236, the body of the loop of _insert_pages_range. *)
Definition insert_page (pa : t) (i : Z) : t :=
  if negb (status pa i) then pa
  else
    let '(s32, s64) := push_page pa i in
    mk s32 s64 (<[i := false]> (pages_status_ pa))
       (u64 (available_phys_memory_ pa + chunk_size)) (used_phys_memory_ pa).

(** kernel/mem-manager.h:211-238, PhysicalAllocator::_insert_pages_range. *)
Definition insert_pages_range (pa : t) (start stop : Z) : t :=
  let first_page := start / kPageSizeBytes in
  let last_page := stop / kPageSizeBytes in
  if first_page >=? last_page then pa
  else fold_left insert_page (seqZ first_page (last_page - first_page)) pa.

(** kernel/mem-manager.cc:120-134, the body of the loop of the constructor: one
    zone of the memory map. *)
Definition add_zone (pa : t) (zone : MemoryZone) : outcome t :=
  start0 ← AlignPtr (zone_ptr zone) chunk_size;
  let stop := PageAligned (u64 (zone_ptr zone + zone_size zone)) in
  let start := if start0 <? kAllocStartAddress then kAllocStartAddress else start0 in
  if start >=? stop then Ret pa else Ret (insert_pages_range pa start stop).

(** kernel/mem-manager.cc:115-135, the loop of the constructor over the zones of
    the memory map. *)
Fixpoint add_zones (m : ram) (fuel : nat) (e : MultibootMemoryMapEnumerator) (pa : t)
  : outcome t :=
  match fuel with
  | O => OutOfFuel
  | S fuel' =>
      '(zone, e') ← NextAvailableMemory m fuel e;
      if zone_empty zone then Ret pa
      else pa' ← add_zone pa zone; add_zones m fuel' e' pa'
  end.

(** kernel/mem-manager.cc:105-143, PhysicalAllocator::PhysicalAllocator. *)
Definition new (m : ram) (base : Z) (fuel : nat) : outcome t :=
  s32 ← PagesStack.new kStackStartAddress (1 * MiB);
  s64 ← PagesStack.new (kStackStartAddress + MiB) (1 * MiB);
  e ← memory_map m base;
  pa ← add_zones m fuel e (mk s32 s64 ∅ 0 0);
  if available_phys_memory_ pa <? 94 * MiB
  then Fatal "System requires at least 128 MiB or memory."
  else Ret pa.

(** ** The specification: two disjoint sets of pages *)

Record pages : Type := mkPages { free_pages : gset Z; used_pages : gset Z }.

Definition take_page (a : pages) (p : Z) : pages :=
  mkPages (free_pages a ∖ {[p]}) ({[p]} ∪ used_pages a).
Definition give_page (a : pages) (p : Z) : pages :=
  mkPages ({[p]} ∪ free_pages a) (used_pages a ∖ {[p]}).
Definition add_page (a : pages) (p : Z) : pages :=
  mkPages ({[p]} ∪ free_pages a) (used_pages a).

(** The page numbers the two stacks have room for: below 4 GiB all of them, and
    131070 (just under 256 GiB) above. *)
Definition first_page : Z := kAllocStartAddress / kPageSizeBytes.
Definition kMaxPage : Z := last_32bit + 1 + 131070.

Definition page_ok (p : Z) : Prop := first_page <= p < kMaxPage.

Record rep (pa : t) (a : pages) (l32 l64 : list Z) : Prop := {
  rep_s32 : PagesStack.holds (stack_32_ pa) l32;
  rep_s64 : PagesStack.holds (stack_64_ pa) l64;
  rep_cap32 : PagesStack.capacity (stack_32_ pa) = 131070;
  rep_cap64 : PagesStack.capacity (stack_64_ pa) = 131070;
  rep_nd32 : NoDup l32;
  rep_nd64 : NoDup l64;
  rep_r32 : forall p, p ∈ l32 -> first_page <= p <= last_32bit;
  rep_r64 : forall p, p ∈ l64 -> last_32bit < p < kMaxPage;
  rep_free : forall p, p ∈ free_pages a <-> p ∈ l32 \/ p ∈ l64;
  rep_status : forall p, status pa p = false <-> p ∈ free_pages a;
  rep_used : forall p, p ∈ used_pages a -> page_ok p /\ p ∉ free_pages a;
  rep_used_count : used_phys_memory_ pa = kPageSizeBytes * Z.of_nat (size (used_pages a));
  rep_avail_count : available_phys_memory_ pa =
    kPageSizeBytes * Z.of_nat (size (free_pages a ∪ used_pages a)) }.

(** [refines pa a]: the allocator [pa] implements the sets [a]. *)
Definition refines (pa : t) (a : pages) : Prop := exists l32 l64, rep pa a l32 l64.

(** ** Lemmas *)

Lemma free_ok pa a l32 l64 p : rep pa a l32 l64 -> p ∈ free_pages a -> page_ok p.
Proof.
  intros H Hp. unfold page_ok. apply (rep_free _ _ _ _ H) in Hp as [Hp | Hp].
  - apply (rep_r32 _ _ _ _ H) in Hp. unfold kMaxPage. lia.
  - apply (rep_r64 _ _ _ _ H) in Hp.
    assert (first_page <= last_32bit) by (vm_compute; discriminate). lia.
Qed.

Lemma pages_size_bound (X : gset Z) :
  (forall p, p ∈ X -> page_ok p) -> kPageSizeBytes * Z.of_nat (size X) < 2 ^ 40.
Proof.
  intros HX. pose proof (set_range_size X first_page kMaxPage HX) as Hb.
  assert (kMaxPage - first_page <= 2 ^ 18) by (vm_compute; discriminate).
  change kPageSizeBytes with (2 ^ 21). nia.
Qed.

(** Both ends of a page are 64-bit addresses. *)
Lemma page_addr p : page_ok p -> u64 (p * kPageSizeBytes) = p * kPageSizeBytes.
Proof.
  intros [Hp1 Hp2]. unfold u64. apply wrap_small. split.
  - assert (0 <= first_page) by (vm_compute; discriminate).
    change kPageSizeBytes with (2 ^ 21). lia.
  - assert (kMaxPage <= 2 ^ 18) by (vm_compute; discriminate).
    change kPageSizeBytes with (2 ^ 21). change (2 ^ 64) with (2 ^ 43 * 2 ^ 21). nia.
Qed.

Lemma page_of_addr p off :
  0 <= off < kPageSizeBytes -> (p * kPageSizeBytes + off) / kPageSizeBytes = p.
Proof.
  intros Hoff. rewrite Z.div_add_l by done. rewrite Z.div_small by done. lia.
Qed.

(** Taking the page [p] off the stacks. *)
Lemma rep_take pa a l32 l64 p s32 s64 l32' l64' :
  rep pa a l32 l64 -> p ∈ free_pages a ->
  PagesStack.holds s32 l32' -> PagesStack.holds s64 l64' ->
  PagesStack.same_frame (stack_32_ pa) s32 -> PagesStack.same_frame (stack_64_ pa) s64 ->
  (l32 = p :: l32' /\ l64' = l64 \/ l64 = p :: l64' /\ l32' = l32) ->
  rep (mark_used pa s32 s64 p) (take_page a p) l32' l64'.
Proof.
  intros H Hp H32 H64 [F1 F1'] [F2 F2'] Hl.
  pose proof (free_ok _ _ _ _ _ H Hp) as Hok.
  pose proof (rep_nd32 _ _ _ _ H) as N32. pose proof (rep_nd64 _ _ _ _ H) as N64.
  pose proof (rep_r32 _ _ _ _ H) as R32. pose proof (rep_r64 _ _ _ _ H) as R64.
  assert (p ∉ used_pages a) as Hpu by (intros Hu%(rep_used _ _ _ _ H); tauto).
  split; unfold PagesStack.capacity; simpl; try done.
  - rewrite F1, F1'. apply (rep_cap32 _ _ _ _ H).
  - rewrite F2, F2'. apply (rep_cap64 _ _ _ _ H).
  - destruct Hl as [[-> ->] | [-> ->]]; [by inv N32 | done].
  - destruct Hl as [[-> ->] | [-> ->]]; [done | by inv N64].
  - intros q Hq. apply R32. destruct Hl as [[-> ->] | [-> ->]]; set_solver.
  - intros q Hq. apply R64. destruct Hl as [[-> ->] | [-> ->]]; set_solver.
  - intros q. rewrite elem_of_difference, elem_of_singleton, (rep_free _ _ _ _ H).
    destruct Hl as [[-> ->] | [-> ->]]; rewrite elem_of_cons.
    + apply NoDup_cons in N32 as [Hni _]. split; [naive_solver |].
      intros [Hq | Hq]; split; auto; intros ->; [done |].
      apply R64 in Hq. specialize (R32 p ltac:(set_solver)). lia.
    + apply NoDup_cons in N64 as [Hni _]. split; [naive_solver |].
      intros [Hq | Hq]; split; auto; intros ->; [| done].
      apply R32 in Hq. specialize (R64 p ltac:(set_solver)). lia.
  - intros q. unfold status; simpl. rewrite lookup_insert.
    pose proof (rep_status _ _ _ _ H q) as S. unfold status in S.
    case_decide; [set_solver |]. rewrite S. set_solver.
  - intros q [Hq%elem_of_singleton | Hq]%elem_of_union; [subst; set_solver |].
    apply (rep_used _ _ _ _ H) in Hq. set_solver.
  - rewrite (rep_used_count _ _ _ _ H), size_union, size_singleton by set_solver.
    unfold u64. rewrite wrap_small; [lia |].
    assert (kPageSizeBytes * Z.of_nat (size (used_pages a)) < 2 ^ 40).
    { apply pages_size_bound. intros q Hq. apply (rep_used _ _ _ _ H q Hq). }
    change kPageSizeBytes with (2 ^ 21) in *. split; lia.
  - rewrite (rep_avail_count _ _ _ _ H). do 3 f_equal. apply set_eq. intros q.
    destruct (decide (q = p)); set_solver.
Qed.

(** Pushing the page [p], which is not free, onto its stack. *)
Lemma push_page_holds pa a l32 l64 p :
  rep pa a l32 l64 -> page_ok p -> p ∉ free_pages a ->
  exists s32 s64 l32' l64', push_page pa p = (s32, s64) /\
    PagesStack.holds s32 l32' /\ PagesStack.holds s64 l64' /\
    PagesStack.same_frame (stack_32_ pa) s32 /\ PagesStack.same_frame (stack_64_ pa) s64 /\
    (l32' = p :: l32 /\ l64' = l64 /\ p <= last_32bit \/
     l64' = p :: l64 /\ l32' = l32 /\ last_32bit < p).
Proof.
  intros H [Hp1 Hp2] Hp. rewrite (rep_free _ _ _ _ H) in Hp.
  unfold push_page. destruct (Z.leb_spec p last_32bit) as [Hle | Hgt].
  - destruct (PagesStack.holds_push (stack_32_ pa) l32 p (rep_s32 _ _ _ _ H)) as [Hh Hf].
    { rewrite (rep_cap32 _ _ _ _ H).
      pose proof (NoDup_range_length l32 first_page (last_32bit + 1) (rep_nd32 _ _ _ _ H)) as B.
      specialize (B ltac:(intros x Hx%(rep_r32 _ _ _ _ H); lia)).
      assert (last_32bit + 1 - first_page < 131070) by (vm_compute; reflexivity). lia. }
    eexists _, _, (p :: l32), l64. split; [done |].
    split_and!; [apply Hh | apply H | apply Hf | done | tauto].
  - destruct (PagesStack.holds_push (stack_64_ pa) l64 p (rep_s64 _ _ _ _ H)) as [Hh Hf].
    { rewrite (rep_cap64 _ _ _ _ H).
      assert (NoDup (p :: l64)) as Hnd by (constructor; [tauto | apply H]).
      pose proof (NoDup_range_length (p :: l64) (last_32bit + 1) kMaxPage Hnd) as B.
      rewrite length_cons in B. unfold kMaxPage in *.
      enough (Z.of_nat (S (length l64)) <= 131070) by lia.
      etransitivity; [apply B |]; [| lia].
      intros x [-> | Hx%(rep_r64 _ _ _ _ H)]%elem_of_cons; unfold kMaxPage in *; lia. }
    eexists _, _, l32, (p :: l64). split; [done |].
    split_and!; [apply H | apply Hh | done | apply Hf | tauto].
Qed.

Lemma rep_put pa a l32 l64 p used' av' u' :
  rep pa a l32 l64 -> page_ok p -> p ∉ free_pages a ->
  (forall q, q ∈ used' -> q <> p /\ q ∈ used_pages a) ->
  u' = kPageSizeBytes * Z.of_nat (size used') ->
  av' = kPageSizeBytes * Z.of_nat (size ({[p]} ∪ free_pages a ∪ used')) ->
  exists s32 s64 l32' l64', push_page pa p = (s32, s64) /\
    rep (mk s32 s64 (<[p := false]> (pages_status_ pa)) av' u')
        (mkPages ({[p]} ∪ free_pages a) used') l32' l64'.
Proof.
  intros H Hok Hp Hused Hu Hav.
  destruct (push_page_holds _ _ _ _ _ H Hok Hp)
    as (s32 & s64 & l32' & l64' & E & H32 & H64 & [F1 F1'] & [F2 F2'] & Hl).
  exists s32, s64, l32', l64'. split; [done |].
  pose proof (rep_free _ _ _ _ H) as Hf. rewrite Hf in Hp.
  pose proof (rep_r32 _ _ _ _ H) as R32. pose proof (rep_r64 _ _ _ _ H) as R64.
  destruct Hok as [Hok1 Hok2].
  split; unfold PagesStack.capacity; simpl; try done.
  - rewrite F1, F1'. apply (rep_cap32 _ _ _ _ H).
  - rewrite F2, F2'. apply (rep_cap64 _ _ _ _ H).
  - pose proof (rep_nd32 _ _ _ _ H).
    destruct Hl as [(-> & -> & _) | (-> & -> & _)]; [constructor; tauto | done].
  - pose proof (rep_nd64 _ _ _ _ H).
    destruct Hl as [(-> & -> & _) | (-> & -> & _)]; [done | constructor; tauto].
  - intros q. destruct Hl as [(-> & -> & ?) | (-> & -> & ?)]; [| by apply R32].
    intros [-> | Hq]%elem_of_cons; [lia | by apply R32].
  - intros q. destruct Hl as [(-> & -> & ?) | (-> & -> & ?)]; [by apply R64 |].
    intros [-> | Hq]%elem_of_cons; [lia | by apply R64].
  - intros q. rewrite elem_of_union, elem_of_singleton, Hf.
    destruct Hl as [(-> & -> & _) | (-> & -> & _)]; rewrite elem_of_cons; tauto.
  - intros q. unfold status; simpl. rewrite lookup_insert.
    pose proof (rep_status _ _ _ _ H q) as S. unfold status in S.
    rewrite elem_of_union, elem_of_singleton. case_decide; [| rewrite S]; naive_solver.
  - intros q [Hne Hq%(rep_used _ _ _ _ H)]%Hused. set_solver.
Qed.

(** ** The operations refine the sets *)

Lemma free_refines pa a p off :
  refines pa a -> p ∈ used_pages a -> 0 <= off < kPageSizeBytes ->
  exists pa', free pa (p * kPageSizeBytes + off) = Ret pa' /\ refines pa' (give_page a p).
Proof.
  intros (l32 & l64 & H) Hp Hoff. destruct (rep_used _ _ _ _ H p Hp) as [Hok Hnf].
  assert (0 < p) by (destruct Hok; assert (0 < first_page) by (vm_compute; done); lia).
  unfold free. rewrite (proj2 (Z.eqb_neq _ 0)) by (change kPageSizeBytes with (2 ^ 21) in *; lia).
  rewrite page_of_addr by done.
  destruct (status pa p) eqn:St; [| by apply (rep_status _ _ _ _ H) in St]. simpl.
  assert (size (used_pages a) = S (size (used_pages a ∖ {[p]}))) as Hsz.
  { transitivity (size ({[p]} ∪ used_pages a ∖ {[p]})).
    - f_equal. apply set_eq. intros q. destruct (decide (q = p)); set_solver.
    - rewrite size_union, size_singleton by set_solver. done. }
  destruct (rep_put pa a l32 l64 p (used_pages a ∖ {[p]}) (available_phys_memory_ pa)
    (u64 (used_phys_memory_ pa - kPageSizeBytes)) H Hok Hnf)
    as (s32 & s64 & l32' & l64' & E & H'); [set_solver | | |].
  - rewrite (rep_used_count _ _ _ _ H), Hsz. unfold u64.
    assert (kPageSizeBytes * Z.of_nat (size (used_pages a)) < 2 ^ 40).
    { apply pages_size_bound. intros q Hq. apply (rep_used _ _ _ _ H q Hq). }
    rewrite wrap_small; [lia |]. change kPageSizeBytes with (2 ^ 21) in *. split; lia.
  - rewrite (rep_avail_count _ _ _ _ H). do 3 f_equal. apply set_eq. intros q.
    destruct (decide (q = p)); set_solver.
  - rewrite E. eexists; split; [done |]. by exists l32', l64'.
Qed.

Lemma first_page_pos : 0 < first_page.
Proof. vm_compute. done. Qed.

(** A page at the top of the 64-bit (32-bit) stack is what the pop returns. *)
Lemma alloc32_refines pa a :
  refines pa a ->
  (exists p, p ∈ free_pages a /\ p <= last_32bit) ->
  exists p pa', alloc32 pa = Ret (p * kPageSizeBytes, pa') /\
    p ∈ free_pages a /\ p <= last_32bit /\ refines pa' (take_page a p).
Proof.
  intros (l32 & l64 & H) (q & Hq & Hle).
  apply (rep_free _ _ _ _ H) in Hq as [Hq | Hq%(rep_r64 _ _ _ _ H)]; [| lia].
  destruct l32 as [| p l32]; [by apply elem_of_nil in Hq |].
  destruct (PagesStack.holds_pop _ _ _ (rep_s32 _ _ _ _ H)) as (s32 & E & Hh & Hf).
  assert (p ∈ free_pages a) as Hp by (apply (rep_free _ _ _ _ H); left; by left).
  pose proof (free_ok _ _ _ _ _ H Hp) as Hok. pose proof first_page_pos.
  exists p, (mark_used pa s32 (stack_64_ pa) p). unfold alloc32. rewrite E.
  rewrite (proj2 (Z.eqb_neq p 0)), page_addr by (done || destruct Hok; lia).
  split_and!; [done | done | apply (rep_r32 _ _ _ _ H); by left |].
  exists l32, l64. eapply rep_take; eauto; [apply H | done].
Qed.

Lemma alloc32_exhausted pa a :
  refines pa a -> (forall p, p ∈ free_pages a -> last_32bit < p) ->
  alloc32 pa = Fatal "No more physical pages to allocate (32 bit).".
Proof.
  intros (l32 & l64 & H) Hnone. destruct l32 as [| p l32].
  - destruct (PagesStack.holds_pop_nil _ (rep_s32 _ _ _ _ H)) as (s & E & _).
    unfold alloc32. by rewrite E.
  - assert (p ∈ free_pages a) as Hp by (apply (rep_free _ _ _ _ H); left; by left).
    apply Hnone in Hp. pose proof (rep_r32 _ _ _ _ H p ltac:(by left)). lia.
Qed.

Lemma alloc_refines pa a :
  refines pa a -> free_pages a <> ∅ ->
  exists p pa', alloc pa = Ret (p * kPageSizeBytes, pa') /\
    p ∈ free_pages a /\ refines pa' (take_page a p) /\
    (p <= last_32bit -> forall q, q ∈ free_pages a -> q <= last_32bit).
Proof.
  intros (l32 & l64 & H) Hne. pose proof first_page_pos.
  pose proof (rep_free _ _ _ _ H) as Hf.
  assert (forall p, p ∈ free_pages a -> p =? 0 = false) as Hnz.
  { intros p Hp%(free_ok _ _ _ _ _ H). apply Z.eqb_neq. destruct Hp. lia. }
  unfold alloc. destruct l64 as [| p l64].
  - destruct (PagesStack.holds_pop_nil _ (rep_s64 _ _ _ _ H)) as (s64 & -> & Hh64 & Hf64).
    destruct l32 as [| p l32].
    { destruct Hne. apply set_eq. intros q. rewrite Hf, !elem_of_nil. set_solver. }
    destruct (PagesStack.holds_pop _ _ _ (rep_s32 _ _ _ _ H)) as (s32 & E & Hh & Hfr).
    assert (p ∈ free_pages a) as Hp by (apply Hf; left; by left).
    rewrite Z.eqb_refl, E, (Hnz p Hp), page_addr by (by eapply free_ok).
    eexists p, _. split_and!; [done | done | |].
    + exists l32, []. eapply rep_take; eauto.
    + intros _ q [Hq%(rep_r32 _ _ _ _ H) | Hq%elem_of_nil]%Hf; [lia | done].
  - destruct (PagesStack.holds_pop _ _ _ (rep_s64 _ _ _ _ H)) as (s64 & E & Hh & Hfr).
    assert (p ∈ free_pages a) as Hp by (apply Hf; right; by left).
    rewrite E, (Hnz p Hp), (Hnz p Hp), page_addr by (by eapply free_ok).
    eexists p, _. split_and!; [done | done | |].
    + exists l32, l64. eapply rep_take; eauto; [apply H | done].
    + intros Hle. pose proof (rep_r64 _ _ _ _ H p ltac:(by left)). lia.
Qed.

Lemma alloc_exhausted pa a :
  refines pa a -> free_pages a = ∅ -> alloc pa = Fatal "No more physical pages to allocate.".
Proof.
  intros (l32 & l64 & H) He. pose proof (rep_free _ _ _ _ H) as Hf. rewrite He in Hf.
  destruct l32 as [| p l32]; [| specialize (Hf p); set_solver].
  destruct l64 as [| p l64]; [| specialize (Hf p); set_solver].
  destruct (PagesStack.holds_pop_nil _ (rep_s32 _ _ _ _ H)) as (s & E & _).
  destruct (PagesStack.holds_pop_nil _ (rep_s64 _ _ _ _ H)) as (s' & E' & _).
  unfold alloc. rewrite E', Z.eqb_refl, E. done.
Qed.

Lemma free_double pa a p off :
  refines pa a -> p ∈ free_pages a -> 0 <= off < kPageSizeBytes ->
  free pa (p * kPageSizeBytes + off) = Fatal "Double free.".
Proof.
  intros (l32 & l64 & H) Hp Hoff. pose proof (free_ok _ _ _ _ _ H Hp) as [Hok _].
  pose proof first_page_pos. unfold free.
  rewrite (proj2 (Z.eqb_neq _ 0)) by (change kPageSizeBytes with (2 ^ 21) in *; lia).
  rewrite page_of_addr by done. apply (rep_status _ _ _ _ H) in Hp. by rewrite Hp.
Qed.

(** ** Filling the allocator *)

Lemma insert_page_refines pa a p :
  refines pa a -> page_ok p -> p ∉ used_pages a ->
  refines (insert_page pa p) (add_page a p).
Proof.
  intros (l32 & l64 & H) Hok Hnu. unfold insert_page.
  destruct (status pa p) eqn:St; simpl.
  - assert (p ∉ free_pages a) as Hnf by (intros Hf%(rep_status _ _ _ _ H); congruence).
    destruct (rep_put pa a l32 l64 p (used_pages a)
      (u64 (available_phys_memory_ pa + chunk_size)) (used_phys_memory_ pa) H Hok Hnf)
      as (s32 & s64 & l32' & l64' & -> & H').
    + intros q Hq. split; [by intros -> | done].
    + apply H.
    + rewrite (rep_avail_count _ _ _ _ H).
      assert (kPageSizeBytes * Z.of_nat (size (free_pages a ∪ used_pages a)) < 2 ^ 40) as B.
      { apply pages_size_bound. intros q [Hq | Hq]%elem_of_union.
        - by eapply free_ok.
        - apply (rep_used _ _ _ _ H q Hq). }
      rewrite <- union_assoc_L, (size_union {[p]}), size_singleton.
      2: { apply disjoint_singleton_l. rewrite elem_of_union. tauto. }
      unfold u64, chunk_size. change kPageSizeBytes with (2 ^ 21) in *.
      rewrite wrap_small; [lia | split; lia].
    + by exists l32', l64'.
  - apply (rep_status _ _ _ _ H) in St. replace (add_page a p) with a; [by exists l32, l64 |].
    destruct a as [f u]. unfold add_page. simpl in *. f_equal. apply set_eq. intros q.
    rewrite elem_of_union, elem_of_singleton. naive_solver.
Qed.

(** The pages of a list become free. *)
Definition add_pages (a : pages) (ps : list Z) : pages :=
  mkPages (list_to_set ps ∪ free_pages a) (used_pages a).

Lemma insert_pages_refines ps pa a :
  refines pa a -> Forall page_ok ps -> (forall p, p ∈ ps -> p ∉ used_pages a) ->
  refines (fold_left insert_page ps pa) (add_pages a ps).
Proof.
  revert pa a; induction ps as [| p ps IH]; intros pa a H Hok Hu.
  - replace (add_pages a []) with a; [done |].
    destruct a. unfold add_pages. simpl. f_equal. set_solver.
  - apply Forall_cons in Hok as [Hp Hok]. rewrite fold_left_cons.
    replace (add_pages a (p :: ps)) with (add_pages (add_page a p) ps).
    + apply IH; [| done |].
      * apply insert_page_refines; [done | done |]. apply Hu. by left.
      * intros q Hq. apply Hu. by right.
    + unfold add_pages, add_page. simpl. f_equal. set_solver.
Qed.

(** [zone_has z p]: page [p] is allocatable and lies wholly inside [z]. *)
Definition zone_has (z : MemoryZone) (p : Z) : Prop :=
  first_page <= p /\ zone_ptr z <= p * kPageSizeBytes /\
  (p + 1) * kPageSizeBytes <= zone_ptr z + zone_size z.

(** A zone that lies below the last page the stacks have room for. *)
Definition zone_ok (z : MemoryZone) : Prop :=
  0 <= zone_ptr z /\ 0 <= zone_size z /\ zone_ptr z + zone_size z <= kMaxPage * kPageSizeBytes.

Lemma PageAligned_floor x :
  in_range 64 x -> PageAligned x = x / kPageSizeBytes * kPageSizeBytes.
Proof.
  intros Hx. change kPageSizeBytes with (2 ^ 21).
  rewrite <- Z.shiftr_div_pow2, <- Z.shiftl_mul_pow2 by lia.
  unfold PageAligned, u64. change 0x1FFFFF with (Z.ones 21). bits.
  destruct (decide (i < 21)).
  - rewrite (Z.testbit_neg_r _ (i - 21)) by lia. rewrite (bool_decide_eq_true_2 (i < 21)) by done.
    simpl. by rewrite !andb_false_r.
  - rewrite Z.shiftr_spec by lia. replace (i - 21 + 21) with i by lia.
    rewrite (bool_decide_eq_false_2 (i < 21)) by done. simpl. rewrite andb_true_r.
    case_bool_decide; [by rewrite andb_true_r |].
    by rewrite (testbit_high 64 x) by (done || lia).
Qed.

Lemma insert_range_refines pa a first last :
  refines pa a -> used_pages a = ∅ -> first_page <= first -> last <= kMaxPage ->
  exists a', refines (insert_pages_range pa (first * kPageSizeBytes) (last * kPageSizeBytes)) a' /\
    used_pages a' = ∅ /\
    forall p, p ∈ free_pages a' <-> first <= p < last \/ p ∈ free_pages a.
Proof.
  intros H Hu Hf Hl. unfold insert_pages_range. rewrite !Z.div_mul by done.
  destruct (Z.geb_spec first last) as [Hge | Hlt].
  - exists a. split_and!; [done | done |]. intros p. split; [auto |]. intros [? | ?]; [lia | done].
  - exists (add_pages a (seqZ first (last - first))). split_and!.
    + apply insert_pages_refines; [done | |].
      * apply Forall_forall. intros p Hp%elem_of_seqZ. split; lia.
      * rewrite Hu. set_solver.
    + done.
    + intros p. simpl. rewrite elem_of_union, elem_of_list_to_set, elem_of_seqZ.
      split; intros [? | ?]; auto; left; lia.
Qed.

Lemma add_zone_refines pa a z :
  refines pa a -> used_pages a = ∅ -> zone_ok z ->
  exists pa' a', add_zone pa z = Ret pa' /\ refines pa' a' /\ used_pages a' = ∅ /\
    forall p, p ∈ free_pages a' <-> zone_has z p \/ p ∈ free_pages a.
Proof.
  intros H Hu (Hz1 & Hz2 & Hz3). unfold add_zone, AlignPtr, chunk_size.
  assert (kMaxPage <= 2 ^ 18) by (vm_compute; discriminate).
  assert (kPageSizeBytes = 2 ^ 21) as Hk by reflexivity.
  destruct (Align_up (zone_ptr z) kPageSizeBytes) as (r & -> & [k ->] & Hr);
    [red; rewrite Hk in *; lia | done | rewrite Hk in *; lia |]. cbn [mbind outcome_bind].
  unfold u64. rewrite wrap_small by (red; rewrite Hk in *; lia).
  rewrite PageAligned_floor by (red; rewrite Hk in *; lia).
  set (stop := (zone_ptr z + zone_size z) / kPageSizeBytes).
  assert (stop <= kMaxPage) as Hstop.
  { unfold stop. apply Z.div_le_upper_bound; [done | lia]. }
  assert (forall p, (p + 1) * kPageSizeBytes <= zone_ptr z + zone_size z <-> p < stop) as Hp.
  { intros p. unfold stop. rewrite <- Z.le_succ_l. unfold Z.succ. split; intros Hq.
    - apply Z.div_le_lower_bound; [done | lia].
    - etransitivity; [| apply (Z.mul_div_le _ kPageSizeBytes); done]. nia. }
  assert (forall p, zone_ptr z <= p * kPageSizeBytes <-> k <= p) as Hq.
  { intros p. rewrite Hk in *. lia. }
  change kAllocStartAddress with (first_page * kPageSizeBytes).
  replace (if k * kPageSizeBytes <? first_page * kPageSizeBytes
           then first_page * kPageSizeBytes else k * kPageSizeBytes)
    with (Z.max first_page k * kPageSizeBytes)
    by (rewrite Hk; destruct (Z.ltb_spec (k * 2 ^ 21) (first_page * 2 ^ 21)); lia).
  destruct (insert_range_refines pa a (Z.max first_page k) stop)
    as (a' & H' & Hu' & Hf'); [done | done | lia | done |].
  destruct (Z.geb_spec (Z.max first_page k * kPageSizeBytes) (stop * kPageSizeBytes)) as [Hge | Hlt].
  - exists pa, a. split_and!; [done | done | done |]. intros p. unfold zone_has. rewrite Hp, Hq.
    split; [auto |]. intros [? | ?]; [rewrite Hk in *; lia | done].
  - eexists _, a'. split_and!; [done | done | done |]. intros p. rewrite Hf'.
    unfold zone_has. rewrite Hp, Hq. split; intros [? | ?]; auto; left; lia.
Qed.

Lemma add_zones_refines m es start len cur fuel pa a :
  0 <= start <= cur -> start + len < 2 ^ 32 ->
  mmap_wf m cur (start + len) es -> (length es < fuel)%nat ->
  Forall (fun z => zone_empty z = false /\ zone_ok z) (zones es) ->
  refines pa a -> used_pages a = ∅ ->
  exists pa' a', add_zones m fuel (mkEnum start cur len) pa = Ret pa' /\
    refines pa' a' /\ used_pages a' = ∅ /\
    forall p, p ∈ free_pages a' <-> (exists z, z ∈ zones es /\ zone_has z p) \/ p ∈ free_pages a.
Proof.
  revert es cur pa a. induction fuel as [| fuel IH];
    intros es cur pa a Hs Hlen Hwf Hf Hz H Hu; [lia |]. cbn [add_zones].
  pose proof (NextAvailable_wf m es start len cur (S fuel) Hs Hlen Hwf ltac:(lia)) as N.
  destruct (zones es) as [| z zs] eqn:E.
  - rewrite N. exists pa, a. split_and!; [done | done | done |]. set_solver.
  - destruct N as (cur' & es' & -> & Hwf' & Hzs & Hc & Hl).
    apply Forall_cons in Hz as [[Hz0 Hzok] Hz]. cbn [mbind outcome_bind]. rewrite Hz0.
    destruct (add_zone_refines pa a z H Hu Hzok) as (pa1 & a1 & -> & H1 & Hu1 & Hf1).
    cbn [mbind outcome_bind].
    destruct (IH es' cur' pa1 a1) as (pa' & a' & E' & H' & Hu' & Hf');
      [lia | done | done | lia | by rewrite Hzs | done | done |].
    exists pa', a'. split_and!; [done | done | done |]. intros p. rewrite Hf', Hf1, Hzs.
    setoid_rewrite elem_of_cons. naive_solver.
Qed.

Lemma refines_initial s32 s64 :
  PagesStack.new kStackStartAddress (1 * MiB) = Ret s32 ->
  PagesStack.new (kStackStartAddress + MiB) (1 * MiB) = Ret s64 ->
  refines (mk s32 s64 ∅ 0 0) (mkPages ∅ ∅).
Proof.
  intros (H32 & O32 & L32)%PagesStack.new_holds (H64 & O64 & L64)%PagesStack.new_holds;
    [| done | done].
  exists [], []. split; simpl; try (done || constructor); try set_solver.
  - unfold PagesStack.capacity. rewrite O32, L32. done.
  - unfold PagesStack.capacity. rewrite O64, L64. done.
Qed.

(** ** Clients

    A client holds the addresses it was given and has not returned. *)
Inductive client_step : t * gset Z -> t * gset Z -> Prop :=
  | client_alloc pa pa' held addr :
      alloc pa = Ret (addr, pa') -> client_step (pa, held) (pa', {[addr]} ∪ held)
  | client_alloc32 pa pa' held addr :
      alloc32 pa = Ret (addr, pa') -> client_step (pa, held) (pa', {[addr]} ∪ held)
  | client_free pa pa' held addr :
      addr ∈ held -> free pa addr = Ret pa' -> client_step (pa, held) (pa', held ∖ {[addr]}).

(** The client holds exactly the used pages, and no page is lost or made up. *)
Definition client_inv (managed : gset Z) (st : t * gset Z) : Prop :=
  exists a, refines st.1 a /\ free_pages a ∪ used_pages a = managed /\
    forall addr, addr ∈ st.2 <-> exists p, p ∈ used_pages a /\ addr = p * kPageSizeBytes.

Lemma alloc_inv pa a addr pa' :
  refines pa a -> alloc pa = Ret (addr, pa') ->
  exists p, addr = p * kPageSizeBytes /\ p ∈ free_pages a /\ refines pa' (take_page a p).
Proof.
  intros H E. destruct (decide (free_pages a = ∅)) as [He | Hne].
  - rewrite (alloc_exhausted pa a H He) in E. done.
  - destruct (alloc_refines pa a H Hne) as (p & pa1 & E' & Hp & H' & _).
    rewrite E in E'. injection E' as -> ->. by exists p.
Qed.

Lemma alloc32_inv pa a addr pa' :
  refines pa a -> alloc32 pa = Ret (addr, pa') ->
  exists p, addr = p * kPageSizeBytes /\ p ∈ free_pages a /\ refines pa' (take_page a p).
Proof.
  intros H E.
  destruct (decide (set_Exists (fun p => p <= last_32bit) (free_pages a))) as [He | Hne].
  - destruct (alloc32_refines pa a H He) as (p & pa1 & E' & Hp & _ & H').
    rewrite E in E'. injection E' as -> ->. by exists p.
  - rewrite (alloc32_exhausted pa a H) in E; [done |]. intros p Hp.
    destruct (decide (last_32bit < p)); [done |]. destruct Hne. exists p. split; [done | lia].
Qed.

Lemma page_addr_inj p q : p * kPageSizeBytes = q * kPageSizeBytes -> p = q.
Proof. change kPageSizeBytes with (2 ^ 21). lia. Qed.

Lemma client_inv_take managed pa a held p pa' :
  client_inv managed (pa, held) -> refines pa a ->
  (forall addr, addr ∈ held <-> exists q, q ∈ used_pages a /\ addr = q * kPageSizeBytes) ->
  free_pages a ∪ used_pages a = managed ->
  p ∈ free_pages a -> refines pa' (take_page a p) ->
  client_inv managed (pa', {[p * kPageSizeBytes]} ∪ held).
Proof.
  intros _ H Hh Hm Hp H'. exists (take_page a p). split_and!; [done | |]; simpl.
  - subst managed. apply set_eq. intros q. destruct (decide (q = p)); set_solver.
  - intros addr. rewrite elem_of_union, elem_of_singleton, Hh.
    setoid_rewrite elem_of_union. setoid_rewrite elem_of_singleton. naive_solver.
Qed.

Lemma client_inv_step managed st st' :
  client_inv managed st -> client_step st st' -> client_inv managed st'.
Proof.
  intros Hi Hst. pose proof Hi as Hi0. destruct Hi as (a & H & Hm & Hh).
  destruct Hst as [pa pa' held addr E | pa pa' held addr E | pa pa' held addr Ha E]; simpl in *.
  - destruct (alloc_inv pa a addr pa' H E) as (p & -> & Hp & H'). by eapply client_inv_take.
  - destruct (alloc32_inv pa a addr pa' H E) as (p & -> & Hp & H'). by eapply client_inv_take.
  - apply Hh in Ha as (p & Hp & ->).
    destruct (free_refines pa a p 0 H Hp) as (pa1 & E1 & H'); [done |].
    rewrite Z.add_0_r, E in E1. injection E1 as <-.
    exists (give_page a p). split_and!; [done | |]; simpl.
    + subst managed. apply set_eq. intros q. destruct (decide (q = p)); set_solver.
    + intros addr. rewrite elem_of_difference, elem_of_singleton, Hh.
      setoid_rewrite elem_of_difference. setoid_rewrite elem_of_singleton. split.
      * intros [(q & Hq & ->) Hne]. exists q. split; [| done]. split; [done |]. by intros ->.
      * intros (q & [Hq Hqp] & ->). split; [by exists q |]. by intros E2%page_addr_inj.
Qed.

Lemma client_inv_rtc managed st st' :
  client_inv managed st -> rtc client_step st st' -> client_inv managed st'.
Proof. intros Hi Hr. induction Hr; eauto using client_inv_step. Qed.

(** ** Theorems *)

(** Allocation: when no page is free the machine stops; otherwise the
    result is the address of a page that was free, the page becomes used, and
    nothing else changes.  Pages above 4 GiB are handed out first, so that a
    32-bit page is only spent when no other page is left. *)
Theorem alloc_correct (pa : t) (a : pages) (H : refines pa a) :
  (free_pages a = ∅ -> alloc pa = Fatal "No more physical pages to allocate.") /\
  (free_pages a <> ∅ ->
   exists p pa', alloc pa = Ret (p * kPageSizeBytes, pa') /\ p ∈ free_pages a /\
     refines pa' (take_page a p) /\
     (p <= last_32bit -> forall q, q ∈ free_pages a -> q <= last_32bit)).
Proof. split; intros; [by eapply alloc_exhausted | by apply alloc_refines]. Qed.

(** Releasing a page: any address inside a used page returns that page to
    the free set; an address inside a page that is already free is a double
    free and stops the machine; the null address is ignored. *)
Theorem free_correct (pa : t) (a : pages) (p off : Z)
  (H : refines pa a) (Hoff : 0 <= off < kPageSizeBytes) :
  free pa 0 = Ret pa /\
  (p ∈ used_pages a ->
   exists pa', free pa (p * kPageSizeBytes + off) = Ret pa' /\ refines pa' (give_page a p)) /\
  (p ∈ free_pages a -> free pa (p * kPageSizeBytes + off) = Fatal "Double free.").
Proof.
  split_and!; [done | |]; intros; [by apply free_refines | by eapply free_double].
Qed.

Lemma new_spec (m : ram) (base : Z) (es : list MultibootMemoryMapEntry) (fuel : nat)
  (start len : Z)
  (Hst : mmap_addr (MultibootStruct_at m base) = start)
  (Hln : mmap_len (MultibootStruct_at m base) = len)
  (Hs : 0 < start) (Hl : 0 < len) (H32 : start + len < 2 ^ 32)
  (Hwf : mmap_wf m start (start + len) es) (Hf : (length es < fuel)%nat)
  (Hz : Forall (fun z => zone_empty z = false /\ zone_ok z) (zones es)) :
  exists a, used_pages a = ∅ /\
    (forall p, p ∈ free_pages a <-> exists z, z ∈ zones es /\ zone_has z p) /\
    (if decide (size (free_pages a) < 47)%nat
     then new m base fuel = Fatal "System requires at least 128 MiB or memory."
     else exists pa, new m base fuel = Ret pa /\ refines pa a).
Proof.
  destruct (PagesStack.new kStackStartAddress (1 * MiB)) as [s32 | |] eqn:E32; [| done..].
  destruct (PagesStack.new (kStackStartAddress + MiB) (1 * MiB)) as [s64 | |] eqn:E64; [| done..].
  pose proof (refines_initial s32 s64 E32 E64) as H0.
  destruct (add_zones_refines m es start len start fuel _ _ ltac:(lia) H32 Hwf Hf Hz H0)
    as (pa & a & E & H & Hu & Hfree); [done |].
  exists a. split_and!; [done | |].
  { intros p. rewrite Hfree. simpl. set_solver. }
  assert (new m base fuel = if available_phys_memory_ pa <? 94 * MiB
    then Fatal "System requires at least 128 MiB or memory." else Ret pa) as ->.
  { unfold new. rewrite E32, E64. cbn [mbind outcome_bind]. unfold memory_map.
    rewrite Hst, Hln, (proj2 (Z.eqb_neq start 0)), (proj2 (Z.eqb_neq len 0)) by lia.
    simpl orb. cbn [mbind outcome_bind]. by rewrite E. }
  pose proof H as (l32 & l64 & Hr). rewrite (rep_avail_count _ _ _ _ Hr), Hu.
  rewrite union_empty_r_L. change kPageSizeBytes with (2 ^ 21). change (94 * MiB) with (47 * 2 ^ 21).
  destruct (Z.ltb_spec (2 ^ 21 * Z.of_nat (size (free_pages a))) (47 * 2 ^ 21)).
  - rewrite decide_True by lia. done.
  - rewrite decide_False by lia. by exists pa.
Qed.

(** Boot: from a well-formed multiboot memory map the constructor builds an
    allocator whose free pages are exactly the 2 MiB pages at or above 32 MiB
    that lie wholly inside an available zone, none of them used; it stops the
    machine exactly when they are fewer than 47 (94 MiB). *)
Theorem new_correct (m : ram) (base : Z) (es : list MultibootMemoryMapEntry) (fuel : nat)
  (start len : Z)
  (Hst : mmap_addr (MultibootStruct_at m base) = start)
  (Hln : mmap_len (MultibootStruct_at m base) = len)
  (Hs : 0 < start) (Hl : 0 < len) (H32 : start + len < 2 ^ 32)
  (Hwf : mmap_wf m start (start + len) es) (Hf : (length es < fuel)%nat)
  (Hz : Forall (fun z => zone_empty z = false /\ zone_ok z) (zones es)) :
  exists a, used_pages a = ∅ /\
    (forall p, p ∈ free_pages a <-> exists z, z ∈ zones es /\ zone_has z p) /\
    (if decide (size (free_pages a) < 47)%nat
     then new m base fuel = Fatal "System requires at least 128 MiB or memory."
     else exists pa, new m base fuel = Ret pa /\ refines pa a).
Proof. by apply (new_spec m base es fuel start len). Qed.

(** What the states of a client's runs have in common, page by page. *)
Lemma client_pages managed pa held : client_inv managed (pa, held) ->
  (forall p, p ∈ managed -> (status pa p = true <-> p * kPageSizeBytes ∈ held)) /\
  (forall x, x ∈ held -> exists p, p ∈ managed /\ x = p * kPageSizeBytes /\ exists pa', free pa x = Ret pa') /\
  (forall p, status pa p = false <-> p ∈ managed /\ p * kPageSizeBytes ∉ held) /\
  used_phys_memory_ pa = kPageSizeBytes * Z.of_nat (size held) /\
  available_phys_memory_ pa = kPageSizeBytes * Z.of_nat (size managed).
Proof.
  intros (a & R & Hm & Hh). pose proof R as (l32 & l64 & Hr). cbn [fst snd] in *.
  assert (forall p, p * kPageSizeBytes ∈ held <-> p ∈ used_pages a) as Hu.
  { intros p. rewrite Hh. split; [by intros (q & Hq & <-%page_addr_inj) | by exists p]. }
  assert (forall p, status pa p = false <-> p ∈ managed /\ p * kPageSizeBytes ∉ held) as Hs.
  { intros p. rewrite (rep_status _ _ _ _ Hr), Hu, <- Hm, elem_of_union. pose proof (rep_used _ _ _ _ Hr p). tauto. }
  split_and!; try done.
  - intros p Hp. specialize (Hs p). destruct (status pa p), (decide (p * kPageSizeBytes ∈ held)); naive_solver.
  - intros x (p & Hp & ->)%Hh. exists p. split; [set_solver |]. split; [done |].
    destruct (free_refines pa a p 0 R Hp) as (pa' & E & _); [done |]. rewrite Z.add_0_r in E. by exists pa'.
  - rewrite (rep_used_count _ _ _ _ Hr). do 2 f_equal.
    replace held with (set_map (D := gset Z) (fun q => q * kPageSizeBytes) (used_pages a)).
    + symmetry. apply size_map_inj. intros x y. apply page_addr_inj.
    + apply set_eq. intros x. rewrite Hh, elem_of_map. naive_solver.
  - rewrite (rep_avail_count _ _ _ _ Hr). by rewrite Hm.
Qed.

(** The next allocation of such a client, from any page or from those below 4 GiB. *)
Lemma client_alloc_any managed pa held : client_inv managed (pa, held) ->
  (if decide (exists p, p ∈ managed /\ p * kPageSizeBytes ∉ held)
   then exists p pa', alloc pa = Ret (p * kPageSizeBytes, pa') /\ p ∈ managed /\ p * kPageSizeBytes ∉ held
   else alloc pa = Fatal "No more physical pages to allocate.").
Proof.
  intros I. pose proof (client_pages _ _ _ I) as (_ & _ & Hs & _). destruct I as (a & R & _). pose proof R as (l32 & l64 & Hr).
  assert (forall p, p ∈ free_pages a <-> p ∈ managed /\ p * kPageSizeBytes ∉ held) as Hf.
  { intros p. by rewrite <- Hs, (rep_status _ _ _ _ Hr). }
  case_decide as D.
  - destruct D as (q & Hq). destruct (alloc_refines pa a R) as (p & pa' & E & Hp & _).
    { apply Hf in Hq. set_solver. } exists p, pa'. split; [done |]. by apply Hf.
  - apply (alloc_exhausted pa a R), set_eq. intros p. split; [| set_solver]. intros Hp%Hf. destruct D. by exists p.
Qed.

Lemma client_alloc_low managed pa held : client_inv managed (pa, held) ->
  (if decide (exists p, p ∈ managed /\ p <= last_32bit /\ p * kPageSizeBytes ∉ held)
   then exists p pa', alloc32 pa = Ret (p * kPageSizeBytes, pa') /\ p ∈ managed /\ p <= last_32bit /\ p * kPageSizeBytes ∉ held
   else alloc32 pa = Fatal "No more physical pages to allocate (32 bit).").
Proof.
  intros I. pose proof (client_pages _ _ _ I) as (_ & _ & Hs & _). destruct I as (a & R & _). pose proof R as (l32 & l64 & Hr).
  assert (forall p, p ∈ free_pages a <-> p ∈ managed /\ p * kPageSizeBytes ∉ held) as Hf.
  { intros p. by rewrite <- Hs, (rep_status _ _ _ _ Hr). }
  case_decide as D.
  - destruct D as (q & Hq1 & Hq2 & Hq3). destruct (alloc32_refines pa a R) as (p & pa' & E & Hp & Hl & _).
    { exists q. by rewrite Hf. } exists p, pa'. apply Hf in Hp as [? ?]. done.
  - apply (alloc32_exhausted pa a R). intros p [Hp1 Hp2]%Hf. destruct (decide (p <= last_32bit)); [| lia]. destruct D. by exists p.
Qed.

(** C14. Whatever sequence of allocations and releases a client performs on an
    allocator with no page in use: the client holds exactly the pages that are marked as
    used, all of them pages that the allocator managed at first, and what the allocator
    manages stays the same; every page that the client holds can be released. No page is
    given out twice and none is lost: the next allocation returns a managed page that the
    client does not hold, and stops the machine only when the client holds them all; an
    allocation below 4 GiB does the same with the pages below 4 GiB. *)
Theorem pages_never_shared (pa0 : t) (a0 : pages) (pa : t) (held : gset Z)
  (H0 : refines pa0 a0) (Hu0 : used_pages a0 = ∅)
  (Hrun : rtc client_step (pa0, ∅) (pa, held)) :
  (forall p, p ∈ free_pages a0 -> (status pa p = true <-> p * kPageSizeBytes ∈ held)) /\
  (forall x, x ∈ held -> exists p, p ∈ free_pages a0 /\ x = p * kPageSizeBytes /\ exists pa', free pa x = Ret pa') /\
  used_phys_memory_ pa = kPageSizeBytes * Z.of_nat (size held) /\
  available_phys_memory_ pa = available_phys_memory_ pa0 /\
  (if decide (exists p, p ∈ free_pages a0 /\ p * kPageSizeBytes ∉ held)
   then exists p pa', alloc pa = Ret (p * kPageSizeBytes, pa') /\ p ∈ free_pages a0 /\ p * kPageSizeBytes ∉ held
   else alloc pa = Fatal "No more physical pages to allocate.") /\
  (if decide (exists p, p ∈ free_pages a0 /\ p <= last_32bit /\ p * kPageSizeBytes ∉ held)
   then exists p pa', alloc32 pa = Ret (p * kPageSizeBytes, pa') /\ p ∈ free_pages a0 /\ p <= last_32bit /\ p * kPageSizeBytes ∉ held
   else alloc32 pa = Fatal "No more physical pages to allocate (32 bit).").
Proof.
  assert (client_inv (free_pages a0) (pa0, ∅)) as I0.
  { exists a0. rewrite Hu0, union_empty_r_L. split_and!; [done | done |]. set_solver. }
  pose proof (client_inv_rtc _ _ _ I0 Hrun) as I.
  pose proof (client_pages _ _ _ I0) as (_ & _ & _ & _ & E0). pose proof (client_pages _ _ _ I) as (C1 & C2 & _ & C4 & C5).
  split_and!; try done; [congruence | by apply client_alloc_any | by apply client_alloc_low].
Qed.

(** ** Witnesses *)

(** A small allocator: two pages below 4 GiB and one above. *)
Definition small_stacks : outcome t :=
  s32 ← PagesStack.new kStackStartAddress (1 * MiB);
  s64 ← PagesStack.new (kStackStartAddress + MiB) (1 * MiB);
  Ret (fold_left insert_page [16; 17; 3000] (mk s32 s64 ∅ 0 0)).

Definition small_pages : pages := add_pages (mkPages ∅ ∅) [16; 17; 3000].

Definition small : t :=
  match small_stacks with
  | Ret pa => pa
  | _ => mk (PagesStack.mk 0 0 0 ∅) (PagesStack.mk 0 0 0 ∅) ∅ 0 0
  end.

Lemma small_refines : refines small small_pages.
Proof.
  apply insert_pages_refines.
  - by apply refines_initial.
  - apply Forall_forall. intros p Hp. unfold page_ok.
    assert (p = 16 \/ p = 17 \/ p = 3000) as [-> | [-> | ->]] by set_solver;
      vm_compute; split; (discriminate || reflexivity).
  - simpl. set_solver.
Qed.

Lemma alloc_correct_witness :
  refines small small_pages /\
  exists p pa', alloc small = Ret (p * kPageSizeBytes, pa') /\ p ∈ free_pages small_pages.
Proof.
  split; [apply small_refines |].
  destruct (proj2 (alloc_correct small small_pages small_refines)) as (p & pa' & E & Hp & _).
  - vm_compute. discriminate.
  - by exists p, pa'.
Defined.

Lemma free_correct_witness :
  refines small small_pages /\ free small (17 * kPageSizeBytes + 5) = Fatal "Double free.".
Proof.
  split; [apply small_refines |].
  apply (free_correct small small_pages 17 5 small_refines).
  - vm_compute. split; [discriminate | reflexivity].
  - simpl. set_solver.
Defined.

Lemma pages_never_shared_witness :
  exists pa held, rtc client_step (small, ∅) (pa, held) /\ held <> ∅ /\
    exists p pa', alloc pa = Ret (p * kPageSizeBytes, pa') /\ p * kPageSizeBytes ∉ held.
Proof.
  destruct (alloc small) as [[addr1 pa1] | |] eqn:E1; [| vm_compute in E1; discriminate..].
  assert (addr1 = 3000 * kPageSizeBytes) as -> by (vm_compute in E1; injection E1 as <- _; reflexivity).
  assert (rtc client_step (small, ∅) (pa1, {[3000 * kPageSizeBytes]} ∪ ∅)) as Hr.
  { eapply rtc_l; [| apply rtc_refl]. by apply client_alloc. }
  exists pa1, ({[3000 * kPageSizeBytes]} ∪ ∅). split; [done |]. split; [set_solver |].
  destruct (pages_never_shared small small_pages pa1 _ small_refines eq_refl Hr) as (_ & _ & _ & _ & A & _).
  rewrite decide_True in A.
  - destruct A as (p & pa' & E & _ & N). by exists p, pa'.
  - exists 16. split; [by vm_compute |]. rewrite union_empty_r_L, elem_of_singleton. by vm_compute.
Defined.

(** A machine with 640 KiB of low memory and 127 MiB from 1 MiB on. *)
Definition boot_ram : ram := ram_of 0x1000
  (concat (map (le_bytes 4) [0; 0; 0; 0; 0; 1; 0; 0; 0; 0; 0; 48; 0x1044; 0; 0; 0; 0]) ++
   le_bytes 4 20 ++ le_bytes 8 0 ++ le_bytes 8 0xA0000 ++ le_bytes 4 1 ++
   le_bytes 4 20 ++ le_bytes 8 0x100000 ++ le_bytes 8 (127 * MiB) ++ le_bytes 4 1).

Lemma new_correct_witness :
  exists a, used_pages a = ∅ /\ 47 ∈ free_pages a.
Proof.
  destruct (new_correct boot_ram 0x1000
    [mkEntry 20 0 0xA0000 1; mkEntry 20 0x100000 (127 * MiB) 1] 3 0x1044 48)
    as (a & Hu & Hf & _).
  - vm_compute. reflexivity.
  - vm_compute. reflexivity.
  - lia.
  - lia.
  - lia.
  - repeat (apply mmap_cons; [lia | lia | lia | vm_compute; reflexivity | simpl; lia
      | simpl; lia | simpl]). apply mmap_nil.
  - simpl. lia.
  - repeat constructor; vm_compute; discriminate || reflexivity.
  - exists a. split; [done |]. apply Hf. exists (mkZone 0x100000 (127 * MiB)). split.
    + vm_compute. right. left.
    + vm_compute. split_and!; discriminate.
Defined.

End PhysicalAllocator.
