(* ===== verification/AddressSpace.v ===== *)
(** * kernel/x64/address-space-x64.h, .cc and PageTableAllocator: page tables

    The three-level tables (PML4, PDP, PD with 2 MiB pages) as words of physical
    memory, the codecs of their entries, the allocator that takes tables from
    the page directory zone, [MapPage] and [VirtualToPhysical].  The
    specification is a map from virtual pages to physical pages; the theorems
    show that the tables in memory implement it. *)

From S2P Require Import Prelude Utils PhysMem.

(** ** Entry codecs *)

Module PageEntry.

(** The bit [k] of an entry for the flag [b]. *)
Definition flag (b : bool) (k : Z) : Z := Z.shiftl (bool_to_Z b) k.

(** kernel/x64/address-space-x64.h:23-27, CR3Entry. *)
Record CR3Entry : Type := mkCR3 {
  cr3_IsWriteThrough : bool; cr3_IsNotCachable : bool; cr3_PageDirectory : Z }.

(** kernel/x64/address-space-x64.h:34-37, CR3Entry::CR3Entry. *)
Definition CR3Entry_of (entry : Z) : CR3Entry :=
  mkCR3 (Z.testbit entry 3) (Z.testbit entry 4) (Z.land entry 0xFFFFFFFFFF000).

(** kernel/x64/address-space-x64.h:39-44, CR3Entry::Encode. *)
Definition CR3Entry_Encode (e : CR3Entry) : outcome Z :=
  _ ← rt_assert (Z.land (cr3_PageDirectory e) 0xFFF =? 0) "PageDirectory aligned";
  Ret (Z.lor (Z.lor (flag (cr3_IsWriteThrough e) 3) (flag (cr3_IsNotCachable e) 4))
             (cr3_PageDirectory e)).

(** kernel/x64/address-space-x64.h:47-56, PML4PDPEntry. *)
Record PML4PDPEntry : Type := mkUpper {
  u_IsPresent : bool; u_IsWriteable : bool; u_IsUserEnabled : bool;
  u_IsWriteThrough : bool; u_IsNotCachable : bool; u_IsAccessed : bool;
  u_IsNoExecute : bool; u_PageDirectory : Z }.

(** kernel/x64/address-space-x64.h:58-66, PML4PDPEntry::PML4PDPEntry. *)
Definition PML4PDPEntry_empty : PML4PDPEntry :=
  mkUpper false false false false false false false 0.

(** kernel/x64/address-space-x64.h:68-76, PML4PDPEntry::PML4PDPEntry. *)
Definition PML4PDPEntry_of (entry : Z) : PML4PDPEntry :=
  mkUpper (Z.testbit entry 0) (Z.testbit entry 1) (Z.testbit entry 2)
    (Z.testbit entry 3) (Z.testbit entry 4) (Z.testbit entry 5)
    (Z.testbit entry 63) (Z.land entry 0xFFFFFFFFFF000).

(** kernel/x64/address-space-x64.h:78-88, PML4PDPEntry::Encode. *)
Definition PML4PDPEntry_Encode (e : PML4PDPEntry) : outcome Z :=
  _ ← rt_assert (Z.land (u_PageDirectory e) 0xFFF =? 0) "PageDirectory aligned";
  Ret (Z.lor (Z.lor (Z.lor (Z.lor (Z.lor (Z.lor (Z.lor
    (flag (u_IsPresent e) 0) (flag (u_IsWriteable e) 1))
    (flag (u_IsUserEnabled e) 2)) (flag (u_IsWriteThrough e) 3))
    (flag (u_IsNotCachable e) 4)) (flag (u_IsAccessed e) 5))
    (flag (u_IsNoExecute e) 63)) (u_PageDirectory e)).

(** kernel/x64/address-space-x64.h:103-115, PDEntry. *)
Record PDEntry : Type := mkPD {
  IsPresent : bool; IsWriteable : bool; IsUserEnabled : bool;
  IsWriteThrough : bool; IsNotCachable : bool; IsAccessed : bool;
  IsDirty : bool; IsPageSize : bool; IsGlobal : bool; IsNoExecute : bool;
  PageAddress : Z }.

(** kernel/x64/address-space-x64.h:117-128, PDEntry::PDEntry. *)
Definition PDEntry_empty : PDEntry :=
  mkPD false false false false false false false false false false 0.

(** kernel/x64/address-space-x64.h:130-141, PDEntry::PDEntry. *)
Definition PDEntry_of (entry : Z) : PDEntry :=
  mkPD (Z.testbit entry 0) (Z.testbit entry 1) (Z.testbit entry 2)
    (Z.testbit entry 3) (Z.testbit entry 4) (Z.testbit entry 5)
    (Z.testbit entry 6) (Z.testbit entry 7) (Z.testbit entry 8)
    (Z.testbit entry 63) (Z.land entry 0xFFFFFFFE00000).

(** kernel/x64/address-space-x64.h:143-156, PDEntry::Encode. *)
Definition PDEntry_Encode (e : PDEntry) : outcome Z :=
  _ ← rt_assert (Z.land (PageAddress e) 0x1FFFFF =? 0) "PageAddress aligned";
  Ret (Z.lor (Z.lor (Z.lor (Z.lor (Z.lor (Z.lor (Z.lor (Z.lor (Z.lor (Z.lor
    (flag (IsPresent e) 0) (flag (IsWriteable e) 1))
    (flag (IsUserEnabled e) 2)) (flag (IsWriteThrough e) 3))
    (flag (IsNotCachable e) 4)) (flag (IsAccessed e) 5))
    (flag (IsDirty e) 6)) (flag (IsPageSize e) 7))
    (flag (IsGlobal e) 8)) (flag (IsNoExecute e) 63)) (PageAddress e)).

(** ** Round trips *)

Lemma testbit_flag b k i : 0 <= k -> 0 <= i -> Z.testbit (flag b k) i = bool_decide (i = k) && b.
Proof.
  intros Hk Hi. unfold flag. rewrite Z.shiftl_spec, bool_to_Z_spec by done.
  f_equal. apply bool_decide_ext. lia.
Qed.

(** The address part of an entry: aligned to [2^k], below [2^52]. *)
Definition addr_ok (k a : Z) : Prop := (2 ^ k | a) /\ in_range 52 a.

Lemma addr_low k a i : 0 <= i < k -> addr_ok k a -> Z.testbit a i = false.
Proof.
  intros Hi [[q ->] _]. rewrite <- Z.shiftl_mul_pow2, Z.shiftl_spec by lia.
  apply Z.testbit_neg_r. lia.
Qed.

Lemma addr_aligned k a : 0 <= k -> addr_ok k a -> Z.land a (Z.ones k) = 0.
Proof.
  intros Hk [[q ->] _]. rewrite Z.land_ones by done. apply Z.mod_mul.
  assert (0 < 2 ^ k) by (apply Z.pow_pos_nonneg; lia). lia.
Qed.

Ltac solve_flag :=
  rewrite !Z.lor_spec, !testbit_flag by lia;
  repeat (first [rewrite bool_decide_eq_true_2 by lia | rewrite bool_decide_eq_false_2 by lia]);
  rewrite ?andb_true_l, ?andb_false_l, ?orb_false_l, ?orb_false_r.

(** [land e mask] where the mask selects bits [k] to 51. *)
Definition addr_mask (k : Z) : Z := Z.shiftl (Z.ones (52 - k)) k.

Lemma testbit_addr_mask k i :
  0 <= k <= 52 -> 0 <= i -> Z.testbit (addr_mask k) i = bool_decide (k <= i < 52).
Proof.
  intros Hk Hi. unfold addr_mask. rewrite Z.shiftl_spec by done.
  destruct (decide (k <= i)).
  - rewrite Z.ones_spec by lia. apply bool_decide_ext. lia.
  - rewrite Z.testbit_neg_r by lia. symmetry. apply bool_decide_eq_false_2. lia.
Qed.

Lemma land_addr_mask k a fl :
  0 <= k <= 52 -> addr_ok k a -> (forall i, k <= i < 52 -> Z.testbit fl i = false) ->
  Z.land (Z.lor fl a) (addr_mask k) = a.
Proof.
  intros Hk Ha Hfl. apply Z.bits_inj'. intros i Hi.
  rewrite Z.land_spec, Z.lor_spec, testbit_addr_mask by done.
  case_bool_decide.
  - by rewrite Hfl, andb_true_r by done.
  - rewrite andb_false_r. symmetry. destruct (decide (i < k)); [by apply (addr_low k) |].
    apply (testbit_high 52); [apply Ha | lia].
Qed.

(** Decoding an encoded entry gives the entry back. *)
Lemma upper_roundtrip e w :
  addr_ok 12 (u_PageDirectory e) -> PML4PDPEntry_Encode e = Ret w -> PML4PDPEntry_of w = e.
Proof.
  intros Ha. unfold PML4PDPEntry_Encode.
  change 0xFFF with (Z.ones 12). rewrite (addr_aligned 12) by (done || lia).
  intros [= <-]. destruct e as [p w u t n a x d]. simpl in *. unfold PML4PDPEntry_of.
  change 0xFFFFFFFFFF000 with (addr_mask 12).
  f_equal; try (solve_flag; rewrite ?(addr_low 12 d), ?(testbit_high 52 d) by
    (lia || apply Ha || done); by rewrite ?orb_false_r).
  apply land_addr_mask; [lia | done |]. intros i Hi. by solve_flag.
Qed.

Lemma pd_roundtrip e w :
  addr_ok 21 (PageAddress e) -> PDEntry_Encode e = Ret w -> PDEntry_of w = e.
Proof.
  intros Ha. unfold PDEntry_Encode.
  change 0x1FFFFF with (Z.ones 21). rewrite (addr_aligned 21) by (done || lia).
  intros [= <-]. destruct e as [p w u t n a y z g x d]. simpl in *. unfold PDEntry_of.
  change 0xFFFFFFFE00000 with (addr_mask 21).
  f_equal; try (solve_flag; rewrite ?(addr_low 21 d), ?(testbit_high 52 d) by
    (lia || apply Ha || done); by rewrite ?orb_false_r).
  apply land_addr_mask; [lia | done |]. intros i Hi. by solve_flag.
Qed.

Lemma cr3_roundtrip e w :
  addr_ok 12 (cr3_PageDirectory e) -> CR3Entry_Encode e = Ret w -> CR3Entry_of w = e.
Proof.
  intros Ha. unfold CR3Entry_Encode.
  change 0xFFF with (Z.ones 12). rewrite (addr_aligned 12) by (done || lia).
  intros [= <-]. destruct e as [t n d]. simpl in *. unfold CR3Entry_of.
  change 0xFFFFFFFFFF000 with (addr_mask 12).
  f_equal; try (solve_flag; rewrite ?(addr_low 12 d) by (lia || done); by rewrite ?orb_false_r).
  apply land_addr_mask; [lia | done |]. intros i Hi. by solve_flag.
Qed.

(** Every well-aligned entry can be encoded. *)
Lemma upper_Encode_Ret e :
  addr_ok 12 (u_PageDirectory e) -> exists w, PML4PDPEntry_Encode e = Ret w.
Proof.
  intros Ha. unfold PML4PDPEntry_Encode. change 0xFFF with (Z.ones 12).
  rewrite (addr_aligned 12) by (done || lia). simpl. eauto.
Qed.

Lemma pd_Encode_Ret e : addr_ok 21 (PageAddress e) -> exists w, PDEntry_Encode e = Ret w.
Proof.
  intros Ha. unfold PDEntry_Encode. change 0x1FFFFF with (Z.ones 21).
  rewrite (addr_aligned 21) by (done || lia). simpl. eauto.
Qed.

End PageEntry.

(** ** Virtual addresses *)

Module VirtualAddress.

(** kernel/x64/address-space-x64.cc:61-64, VirtualAddressX64::page_offset. *)
Definition page_offset (address : Z) : Z := Z.land address 0x1FFFFF.

(** kernel/x64/address-space-x64.cc:66-70, VirtualAddressX64::pd_offset. *)
Definition pd_offset (address : Z) : Z := Z.land (Z.shiftr address 21) 0x1FF.

(** kernel/x64/address-space-x64.cc:72-76, VirtualAddressX64::pdp_offset. *)
Definition pdp_offset (address : Z) : Z := Z.land (Z.shiftr address 30) 0x1FF.

(** kernel/x64/address-space-x64.cc:78-82, VirtualAddressX64::pml4_offset. *)
Definition pml4_offset (address : Z) : Z := Z.land (Z.shiftr address 39) 0x1FF.

(** The three indices that select the page of an address. *)
Definition vpage (address : Z) : Z * Z * Z :=
  (pml4_offset address, pdp_offset address, pd_offset address).

Lemma land_1FF x : 0 <= Z.land x 0x1FF < 512.
Proof. rewrite (land_mask 9) by (done || lia). apply (wrap_range 9). lia. Qed.

Lemma page_offset_range v : 0 <= page_offset v < 2 ^ 21.
Proof. unfold page_offset. rewrite (land_mask 21) by (done || lia). apply (wrap_range 21). lia. Qed.

Lemma slice_value v k n : 0 <= k -> 0 <= n ->
  Z.land (Z.shiftr v k) (Z.ones n) = (v / 2 ^ k) `mod` 2 ^ n.
Proof. intros Hk Hn. by rewrite Z.land_ones, Z.shiftr_div_pow2 by done. Qed.

(** Two addresses of the 48-bit space select the same page exactly when they
    lie in the same 2 MiB block. *)
Lemma vpage_eq v v' :
  in_range 48 v -> in_range 48 v' -> vpage v = vpage v' <-> v / 2 ^ 21 = v' / 2 ^ 21.
Proof.
  intros Hv Hv'. unfold vpage, pml4_offset, pdp_offset, pd_offset.
  change 0x1FF with (Z.ones 9). rewrite !slice_value by lia.
  assert (forall w, w / 2 ^ 30 = w / 2 ^ 21 / 2 ^ 9) as E30.
  { intros w. rewrite Z.div_div by lia. done. }
  assert (forall w, w / 2 ^ 39 = w / 2 ^ 21 / 2 ^ 9 / 2 ^ 9) as E39.
  { intros w. rewrite !Z.div_div by lia. done. }
  rewrite !E30, !E39. unfold in_range in *.
  set (a := v / 2 ^ 21). set (b := v' / 2 ^ 21).
  assert (0 <= a < 2 ^ 27) by (split; [apply Z.div_pos; lia | apply Z.div_lt_upper_bound; lia]).
  assert (0 <= b < 2 ^ 27) by (split; [apply Z.div_pos; lia | apply Z.div_lt_upper_bound; lia]).
  clearbody a b. change (2 ^ 9) with 512 in *. change (2 ^ 27) with 134217728 in *.
  split; [| by intros ->]. intros E. injection E as H1 H2 H3.
  assert (forall x, 0 <= x < 134217728 -> 0 <= x / 512 / 512 < 512) as Hr.
  { intros x Hx. split; [repeat apply Z.div_pos; lia |].
    repeat (apply Z.div_lt_upper_bound; [lia |]). lia. }
  rewrite !Z.mod_small in H1 by auto.
  pose proof (Z.div_mod (a / 512) 512). pose proof (Z.div_mod (b / 512) 512).
  pose proof (Z.div_mod a 512). pose proof (Z.div_mod b 512). lia.
Qed.

Lemma page_split v : v = v / 2 ^ 21 * 2 ^ 21 + page_offset v.
Proof.
  unfold page_offset. rewrite (land_mask 21) by (done || lia). unfold wrap.
  pose proof (Z.div_mod v (2 ^ 21)). lia.
Qed.

End VirtualAddress.

Module AddressSpaceX64.
Import Utils PageEntry VirtualAddress.

(** The page directory zone that [PageTableAllocator] takes tables from. *)
Definition zone_base : Z := PhysicalAllocator.kPageDirectoryStart.
Definition zone_bytes : Z :=
  PhysicalAllocator.kAllocStartAddress - PhysicalAllocator.kPageDirectoryStart.

(** kernel/x64/address-space-x64.h:216-219, AddressSpaceX64 members, with the
    state of the PageTableAllocator, the words of the tables in memory, and the
    addresses given to [invlpg]. *)
Record t : Type := mk {
  words : gmap Z Z;
  tables_taken_ : Z;
  cr3_ : CR3Entry;
  pml4_table_ : Z;
  invlpg : list Z }.

Definition word (m : gmap Z Z) (a : Z) : Z := default 0 (m !! a).

(** kernel/mem-manager.h:332-332, the memset of PageTableAllocator::AllocTable. *)
Definition zero_table (m : gmap Z Z) (addr : Z) : gmap Z Z :=
  fold_left (fun m i => <[addr + 8 * i := 0]> m) (seqZ 0 512) m.

(** kernel/mem-manager.h:321-336, PageTableAllocator::AllocTable. *)
Definition AllocTable (s : t) : outcome (Z * t) :=
  let addr := zone_base + tables_taken_ s * 4 * KiB in
  _ ← rt_assert (addr - zone_base <? zone_bytes) "page directory zone exhausted";
  Ret (addr, mk (zero_table (words s) addr) (u32 (tables_taken_ s + 1)) (cr3_ s)
                (pml4_table_ s) (invlpg s)).

Definition set_words (s : t) (m : gmap Z Z) : t :=
  mk m (tables_taken_ s) (cr3_ s) (pml4_table_ s) (invlpg s).

(** kernel/x64/address-space-x64.h:166-169, PageTable::SetEntry. *)
Definition SetEntry (s : t) (table index : Z) (encoded : outcome Z) : outcome t :=
  _ ← rt_assert (index <? 512) "index < 512";
  w ← encoded;
  Ret (set_words s (<[table + 8 * index := w]> (words s))).

(** kernel/x64/address-space-x64.h:171-174, PageTable::GetEntry. *)
Definition GetEntry (s : t) (table index : Z) : outcome Z :=
  _ ← rt_assert (index <? 512) "index < 512";
  Ret (word (words s) (table + 8 * index)).

(** kernel/x64/address-space-x64.cc:21-30, AddressSpaceX64::AddressSpaceX64. *)
Definition new : outcome t :=
  '(pml4, s) ← AllocTable (mk ∅ 0 (mkCR3 false false 0) 0 []);
  Ret (mk (words s) (tables_taken_ s) (cr3_ s) pml4 (invlpg s)).

(** kernel/x64/address-space-x64.cc:91-122, AddressSpaceX64::VirtualToPhysical.
    The null pointer is address zero. *)
Definition VirtualToPhysical (s : t) (virtaddr : Z) : outcome Z :=
  _ ← rt_assert (negb (cr3_PageDirectory (cr3_ s) =? 0)) "cr3_.PageDirectory";
  let pml4_table := cr3_PageDirectory (cr3_ s) in
  w4 ← GetEntry s pml4_table (pml4_offset virtaddr);
  let pml4 := PML4PDPEntry_of w4 in
  if negb (u_IsPresent pml4) then Ret 0
  else
    _ ← rt_assert (negb (u_PageDirectory pml4 =? 0)) "pml4.PageDirectory";
    w3 ← GetEntry s (u_PageDirectory pml4) (pdp_offset virtaddr);
    let pdp := PML4PDPEntry_of w3 in
    if negb (u_IsPresent pdp) then Ret 0
    else
      _ ← rt_assert (negb (u_PageDirectory pdp =? 0)) "pdp.PageDirectory";
      w2 ← GetEntry s (u_PageDirectory pdp) (pd_offset virtaddr);
      let pd := PDEntry_of w2 in
      if negb (IsPresent pd) then Ret 0
      else Ret (u64 (PageAddress pd + page_offset virtaddr)).

(** kernel/x64/address-space-x64.cc:169-175, the PD entry MapPage creates. *)
Definition new_pd (physaddr : Z) (writethrough : bool) : PDEntry :=
  mkPD true true false writethrough false false false true false false physaddr.

(** kernel/x64/address-space-x64.cc:186-191, the PDP entry MapPage creates; its
    PML4 entry (lines 202-207) has the same fields. *)
Definition new_upper (table : Z) : PML4PDPEntry :=
  mkUpper true true false false false false false table.

(** kernel/x64/address-space-x64.cc:135-166, the walk of MapPage: what it finds
    of the path to the page. *)
Inductive walk : Type :=
  | WalkSame                              (* present with the same address: return *)
  | WalkPresent                           (* present with another address *)
  | WalkNoPage (pd_table : Z)             (* create_pde *)
  | WalkNoPd (pdp_table : Z)              (* create_pde, create_pdpe *)
  | WalkNoPdp.                            (* create_pde, create_pdpe, create_pml4e *)

(** kernel/x64/address-space-x64.cc:139-166, the nested tests of MapPage. *)
Definition do_walk (s : t) (virtaddr physaddr : Z) : outcome walk :=
  w4 ← GetEntry s (cr3_PageDirectory (cr3_ s)) (pml4_offset virtaddr);
  let pml4 := PML4PDPEntry_of w4 in
  if u_IsPresent pml4 then
    _ ← rt_assert (negb (u_PageDirectory pml4 =? 0)) "pml4.PageDirectory";
    w3 ← GetEntry s (u_PageDirectory pml4) (pdp_offset virtaddr);
    let pdp := PML4PDPEntry_of w3 in
    if u_IsPresent pdp then
      _ ← rt_assert (negb (u_PageDirectory pdp =? 0)) "pdp.PageDirectory";
      w2 ← GetEntry s (u_PageDirectory pdp) (pd_offset virtaddr);
      let pd := PDEntry_of w2 in
      if IsPresent pd then
        if physaddr =? PageAddress pd then Ret WalkSame else Ret WalkPresent
      else Ret (WalkNoPage (u_PageDirectory pdp))
    else Ret (WalkNoPd (u_PageDirectory pml4))
  else Ret WalkNoPdp.

(** kernel/x64/address-space-x64.cc:177-182, MapPage: the PD entry is stored, in
    a new table when there is none. *)
Definition create_pde (s : t) (pd_table : option Z) (v physaddr : Z) (writethrough : bool)
  : outcome (Z * t) :=
  '(table, s1) ← match pd_table with
                 | Some table => Ret (table, s)
                 | None => AllocTable s
                 end;
  s2 ← SetEntry s1 table (pd_offset v) (PDEntry_Encode (new_pd physaddr writethrough));
  Ret (table, s2).

(** kernel/x64/address-space-x64.cc:185-199, MapPage: the PDP entry. *)
Definition create_pdpe (s : t) (pdp_table : option Z) (v pd_table : Z) : outcome (Z * t) :=
  '(table, s1) ← match pdp_table with
                 | Some table => Ret (table, s)
                 | None => AllocTable s
                 end;
  s2 ← SetEntry s1 table (pdp_offset v) (PML4PDPEntry_Encode (new_upper pd_table));
  Ret (table, s2).

(** kernel/x64/address-space-x64.cc:201-209, MapPage: the PML4 entry. *)
Definition create_pml4e (s : t) (v pdp_table : Z) : outcome t :=
  SetEntry s (cr3_PageDirectory (cr3_ s)) (pml4_offset v)
    (PML4PDPEntry_Encode (new_upper pdp_table)).

Definition flush (s : t) (invalidate : bool) (v : Z) : t :=
  if invalidate then mk (words s) (tables_taken_ s) (cr3_ s) (pml4_table_ s) (invlpg s ++ [v])
  else s.

(** kernel/x64/address-space-x64.cc:124-214, AddressSpaceX64::MapPage. *)
Definition MapPage (s : t) (virtaddr physaddr0 : Z) (invalidate writethrough : bool)
  : outcome t :=
  let physaddr := PhysicalAllocator.PageAligned physaddr0 in
  _ ← rt_assert (negb (cr3_PageDirectory (cr3_ s) =? 0)) "cr3_.PageDirectory";
  w ← do_walk s virtaddr physaddr;
  match w with
  | WalkSame => Ret s
  | WalkPresent => Ret (flush s invalidate virtaddr)
  | WalkNoPage pd_table =>
      '(_, s1) ← create_pde s (Some pd_table) virtaddr physaddr writethrough;
      Ret (flush s1 invalidate virtaddr)
  | WalkNoPd pdp_table =>
      '(pd, s1) ← create_pde s None virtaddr physaddr writethrough;
      '(_, s2) ← create_pdpe s1 (Some pdp_table) virtaddr pd;
      Ret (flush s2 invalidate virtaddr)
  | WalkNoPdp =>
      '(pd, s1) ← create_pde s None virtaddr physaddr writethrough;
      '(pdp, s2) ← create_pdpe s1 None virtaddr pd;
      s3 ← create_pml4e s2 virtaddr pdp;
      Ret (flush s3 invalidate virtaddr)
  end.

(** kernel/x64/address-space-x64.cc:44-47, the loop of AddressSpaceX64::Configure. *)
Fixpoint identity_map (s : t) (i : Z) (pages : nat) : outcome t :=
  match pages with
  | O => Ret s
  | S n =>
      s' ← MapPage s (PhysicalAllocator.chunk_size * i) (PhysicalAllocator.chunk_size * i)
             false true;
      identity_map s' (i + 1) n
  end.

(** kernel/x64/address-space-x64.cc:32-48, AddressSpaceX64::Configure. *)
Definition Configure (s : t) : outcome t :=
  let s1 := mk (words s) (tables_taken_ s)
    (mkCR3 false (cr3_IsNotCachable (cr3_ s)) (pml4_table_ s)) (pml4_table_ s) (invlpg s) in
  let identity_region := PhysicalAllocator.identity_mapped_region_size in
  _ ← rt_assert (negb (identity_region =? 0)) "identity_region";
  let pagesize := PhysicalAllocator.chunk_size in
  _ ← rt_assert (pagesize >? 0) "pagesize > 0";
  let pages := identity_region / pagesize in
  _ ← rt_assert (pages >? 0) "pages > 0";
  identity_map s1 0 (Z.to_nat pages).

(** kernel/x64/address-space-x64.cc:50-52, AddressSpaceX64::Install.  The value
    loaded into the CR3 register. *)
Definition Install (s : t) : outcome Z := CR3Entry_Encode (cr3_ s).

(** ** The specification: a map from virtual to physical pages

    A table is identified by its place in the tree. *)
Inductive node : Type := NPml4 | NPdp (i4 : Z) | NPd (i4 i3 : Z).

#[export] Instance node_eq_dec : EqDecision node.
Proof. solve_decision. Defined.

(** The table that entry [i] of an upper table points to. *)
Definition child (n : node) (i : Z) : option node :=
  match n with
  | NPml4 => Some (NPdp i)
  | NPdp i4 => Some (NPd i4 i)
  | NPd _ _ => None
  end.

(** A page map: the physical page and the write-through flag of each mapped page. *)
Abbreviation pagemap := (gmap (Z * Z * Z) (Z * bool)).

Definition kMaxTables : Z := zone_bytes / (4 * KiB).

(** An address of a table of the zone. *)
Definition table_addr (a : Z) : Prop :=
  exists k, 0 <= k < kMaxTables /\ a = zone_base + 4096 * k.

(** [tree m root own pg]: the words [m] hold, from the PML4 table at [root], the
    tables [own] (each address with its place) and map exactly [pg]. *)
Record tree (m : gmap Z Z) (root : Z) (own : gmap Z node) (pg : pagemap) : Prop := {
  t_root : own !! root = Some NPml4;
  t_addr : forall a n, own !! a = Some n -> table_addr a;
  t_inj : forall a b n, own !! a = Some n -> own !! b = Some n -> a = b;
  t_parent : forall a i4 i3, own !! a = Some (NPd i4 i3) -> exists b, own !! b = Some (NPdp i4);
  t_upper : forall a n i c, own !! a = Some n -> child n i = Some c -> 0 <= i < 512 ->
    (exists b, own !! b = Some c /\
       PML4PDPEntry_Encode (new_upper b) = Ret (word m (a + 8 * i))) \/
    ((forall b, own !! b <> Some c) /\ word m (a + 8 * i) = 0);
  t_pd : forall a i4 i3 i, own !! a = Some (NPd i4 i3) -> 0 <= i < 512 ->
    match pg !! (i4, i3, i) with
    | Some (p, wt) => addr_ok 21 p /\ PDEntry_Encode (new_pd p wt) = Ret (word m (a + 8 * i))
    | None => word m (a + 8 * i) = 0
    end;
  t_pages : forall i4 i3 i x, pg !! (i4, i3, i) = Some x -> exists a, own !! a = Some (NPd i4 i3) }.

(** [refines s pg]: the address space [s] implements the page map [pg]. *)
Definition refines (s : t) (pg : pagemap) : Prop :=
  exists own, tree (words s) (cr3_PageDirectory (cr3_ s)) own pg /\
    0 <= tables_taken_ s <= kMaxTables /\
    forall a n, own !! a = Some n -> a < zone_base + 4096 * tables_taken_ s.

(** ** Words of tables *)

Lemma word_insert m x v y : word (<[x := v]> m) y = if decide (x = y) then v else word m y.
Proof. unfold word. rewrite lookup_insert. by case_decide. Qed.

(** The words of the table at [b]. *)
Definition in_table (b y : Z) : Prop := b <= y < b + 4096 /\ (y - b) `mod` 8 = 0.
#[export] Instance in_table_dec b y : Decision (in_table b y).
Proof. unfold in_table. apply _. Defined.

Lemma word_zero m b y : word (zero_table m b) y = if decide (in_table b y) then 0 else word m y.
Proof.
  unfold zero_table.
  assert (forall (n : nat) lo m', lo + Z.of_nat n = 512 -> 0 <= lo ->
    word (fold_left (fun m i => <[b + 8 * i := 0]> m) (seqZ lo (Z.of_nat n)) m') y =
    if decide (b + 8 * lo <= y < b + 4096 /\ (y - b) `mod` 8 = 0) then 0 else word m' y) as G.
  { induction n as [| n IH]; intros lo m' Hn Hlo.
    - simpl. rewrite decide_False by lia. done.
    - rewrite seqZ_cons by lia. replace (Z.pred (Z.of_nat (S n))) with (Z.of_nat n) by lia.
      rewrite fold_left_cons, IH, word_insert by lia.
      destruct (decide (b + 8 * lo = y)) as [<- | Hne].
      + rewrite decide_False, decide_True; [done | | lia].
        split; [lia |]. replace (b + 8 * lo - b) with (lo * 8) by lia. by apply Z.mod_mul.
      + apply decide_ext. pose proof (Z.div_mod (y - b) 8). lia. }
  replace 512 with (Z.of_nat 512) by done. rewrite (G 512%nat 0 m) by done.
  apply decide_ext. unfold in_table. replace (b + 8 * 0) with b by lia. done.
Qed.

Lemma tree_ext m m' root own pg :
  (forall y, word m' y = word m y) -> tree m root own pg -> tree m' root own pg.
Proof.
  intros E [H1 H2 H3 H4 H5 H6 H7]. split; auto.
  - intros a n i c. rewrite E. apply H5.
  - intros a i4 i3 i. rewrite E. apply H6.
Qed.

(** Entries of different tables have different addresses. *)
Lemma table_disjoint a b i j :
  table_addr a -> table_addr b -> 0 <= i < 512 -> 0 <= j < 512 ->
  a + 8 * i = b + 8 * j -> a = b /\ i = j.
Proof. intros (k & Hk & ->) (k' & Hk' & ->) Hi Hj E. lia. Qed.

Lemma entry_in_table a b i :
  table_addr a -> table_addr b -> 0 <= i < 512 -> in_table b (a + 8 * i) -> a = b.
Proof.
  intros (k & Hk & ->) (k' & Hk' & ->) Hi [B _]. f_equal. lia.
Qed.

Lemma table_addr_ok a : table_addr a -> addr_ok 12 a /\ a <> 0.
Proof.
  intros (k & Hk & ->). change zone_base with (4096 * 6656). change kMaxTables with 1536 in Hk.
  split; [| lia]. split; [exists (6656 + k); lia |]. red. lia.
Qed.

(** ** Reading the tree *)

(** The entry of an upper table: present exactly when the child exists, and
    then it points to it. *)
Lemma upper_entry m root own pg a n i c :
  tree m root own pg -> own !! a = Some n -> child n i = Some c -> 0 <= i < 512 ->
  let e := PML4PDPEntry_of (word m (a + 8 * i)) in
  (exists b, own !! b = Some c /\ u_IsPresent e = true /\ u_PageDirectory e = b /\ b <> 0) \/
  ((forall b, own !! b <> Some c) /\ u_IsPresent e = false).
Proof.
  intros H Ha Hc Hi e. subst e. destruct (t_upper _ _ _ _ H a n i c Ha Hc Hi) as [(b & Hb & E) | [Hn ->]].
  - left. exists b. destruct (table_addr_ok b) as [Hok Hnz]; [by eapply t_addr |].
    apply upper_roundtrip in E; [| done]. rewrite E. done.
  - right. done.
Qed.

Lemma pd_entry m root own pg a i4 i3 i :
  tree m root own pg -> own !! a = Some (NPd i4 i3) -> 0 <= i < 512 ->
  let e := PDEntry_of (word m (a + 8 * i)) in
  match pg !! (i4, i3, i) with
  | Some (p, wt) => IsPresent e = true /\ PageAddress e = p /\ addr_ok 21 p
  | None => IsPresent e = false
  end.
Proof.
  intros H Ha Hi e. subst e. pose proof (t_pd _ _ _ _ H a i4 i3 i Ha Hi) as P.
  destruct (pg !! (i4, i3, i)) as [[p wt] |].
  - destruct P as [Hok E]. apply pd_roundtrip in E; [| done]. by rewrite E.
  - by rewrite P.
Qed.

Lemma GetEntry_word s a x : GetEntry s a (Z.land x 0x1FF) = Ret (word (words s) (a + 8 * Z.land x 0x1FF)).
Proof.
  unfold GetEntry. pose proof (land_1FF x). rewrite (proj2 (Z.ltb_lt _ _)) by lia. done.
Qed.

Lemma root_nonzero s pg own :
  tree (words s) (cr3_PageDirectory (cr3_ s)) own pg -> cr3_PageDirectory (cr3_ s) =? 0 = false.
Proof.
  intros H. apply Z.eqb_neq. apply (table_addr_ok (cr3_PageDirectory (cr3_ s))).
  eapply t_addr; [done |]. apply H.
Qed.

(** What the walk of [MapPage] finds, in terms of the page map. *)
Definition walk_spec (own : gmap Z node) (pg : pagemap) (v p : Z) (w : walk) : Prop :=
  match pg !! vpage v with
  | Some (q, _) => w = if p =? q then WalkSame else WalkPresent
  | None =>
      match w with
      | WalkNoPage a => own !! a = Some (NPd (pml4_offset v) (pdp_offset v))
      | WalkNoPd a => own !! a = Some (NPdp (pml4_offset v)) /\
                      forall b, own !! b <> Some (NPd (pml4_offset v) (pdp_offset v))
      | WalkNoPdp => forall b, own !! b <> Some (NPdp (pml4_offset v))
      | _ => False
      end
  end.

Lemma no_page_without_table m root own pg v :
  tree m root own pg -> (forall b, own !! b <> Some (NPd (pml4_offset v) (pdp_offset v))) ->
  pg !! vpage v = None.
Proof.
  intros H Hn. destruct (pg !! vpage v) as [x |] eqn:E; [| done].
  apply (t_pages _ _ _ _ H) in E as [a Ha]. by apply Hn in Ha.
Qed.

Lemma do_walk_spec s pg own v p :
  tree (words s) (cr3_PageDirectory (cr3_ s)) own pg ->
  exists w, do_walk s v p = Ret w /\ walk_spec own pg v p w.
Proof.
  intros H. unfold do_walk, pml4_offset, pdp_offset, pd_offset.
  rewrite GetEntry_word. cbn [mbind outcome_bind].
  destruct (upper_entry _ _ _ _ _ NPml4 (pml4_offset v) (NPdp (pml4_offset v)) H (t_root _ _ _ _ H)
    eq_refl (land_1FF _)) as [(b & Hb & E1 & E2 & Hnz) | [Hn E1]].
  2: { unfold pml4_offset in E1. rewrite E1. exists WalkNoPdp. split; [done |].
       unfold walk_spec. rewrite (no_page_without_table _ _ _ _ v H); [done |].
       intros a Ha. apply (t_parent _ _ _ _ H) in Ha as [b Hb]. by apply Hn in Hb. }
  unfold pml4_offset in E1, E2. rewrite E1, E2, (proj2 (Z.eqb_neq b 0)) by done.
  cbn [negb rt_assert mbind outcome_bind]. rewrite GetEntry_word. cbn [mbind outcome_bind].
  destruct (upper_entry _ _ _ _ b _ (pdp_offset v) (NPd (pml4_offset v) (pdp_offset v)) H Hb
    eq_refl (land_1FF _)) as [(c & Hc & E3 & E4 & Hnz') | [Hn E3]].
  2: { unfold pdp_offset in E3. rewrite E3. exists (WalkNoPd b). split; [done |].
       unfold walk_spec. by rewrite (no_page_without_table _ _ _ _ v H). }
  unfold pdp_offset in E3, E4. rewrite E3, E4, (proj2 (Z.eqb_neq c 0)) by done.
  cbn [negb rt_assert mbind outcome_bind]. rewrite GetEntry_word. cbn [mbind outcome_bind].
  pose proof (pd_entry _ _ _ _ c _ _ (pd_offset v) H Hc (land_1FF _)) as P. cbv zeta in P.
  unfold walk_spec, vpage. destruct (pg !! _) as [[q wt] |].
  - destruct P as (P1 & P2 & _). unfold pd_offset in P1, P2. rewrite P1, P2.
    destruct (p =? q); eauto.
  - unfold pd_offset in P. rewrite P. by exists (WalkNoPage c).
Qed.

(** [VirtualToPhysical] computes the page map. *)
Lemma V2P_tree s pg own v :
  tree (words s) (cr3_PageDirectory (cr3_ s)) own pg ->
  VirtualToPhysical s v =
  Ret (match pg !! vpage v with Some (p, _) => p + page_offset v | None => 0 end).
Proof.
  intros H. unfold VirtualToPhysical, pml4_offset, pdp_offset, pd_offset.
  rewrite (root_nonzero _ _ _ H), GetEntry_word. cbn [negb rt_assert mbind outcome_bind].
  destruct (upper_entry _ _ _ _ _ NPml4 (pml4_offset v) (NPdp (pml4_offset v)) H (t_root _ _ _ _ H)
    eq_refl (land_1FF _)) as [(b & Hb & E1 & E2 & Hnz) | [Hn E1]]; unfold pml4_offset in E1.
  2: { rewrite E1. rewrite (no_page_without_table _ _ _ _ v H); [done |].
       intros a Ha. apply (t_parent _ _ _ _ H) in Ha as [b Hb]. by apply Hn in Hb. }
  unfold pml4_offset in E2. rewrite E1, E2, (proj2 (Z.eqb_neq b 0)), GetEntry_word by done.
  cbn [negb rt_assert mbind outcome_bind].
  destruct (upper_entry _ _ _ _ b _ (pdp_offset v) (NPd (pml4_offset v) (pdp_offset v)) H Hb
    eq_refl (land_1FF _)) as [(c & Hc & E3 & E4 & Hnz') | [Hn E3]]; unfold pdp_offset in E3.
  2: { rewrite E3. by rewrite (no_page_without_table _ _ _ _ v H). }
  unfold pdp_offset in E4. rewrite E3, E4, (proj2 (Z.eqb_neq c 0)), GetEntry_word by done.
  cbn [negb rt_assert mbind outcome_bind].
  pose proof (pd_entry _ _ _ _ c _ _ (pd_offset v) H Hc (land_1FF _)) as P. cbv zeta in P.
  unfold vpage. destruct (pg !! _) as [[q wt] |].
  - destruct P as (P1 & P2 & _ & Hq). unfold pd_offset in P1, P2. rewrite P1, P2. simpl. f_equal.
    pose proof (page_offset_range v). apply wrap_small. unfold in_range in *. lia.
  - unfold pd_offset in P. by rewrite P.
Qed.

(** ** Changing the tree *)

(** A child is the entry of one table only. *)
Lemma child_inj n n' i i' c : child n i = Some c -> child n' i' = Some c -> n = n' /\ i = i'.
Proof. destruct n, n'; naive_solver. Qed.

Lemma orphan_table m root own pg n i c :
  tree m root own pg -> child n i = Some c -> (forall b, own !! b <> Some c) ->
  (forall j c', child c j = Some c' -> forall b, own !! b <> Some c') /\
  (forall i4 i3 j, c = NPd i4 i3 -> pg !! (i4, i3, j) = None).
Proof.
  intros H Hc Hn. split.
  - intros j c' Hc' b Hb. destruct n, c; simplify_eq/=.
    apply (t_parent _ _ _ _ H) in Hb as [b' Hb']. by apply Hn in Hb'.
  - intros i4 i3 j ->. destruct (pg !! _) as [x |] eqn:E; [| done].
    apply (t_pages _ _ _ _ H) in E as [b Hb]. by apply Hn in Hb.
Qed.

(** Linking a zeroed table that was not in the tree into a free entry. *)
Lemma tree_add_table m root own pg a n i c b w :
  tree m root own pg -> own !! a = Some n -> child n i = Some c -> 0 <= i < 512 ->
  (forall x, own !! x <> Some c) -> table_addr b -> own !! b = None ->
  PML4PDPEntry_Encode (new_upper b) = Ret w ->
  tree (<[a + 8 * i := w]> (zero_table m b)) root (<[b := c]> own) pg.
Proof.
  intros H Ha Hc Hi Hn Hb Hob Hw.
  destruct (orphan_table _ _ _ _ _ _ _ H Hc Hn) as [Hc1 Hc2].
  assert (forall a' n', own !! a' = Some n' -> a' <> b) as Hab by (intros; congruence).
  assert (forall j, 0 <= j < 512 -> word (<[a + 8 * i := w]> (zero_table m b)) (b + 8 * j) = 0) as Wb.
  { intros j Hj. rewrite word_insert, word_zero, decide_False, decide_True; [done | |].
    - split; [lia |]. replace (b + 8 * j - b) with (j * 8) by lia. by apply Z.mod_mul.
    - intros E. apply table_disjoint in E as [-> _]; eauto using t_addr. by eapply Hab in Ha. }
  assert (forall a' n' j, own !! a' = Some n' -> 0 <= j < 512 ->
    word (<[a + 8 * i := w]> (zero_table m b)) (a' + 8 * j) =
    if decide (a = a' /\ i = j) then w else word m (a' + 8 * j)) as Wa.
  { intros a' n' j Ha' Hj. rewrite word_insert, word_zero.
    destruct (decide (a = a' /\ i = j)) as [[-> ->] | Hne]; [by rewrite decide_True |].
    rewrite !decide_False; [done | |].
    - intros E. apply entry_in_table in E; eauto using t_addr. by eapply Hab in Ha'.
    - intros E. apply Hne, table_disjoint; eauto using t_addr. }
  split.
  - rewrite lookup_insert_ne; [apply H |]. intros ->. by rewrite (t_root _ _ _ _ H) in Hob.
  - intros a' n'. rewrite lookup_insert. case_decide; [by intros; subst |]. apply H.
  - intros x y n'. rewrite !lookup_insert.
    do 2 case_decide; [congruence | | | apply H]; intros Hx Hy; simplify_eq; by edestruct Hn.
  - intros x i4 i3. rewrite lookup_insert. case_decide as E.
    + intros [= ->]. exists a. destruct n; simplify_eq/=. rewrite lookup_insert_ne; [done |]. congruence.
    + intros (y & Hy)%(t_parent _ _ _ _ H). exists y. rewrite lookup_insert_ne; [done |]. congruence.
  - intros a' n' j c' Ha' Hc' Hj. rewrite lookup_insert in Ha'. case_decide as E.
    + simplify_eq. right. split; [| by apply Wb]. intros x. rewrite lookup_insert.
      case_decide; [| by eapply Hc1]. destruct n, n'; simplify_eq/=; congruence.
    + rewrite (Wa a' n' j) by done. destruct (decide (a = a' /\ i = j)) as [[-> ->] | Hne].
      * left. exists b. simplify_eq. by rewrite lookup_insert_eq.
      * destruct (t_upper _ _ _ _ H a' n' j c' Ha' Hc' Hj) as [(x & Hx & Ex) | [Hx Ex]].
        -- left. exists x. rewrite lookup_insert_ne; [done | congruence].
        -- right. split; [| done]. intros x. rewrite lookup_insert.
           case_decide; [| done]. intros [= ->].
           destruct (child_inj _ _ _ _ _ Hc Hc') as [-> ->].
           apply Hne. split; [by eapply t_inj | done].
  - intros a' i4 i3 j Ha' Hj. rewrite lookup_insert in Ha'. case_decide as E.
    + simplify_eq. rewrite (Hc2 i4 i3 j) by done. by apply Wb.
    + rewrite (Wa a' _ j Ha') by done. rewrite decide_False; [by apply (t_pd _ _ _ _ H) |].
      intros [-> ->]. rewrite Ha in Ha'. simplify_eq.
  - intros i4 i3 j x Hx. destruct (t_pages _ _ _ _ H _ _ _ _ Hx) as [y Hy].
    exists y. rewrite lookup_insert_ne; [done | congruence].
Qed.

(** Writing the entry of a page. *)
Lemma tree_set_page m root own pg a i4 i3 i p wt w :
  tree m root own pg -> own !! a = Some (NPd i4 i3) -> 0 <= i < 512 -> addr_ok 21 p ->
  PDEntry_Encode (new_pd p wt) = Ret w ->
  tree (<[a + 8 * i := w]> m) root own (<[(i4, i3, i) := (p, wt)]> pg).
Proof.
  intros H Ha Hi Hp Hw.
  assert (forall a' n' j, own !! a' = Some n' -> 0 <= j < 512 ->
    word (<[a + 8 * i := w]> m) (a' + 8 * j) =
    if decide (a = a' /\ i = j) then w else word m (a' + 8 * j)) as W.
  { intros a' n' j Ha' Hj. rewrite word_insert.
    destruct (decide (a = a' /\ i = j)) as [[-> ->] | Hne]; [by rewrite decide_True |].
    rewrite decide_False; [done |]. intros E. apply Hne, table_disjoint; eauto using t_addr. }
  split; try apply H.
  - intros a' n' j c' Ha' Hc' Hj. rewrite (W a' n' j), decide_False by naive_solver.
    by apply (t_upper _ _ _ _ H a' n').
  - intros a' j4 j3 j Ha' Hj. rewrite (W a' _ j Ha') by done.
    pose proof (t_pd _ _ _ _ H a' j4 j3 j Ha' Hj) as P.
    rewrite lookup_insert. destruct (decide ((i4, i3, i) = (j4, j3, j))) as [E | Hne].
    + simplify_eq. rewrite decide_True; [done |]. split; [by eapply t_inj | done].
    + rewrite decide_False; [done |]. intros [-> ->]. apply Hne. congruence.
  - intros j4 j3 j x. rewrite lookup_insert. case_decide; [| apply H].
    simplify_eq. eauto.
Qed.

(** ** MapPage implements insertion into the page map *)

(** The bound that [refines] keeps on the tables in use. *)
Definition bounded (s : t) (own : gmap Z node) : Prop :=
  0 <= tables_taken_ s <= kMaxTables /\
  forall a n, own !! a = Some n -> a < zone_base + 4096 * tables_taken_ s.

Lemma AllocTable_spec s own :
  bounded s own -> tables_taken_ s < kMaxTables ->
  let b := zone_base + 4096 * tables_taken_ s in
  AllocTable s = Ret (b, mk (zero_table (words s) b) (tables_taken_ s + 1) (cr3_ s)
                           (pml4_table_ s) (invlpg s)) /\
  table_addr b /\ own !! b = None.
Proof.
  intros [[Hlo _] Hb] Hlt b. unfold AllocTable.
  replace (zone_base + tables_taken_ s * 4 * KiB) with b by (unfold b, KiB; lia).
  change kMaxTables with 1536 in *. change zone_bytes with (4096 * 1536).
  rewrite (proj2 (Z.ltb_lt _ _)) by (unfold b; lia).
  unfold u32. rewrite wrap_small by (red; lia). repeat split.
  - exists (tables_taken_ s). change kMaxTables with 1536. done.
  - destruct (own !! b) as [n |] eqn:E; [| done]. apply Hb in E. unfold b in E. lia.
Qed.

Lemma SetEntry_Ret s a x w :
  SetEntry s a (Z.land x 0x1FF) (Ret w) = Ret (set_words s (<[a + 8 * Z.land x 0x1FF := w]> (words s))).
Proof. unfold SetEntry. pose proof (land_1FF x). by rewrite (proj2 (Z.ltb_lt _ _)) by lia. Qed.

Lemma upper_word b : table_addr b -> exists w, PML4PDPEntry_Encode (new_upper b) = Ret w.
Proof. intros [Hb _]%table_addr_ok. by apply upper_Encode_Ret. Qed.

Lemma PageAligned_ok p : in_range 52 p -> addr_ok 21 (PhysicalAllocator.PageAligned p).
Proof.
  intros Hp. rewrite PhysicalAllocator.PageAligned_floor by (unfold in_range in *; lia).
  change PhysicalAllocator.kPageSizeBytes with (2 ^ 21). unfold in_range in *.
  pose proof (Z.div_mod p (2 ^ 21)). pose proof (Z.mod_pos_bound p (2 ^ 21)).
  assert (0 <= p / 2 ^ 21) by (apply Z.div_pos; lia).
  split; [by exists (p / 2 ^ 21) |]. red. lia.
Qed.

(** What the writes of [MapPage] leave, for each outcome of the walk that
    creates a page entry. *)
Definition mapped (s s' : t) (pg : pagemap) (v p : Z) (wt : bool) : Prop :=
  (exists own, tree (words s') (cr3_PageDirectory (cr3_ s')) own (<[vpage v := (p, wt)]> pg) /\
     bounded s' own) /\
  cr3_ s' = cr3_ s /\ invlpg s' = invlpg s /\
  tables_taken_ s <= tables_taken_ s' <= tables_taken_ s + 2.

Section Create.
Context (s : t) (own : gmap Z node) (pg : pagemap) (v p : Z) (wt : bool).
Context (H : tree (words s) (cr3_PageDirectory (cr3_ s)) own pg) (B : bounded s own).
Context (Hp : addr_ok 21 p).

Lemma bounded_insert s' a n :
  tables_taken_ s <= tables_taken_ s' <= kMaxTables -> a < zone_base + 4096 * tables_taken_ s' ->
  bounded s' (<[a := n]> own).
Proof.
  destruct B as [B1 B2]. intros T Ha. split; [lia |]. intros x n'. rewrite lookup_insert.
  case_decide; [by intros; subst |]. intros Hx%B2. lia.
Qed.

Lemma create_page a :
  own !! a = Some (NPd (pml4_offset v) (pdp_offset v)) ->
  exists s', create_pde s (Some a) v p wt = Ret (a, s') /\ mapped s s' pg v p wt.
Proof.
  intros Ha. destruct (pd_Encode_Ret (new_pd p wt) Hp) as [w Hw].
  unfold create_pde, pd_offset. cbn [mbind outcome_bind]. rewrite Hw, SetEntry_Ret.
  eexists. split; [done |]. split; [| cbn; lia || (repeat split; lia)].
  exists own. split; [| done]. eapply tree_set_page; eauto using land_1FF.
Qed.

Lemma create_pd a :
  own !! a = Some (NPdp (pml4_offset v)) ->
  (forall b, own !! b <> Some (NPd (pml4_offset v) (pdp_offset v))) ->
  tables_taken_ s < kMaxTables ->
  exists b s1 s', create_pde s None v p wt = Ret (b, s1) /\
    create_pdpe s1 (Some a) v b = Ret (a, s') /\ mapped s s' pg v p wt.
Proof.
  intros Ha Hn Hroom. destruct (pd_Encode_Ret (new_pd p wt) Hp) as [w Hw].
  destruct (AllocTable_spec s own B) as (EA & Hb & Hob); [lia |].
  set (b := zone_base + 4096 * tables_taken_ s) in *.
  destruct (upper_word b Hb) as [w' Hw'].
  unfold create_pde, create_pdpe, pd_offset, pdp_offset. rewrite EA. cbn [mbind outcome_bind].
  rewrite Hw, SetEntry_Ret. cbn [mbind outcome_bind].
  eexists b, _, _. split; [done |]. rewrite Hw', SetEntry_Ret. split; [done |].
  split; [| cbn; repeat split; lia].
  exists (<[b := NPd (pml4_offset v) (pdp_offset v)]> own). split.
  2: { apply bounded_insert; cbn; [| unfold b]; lia. }
  cbn. rewrite insert_insert_ne.
  - eapply tree_set_page; eauto using land_1FF.
    + eapply tree_add_table; eauto using land_1FF.
    + by rewrite lookup_insert_eq.
  - intros E. apply table_disjoint in E as [-> _]; eauto using t_addr, land_1FF. congruence.
Qed.

(** The writes of the code, leaf first, leave the same words as linking the
    tables from the root. *)
Lemma writes_commute m r b1 b2 i4 i3 i2 w4 w3 w2 :
  table_addr r -> table_addr b1 -> table_addr b2 -> r <> b1 -> r <> b2 -> b1 <> b2 ->
  0 <= i4 < 512 -> 0 <= i3 < 512 -> 0 <= i2 < 512 ->
  forall y,
  word (<[r + 8 * i4 := w4]> (<[b2 + 8 * i3 := w3]>
    (zero_table (<[b1 + 8 * i2 := w2]> (zero_table m b1)) b2))) y =
  word (<[b1 + 8 * i2 := w2]> (<[b2 + 8 * i3 := w3]>
    (zero_table (<[r + 8 * i4 := w4]> (zero_table m b2)) b1))) y.
Proof.
  intros Hr Hb1 Hb2 N1 N2 N3 H4 H3 H2 y.
  assert (forall a b i, table_addr a -> table_addr b -> a <> b -> 0 <= i < 512 ->
    ~ in_table b (a + 8 * i)) as D.
  { intros a b i Ha Hb Hne Hi E. by apply entry_in_table in E. }
  rewrite !word_insert, !word_zero, !word_insert, !word_zero.
  repeat case_decide; subst; try done; exfalso;
    first [ by apply (D r b1 i4) | by apply (D r b2 i4)
          | by apply (D b1 b2 i2) | by apply (D b2 b1 i3)
          | match goal with E : _ = _ |- _ => apply table_disjoint in E; [| done..]; destruct E; congruence end ].
Qed.

Lemma create_pdp :
  (forall b, own !! b <> Some (NPdp (pml4_offset v))) ->
  tables_taken_ s + 2 <= kMaxTables ->
  exists b1 s1 b2 s2 s', create_pde s None v p wt = Ret (b1, s1) /\
    create_pdpe s1 None v b1 = Ret (b2, s2) /\ create_pml4e s2 v b2 = Ret s' /\
    mapped s s' pg v p wt.
Proof.
  intros Hn Hroom. destruct (pd_Encode_Ret (new_pd p wt) Hp) as [w Hw].
  destruct (AllocTable_spec s own B) as (EA & Hb1 & Hob1); [lia |].
  set (b1 := zone_base + 4096 * tables_taken_ s) in *.
  destruct (upper_word b1 Hb1) as [w3 Hw3].
  set (s1 := mk (<[b1 + 8 * pd_offset v := w]> (zero_table (words s) b1)) (tables_taken_ s + 1)
               (cr3_ s) (pml4_table_ s) (invlpg s)).
  assert (bounded s1 (<[b1 := NPd (pml4_offset v) (pdp_offset v)]> own)) as B1.
  { apply bounded_insert; cbn; [| unfold b1]; lia. }
  destruct (AllocTable_spec s1 _ B1) as (EA2 & Hb2 & Hob2); [cbn; lia |].
  set (b2 := zone_base + 4096 * tables_taken_ s1) in *.
  assert (b1 <> b2) as Hne by (unfold b1, b2; cbn; lia). rewrite lookup_insert_ne in Hob2 by done.
  destruct (upper_word b2 Hb2) as [w4 Hw4].
  unfold create_pde, create_pdpe, create_pml4e, pd_offset, pdp_offset, pml4_offset.
  rewrite EA. cbn [mbind outcome_bind]. rewrite Hw, SetEntry_Ret. cbn [mbind outcome_bind].
  eexists b1, s1, b2, _, _. split; [done |]. rewrite EA2. cbn [mbind outcome_bind].
  rewrite Hw3, SetEntry_Ret. split; [done |]. rewrite Hw4, SetEntry_Ret. split; [done |].
  split; [| cbn; repeat split; lia].
  exists (<[b1 := NPd (pml4_offset v) (pdp_offset v)]> (<[b2 := NPdp (pml4_offset v)]> own)). split.
  2: { rewrite insert_insert_ne by done. split; [cbn; change kMaxTables with 1536 in *; destruct B; lia |].
       intros a n. cbn. rewrite lookup_insert. case_decide; [intros _; subst; unfold b2; cbn; lia |].
       intros Ha%B1. cbn in Ha. lia. }
  pose proof (t_addr _ _ _ _ H _ _ (t_root _ _ _ _ H)) as Hr.
  assert (cr3_PageDirectory (cr3_ s) <> b1 /\ cr3_PageDirectory (cr3_ s) <> b2) as [N1 N2].
  { split; intros E; rewrite <- E, (t_root _ _ _ _ H) in *; done. }
  cbn. eapply tree_ext; [apply writes_commute; eauto using land_1FF |].
  eapply tree_set_page; eauto using land_1FF; [| by rewrite lookup_insert_eq].
  eapply tree_add_table; eauto using land_1FF; [| by rewrite lookup_insert_eq | done | |].
  - eapply tree_add_table; eauto using land_1FF, t_root.
  - intros x. rewrite lookup_insert. case_decide; [done |]. intros Hx.
    apply (t_parent _ _ _ _ H) in Hx as [y Hy]. by apply Hn in Hy.
  - by rewrite lookup_insert_ne.
Qed.

End Create.

Lemma AllocTable_exhausted s :
  tables_taken_ s = kMaxTables -> AllocTable s = Fatal "page directory zone exhausted".
Proof.
  intros E. unfold AllocTable. rewrite E. change kMaxTables with 1536. reflexivity.
Qed.

(** Without room for the tables the machine stops. *)
Lemma create_exhausted s own pg v p wt a :
  tree (words s) (cr3_PageDirectory (cr3_ s)) own pg -> bounded s own -> addr_ok 21 p ->
  kMaxTables < tables_taken_ s + 2 ->
  (tables_taken_ s = kMaxTables -> exists why, create_pde s None v p wt = Fatal why) /\
  (exists why, ('(pd, s1) ← create_pde s None v p wt; '(pdp, s2) ← create_pdpe s1 None v pd;
     create_pml4e s2 v (pdp + a)) = Fatal why).
Proof.
  intros H B Hp Hroom. split.
  { intros E. unfold create_pde. rewrite AllocTable_exhausted by done. eauto. }
  destruct (decide (tables_taken_ s = kMaxTables)) as [E | E].
  { unfold create_pde. rewrite AllocTable_exhausted by done. eauto. }
  destruct (pd_Encode_Ret (new_pd p wt) Hp) as [w Hw].
  destruct B as [B1 B2]. destruct (AllocTable_spec s own) as (EA & _ & _); [done | lia |].
  unfold create_pde, pd_offset. rewrite EA. cbn [mbind outcome_bind].
  rewrite Hw, SetEntry_Ret. cbn [mbind outcome_bind]. unfold create_pdpe.
  rewrite AllocTable_exhausted by (cbn; lia). eauto.
Qed.

(** What [MapPage] promises about its result. *)
Definition map_post (s s' : t) (pg : pagemap) (v p : Z) (invalidate wt : bool) : Prop :=
  refines s' (match pg !! vpage v with
              | Some _ => pg
              | None => <[vpage v := (PhysicalAllocator.PageAligned p, wt)]> pg
              end) /\
  invlpg s' = invlpg s ++
    (if invalidate && negb (bool_decide (fst <$> pg !! vpage v =
        Some (PhysicalAllocator.PageAligned p))) then [v] else []) /\
  tables_taken_ s <= tables_taken_ s' <= tables_taken_ s + 2 /\ cr3_ s' = cr3_ s.

Lemma map_post_mapped s s' pg v p invalidate wt :
  pg !! vpage v = None -> mapped s s' pg v (PhysicalAllocator.PageAligned p) wt ->
  map_post s (flush s' invalidate v) pg v p invalidate wt.
Proof.
  intros E ((own' & H' & B') & E1 & E2 & E3). unfold map_post. rewrite E.
  rewrite bool_decide_eq_false_2, andb_true_r by done.
  destruct invalidate; cbn [flush invlpg]; rewrite ?E2, ?app_nil_r; (split; [by exists own' | done]).
Qed.

(** The whole of [MapPage]: it returns with its promise, or stops the machine
    because the zone of the tables is used up. *)
Lemma MapPage_total s pg v p invalidate wt :
  refines s pg -> in_range 52 p ->
  (exists s', MapPage s v p invalidate wt = Ret s' /\ map_post s s' pg v p invalidate wt) \/
  (kMaxTables < tables_taken_ s + 2 /\ exists why, MapPage s v p invalidate wt = Fatal why).
Proof.
  intros (own & H & B) Hp%PageAligned_ok. unfold MapPage.
  set (q := PhysicalAllocator.PageAligned p) in *.
  rewrite (root_nonzero _ _ _ H). cbn [negb rt_assert mbind outcome_bind].
  destruct (do_walk_spec s pg own v q H) as (w & -> & Hw). cbn [mbind outcome_bind].
  unfold walk_spec in Hw. destruct (pg !! vpage v) as [[q' wt'] |] eqn:Ev.
  - left. unfold map_post. rewrite Ev. change (PhysicalAllocator.PageAligned p) with q. destruct (q =? q') eqn:E; subst w.
    + apply Z.eqb_eq in E as <-. eexists; split; [done |].
      rewrite bool_decide_eq_true_2, andb_false_r, app_nil_r by done.
      split; [by exists own | split; [done | split; [lia | done]]].
    + apply Z.eqb_neq in E. eexists; split; [done |].
      rewrite bool_decide_eq_false_2, andb_true_r by (cbn [fmap option_fmap option_map fst]; congruence).
      destruct invalidate; cbn [flush invlpg]; rewrite ?app_nil_r;
        (split; [by exists own | split; [done | split; [cbn [tables_taken_]; lia | done]]]).
  - destruct w as [| | a | a |]; try done.
    + destruct (create_page s own pg v q wt H B Hp a Hw) as (s' & -> & M). left.
      eexists; split; [done |]. by apply map_post_mapped.
    + destruct Hw as [Ha Hn]. destruct (decide (tables_taken_ s = kMaxTables)) as [T | T].
      * right. split; [lia |]. destruct (create_exhausted s own pg v q wt 0 H B Hp) as [K _]; [lia |].
        destruct (K T) as [why ->]. by exists why.
      * destruct (create_pd s own pg v q wt H B Hp a Ha Hn) as (b & s1 & s' & -> & E & M);
          [destruct B; lia |]. left.
        cbn [mbind outcome_bind]. rewrite E. eexists; split; [done |]. by apply map_post_mapped.
    + destruct (decide (tables_taken_ s + 2 <= kMaxTables)) as [T | T].
      * destruct (create_pdp s own pg v q wt H B Hp Hw T)
          as (b1 & s1 & b2 & s2 & s' & -> & E & E' & M). left. cbn [mbind outcome_bind]. rewrite E.
        cbn [mbind outcome_bind]. rewrite E'. eexists; split; [done |]. by apply map_post_mapped.
      * right. split; [lia |]. destruct (create_exhausted s own pg v q wt 0 H B Hp) as [_ [why K]]; [lia |].
        exists why. destruct (create_pde s None v q wt) as [[pd s1] | |];
          cbn [mbind outcome_bind] in K |- *; [| congruence..].
        destruct (create_pdpe s1 None v pd) as [[pdp s2] | |];
          cbn [mbind outcome_bind] in K |- *; [| congruence..].
        rewrite Z.add_0_r in K. by rewrite K.
Qed.

Lemma MapPage_refines s pg v p invalidate wt :
  refines s pg -> tables_taken_ s + 2 <= kMaxTables -> in_range 52 p ->
  exists s', MapPage s v p invalidate wt = Ret s' /\ map_post s s' pg v p invalidate wt.
Proof.
  intros R Hroom Hp. destruct (MapPage_total s pg v p invalidate wt R Hp) as [? | [? _]]; [done | lia].
Qed.

(** ** The initial address space *)

(** The page map that maps the first [k] pages to themselves. *)
Definition identity_below (k : Z) (pg : pagemap) : Prop :=
  forall v, in_range 48 v ->
  pg !! vpage v = if decide (v / 2 ^ 21 < k) then Some (v / 2 ^ 21 * 2 ^ 21, true) else None.

Lemma identity_below_step k pg :
  0 <= k < 2 ^ 27 -> identity_below k pg ->
  identity_below (k + 1) (<[vpage (2 ^ 21 * k) := (2 ^ 21 * k, true)]> pg).
Proof.
  intros Hk I v Hv. rewrite lookup_insert, (I v Hv).
  assert (2 ^ 21 * k / 2 ^ 21 = k) as E by (rewrite Z.mul_comm; apply Z.div_mul; lia).
  assert (vpage (2 ^ 21 * k) = vpage v <-> v / 2 ^ 21 = k) as Ev.
  { rewrite vpage_eq by (unfold in_range in *; lia). rewrite E. naive_solver. }
  destruct (decide (v / 2 ^ 21 = k)) as [Ek | Ek].
  - rewrite decide_True by tauto. rewrite decide_True by lia. do 2 f_equal. lia.
  - rewrite decide_False by tauto. apply decide_ext. lia.
Qed.

Lemma identity_map_correct n : forall k s pg,
  0 <= k -> k + Z.of_nat n <= 2 ^ 10 -> refines s pg -> identity_below k pg ->
  tables_taken_ s + 2 * Z.of_nat n <= kMaxTables ->
  exists s' pg', identity_map s k n = Ret s' /\ refines s' pg' /\
    identity_below (k + Z.of_nat n) pg' /\ cr3_ s' = cr3_ s.
Proof.
  induction n as [| n IH]; intros k s pg Hk Hn R I T.
  { exists s, pg. rewrite Z.add_0_r. done. }
  cbn [identity_map]. change PhysicalAllocator.chunk_size with (2 ^ 21).
  destruct (MapPage_refines s pg (2 ^ 21 * k) (2 ^ 21 * k) false true R) as (s1 & -> & R1 & _ & T1 & C1);
    [lia | red; lia |].
  assert (2 ^ 21 * k / 2 ^ 21 = k) as E by (rewrite Z.mul_comm; apply Z.div_mul; lia).
  rewrite (I (2 ^ 21 * k)), decide_False in R1 by (rewrite ?E; unfold in_range; lia).
  rewrite PhysicalAllocator.PageAligned_floor in R1 by (red; lia).
  change PhysicalAllocator.kPageSizeBytes with (2 ^ 21) in R1. rewrite E in R1.
  replace (k * 2 ^ 21) with (2 ^ 21 * k) in R1 by lia.
  cbn [mbind outcome_bind].
  destruct (IH (k + 1) s1 _ ltac:(lia) ltac:(lia) R1) as (s' & pg' & E' & R' & I' & C').
  - apply identity_below_step; [lia | done].
  - lia.
  - exists s', pg'. split; [done |]. split; [done |].
    replace (k + Z.of_nat (S n)) with (k + 1 + Z.of_nat n) by lia. by rewrite C', C1.
Qed.

Lemma empty_tree :
  tree (zero_table ∅ zone_base) zone_base {[zone_base := NPml4]} ∅.
Proof.
  assert (forall i, word (zero_table ∅ zone_base) i = 0) as W.
  { intros i. rewrite word_zero. by case_decide. }
  split.
  - by rewrite lookup_singleton_eq.
  - intros a n. rewrite lookup_singleton. case_decide; [| done]. intros _. exists 0.
    change kMaxTables with 1536. lia.
  - intros a b n. rewrite !lookup_singleton. repeat case_decide; congruence.
  - intros a i4 i3. rewrite lookup_singleton. by case_decide.
  - intros a n i c Ha Hc Hi. right. split; [| apply W]. intros b.
    rewrite lookup_singleton in *. repeat case_decide; simplify_eq/=; congruence.
  - intros a i4 i3 i. rewrite lookup_singleton. by case_decide.
  - intros i4 i3 i x. by rewrite lookup_empty.
Qed.

(** The address space before [Configure] maps anything. *)
Definition fresh : t :=
  mk (zero_table ∅ zone_base) 1 (mkCR3 false false zone_base) zone_base [].

Lemma fresh_refines : refines fresh ∅.
Proof.
  exists {[zone_base := NPml4]}. split; [apply empty_tree |].
  split; [change kMaxTables with 1536; cbn; lia |].
  intros a n. rewrite lookup_singleton. case_decide; [subst; cbn; lia | done].
Qed.

(** The identity map of the first 32 MiB. *)
Lemma boot_map :
  exists s pg, identity_map fresh 0 16 = Ret s /\ refines s pg /\ identity_below 16 pg /\
    cr3_ s = cr3_ fresh.
Proof.
  destruct (identity_map_correct 16 0 fresh ∅) as (s & pg & E & R & I & C);
    [done | done | apply fresh_refines | | done |].
  - intros v [Hv _]. rewrite lookup_empty, decide_False; [done |].
    assert (0 <= v / 2 ^ 21) by (apply Z.div_pos; lia). lia.
  - exists s, pg. exact (conj E (conj R (conj I C))).
Qed.

Lemma boot_Configure s : new = Ret s -> Configure s = identity_map fresh 0 16.
Proof.
  assert (new = Ret (mk (zero_table ∅ zone_base) 1 (mkCR3 false false 0) zone_base [])) as E
    by reflexivity.
  rewrite E. intros [= <-]. reflexivity.
Qed.

Lemma boot_map_V2P s pg v :
  refines s pg -> identity_below 16 pg -> in_range 48 v ->
  VirtualToPhysical s v = Ret (if v <? 32 * MiB then v else 0).
Proof.
  intros (own & H & _) I Hv. rewrite (V2P_tree _ _ _ _ H), (I v Hv).
  f_equal. change (32 * MiB) with (2 ^ 21 * 16).
  pose proof (page_split v) as Ev. pose proof (page_offset_range v).
  destruct (Z.ltb_spec v (2 ^ 21 * 16)).
  - rewrite decide_True by (apply Z.div_lt_upper_bound; lia). lia.
  - rewrite decide_False; [done |]. intros L.
    assert (16 <= v / 2 ^ 21) by (apply Z.div_le_lower_bound; lia). lia.
Qed.

(** An address space with one page, for the concrete instances. *)
Definition one_page : t :=
  default fresh (result (MapPage fresh (5 * GiB) (64 * MiB) true false)).

Lemma one_page_refines : refines one_page {[vpage (5 * GiB) := (64 * MiB, false)]}.
Proof.
  destruct (MapPage_refines fresh ∅ (5 * GiB) (64 * MiB) true false fresh_refines)
    as (s & E & R & _); [by vm_compute | split; by vm_compute |].
  unfold one_page. rewrite E. rewrite lookup_empty in R. exact R.
Qed.

(** ** The theorems *)

(** C15. Whatever tables the memory holds, as long as they implement the page map
    [pg], [VirtualToPhysical] returns for every address the physical address of
    its page plus the offset in the page, and the null pointer for an unmapped
    page; it never fails an assertion. *)
Theorem VirtualToPhysical_correct s pg v :
  refines s pg ->
  VirtualToPhysical s v =
  Ret (match pg !! vpage v with Some (p, _) => p + page_offset v | None => 0 end).
Proof. intros (own & H & _). by eapply V2P_tree. Qed.

Lemma VirtualToPhysical_correct_witness :
  VirtualToPhysical one_page (5 * GiB + 17) = Ret (64 * MiB + 17).
Proof.
  exact (VirtualToPhysical_correct one_page _ (5 * GiB + 17) one_page_refines).
Defined.

(** C4. [MapPage] on tables that implement [pg], with at least two tables left in
    the page directory zone, returns; the tables then implement [pg] with the
    page inserted when it was absent, and unchanged when it was present (the
    function never remaps a page); the new page translates to the aligned
    physical address, every other page translates as before, and [invlpg] runs
    unless the page was already mapped to the same place. *)
Theorem MapPage_correct s pg v p invalidate wt :
  refines s pg -> tables_taken_ s + 2 <= kMaxTables -> in_range 52 p ->
  exists s', MapPage s v p invalidate wt = Ret s' /\
    refines s' (match pg !! vpage v with
                | Some _ => pg
                | None => <[vpage v := (PhysicalAllocator.PageAligned p, wt)]> pg
                end) /\
    VirtualToPhysical s' v =
      Ret (match pg !! vpage v with
           | Some (q, _) => q + page_offset v
           | None => p / 2 ^ 21 * 2 ^ 21 + page_offset v
           end) /\
    (forall v', vpage v' <> vpage v -> VirtualToPhysical s' v' = VirtualToPhysical s v') /\
    invlpg s' = invlpg s ++
      (if invalidate && negb (bool_decide (fst <$> pg !! vpage v =
          Some (PhysicalAllocator.PageAligned p))) then [v] else []).
Proof.
  intros R Hroom Hp.
  destruct (MapPage_refines s pg v p invalidate wt R Hroom Hp) as (s' & E & R' & I & _).
  exists s'. do 2 (split; [done |]). destruct R as (own & H & _).
  pose proof R' as (own' & H' & _). split; [| split; [| done]].
  - rewrite (V2P_tree _ _ _ _ H'). f_equal.
    destruct (pg !! vpage v) as [[q wt'] |] eqn:Eq; [by rewrite Eq |].
    rewrite lookup_insert_eq, PhysicalAllocator.PageAligned_floor by (unfold in_range in *; lia). done.
  - intros v' Hv'. rewrite (V2P_tree _ _ _ _ H), (V2P_tree _ _ _ _ H').
    destruct (pg !! vpage v); [done |]. by rewrite lookup_insert_ne by done.
Qed.

Lemma MapPage_correct_witness :
  exists s', MapPage one_page (9 * GiB) (96 * MiB + 5) true true = Ret s' /\
    VirtualToPhysical s' (9 * GiB) = Ret (96 * MiB) /\
    VirtualToPhysical s' (5 * GiB) = VirtualToPhysical one_page (5 * GiB).
Proof.
  destruct (MapPage_correct one_page _ (9 * GiB) (96 * MiB + 5) true true one_page_refines)
    as (s' & E & _ & V & F & _); [by vm_compute | split; by vm_compute |].
  exists s'. split; [exact E |]. split; [exact V |]. apply F. by vm_compute.
Defined.

(** The address space that the boot code builds maps the first 32 MiB to
    themselves and nothing else: the constructor and [Configure] return, every
    address of the 48-bit space below 32 MiB translates to itself, every other
    one is unmapped, and [Install] loads the address of the PML4 table. *)
Theorem Configure_identity :
  exists s0 s pg, new = Ret s0 /\ Configure s0 = Ret s /\ refines s pg /\
    Install s = Ret zone_base /\
    forall v, in_range 48 v -> VirtualToPhysical s v = Ret (if v <? 32 * MiB then v else 0).
Proof.
  destruct boot_map as (s & pg & E & R & I & C).
  eexists _, s, pg. split; [reflexivity |].
  split; [unfold Configure; cbn [rt_assert mbind outcome_bind]; exact E |].
  split; [done |]. split.
  - unfold Install. rewrite C. reflexivity.
  - intros v Hv. by apply (boot_map_V2P s pg).
Qed.

End AddressSpaceX64.
