(* ===== verification/MemManager.v ===== *)
(** * kernel/mem-manager.h, .cc: the memory manager

    The stack allocator of the virtual address space, the malloc front end over
    an [mspace] (an interface here, which dlmalloc implements in KernelHeap), the page
    fault handler and the initialisation of the subsystems.  The operations of an [mspace] take
    the addresses that they access, which fault pages in.  The theorems combine the physical
    allocator and the page tables: demand-paged memory is never shared, and accesses return
    with their pages mapped or stop for want of pages or tables. *)

From S2P Require Import Prelude Utils PhysMem AddressSpace.

(** The part of the [mspace] interface of dlmalloc that the kernel calls.  A null
    pointer is address zero. *)
Class MspaceOps (mspace : Type) := {
  create_mspace_with_base : Z -> Z -> option mspace;
  mspace_malloc : mspace -> Z -> outcome (Z * mspace);
  mspace_memalign : mspace -> Z -> Z -> outcome (Z * mspace);
  mspace_calloc : mspace -> Z -> Z -> outcome (Z * mspace);
  mspace_realloc : mspace -> Z -> Z -> outcome (Z * mspace);
  mspace_free : mspace -> Z -> outcome mspace }.

Module VirtualAllocator.

(** kernel/mem-manager.h:301-303, VirtualAllocator constants. *)
Definition kSpacesBase : Z := 256 * GiB.
Definition kSpaceSize : Z := 256 * GiB.
Definition kStacks : Z := 128 * GiB.

(** kernel/mem-manager.h:244-261, VirtualStack. *)
Record VirtualStack : Type := mkStack { top : Z; len : Z }.

(** kernel/mem-manager.h:285-290, VirtualAllocator::GetCpuSpace.  The sum
    [cpuid + 1] is 32-bit. *)
Definition GetCpuSpace (cpuid : Z) : Z := u64 (kSpacesBase + u64 (kSpaceSize * u32 (cpuid + 1))).

(** kernel/mem-manager.h:292-295, VirtualAllocator::GetSharedSpace. *)
Definition GetSharedSpace : Z := kSpacesBase + kSpaceSize.

(** kernel/mem-manager.h:297-299, VirtualAllocator::GetSpaceSize. *)
Definition GetSpaceSize : Z := kSpaceSize.

End VirtualAllocator.

Module MemManager.
Import PhysicalAllocator AddressSpaceX64 VirtualAddress VirtualAllocator PageEntry.

Section WithMspace.
Context {mspace : Type} `{MspaceOps mspace}.

(** kernel/mem-manager.h:571-577, MemManager members, with the members of the
    VirtualAllocator (305-306) and of the MallocAllocator (486-487). *)
Record t : Type := mk {
  pmm_ : PhysicalAllocator.t;
  stack_alloc_next_ : Z;
  addr_space_ : AddressSpaceX64.t;
  default_mspace_ : option mspace;
  malloc_available_ : bool }.

(** kernel/mem-manager.cc:22-27, MemManager::MemManager. *)
Definition new (m : ram) (base : Z) (fuel : nat) : outcome t :=
  pmm ← PhysicalAllocator.new m base fuel;
  as_ ← AddressSpaceX64.new;
  Ret (mk pmm kStacks as_ None false).

(** kernel/mem-manager.cc:48-78, MemManager::PageFault. *)
Definition PageFault (s : t) (fa : Z) : outcome t :=
  '(phys_mem, writethrough, pmm) ←
    (if fa <? 4 * GiB then Ret (fa, true, pmm_ s)
     else if fa <? 512 * 256 * GiB then
       '(p, pmm) ← alloc (pmm_ s); Ret (p, false, pmm)
     else Fatal "Invalid Faulting address");
  _ ← rt_assert (negb (phys_mem =? 0)) "phys_mem";
  as_ ← MapPage (addr_space_ s) fa phys_mem true writethrough;
  Ret (mk pmm (stack_alloc_next_ s) as_ (default_mspace_ s) (malloc_available_ s)).

(** A write to memory: the processor walks the tables, raises a page fault when
    the page is not present, and retries the write after the handler. *)
Definition touch (s : t) (va : Z) : outcome t :=
  w ← do_walk (addr_space_ s) va 0;
  match w with
  | WalkSame | WalkPresent => Ret s
  | _ => PageFault s va
  end.

(** The accesses of a piece of code to the addresses [accs], in order.  The code of an
    [mspace] runs over demand-paged memory, so each of its operations takes the list of the
    addresses that it reads and writes; it stops the machine when a page that it needs
    cannot be had.  A page is new when it is faulted in, and the memory of an [mspace] may
    hold anything at the start, so the faults can be taken before the operation. *)
Fixpoint touches (s : t) (accs : list Z) : outcome t :=
  match accs with
  | [] => Ret s
  | va :: l => s ← touch s va; touches s l
  end.

(** kernel/mem-manager.h:271-283, VirtualAllocator::AllocStack.  The [memset]
    covers exactly the one page that starts at [top]. *)
Definition AllocStack (s : t) : outcome (VirtualStack * t) :=
  let top := stack_alloc_next_ s in
  let page_size := chunk_size in
  let s1 := mk (pmm_ s) (u64 (stack_alloc_next_ s + 2 * page_size)) (addr_space_ s)
               (default_mspace_ s) (malloc_available_ s) in
  s2 ← touch s1 top;
  Ret (mkStack top page_size, s2).

(** kernel/mem-manager.h:526-529, MemManager::AllocPage32. *)
Definition AllocPage32 (s : t) : outcome (Z * t) :=
  '(p, pmm) ← alloc32 (pmm_ s);
  Ret (p, mk pmm (stack_alloc_next_ s) (addr_space_ s) (default_mspace_ s) (malloc_available_ s)).

(** kernel/mem-manager.cc:89-103, MallocAllocator::InitOnce; [accs] are the accesses of
    create_mspace_with_base. *)
Definition InitOnce (s : t) (cpuid : Z) (accs : list Z) : outcome t :=
  _ ← rt_assert (0 =? cpuid) "0 == cpuid";
  let base := GetSharedSpace in
  let cap := GetSpaceSize in
  _ ← rt_assert (negb (base =? 0)) "s";
  _ ← rt_assert (cap >=? 1 * GiB) "cap >= 1 GiB";
  _ ← rt_assert (match default_mspace_ s with None => true | _ => false end)
        "nullptr == default_mspace_";
  s ← touches s accs;
  match create_mspace_with_base base cap with
  | None => Fatal "nullptr != default_mspace_"
  | Some ms => Ret (mk (pmm_ s) (stack_alloc_next_ s) (addr_space_ s) (Some ms) (malloc_available_ s))
  end.

(** kernel/mem-manager.cc:29-46, MemManager::InitSubsystems; also the value
    loaded into the CR3 register of the processor. *)
Definition InitSubsystems (s : t) (cpuid : Z) (accs : list Z) : outcome (Z * t) :=
  if 0 =? cpuid then
    _ ← rt_assert (negb (malloc_available_ s)) "!malloc_available_";
    as_ ← Configure (addr_space_ s);
    cr3 ← Install as_;
    s1 ← InitOnce (mk (pmm_ s) (stack_alloc_next_ s) as_ (default_mspace_ s) (malloc_available_ s)) cpuid accs;
    Ret (cr3, mk (pmm_ s1) (stack_alloc_next_ s1) (addr_space_ s1) (default_mspace_ s1) true)
  else
    cr3 ← Install (addr_space_ s);
    Ret (cr3, s).

(** The call of an [mspace] operation, which accesses [accs]. *)
Definition with_mspace (s : t) (accs : list Z) (op : mspace -> outcome (Z * mspace)) : outcome (Z * t) :=
  _ ← rt_assert (malloc_available_ s) "CanMalloc()";
  match default_mspace_ s with
  | None => Fatal "null mspace"
  | Some ms =>
      s ← touches s accs;
      '(r, ms') ← op ms;
      Ret (r, mk (pmm_ s) (stack_alloc_next_ s) (addr_space_ s) (Some ms') (malloc_available_ s))
  end.

(** kernel/mem-manager.cc:149-153, malloc, with MallocAllocator::Alloc. *)
Definition malloc (s : t) (accs : list Z) (size : Z) : outcome (Z * t) :=
  with_mspace s accs (fun ms => mspace_malloc ms size).

(** kernel/mem-manager.cc:155-159, memalign, with MallocAllocator::AllocAligned. *)
Definition memalign (s : t) (accs : list Z) (alignment size : Z) : outcome (Z * t) :=
  with_mspace s accs (fun ms => mspace_memalign ms alignment size).

(** kernel/mem-manager.cc:161-165, calloc, with MallocAllocator::Calloc. *)
Definition calloc (s : t) (accs : list Z) (elements element_size : Z) : outcome (Z * t) :=
  with_mspace s accs (fun ms => mspace_calloc ms elements element_size).

(** kernel/mem-manager.cc:167-171, realloc, with MallocAllocator::Realloc. *)
Definition realloc (s : t) (accs : list Z) (ptr size : Z) : outcome (Z * t) :=
  with_mspace s accs (fun ms => mspace_realloc ms ptr size).

(** kernel/mem-manager.cc:173-177, free, with MallocAllocator::Free. *)
Definition free (s : t) (accs : list Z) (ptr : Z) : outcome t :=
  '(_, s') ← with_mspace s accs (fun ms => ms' ← mspace_free ms ptr; Ret (0, ms')); Ret s'.

(** ** The invariant

    A virtual page is demand-paged when it lies at or above 4 GiB; below, the
    handler maps it to itself. *)
Definition demand (v : Z) : Prop := 4 * GiB <= v < 512 * 256 * GiB.

Record inv (s : t) (pg : pagemap) (a : pages) : Prop := {
  i_tables : AddressSpaceX64.refines (addr_space_ s) pg;
  i_phys : PhysicalAllocator.refines (pmm_ s) a;
  i_low : forall v q wt, 0 <= v < 4 * GiB -> pg !! vpage v = Some (q, wt) ->
    q = v / 2 ^ 21 * 2 ^ 21;
  i_demand : forall v q wt, demand v -> pg !! vpage v = Some (q, wt) ->
    exists p, p ∈ used_pages a /\ q = p * 2 ^ 21;
  i_inj : forall v v' q wt wt', demand v -> demand v' ->
    pg !! vpage v = Some (q, wt) -> pg !! vpage v' = Some (q, wt') ->
    v / 2 ^ 21 = v' / 2 ^ 21 }.

(** Tables are left for one more [MapPage]. *)
Definition room (s : t) : Prop := tables_taken_ (addr_space_ s) + 2 <= kMaxTables.

Lemma demand_range v : demand v -> in_range 48 v.
Proof. unfold demand, in_range, GiB. lia. Qed.

Lemma low_range v : 0 <= v < 4 * GiB -> in_range 48 v.
Proof. unfold in_range, GiB. lia. Qed.

Lemma low_demand v v' : 0 <= v < 4 * GiB -> demand v' -> vpage v <> vpage v'.
Proof.
  intros Hv Hv' E. apply vpage_eq in E; auto using low_range, demand_range.
  assert (v / 2 ^ 21 < 2048) by (apply Z.div_lt_upper_bound; unfold GiB in *; lia).
  assert (2048 <= v' / 2 ^ 21) by (apply Z.div_le_lower_bound; unfold demand, GiB in *; lia). lia.
Qed.

(** The part of the state a fault leaves alone. *)
Definition frame (s s' : t) : Prop :=
  stack_alloc_next_ s' = stack_alloc_next_ s /\ default_mspace_ s' = default_mspace_ s /\
  malloc_available_ s' = malloc_available_ s /\
  tables_taken_ (addr_space_ s) <= tables_taken_ (addr_space_ s') <= tables_taken_ (addr_space_ s) + 2.

Lemma inv_low s pg a fa s' wt :
  inv s pg a -> 0 <= fa < 4 * GiB -> pmm_ s' = pmm_ s -> pg !! vpage fa = None ->
  refines (addr_space_ s') (<[vpage fa := (fa / 2 ^ 21 * 2 ^ 21, wt)]> pg) ->
  inv s' (<[vpage fa := (fa / 2 ^ 21 * 2 ^ 21, wt)]> pg) a.
Proof.
  intros [I1 I2 I3 I4 I5] Hf Ep E R.
  assert (forall v, demand v -> <[vpage fa := (fa / 2 ^ 21 * 2 ^ 21, wt)]> pg !! vpage v = pg !! vpage v) as L.
  { intros v Hv. apply lookup_insert_ne. by apply low_demand. }
  split; [done | by rewrite Ep | | |].
  - intros v q wt' Hv. rewrite lookup_insert. case_decide as Ev; [| by apply I3].
    apply vpage_eq in Ev; [| by apply low_range..]. intros [= <- _]. by rewrite Ev.
  - intros v q wt' Hv. rewrite L by done. by apply I4.
  - intros v v' q wt1 wt2 Hv Hv'. rewrite !L by done. by apply I5.
Qed.

(** A fault below 4 GiB, not at address zero. *)
Lemma PageFault_low s pg a fa :
  inv s pg a -> 0 < fa < 4 * GiB ->
  (exists s', PageFault s fa = Ret s' /\ frame s s' /\
    inv s' (match pg !! vpage fa with
            | Some _ => pg
            | None => <[vpage fa := (fa / 2 ^ 21 * 2 ^ 21, true)]> pg
            end) a) \/
  (~ room s /\ exists why, PageFault s fa = Fatal why).
Proof.
  intros I Hf. unfold PageFault.
  rewrite (proj2 (Z.ltb_lt _ _)) by lia. cbn [mbind outcome_bind].
  rewrite (proj2 (Z.eqb_neq _ _)) by lia. cbn [negb rt_assert mbind outcome_bind].
  destruct (MapPage_total (addr_space_ s) pg fa fa true true) as [(as_ & -> & R & _ & T & _) | [T [why ->]]].
  { apply I. }
  { unfold in_range, GiB in *. lia. }
  2: { right. split; [unfold room; lia | by exists why]. }
  left. eexists. split; [done |]. split; [done |]. rewrite PageAligned_floor in R by (unfold in_range, GiB in *; lia).
  destruct (pg !! vpage fa) eqn:E.
  - destruct I. by split.
  - apply (inv_low s); [done | lia | done..].
Qed.

Lemma inv_demand s pg a fa s' p :
  inv s pg a -> demand fa -> p ∈ free_pages a ->
  PhysicalAllocator.refines (pmm_ s') (take_page a p) ->
  refines (addr_space_ s') (<[vpage fa := (p * 2 ^ 21, false)]> pg) ->
  inv s' (<[vpage fa := (p * 2 ^ 21, false)]> pg) (take_page a p).
Proof.
  intros [I1 I2 I3 I4 I5] Hf Hp R2 R1.
  assert (forall q, q ∈ used_pages a -> q <> p) as Hu.
  { intros q Hq ->. destruct I2 as (l32 & l64 & Hr). apply (rep_used _ _ _ _ Hr) in Hq. tauto. }
  split; [done | done | | |].
  - intros v q wt Hv. rewrite lookup_insert_ne; [by apply I3 |].
    intros E. symmetry in E. by apply low_demand in E.
  - intros v q wt Hv. rewrite lookup_insert. case_decide.
    + intros [= <- _]. exists p. set_solver.
    + intros E. destruct (I4 v q wt Hv E) as (p' & Hp' & ->). exists p'. set_solver.
  - intros v v' q wt wt' Hv Hv'. rewrite !lookup_insert.
    destruct (decide (vpage fa = vpage v)) as [E1 | E1], (decide (vpage fa = vpage v')) as [E2 | E2].
    + intros _ _. apply vpage_eq; [by apply demand_range.. | congruence].
    + intros [= <- _] Q'. destruct (I4 v' _ wt' Hv' Q') as (p' & Hp' & E). apply Hu in Hp'. lia.
    + intros Q [= <- _]. destruct (I4 v _ wt Hv Q) as (p' & Hp' & E). apply Hu in Hp'. lia.
    + by apply I5.
Qed.

(** A fault in the demand-paged region, on an unmapped page. *)
Lemma PageFault_demand s pg a fa :
  inv s pg a -> demand fa -> pg !! vpage fa = None -> free_pages a <> ∅ ->
  (exists s' p, PageFault s fa = Ret s' /\ p ∈ free_pages a /\ frame s s' /\
    inv s' (<[vpage fa := (p * 2 ^ 21, false)]> pg) (take_page a p)) \/
  (~ room s /\ exists why, PageFault s fa = Fatal why).
Proof.
  intros I Hf Hnone Hfree. unfold PageFault. pose proof (i_phys _ _ _ I) as I2.
  pose proof Hf as [Hf1 Hf2]. rewrite (proj2 (Z.ltb_ge _ _)) by lia. rewrite (proj2 (Z.ltb_lt _ _)) by lia.
  destruct (alloc_refines _ _ I2 Hfree) as (p & pmm & -> & Hp & I2' & _). cbn [mbind outcome_bind].
  assert (page_ok p) as [Hp1 Hp2] by (destruct I2 as (l32 & l64 & Hr); by eapply free_ok).
  change kPageSizeBytes with (2 ^ 21). change first_page with 16 in Hp1. change kMaxPage with 133118 in Hp2.
  rewrite (proj2 (Z.eqb_neq _ _)) by lia. cbn [negb rt_assert mbind outcome_bind].
  destruct (MapPage_total (addr_space_ s) pg fa (p * 2 ^ 21) true false)
    as [(as_ & -> & R & _ & T & _) | [T [why ->]]]; [apply I | red; lia | |].
  2: { right. split; [unfold room; lia | by exists why]. }
  left. rewrite Hnone, PageAligned_floor in R by (red; lia). change kPageSizeBytes with (2 ^ 21) in R.
  rewrite Z.div_mul in R by done.
  eexists _, p. split; [done |]. split; [done |]. split; [done |]. by apply (inv_demand s).
Qed.

Lemma PageFault_no_memory s pg a fa :
  inv s pg a -> demand fa -> free_pages a = ∅ ->
  PageFault s fa = Fatal "No more physical pages to allocate.".
Proof.
  intros I [Hf1 Hf2] Hfree. unfold PageFault. rewrite (proj2 (Z.ltb_ge _ _)) by lia.
  rewrite (proj2 (Z.ltb_lt _ _)) by lia. erewrite alloc_exhausted; [done | apply I | done].
Qed.

(** ** Runs of the memory manager

    The accesses of the running kernel, the stacks it allocates and the 32-bit
    pages it hands out (the set that goes with the state). *)
Inductive step : t * gset Z -> t * gset Z -> Prop :=
  | step_touch s d va s' : 0 <= va -> touch s va = Ret s' -> step (s, d) (s', d)
  | step_stack s d vs s' : AllocStack s = Ret (vs, s') -> step (s, d) (s', d)
  | step_page32 s d p s' : AllocPage32 s = Ret (p, s') -> step (s, d) (s', {[p]} ∪ d).

(** The 32-bit pages handed out are in use and no demand-paged memory lies on them. *)
Definition dma_inv (pg : pagemap) (a : pages) (d : gset Z) : Prop :=
  forall x, x ∈ d -> (exists p, p ∈ used_pages a /\ x = p * 2 ^ 21) /\
    forall v q wt, demand v -> pg !! vpage v = Some (q, wt) -> q <> x.

Definition run_inv (st : t * gset Z) : Prop :=
  exists pg a, inv st.1 pg a /\ dma_inv pg a st.2 /\ 0 <= stack_alloc_next_ st.1.

Lemma inv_stack s pg a next :
  inv s pg a -> inv (mk (pmm_ s) next (addr_space_ s) (default_mspace_ s) (malloc_available_ s)) pg a.
Proof. intros []. by split. Qed.

Lemma touch_cases s pg a va :
  inv s pg a ->
  (exists x, pg !! vpage va = Some x /\ touch s va = Ret s) \/
  (pg !! vpage va = None /\ touch s va = PageFault s va).
Proof.
  intros I. destruct (i_tables _ _ _ I) as (own & Ht & _). unfold touch.
  destruct (do_walk_spec _ _ _ va 0 Ht) as (w & -> & Hw). unfold walk_spec in Hw.
  destruct (pg !! vpage va) as [[q wt] |].
  - left. exists (q, wt). split; [done |]. subst w. by destruct (0 =? q).
  - right. split; [done |]. by destruct w.
Qed.

Lemma touch_inv s d va s' :
  run_inv (s, d) -> 0 <= va -> touch s va = Ret s' -> run_inv (s', d) /\ frame s s'.
Proof.
  intros (pg & a & I & D & N) Hva E. cbn in *.
  destruct (touch_cases s pg a va I) as [(x & _ & E') | [Hnone E']]; rewrite E' in E.
  { injection E as <-. split; [by exists pg, a |]. unfold frame. repeat split; lia. }
  assert (va < 4 * GiB \/ demand va \/ 512 * 256 * GiB <= va) as [Hl | [Hd | Hh]]
    by (unfold demand, GiB; lia).
  - destruct (decide (va = 0)) as [-> | Hne]; [done |].
    destruct (PageFault_low s pg a va I ltac:(lia)) as [(s1 & E1 & F & I1) | [_ [w E1]]]; rewrite E in E1; simplify_eq.
    rewrite Hnone in I1. split; [| done]. eexists _, a. split; [exact I1 |]. destruct F as (F & _).
    cbn. rewrite F. split; [| done]. intros x Hx. destruct (D x Hx) as [Dx Dv]. split; [done |].
    intros v q wt Hv. rewrite lookup_insert_ne; [by apply Dv |]. by apply low_demand.
  - destruct (decide (free_pages a = ∅)) as [He | Hne].
    { by rewrite (PageFault_no_memory s pg a va I Hd He) in E. }
    destruct (PageFault_demand s pg a va I Hd Hnone Hne) as [(s1 & p & E1 & Hp & F & I1) | [_ [w E1]]];
      rewrite E in E1; simplify_eq.
    split; [| done]. eexists _, _. split; [exact I1 |]. destruct F as (F & _). cbn. rewrite F.
    split; [| done]. intros x Hx. destruct (D x Hx) as [(p' & Hp' & ->) Dv].
    split; [exists p'; set_solver |]. intros v q wt Hv. rewrite lookup_insert. case_decide; [| by apply Dv].
    intros [= <- _]. destruct (i_phys _ _ _ I) as (l32 & l64 & Hr).
    apply (rep_used _ _ _ _ Hr) in Hp' as [_ Hp']. intros Ep. assert (p = p') by lia. congruence.
  - unfold PageFault in E. by rewrite (proj2 (Z.ltb_ge _ _)), (proj2 (Z.ltb_ge _ _)) in E by (unfold GiB in *; lia).
Qed.

Lemma page32_inv s d p s' :
  run_inv (s, d) -> AllocPage32 s = Ret (p, s') -> run_inv (s', {[p]} ∪ d).
Proof.
  intros (pg & a & I & D & N) E. unfold AllocPage32 in E.
  apply bind_Ret in E as ([addr pmm] & E & E'). injection E' as <- <-.
  apply (alloc32_inv _ a) in E as (q & -> & Hq & R); [| apply I].
  pose proof (i_phys _ _ _ I) as (l32 & l64 & Hr). change kPageSizeBytes with (2 ^ 21).
  exists pg, (take_page a q). cbn in *. destruct I as [I1 I2 I3 I4 I5].
  split_and!; [split | | done]; cbn; try done.
  - intros v x wt Hv E. destruct (I4 v x wt Hv E) as (r & Hr' & ->). exists r. set_solver.
  - intros x [->%elem_of_singleton | Hx]%elem_of_union.
    + split; [exists q; set_solver |]. intros v x wt Hv E Ex.
      destruct (I4 v x wt Hv E) as (r & Hr' & ->). assert (r = q) as -> by lia.
      apply (rep_used _ _ _ _ Hr) in Hr'. tauto.
    + destruct (D x Hx) as [(r & Hr' & ->) Dv]. split; [exists r; set_solver | done].
Qed.

Lemma run_step_inv st st' : run_inv st -> step st st' -> run_inv st'.
Proof.
  intros I St. destruct St as [s d va s' Hva E | s d vs s' E | s d p s' E].
  - by eapply touch_inv.
  - unfold AllocStack in E. apply bind_Ret in E as (s2 & E & E'). injection E' as <- <-.
    destruct I as (pg & a & I & D & N). apply touch_inv with (d := d) in E as [? _]; [done | | done].
    exists pg, a. split; [by apply inv_stack |]. split; [done |]. apply wrap_range. lia.
  - by eapply page32_inv.
Qed.

Lemma run_steps st st' : run_inv st -> rtc step st st' -> run_inv st'.
Proof. intros I R. induction R; eauto using run_step_inv. Qed.

(** The translation in terms of the page map. *)
Lemma translate s pg a v x :
  inv s pg a -> VirtualToPhysical (addr_space_ s) v = Ret x -> x <> 0 ->
  exists q wt, pg !! vpage v = Some (q, wt) /\ x = q + page_offset v.
Proof.
  intros I E Hx. destruct (i_tables _ _ _ I) as (own & Ht & _).
  rewrite (V2P_tree _ _ _ _ Ht) in E. destruct (pg !! vpage v) as [[q wt] |]; simplify_eq.
  by exists q, wt.
Qed.

(** ** Accesses *)

(** The state apart from the page tables and the physical pages. *)
Definition same_rest (s s' : t) : Prop :=
  stack_alloc_next_ s' = stack_alloc_next_ s /\ default_mspace_ s' = default_mspace_ s /\
  malloc_available_ s' = malloc_available_ s.

Lemma touch_rest s va s' : touch s va = Ret s' -> same_rest s s'.
Proof.
  unfold touch. intros (w & _ & E)%bind_Ret.
  assert (PageFault s va = Ret s' -> same_rest s s') as P.
  { unfold PageFault. intros ([[p wt] pmm] & _ & (? & _ & (as_ & _ & E2)%bind_Ret)%bind_Ret)%bind_Ret. by injection E2 as <-. }
  destruct w; auto; by injection E as <-.
Qed.

Lemma touches_rest accs : forall s s', touches s accs = Ret s' -> same_rest s s'.
Proof.
  induction accs as [| va l IH]; intros s s'; cbn [touches]; [by intros [= <-] |].
  intros (s1 & (E1 & E2 & E3)%touch_rest & (F1 & F2 & F3)%IH)%bind_Ret. unfold same_rest. by rewrite F1, F2, F3.
Qed.

Lemma touches_step accs : forall s s' d, Forall (fun v => 0 <= v) accs -> touches s accs = Ret s' -> rtc step (s, d) (s', d).
Proof.
  induction accs as [| va l IH]; intros s s' d F; cbn [touches]; [intros [= <-]; apply rtc_refl |].
  apply Forall_cons in F as [F0 F]. intros (s1 & E & E')%bind_Ret. eapply rtc_l; [by eapply step_touch | by apply IH].
Qed.

(** The pages that [accs] needs and that are not mapped. *)
Definition missing (pg : pagemap) (accs : list Z) : gset (Z * Z * Z) := list_to_set (map vpage accs) ∖ dom pg.

(** There are fewer free pages, or tables, than the accesses may need. *)
Definition short (s : t) (pg : pagemap) (a : pages) (accs : list Z) : Prop :=
  (size (free_pages a) < size (missing pg accs))%nat \/
  kMaxTables < tables_taken_ (addr_space_ s) + 2 * Z.of_nat (size (missing pg accs)).

(** The number of different pages that [accs] needs. *)
Definition pages_of (accs : list Z) : nat := size (list_to_set (map vpage accs) : gset (Z * Z * Z)).

Lemma missing_le pg accs : (size (missing pg accs) <= pages_of accs)%nat.
Proof. unfold pages_of, missing. apply subseteq_size. intros x. rewrite elem_of_difference. tauto. Qed.

Lemma missing_nil pg : missing pg [] = ∅.
Proof. unfold missing. clear. set_solver. Qed.

Lemma missing_mapped pg v l x : pg !! vpage v = Some x -> missing pg (v :: l) = missing pg l.
Proof.
  intros E. apply set_eq. intros y. unfold missing. cbn [map list_to_set].
  rewrite !elem_of_difference, elem_of_union, elem_of_singleton, not_elem_of_dom. split; [| tauto].
  intros [[-> | Hy] Hn]; [by rewrite E in Hn | done].
Qed.

Lemma missing_new pg v l x : pg !! vpage v = None ->
  size (missing pg (v :: l)) = S (size (missing (<[vpage v := x]> pg) l)).
Proof.
  intros E. assert (missing pg (v :: l) = {[vpage v]} ∪ missing (<[vpage v := x]> pg) l) as ->.
  { apply set_eq. intros y. unfold missing. cbn [map list_to_set]. rewrite dom_insert_L.
    rewrite elem_of_union, !elem_of_difference, !elem_of_union, elem_of_singleton.
    destruct (decide (y = vpage v)) as [-> | Hne]; [| tauto]. rewrite not_elem_of_dom. tauto. }
  rewrite size_union, size_singleton; [done |]. unfold missing. rewrite dom_insert_L.
  apply disjoint_singleton_l. rewrite elem_of_difference, elem_of_union, elem_of_singleton. tauto.
Qed.

Lemma take_page_size a p : p ∈ free_pages a -> size (free_pages a) = S (size (free_pages (take_page a p))).
Proof.
  intros Hp. cbn. rewrite size_difference by (by apply singleton_subseteq_l). rewrite size_singleton.
  assert (size (free_pages a) <> 0%nat); [| lia]. intros E%size_empty_inv. apply E in Hp. by apply elem_of_empty in Hp.
Qed.

(** Accesses to demand-paged memory: they return with all of it mapped, what was mapped
    kept and the pages taken from the free ones, or they stop for want of pages or tables. *)
Record faulted (s : t) (pg : pagemap) (a : pages) (accs : list Z) (s' : t) (pg' : pagemap) (a' : pages) : Prop := {
  f_inv : inv s' pg' a';
  f_rest : same_rest s s';
  f_mapped : forall v, v ∈ accs -> is_Some (pg' !! vpage v);
  f_kept : pg ⊆ pg';
  f_used : used_pages a ⊆ used_pages a';
  f_pages : free_pages a' ∪ used_pages a' = free_pages a ∪ used_pages a;
  f_tables : tables_taken_ (addr_space_ s') <=
    tables_taken_ (addr_space_ s) + 2 * Z.of_nat (size (missing pg accs)) }.

Lemma touches_spec accs : forall s pg a, inv s pg a -> Forall demand accs ->
  (exists s' pg' a', touches s accs = Ret s' /\ faulted s pg a accs s' pg' a') \/
  (exists why, touches s accs = Fatal why /\ short s pg a accs).
Proof.
  induction accs as [| v l IH]; intros s pg a I F; cbn [touches].
  { left. exists s, pg, a. split; [done |]. split; try done; [intros v Hv; by apply elem_of_nil in Hv | lia]. }
  apply Forall_cons in F as [Hd F]. destruct (touch_cases s pg a v I) as [(x & Ex & ->) | [Hn ->]]; cbn [mbind outcome_bind].
  { destruct (IH s pg a I F) as [(s' & pg' & a' & E & [I' Rs Hm Hk Hu Hp Ht]) | (why & E & Hs)].
    - left. exists s', pg', a'. split; [done |]. split; try done; [| by erewrite missing_mapped].
      intros y [-> | Hy]%elem_of_cons; [| by apply Hm]. exists x. by eapply lookup_weaken.
    - right. exists why. split; [done |]. unfold short. by erewrite missing_mapped. }
  destruct (decide (free_pages a = ∅)) as [He | Hne].
  { right. rewrite (PageFault_no_memory s pg a v I Hd He). eexists. split; [done |]. left.
    rewrite He, size_empty, (missing_new _ _ _ (0, false) Hn). lia. }
  destruct (PageFault_demand s pg a v I Hd Hn Hne) as [(s1 & p & -> & Hp & (R1 & R2 & R3 & R4) & I1) | [Hr [why ->]]].
  2: { right. exists why. split; [done |]. right. rewrite (missing_new _ _ _ (0, false) Hn). unfold room in Hr. lia. }
  cbn [mbind outcome_bind]. set (x := (p * 2 ^ 21, false)) in *. set (pg1 := <[vpage v := x]> pg) in *.
  assert (size (missing pg (v :: l)) = S (size (missing pg1 l))) as Em by (by apply missing_new).
  pose proof (take_page_size a p Hp) as Ef.
  destruct (IH s1 pg1 (take_page a p) I1 F) as [(s' & pg' & a' & E & [I' (Q1 & Q2 & Q3) Hm Hk Hu Hpp Ht]) | (why & E & Hs)].
  - left. exists s', pg', a'. split; [done |]. split; [done | .. |].
    + unfold same_rest. by rewrite Q1, Q2, Q3.
    + intros y [-> | Hy]%elem_of_cons; [| by apply Hm]. exists x. eapply lookup_weaken; [apply lookup_insert_eq | done].
    + transitivity pg1; [by apply insert_subseteq | done].
    + clear -Hu. cbn in Hu. set_solver.
    + rewrite Hpp. cbn. clear -Hp. apply set_eq. intros y. destruct (decide (y = p)); set_solver.
    + rewrite Em. lia.
  - right. exists why. split; [done |]. unfold short in *. rewrite Em. destruct Hs as [Hs | Hs]; [left | right]; lia.
Qed.

(** A mapped demand-paged address is backed by memory. *)
Lemma backed s pg a v x : inv s pg a -> demand v -> pg !! vpage v = Some x ->
  exists y, VirtualToPhysical (addr_space_ s) v = Ret y /\ y <> 0.
Proof.
  intros I Hd E. destruct x as [q wt]. destruct (i_tables _ _ _ I) as (own & Ht & _). rewrite (V2P_tree _ _ _ _ Ht), E.
  eexists. split; [done |]. destruct (i_demand _ _ _ I _ _ _ Hd E) as (p & Hp & ->).
  destruct (i_phys _ _ _ I) as (l32 & l64 & Hr). apply (rep_used _ _ _ _ Hr) in Hp as [[Hp _] _].
  change first_page with 16 in Hp. pose proof (page_offset_range v). lia.
Qed.

(** The memory manager with the heap [ms]. *)
Definition ready (s : t) (ms : mspace) : t := mk (pmm_ s) (stack_alloc_next_ s) (addr_space_ s) (Some ms) true.

Lemma inv_ready s ms pg a : inv s pg a -> inv (ready s ms) pg a.
Proof. intros []. by split. Qed.

Lemma boot_tables s : identity_map fresh 0 16 = Ret s -> tables_taken_ s = 3.
Proof.
  assert (tables_taken_ <$> result (identity_map fresh 0 16) = Some 3) as E by (vm_compute; reflexivity).
  intros E'. rewrite E' in E. by injection E.
Qed.

Lemma InitSubsystems_spec pmm a as_ ms
  (Ha : AddressSpaceX64.new = Ret as_) (Hp : PhysicalAllocator.refines pmm a)
  (Hc : create_mspace_with_base GetSharedSpace GetSpaceSize = Some ms) :
  let s := mk pmm kStacks as_ None false in
  (forall accs n, malloc s accs n = Fatal "CanMalloc()") /\
  exists s1 pg, inv s1 pg a /\ identity_below 16 pg /\ pmm_ s1 = pmm /\ stack_alloc_next_ s1 = kStacks /\
    tables_taken_ (addr_space_ s1) = 3 /\
    (forall v, in_range 48 v ->
       VirtualToPhysical (addr_space_ s1) v = Ret (if v <? 32 * MiB then v else 0)) /\
    (forall accs, InitSubsystems s 0 accs = (s2 ← touches s1 accs; Ret (zone_base, ready s2 ms))) /\
    forall s2 accs, InitSubsystems (ready s2 ms) 0 accs = Fatal "!malloc_available_".
Proof.
  intros s. split; [done |].
  destruct boot_map as (as' & pg & E & R & Id & C).
  assert (Configure as_ = Ret as') as EC.
  { by rewrite (boot_Configure as_ Ha). }
  assert (Install as' = Ret zone_base) as EI by (unfold Install; rewrite C; reflexivity).
  set (s1 := mk pmm kStacks as' None false).
  assert (forall v q wt, in_range 48 v -> pg !! vpage v = Some (q, wt) ->
    v / 2 ^ 21 < 16 /\ q = v / 2 ^ 21 * 2 ^ 21) as Lk.
  { intros v q wt Hv. rewrite (Id v Hv). case_decide; [| done]. intros [= <- _]. lia. }
  assert (forall v q wt, demand v -> pg !! vpage v <> Some (q, wt)) as Ld.
  { intros v q wt Hd Eq. apply Lk in Eq as [L _]; [| by apply demand_range].
    assert (16 <= v / 2 ^ 21) by (apply Z.div_le_lower_bound; unfold demand, GiB in *; lia). lia. }
  exists s1, pg. split; [| split; [exact Id | split; [done | split; [done | split; [by apply boot_tables | split; [| split]]]]]].
  - split; [done | done | | |].
    + intros v q wt Hv Eq. apply (Lk v q wt); [by apply low_range | done].
    + intros v q wt Hd Eq. destruct (Ld v q wt Hd Eq).
    + intros v v' q wt wt' Hd _ Eq. destruct (Ld v q wt Hd Eq).
  - intros v Hv. by apply (boot_map_V2P _ pg).
  - intros accs. unfold InitSubsystems. cbn [s malloc_available_ addr_space_ negb rt_assert mbind outcome_bind Z.eqb].
    rewrite EC. cbn [mbind outcome_bind]. rewrite EI. cbn [mbind outcome_bind].
    unfold InitOnce. cbn [default_mspace_ pmm_ stack_alloc_next_ malloc_available_ mbind outcome_bind rt_assert]. fold s1.
    change (0 =? 0) with true. change (negb (GetSharedSpace =? 0)) with true. change (GetSpaceSize >=? 1 * GiB) with true.
    change (default_mspace_ s) with (@None mspace). cbn [rt_assert mbind outcome_bind].
    change (mk _ _ as' _ false) with s1. destruct (touches s1 accs) as [s2 | |]; cbn [mbind outcome_bind]; [| reflexivity ..].
    rewrite Hc. reflexivity.
  - reflexivity.
Qed.

(** ** The theorems *)

(** C5. The page fault handler, on every address.  Below 4 GiB (address zero apart,
    which stops the machine) the page is mapped to itself; in the demand-paged
    region an unmapped page gets a physical page that was free, and the machine
    stops when none is left; beyond, the machine stops.  The invariant that ties
    the page tables to the physical allocator is kept. *)
Theorem PageFault_correct s pg a fa (I : inv s pg a) (R : room s) :
  (fa = 0 -> PageFault s fa = Fatal "phys_mem") /\
  (0 < fa < 4 * GiB -> exists s', PageFault s fa = Ret s' /\ frame s s' /\
     inv s' (match pg !! vpage fa with
             | Some _ => pg
             | None => <[vpage fa := (fa / 2 ^ 21 * 2 ^ 21, true)]> pg
             end) a) /\
  (demand fa -> pg !! vpage fa = None -> free_pages a <> ∅ ->
     exists s' p, PageFault s fa = Ret s' /\ p ∈ free_pages a /\ frame s s' /\
       inv s' (<[vpage fa := (p * 2 ^ 21, false)]> pg) (take_page a p)) /\
  (demand fa -> free_pages a = ∅ -> PageFault s fa = Fatal "No more physical pages to allocate.") /\
  (512 * 256 * GiB <= fa -> PageFault s fa = Fatal "Invalid Faulting address").
Proof.
  split_and!.
  - by intros ->.
  - intros Hf. destruct (PageFault_low s pg a fa I Hf) as [? | [? _]]; done.
  - intros Hd Hn Hf. destruct (PageFault_demand s pg a fa I Hd Hn Hf) as [? | [? _]]; done.
  - intros. by eapply PageFault_no_memory.
  - intros Hf. unfold PageFault.
    by rewrite (proj2 (Z.ltb_ge _ _)), (proj2 (Z.ltb_ge _ _)) by (unfold GiB in *; lia).
Qed.

Lemma isolation (s : t) d v v' x x' : run_inv (s, d) -> demand v -> demand v' ->
  VirtualToPhysical (addr_space_ s) v = Ret x -> x <> 0 -> VirtualToPhysical (addr_space_ s) v' = Ret x' -> x' <> 0 ->
  (x / 2 ^ 21 = x' / 2 ^ 21 -> v / 2 ^ 21 = v' / 2 ^ 21) /\ (x = x' -> v = v') /\ x / 2 ^ 21 * 2 ^ 21 ∉ d.
Proof.
  intros (pg & a & I & D & _) Dv Dv' Ev Hx Ev' Hx'.
  destruct (translate _ _ _ _ _ I Ev Hx) as (q & wt & Eq & ->).
  destruct (translate _ _ _ _ _ I Ev' Hx') as (q' & wt' & Eq' & ->).
  destruct (i_demand _ _ _ I _ _ _ Dv Eq) as (p & Hp & ->).
  destruct (i_demand _ _ _ I _ _ _ Dv' Eq') as (p' & Hp' & ->).
  pose proof (page_offset_range v). pose proof (page_offset_range v').
  rewrite !Z.div_add_l, !(Z.div_small (page_offset _)), !Z.add_0_r by lia. split_and!.
  - intros <-. by eapply (i_inj _ _ _ I).
  - intros E. assert (p = p') as <- by lia. pose proof (i_inj _ _ _ I _ _ _ _ _ Dv Dv' Eq Eq') as Ep. rewrite (page_split v), (page_split v'), Ep. lia.
  - intros Hd. destruct (D _ Hd) as [_ Dx]. by apply (Dx v _ wt Dv Eq).
Qed.

(** C3. Isolation: whatever accesses, stack allocations and 32-bit page allocations
    the kernel performs from a state that satisfies the invariant, two
    demand-paged addresses that translate into the same physical page belong to
    the same virtual page, and none of them lies on a 32-bit page that was handed
    out. *)
Theorem demand_never_shared s0 pg0 a0 s d v v' x x'
  (I0 : inv s0 pg0 a0) (N0 : 0 <= stack_alloc_next_ s0) (Run : rtc step (s0, ∅) (s, d))
  (Dv : demand v) (Dv' : demand v')
  (Ev : VirtualToPhysical (addr_space_ s) v = Ret x) (Hx : x <> 0)
  (Ev' : VirtualToPhysical (addr_space_ s) v' = Ret x') (Hx' : x' <> 0) :
  (x / 2 ^ 21 = x' / 2 ^ 21 -> v / 2 ^ 21 = v' / 2 ^ 21) /\ x / 2 ^ 21 * 2 ^ 21 ∉ d.
Proof.
  assert (run_inv (s, d)) as R.
  { apply (run_steps (s0, ∅)); [| done]. exists pg0, a0. split; [done |]. split; [| done]. intros y Hy. set_solver. }
  destruct (isolation s d v v' x x' R Dv Dv' Ev Hx Ev' Hx') as (H1 & _ & H2). done.
Qed.

(** A stack allocation, with memory and tables left, returns the next 2 MiB
    aligned range, with every byte of it backed by memory; the stack after it
    starts 4 MiB further, so consecutive stacks never touch, and the stacks stay
    below the space of [malloc]. *)
Theorem AllocStack_correct s pg a
  (I : inv s pg a) (R : room s) (Hfree : free_pages a <> ∅)
  (Hlo : kStacks <= stack_alloc_next_ s) (Hal : (2 ^ 21 | stack_alloc_next_ s))
  (Hhi : stack_alloc_next_ s + 4 * MiB <= GetSharedSpace) :
  exists s' pg' a', AllocStack s = Ret (mkStack (stack_alloc_next_ s) (2 * MiB), s') /\
    inv s' pg' a' /\ stack_alloc_next_ s' = stack_alloc_next_ s + 4 * MiB /\
    forall off, 0 <= off < 2 * MiB ->
      exists x, VirtualToPhysical (addr_space_ s') (stack_alloc_next_ s + off) = Ret x /\ x <> 0.
Proof.
  set (top := stack_alloc_next_ s) in *.
  assert (4 * GiB <= top /\ top + 4 * MiB <= 512 * 256 * GiB) as [T1 T2].
  { change kStacks with (128 * GiB) in Hlo. change GetSharedSpace with (512 * GiB) in Hhi.
    unfold GiB, MiB in *. lia. }
  assert (demand top) as Hd by (unfold demand, MiB in *; lia).
  assert (forall s' pg' a' q wt, inv s' pg' a' -> pg' !! vpage top = Some (q, wt) ->
    forall off, 0 <= off < 2 * MiB ->
      exists x, VirtualToPhysical (addr_space_ s') (top + off) = Ret x /\ x <> 0) as K.
  { intros s' pg' a' q wt I' Eq off Hoff. destruct (i_tables _ _ _ I') as (own & Ht & _).
    assert (vpage (top + off) = vpage top) as Ev.
    { apply vpage_eq; [unfold in_range, GiB, MiB in *; lia.. |]. destruct Hal as [k ->].
      rewrite Z.div_add_l, Z.div_mul, (Z.div_small off) by (unfold MiB in *; lia). lia. }
    rewrite (V2P_tree _ _ _ _ Ht), Ev, Eq. eexists; split; [done |].
    destruct (i_demand _ _ _ I' _ _ _ Hd Eq) as (p & Hp & ->).
    destruct (i_phys _ _ _ I') as (l32 & l64 & Hr). apply (rep_used _ _ _ _ Hr) in Hp as [[Hp _] _].
    change first_page with 16 in Hp. pose proof (page_offset_range (top + off)). lia. }
  unfold AllocStack. fold top. change (2 * chunk_size) with (4 * MiB). change chunk_size with (2 * MiB).
  unfold u64. rewrite wrap_small by (unfold in_range, GiB, MiB in *; lia).
  apply (inv_stack s pg a (top + 4 * MiB)) in I. set (s1 := mk _ _ _ _ _) in I |- *.
  destruct (touch_cases s1 pg a top I) as [([q wt] & Eq & ->) | [Hnone ->]].
  - exists s1, pg, a. split; [done |]. split; [done |]. split; [done |]. by eapply K.
  - destruct (PageFault_demand s1 pg a top I Hd Hnone Hfree) as [(s' & p & -> & Hp & F & I') | [Hn _]];
      [| by destruct Hn].
    eexists s', _, _. split; [done |]. split; [exact I' |]. split; [apply F |].
    eapply K; [exact I' |]. by rewrite lookup_insert_eq.
Qed.

(** Initialisation of the boot processor, on the state its constructors leave, with any
    accesses of the heap to its space: it installs the tables that map the first 32 MiB to
    themselves, backs what was accessed with free pages, keeps the memory invariant, and
    makes [malloc] available, which stops the machine before; it stops only for want of
    pages or tables; a second initialisation by the boot processor stops the machine. *)
Theorem InitSubsystems_correct pmm a as_ ms accs
  (Ha : AddressSpaceX64.new = Ret as_) (Hp : PhysicalAllocator.refines pmm a)
  (Hc : create_mspace_with_base GetSharedSpace GetSpaceSize = Some ms) (Hd : Forall demand accs) :
  let s := mk pmm kStacks as_ None false in
  (forall accs n, malloc s accs n = Fatal "CanMalloc()") /\
  match InitSubsystems s 0 accs with
  | Ret (cr3, s') => cr3 = zone_base /\ (exists pg' a', inv s' pg' a') /\ stack_alloc_next_ s' = kStacks /\
      (forall v, 0 <= v < 32 * MiB -> VirtualToPhysical (addr_space_ s') v = Ret v) /\
      (forall v, v ∈ accs -> exists y, VirtualToPhysical (addr_space_ s') v = Ret y /\ y <> 0) /\
      default_mspace_ s' = Some ms /\ malloc_available_ s' = true /\
      forall accs', InitSubsystems s' 0 accs' = Fatal "!malloc_available_"
  | Fatal _ => (size (free_pages a) < pages_of accs)%nat \/ kMaxTables < 3 + 2 * Z.of_nat (pages_of accs)
  | OutOfFuel => False
  end.
Proof.
  intros s. destruct (InitSubsystems_spec pmm a as_ ms Ha Hp Hc) as [M (s1 & pg & I & Id & Ep & En & Et & V & E & Again)].
  split; [exact M |]. fold s in E. rewrite E. pose proof (missing_le pg accs) as Le.
  destruct (touches_spec accs s1 pg a I Hd) as [(s2 & pg2 & a2 & -> & [I2 (R1 & R2 & R3) Hm Hk _ _ _]) | (why & -> & Hs)];
    cbn [mbind outcome_bind].
  2: { destruct Hs as [Hs | Hs]; [left; lia | right; rewrite Et in Hs; lia]. }
  split; [done |]. split; [exists pg2, a2; by apply inv_ready |]. split; [cbn; congruence |]. split_and!; try done.
  - intros v Hv. destruct (i_tables _ _ _ I2) as (own & Ht & _). cbn. rewrite (V2P_tree _ _ _ _ Ht).
    specialize (V v ltac:(unfold in_range, MiB in *; lia)). rewrite (proj2 (Z.ltb_lt _ _)) in V by lia.
    destruct (i_tables _ _ _ I) as (own1 & Ht1 & _). rewrite (V2P_tree _ _ _ _ Ht1) in V.
    specialize (Id v ltac:(unfold in_range, MiB in *; lia)).
    rewrite decide_True in Id by (apply Z.div_lt_upper_bound; unfold MiB in *; lia). rewrite Id in V.
    by rewrite (lookup_weaken _ _ _ _ Id Hk).
  - intros v Hv. destruct (Hm v Hv) as [x Ex]. eapply backed; [by apply inv_ready | | exact Ex].
    by apply (proj1 (Forall_forall _ _) Hd).
Qed.

End WithMspace.

(** ** Concrete instances

    An [mspace] that hands out consecutive addresses, and the machine with three
    free pages after the initialisation. *)
#[local] Instance bump : MspaceOps Z := {|
  create_mspace_with_base base cap := Some base;
  mspace_malloc m n := Ret (m, m + n);
  mspace_memalign m al n := Ret (Z.max m al, Z.max m al + n);
  mspace_calloc m n k := Ret (m, m + n * k);
  mspace_realloc m p n := Ret (m, m + n);
  mspace_free m p := Ret m |}.

Lemma bump_create : @create_mspace_with_base Z bump GetSharedSpace GetSpaceSize = Some GetSharedSpace.
Proof. reflexivity. Qed.

Definition unbooted : t (mspace := Z) := mk small kStacks (default fresh (result AddressSpaceX64.new)) None false.
Definition booted : t (mspace := Z) :=
  match InitSubsystems unbooted 0 [] with Ret (_, s) => s | _ => unbooted end.

Lemma booted_inv : exists pg, inv booted pg small_pages /\ identity_below 16 pg.
Proof.
  destruct (InitSubsystems_spec small small_pages (default fresh (result AddressSpaceX64.new))
    GetSharedSpace eq_refl small_refines bump_create) as [_ (s1 & pg & I & Id & _ & _ & _ & _ & E & _)].
  exists pg. unfold booted, unbooted. rewrite E. exact (conj (inv_ready _ _ _ _ I) Id).
Qed.

Lemma booted_room : room booted.
Proof. by vm_compute. Qed.

Lemma small_free : free_pages small_pages <> ∅.
Proof. vm_compute. discriminate. Qed.

Lemma PageFault_correct_witness :
  (exists s', PageFault booted (64 * MiB + 5) = Ret s') /\
  (exists s' p, PageFault booted (600 * GiB) = Ret s' /\ p ∈ free_pages small_pages) /\
  PageFault booted (2 ^ 47) = Fatal "Invalid Faulting address".
Proof.
  destruct booted_inv as (pg & I & Id). split; [| split].
  - destruct (PageFault_correct booted pg small_pages (64 * MiB + 5) I booted_room) as (_ & P & _).
    destruct P as (s' & E & _); [by vm_compute |]. exists s'. exact E.
  - destruct (PageFault_correct booted pg small_pages (600 * GiB) I booted_room) as (_ & _ & P & _).
    destruct P as (s' & p & E & Hp & _).
    + split; by vm_compute.
    + rewrite (Id (600 * GiB)) by (split; by vm_compute). reflexivity.
    + exact small_free.
    + exists s', p. exact (conj E Hp).
  - destruct (PageFault_correct booted pg small_pages (2 ^ 47) I booted_room) as (_ & _ & _ & _ & P).
    apply P. by vm_compute.
Defined.

Lemma AllocStack_correct_witness :
  exists s', AllocStack booted = Ret (mkStack kStacks (2 * MiB), s').
Proof.
  destruct booted_inv as (pg & I & _).
  destruct (AllocStack_correct booted pg small_pages I booted_room small_free)
    as (s' & pg' & a' & E & _).
  - by vm_compute.
  - exists 65536. by vm_compute.
  - by vm_compute.
  - exists s'. assert (stack_alloc_next_ booted = kStacks) as Es by by vm_compute.
    rewrite Es in E. exact E.
Defined.

Lemma InitSubsystems_correct_witness :
  exists s' y, InitSubsystems unbooted 0 [GetSharedSpace + 16] = Ret (zone_base, s') /\
    VirtualToPhysical (addr_space_ s') (GetSharedSpace + 16) = Ret y /\ y <> 0.
Proof.
  destruct (InitSubsystems_correct small small_pages (default fresh (result AddressSpaceX64.new))
    GetSharedSpace [GetSharedSpace + 16] eq_refl small_refines bump_create) as [_ P].
  - constructor; [| constructor]. split; by vm_compute.
  - change (mk small kStacks (default fresh (result AddressSpaceX64.new)) None false) with unbooted in P.
    destruct (InitSubsystems unbooted 0 [GetSharedSpace + 16]) as [[c s'] | |].
    + destruct P as (-> & _ & _ & _ & P & _). destruct (P (GetSharedSpace + 16)) as (y & E & Hy); [left |].
      exists s', y. exact (conj eq_refl (conj E Hy)).
    + exfalso. vm_compute in P. destruct P as [P | P]; [lia | done].
    + destruct P.
Defined.

(** The machine after two stack allocations. *)
Definition two_stacks : t (mspace := Z) :=
  match AllocStack booted with
  | Ret (_, s1) => match AllocStack s1 with Ret (_, s2) => s2 | _ => booted end
  | _ => booted
  end.

Lemma two_stacks_run : rtc step (booted, ∅) (two_stacks, ∅).
Proof.
  unfold two_stacks. destruct (AllocStack booted) as [[vs s1] | |] eqn:E1; [| apply rtc_refl..].
  destruct (AllocStack s1) as [[vs' s2] | |] eqn:E2; [| apply rtc_refl..].
  eapply rtc_l; [by eapply step_stack |]. by eapply rtc_once, step_stack.
Qed.

Lemma demand_never_shared_witness :
  exists x x', VirtualToPhysical (addr_space_ two_stacks) kStacks = Ret x /\
    VirtualToPhysical (addr_space_ two_stacks) (kStacks + 4 * MiB) = Ret x' /\
    x / 2 ^ 21 <> x' / 2 ^ 21.
Proof.
  destruct booted_inv as (pg & I & _).
  exists (3000 * 2 ^ 21), (17 * 2 ^ 21).
  assert (VirtualToPhysical (addr_space_ two_stacks) kStacks = Ret (3000 * 2 ^ 21)) as E1 by by vm_compute.
  assert (VirtualToPhysical (addr_space_ two_stacks) (kStacks + 4 * MiB) = Ret (17 * 2 ^ 21)) as E2 by by vm_compute.
  split; [exact E1 | split; [exact E2 |]]. intros E.
  destruct (demand_never_shared booted pg small_pages two_stacks ∅ kStacks (kStacks + 4 * MiB)
    (3000 * 2 ^ 21) (17 * 2 ^ 21) I) as [K _]; [by vm_compute | exact two_stacks_run | split; by vm_compute | split; by vm_compute
      | exact E1 | by vm_compute | exact E2 | by vm_compute |].
  apply K in E. by vm_compute in E.
Defined.

End MemManager.
