(* ===== verification/DlHeap.v ===== *)
(** * kernel/dlmalloc.cc: memory words, chunks and boundary tags

    The allocator behind [malloc] of the kernel keeps all its data in the memory that it
    manages: a chunk has its size and two flags in its [head], a free chunk has its size
    again at its end, and links to other free chunks where the user's data was.  Here are
    the word accesses, the macros on chunks as the kernel configures them (alignment 32, no
    mmap, no morecore, no footers, checks on), the state of a space and the layout of
    the chunks in memory, with the lemmas on what a write leaves alone. *)

From S2P Require Import Prelude.

Module Chunk.

(** ** Words of memory *)

Definition ld (m : ram) (a : Z) : Z := load m a 8.
Definition st (m : ram) (a v : Z) : ram := store_bytes m a (le_bytes 8 v).
Definition ld32 (m : ram) (a : Z) : Z := load m a 4.
Definition st32 (m : ram) (a v : Z) : ram := store_bytes m a (le_bytes 4 v).

(** ** Sizes and alignments *)

(** kernel/dlmalloc.cc:581-581, MALLOC_ALIGNMENT, with CHUNK_ALIGN_MASK (1635). *)
Definition MALLOC_ALIGNMENT : Z := 32.
Definition CHUNK_ALIGN_MASK : Z := MALLOC_ALIGNMENT - 1.

(** kernel/dlmalloc.cc:1641-1643, align_offset. *)
Definition align_offset (a : Z) : Z :=
  if Z.land a CHUNK_ALIGN_MASK =? 0 then 0
  else Z.land (MALLOC_ALIGNMENT - Z.land a CHUNK_ALIGN_MASK) CHUNK_ALIGN_MASK.

(** kernel/dlmalloc.cc:2220-2225, MCHUNK_SIZE and CHUNK_OVERHEAD. *)
Definition MCHUNK_SIZE : Z := 32.
Definition CHUNK_OVERHEAD : Z := 8.
(** kernel/dlmalloc.cc:2234-2235, MIN_CHUNK_SIZE. *)
Definition MIN_CHUNK_SIZE : Z := Z.land (MCHUNK_SIZE + CHUNK_ALIGN_MASK) (Z.lnot CHUNK_ALIGN_MASK).
(** kernel/dlmalloc.cc:2238-2238, chunk2mem. *)
Definition chunk2mem (p : Z) : Z := u64 (p + 16).
(** kernel/dlmalloc.cc:2239-2239, mem2chunk. *)
Definition mem2chunk (mem : Z) : Z := u64 (mem - 16).
(** kernel/dlmalloc.cc:2241-2241, align_as_chunk. *)
Definition align_as_chunk (a : Z) : Z := a + align_offset (a + 16).

(** kernel/dlmalloc.cc:2244-2244, MAX_REQUEST. *)
Definition MAX_REQUEST : Z := u64 (Z.shiftl (u64 (- MIN_CHUNK_SIZE)) 2).
(** kernel/dlmalloc.cc:2245-2245, MIN_REQUEST. *)
Definition MIN_REQUEST : Z := MIN_CHUNK_SIZE - CHUNK_OVERHEAD - 1.
(** kernel/dlmalloc.cc:2248-2249, pad_request. *)
Definition pad_request (req : Z) : Z :=
  Z.land (u64 (req + CHUNK_OVERHEAD + CHUNK_ALIGN_MASK)) (Z.lnot CHUNK_ALIGN_MASK).
(** kernel/dlmalloc.cc:2252-2253, request2size. *)
Definition request2size (req : Z) : Z := if req <? MIN_REQUEST then MIN_CHUNK_SIZE else pad_request req.

(** kernel/dlmalloc.cc:2750-2751, TOP_FOOT_SIZE; a segment record has 32 bytes. *)
Definition TOP_FOOT_SIZE : Z := align_offset 16 + pad_request 32 + MIN_CHUNK_SIZE.

(** ** Fields of a chunk *)

(** kernel/dlmalloc.cc:2204-2209, malloc_chunk: its fields at their offsets. *)
Definition prev_foot (m : ram) (p : Z) : Z := ld m p.
Definition head (m : ram) (p : Z) : Z := ld m (p + 8).
Definition fd (m : ram) (p : Z) : Z := ld m (p + 16).
Definition bk (m : ram) (p : Z) : Z := ld m (p + 24).
(** kernel/dlmalloc.cc:2413-2423, malloc_tree_chunk: the fields after those of malloc_chunk. *)
Definition child (m : ram) (p i : Z) : Z := ld m (p + (32 + 8 * i)).
Definition parent (m : ram) (p : Z) : Z := ld m (p + 48).
Definition index (m : ram) (p : Z) : Z := ld32 m (p + 56).

Definition set_head (m : ram) (p v : Z) : ram := st m (p + 8) v.
Definition set_fd (m : ram) (p v : Z) : ram := st m (p + 16) v.
Definition set_bk (m : ram) (p v : Z) : ram := st m (p + 24) v.
Definition set_child (m : ram) (p i v : Z) : ram := st m (p + (32 + 8 * i)) v.
Definition set_parent (m : ram) (p v : Z) : ram := st m (p + 48) v.
Definition set_index (m : ram) (p v : Z) : ram := st32 m (p + 56) v.

(** kernel/dlmalloc.cc:2266-2270, the flags of a head. *)
Definition PINUSE_BIT : Z := 1.
Definition CINUSE_BIT : Z := 2.
Definition INUSE_BITS : Z := Z.lor PINUSE_BIT CINUSE_BIT.
Definition FLAG_BITS : Z := Z.lor INUSE_BITS 4.
(** kernel/dlmalloc.cc:2276-2276, cinuse. *)
Definition cinuse (m : ram) (p : Z) : bool := negb (Z.land (head m p) CINUSE_BIT =? 0).
(** kernel/dlmalloc.cc:2277-2277, pinuse. *)
Definition pinuse (m : ram) (p : Z) : bool := negb (Z.land (head m p) PINUSE_BIT =? 0).
(** kernel/dlmalloc.cc:2279-2279, is_inuse. *)
Definition is_inuse (m : ram) (p : Z) : bool := negb (Z.land (head m p) INUSE_BITS =? PINUSE_BIT).
(** kernel/dlmalloc.cc:2280-2280, is_mmapped. *)
Definition is_mmapped (m : ram) (p : Z) : bool := Z.land (head m p) INUSE_BITS =? 0.
(** kernel/dlmalloc.cc:2282-2282, chunksize. *)
Definition chunksize (m : ram) (p : Z) : Z := Z.land (head m p) (Z.lnot FLAG_BITS).

(** kernel/dlmalloc.cc:2284-2284, clear_pinuse. *)
Definition clear_pinuse (m : ram) (p : Z) : ram := set_head m p (Z.land (head m p) (Z.lnot PINUSE_BIT)).
(** kernel/dlmalloc.cc:2289-2290, chunk_plus_offset and chunk_minus_offset. *)
Definition chunk_plus_offset (p s : Z) : Z := u64 (p + s).
Definition chunk_minus_offset (p s : Z) : Z := u64 (p - s).
(** kernel/dlmalloc.cc:2301-2301, set_foot. *)
Definition set_foot (m : ram) (p s : Z) : ram := st m (chunk_plus_offset p s) s.
(** kernel/dlmalloc.cc:2304-2305, set_size_and_pinuse_of_free_chunk. *)
Definition set_size_and_pinuse_of_free_chunk (m : ram) (p s : Z) : ram :=
  set_foot (set_head m p (Z.lor s PINUSE_BIT)) p s.
(** kernel/dlmalloc.cc:2308-2309, set_free_with_pinuse. *)
Definition set_free_with_pinuse (m : ram) (p s n : Z) : ram :=
  set_size_and_pinuse_of_free_chunk (clear_pinuse m n) p s.

(** kernel/dlmalloc.cc:3071-3073, set_inuse. *)
Definition set_inuse (m : ram) (p s : Z) : ram :=
  let m := set_head m p (Z.lor (Z.lor (Z.land (head m p) PINUSE_BIT) s) CINUSE_BIT) in
  set_head m (chunk_plus_offset p s) (Z.lor (head m (chunk_plus_offset p s)) PINUSE_BIT).
(** kernel/dlmalloc.cc:3076-3078, set_inuse_and_pinuse. *)
Definition set_inuse_and_pinuse (m : ram) (p s : Z) : ram :=
  let m := set_head m p (Z.lor (Z.lor s PINUSE_BIT) CINUSE_BIT) in
  set_head m (chunk_plus_offset p s) (Z.lor (head m (chunk_plus_offset p s)) PINUSE_BIT).
(** kernel/dlmalloc.cc:3081-3082, set_size_and_pinuse_of_inuse_chunk. *)
Definition set_size_and_pinuse_of_inuse_chunk (m : ram) (p s : Z) : ram :=
  set_head m p (Z.lor (Z.lor s PINUSE_BIT) CINUSE_BIT).

(** ** The state of a space *)

(** kernel/dlmalloc.cc:2599-2622, malloc_state at the address [self], with its segment and
    the memory.  The arrays of bins are in the memory, since chunks link to
    them; the members that the configuration never reads (magic, flags, extensions) are
    left out. *)
Record mstate : Type := mkState {
  self : Z; smallmap : Z; treemap : Z; dvsize : Z; topsize : Z; least_addr : Z; dv : Z; top : Z;
  trim_check : Z; release_checks : Z; footprint : Z; footprint_limit : Z; seg_base : Z; seg_size : Z;
  mem : ram }.

Definition set_mem (s : mstate) (m : ram) : mstate :=
  mkState (self s) (smallmap s) (treemap s) (dvsize s) (topsize s) (least_addr s) (dv s) (top s)
    (trim_check s) (release_checks s) (footprint s) (footprint_limit s) (seg_base s) (seg_size s) m.
Definition set_smallmap (s : mstate) (v : Z) : mstate :=
  mkState (self s) v (treemap s) (dvsize s) (topsize s) (least_addr s) (dv s) (top s)
    (trim_check s) (release_checks s) (footprint s) (footprint_limit s) (seg_base s) (seg_size s) (mem s).
Definition set_treemap (s : mstate) (v : Z) : mstate :=
  mkState (self s) (smallmap s) v (dvsize s) (topsize s) (least_addr s) (dv s) (top s)
    (trim_check s) (release_checks s) (footprint s) (footprint_limit s) (seg_base s) (seg_size s) (mem s).
Definition set_dv (s : mstate) (p size : Z) : mstate :=
  mkState (self s) (smallmap s) (treemap s) size (topsize s) (least_addr s) p (top s)
    (trim_check s) (release_checks s) (footprint s) (footprint_limit s) (seg_base s) (seg_size s) (mem s).
Definition set_top (s : mstate) (p size : Z) : mstate :=
  mkState (self s) (smallmap s) (treemap s) (dvsize s) size (least_addr s) (dv s) p
    (trim_check s) (release_checks s) (footprint s) (footprint_limit s) (seg_base s) (seg_size s) (mem s).
Definition set_checks (s : mstate) (trim release : Z) : mstate :=
  mkState (self s) (smallmap s) (treemap s) (dvsize s) (topsize s) (least_addr s) (dv s) (top s)
    trim release (footprint s) (footprint_limit s) (seg_base s) (seg_size s) (mem s).

(** The size of a malloc_state. *)
Definition sizeof_malloc_state : Z := 936.

(** kernel/dlmalloc.cc:2850-2851, smallbin_at and treebin_at: the arrays smallbins and
    treebins are 72 and 600 bytes into the state. *)
Definition smallbin_at (s : mstate) (i : Z) : Z := self s + 72 + 16 * i.
Definition treebin_at (s : mstate) (i : Z) : Z := self s + 600 + 8 * i.

(** kernel/dlmalloc.cc:3029-3035, ok_address, ok_next; ok_inuse and ok_pinuse are [is_inuse]
    and [pinuse]. *)
Definition ok_address (s : mstate) (a : Z) : bool := a >=? least_addr s.
Definition ok_next (p n : Z) : bool := p <? n.

(** ** Reads after writes *)

Lemma st_out m a v i : i < a \/ a + 8 <= i -> st m a v i = m i.
Proof. intros H. apply store_bytes_out. rewrite length_le_bytes by lia. exact H. Qed.

Lemma st32_out m a v i : i < a \/ a + 4 <= i -> st32 m a v i = m i.
Proof. intros H. apply store_bytes_out. rewrite length_le_bytes by lia. exact H. Qed.

Lemma load_ext m m' a n : (forall i, a <= i < a + Z.of_nat n -> m' i = m i) -> load m' a n = load m a n.
Proof. intros H. unfold load. f_equal. apply map_ext_in. intros i Hi%in_seq. apply H. lia. Qed.

Lemma ld_ext m m' a : (forall i, a <= i < a + 8 -> m' i = m i) -> ld m' a = ld m a.
Proof. exact (load_ext m m' a 8). Qed.

Lemma ld32_ext m m' a : (forall i, a <= i < a + 4 -> m' i = m i) -> ld32 m' a = ld32 m a.
Proof. exact (load_ext m m' a 4). Qed.

Lemma ld_st_wrap m a v : ld (st m a v) a = u64 v.
Proof. apply (holds_load_wrap _ _ 8), store_holds. Qed.

Lemma ld_st_eq m a v : in_range 64 v -> ld (st m a v) a = v.
Proof. intros H. rewrite ld_st_wrap. by apply wrap_small. Qed.

Lemma ld_st_ne m a b v : b + 8 <= a \/ a + 8 <= b -> ld (st m a v) b = ld m b.
Proof. intros H. apply ld_ext. intros i Hi. apply st_out. lia. Qed.

Lemma ld_st32_ne m a b v : b + 8 <= a \/ a + 4 <= b -> ld (st32 m a v) b = ld m b.
Proof. intros H. apply ld_ext. intros i Hi. apply st32_out. lia. Qed.

Lemma ld32_st32_eq m a v : in_range 32 v -> ld32 (st32 m a v) a = v.
Proof. intros H. apply (holds_load _ _ 4); [apply store_holds | exact H]. Qed.

Lemma ld32_st_ne m a b v : b + 4 <= a \/ a + 8 <= b -> ld32 (st m a v) b = ld32 m b.
Proof. intros H. apply ld32_ext. intros i Hi. apply st_out. lia. Qed.

Lemma ld32_st32_ne m a b v : b + 4 <= a \/ a + 4 <= b -> ld32 (st32 m a v) b = ld32 m b.
Proof. intros H. apply ld32_ext. intros i Hi. apply st32_out. lia. Qed.

(** Words of one chunk or of chunks that do not overlap. *)
Definition far (x y : Z) : Prop := x = y \/ 64 <= Z.abs (x - y).

Lemma far_sym x y : far x y -> far y x.
Proof. unfold far. lia. Qed.

Definition field (o : Z) : Prop := 16 <= o <= 56.

Lemma ld_other m p o q o' v : far p q -> field o -> field o' -> o + 8 <= o' \/ o' + 8 <= o ->
  ld (st m (p + o) v) (q + o') = ld m (q + o').
Proof. unfold far, field. intros A H1 H2 H3. apply ld_st_ne. lia. Qed.

Lemma ld_far m p o q o' v : far p q -> p <> q -> field o -> field o' ->
  ld (st m (p + o) v) (q + o') = ld m (q + o').
Proof. unfold far, field. intros A N H1 H2. apply ld_st_ne. lia. Qed.

Lemma ld32_other m p o q v : far p q -> 16 <= o <= 48 -> ld32 (st m (p + o) v) (q + 56) = ld32 m (q + 56).
Proof. unfold far. intros A H. apply ld32_st_ne. lia. Qed.

End Chunk.

(** [node_read] evaluates reads of the fields of tree chunks after writes to fields; it
    finds the distances of the chunks in the context. *)
Ltac mem_fields :=
  unfold Chunk.set_head, Chunk.set_fd, Chunk.set_bk, Chunk.set_child, Chunk.set_parent, Chunk.set_index,
    Chunk.head, Chunk.fd, Chunk.bk, Chunk.child, Chunk.parent, Chunk.index, Chunk.prev_foot.
Ltac far_side :=
  first [ assumption | apply Chunk.far_sym; assumption | by left | apply not_eq_sym; assumption
        | unfold Chunk.field; lia | unfold in_range in *; lia ].
Ltac node_read :=
  mem_fields;
  repeat first [ rewrite Chunk.ld_other by far_side | rewrite Chunk.ld_st_eq by far_side
               | rewrite Chunk.ld_far by far_side | rewrite Chunk.ld32_other by far_side ];
  try done.

(** [mem_read] evaluates reads of a memory after writes, and [mem_out] a byte that no
    write touches; the distances are left to [lia]. *)
Ltac mem_read :=
  repeat first
    [ rewrite Chunk.ld_st_ne by lia | rewrite Chunk.ld_st_eq by (unfold in_range in *; lia)
    | rewrite Chunk.ld_st32_ne by lia | rewrite Chunk.ld32_st_ne by lia
    | rewrite Chunk.ld32_st32_ne by lia | rewrite Chunk.ld32_st32_eq by (unfold in_range in *; lia) ].
Ltac mem_out := repeat first [rewrite Chunk.st_out by lia | rewrite Chunk.st32_out by lia].
