(* ===== verification/DlBins.v ===== *)
(** * kernel/dlmalloc.cc: the bins of free chunks

    A free chunk of less than 256 bytes is in the ring of its size; a larger one is in the
    bitwise trie of its range of sizes, where chunks of one size form a ring of
    which one member is the node of the trie.  The links are in the memory of the chunks.
    Here are the operations on bins, with the lemmas on the bit maps and on rings; the lemmas on
    tries are in DlTrie.v and the relation of the memory to the set of free
    chunks in DlFree.v. *)

From S2P Require Import Prelude DlHeap.

Module Bins.
Import Chunk.

(** ** Indexing *)

(** kernel/dlmalloc.cc:2844-2844, is_small. *)
Definition is_small (s : Z) : bool := Z.shiftr s 3 <? 32.
(** kernel/dlmalloc.cc:2845-2845, small_index. *)
Definition small_index (s : Z) : Z := u32 (Z.shiftr s 3).
(** kernel/dlmalloc.cc:2846-2846, small_index2size. *)
Definition small_index2size (i : Z) : Z := Z.shiftl i 3.

(** kernel/dlmalloc.cc:2855-2866, compute_tree_index; the position of the highest bit
    of a number that is not zero is 31 minus [__builtin_clz]. *)
Definition compute_tree_index (s : Z) : Z :=
  let x := u32 (Z.shiftr s 8) in
  if x =? 0 then 0
  else if x >? 0xFFFF then 31
  else let k := Z.log2 x in Z.shiftl k 1 + Z.land (Z.shiftr s (k + 7)) 1.

(** kernel/dlmalloc.cc:2922-2924, leftshift_for_tree_index. *)
Definition leftshift_for_tree_index (i : Z) : Z :=
  if i =? 31 then 0 else 63 - (Z.shiftr i 1 + 8 - 2).

(** kernel/dlmalloc.cc:2935-2935, idx2bit. *)
Definition idx2bit (i : Z) : Z := u32 (Z.shiftl 1 i).
(** kernel/dlmalloc.cc:2947-2947, least_bit. *)
Definition least_bit (x : Z) : Z := Z.land x (u32 (- x)).
(** kernel/dlmalloc.cc:2950-2950, left_bits. *)
Definition left_bits (x : Z) : Z := let y := u32 (Z.shiftl x 1) in Z.lor y (u32 (- y)).
(** kernel/dlmalloc.cc:2958-2963, compute_bit2idx, of a number with one bit. *)
Definition compute_bit2idx (x : Z) : Z := Z.log2 x.

(** kernel/dlmalloc.cc:2938-2938, mark_smallmap. *)
Definition mark_smallmap (s : mstate) (i : Z) : mstate := set_smallmap s (Z.lor (smallmap s) (idx2bit i)).
(** kernel/dlmalloc.cc:2939-2939, clear_smallmap. *)
Definition clear_smallmap (s : mstate) (i : Z) : mstate := set_smallmap s (Z.ldiff (smallmap s) (idx2bit i)).
(** kernel/dlmalloc.cc:2940-2940, smallmap_is_marked. *)
Definition smallmap_is_marked (s : mstate) (i : Z) : bool := negb (Z.land (smallmap s) (idx2bit i) =? 0).
(** kernel/dlmalloc.cc:2942-2942, mark_treemap. *)
Definition mark_treemap (s : mstate) (i : Z) : mstate := set_treemap s (Z.lor (treemap s) (idx2bit i)).
(** kernel/dlmalloc.cc:2943-2943, clear_treemap. *)
Definition clear_treemap (s : mstate) (i : Z) : mstate := set_treemap s (Z.ldiff (treemap s) (idx2bit i)).
(** kernel/dlmalloc.cc:2944-2944, treemap_is_marked. *)
Definition treemap_is_marked (s : mstate) (i : Z) : bool := negb (Z.land (treemap s) (idx2bit i) =? 0).

(** [CORRUPTION_ERROR_ACTION] and [USAGE_ERROR_ACTION]. *)
Definition ABORT {A} : outcome A := Fatal "allocator_abort".

(** ** Small bins *)

(** kernel/dlmalloc.cc:3587-3603, insert_small_chunk. *)
Definition insert_small_chunk (s : mstate) (P S : Z) : outcome mstate :=
  let I := small_index S in
  let B := smallbin_at s I in
  '(F, s) ← (if negb (smallmap_is_marked s I) then Ret (B, mark_smallmap s I)
             else if ok_address s (fd (mem s) B) then Ret (fd (mem s) B, s)
             else ABORT);
  let m := set_fd (mem s) B P in
  let m := set_bk m F P in
  let m := set_fd m P F in
  Ret (set_mem s (set_bk m P B)).

(** kernel/dlmalloc.cc:3606-3629, unlink_small_chunk. *)
Definition unlink_small_chunk (s : mstate) (P S : Z) : outcome mstate :=
  let F := fd (mem s) P in
  let B := bk (mem s) P in
  let I := small_index S in
  if (F =? smallbin_at s I) || (ok_address s F && (bk (mem s) F =? P)) then
    if B =? F then Ret (clear_smallmap s I)
    else if (B =? smallbin_at s I) || (ok_address s B && (fd (mem s) B =? P)) then
      Ret (set_mem s (set_fd (set_bk (mem s) F B) B F))
    else ABORT
  else ABORT.

(** kernel/dlmalloc.cc:3632-3647, unlink_first_small_chunk. *)
Definition unlink_first_small_chunk (s : mstate) (B P I : Z) : outcome mstate :=
  let F := fd (mem s) P in
  if B =? F then Ret (clear_smallmap s I)
  else if ok_address s F && (bk (mem s) F =? P) then
    Ret (set_mem s (set_fd (set_bk (mem s) F B) B F))
  else ABORT.

(** kernel/dlmalloc.cc:3651-3660, replace_dv. *)
Definition replace_dv (s : mstate) (P S : Z) : outcome mstate :=
  s ← (if negb (dvsize s =? 0) then insert_small_chunk s (dv s) (dvsize s) else Ret s);
  Ret (set_dv s P S).

(** ** Tree bins *)

(** The steps down a trie that the loops below may take; a trie is lower than that. *)
Definition tree_fuel : nat := 64.

(** kernel/dlmalloc.cc:3681-3714, the loop of insert_large_chunk. *)
Fixpoint insert_loop (fuel : nat) (s : mstate) (X S T K : Z) : outcome mstate :=
  match fuel with
  | O => OutOfFuel
  | Datatypes.S n =>
      if negb (chunksize (mem s) T =? S) then
        let c := Z.land (Z.shiftr K 63) 1 in
        let K := u64 (Z.shiftl K 1) in
        if negb (child (mem s) T c =? 0) then insert_loop n s X S (child (mem s) T c) K
        else if ok_address s (T + (32 + 8 * c)) then
          let m := set_parent (set_child (mem s) T c X) X T in
          Ret (set_mem s (set_fd (set_bk m X X) X X))
        else ABORT
      else
        let F := fd (mem s) T in
        if ok_address s T && ok_address s F then
          let m := set_fd (set_bk (mem s) F X) T X in
          Ret (set_mem s (set_parent (set_bk (set_fd m X F) X T) X 0))
        else ABORT
  end.

(** kernel/dlmalloc.cc:3665-3715, insert_large_chunk. *)
Definition insert_large_chunk (s : mstate) (X S : Z) : outcome mstate :=
  let I := compute_tree_index S in
  let H := treebin_at s I in
  let s := set_mem s (set_child (set_child (set_index (mem s) X I) X 1 0) X 0 0) in
  if negb (treemap_is_marked s I) then
    let s := mark_treemap s I in
    let m := set_parent (st (mem s) H X) X H in
    Ret (set_mem s (set_fd (set_bk m X X) X X))
  else insert_loop tree_fuel s X S (ld (mem s) H) (u64 (Z.shiftl S (leftshift_for_tree_index I))).

(** kernel/dlmalloc.cc:3751-3754, the loop of unlink_large_chunk: the rightmost leaf below
    [R] and the address of the pointer to it. *)
Fixpoint rightmost (fuel : nat) (m : ram) (RP R : Z) : outcome (Z * Z) :=
  match fuel with
  | O => OutOfFuel
  | Datatypes.S n =>
      if negb (child m R 1 =? 0) then rightmost n m (R + 40) (child m R 1)
      else if negb (child m R 0 =? 0) then rightmost n m (R + 32) (child m R 0)
      else Ret (RP, R)
  end.

(** kernel/dlmalloc.cc:3736-3762, the first part of unlink_large_chunk: the chunk that
    takes the place of [X], or 0. *)
Definition unlink_replacement (s : mstate) (X : Z) : outcome (Z * mstate) :=
  if negb (bk (mem s) X =? X) then
    let F := fd (mem s) X in
    let R := bk (mem s) X in
    if ok_address s F && (bk (mem s) F =? X) && (fd (mem s) R =? X) then
      Ret (R, set_mem s (set_fd (set_bk (mem s) F R) R F))
    else ABORT
  else
    let '(RP, R) := if negb (child (mem s) X 1 =? 0) then (X + 40, child (mem s) X 1)
                    else (X + 32, child (mem s) X 0) in
    if negb (R =? 0) then
      '(RP, R) ← rightmost tree_fuel (mem s) RP R;
      if ok_address s RP then Ret (R, set_mem s (st (mem s) RP 0)) else ABORT
    else Ret (0, s).

(** kernel/dlmalloc.cc:3764-3776, the link to [X] becomes a link to [R]. *)
Definition relink (s : mstate) (X XP R : Z) : outcome mstate :=
  let H := treebin_at s (index (mem s) X) in
  if X =? ld (mem s) H then
    let s := set_mem s (st (mem s) H R) in
    Ret (if R =? 0 then clear_treemap s (index (mem s) X) else s)
  else if ok_address s XP then
    Ret (set_mem s (if child (mem s) XP 0 =? X then set_child (mem s) XP 0 R
                    else set_child (mem s) XP 1 R))
  else ABORT.

(** kernel/dlmalloc.cc:3781-3796, the adoption of a child of [X] by [R]. *)
Definition adopt (s : mstate) (X R i : Z) : outcome mstate :=
  let C := child (mem s) X i in
  if negb (C =? 0) then
    if ok_address s C then Ret (set_mem s (set_parent (set_child (mem s) R i C) C R)) else ABORT
  else Ret s.

(** kernel/dlmalloc.cc:3733-3802, unlink_large_chunk. *)
Definition unlink_large_chunk (s : mstate) (X : Z) : outcome mstate :=
  let XP := parent (mem s) X in
  '(R, s) ← unlink_replacement s X;
  if negb (XP =? 0) then
    s ← relink s X XP R;
    if negb (R =? 0) then
      if ok_address s R then
        s ← adopt (set_mem s (set_parent (mem s) R XP)) X R 0;
        adopt s X R 1
      else ABORT
    else Ret s
  else Ret s.

(** kernel/dlmalloc.cc:3806-3808, insert_chunk. *)
Definition insert_chunk (s : mstate) (P S : Z) : outcome mstate :=
  if is_small S then insert_small_chunk s P S else insert_large_chunk s P S.

(** kernel/dlmalloc.cc:3810-3812, unlink_chunk. *)
Definition unlink_chunk (s : mstate) (P S : Z) : outcome mstate :=
  if is_small S then unlink_small_chunk s P S else unlink_large_chunk s P.

Lemma ok_address_true s a : least_addr s <= a -> ok_address s a = true.
Proof. unfold ok_address. lia. Qed.

(** ** Bit maps *)

Lemma idx2bit_pow i : 0 <= i < 32 -> idx2bit i = 2 ^ i.
Proof.
  intros Hi. unfold idx2bit, u32. rewrite Z.shiftl_1_l. apply wrap_small. split; [apply Z.pow_nonneg; lia |].
  apply Z.pow_lt_mono_r; lia.
Qed.

Lemma map_marked w i : 0 <= i < 32 -> negb (Z.land w (idx2bit i) =? 0) = Z.testbit w i.
Proof.
  intros Hi. rewrite idx2bit_pow by done. destruct (Z.testbit w i) eqn:E.
  - apply negb_true_iff, Z.eqb_neq. intros H. pose proof (f_equal (fun z => Z.testbit z i) H) as H'. cbn beta in H'.
    rewrite Z.land_spec, E, Z.pow2_bits_true, Z.testbit_0_l in H' by lia. done.
  - apply negb_false_iff, Z.eqb_eq, Z.bits_inj'. intros j Hj. rewrite Z.land_spec, Z.testbit_0_l, Z.pow2_bits_eqb by lia.
    destruct (Z.eqb_spec i j) as [-> |]; [by rewrite E | by rewrite andb_false_r].
Qed.

Lemma map_mark w i j : 0 <= i < 32 -> 0 <= j -> Z.testbit (Z.lor w (idx2bit i)) j = (i =? j) || Z.testbit w j.
Proof. intros Hi Hj. rewrite idx2bit_pow, Z.lor_spec, Z.pow2_bits_eqb by lia. apply orb_comm. Qed.

Lemma map_clear w i j : 0 <= i < 32 -> 0 <= j -> Z.testbit (Z.ldiff w (idx2bit i)) j = negb (i =? j) && Z.testbit w j.
Proof. intros Hi Hj. rewrite idx2bit_pow, Z.ldiff_spec, Z.pow2_bits_eqb by lia. apply andb_comm. Qed.

Lemma map_mark_range w i : 0 <= i < 32 -> in_range 32 w -> in_range 32 (Z.lor w (idx2bit i)).
Proof. intros Hi Hw. apply lor_range; [lia | done |]. unfold idx2bit, u32. apply wrap_range. lia. Qed.

Lemma map_clear_range w i : in_range 32 w -> in_range 32 (Z.ldiff w (idx2bit i)).
Proof.
  intros Hw. assert (Z.ldiff w (idx2bit i) = wrap 32 (Z.ldiff w (idx2bit i))) as ->; [| apply wrap_range; lia].
  bits. rewrite bool_decide_decide. destruct decide; [done |]. by rewrite (testbit_high 32 w) by (done || lia).
Qed.

(** The number of a map that is not zero has a lowest bit, which [least_bit] isolates. *)
Lemma lowest_bit w : in_range 32 w -> w <> 0 ->
  exists i, 0 <= i < 32 /\ Z.testbit w i = true /\ forall j, j < i -> Z.testbit w j = false.
Proof.
  intros Hw Hn. set (k := Z.log2 w). assert (Z.testbit w k = true) as Hk by (apply Z.bit_log2; destruct Hw; lia).
  assert (0 <= k < 32) as Rk by (split; [apply Z.log2_nonneg | apply Z.log2_lt_pow2; destruct Hw; lia]).
  assert (forall n : nat, Z.of_nat n <= k + 1 -> (forall j, j < Z.of_nat n -> Z.testbit w j = false) \/
    exists i, 0 <= i < 32 /\ Z.testbit w i = true /\ forall j, j < i -> Z.testbit w j = false) as S.
  { induction n as [| n IH]; intros Hnk; [left; intros j Hj; apply Z.testbit_neg_r; lia |].
    destruct IH as [IH | IH]; [lia | | by right]. destruct (Z.testbit w (Z.of_nat n)) eqn:E.
    - right. exists (Z.of_nat n). split; [lia | done].
    - left. intros j Hj. destruct (decide (j = Z.of_nat n)) as [-> |]; [done | apply IH; lia]. }
  destruct (S (Z.to_nat (k + 1)) ltac:(lia)) as [L | L]; [| done]. rewrite L in Hk by lia. done.
Qed.

Lemma odd_least q : Z.odd q = true -> Z.land q (- q) = 1.
Proof.
  intros Ho. apply Z.odd_spec in Ho as [r ->]. replace (- (2 * r + 1)) with (2 * Z.lnot r + 1) by (unfold Z.lnot; lia).
  apply Z.bits_inj'. intros j Hj. rewrite Z.land_spec. destruct (decide (j = 0)) as [-> | Nj].
  - by rewrite !Z.testbit_odd_0.
  - replace j with (Z.succ (j - 1)) by lia. rewrite !Z.testbit_odd_succ, Z.lnot_spec by lia.
    rewrite andb_negb_r. symmetry. apply (Z.bits_above_log2 1); [lia | cbn; lia].
Qed.

Lemma least_bit_spec w : in_range 32 w -> w <> 0 ->
  let i := compute_bit2idx (least_bit w) in
  0 <= i < 32 /\ Z.testbit w i = true /\ forall j, j < i -> Z.testbit w j = false.
Proof.
  intros Hw Hn. destruct (lowest_bit w Hw Hn) as (i & Hi & Ti & Li). cbn zeta.
  enough (least_bit w = 2 ^ i) as -> by (unfold compute_bit2idx; rewrite Z.log2_pow2 by lia; done).
  assert (least_bit w = Z.land w (- w)) as ->.
  { unfold least_bit, u32. bits. rewrite bool_decide_decide. destruct decide; [done |].
    rewrite (testbit_high 32 w) by (done || lia). done. }
  set (q := Z.shiftr w i). assert (w = Z.shiftl q i) as E.
  { unfold q. apply Z.bits_inj'. intros j Hj. rewrite Z.shiftl_spec by lia. destruct (decide (i <= j)).
    - rewrite Z.shiftr_spec by lia. f_equal. lia.
    - rewrite Li by lia. rewrite Z.testbit_neg_r by lia. done. }
  assert (Z.odd q = true) as Oq by (unfold q; rewrite <- Z.bit0_odd, Z.shiftr_spec by lia; exact Ti).
  assert (- w = Z.shiftl (- q) i) as E' by (rewrite E, !Z.shiftl_mul_pow2 by lia; lia).
  rewrite E', E, <- Z.shiftl_land, odd_least by done. apply Z.shiftl_1_l.
Qed.

(** [left_bits] of a bit is the mask of the higher ones. *)
Lemma left_bits_spec i j : 0 <= i < 32 -> 0 <= j ->
  Z.testbit (left_bits (idx2bit i)) j = bool_decide (i < j < 32).
Proof.
  intros Hi Hj. unfold left_bits. rewrite idx2bit_pow, Z.shiftl_mul_pow2 by lia.
  replace (2 ^ i * 2 ^ 1) with (2 ^ (i + 1)) by (rewrite Z.pow_add_r; lia).
  destruct (decide (i = 31)) as [-> | N]; [cbn; rewrite Z.testbit_0_l, bool_decide_eq_false_2 by lia; done |].
  assert (u32 (2 ^ (i + 1)) = 2 ^ (i + 1)) as -> by (apply wrap_small; split; [apply Z.pow_nonneg; lia | apply Z.pow_lt_mono_r; lia]).
  rewrite Z.lor_spec. unfold u32. rewrite testbit_wrap by lia.
  replace (- 2 ^ (i + 1)) with (Z.shiftl (- 1) (i + 1)) by (rewrite Z.shiftl_mul_pow2; lia).
  rewrite Z.shiftl_spec, Z.pow2_bits_eqb by lia. destruct (decide (i + 1 <= j)).
  - rewrite Z.bits_m1, andb_true_r by lia. destruct (Z.eqb_spec (i + 1) j); cbn; [rewrite !bool_decide_eq_true_2 by lia; done |].
    apply bool_decide_ext. lia.
  - rewrite (Z.testbit_neg_r (-1)) by lia. rewrite andb_false_r, orb_false_r, bool_decide_eq_false_2 by lia. apply Z.eqb_neq. lia.
Qed.

(** ** Rings

    [chain m a l b]: from [a] the forward links lead through [l] to [b], and the backward
    links lead back; a ring with the members [l] is a chain from its header to itself. *)

Fixpoint chain (m : ram) (a : Z) (l : list Z) (b : Z) : Prop :=
  match l with
  | [] => fd m a = b /\ bk m b = a
  | x :: l' => fd m a = x /\ bk m x = a /\ chain m x l' b
  end.

(** The links of two different chunks (or bin headers) do not overlap. *)
Definition apart (x y : Z) : Prop := x = y \/ 16 <= Z.abs (x - y).

Lemma chain_ext m m' a l b :
  (forall x, x ∈ a :: l -> fd m' x = fd m x) -> (forall x, x ∈ l ++ [b] -> bk m' x = bk m x) ->
  chain m a l b -> chain m' a l b.
Proof.
  revert a. induction l as [| x l IH]; intros a Hf Hb; cbn [chain].
  - intros [E1 E2]. rewrite Hf, Hb by set_solver. done.
  - intros (E1 & E2 & C). rewrite Hf, Hb by set_solver. split_and!; try done. apply IH; [set_solver.. | done].
Qed.

Lemma chain_app m a l1 x l2 b : chain m a (l1 ++ x :: l2) b <-> chain m a l1 x /\ chain m x l2 b.
Proof. revert a. induction l1 as [| y l1 IH]; intros a; cbn; [tauto |]. rewrite IH. tauto. Qed.

Lemma chain_first m a l b : chain m a l b -> fd m a = default b (list.head l).
Proof. destruct l; cbn; tauto. Qed.

Lemma chain_last m a l b : chain m a l b -> bk m b = default a (last l).
Proof.
  revert a. induction l as [| x l IH]; intros a; cbn [chain]; [tauto |]. intros (_ & _ & C). rewrite (IH _ C).
  destruct l as [| y l]; [done |]. change (last (x :: y :: l)) with (last (y :: l)). by destruct (last (y :: l)) eqn:E; [| apply last_None in E].
Qed.

Lemma chain_neighbours m a l1 x l2 b : chain m a (l1 ++ x :: l2) b ->
  fd m x = default b (list.head l2) /\ bk m x = default a (last l1) /\ bk m (fd m x) = x /\ fd m (bk m x) = x.
Proof.
  intros [C1 C2]%chain_app. split_and!; [by apply (chain_first _ _ _ _ C2) | by apply (chain_last _ _ _ _ C1) | |].
  - rewrite (chain_first _ _ _ _ C2). destruct l2; apply C2.
  - rewrite (chain_last _ _ _ _ C1). destruct l1 as [| y l1 _] using rev_ind; [apply C1 |]. rewrite last_snoc.
    apply chain_app in C1 as [_ [C1 _]]. exact C1.
Qed.

(** A ring seen from another member. *)
Lemma chain_rotate m x l y : chain m x (l ++ [y]) x -> chain m y (x :: l) y.
Proof. intros [C1 C2]%chain_app. cbn in *. tauto. Qed.

Lemma fd_set_fd m p v q : apart p q -> in_range 64 v -> fd (set_fd m p v) q = if decide (q = p) then v else fd m q.
Proof.
  intros A V. unfold fd, set_fd. destruct (decide (q = p)) as [-> | N]; [by rewrite ld_st_eq |].
  destruct A as [-> | A]; [done |]. rewrite ld_st_ne by lia. done.
Qed.

Lemma bk_set_bk m p v q : apart p q -> in_range 64 v -> bk (set_bk m p v) q = if decide (q = p) then v else bk m q.
Proof.
  intros A V. unfold bk, set_bk. destruct (decide (q = p)) as [-> | N]; [by rewrite ld_st_eq |].
  destruct A as [-> | A]; [done |]. rewrite ld_st_ne by lia. done.
Qed.

Lemma fd_set_bk m p v q : apart p q -> fd (set_bk m p v) q = fd m q.
Proof. intros A. unfold fd, set_bk, apart in *. apply ld_st_ne. lia. Qed.

Lemma bk_set_fd m p v q : apart p q -> bk (set_fd m p v) q = bk m q.
Proof. intros A. unfold bk, set_fd, apart in *. apply ld_st_ne. lia. Qed.

(** A chunk [p] is linked in behind the header [h], before the chunk that was first. *)
Lemma ring_insert m m' h l p :
  NoDup (h :: p :: l) -> (l <> [] -> chain m h l h) ->
  (forall x, x ∈ h :: p :: l ->
    fd m' x = (if decide (x = p) then default h (list.head l) else if decide (x = h) then p else fd m x) /\
    bk m' x = (if decide (x = p) then h else if decide (x = default h (list.head l)) then p else bk m x)) ->
  chain m' h (p :: l) h.
Proof.
  intros N C E.
  assert (h <> p /\ p ∉ l /\ h ∉ l /\ NoDup l) as (Nhp & Npl & Nhl & Nl)
    by (apply NoDup_cons in N as [N1 [N2 N3]%NoDup_cons]; set_solver).
  assert (forall x, x ∈ h :: p :: l -> fd m' x = if decide (x = p) then default h (list.head l) else if decide (x = h) then p else fd m x)
    as EF by (intros x Hx; by apply E).
  assert (forall x, x ∈ h :: p :: l -> bk m' x = if decide (x = p) then h else if decide (x = default h (list.head l)) then p else bk m x)
    as EB by (intros x Hx; by apply E). clear E.
  cbn [chain]. rewrite EF, EB, decide_False, decide_True, decide_True by set_solver. split; [done |]. split; [done |].
  destruct l as [| y l]; cbn [chain default list.head from_option id] in *.
  - rewrite EF, EB, decide_True by set_solver. by rewrite decide_False, decide_True.
  - rewrite EF, EB, decide_True by set_solver. rewrite decide_False, decide_True by set_solver. split; [done |]. split; [done |].
    destruct (C ltac:(done)) as (_ & _ & C'). apply NoDup_cons in Nl as [Nl1 Nl2].
    eapply chain_ext; [| | exact C'].
    + intros x Hx. rewrite EF, !decide_False by set_solver. done.
    + intros x Hx. rewrite EB, !decide_False by set_solver. done.
Qed.

(** The chunk between [b] and [f] is linked out. *)
Definition link_out (m : ram) (f b : Z) : ram := set_fd (set_bk m f b) b f.

Lemma chain_relink m m' p c l b :
  NoDup l -> b ∉ l -> fd m' c = default b (list.head l) -> bk m' (default b (list.head l)) = c ->
  (forall x, x ∈ l -> fd m' x = fd m x) ->
  (forall x, x ∈ l ++ [b] -> x <> default b (list.head l) -> bk m' x = bk m x) ->
  chain m p l b -> chain m' c l b.
Proof.
  intros N Nb E1 E2 Hf Hb C. destruct l as [| y l]; [done |]. cbn [chain list.head default from_option id] in *.
  split; [done |]. split; [done |]. destruct C as (_ & _ & C). apply NoDup_cons in N as [N1 N2].
  eapply chain_ext; [| | exact C]; [exact Hf |]. intros x Hx. apply Hb; set_solver.
Qed.

Lemma link_out_chain m a l1 p l2 b :
  (forall x y, x ∈ a :: b :: l1 ++ p :: l2 -> y ∈ a :: b :: l1 ++ p :: l2 -> apart x y) ->
  NoDup (l1 ++ p :: l2) -> a ∉ l1 ++ p :: l2 -> b ∉ l1 ++ p :: l2 ->
  (forall x, x ∈ a :: b :: l1 ++ p :: l2 -> in_range 64 x) ->
  chain m a (l1 ++ p :: l2) b -> chain (link_out m (fd m p) (bk m p)) a (l1 ++ l2) b.
Proof.
  intros A N Na Nb V C. apply chain_app in C as [C1 C2]. rewrite (chain_first _ _ _ _ C2), (chain_last _ _ _ _ C1).
  set (f := default b (list.head l2)). set (c := default a (last l1)).
  assert (f ∈ b :: l2) as Hf by (destruct l2; set_solver).
  assert (c ∈ a :: l1) as Hc by (unfold c; destruct (last l1) eqn:E; [apply last_Some_elem_of in E |]; set_solver).
  apply NoDup_app in N as (N1 & N12 & [N2 N3]%NoDup_cons). set (all := a :: b :: l1 ++ p :: l2) in *.
  assert (c ∈ all /\ f ∈ all /\ (forall x, x ∈ l2 ++ [b] -> x ∈ all) /\ (forall x, x ∈ a :: l1 -> x ∈ all) /\ c ∉ l2 /\ f ∉ l1 /\ b ∉ l2)
    as (Ac & Af & A2 & A1 & Nc & Nf & Nb2) by (clear A V C1 C2; clearbody f c; subst all; split_and!; set_solver).
  assert (forall x, x ∈ all -> fd (link_out m f c) x = if decide (x = c) then f else fd m x) as EF.
  { intros x Hx. unfold link_out. rewrite fd_set_fd, fd_set_bk by auto. done. }
  assert (forall x, x ∈ all -> bk (link_out m f c) x = if decide (x = f) then c else bk m x) as EB.
  { intros x Hx. unfold link_out. rewrite bk_set_fd, bk_set_bk by auto. done. }
  assert (chain (link_out m f c) c l2 b) as R.
  { eapply chain_relink; [done | done | | | | | exact C2]; fold f.
    - by rewrite EF, decide_True.
    - by rewrite EB, decide_True.
    - intros x Hx. rewrite EF, decide_False; [done | by intros -> | apply A2, elem_of_app; by left].
    - intros x Hx Hne. rewrite EB, decide_False by auto. done. }
  destruct l1 as [| c' l1 _] using rev_ind; [exact R |]. assert (c = c') as -> by (unfold c; by rewrite last_snoc).
  rewrite <- app_assoc. cbn [app]. apply chain_app in C1 as [C1 _]. apply chain_app. split; [| exact R].
  apply NoDup_app in N1 as (_ & N1' & _).
  assert (c' ∉ a :: l1) as Nc' by (clear - N1' Na; set_solver).
  eapply chain_ext; [| | exact C1]; intros x Hx.
  - rewrite EF, decide_False; [done | by intros -> | apply A1; clear - Hx; set_solver].
  - rewrite EB, decide_False; [done | by intros -> | apply A1; clear - Hx; set_solver].
Qed.

End Bins.
