(* ===== verification/DlTrie.v ===== *)
(** * kernel/dlmalloc.cc: the tries of large free chunks

    A bin of large chunks is a bitwise trie in memory.  [rep] relates the memory to a tree;
    [trie] says what the sizes in a tree satisfy.  The lemmas show that the loop
    of insert_large_chunk inserts, that unlink_large_chunk removes one chunk,
    and that a trie is lower than the fuel of the loops. *)

From S2P Require Import Prelude DlHeap DlBins.

Module Trie.
Import Chunk Bins.

(** A node is a chunk with the ring of the other chunks of its size and two subtries. *)
Inductive tree : Type := Leaf | Node (p : Z) (l : list Z) (t0 t1 : tree).

Definition rootp (t : tree) : Z := match t with Leaf => 0 | Node p _ _ _ => p end.
Fixpoint nodes (t : tree) : list Z :=
  match t with Leaf => [] | Node p l t0 t1 => p :: l ++ nodes t0 ++ nodes t1 end.
Fixpoint height (t : tree) : nat :=
  match t with Leaf => 0 | Node _ _ t0 t1 => S (Nat.max (height t0) (height t1)) end.

(** The fields of the node [p] with the ring [l], without the links to the children. *)
Record own (m : ram) (i par p : Z) (l : list Z) : Prop := {
  own_parent : parent m p = par;
  own_ring : chain m p l p;
  own_index : forall q, q ∈ p :: l -> index m q = i;
  own_chained : forall q, q ∈ l -> parent m q = 0 /\ child m q 0 = 0 /\ child m q 1 = 0 }.

(** The word at [a] links to the trie [t] of the bin [i], whose root has the parent [par]. *)
Fixpoint rep (m : ram) (i par a : Z) (t : tree) : Prop :=
  ld m a = rootp t /\
  match t with
  | Leaf => True
  | Node p l t0 t1 => own m i par p l /\ rep m i p (p + 32) t0 /\ rep m i p (p + 40) t1
  end.

(** The chunks of [L] and the word at [a] do not overlap. *)
Record sep (a : Z) (L : list Z) : Prop := {
  sep_far : forall q r, q ∈ L -> r ∈ L -> far q r;
  sep_nodup : NoDup L;
  sep_range : forall q, q ∈ L -> 0 < q < 2 ^ 63;
  sep_slot : forall q, q ∈ L -> a + 8 <= q + 16 \/ q + 64 <= a }.

Lemma sep_part a L L1 L2 : L ≡ₚ L1 ++ L2 -> sep a L -> sep a L1.
Proof.
  intros P [H1 H2 H3 H4]. assert (forall q, q ∈ L1 -> q ∈ L) as I by (intros q Hq; rewrite P; apply elem_of_app; by left).
  split; auto. rewrite P in H2. apply NoDup_app in H2. tauto.
Qed.

Lemma sep_perm a L L' : L ≡ₚ L' -> sep a L -> sep a L'.
Proof. intros P. apply (sep_part a L L' []). by rewrite app_nil_r. Qed.

(** The children of a node are apart from the rest. *)
Lemma sep_child a p L L1 L2 o : L ≡ₚ p :: L1 ++ L2 -> 32 <= o <= 40 -> sep a L -> sep (p + o) L1.
Proof.
  intros P Ho S. apply (sep_perm _ _ _ P) in S. assert (forall q, q ∈ L1 -> q ∈ p :: L1 ++ L2) as I by (clear; set_solver).
  destruct (NoDup_cons p (L1 ++ L2)) as [[Np N] _]; [apply S |]. destruct S as [H1 _ H3 _]. split; auto.
  - apply NoDup_app in N. tauto.
  - intros q Hq. destruct (H1 p q ltac:(left) ltac:(auto)) as [-> | F]; [| lia]. clear - Hq Np. set_solver.
Qed.

(** ** Frames *)

(** The fields of the tree chunk [q] are the same in both memories. *)
Definition same_node (m m' : ram) (q : Z) : Prop := forall a, q + 16 <= a < q + 64 -> m' a = m a.

Lemma same_fields m m' q : same_node m m' q ->
  fd m' q = fd m q /\ bk m' q = bk m q /\ child m' q 0 = child m q 0 /\ child m' q 1 = child m q 1 /\
  parent m' q = parent m q /\ index m' q = index m q.
Proof.
  intros S. unfold fd, bk, child, parent, index. split_and!; (apply ld_ext || apply ld32_ext); intros a Ha; apply S; lia.
Qed.

Lemma own_ext m m' i par p l :
  (forall a, p + 16 <= a < p + 32 \/ p + 48 <= a < p + 64 -> m' a = m a) -> (forall q, q ∈ l -> same_node m m' q) ->
  own m i par p l -> own m' i par p l.
Proof.
  intros Sp S [H1 H2 H3 H4].
  assert (fd m' p = fd m p /\ bk m' p = bk m p /\ parent m' p = parent m p /\ index m' p = index m p) as (P1 & P2 & P3 & P4).
  { unfold fd, bk, parent, index. split_and!; (apply ld_ext || apply ld32_ext); intros a Ha; apply Sp; lia. }
  assert (forall q, q ∈ l -> fd m' q = fd m q /\ bk m' q = bk m q /\ child m' q 0 = child m q 0 /\
    child m' q 1 = child m q 1 /\ parent m' q = parent m q /\ index m' q = index m q) as E by (intros q Hq; by apply same_fields, S).
  clear S Sp. split; [congruence | | |].
  - eapply chain_ext; [| | exact H2]; intros x Hx.
    + apply elem_of_cons in Hx as [-> | Hx]; [done | by apply E].
    + apply elem_of_app in Hx as [Hx | ->%list_elem_of_singleton]; [by apply E | done].
  - intros q Hq. rewrite <- (H3 q Hq). apply elem_of_cons in Hq as [-> | Hq]; [done | by apply E].
  - intros q Hq. destruct (E q Hq) as (_ & _ & -> & -> & -> & _). by apply H4.
Qed.

Lemma rep_ext m m' i t : forall par a, (forall x, a <= x < a + 8 -> m' x = m x) ->
  (forall q, q ∈ nodes t -> same_node m m' q) -> rep m i par a t -> rep m' i par a t.
Proof.
  induction t as [| p l t0 IH0 t1 IH1]; intros par a Sa S; cbn [rep nodes] in *; rewrite (ld_ext m m') by done; [done |].
  intros (E & O & R0 & R1). assert (same_node m m' p) as Sp by (apply S; left).
  assert (forall q, q ∈ l ++ nodes t0 ++ nodes t1 -> same_node m m' q) as S' by (intros q Hq; apply S; by right). clear S.
  split_and!; [done | | |].
  - eapply own_ext; [| | exact O]; [intros x Hx; apply Sp; lia |]. intros q Hq. apply S'. rewrite !elem_of_app. tauto.
  - apply IH0; [intros x Hx; apply Sp; lia | | done]. intros q Hq. apply S'. rewrite !elem_of_app. tauto.
  - apply IH1; [intros x Hx; apply Sp; lia | | done]. intros q Hq. apply S'. rewrite !elem_of_app. tauto.
Qed.

(** A trie whose chunks are the same, at another link. *)
Lemma rep_link m m' i par a a' t : ld m' a' = rootp t -> (forall q, q ∈ nodes t -> same_node m m' q) ->
  rep m i par a t -> rep m' i par a' t.
Proof.
  intros E S. destruct t as [| p l t0 t1]; [done |]. intros R.
  assert (rep m' i p (p + 32) t0 /\ rep m' i p (p + 40) t1 /\ own m' i par p l) as (H0 & H1 & HO); [| by split_and!].
  destruct R as (_ & O & R0 & R1). cbn [nodes] in S. assert (same_node m m' p) as Sp by (apply S; left).
  assert (forall q, q ∈ l \/ q ∈ nodes t0 \/ q ∈ nodes t1 -> same_node m m' q) as S' by (intros q Hq; apply S; rewrite elem_of_cons, !elem_of_app; tauto).
  split_and!; [eapply rep_ext; [| | exact R0] | eapply rep_ext; [| | exact R1] | eapply own_ext; [| | exact O]];
    auto; intros x Hx; apply Sp; lia.
Qed.

(** Only fields of the tree chunks in [L] differ. *)
Definition touches (L : list Z) (m m' : ram) : Prop :=
  forall a, (forall q, q ∈ L -> ~ (q + 16 <= a < q + 64)) -> m' a = m a.

Lemma touches_same L m m' q : touches L m m' -> (forall r, r ∈ L -> far q r) -> q ∉ L -> same_node m m' q.
Proof.
  intros T A N a Ha. apply T. intros r Hr Ha'. destruct (A r Hr) as [-> | A']; [done | lia].
Qed.

Lemma touches_mono L L' m m' : L ⊆ L' -> touches L m m' -> touches L' m m'.
Proof. intros I T a Ha. apply T. intros q Hq. apply Ha, I, Hq. Qed.

Lemma touches_trans L m m' m'' : touches L m m' -> touches L m' m'' -> touches L m m''.
Proof. intros T1 T2 a Ha. by rewrite T2, T1. Qed.

(** A trie that is apart from what is written stays. *)
Lemma rep_touches L m m' i par a t M : touches L m m' -> sep a M -> L ⊆ M -> nodes t ⊆ M ->
  (forall q, q ∈ nodes t -> q ∉ L) -> rep m i par a t -> rep m' i par a t.
Proof.
  intros T S IL IT D. apply rep_ext.
  - intros x Hx. apply T. intros q Hq Hx'. destruct (sep_slot _ _ S q (IL _ Hq)); lia.
  - intros q Hq. eapply touches_same; [exact T | | by apply D]. intros r Hr. apply (sep_far _ _ S); [by apply IT | by apply IL].
Qed.

(** ** Sizes

    The chunks of a ring have one size, which no other chunk below has; the bit [b - d] of
    the sizes tells the subtries of depth [d] apart. *)
Fixpoint trie (sz : Z -> Z) (b d : Z) (t : tree) : Prop :=
  match t with
  | Leaf => True
  | Node p l t0 t1 =>
      (forall q, q ∈ l -> sz q = sz p) /\
      (forall q, q ∈ nodes t0 -> Z.testbit (sz q) (b - d) = false /\ sz q <> sz p) /\
      (forall q, q ∈ nodes t1 -> Z.testbit (sz q) (b - d) = true /\ sz q <> sz p) /\
      trie sz b (d + 1) t0 /\ trie sz b (d + 1) t1
  end.

Lemma trie_ext sz sz' b t : forall d, (forall q, q ∈ nodes t -> sz' q = sz q) -> trie sz b d t -> trie sz' b d t.
Proof.
  induction t as [| p l t0 IH0 t1 IH1]; intros d E; cbn [trie nodes] in *; [done |]. intros (H1 & H2 & H3 & H4 & H5).
  assert (sz' p = sz p) as Ep by (apply E; left).
  assert (forall q, q ∈ l ++ nodes t0 ++ nodes t1 -> sz' q = sz q) as E' by (intros q Hq; apply E; by right). clear E.
  assert (forall q, q ∈ l \/ q ∈ nodes t0 \/ q ∈ nodes t1 -> sz' q = sz q) as E by (intros q Hq; apply E'; rewrite !elem_of_app; tauto).
  split_and!; [| | | apply IH0; auto | apply IH1; auto]; intros q Hq; rewrite Ep, E by auto; auto.
Qed.

(** The chunks of one bin agree on the bits above [b]; then the height is bounded, since
    sizes are multiples of 32. *)
Lemma trie_height sz b t : forall d, trie sz b d t -> 4 <= b - d ->
  (forall q, q ∈ nodes t -> (32 | sz q)) ->
  (forall q r j, q ∈ nodes t -> r ∈ nodes t -> b - d < j -> Z.testbit (sz q) j = Z.testbit (sz r) j) ->
  Z.of_nat (height t) <= b - d - 3.
Proof.
  induction t as [| p l t0 IH0 t1 IH1]; intros d T Hb H32 B; cbn [height]; [lia |].
  cbn [trie nodes] in *. destruct T as (_ & T0 & T1 & TT0 & TT1).
  assert (forall q, q ∈ nodes t0 \/ q ∈ nodes t1 -> q ∈ p :: l ++ nodes t0 ++ nodes t1) as I by (intros q Hq; rewrite elem_of_cons, !elem_of_app; tauto).
  destruct (decide (b - d = 4)) as [E | E].
  - assert (forall q, q ∈ p :: l ++ nodes t0 ++ nodes t1 -> sz q = sz p) as Eq.
    { intros q Hq. apply Z.bits_inj'. intros j Hj. destruct (decide (b - d < j)) as [| L]; [apply B; [done | left | done] |].
      destruct (H32 q Hq) as [u ->], (H32 p ltac:(left)) as [v ->]. change 32 with (2 ^ 5). rewrite !Z.mul_pow2_bits_low by lia. done. }
    assert (nodes t0 = [] /\ nodes t1 = []) as [E0 E1].
    { split; [destruct (nodes t0) as [| q L] eqn:N | destruct (nodes t1) as [| q L] eqn:N]; try done; exfalso.
      - destruct (T0 q ltac:(left)) as [_ Hn]. apply Hn, Eq, I. left. left.
      - destruct (T1 q ltac:(left)) as [_ Hn]. apply Hn, Eq, I. right. left. }
    destruct t0, t1; cbn in *; try done; lia.
  - assert (forall q r j, (q ∈ nodes t0 /\ r ∈ nodes t0) \/ (q ∈ nodes t1 /\ r ∈ nodes t1) -> b - (d + 1) < j ->
      Z.testbit (sz q) j = Z.testbit (sz r) j) as B'.
    { intros q r j Hqr Hj. destruct (decide (j = b - d)) as [-> |].
      - destruct Hqr as [[Hq Hr] | [Hq Hr]]; [destruct (T0 q Hq) as [-> _], (T0 r Hr) as [-> _] | destruct (T1 q Hq) as [-> _], (T1 r Hr) as [-> _]]; done.
      - apply B; [apply I; tauto | apply I; tauto | lia]. }
    assert (Z.of_nat (height t0) <= b - (d + 1) - 3) by (apply IH0; auto; lia).
    assert (Z.of_nat (height t1) <= b - (d + 1) - 3) by (apply IH1; auto; lia). lia.
Qed.

(** ** Inserting *)

Fixpoint tinsert (sz : Z -> Z) (b d X : Z) (t : tree) : tree :=
  match t with
  | Leaf => Node X [] Leaf Leaf
  | Node p l t0 t1 =>
      if decide (sz p = sz X) then Node p (X :: l) t0 t1
      else if Z.testbit (sz X) (b - d) then Node p l t0 (tinsert sz b (d + 1) X t1)
      else Node p l (tinsert sz b (d + 1) X t0) t1
  end.

Lemma nodes_tinsert sz b X t : forall d, nodes (tinsert sz b d X t) ≡ₚ X :: nodes t.
Proof.
  induction t as [| p l t0 IH0 t1 IH1]; intros d; [done |]. cbn [tinsert nodes]. case_decide; cbn [nodes].
  - solve_Permutation.
  - destruct (Z.testbit _ _); cbn [nodes]; rewrite ?IH0, ?IH1; solve_Permutation.
Qed.

Lemma rootp_tinsert sz b d X t : t <> Leaf -> rootp (tinsert sz b d X t) = rootp t.
Proof. destruct t; [done |]. cbn. case_decide; [done |]. by destruct (Z.testbit _ _). Qed.

Lemma trie_tinsert sz b X t : forall d, trie sz b d t -> trie sz b d (tinsert sz b d X t).
Proof.
  induction t as [| p l t0 IH0 t1 IH1]; intros d; cbn [tinsert trie nodes].
  - intros _. split_and!; set_solver.
  - intros (H1 & H2 & H3 & H4 & H5). case_decide as E.
    + split_and!; try done. intros q [-> | Hq]%elem_of_cons; [done | by apply H1].
    + destruct (Z.testbit _ _) eqn:B; cbn [trie]; split_and!; auto; intros q; rewrite nodes_tinsert;
        (intros [-> | Hq]%elem_of_cons; [split; [done |]; by apply not_eq_sym | auto]).
Qed.

(** The bit that the loops test: [K] is the size shifted so that the bit [b - d] is the
    highest. *)
Definition Kbits (S b d : Z) : Z := u64 (Z.shiftl S (63 - b + d)).

Lemma Kbits_test S b d : b <= 63 -> 0 <= d ->
  Z.land (Z.shiftr (Kbits S b d) 63) 1 = if Z.testbit S (b - d) then 1 else 0.
Proof.
  intros Hb Hd. change 1 with (Z.ones 1) at 1. rewrite Z.land_ones by lia. rewrite <- Z.bit0_mod, Z.shiftr_spec by lia.
  unfold Kbits, u64. rewrite testbit_wrap, bool_decide_eq_true_2, andb_true_l by lia. rewrite Z.shiftl_spec by lia.
  replace (0 + 63 - (63 - b + d)) with (b - d) by lia. by destruct (Z.testbit _ _).
Qed.

Lemma Kbits_next S b d : b <= 63 -> 0 <= d -> u64 (Z.shiftl (Kbits S b d) 1) = Kbits S b (d + 1).
Proof.
  intros Hb Hd. unfold Kbits, u64. apply Z.bits_inj'. intros i Hi. rewrite !testbit_wrap, !Z.shiftl_spec by lia.
  destruct (decide (i < 64)) as [L | L]; [| by rewrite !(bool_decide_eq_false_2 (i < 64)) by lia]. f_equal.
  destruct (decide (i = 0)) as [-> | Ni]; [rewrite !Z.testbit_neg_r by lia; done |].
  rewrite testbit_wrap, bool_decide_eq_true_2, Z.shiftl_spec by lia. cbn [andb]. f_equal. lia.
Qed.

(** A chunk becomes a node without children. *)
Definition hang (m : ram) (a X par : Z) : ram := set_fd (set_bk (set_parent (st m a X) X par) X X) X X.

Lemma hang_ok m i par a X : sep a [X] -> in_range 64 par -> index m X = i -> child m X 0 = 0 -> child m X 1 = 0 ->
  rep (hang m a X par) i par a (Node X [] Leaf Leaf) /\
  forall x, ~ (a <= x < a + 8) -> ~ (X + 16 <= x < X + 64) -> hang m a X par x = m x.
Proof.
  intros [_ _ R S] P Hi H0 H1. specialize (R X ltac:(left)). specialize (S X ltac:(left)).
  unfold hang, index, child in *. split; [| intros x Hx Hx'; mem_fields; mem_out; done].
  cbn [rep rootp]. mem_fields. rewrite !Z.mul_0_r, !Z.mul_1_r, !Z.add_0_r in *. change (32 + 8) with 40 in *.
  split_and!; [by mem_read | | by mem_read | done | by mem_read | done].
  split; [mem_fields; by mem_read | cbn [chain]; mem_fields; split; by mem_read | | set_solver].
  intros q ->%list_elem_of_singleton. mem_fields. by mem_read.
Qed.

Lemma fd_set_parent m p v q : far p q -> fd (set_parent m p v) q = fd m q.
Proof. intros A. unfold fd, set_parent, far in *. apply ld_st_ne. lia. Qed.

Lemma bk_set_parent m p v q : far p q -> bk (set_parent m p v) q = bk m q.
Proof. intros A. unfold bk, set_parent, far in *. apply ld_st_ne. lia. Qed.

Lemma far_apart x y : far x y -> apart x y.
Proof. unfold far, apart. lia. Qed.

(** A chunk of the size of a node joins its ring. *)
Definition join_ring (m : ram) (X T F : Z) : ram :=
  set_parent (set_bk (set_fd (set_fd (set_bk m F X) T X) X F) X T) X 0.

Lemma join_ring_ok m i par p l X :
  own m i par p l -> (forall q, q ∈ X :: p :: l -> in_range 64 q) ->
  (forall q r, q ∈ X :: p :: l -> r ∈ X :: p :: l -> far q r) -> NoDup (X :: p :: l) ->
  index m X = i -> child m X 0 = 0 -> child m X 1 = 0 ->
  let F := default p (list.head l) in let m' := join_ring m X p F in
  own m' i par p (X :: l) /\ touches [X; p; F] m m' /\ child m' p 0 = child m p 0 /\ child m' p 1 = child m p 1.
Proof.
  intros [H1 H4 H5 H6] V A N Ii C0 C1 F. unfold join_ring.
  assert (F ∈ p :: l) as HF by (unfold F; destruct l; set_solver).
  assert (forall q, q ∈ p :: l -> q <> X) as NX by (apply NoDup_cons in N as [N' _]; clear - N'; set_solver).
  assert (forall q, q ∈ X :: p :: l -> far q X /\ far q p /\ far q F) as AQ
    by (clear - A HF; intros q Hq; split_and!; apply A; set_solver).
  assert (forall q, q ∈ X :: p :: l -> forall r, r ∈ [X; p; F] -> far r q) as A' by (clear - A HF; intros q Hq r Hr; apply A; set_solver).
  destruct (AQ p ltac:(set_solver)) as (A1 & _ & A2). pose proof (NX p ltac:(left)) as N1. pose proof (NX F HF) as N2.
  destruct (AQ X ltac:(left)) as (_ & _ & A3). clear A.
  set (m' := set_parent _ X 0).
  assert (forall q, q ∈ X :: p :: l -> index m' q = index m q /\ child m' q 0 = child m q 0 /\ child m' q 1 = child m q 1 /\
    parent m' q = if decide (q = X) then 0 else parent m q) as U.
  { intros q Hq. destruct (AQ q Hq) as (Q1 & Q2 & Q3). clear - Q1 Q2 Q3 A1 A2 A3 N1 N2. subst m'.
    split_and!; [node_read.. |]. case_decide as E; [rewrite E |]; node_read. }
  destruct (U p ltac:(set_solver)) as (_ & U0 & U1 & Up). rewrite decide_False in Up by done.
  split; [split | split_and!; [| done..]].
  - by rewrite Up.
  - apply (ring_insert m); [clear - N; apply NoDup_cons in N as [N1 [N2 N3]%NoDup_cons]; apply NoDup_cons; split; [set_solver | apply NoDup_cons; set_solver] | done |].
    intros q Hq. fold F. assert (q ∈ X :: p :: l) as Hq' by (clear - Hq; set_solver). pose proof (A' q Hq') as Aq. clear - Aq V HF.
    assert (forall r, r ∈ [X; p; F] -> apart r q) as Aq' by (intros r Hr; by apply far_apart, Aq).
    assert (in_range 64 X /\ in_range 64 p /\ in_range 64 F) as (V1 & V2 & V3) by (split_and!; apply V; set_solver).
    subst m'. rewrite fd_set_parent, fd_set_bk, fd_set_fd, fd_set_fd, fd_set_bk, bk_set_parent, bk_set_bk, bk_set_fd, bk_set_fd, bk_set_bk
      by (done || (apply Aq || apply Aq'); clear; set_solver). done.
  - intros q Hq. destruct (U q ltac:(clear - Hq; set_solver)) as (-> & _).
    apply elem_of_cons in Hq as [-> | [-> | Hq]%elem_of_cons]; [apply H5; left | done | apply H5; by right].
  - intros q Hq. destruct (U q ltac:(clear - Hq; set_solver)) as (_ & -> & -> & ->). apply elem_of_cons in Hq as [-> | Hq].
    + by rewrite decide_True.
    + rewrite decide_False by (apply NX; by right). by apply H6.
  - intros a Ha. pose proof (Ha X ltac:(set_solver)). pose proof (Ha p ltac:(set_solver)). pose proof (Ha F ltac:(set_solver)).
    clear -H H0 H2. subst m'. mem_fields. mem_out. done.
Qed.

(** Only the word at [a] and fields of the tree chunks in [L] differ. *)
Definition touches_at (a : Z) (L : list Z) (m m' : ram) : Prop :=
  forall x, ~ (a <= x < a + 8) -> (forall q, q ∈ L -> ~ (q + 16 <= x < q + 64)) -> m' x = m x.

Lemma touches_weaken a L m m' : touches L m m' -> touches_at a L m m'.
Proof. intros T x _ H. by apply T. Qed.

Lemma touches_at_child p o L L' m m' : p ∈ L' -> L ⊆ L' -> 32 <= o <= 40 -> touches_at (p + o) L m m' -> touches L' m m'.
Proof.
  intros Hp I Ho T x Hx. apply T; [intros Hx'; apply (Hx p Hp); lia |]. intros q Hq. apply Hx, I, Hq.
Qed.

(** The link of a node to its child. *)
Definition slot (p : Z) (c : bool) : Z := p + (if c then 40 else 32).

(** The operations on a subtrie leave the node above, its ring and the other subtrie alone. *)
Lemma node_frame m m' i par a p l t0 t1 E (c : bool) L : touches_at (slot p c) L m m' ->
  sep a (E ++ p :: l ++ nodes t0 ++ nodes t1) -> L ⊆ E ++ nodes (if c then t1 else t0) ->
  rep m i par a (Node p l t0 t1) ->
  ld m' a = p /\ own m' i par p l /\ rep m' i p (slot p (negb c)) (if c then t0 else t1).
Proof.
  intros T S I R. cbn [rep rootp] in R. destruct R as (Ea & O & R0 & R1).
  assert (NoDup (E ++ p :: l ++ nodes t0 ++ nodes t1)) as N by apply S.
  apply NoDup_app in N as (_ & NE & [Np (Nl & Nl' & (_ & N01 & _)%NoDup_app)%NoDup_app]%NoDup_cons). unfold slot in *.
  assert (forall q, q ∈ L -> q ∈ E ++ p :: l ++ nodes t0 ++ nodes t1 /\ q ∉ p :: l /\ q ∉ nodes (if c then t0 else t1)) as HL.
  { intros q Hq%I. clear - Hq NE Np Nl' N01 I. apply elem_of_app in Hq as [Hq | Hq].
    - specialize (NE q Hq). destruct c; split_and!; set_solver.
    - destruct c; split_and!; set_solver. }
  assert (forall q, q ∈ l ++ nodes (if c then t0 else t1) -> same_node m m' q) as SN.
  { intros q Hq. assert (q ∈ p :: l ++ nodes t0 ++ nodes t1) as Hq' by (clear - Hq; destruct c; set_solver).
    assert (q <> p) as Hne. { intros ->. clear - Np Hq. destruct c; set_solver. }
    intros x Hx. apply T.
    - destruct (sep_far _ _ S p q ltac:(set_solver) ltac:(apply elem_of_app; by right)) as [-> |]; [done | destruct c; lia].
    - intros r Hr Hx'. destruct (HL r Hr) as (Hr1 & Hr2 & Hr3).
      destruct (sep_far _ _ S q r ltac:(apply elem_of_app; by right) Hr1) as [-> |]; [clear - Hq Hr2 Hr3; set_solver | lia]. }
  assert (forall x, (p + 16 <= x < p + 32) \/ (p + 48 <= x < p + 64) \/ (p + (if negb c then 40 else 32) <= x < p + (if negb c then 40 else 32) + 8) \/
    a <= x < a + 8 -> m' x = m x) as SP.
  { intros x Hx. assert (p + 16 <= x < p + 64 \/ a <= x < a + 8) as Hx2 by (destruct c; cbn in Hx; lia). apply T.
    - pose proof (sep_slot _ _ S p ltac:(set_solver)). destruct c; cbn in Hx; lia.
    - intros q Hq Hx'. destruct (HL q Hq) as (Hq1 & Hq2 & _). destruct Hx2 as [Hx2 | Hx2].
      + destruct (sep_far _ _ S p q ltac:(set_solver) Hq1) as [-> |]; [clear - Hq2; set_solver | lia].
      + pose proof (sep_slot _ _ S q Hq1). lia. }
  split_and!.
  - rewrite (ld_ext m m'); [done |]. intros x Hx. apply SP. tauto.
  - eapply own_ext; [| | exact O]; [intros x Hx; apply SP; tauto |]. intros q Hq. apply SN, elem_of_app. by left.
  - clear HL I T. eapply (rep_ext m); [intros x Hx; apply SP; tauto | intros q Hq; apply SN, elem_of_app; by right | by destruct c].
Qed.

(** What the loop does at the link [a] of a node it goes below. *)
Definition insert_below (n : nat) (s : mstate) (X S K a par : Z) : outcome mstate :=
  if negb (ld (mem s) a =? 0) then insert_loop n s X S (ld (mem s) a) K
  else if ok_address s a then Ret (set_mem s (hang (mem s) a X par)) else ABORT.

Lemma sep_sub a E p l t0 t1 (c : bool) : sep a (E ++ p :: l ++ nodes t0 ++ nodes t1) ->
  sep (slot p c) (E ++ nodes (if c then t1 else t0)).
Proof.
  apply (sep_child a p _ _ (l ++ nodes (if c then t0 else t1))); [destruct c; solve_Permutation | destruct c; lia].
Qed.

(** The chunk [X] in the trie at [a] after the loop. *)
Definition inserted (s : mstate) (sz : Z -> Z) (b d X i par a : Z) (t : tree) (r : outcome mstate) : Prop :=
  exists m', r = Ret (set_mem s m') /\ rep m' i par a (tinsert sz b d X t) /\ touches_at a (X :: nodes t) (mem s) m'.

Lemma insert_below_ok n s sz X b d i par a t : rep (mem s) i par a t -> sep a (X :: nodes t) -> least_addr s <= a ->
  in_range 64 par -> index (mem s) X = i -> child (mem s) X 0 = 0 -> child (mem s) X 1 = 0 ->
  (t <> Leaf -> inserted s sz b d X i par a t (insert_loop n s X (sz X) (rootp t) (Kbits (sz X) b d))) ->
  inserted s sz b d X i par a t (insert_below n s X (sz X) (Kbits (sz X) b d) a par).
Proof.
  intros R S L P Ii C0 C1 IH. unfold insert_below. assert (ld (mem s) a = rootp t) as -> by (destruct t; apply R).
  destruct t as [| p l t0 t1]; cbn [rootp].
  - cbn [Z.eqb negb]. unfold ok_address. destruct (Z.geb_spec a (least_addr s)); [| lia]. exists (hang (mem s) a X par).
    destruct (hang_ok (mem s) i par a X S P Ii C0 C1) as [H1 H2]. split_and!; [done | exact H1 |].
    intros x Hx Hx'. apply H2; [done | apply Hx'; left].
  - pose proof (sep_range _ _ S p ltac:(set_solver)). destruct (Z.eqb_spec p 0); [lia |]. by apply IH.
Qed.

Lemma insert_loop_ok s sz X b i t : forall fuel par a d,
  t <> Leaf -> (height t <= fuel)%nat -> b <= 63 -> 0 <= d -> rep (mem s) i par a t ->
  (forall q, q ∈ X :: nodes t -> least_addr s <= q /\ chunksize (mem s) q = sz q) -> sep a (X :: nodes t) ->
  index (mem s) X = i -> child (mem s) X 0 = 0 -> child (mem s) X 1 = 0 ->
  exists m', insert_loop fuel s X (sz X) (rootp t) (Kbits (sz X) b d) = Ret (set_mem s m') /\
    rep m' i par a (tinsert sz b d X t) /\ touches (X :: nodes t) (mem s) m'.
Proof.
  induction t as [| p l t0 IH0 t1 IH1]; intros fuel par a d Hn Hh Hb Hd R Hr S Ii C0 C1; [done |].
  destruct fuel as [| fuel]; [cbn in Hh; lia |]. cbn [insert_loop rootp tinsert nodes height] in *.
  destruct (Hr p ltac:(set_solver)) as [Hp1 ->]. pose proof (sep_range _ _ S p ltac:(set_solver)) as Rp.
  destruct (Z.eqb_spec (sz p) (sz X)) as [E | E]; cbn [negb].
  - rewrite decide_True by done. cbn [rep rootp] in R. destruct R as (Ea & O & R0 & R1).
    rewrite (chain_first _ _ _ _ (own_ring _ _ _ _ _ O)). set (F := default p (list.head l)).
    assert (F ∈ p :: l) as HF by (unfold F; destruct l; set_solver).
    destruct (Hr F ltac:(set_solver)) as [HF1 _].
    unfold ok_address. destruct (Z.geb_spec p (least_addr s)), (Z.geb_spec F (least_addr s)); try lia. cbn [andb].
    fold (join_ring (mem s) X p F). exists (join_ring (mem s) X p F). split; [done |].
    destruct (join_ring_ok (mem s) i par p l X) as (J1 & J2 & J3 & J4); try done.
    { intros q Hq. pose proof (sep_range _ _ S q ltac:(clear - Hq; set_solver)). unfold in_range. lia. }
    { intros q r Hq Hr'. apply (sep_far _ _ S); clear - Hq Hr'; set_solver. }
    { apply (sep_part a _ (X :: p :: l) (nodes t0 ++ nodes t1)) in S; [by apply S | solve_Permutation]. }
    fold F in J1, J2, J3, J4. set (m' := join_ring (mem s) X p F) in *.
    assert (touches (X :: p :: l) (mem s) m') as J2' by (eapply touches_mono; [| exact J2]; clear - HF; set_solver).
    split; [| eapply touches_mono; [| exact J2']; clear; set_solver].
    assert (forall q, q ∈ nodes t0 ++ nodes t1 -> same_node (mem s) m' q) as SN.
    { intros q Hq. apply (touches_same _ _ _ _ J2'); [intros r Hr'; apply (sep_far _ _ S); clear - Hq Hr'; set_solver |].
      assert (NoDup ((X :: p :: l) ++ nodes t0 ++ nodes t1)) as (_ & N & _)%NoDup_app by apply S. intros Hq'. by apply (N q). }
    cbn [rep rootp]. split_and!; [| exact J1 | |].
    + rewrite (ld_ext (mem s)); [done |]. intros x Hx. apply J2'. intros q Hq Hx'.
      pose proof (sep_slot _ _ S q ltac:(clear - Hq; set_solver)). lia.
    + eapply rep_link; [| | exact R0]; [etrans; [exact J3 | by destruct t0; apply R0] |]. intros q Hq. apply SN. clear - Hq. set_solver.
    + eapply rep_link; [| | exact R1]; [etrans; [exact J4 | by destruct t1; apply R1] |]. intros q Hq. apply SN. clear - Hq. set_solver.
  - rewrite decide_False by done. rewrite Kbits_test, Kbits_next by done.
    set (c := Z.testbit (sz X) (b - d)).
    assert (forall t', t' = (if c then t1 else t0) -> t' <> Leaf ->
      inserted s sz b (d + 1) X i p (slot p c) t' (insert_loop fuel s X (sz X) (rootp t') (Kbits (sz X) b (d + 1)))) as IH.
    { intros t' -> Ht'. pose proof (sep_sub a [X] p l t0 t1 c S) as Sc.
      assert (forall q, q ∈ X :: nodes (if c then t1 else t0) -> q ∈ X :: p :: l ++ nodes t0 ++ nodes t1) as I by (clear; destruct c; set_solver).
      destruct c; [destruct (IH1 fuel p (slot p true) (d + 1)) as (m' & H1 & H2 & H3) | destruct (IH0 fuel p (slot p false) (d + 1)) as (m' & H1 & H2 & H3)];
        try (done || lia || apply R || (intros q Hq; by apply Hr, I)); exists m'; auto using touches_weaken. }
    destruct (insert_below_ok fuel s sz X b (d + 1) i p (slot p c) (if c then t1 else t0)) as (m' & H1 & H2 & H3); auto.
    { destruct c; apply R. }
    { by apply (sep_sub a [X] p l t0 t1 c). }
    { unfold slot. destruct c; lia. }
    { unfold in_range. lia. }
    exists m'. split; [rewrite <- H1; unfold insert_below; by destruct c |].
    destruct (node_frame _ _ _ _ _ _ _ _ _ [X] _ _ H3 S ltac:(done) R) as (F1 & F2 & F3).
    split; [by destruct c; cbn [rep rootp]; split_and! |].
    eapply touches_at_child; [| | | exact H3]; [set_solver | clear; destruct c; set_solver | destruct c; lia].
Qed.

(** ** Unlinking *)

(** The subtrie [n] at the link [a'], with the rest [C] of a trie around it: another
    subtrie may take its place, as far as the memory and the sizes are concerned. *)
Record view (sz : Z -> Z) (b d : Z) (m : ram) (i par a : Z) (t n : tree) (d' par' a' : Z) (C : tree -> tree) : Prop := {
  view_eq : t = C n;
  view_rep : rep m i par' a' n;
  view_sep : sep a' (nodes n);
  view_trie : trie sz b d' n;
  view_at : (par' = par /\ a' = a /\ forall t', C t' = t') \/
    (exists c, a' = slot par' c /\ ld m (slot par' (negb c)) <> rootp n /\ par' ∈ nodes t /\ par' ∉ nodes n /\
      rootp t <> rootp n /\ forall t', C t' <> Leaf);
  view_nodes : forall t', nodes (C t') ++ nodes n ≡ₚ nodes t ++ nodes t';
  view_in : nodes n ⊆ nodes t;
  view_height : (height n <= height t)%nat;
  view_plug_trie : forall t', nodes t' ⊆ nodes n -> trie sz b d' t' -> trie sz b d (C t');
  view_plug_rep : forall m' t', touches_at a' (nodes n) m m' -> rep m' i par' a' t' -> rep m' i par a (C t') }.
Arguments view_eq {_ _ _ _ _ _ _ _ _ _ _ _ _}.
Arguments view_rep {_ _ _ _ _ _ _ _ _ _ _ _ _}.
Arguments view_sep {_ _ _ _ _ _ _ _ _ _ _ _ _}.
Arguments view_trie {_ _ _ _ _ _ _ _ _ _ _ _ _}.
Arguments view_at {_ _ _ _ _ _ _ _ _ _ _ _ _}.
Arguments view_nodes {_ _ _ _ _ _ _ _ _ _ _ _ _}.
Arguments view_in {_ _ _ _ _ _ _ _ _ _ _ _ _}.
Arguments view_height {_ _ _ _ _ _ _ _ _ _ _ _ _}.
Arguments view_plug_trie {_ _ _ _ _ _ _ _ _ _ _ _ _}.
Arguments view_plug_rep {_ _ _ _ _ _ _ _ _ _ _ _ _}.

Lemma rootp_nodes t : t <> Leaf -> rootp t ∈ nodes t.
Proof. destruct t; [done |]. intros _. left. Qed.

Lemma rep_node m i par a p l t0 t1 : rep m i par a (Node p l t0 t1) ->
  ld m a = p /\ own m i par p l /\ rep m i p (slot p false) t0 /\ rep m i p (slot p true) t1.
Proof. done. Qed.

Lemma rep_root m i par a t : rep m i par a t -> ld m a = rootp t.
Proof. by destruct t; intros [H _]. Qed.

Lemma view_below sz b d m i par a p l t0 t1 (c : bool) n d' par' a' C :
  rep m i par a (Node p l t0 t1) -> sep a (nodes (Node p l t0 t1)) -> trie sz b d (Node p l t0 t1) -> n <> Leaf ->
  view sz b (d + 1) m i p (slot p c) (if c then t1 else t0) n d' par' a' C ->
  view sz b d m i par a (Node p l t0 t1) n d' par' a'
    (fun t' => if c then Node p l t0 (C t') else Node p l (C t') t1).
Proof.
  intros R S T Hn [V1 V2 V3 V4 V5 V6 V7 VH V8 V9].
  assert (NoDup (p :: l ++ nodes t0 ++ nodes t1)) as N by apply S.
  apply NoDup_cons in N as [Np (Nl & Nl' & (N0 & N01 & N1)%NoDup_app)%NoDup_app].
  assert (forall q, q ∈ nodes n -> q <> p /\ q ∉ nodes (if c then t0 else t1)) as D.
  { intros q Hq%V7. clear - Hq Np N01. destruct c; set_solver. }
  split; try done.
  - destruct c; by rewrite <- V1.
  - right. destruct V5 as [(-> & -> & VC) | (c' & -> & A1 & A2 & A3 & A4 & A5)].
    + exists c. split_and!; [done | | cbn; left | | |].
      * rewrite (rep_root m i p _ (if c then t0 else t1)) by (destruct c; apply R). intros E.
        pose proof (rootp_nodes n Hn) as Hr. apply (D _ Hr). rewrite <- E. apply rootp_nodes. intros E'.
        rewrite E' in E. cbn in E. pose proof (sep_range _ _ V3 _ Hr). lia.
      * intros H. by apply D in H as [].
      * cbn. intros E. pose proof (rootp_nodes n Hn) as Hr. by apply D in Hr as [].
      * by destruct c.
    + exists c'. split_and!; try done; [| | by destruct c].
      * clear - A2. cbn. destruct c; set_solver.
      * cbn. intros E. pose proof (rootp_nodes n Hn) as Hr. by apply D in Hr as [].
  - intros t'. specialize (V6 t'). destruct c; cbn [nodes].
    + transitivity (p :: l ++ nodes t0 ++ (nodes (C t') ++ nodes n)); [solve_Permutation | rewrite V6; solve_Permutation].
    + transitivity (p :: l ++ nodes t1 ++ (nodes (C t') ++ nodes n)); [solve_Permutation | rewrite V6; solve_Permutation].
  - clear - V7. cbn. destruct c; set_solver.
  - cbn [height]. destruct c; lia.
  - intros t' Ht Tt. destruct T as (T1 & T2 & T3 & T4 & T5).
    assert (forall q, q ∈ nodes (C t') -> q ∈ nodes (if c then t1 else t0)) as I.
    { intros q Hq. assert (q ∈ nodes (C t') ++ nodes n) as Hq' by (apply elem_of_app; by left). rewrite V6 in Hq'.
      apply elem_of_app in Hq' as [? | H]; [done |]. by apply V7, Ht. }
    destruct c; cbn [trie]; split_and!; auto.
  - intros m' t' Tm Rt.
    assert (touches_at (slot p c) (nodes (if c then t1 else t0)) m m') as Tm'.
    { intros x Hx Hx'. apply Tm; [| intros q Hq; apply Hx', V7, Hq].
      destruct V5 as [(-> & -> & _) | (c' & -> & _ & A2 & _)]; [done |]. specialize (Hx' _ A2). unfold slot. destruct c'; lia. }
    destruct (node_frame _ _ _ _ _ _ _ _ _ [] c _ Tm' S ltac:(done) R) as (F1 & F2 & F3). specialize (V9 m' t' Tm Rt).
    destruct c; cbn [rep rootp]; split_and!; done.
Qed.

Lemma focus sz b m i X t : forall d par a, rep m i par a t -> sep a (nodes t) -> trie sz b d t -> X ∈ nodes t ->
  exists p l t0 t1 d' par' a' C, X ∈ p :: l /\ view sz b d m i par a t (Node p l t0 t1) d' par' a' C.
Proof.
  induction t as [| p0 l0 t0 IH0 t1 IH1]; intros d par a R S T HX; [by apply elem_of_nil in HX |].
  cbn [nodes] in HX. rewrite app_comm_cons in HX. apply elem_of_app in HX as [HX | HX].
  - exists p0, l0, t0, t1, d, par, a, id. split; [done |]. split; try done; [by left |].
    intros t'. cbn [id]. apply Permutation_app_comm.
  - assert (forall c : bool,
      (forall d par a, rep m i par a (if c then t1 else t0) -> sep a (nodes (if c then t1 else t0)) -> trie sz b d (if c then t1 else t0) ->
        exists p l s0 s1 d' par' a' C, X ∈ p :: l /\ view sz b d m i par a (if c then t1 else t0) (Node p l s0 s1) d' par' a' C) ->
      exists p l s0 s1 d' par' a' C, X ∈ p :: l /\ view sz b d m i par a (Node p0 l0 t0 t1) (Node p l s0 s1) d' par' a' C) as G.
    { intros c IH. destruct (IH (d + 1) p0 (slot p0 c)) as (p & l & s0 & s1 & d' & par' & a' & C & HX' & V).
      - destruct c; apply R.
      - apply (sep_sub a [] p0 l0 t0 t1 c S).
      - destruct c; apply T.
      - eexists p, l, s0, s1, d', par', a', _. split; [done |]. eapply view_below; [exact R | exact S | exact T | done | exact V]. }
    apply elem_of_app in HX as [HX | HX]; [apply (G false) | apply (G true)]; auto.
Qed.

(** The trie [t] without its rightmost leaf [R], whose ring is [lR]: the link at [RP] is
    cleared, and the sizes of [lR] were those of [R] alone. *)
Record pruned (sz : Z -> Z) (b : Z) (m : ram) (i par a : Z) (t : tree) (RP R : Z) (lR : list Z) (t' : tree) : Prop := {
  pruned_nodes : nodes t ≡ₚ R :: lR ++ nodes t';
  pruned_own : exists parR, own m i parR R lR;
  pruned_leaf : child m R 0 = 0 /\ child m R 1 = 0;
  pruned_rep : rep (st m RP 0) i par a t';
  pruned_at : RP = a \/ exists q c, q ∈ nodes t' /\ RP = slot q c;
  pruned_trie : forall d, trie sz b d t -> trie sz b d t' /\ (forall q, q ∈ nodes t' -> sz q <> sz R) /\ forall q, q ∈ lR -> sz q = sz R }.

Lemma st_touches m RP v a L : (RP = a \/ exists q c, q ∈ L /\ RP = slot q c) -> touches_at a L m (st m RP v).
Proof.
  intros H x Hx Hx'. apply st_out. destruct H as [-> | (q & c & Hq & ->)]; [lia |]. specialize (Hx' q Hq). unfold slot. destruct c; lia.
Qed.

Lemma pruned_below sz b m i par a p l t0 t1 (c : bool) RP R lR t' :
  rep m i par a (Node p l t0 t1) -> sep a (nodes (Node p l t0 t1)) ->
  pruned sz b m i p (slot p c) (if c then t1 else t0) RP R lR t' ->
  pruned sz b m i par a (Node p l t0 t1) RP R lR (if c then Node p l t0 t' else Node p l t' t1).
Proof.
  intros Rp S [P1 P2 P3 P4 P5 P6].
  assert (touches_at (slot p c) (nodes (if c then t1 else t0)) m (st m RP 0)) as T.
  { apply st_touches. destruct P5 as [| (q & c' & Hq & E)]; [by left | right]. exists q, c'. split; [| done].
    rewrite P1. clear - Hq. set_solver. }
  destruct (node_frame _ _ _ _ _ _ _ _ _ [] c _ T S ltac:(done) Rp) as (F1 & F2 & F3).
  split; try done.
  - destruct c; cbn [nodes]; rewrite P1; solve_Permutation.
  - destruct c; cbn [rep rootp]; split_and!; done.
  - right. destruct P5 as [-> | (q & c' & Hq & ->)].
    + exists p, c. split; [| done]. destruct c; left.
    + exists q, c'. split; [| done]. clear - Hq. destruct c; set_solver.
  - intros d T'. cbn [trie] in T'. destruct T' as (T1 & T2 & T3 & T4 & T5).
    assert (R ∈ nodes (if c then t1 else t0)) as HR by (rewrite P1; left).
    assert (forall q, q ∈ nodes t' -> q ∈ nodes (if c then t1 else t0)) as I by (intros q Hq; rewrite P1; clear - Hq; set_solver).
    destruct (P6 (d + 1) ltac:(by destruct c)) as (Q1 & Q2 & Q3). split_and!; [| | done].
    + destruct c; cbn [trie]; split_and!; auto.
    + intros q Hq. assert (q = p \/ q ∈ l \/ q ∈ nodes (if c then t0 else t1) \/ q ∈ nodes t') as [-> | [Hq' | [Hq' | Hq']]].
      * clear - Hq. destruct c; set_solver.
      * intros E. destruct c; [by destruct (T3 R HR) | by destruct (T2 R HR)].
      * rewrite (T1 q Hq'). intros E. destruct c; [by destruct (T3 R HR) | by destruct (T2 R HR)].
      * intros E. destruct c; [destruct (T3 R HR), (T2 q Hq') | destruct (T2 R HR), (T3 q Hq')]; congruence.
      * by apply Q2.
Qed.

Lemma rightmost_ok sz b m i t : forall fuel par a, t <> Leaf -> (height t <= fuel)%nat -> rep m i par a t -> sep a (nodes t) ->
  exists RP R lR t', rightmost fuel m a (rootp t) = Ret (RP, R) /\ pruned sz b m i par a t RP R lR t'.
Proof.
  induction t as [| p l t0 IH0 t1 IH1]; intros fuel par a Hn Hh R S; [done |].
  destruct fuel as [| fuel]; [cbn in Hh; lia |]. cbn [rightmost rootp height] in *.
  assert (child m p 1 = rootp t1 /\ child m p 0 = rootp t0) as [-> ->] by (split; apply (rep_root m i p); apply R).
  assert (forall c : bool, (if c then t1 else t0) <> Leaf -> rootp (if c then t1 else t0) <> 0) as NZ.
  { intros c Hc%rootp_nodes. pose proof (sep_range _ _ (sep_sub a [] p l t0 t1 c S) _ Hc). lia. }
  destruct t1 as [| p1 l1 t10 t11]; cbn [rootp Z.eqb negb]; [destruct t0 as [| p0 l0 t00 t01]; cbn [rootp Z.eqb negb] |].
  - exists a, p, l, Leaf. split; [done |]. destruct R as (E & O & R0 & R1). split; try done.
    + by exists par.
    + split; [apply R0 | apply R1].
    + cbn [rep rootp]. split; [| done]. rewrite ld_st_eq; [done |]. unfold in_range. lia.
    + by left.
    + intros d (T1 & _). split_and!; [done | | done]. intros q Hq. by apply elem_of_nil in Hq.
  - pose proof (NZ false ltac:(done)) as NZ'. cbn [rootp] in NZ'. destruct (Z.eqb_spec p0 0); [done |]. cbn [negb].
    destruct (IH0 fuel p (slot p false)) as (RP & R' & lR & t' & E & P); [done | lia | apply R | apply (sep_sub a [] p l (Node p0 l0 t00 t01) Leaf false S) |].
    exists RP, R', lR, (Node p l t' Leaf). split; [exact E |]. by apply (pruned_below sz b m i par a p l _ _ false).
  - pose proof (NZ true ltac:(done)) as NZ'. cbn [rootp] in NZ'. destruct (Z.eqb_spec p1 0); [done |]. cbn [negb].
    destruct (IH1 fuel p (slot p true)) as (RP & R' & lR & t' & E & P); [done | lia | apply R | apply (sep_sub a [] p l t0 (Node p1 l1 t10 t11) true S) |].
    exists RP, R', lR, (Node p l t0 t'). split; [exact E |]. by apply (pruned_below sz b m i par a p l _ _ true).
Qed.

(** A node gets another parent. *)
Lemma own_reparent m i par par' p l : own m i par p l -> (forall q r, q ∈ p :: l -> r ∈ p :: l -> far q r) -> NoDup (p :: l) ->
  in_range 64 par' -> own (set_parent m p par') i par' p l.
Proof.
  intros [H1 H2 H3 H4] A [Np _]%NoDup_cons V.
  assert (forall q, q ∈ p :: l -> far p q) as Ap by (intros q Hq; apply A; [left | done]).
  assert (forall q, q ∈ l -> q <> p) as Nq by (intros q Hq ->; done).
  split.
  - unfold parent, set_parent. by rewrite ld_st_eq.
  - eapply chain_ext; [| | exact H2]; intros x Hx; [apply fd_set_parent | apply bk_set_parent]; apply Ap; clear - Hx; set_solver.
  - intros q Hq. rewrite <- (H3 q Hq). apply ld32_other; [by apply Ap | lia].
  - intros q Hq. destruct (H4 q Hq) as (P1 & P2 & P3). pose proof (Ap q ltac:(by right)). pose proof (Nq q Hq).
    split_and!; [etrans; [| exact P1] | etrans; [| exact P2] | etrans; [| exact P3]]; node_read.
Qed.

(** Reading the links of a chunk through its slots. *)
Definition dir (c : bool) : Z := if c then 1 else 0.

Lemma child_slot m p c : child m p (dir c) = ld m (slot p c).
Proof. by destruct c. Qed.

Lemma set_child_slot m p c v : set_child m p (dir c) v = st m (slot p c) v.
Proof. by destruct c. Qed.

Lemma set_mem_same s : set_mem s (mem s) = s.
Proof. by destruct s. Qed.

(** The child of [X] becomes the child of [R]. *)
Lemma adopt_ok s X R i (c : bool) t : rep (mem s) i X (slot X c) t -> ld (mem s) (slot R c) = 0 ->
  sep (slot R c) (nodes t) -> in_range 64 R -> (forall q, q ∈ nodes t -> least_addr s <= q) ->
  exists m', adopt s X R (dir c) = Ret (set_mem s m') /\ rep m' i R (slot R c) t /\ touches_at (slot R c) (nodes t) (mem s) m'.
Proof.
  intros Rt E S V L. unfold adopt. rewrite child_slot, (rep_root _ _ _ _ _ Rt). destruct t as [| p l t0 t1]; cbn [rootp].
  - exists (mem s). cbn [Z.eqb negb]. by rewrite set_mem_same.
  - pose proof (sep_range _ _ S p ltac:(left)) as Rp. destruct (Z.eqb_spec p 0); [lia |]. cbn [negb].
    unfold ok_address. pose proof (L p ltac:(left)). destruct (Z.geb_spec p (least_addr s)); [| lia]. rewrite set_child_slot.
    set (m1 := st (mem s) (slot R c) p). exists (set_parent m1 p R). split; [done |].
    assert (touches_at (slot R c) [] (mem s) m1) as T1 by (intros x Hx _; apply st_out; lia).
    assert (forall q, q ∈ p :: l ++ nodes t0 ++ nodes t1 -> same_node (mem s) m1 q) as SN.
    { intros q Hq x Hx. apply T1; [| intros r Hr; by apply elem_of_nil in Hr]. pose proof (sep_slot _ _ S q Hq). lia. }
    assert (own m1 i X p l) as O1.
    { eapply own_ext; [| | apply Rt]; [intros x Hx; apply (SN p); [left | lia] |]. intros q Hq. apply SN. clear - Hq. set_solver. }
    assert (forall q, q ∈ nodes t0 ++ nodes t1 -> same_node (mem s) (set_parent m1 p R) q) as SN2.
    { intros q Hq. assert (q <> p) as Nq.
      { intros ->. pose proof (sep_nodup _ _ S) as [Np _]%NoDup_cons. clear - Np Hq. set_solver. }
      intros x Hx. unfold set_parent. rewrite st_out; [apply (SN q); [clear - Hq; set_solver | done] |].
      destruct (sep_far _ _ S p q ltac:(left) ltac:(clear - Hq; set_solver)) as [-> |]; [done | lia]. }
    split; [| intros x Hx Hx'; unfold set_parent; rewrite st_out by (specialize (Hx' p ltac:(left)); lia); by apply T1; [| set_solver]].
    pose proof (sep_slot _ _ S p ltac:(left)). cbn [rep rootp]. split_and!.
    + unfold set_parent, m1. rewrite ld_st_ne, ld_st_eq by (lia || unfold in_range; lia). done.
    + apply (own_reparent _ _ X); [done | intros q r Hq Hr; apply (sep_far _ _ S); clear - Hq Hr; set_solver | | done].
      apply (sep_part _ _ (p :: l) (nodes t0 ++ nodes t1)) in S; [by apply S | done].
    + apply (rep_ext (mem s)); [| intros q Hq; apply SN2; clear - Hq; set_solver | apply Rt].
      intros x Hx. unfold set_parent. rewrite st_out by lia. apply (SN p); [left | lia].
    + apply (rep_ext (mem s)); [| intros q Hq; apply SN2; clear - Hq; set_solver | apply Rt].
      intros x Hx. unfold set_parent. rewrite st_out by lia. apply (SN p); [left | lia].
Qed.

(** The chunk [R] with its ring as a node at the link [a]. *)
Lemma place_ok m i a par parR R lR : own m i parR R lR -> ld m (slot R false) = 0 -> ld m (slot R true) = 0 ->
  sep a (R :: lR) -> in_range 64 par ->
  rep (set_parent (st m a R) R par) i par a (Node R lR Leaf Leaf).
Proof.
  intros O E0 E1 S V. pose proof (sep_range _ _ S R ltac:(left)). pose proof (sep_slot _ _ S R ltac:(left)).
  unfold slot in *. cbn [rep rootp]. unfold set_parent at 1 3 4.
  split_and!; [by mem_read | | by mem_read | done | by mem_read | done].
  apply (own_reparent _ _ parR); [| apply S | apply S | done].
  eapply own_ext; [| | exact O]; [intros x Hx; apply st_out; lia |].
  intros q Hq x Hx. apply st_out. pose proof (sep_slot _ _ S q ltac:(by right)). lia.
Qed.

(** Writes to the chunks [M] leave the trie below [X]. *)
Lemma rep_other a X (c : bool) t M m m' i par L : sep a (X :: nodes t ++ M) -> L ⊆ M -> touches_at a L m m' ->
  rep m i par (slot X c) t -> rep m' i par (slot X c) t.
Proof.
  intros S I T.
  assert (forall q, q ∈ X :: nodes t -> forall x, q + 16 <= x < q + 64 -> m' x = m x) as H.
  { assert (NoDup ((X :: nodes t) ++ M)) as (_ & N & _)%NoDup_app by apply S. intros q Hq x Hx. apply T.
    - pose proof (sep_slot _ _ S q ltac:(clear - Hq; set_solver)). lia.
    - intros r Hr%I Hx'. destruct (sep_far _ _ S q r ltac:(clear - Hq; set_solver) ltac:(clear - Hr; set_solver)) as [-> |]; [by apply (N r) | lia]. }
  apply rep_ext.
  - intros x Hx. apply (H X); [left |]. unfold slot in Hx. destruct c; lia.
  - intros q Hq x Hx. apply (H q); [by right | done].
Qed.

Lemma install_ok s i a par parR X R lR t0 t1 :
  rep (mem s) i X (slot X false) t0 -> rep (mem s) i X (slot X true) t1 -> own (mem s) i parR R lR ->
  ld (mem s) (slot R false) = 0 -> ld (mem s) (slot R true) = 0 -> sep a (X :: R :: lR ++ nodes t0 ++ nodes t1) ->
  in_range 64 par -> (forall q, q ∈ R :: nodes t0 ++ nodes t1 -> least_addr s <= q) ->
  exists m', (s ← adopt (set_mem s (set_parent (st (mem s) a R) R par)) X R 0; adopt s X R 1) = Ret (set_mem s m') /\
    rep m' i par a (Node R lR t0 t1) /\ touches_at a (R :: lR ++ nodes t0 ++ nodes t1) (mem s) m'.
Proof.
  intros R0 R1 O E0 E1 S V L. set (m2 := set_parent (st (mem s) a R) R par).
  assert (sep a (R :: lR)) as SR by (apply (sep_part a (X :: R :: lR ++ nodes t0 ++ nodes t1) _ (X :: nodes t0 ++ nodes t1)); [solve_Permutation | done]).
  pose proof (place_ok (mem s) i a par parR R lR O E0 E1 SR V) as P2. fold m2 in P2.
  assert (touches_at a (R :: lR) (mem s) m2) as T2.
  { intros x Hx Hx'. specialize (Hx' R ltac:(left)). unfold m2, set_parent. rewrite !st_out by lia. done. }
  assert (forall c, sep (slot R c) (nodes (if c then t1 else t0))) as SC.
  { intros c. apply (sep_child a R (X :: R :: lR ++ nodes t0 ++ nodes t1) _ (X :: lR ++ nodes (if c then t0 else t1))); [| destruct c; lia | exact S]. destruct c; solve_Permutation. }
  assert (in_range 64 R) as VR by (pose proof (sep_range _ _ SR R ltac:(left)); unfold in_range; lia).
  assert (forall m m' (c : bool) L, L ⊆ R :: lR ++ nodes (if c then t0 else t1) -> touches_at a L m m' ->
    rep m i X (slot X c) (if c then t1 else t0) -> rep m' i X (slot X c) (if c then t1 else t0)) as FX.
  { intros m m' c L' I T. apply (rep_other a X _ _ (R :: lR ++ nodes (if c then t0 else t1)) _ _ _ _ L'); try done.
    eapply sep_perm; [| exact S]. destruct c; solve_Permutation. }
  destruct (adopt_ok (set_mem s m2) X R i false t0) as (m3 & A3 & P3 & T3).
  { apply (FX (mem s) m2 false (R :: lR)); [clear; set_solver | done | done]. }
  { apply P2. }
  { apply (SC false). }
  { done. }
  { intros q Hq. apply L. clear - Hq. set_solver. }
  cbn [dir mem set_mem] in A3, P3, T3.
  assert (S3 : sep a ((X :: nodes t0 ++ nodes t1) ++ R :: lR ++ nodes Leaf ++ nodes Leaf)).
  { eapply sep_perm; [| exact S]. cbn [nodes app]. rewrite !app_nil_r. solve_Permutation. }
  destruct (node_frame m2 m3 i par a R lR Leaf Leaf _ false _ T3 S3) as (F1 & F2 & F3); [clear; set_solver | exact P2 |].
  destruct (adopt_ok (set_mem s m3) X R i true t1) as (m4 & A4 & P4 & T4).
  { apply (FX m2 m3 true (R :: lR ++ nodes t0)); [done | |].
    - intros x _ Hx. apply T3; [| intros q Hq; apply Hx; clear - Hq; set_solver]. specialize (Hx R ltac:(left)). unfold slot. lia.
    - apply (FX (mem s) m2 true (R :: lR)); [clear; set_solver | done | done]. }
  { apply F3. }
  { apply (SC true). }
  { done. }
  { intros q Hq. apply L. clear - Hq. set_solver. }
  cbn [dir mem set_mem] in A4, P4, T4.
  exists m4. rewrite A3. split; [exact A4 |].
  assert (S4 : sep a ((X :: nodes t1) ++ R :: lR ++ nodes t0 ++ nodes Leaf)).
  { eapply sep_perm; [| exact S]. cbn [nodes app]. rewrite !app_nil_r. solve_Permutation. }
  destruct (node_frame m3 m4 i par a R lR t0 Leaf _ true _ T4 S4) as (G1 & G2 & G3); [clear; set_solver | exact (conj F1 (conj F2 (conj P3 F3))) |].
  split; [exact (conj G1 (conj G2 (conj G3 P4))) |].
  intros x Hx Hx'. pose proof (Hx' R ltac:(left)). rewrite T4, T3, T2; try done; unfold slot; try lia; intros q Hq; apply Hx'; clear - Hq; set_solver.
Qed.

(** The link to [X] is replaced, wherever it is. *)
Lemma relink_ok s sz b d i t n d' par' a' C m R :
  let H := treebin_at s i in
  rep (mem s) i H H t -> view sz b d (mem s) i H H t n d' par' a' C -> n <> Leaf -> sep H (nodes t) ->
  (forall q, q ∈ nodes t -> least_addr s <= q) -> touches (nodes n) (mem s) m -> index m (rootp n) = i ->
  relink (set_mem s m) (rootp n) par' R = Ret (set_mem (if decide (a' = H /\ R = 0) then clear_treemap s i else s) (st m a' R)).
Proof.
  intros H Rt V Hn S L T Hi. unfold relink. cbn [mem set_mem]. rewrite Hi. change (treebin_at (set_mem s m) i) with H.
  assert (forall x, (forall q, q ∈ nodes n -> x + 8 <= q + 16 \/ q + 64 <= x) -> ld m x = ld (mem s) x) as Q.
  { intros x Hx. apply ld_ext. intros y Hy. apply T. intros q Hq Hy'. specialize (Hx q Hq). lia. }
  pose proof (view_in V) as I.
  rewrite (Q H), (rep_root _ _ _ _ _ Rt) by (intros q Hq; apply (sep_slot _ _ S), I, Hq).
  destruct (view_at V) as [(-> & -> & EC) | (c & -> & A1 & A2 & A3 & A4 & _)].
  - rewrite (view_eq V), EC, Z.eqb_refl. f_equal.
    assert (index (st m H R) (rootp n) = i) as ->.
    { rewrite <- Hi. apply ld32_st_ne. pose proof (sep_slot _ _ S (rootp n) ltac:(by apply I, rootp_nodes)). lia. }
    destruct (Z.eqb_spec R 0); [rewrite decide_True by done | rewrite decide_False by tauto]; by destruct s.
  - destruct (Z.eqb_spec (rootp n) (rootp t)); [by destruct A4 |].
    unfold ok_address. cbn [least_addr set_mem]. pose proof (L par' A2). destruct (Z.geb_spec par' (least_addr s)); [| lia].
    assert (forall c, ld m (slot par' c) = ld (mem s) (slot par' c)) as Q'.
    { intros c'. apply Q. intros q Hq. destruct (sep_far _ _ S par' q A2 (I _ Hq)) as [-> |]; [done |]. unfold slot. destruct c'; lia. }
    rewrite decide_False. 2: { intros [E _]. pose proof (sep_slot _ _ S par' A2). revert E. unfold slot. destruct c; lia. }
    pose proof (rep_root _ _ _ _ _ (view_rep V)) as En. rewrite <- Q' in A1, En.
    f_equal. assert (child m par' 0 = ld m (slot par' false)) as -> by done.
    destruct c; cbn [negb] in A1; [destruct (Z.eqb_spec (ld m (slot par' false)) (rootp n)) as [E' |]; [done |] | rewrite En, Z.eqb_refl]; by destruct s.
Qed.

Definition is_leaf (t : tree) : bool := match t with Leaf => true | _ => false end.

Lemma is_leaf_tinsert sz b d X t : is_leaf (tinsert sz b d X t) = false.
Proof. destruct t; [done |]. cbn [tinsert]. case_decide; [done |]. by destruct (Z.testbit _ _). Qed.

(** The trie without [X]: the bin is marked empty if that was its last chunk. *)
Definition unlinked (s : mstate) (sz : Z -> Z) (b i : Z) (t : tree) (X : Z) (r : outcome mstate) : Prop :=
  exists m' t', r = Ret (set_mem (if is_leaf t' then clear_treemap s i else s) m') /\ nodes t ≡ₚ X :: nodes t' /\
    rep m' i (treebin_at s i) (treebin_at s i) t' /\ trie sz b 0 t' /\ touches_at (treebin_at s i) (nodes t) (mem s) m'.

Lemma view_close s sz b i t n d' par' a' C X m' t' :
  let H := treebin_at s i in
  view sz b 0 (mem s) i H H t n d' par' a' C -> sep H (nodes t) ->
  nodes n ≡ₚ X :: nodes t' -> rep m' i par' a' t' -> trie sz b d' t' -> touches_at a' (nodes n) (mem s) m' ->
  unlinked s sz b i t X (Ret (set_mem (if decide (a' = H /\ rootp t' = 0) then clear_treemap s i else s) m')).
Proof.
  intros H V S P R T Tm. exists m', (C t').
  assert (nodes t' ⊆ nodes n) as I by (intros q Hq; rewrite P; by right).
  split_and!.
  - do 2 f_equal. destruct (view_at V) as [(-> & -> & EC) | (c & -> & _ & A2 & _ & _ & EC)].
    + rewrite EC. destruct t' as [| p l t0 t1]; cbn [rootp is_leaf]; [by rewrite decide_True |]. rewrite decide_False; [done |].
      intros [_ E]. pose proof (sep_range _ _ (view_sep V) p ltac:(apply I; left)). lia.
    + rewrite decide_False. 2: { intros [E _]. pose proof (sep_slot _ _ S par' A2). revert E. unfold slot. destruct c; lia. }
      specialize (EC t'). by destruct (C t').
  - apply (Permutation_app_inv_r (nodes t')). rewrite <- (view_nodes V t'), P. solve_Permutation.
  - by apply (view_plug_rep V).
  - by apply (view_plug_trie V).
  - intros x Hx Hx'. apply Tm; [| intros q Hq; apply Hx', (view_in V), Hq].
    destruct (view_at V) as [(_ & -> & _) | (c & -> & _ & A2 & _)]; [done |].
    specialize (Hx' par' A2). unfold slot. destruct c; lia.
Qed.

(** Linking a chunk out of a ring changes no other field. *)
Lemma link_out_fields m f b q : far f q -> far b q ->
  index (link_out m f b) q = index m q /\ child (link_out m f b) q 0 = child m q 0 /\ child (link_out m f b) q 1 = child m q 1 /\
  parent (link_out m f b) q = parent m q.
Proof. intros A1 A2. unfold link_out. split_and!; node_read. Qed.

Lemma link_out_touches m f b L : f ∈ L -> b ∈ L -> touches L m (link_out m f b).
Proof. intros Hf Hb x Hx. specialize (Hx f Hf) as H1. specialize (Hx b Hb) as H2. unfold link_out. mem_fields. mem_out. done. Qed.

(** Facts about a chunk in the ring of a node. *)
Lemma ring_member m a p l1 X l2 : sep a (p :: l1 ++ X :: l2) -> chain m p (l1 ++ X :: l2) p ->
  fd m X ∈ p :: l1 ++ l2 /\ bk m X ∈ p :: l1 ++ l2 /\ bk m X <> X /\ bk m (fd m X) = X /\ fd m (bk m X) = X.
Proof.
  intros S C. destruct (chain_neighbours _ _ _ _ _ _ C) as (E1 & E2 & E3 & E4).
  assert (fd m X ∈ p :: l1 ++ l2) as HF by (rewrite E1; clear; destruct l2; set_solver).
  assert (bk m X ∈ p :: l1 ++ l2) as HB.
  { rewrite E2. clear. destruct (last l1) eqn:E; [apply last_Some_elem_of in E |]; set_solver. }
  split_and!; try done. intros E. rewrite E in HB. assert (NoDup (p :: l1 ++ X :: l2)) as N by apply S.
  apply NoDup_cons in N as [Np (_ & N1 & [N2 _]%NoDup_cons)%NoDup_app]. clear - HB Np N1 N2. set_solver.
Qed.

Lemma link_out_own m i par p l1 X l2 a : own m i par p (l1 ++ X :: l2) -> sep a (p :: l1 ++ X :: l2) ->
  own (link_out m (fd m X) (bk m X)) i par p (l1 ++ l2).
Proof.
  intros [O1 O2 O3 O4] S. destruct (ring_member _ _ _ _ _ _ S O2) as (HF & HB & _ & _ & _).
  assert (forall q, q ∈ p :: l1 ++ l2 -> q ∈ p :: l1 ++ X :: l2) as I by (clear; set_solver).
  assert (forall q, q ∈ p :: l1 ++ l2 -> let m' := link_out m (fd m X) (bk m X) in
    index m' q = index m q /\ child m' q 0 = child m q 0 /\ child m' q 1 = child m q 1 /\ parent m' q = parent m q) as F.
  { intros q Hq. apply link_out_fields; apply (sep_far _ _ S); auto. }
  split.
  - by rewrite (proj2 (proj2 (proj2 (F p ltac:(left))))).
  - assert (NoDup (p :: l1 ++ X :: l2)) as [Np N]%NoDup_cons by apply S.
    assert (forall q, q ∈ p :: p :: l1 ++ X :: l2 -> q ∈ p :: l1 ++ X :: l2) as I2 by (clear; set_solver).
    apply link_out_chain; auto.
    + intros x y Hx%I2 Hy%I2. by apply far_apart, (sep_far _ _ S).
    + intros x Hx%I2. pose proof (sep_range _ _ S x Hx). unfold in_range. lia.
  - intros q Hq. destruct (F q Hq) as (-> & _). apply O3, I, Hq.
  - intros q Hq. destruct (F q ltac:(by right)) as (_ & -> & -> & ->). apply O4. clear - Hq. set_solver.
Qed.

(** The ring of a node without the node, seen from the last member. *)
Lemma link_out_head m i par X l0 R a : own m i par X (l0 ++ [R]) -> sep a (X :: l0 ++ [R]) ->
  own (link_out m (fd m X) (bk m X)) i 0 R l0 /\ fd m X ∈ R :: l0 /\ bk m X = R /\ bk m (fd m X) = X /\ fd m R = X.
Proof.
  intros [O1 O2 O3 O4] S. apply chain_rotate in O2. change (chain m R ([] ++ X :: l0) R) in O2.
  destruct (chain_neighbours _ _ _ _ _ _ O2) as (E1 & E2 & E3 & E4). change (bk m X = R) in E2. rewrite E2 in E4 |- *.
  assert (fd m X ∈ R :: l0) as HF by (rewrite E1; clear; destruct l0; set_solver).
  split; [| done]. assert (forall q, q ∈ R :: l0 -> q ∈ X :: l0 ++ [R]) as I by (clear; set_solver).
  assert (forall q, q ∈ R :: l0 -> let m' := link_out m (fd m X) R in
    index m' q = index m q /\ child m' q 0 = child m q 0 /\ child m' q 1 = child m q 1 /\ parent m' q = parent m q) as F.
  { intros q Hq. apply link_out_fields; apply (sep_far _ _ S); apply I; done || left. }
  split.
  - rewrite (proj2 (proj2 (proj2 (F R ltac:(left))))). apply O4. clear. set_solver.
  - assert (NoDup (R :: X :: l0)) as [NR NX]%NoDup_cons.
    { apply (sep_perm a _ (R :: X :: l0)) in S; [apply S | solve_Permutation]. }
    assert (forall q, q ∈ R :: R :: X :: l0 -> q ∈ X :: l0 ++ [R]) as I2 by (clear; set_solver).
    pose proof (link_out_chain m R [] X l0 R) as LC. rewrite E2 in LC. apply LC; try done.
    + intros x y Hx%I2 Hy%I2. by apply far_apart, (sep_far _ _ S).
    + intros x Hx%I2. pose proof (sep_range _ _ S x Hx). unfold in_range. lia.
  - intros q Hq. destruct (F q Hq) as (-> & _). by apply O3, I.
  - intros q Hq. destruct (F q ltac:(by right)) as (_ & -> & -> & ->). apply O4. clear - Hq. set_solver.
Qed.

Section unlink.
Context (s : mstate) (sz : Z -> Z) (b i : Z) (t : tree).
Let H := treebin_at s i.
Context (Rt : rep (mem s) i H H t) (St : sep H (nodes t)) (Lt : forall q, q ∈ nodes t -> least_addr s <= q) (HH : 0 < H < 2 ^ 63).

(** The end of unlink_large_chunk, with a chunk [R] in the place of [X]. *)
Lemma unlink_finish X l t0 t1 d' par' a' C m parR R lR s0 s1 :
  view sz b 0 (mem s) i H H t (Node X l t0 t1) d' par' a' C ->
  touches (nodes (Node X l t0 t1)) (mem s) m -> index m X = i -> nodes (Node X l t0 t1) ≡ₚ X :: R :: lR ++ nodes s0 ++ nodes s1 ->
  rep m i X (slot X false) s0 -> rep m i X (slot X true) s1 -> own m i parR R lR ->
  ld m (slot R false) = 0 -> ld m (slot R true) = 0 -> trie sz b d' (Node R lR s0 s1) ->
  unlinked s sz b i t X (s ← relink (set_mem s m) X par' R;
    if negb (R =? 0) then
      if ok_address s R then
        s ← adopt (set_mem s (set_parent (mem s) R par')) X R 0;
        adopt s X R 1
      else ABORT
    else Ret s).
Proof.
  intros V T Hi P R0 R1 O E0 E1 Tr.
  assert (forall q, q ∈ X :: R :: lR ++ nodes s0 ++ nodes s1 -> q ∈ nodes t) as I by (intros q Hq; apply (view_in V); by rewrite P).
  pose proof (sep_range _ _ St R ltac:(apply I; right; left)) as VR. pose proof (Lt R ltac:(apply I; right; left)) as LR.
  pose proof (relink_ok s sz b 0 i t _ d' par' a' C m R Rt V ltac:(done) St Lt T Hi) as E. cbn [rootp] in E. rewrite E. clear E.
  rewrite decide_False by lia. cbn [mbind outcome_bind]. destruct (Z.eqb_spec R 0); [lia |]. cbn [negb].
  unfold ok_address. cbn [least_addr set_mem]. destruct (Z.geb_spec R (least_addr s)); [| lia].
  destruct (install_ok (set_mem s m) i a' par' parR X R lR s0 s1) as (m' & A & RR & TT); try done.
  { eapply sep_perm; [exact P | apply (view_sep V)]. }
  { unfold in_range. destruct (view_at V) as [(-> & _) | (c & _ & _ & A2 & _)]; [fold H; lia | pose proof (sep_range _ _ St _ A2); lia]. }
  { intros q Hq. apply Lt, I. clear - Hq. set_solver. }
  cbn [mem set_mem] in *. change (unlinked s sz b i t X (s ← adopt (set_mem (set_mem s m) (set_parent (st m a' R) R par')) X R 0; adopt s X R 1)).
  rewrite A.
  assert (forall q, q ∈ R :: lR ++ nodes s0 ++ nodes s1 -> q ∈ nodes (Node X l t0 t1)) as I' by (intros q Hq; rewrite P; by right).
  pose proof (view_close s sz b i t _ d' par' a' C X m' (Node R lR s0 s1) V St) as VC. cbn [rootp] in VC.
  rewrite decide_False in VC by lia. apply VC; try done.
  intros x Hx Hx'. rewrite TT; [by apply T | done |]. intros q Hq. by apply Hx', I'.
Qed.

Lemma unlink_chained X p l1 l2 t0 t1 d' par' a' C :
  view sz b 0 (mem s) i H H t (Node p (l1 ++ X :: l2) t0 t1) d' par' a' C -> unlinked s sz b i t X (unlink_large_chunk s X).
Proof.
  intros V. set (n := Node p (l1 ++ X :: l2) t0 t1) in *. destruct (rep_node _ _ _ _ _ _ _ _ (view_rep V)) as (Ea & O & R0 & R1).
  assert (sep a' (p :: l1 ++ X :: l2)) as S by (apply (sep_part _ (nodes n) _ (nodes t0 ++ nodes t1)); [done | apply (view_sep V)]).
  destruct (ring_member _ _ _ _ _ _ S (own_ring _ _ _ _ _ O)) as (HF & HB & Nb & E3 & E4).
  destruct (own_chained _ _ _ _ _ O X ltac:(set_solver)) as (HP & _). unfold unlink_large_chunk, unlink_replacement. rewrite HP.
  destruct (Z.eqb_spec (bk (mem s) X) X); [done |]. rewrite E3, E4, !Z.eqb_refl. cbn [negb].
  assert (fd (mem s) X ∈ nodes n) as HF' by (clear - HF; cbn; set_solver). assert (bk (mem s) X ∈ nodes n) as HB' by (clear - HB; cbn; set_solver).
  unfold ok_address. pose proof (Lt _ (view_in V _ HF')). destruct (Z.geb_spec (fd (mem s) X) (least_addr s)); [| lia].
  cbn [andb mbind outcome_bind Z.eqb negb]. fold (link_out (mem s) (fd (mem s) X) (bk (mem s) X)). set (m' := link_out _ _ _).
  assert (touches (p :: l1 ++ l2) (mem s) m') as T by (by apply link_out_touches).
  assert (p <> 0) as Np by (pose proof (sep_range _ _ S p ltac:(left)); lia).
  pose proof (view_close s sz b i t n d' par' a' C X m' (Node p (l1 ++ l2) t0 t1) V St) as VC. cbn [rootp] in VC.
  rewrite decide_False in VC by tauto. apply VC; clear VC.
  - cbn. solve_Permutation.
  - assert (NoDup ((p :: l1 ++ X :: l2) ++ nodes t0 ++ nodes t1)) as (_ & N & _)%NoDup_app by apply (view_sep V).
    assert (forall q, q ∈ nodes t0 ++ nodes t1 -> same_node (mem s) m' q) as SN.
    { intros q Hq. apply (touches_same _ _ _ _ T).
      - intros r Hr. apply (sep_far _ _ (view_sep V)); clear - Hq Hr; cbn; set_solver.
      - intros Hq'. apply (N q); [clear - Hq'; set_solver | done]. }
    assert (far (fd (mem s) X) p /\ far (bk (mem s) X) p) as [A1 A2].
    { split; apply (sep_far _ _ S); [clear - HF | left | clear - HB | left]; set_solver. }
    destruct (link_out_fields (mem s) _ _ p A1 A2) as (_ & C0 & C1 & _).
    cbn [rep rootp]. split_and!.
    + rewrite (ld_ext (mem s)); [exact Ea |]. intros x Hx. apply T. intros q Hq Hx'. pose proof (sep_slot _ _ S q ltac:(clear - Hq; set_solver)). lia.
    + by apply (link_out_own _ _ _ _ _ _ _ a').
    + apply (rep_link (mem s) _ _ _ (p + 32)); [etrans; [exact C0 | apply (rep_root _ _ _ _ _ R0)] | | done]. intros q Hq. apply SN. clear - Hq. set_solver.
    + apply (rep_link (mem s) _ _ _ (p + 40)); [etrans; [exact C1 | apply (rep_root _ _ _ _ _ R1)] | | done]. intros q Hq. apply SN. clear - Hq. set_solver.
  - destruct (view_trie V) as (T1 & T2 & T3 & T4 & T5). cbn [trie]. split_and!; try done. intros q Hq. apply T1. clear - Hq. set_solver.
  - apply touches_weaken. eapply touches_mono; [| exact T]. clear. cbn. set_solver.
Qed.

Lemma unlink_head_ring X l0 R t0 t1 d' par' a' C :
  view sz b 0 (mem s) i H H t (Node X (l0 ++ [R]) t0 t1) d' par' a' C -> unlinked s sz b i t X (unlink_large_chunk s X).
Proof.
  intros V. set (n := Node X (l0 ++ [R]) t0 t1) in *. destruct (rep_node _ _ _ _ _ _ _ _ (view_rep V)) as (Ea & O & R0 & R1).
  assert (sep a' (X :: l0 ++ [R])) as S by (apply (sep_part _ (nodes n) _ (nodes t0 ++ nodes t1)); [done | apply (view_sep V)]).
  destruct (link_out_head _ _ _ _ _ _ _ O S) as (O' & HF & EB & E3 & E4). unfold unlink_large_chunk, unlink_replacement.
  assert (R <> X) as NR. { assert (NoDup (X :: l0 ++ [R])) as [N _]%NoDup_cons by apply S. intros ->. apply N. set_solver. }
  rewrite EB in O' |- *. destruct (Z.eqb_spec R X); [done |]. rewrite E3, E4, !Z.eqb_refl. cbn [negb].
  assert (fd (mem s) X ∈ nodes n) as HF' by (clear - HF; cbn; set_solver).
  rewrite (ok_address_true s (fd (mem s) X)) by (by apply Lt, (view_in V)).
  assert (par' <> 0) as Np. { destruct (view_at V) as [(-> & _) | (c & _ & _ & A2 & _)]; [lia | pose proof (sep_range _ _ St _ A2); lia]. }
  rewrite (own_parent _ _ _ _ _ O). cbn [andb mbind outcome_bind]. destruct (Z.eqb_spec par' 0); [done |]. cbn [negb].
  fold (link_out (mem s) (fd (mem s) X) R). set (m' := link_out _ _ _) in *.
  assert (touches (R :: l0) (mem s) m') as T by (apply link_out_touches; [done | left]).
  assert (forall q, q ∈ X :: l0 ++ [R] -> far (fd (mem s) X) q /\ far R q) as A.
  { intros q Hq. split; apply (sep_far _ _ S); try done; clear - HF; set_solver. }
  destruct (own_chained _ _ _ _ _ O R ltac:(clear; set_solver)) as (_ & K0 & K1).
  destruct (A R ltac:(clear; set_solver)) as [A1 A2]. destruct (link_out_fields (mem s) _ _ R A1 A2) as (_ & C0 & C1 & _).
  destruct (A X ltac:(left)) as [A3 A4]. destruct (link_out_fields (mem s) _ _ X A3 A4) as (CX & _).
  apply (unlink_finish X (l0 ++ [R]) t0 t1 d' par' a' C m' 0 R l0 t0 t1); try done.
  - eapply touches_mono; [| exact T]. clear. cbn. set_solver.
  - etrans; [exact CX |]. apply (own_index _ _ _ _ _ O). left.
  - cbn [nodes]. solve_Permutation.
  - apply (rep_other a' X false t0 (R :: l0 ++ nodes t1) (mem s) _ _ _ (R :: l0)); [| clear; set_solver | by apply touches_weaken | done].
    eapply sep_perm; [| apply (view_sep V)]. cbn. solve_Permutation.
  - apply (rep_other a' X true t1 (R :: l0 ++ nodes t0) (mem s) _ _ _ (R :: l0)); [| clear; set_solver | by apply touches_weaken | done].
    eapply sep_perm; [| apply (view_sep V)]. cbn. solve_Permutation.
  - etrans; [exact C0 | exact K0].
  - etrans; [exact C1 | exact K1].
  - destruct (view_trie V) as (T1 & T2 & T3 & T4 & T5). assert (sz R = sz X) as ER by (apply T1; clear; set_solver).
    cbn [trie]. rewrite ER. split_and!; try done. intros q Hq. apply T1. clear - Hq. set_solver.
Qed.

Lemma unlink_leaf X d' par' a' C :
  view sz b 0 (mem s) i H H t (Node X [] Leaf Leaf) d' par' a' C -> unlinked s sz b i t X (unlink_large_chunk s X).
Proof.
  intros V. destruct (rep_node _ _ _ _ _ _ _ _ (view_rep V)) as (Ea & O & R0 & R1).
  assert (par' <> 0) as Np. { destruct (view_at V) as [(-> & _) | (c & _ & _ & A2 & _)]; [lia | pose proof (sep_range _ _ St _ A2); lia]. }
  unfold unlink_large_chunk, unlink_replacement. rewrite (proj2 (own_ring _ _ _ _ _ O)), Z.eqb_refl. cbn [negb].
  assert (child (mem s) X 1 = 0 /\ child (mem s) X 0 = 0) as [-> ->] by (split; [apply R1 | apply R0]).
  cbn [Z.eqb negb mbind outcome_bind]. rewrite (own_parent _ _ _ _ _ O). destruct (Z.eqb_spec par' 0); [done |]. cbn [negb].
  pose proof (relink_ok s sz b 0 i t _ d' par' a' C (mem s) 0 Rt V ltac:(done) St Lt) as E. cbn [rootp] in E.
  rewrite set_mem_same in E. rewrite E; [| done | by apply (own_index _ _ _ _ _ O); left]. cbn [mbind outcome_bind].
  apply (view_close s sz b i t (Node X [] Leaf Leaf) d' par' a' C X (st (mem s) a' 0) Leaf V St); try done.
  - cbn [rep rootp]. split; [| done]. apply ld_st_eq. unfold in_range. lia.
  - apply st_touches. by left.
Qed.

(** The rightmost leaf below [X] takes its place. *)
Lemma unlink_inner_finish X (c : bool) t0 t1 d' par' a' C RP R lR t' m :
  view sz b 0 (mem s) i H H t (Node X [] t0 t1) d' par' a' C ->
  pruned sz b (mem s) i X (slot X c) (if c then t1 else t0) RP R lR t' -> m = st (mem s) RP 0 ->
  touches (nodes (Node X [] t0 t1)) (mem s) m -> touches (X :: nodes t') (mem s) m -> own m i par' X [] ->
  rep m i X (slot X (negb c)) (if c then t0 else t1) ->
  unlinked s sz b i t X (s ← relink (set_mem s m) X par' R;
    if negb (R =? 0) then
      if ok_address s R then
        s ← adopt (set_mem s (set_parent (mem s) R par')) X R 0;
        adopt s X R 1
      else ABORT
    else Ret s).
Proof.
  intros V [P1 [parR P2] [P3 P4] P5 _ P6] -> Tn T OX Ro. set (m := st (mem s) RP 0) in *.
  assert (nodes (Node X [] t0 t1) ≡ₚ (X :: nodes t') ++ (R :: lR) ++ nodes (if c then t0 else t1)) as Pn.
  { transitivity (X :: nodes (if c then t1 else t0) ++ nodes (if c then t0 else t1)); [cbn; destruct c; solve_Permutation |].
    rewrite P1. solve_Permutation. }
  pose proof (sep_perm _ _ _ Pn (view_sep V)) as S. pose proof (sep_nodup _ _ S) as (_ & N & _)%NoDup_app.
  assert (forall q, q ∈ R :: lR -> same_node (mem s) m q) as SN.
  { intros q Hq. apply (touches_same _ _ _ _ T).
    - intros r Hr. apply (sep_far _ _ S); clear - Hq Hr; set_solver.
    - intros Hq'. apply (N q Hq'). apply elem_of_app. by left. }
  destruct (same_fields _ _ _ (SN R ltac:(left))) as (_ & _ & K0 & K1 & _).
  apply (unlink_finish X [] t0 t1 d' par' a' C m parR R lR (if c then t0 else t') (if c then t' else t1)); try done.
  - apply (own_index _ _ _ _ _ OX). left.
  - rewrite Pn. destruct c; solve_Permutation.
  - by destruct c.
  - by destruct c.
  - eapply own_ext; [| | exact P2]; [intros x Hx; apply (SN R); [left | lia] | intros q Hq; apply SN; by right].
  - etrans; [exact K0 | exact P3].
  - etrans; [exact K1 | exact P4].
  - destruct (view_trie V) as (_ & T2 & T3 & T4 & T5).
    destruct (P6 (d' + 1) ltac:(by destruct c)) as (Q1 & Q2 & Q3).
    assert (R ∈ nodes (if c then t1 else t0)) as HR by (rewrite P1; left).
    assert (forall q, q ∈ nodes t' -> q ∈ nodes (if c then t1 else t0)) as I by (intros q Hq; rewrite P1; clear - Hq; set_solver).
    destruct c; cbn [trie]; split_and!; try done; intros q Hq; (split; [by (apply T2 || apply T3); auto |]); auto.
    + intros E. destruct (T2 q Hq), (T3 R HR). congruence.
    + intros E. destruct (T3 q Hq), (T2 R HR). congruence.
Qed.

Lemma unlink_inner X (c : bool) t0 t1 d' par' a' C : (height t <= tree_fuel)%nat ->
  (if c then t1 else t0) <> Leaf -> (c = false -> t1 = Leaf) ->
  view sz b 0 (mem s) i H H t (Node X [] t0 t1) d' par' a' C -> unlinked s sz b i t X (unlink_large_chunk s X).
Proof.
  intros Hh Hc Hc' V. destruct (rep_node _ _ _ _ _ _ _ _ (view_rep V)) as (Ea & O & R0 & R1). set (tc := if c then t1 else t0) in *.
  assert (par' <> 0) as Np. { destruct (view_at V) as [(-> & _) | (c' & _ & _ & A2 & _)]; [lia | pose proof (sep_range _ _ St _ A2); lia]. }
  pose proof (sep_sub a' [] X [] t0 t1 c (view_sep V)) as Sc. fold tc in Sc. cbn [app] in Sc.
  pose proof (sep_range _ _ Sc _ (rootp_nodes _ Hc)) as Rr. pose proof (view_height V) as Hv. cbn [height] in Hv.
  destruct (rightmost_ok sz b (mem s) i tc tree_fuel X (slot X c)) as (RP & R & lR & t' & E & P); try done.
  { unfold tc. destruct c; lia. } { by unfold tc; destruct c. }
  unfold unlink_large_chunk, unlink_replacement. rewrite (proj2 (own_ring _ _ _ _ _ O)), Z.eqb_refl. cbn [negb].
  assert ((if negb (child (mem s) X 1 =? 0) then (X + 40, child (mem s) X 1) else (X + 32, child (mem s) X 0)) = (slot X c, rootp tc)) as ->.
  { assert (child (mem s) X 1 = rootp t1 /\ child (mem s) X 0 = rootp t0) as [-> ->] by (split; [apply (rep_root _ _ _ _ _ R1) | apply (rep_root _ _ _ _ _ R0)]).
    unfold tc in *. destruct c; [destruct (Z.eqb_spec (rootp t1) 0); [lia | done] |]. rewrite Hc' by done. done. }
  destruct (Z.eqb_spec (rootp tc) 0); [lia |]. cbn [negb]. rewrite E. cbn [mbind outcome_bind].
  assert (forall q, q ∈ nodes t' -> q ∈ nodes tc) as I' by (intros q Hq; rewrite (pruned_nodes _ _ _ _ _ _ _ _ _ _ _ P); clear - Hq; set_solver).
  assert (exists q c', q ∈ X :: nodes t' /\ RP = slot q c') as (q0 & c0 & Hq0 & E0).
  { destruct (pruned_at _ _ _ _ _ _ _ _ _ _ _ P) as [-> | (q & c' & Hq & ->)]; [exists X, c | exists q, c']; split; try done; [left | by right]. }
  assert (nodes (Node X [] t0 t1) ≡ₚ X :: nodes tc ++ nodes (if c then t0 else t1)) as Pn by (cbn; unfold tc; destruct c; solve_Permutation).
  assert (forall q, q ∈ X :: nodes t' -> q ∈ nodes (Node X [] t0 t1)) as I.
  { intros q Hq. rewrite Pn. clear - Hq I'. apply elem_of_cons in Hq as [-> | Hq%I']; set_solver. }
  rewrite ok_address_true. 2: { rewrite E0. pose proof (Lt _ (view_in V _ (I _ Hq0))). unfold slot. destruct c0; lia. }
  rewrite (own_parent _ _ _ _ _ O). destruct (Z.eqb_spec par' 0); [done |]. cbn [negb]. set (m1 := st (mem s) RP 0) in *.
  assert (touches (X :: nodes t') (mem s) m1) as T.
  { intros x Hx. apply st_out. specialize (Hx _ Hq0). rewrite E0. unfold slot. destruct c0; lia. }
  assert (touches_at (slot X c) (nodes tc) (mem s) m1) as T'.
  { apply st_touches. destruct (pruned_at _ _ _ _ _ _ _ _ _ _ _ P) as [-> | (q & c' & Hq & ->)]; [by left | right]. exists q, c'. auto. }
  destruct (node_frame _ _ _ _ _ _ _ _ _ [] c _ T' (view_sep V) ltac:(done) (view_rep V)) as (F1 & F2 & F3).
  apply (unlink_inner_finish X c t0 t1 d' par' a' C RP R lR t' m1); try done. eapply touches_mono; [| exact T]. done.
Qed.

(** unlink_large_chunk removes [X] from its trie, whatever its place. *)
Lemma unlink_large_ok X : X ∈ nodes t -> trie sz b 0 t -> (height t <= tree_fuel)%nat ->
  unlinked s sz b i t X (unlink_large_chunk s X).
Proof.
  intros HX T Hh. destruct (focus sz b (mem s) i X t 0 H H Rt St T HX) as (p & l & t0 & t1 & d' & par' & a' & C & Hp & V).
  apply elem_of_cons in Hp as [-> | Hp].
  - destruct l as [| R l0 _] using rev_ind; [| by apply (unlink_head_ring _ _ _ _ _ _ _ _ _ V)].
    destruct t1 as [| p1 l1 t10 t11]; [destruct t0 as [| p0 l0 t00 t01] |].
    + by apply (unlink_leaf _ _ _ _ _ V).
    + by apply (unlink_inner p false (Node p0 l0 t00 t01) Leaf _ _ _ _ Hh ltac:(done) ltac:(done) V).
    + by apply (unlink_inner p true t0 (Node p1 l1 t10 t11) _ _ _ _ Hh ltac:(done) ltac:(done) V).
  - apply list_elem_of_split in Hp as (l1 & l2 & ->). by apply (unlink_chained _ _ _ _ _ _ _ _ _ _ V).
Qed.

End unlink.

(** ** The tries of the bins *)

(** The highest bit by which the chunks of the bin [i] differ. *)
Definition top_bit (i : Z) : Z := if i =? 31 then 63 else Z.shiftr i 1 + 6.

Lemma leftshift_top_bit i : leftshift_for_tree_index i = 63 - top_bit i.
Proof. unfold leftshift_for_tree_index, top_bit. destruct (i =? 31); lia. Qed.

Lemma top_bit_range i : 0 <= i < 32 -> 6 <= top_bit i <= 63.
Proof.
  intros Hi. unfold top_bit. destruct (Z.eqb_spec i 31); [lia |]. rewrite Z.shiftr_div_pow2 by lia. change (2 ^ 1) with 2.
  pose proof (Z.div_pos i 2). pose proof (Z.div_le_upper_bound i 2 31). lia.
Qed.

Lemma insert_large_ok s sz X t :
  let i := compute_tree_index (sz X) in let H := treebin_at s i in
  0 <= i < 32 -> rep (mem s) i H H t -> sep H (X :: nodes t) -> 0 < H < 2 ^ 63 -> (height t <= tree_fuel)%nat ->
  (forall q, q ∈ X :: nodes t -> least_addr s <= q /\ chunksize (mem s) q = sz q) ->
  Z.testbit (treemap s) i = negb (is_leaf t) ->
  exists m', insert_large_chunk s X (sz X) = Ret (set_mem (if is_leaf t then mark_treemap s i else s) m') /\
    rep m' i H H (tinsert sz (top_bit i) 0 X t) /\ touches_at H (X :: nodes t) (mem s) m'.
Proof.
  intros i H Hi R S HH Hh Hr Ht. unfold insert_large_chunk. fold i. cbn zeta.
  set (m1 := set_child _ X 0 0). pose proof (sep_range _ _ S X ltac:(left)) as RX.
  assert (touches [X] (mem s) m1) as T1 by (intros x Hx; specialize (Hx X ltac:(left)); unfold m1; mem_fields; mem_out; done).
  assert (index m1 X = i /\ child m1 X 0 = 0 /\ child m1 X 1 = 0) as (I1 & I2 & I3).
  { unfold m1. mem_fields. split_and!; by mem_read. }
  unfold treemap_is_marked. cbn [treemap set_mem]. rewrite map_marked, Ht by done.
  destruct t as [| p l t0 t1]; cbn [is_leaf negb].
  - destruct (hang_ok m1 i H H X S) as [G1 G2]; try done; [unfold in_range; lia |].
    exists (hang m1 H X H). split_and!; [done | exact G1 |]. intros x Hx Hx'. rewrite G2; [by apply T1 | done | apply Hx'; left].
  - assert (rep m1 i H H (Node p l t0 t1)) as R1.
    { eapply rep_touches; [exact T1 | exact S | | | | exact R]; [clear; set_solver.. |].
      assert (NoDup (X :: nodes (Node p l t0 t1))) as [N _]%NoDup_cons by apply S. intros q Hq ->%list_elem_of_singleton. done. }
    cbn [mem set_mem]. fold H. rewrite (rep_root _ _ _ _ _ R1), leftshift_top_bit.
    replace (63 - top_bit i) with (63 - top_bit i + 0) by lia. fold (Kbits (sz X) (top_bit i) 0).
    destruct (insert_loop_ok (set_mem s m1) sz X (top_bit i) i (Node p l t0 t1) tree_fuel H H 0) as (m' & E & Q1 & Q2); try done.
    + by apply top_bit_range.
    + intros q Hq. destruct (Hr q Hq) as [Hq1 <-]. split; [done |]. unfold chunksize, head. f_equal. cbn [mem set_mem].
      unfold m1. mem_fields. destruct (sep_far _ _ S q X Hq ltac:(left)) as [-> |]; by mem_read.
    + exists m'. split_and!; [done | done |]. intros x Hx Hx'. rewrite Q2 by done. apply T1. intros q ->%list_elem_of_singleton. apply Hx'. left.
Qed.

End Trie.
