(* ===== verification/DlFree.v ===== *)
(** * kernel/dlmalloc.cc: the set of free chunks

    [bins s F] relates the bins of a space to the map [F] of its free chunks with their
    sizes: each chunk is in the bin of its size and in no other, and the bit maps tell which
    bins are not empty.  The lemmas show that inserting and unlinking a chunk
    change [F] in the same way, cannot fail, and write only to the bins and into
    free chunks. *)

From S2P Require Import Prelude DlHeap DlBins DlTrie.

#[local] Ltac Zify.zify_post_hook ::= Z.to_euclidean_division_equations.

Module Free.
Import Chunk Bins Trie.

(** ** Sizes and bins *)

Lemma is_small_spec z : is_small z = bool_decide (z < 256).
Proof.
  unfold is_small. rewrite Z.shiftr_div_pow2 by lia. change (2 ^ 3) with 8. rewrite bool_decide_decide.
  destruct decide, (Z.ltb_spec (z / 8) 32); try done; lia.
Qed.

Lemma small_index_spec z : 0 <= z < 256 -> small_index z = z / 8.
Proof.
  intros Hz. unfold small_index, u32. rewrite Z.shiftr_div_pow2 by lia. apply wrap_small. change (2 ^ 3) with 8. unfold in_range. lia.
Qed.

(** The least size in the bin [i]. *)
Definition low (i : Z) : Z := (2 + i mod 2) * 2 ^ (i / 2 + 7).

Lemma tree_index_spec z : 256 <= z < 2 ^ 40 ->
  let i := compute_tree_index z in 0 <= i < 32 /\ low i <= z /\ (i < 31 -> z / 2 ^ (i / 2 + 7) = 2 + i mod 2).
Proof.
  intros Hz. cbn zeta. unfold compute_tree_index, low.
  assert (u32 (Z.shiftr z 8) = z / 256) as ->.
  { unfold u32. rewrite Z.shiftr_div_pow2 by lia. apply wrap_small. change (2 ^ 8) with 256. unfold in_range. lia. }
  set (x := z / 256). assert (1 <= x /\ x * 256 <= z < x * 256 + 256) as [Hx1 Hx2] by (unfold x; lia). clearbody x.
  destruct (Z.eqb_spec x 0); [lia |]. destruct (Z.gtb_spec x 0xFFFF) as [G | G].
  { change ((2 + 31 mod 2) * 2 ^ (31 / 2 + 7)) with 12582912. lia. }
  set (k := Z.log2 x). assert (2 ^ k <= x < 2 ^ (k + 1)) as [K1 K2] by (apply Z.log2_spec; lia).
  assert (0 <= k < 16) as Rk by (split; [apply Z.log2_nonneg | apply Z.log2_lt_pow2; [lia |]; change (2 ^ 16) with 65536; lia]).
  rewrite Z.shiftr_div_pow2, Z.shiftl_mul_pow2 by lia. change (2 ^ 1) with 2. set (q := z / 2 ^ (k + 7)).
  assert (Z.land q 1 = q mod 2) as -> by (apply (Z.land_ones q 1); lia).
  assert (2 ^ (k + 8) = 2 * 2 ^ (k + 7)) as E8 by (rewrite <- Z.pow_succ_r by lia; f_equal; lia).
  assert (2 ^ (k + 8) = 256 * 2 ^ k) as E8' by (rewrite Z.pow_add_r by lia; lia).
  assert (2 ^ (k + 1) = 2 * 2 ^ k) as E1 by (rewrite Z.pow_add_r by lia; lia).
  assert (0 < 2 ^ (k + 7)) as P7 by (apply Z.pow_pos_nonneg; lia).
  assert (2 <= q < 4) as Hq. { unfold q. split; [apply Z.div_le_lower_bound; lia | apply Z.div_lt_upper_bound; lia]. }
  assert ((k * 2 + q mod 2) / 2 = k /\ (k * 2 + q mod 2) mod 2 = q mod 2) as [-> ->] by lia.
  assert (q * 2 ^ (k + 7) <= z) by (unfold q; rewrite Z.mul_comm; apply Z.mul_div_le; lia).
  assert (2 + q mod 2 = q) as Eq by lia. rewrite Eq. fold q. split_and!; lia.
Qed.

Lemma low_mono i j : 0 <= i -> i <= j -> low i <= low j.
Proof.
  intros Hi Hij. unfold low. destruct (decide (i / 2 = j / 2)) as [E | N].
  - rewrite E. apply Z.mul_le_mono_nonneg_r; [apply Z.pow_nonneg; lia | lia].
  - assert (2 ^ (j / 2 + 7) = 2 ^ (j / 2 - i / 2 - 1) * (2 * 2 ^ (i / 2 + 7))) as ->.
    { rewrite <- Z.pow_succ_r, <- Z.pow_add_r by lia. f_equal. lia. }
    assert (1 <= 2 ^ (j / 2 - i / 2 - 1)) by (pose proof (Z.pow_pos_nonneg 2 (j / 2 - i / 2 - 1)); lia).
    assert (0 < 2 ^ (i / 2 + 7)) by (apply Z.pow_pos_nonneg; lia). pose proof (Z.mod_pos_bound i 2). pose proof (Z.mod_pos_bound j 2). nia.
Qed.

Lemma below_low z i : 0 <= i -> z / 2 ^ (i / 2 + 7) = 2 + i mod 2 -> z < low (i + 1).
Proof.
  intros Hi E. unfold low. assert (0 < 2 ^ (i / 2 + 7)) as P by (apply Z.pow_pos_nonneg; lia).
  assert (z < (3 + i mod 2) * 2 ^ (i / 2 + 7)).
  { pose proof (Z.mul_succ_div_gt z _ P) as G. rewrite E in G. lia. }
  destruct (decide (i mod 2 = 0)) as [M | M].
  - replace ((i + 1) / 2) with (i / 2) by lia. replace ((i + 1) mod 2) with 1 by lia. rewrite M in *. lia.
  - replace ((i + 1) / 2 + 7) with (Z.succ (i / 2 + 7)) by lia. rewrite Z.pow_succ_r by lia. replace ((i + 1) mod 2) with 0 by lia.
    assert (i mod 2 = 1) as M' by lia. rewrite M' in *. lia.
Qed.

(** The chunks of a bin are larger than those of the bins before. *)
Lemma tree_index_mono z z' : 256 <= z < 2 ^ 40 -> 256 <= z' < 2 ^ 40 -> compute_tree_index z < compute_tree_index z' -> z < z'.
Proof.
  intros Hz Hz' L. destruct (tree_index_spec z Hz) as (R & _ & E), (tree_index_spec z' Hz') as (R' & G & _).
  pose proof (below_low z (compute_tree_index z) ltac:(lia) (E ltac:(lia))). pose proof (low_mono (compute_tree_index z + 1) (compute_tree_index z') ltac:(lia) ltac:(lia)). lia.
Qed.

(** The sizes of a bin agree on the bits above the highest that the trie tests. *)
Lemma tree_index_bits z z' j : 256 <= z < 2 ^ 40 -> 256 <= z' < 2 ^ 40 -> compute_tree_index z = compute_tree_index z' ->
  top_bit (compute_tree_index z) < j -> Z.testbit z j = Z.testbit z' j.
Proof.
  intros Hz Hz' E. destruct (tree_index_spec z Hz) as (R & _ & Q), (tree_index_spec z' Hz') as (_ & _ & Q'). rewrite <- E in Q'.
  clear E. set (i := compute_tree_index z) in *. clearbody i. unfold top_bit. destruct (Z.eqb_spec i 31) as [-> | N]; intros Hj.
  - cbn in Hj. rewrite (testbit_high 40 z), (testbit_high 40 z') by (unfold in_range; lia). done.
  - rewrite Z.shiftr_div_pow2 in Hj by lia. change (2 ^ 1) with 2 in Hj. specialize (Q ltac:(lia)). specialize (Q' ltac:(lia)).
    replace j with ((j - (i / 2 + 7)) + (i / 2 + 7)) by lia. rewrite <- !Z.shiftr_spec, !Z.shiftr_div_pow2, Q, Q' by lia. done.
Qed.

(** ** The free chunks *)

(** The bin of a size: 0 to 31 are the small ones, 32 to 63 the tries. *)
Definition bin_of (z : Z) : Z := if is_small z then small_index z else 32 + compute_tree_index z.

Definition header_size : Z := 944.

(** The chunks of [F] are behind the state, large enough, aligned in size, apart, and have their
    size in their head. *)
Record wf (s : mstate) (F : gmap Z Z) : Prop := {
  wf_self : 0 < self s < 2 ^ 62;
  wf_maps : in_range 32 (smallmap s) /\ in_range 32 (treemap s);
  wf_chunk : forall p z, F !! p = Some z -> self s + header_size <= p /\ least_addr s <= p /\ (32 | z) /\ 32 <= z < 2 ^ 40 /\ p + z < 2 ^ 63;
  wf_apart : forall p z q y, F !! p = Some z -> F !! q = Some y -> p <> q -> p + z <= q \/ q + y <= p;
  wf_head : forall p z, F !! p = Some z -> chunksize (mem s) p = z }.

Definition sizes (F : gmap Z Z) (p : Z) : Z := default 0 (F !! p).

(** The small bin [i] is a ring of its chunks; its header is stale when the bit is clear. *)
Definition small_bin (s : mstate) (F : gmap Z Z) (i : Z) : Prop :=
  exists l, NoDup l /\ (forall p, p ∈ l <-> exists z, F !! p = Some z /\ bin_of z = i) /\
    Z.testbit (smallmap s) i = bool_decide (l <> []) /\ (l <> [] -> chain (mem s) (smallbin_at s i) l (smallbin_at s i)).

(** The tree bin [i] is a trie of its chunks. *)
Definition tree_bin (s : mstate) (F : gmap Z Z) (i : Z) : Prop :=
  exists t, NoDup (nodes t) /\ (forall p, p ∈ nodes t <-> exists z, F !! p = Some z /\ bin_of z = 32 + i) /\
    Z.testbit (treemap s) i = negb (is_leaf t) /\ rep (mem s) i (treebin_at s i) (treebin_at s i) t /\
    trie (sizes F) (top_bit i) 0 t.

Definition bins (s : mstate) (F : gmap Z Z) : Prop :=
  wf s F /\ forall i, 0 <= i < 32 -> small_bin s F i /\ tree_bin s F i.

(** The bytes that the bin [k] is made of. *)
Definition header_bytes (s : mstate) (k x : Z) : Prop :=
  if decide (k < 32) then self s + 88 + 16 * k <= x < self s + 104 + 16 * k
  else self s + 600 + 8 * (k - 32) <= x < self s + 608 + 8 * (k - 32).
Definition bytes (s : mstate) (F : gmap Z Z) (k x : Z) : Prop :=
  header_bytes s k x \/ exists p z, F !! p = Some z /\ bin_of z = k /\ p + 16 <= x < p + z.

(** The bytes of all bins. *)
Definition links (s : mstate) (F : gmap Z Z) (x : Z) : Prop :=
  self s <= x < self s + header_size \/ exists p z, F !! p = Some z /\ p + 16 <= x < p + z.

Lemma bin_of_cases z : 32 <= z < 2 ^ 40 -> (32 | z) ->
  (z < 256 /\ bin_of z = z / 8 /\ 4 <= bin_of z < 32 /\ z = 8 * bin_of z) \/ (256 <= z /\ bin_of z = 32 + compute_tree_index z /\ 32 <= bin_of z < 64).
Proof.
  intros Hz [k Hk]. unfold bin_of. rewrite is_small_spec. destruct (decide (z < 256)) as [L | L].
  - left. rewrite bool_decide_eq_true_2 by done. rewrite small_index_spec by lia. split_and!; lia.
  - right. rewrite bool_decide_eq_false_2 by done. destruct (tree_index_spec z ltac:(lia)) as (R & _). lia.
Qed.

Lemma bytes_apart s F k j x : wf s F -> 0 <= k < 64 -> 0 <= j < 64 -> k <> j -> bytes s F k x -> bytes s F j x -> False.
Proof.
  intros W Hk Hj N B1 B2. unfold bytes, header_bytes in *.
  destruct B1 as [B1 | (p & z & E1 & K1 & B1)], B2 as [B2 | (q & y & E2 & K2 & B2)].
  - revert B1 B2. repeat case_decide; lia.
  - destruct (wf_chunk _ _ W q y E2) as (P & _). unfold header_size in P. revert B1. case_decide; lia.
  - destruct (wf_chunk _ _ W p z E1) as (P & _). unfold header_size in P. revert B2. case_decide; lia.
  - destruct (wf_apart _ _ W p z q y E1 E2) as [D | D]; [intros -> | lia | lia]. congruence.
Qed.

Lemma bytes_links s F k x : 0 <= k < 64 -> bytes s F k x -> links s F x.
Proof.
  intros Hk [B | (p & z & E & _ & B)]; [left | right; eauto]. revert B. unfold header_bytes, header_size. case_decide; lia.
Qed.

(** ** What an operation on one bin leaves *)

(** The states differ in the maps of bins and, in memory, only where [P] holds. *)
Definition moved (s s' : mstate) (P : Z -> Prop) : Prop :=
  (exists sm tm m', s' = set_mem (set_smallmap (set_treemap s tm) sm) m') /\ forall x, ~ P x -> mem s' x = mem s x.

Lemma small_bin_frame s s' F F' i : 0 <= i < 32 -> wf s F -> self s' = self s ->
  Z.testbit (smallmap s') i = Z.testbit (smallmap s) i ->
  (forall p z, bin_of z = i -> F' !! p = Some z <-> F !! p = Some z) -> (forall x, bytes s F i x -> mem s' x = mem s x) ->
  small_bin s F i -> small_bin s' F' i.
Proof.
  intros Hi W Es Eb EF Em (l & N & L & B & C). exists l. split_and!; [done | | congruence |].
  - intros p. rewrite L. split; intros (z & H1 & H2); exists z; (split; [by apply EF | done]).
  - intros Hl. unfold smallbin_at in *. rewrite Es. set (B0 := self s + 72 + 16 * i) in *.
    assert (forall q, q ∈ B0 :: l -> fd (mem s') q = fd (mem s) q /\ bk (mem s') q = bk (mem s) q) as E.
    { intros q Hq. assert (forall x, q + 16 <= x < q + 32 -> mem s' x = mem s x) as G.
      { intros x Hx. apply Em. apply elem_of_cons in Hq as [-> | Hq%L].
        - left. unfold header_bytes. rewrite decide_True by lia. unfold B0 in Hx. lia.
        - right. destruct Hq as (z & H1 & H2). exists q, z. destruct (wf_chunk _ _ W q z H1) as (_ & _ & _ & ? & _). split_and!; try done; lia. }
      split; apply ld_ext; intros x Hx; apply G; lia. }
    eapply chain_ext; [| | exact (C Hl)]; intros x Hx; apply E; clear - Hx; set_solver.
Qed.

Lemma tree_bin_frame s s' F F' i : 0 <= i < 32 -> wf s F -> self s' = self s ->
  Z.testbit (treemap s') i = Z.testbit (treemap s) i ->
  (forall p z, bin_of z = 32 + i -> F' !! p = Some z <-> F !! p = Some z) -> (forall x, bytes s F (32 + i) x -> mem s' x = mem s x) ->
  tree_bin s F i -> tree_bin s' F' i.
Proof.
  intros Hi W Es Eb EF Em (t & N & L & B & R & T). exists t. split_and!; [done | | congruence | |].
  - intros p. rewrite L. split; intros (z & H1 & H2); exists z; (split; [by apply EF | done]).
  - unfold treebin_at in *. rewrite Es. eapply rep_ext; [| | exact R].
    + intros x Hx. apply Em. left. unfold header_bytes. rewrite decide_False by lia. lia.
    + intros q Hq x Hx. apply Em. right. apply L in Hq as (z & H1 & H2). exists q, z. split_and!; try done; [lia |].
      destruct (wf_chunk _ _ W q z H1) as (_ & _ & Hd & Hz & _). destruct (bin_of_cases z Hz Hd); lia.
  - eapply trie_ext; [| exact T]. intros q Hq. unfold sizes. apply L in Hq as (z & H1 & H2). apply EF in H1 as H1'; [| done]. by rewrite H1, H1'.
Qed.

(** An operation on the bin [k] that leaves the bytes and bits of the others. *)
Lemma bins_update s s' F F' k : bins s F -> wf s' F' -> self s' = self s -> 
  (forall p z, bin_of z <> k -> F' !! p = Some z <-> F !! p = Some z) ->
  (forall i, 0 <= i < 32 -> i <> k -> Z.testbit (smallmap s') i = Z.testbit (smallmap s) i) ->
  (forall i, 0 <= i < 32 -> 32 + i <> k -> Z.testbit (treemap s') i = Z.testbit (treemap s) i) ->
  (forall j x, 0 <= j < 64 -> j <> k -> bytes s F j x -> mem s' x = mem s x) ->
  (forall i, 0 <= i < 32 -> k = i -> small_bin s' F' i) -> (forall i, 0 <= i < 32 -> k = 32 + i -> tree_bin s' F' i) ->
  bins s' F'.
Proof.
  intros [W B] W' Es EF E1 E2 Em H1 H2. split; [done |]. intros i Hi. destruct (B i Hi) as [Bs Bt]. split.
  - destruct (decide (k = i)); [by apply H1 |]. eapply (small_bin_frame s); try done; [apply E1; lia | intros p z Hz; apply EF; lia |].
    intros x Hx. apply (Em i); (done || lia).
  - destruct (decide (k = 32 + i)); [by apply H2 |]. eapply (tree_bin_frame s); try done; [apply E2; lia | intros p z Hz; apply EF; lia |].
    intros x Hx. apply (Em (32 + i)); (done || lia).
Qed.

(** Heads of chunks are not links. *)
Lemma head_not_link s F p z x : wf s F -> F !! p = Some z -> p <= x < p + 16 -> ~ links s F x.
Proof.
  intros W E Hx [L | (q & y & Eq & L)].
  - destruct (wf_chunk _ _ W p z E) as (P & _). lia.
  - destruct (decide (p = q)) as [-> |]; [rewrite Eq in E; simplify_eq; lia |].
    destruct (wf_chunk _ _ W p z E) as (_ & _ & _ & Z1 & _). destruct (wf_apart _ _ W p z q y E Eq) as [D | D]; [done | lia | lia].
Qed.

Lemma wf_moved s s' F F' : wf s F -> F' ⊆ F -> moved s s' (links s F) -> in_range 32 (smallmap s') -> in_range 32 (treemap s') -> wf s' F'.
Proof.
  intros W I [(sm & tm & m' & ->) M] R1 R2. split; try done.
  - apply W.
  - intros p z E. apply (wf_chunk _ _ W), (lookup_weaken _ _ _ _ E I).
  - intros p z q y E1 E2. apply (wf_apart _ _ W); by eapply lookup_weaken.
  - intros p z E. pose proof (lookup_weaken _ _ _ _ E I) as E'. rewrite <- (wf_head _ _ W p z E'). unfold chunksize, head. f_equal.
    apply ld_ext. intros x Hx. apply M. apply (head_not_link _ _ p z); auto; lia.
Qed.

(** Bytes written for one bin of [F] are apart from the other bins. *)
Lemma moved_apart s s' F F0 k : wf s F -> F0 ⊆ F -> 0 <= k < 64 -> moved s s' (bytes s F k) ->
  forall j x, 0 <= j < 64 -> j <> k -> bytes s F0 j x -> mem s' x = mem s x.
Proof.
  intros W I Hk [_ M] j x Hj N B. apply M. intros B'. apply (bytes_apart s F k j x); auto.
  destruct B as [B | (p & z & E & B)]; [by left | right]. exists p, z. split; [| done]. by eapply lookup_weaken.
Qed.

Lemma moved_mono s s' (P Q : Z -> Prop) : (forall x, P x -> Q x) -> moved s s' P -> moved s s' Q.
Proof. intros I [E M]. split; [done |]. intros x Hx. apply M. auto. Qed.

Lemma bins_step s s' F F' Fu k : bins s F -> wf s Fu -> F ⊆ Fu -> F' ⊆ Fu -> 0 <= k < 64 -> moved s s' (bytes s Fu k) ->
  in_range 32 (smallmap s') -> in_range 32 (treemap s') ->
  (forall p z, bin_of z <> k -> F' !! p = Some z <-> F !! p = Some z) ->
  (forall i, 0 <= i < 32 -> i <> k -> Z.testbit (smallmap s') i = Z.testbit (smallmap s) i) ->
  (forall i, 0 <= i < 32 -> 32 + i <> k -> Z.testbit (treemap s') i = Z.testbit (treemap s) i) ->
  (forall i, 0 <= i < 32 -> k = i -> small_bin s' F' i) -> (forall i, 0 <= i < 32 -> k = 32 + i -> tree_bin s' F' i) ->
  bins s' F' /\ moved s s' (links s Fu).
Proof.
  intros B W I I' Hk M R1 R2 EF E1 E2 H1 H2.
  assert (moved s s' (links s Fu)) as ML by (eapply moved_mono; [| exact M]; intros x; by apply bytes_links).
  split; [| done]. eapply bins_update; [exact B | | | exact EF | exact E1 | exact E2 | | exact H1 | exact H2].
  - by eapply wf_moved.
  - by destruct M as [(sm & tm & m' & ->) _].
  - eapply moved_apart; eauto.
Qed.

(** ** Small bins *)

Lemma ring_apart s F i l : wf s F -> 0 <= i < 32 -> (forall p, p ∈ l -> is_Some (F !! p)) ->
  (forall x y, x ∈ smallbin_at s i :: l -> y ∈ smallbin_at s i :: l -> apart x y) /\
  (forall x, x ∈ smallbin_at s i :: l -> in_range 64 x) /\ smallbin_at s i ∉ l.
Proof.
  intros W Hi L. unfold apart, smallbin_at, in_range in *. pose proof (wf_self _ _ W).
  assert (forall p, p ∈ l -> self s + 944 <= p < 2 ^ 63) as P.
  { intros p Hp. destruct (L p Hp) as [z E]. destruct (wf_chunk _ _ W p z E) as (? & _ & _ & ? & ?). unfold header_size in *. lia. }
  split_and!.
  - intros x y [-> | Hx]%elem_of_cons [-> | Hy]%elem_of_cons; [by left | specialize (P y Hy); lia | specialize (P x Hx); lia |].
    destruct (decide (x = y)); [by left | right]. destruct (L x Hx) as [z Ez], (L y Hy) as [w Ew].
    destruct (wf_chunk _ _ W x z Ez) as (_ & _ & _ & ? & _), (wf_chunk _ _ W y w Ew) as (_ & _ & _ & ? & _).
    destruct (wf_apart _ _ W x z y w Ez Ew); [done | lia | lia].
  - intros x [-> | Hx]%elem_of_cons; [lia |]. specialize (P x Hx). lia.
  - intros Hx%P. lia.
Qed.

(** Writing links of the ring of a bin. *)
Lemma ring_bytes s F i p o : wf s F -> 0 <= i < 32 -> p = smallbin_at s i \/ (exists z, F !! p = Some z /\ bin_of z = i) -> o = 16 \/ o = 24 ->
  forall x, ~ bytes s F i x -> x < p + o \/ p + o + 8 <= x.
Proof.
  intros W Hi Hp Ho x Hx. destruct (decide (x < p + o \/ p + o + 8 <= x)) as [| N]; [done |]. exfalso. apply Hx. destruct Hp as [-> | (z & E & K)].
  - left. unfold header_bytes, smallbin_at in *. rewrite decide_True by lia. lia.
  - right. exists p, z. destruct (wf_chunk _ _ W p z E) as (_ & _ & _ & ? & _). split_and!; (done || lia).
Qed.

Lemma insert_small_ok s F X z : bins s F -> F !! X = None -> wf s (<[X := z]> F) -> z < 256 ->
  exists s', insert_small_chunk s X z = Ret s' /\ bins s' (<[X := z]> F) /\ moved s s' (links s (<[X := z]> F)).
Proof.
  intros B Fx W Hz. destruct (wf_chunk _ _ W X z ltac:(by rewrite lookup_insert_eq)) as (X1 & X2 & X3 & X4 & X5).
  assert (bin_of z = small_index z) as Ek by (unfold bin_of; rewrite is_small_spec, bool_decide_eq_true_2 by done; done).
  destruct (bin_of_cases z X4 X3) as [(_ & _ & Ki & _) | ]; [| lia]. rewrite Ek in Ki. set (i := small_index z) in *.
  destruct (proj2 B i ltac:(lia)) as [(l & N & L & Bt & C) _]. set (H := smallbin_at s i) in *.
  assert (forall p, p ∈ X :: l <-> exists y, <[X := z]> F !! p = Some y /\ bin_of y = i) as L'.
  { intros p. rewrite elem_of_cons, L. destruct (decide (p = X)) as [-> | NX].
    - rewrite lookup_insert_eq. split; [intros _; by exists z | by left].
    - rewrite lookup_insert_ne by done. split; [intros [| ?]; done | by right]. }
  destruct (ring_apart s _ i (X :: l) W ltac:(lia)) as (A & V & NH); [intros p (y & E & _)%L'; by exists y |]. fold H in A, V, NH.
  assert (X ∉ l) as NX by (intros (y & E & _)%L; congruence).
  set (Fp := default H (list.head l)).
  assert (Fp ∈ H :: X :: l) as HF by (unfold Fp; clear; destruct l; set_solver).
  set (m' := set_bk (set_fd (set_bk (set_fd (mem s) H X) Fp X) X Fp) X H).
  assert (exists sm, insert_small_chunk s X z = Ret (set_mem (set_smallmap s sm) m') /\ in_range 32 sm /\
    forall j, 0 <= j -> Z.testbit sm j = (i =? j) || Z.testbit (smallmap s) j) as (sm & ES & Rs & Bs).
  { unfold insert_small_chunk. fold i. fold H. unfold smallmap_is_marked. rewrite map_marked, Bt by lia. destruct l as [| y l'].
    - exists (Z.lor (smallmap s) (idx2bit i)). rewrite bool_decide_eq_false_2 by (intros ?; done). cbn [negb mbind outcome_bind].
      split_and!; [done | apply map_mark_range; [lia | apply B] |]. intros j Hj. apply map_mark; lia.
    - exists (smallmap s). rewrite bool_decide_eq_true_2 by done. cbn [negb]. rewrite (chain_first _ _ _ _ (C ltac:(done))). cbn [list.head default from_option id].
      destruct (proj1 (L y) ltac:(left)) as (w & Ew & _). rewrite ok_address_true by (apply (wf_chunk _ _ (proj1 B) y w Ew)).
      cbn [mbind outcome_bind]. split_and!; [by destruct s | apply B |]. intros j Hj. destruct (Z.eqb_spec i j) as [-> |]; [| done].
      rewrite Bt. by rewrite bool_decide_eq_true_2. }
  exists (set_mem (set_smallmap s sm) m'). split; [done |]. apply (bins_step s _ F _ (<[X := z]> F) i); try done.
  - by apply insert_subseteq.
  - lia.
  - split; [by exists sm, (treemap s), m'; destruct s |]. intros x Hx.
    assert (forall p, p ∈ H :: X :: l -> p = H \/ exists y, <[X := z]> F !! p = Some y /\ bin_of y = i) as M
      by (intros p [-> | Hp%L']%elem_of_cons; [by left | by right]).
    unfold m'. cbn [mem set_mem]. mem_fields. rewrite !st_out; try done;
      (eapply ring_bytes; [exact W | | apply M; (done || clear; set_solver) | tauto | exact Hx]; lia).
  - apply B.
  - intros p y Hy. destruct (decide (p = X)) as [-> |]; [| by rewrite lookup_insert_ne]. rewrite lookup_insert_eq, Fx. split; [intros; simplify_eq | done].
  - intros j Hj Nj. cbn [smallmap set_mem set_smallmap]. rewrite Bs by lia. destruct (Z.eqb_spec i j); [by subst | done].
  - intros j Hj <-. exists (X :: l). split_and!; [by constructor | done | |].
    + cbn [smallmap set_mem set_smallmap]. rewrite Bs, Z.eqb_refl, bool_decide_eq_true_2 by (done || lia). done.
    + intros _. change (chain m' H (X :: l) H). apply (ring_insert (mem s)); [| exact C |].
      * constructor; [done |]. by constructor.
      * intros q Hq. fold Fp. unfold m'. assert (forall r, r ∈ H :: X :: l -> apart r q) as Aq by (intros r Hr; by apply A).
        rewrite fd_set_bk, fd_set_fd, fd_set_bk, fd_set_fd, bk_set_bk, bk_set_fd, bk_set_bk, bk_set_fd by
          (first [apply Aq | apply V]; (done || clear; set_solver)). done.
  - intros j Hj. lia.
Qed.

(** The chunk [X] leaves the ring of its bin. *)
Definition small_out (s : mstate) (i X : Z) (rest : list Z) : mstate :=
  if decide (rest = []) then clear_smallmap s i else set_mem s (link_out (mem s) (fd (mem s) X) (bk (mem s) X)).

Lemma delete_bin (F : gmap Z Z) X z k : F !! X = Some z -> bin_of z = k -> forall p y, bin_of y <> k -> delete X F !! p = Some y <-> F !! p = Some y.
Proof.
  intros E K p y N. destruct (decide (p = X)) as [-> |]; [| by rewrite lookup_delete_ne]. rewrite lookup_delete_eq, E. split; intros; simplify_eq.
Qed.

Lemma delete_members (F : gmap Z Z) X z k (L L' : list Z) : F !! X = Some z -> bin_of z = k -> L ≡ₚ X :: L' -> NoDup L ->
  (forall p, p ∈ L <-> exists y, F !! p = Some y /\ bin_of y = k) -> forall p, p ∈ L' <-> exists y, delete X F !! p = Some y /\ bin_of y = k.
Proof.
  intros E K P N H p. rewrite P in N. apply NoDup_cons in N as [NX N]. destruct (decide (p = X)) as [-> | NE].
  - rewrite lookup_delete_eq. split; [done | by intros (? & ? & _)].
  - rewrite lookup_delete_ne by done. rewrite <- H, P, elem_of_cons. tauto.
Qed.

Lemma small_out_ok s F X z i l1 l2 : bins s F -> F !! X = Some z -> bin_of z = i -> 0 <= i < 32 -> NoDup (l1 ++ X :: l2) ->
  (forall p, p ∈ l1 ++ X :: l2 <-> exists y, F !! p = Some y /\ bin_of y = i) ->
  chain (mem s) (smallbin_at s i) (l1 ++ X :: l2) (smallbin_at s i) -> Z.testbit (smallmap s) i = true ->
  let s' := small_out s i X (l1 ++ l2) in bins s' (delete X F) /\ moved s s' (links s F).
Proof.
  intros B E K Hi N L C Bt s'. set (H := smallbin_at s i) in *.
  destruct (ring_apart s F i (l1 ++ X :: l2) (proj1 B) Hi) as (A & V & NH); [intros p (y & Ey & _)%L; by exists y |]. fold H in A, V, NH.
  destruct (chain_neighbours _ _ _ _ _ _ C) as (E1 & E2 & _).
  assert (fd (mem s) X ∈ H :: l1 ++ X :: l2) as HF by (rewrite E1; clear; destruct l2; set_solver).
  assert (bk (mem s) X ∈ H :: l1 ++ X :: l2) as HB. { rewrite E2. clear. destruct (last l1) eqn:Q; [apply last_Some_elem_of in Q |]; set_solver. }
  assert (forall j, 0 <= j < 32 -> Z.testbit (smallmap s') j = (if decide (l1 ++ l2 = []) then negb (i =? j) else true) && Z.testbit (smallmap s) j) as Bs.
  { intros j Hj. unfold s', small_out. case_decide; [apply map_clear; lia | done]. }
  apply (bins_step s s' F _ F i); try done.
  - apply B.
  - apply delete_subseteq.
  - lia.
  - unfold s', small_out. case_decide; [split; [by exists (Z.ldiff (smallmap s) (idx2bit i)), (treemap s), (mem s); destruct s | done] |].
    split; [by eexists (smallmap s), (treemap s), _; destruct s |]. intros x Hx. unfold link_out. cbn [mem set_mem]. mem_fields.
    assert (forall p, p ∈ H :: l1 ++ X :: l2 -> p = H \/ exists y, F !! p = Some y /\ bin_of y = i) as M
      by (intros p [-> | Hp%L]%elem_of_cons; [by left | by right]).
    rewrite !st_out; [done | |]; (eapply ring_bytes; [apply B | exact Hi | by apply M | tauto | exact Hx]).
  - unfold s', small_out. case_decide; [apply map_clear_range, B | apply B].
  - unfold s', small_out. case_decide; apply B.
  - by apply (delete_bin F X z).
  - intros j Hj Nj. rewrite Bs by done. case_decide; [destruct (Z.eqb_spec i j); [by subst | done] | done].
  - intros j Hj _. unfold s', small_out. by case_decide.
  - intros j Hj <-. exists (l1 ++ l2). split_and!.
    + apply NoDup_app in N as (N1 & N12 & [_ N2]%NoDup_cons). apply NoDup_app. split_and!; [done | clear - N12; set_solver | done].
    + apply (delete_members F X z _ (l1 ++ X :: l2)); try done. solve_Permutation.
    + rewrite Bs, Bt by done. destruct (decide (l1 ++ l2 = [])); [rewrite Z.eqb_refl, bool_decide_eq_false_2 by tauto; done | by rewrite bool_decide_eq_true_2].
    + intros NE. assert (s' = set_mem s (link_out (mem s) (fd (mem s) X) (bk (mem s) X))) as -> by (unfold s', small_out; by rewrite decide_False).
      change (chain (link_out (mem s) (fd (mem s) X) (bk (mem s) X)) H (l1 ++ l2) H). apply link_out_chain; try done.
      * intros x y Hx Hy. apply A; [clear - Hx | clear - Hy]; set_solver.
      * intros x Hx. apply V. clear - Hx. set_solver.
  - lia.
Qed.

(** The neighbours of a chunk in the ring of a small bin. *)
Lemma small_neighbours s F i l1 X l2 : wf s F -> 0 <= i < 32 -> NoDup (l1 ++ X :: l2) ->
  (forall p, p ∈ l1 ++ X :: l2 <-> exists y, F !! p = Some y /\ bin_of y = i) ->
  chain (mem s) (smallbin_at s i) (l1 ++ X :: l2) (smallbin_at s i) ->
  let H := smallbin_at s i in let f := fd (mem s) X in let b := bk (mem s) X in
  (f = H \/ least_addr s <= f /\ bk (mem s) f = X) /\ (b = H \/ least_addr s <= b /\ fd (mem s) b = X) /\
  (b = f <-> l1 ++ l2 = []).
Proof.
  intros W Hi N L C H f b. destruct (ring_apart s F i (l1 ++ X :: l2) W Hi) as (_ & _ & NH); [intros p (y & Ey & _)%L; by exists y |].
  destruct (chain_neighbours _ _ _ _ _ _ C) as (E1 & E2 & E3 & E4). fold f b H in E1, E2, E3, E4, NH.
  assert (forall p, p ∈ l1 ++ X :: l2 -> least_addr s <= p) as La by (intros p (y & Ey & _)%L; apply (wf_chunk _ _ W p y Ey)).
  apply NoDup_app in N as (N1 & N12 & [N2 _]%NoDup_cons). split_and!.
  - rewrite E1 in *. destruct l2 as [| y l2]; [by left | right]. split; [| done]. apply La. clear. set_solver.
  - rewrite E2 in *. destruct (last l1) as [y |] eqn:Q; [| by left]. right. split; [| done]. apply La. apply last_Some_elem_of in Q. clear - Q. set_solver.
  - rewrite E1, E2. destruct (last l1) as [y |] eqn:Q; cbn.
    + apply last_Some_elem_of in Q. split; [| intros [-> _]%app_nil; by apply elem_of_nil in Q]. intros ->. exfalso.
      destruct l2 as [| w l2]; cbn in *; [| apply (N12 w Q); right; left]. apply NH. apply elem_of_app. by left.
    + apply last_None in Q as ->. destruct l2 as [| w l2]; cbn; [done |]. split; [| done]. intros E. exfalso. apply NH. rewrite E. right. left.
Qed.

Lemma unlink_small_ok s F X z : bins s F -> F !! X = Some z -> z < 256 ->
  exists s', unlink_small_chunk s X z = Ret s' /\ bins s' (delete X F) /\ moved s s' (links s F).
Proof.
  intros B E Hz. destruct (wf_chunk _ _ (proj1 B) X z E) as (_ & _ & X3 & X4 & _).
  assert (bin_of z = small_index z) as K by (unfold bin_of; rewrite is_small_spec, bool_decide_eq_true_2 by done; done).
  destruct (bin_of_cases z X4 X3) as [(_ & _ & Ki & _) | ]; [| lia]. rewrite K in Ki. set (i := small_index z) in *.
  destruct (proj2 B i ltac:(lia)) as [(l & N & L & Bt & C) _].
  assert (X ∈ l) as HX by (apply L; by exists z). assert (l <> []) as Nl by (intros ->; by apply elem_of_nil in HX). specialize (C Nl).
  rewrite bool_decide_eq_true_2 in Bt by done. apply list_elem_of_split in HX as (l1 & l2 & ->).
  destruct (small_neighbours s F i l1 X l2 (proj1 B) ltac:(lia) N L C) as (D1 & D2 & D3).
  exists (small_out s i X (l1 ++ l2)). split; [| by apply (small_out_ok s F X z); try done; lia].
  unfold unlink_small_chunk. fold i. set (f := fd (mem s) X) in *. set (b := bk (mem s) X) in *. set (H := smallbin_at s i) in *.
  assert (((f =? H) || (ok_address s f && (bk (mem s) f =? X))) = true) as ->.
  { destruct D1 as [-> | [D1 ->]]; [by rewrite Z.eqb_refl | rewrite ok_address_true, Z.eqb_refl by done; apply orb_true_r]. }
  assert (((b =? H) || (ok_address s b && (fd (mem s) b =? X))) = true) as ->.
  { destruct D2 as [-> | [D2 ->]]; [by rewrite Z.eqb_refl | rewrite ok_address_true, Z.eqb_refl by done; apply orb_true_r]. }
  unfold small_out. destruct (Z.eqb_spec b f); [rewrite decide_True by tauto | rewrite decide_False by tauto]; done.
Qed.

(** The first chunk of a small bin that is marked. *)
Lemma unlink_first_ok s F i : bins s F -> 0 <= i < 32 -> Z.testbit (smallmap s) i = true ->
  let p := fd (mem s) (smallbin_at s i) in
  F !! p = Some (8 * i) /\
  exists s', unlink_first_small_chunk s (smallbin_at s i) p i = Ret s' /\ bins s' (delete p F) /\ moved s s' (links s F).
Proof.
  intros B Hi Bt p. destruct (proj2 B i Hi) as [(l & N & L & Bt' & C) _].
  rewrite Bt in Bt'. symmetry in Bt'. apply bool_decide_eq_true_1 in Bt'. specialize (C Bt').
  destruct l as [| p' l]; [done |]. assert (p = p') as Ep by (apply C). rewrite <- Ep in *. clear p' Ep.
  destruct (proj1 (L p) ltac:(left)) as (z & E & K). destruct (wf_chunk _ _ (proj1 B) p z E) as (_ & _ & X3 & X4 & _).
  assert (z = 8 * i) as -> by (destruct (bin_of_cases z X4 X3) as [(_ & _ & _ & G) | ]; [lia | lia]). split; [done |].
  destruct (small_neighbours s F i [] p l (proj1 B) Hi N L C) as (D1 & D2 & D3).
  exists (small_out s i p ([] ++ l)). split; [| by apply (small_out_ok s F p (8 * i) i [] l)].
  assert (bk (mem s) p = smallbin_at s i) as Eb by (apply C). rewrite Eb in D3.
  unfold unlink_first_small_chunk, small_out. rewrite Eb. destruct (Z.eqb_spec (smallbin_at s i) (fd (mem s) p)) as [e | e].
  - by rewrite decide_True by (apply D3, e).
  - rewrite decide_False by (intros G; apply e, D3, G). destruct D1 as [D1 | [D1 ->]]; [by rewrite D1 in e |].
    by rewrite ok_address_true, Z.eqb_refl by done.
Qed.

(** ** Tree bins *)

Lemma tree_sep s F i L : wf s F -> 0 <= i < 32 -> NoDup L -> (forall p, p ∈ L -> exists z, F !! p = Some z /\ bin_of z = 32 + i) ->
  sep (treebin_at s i) L /\ (forall p, p ∈ L -> 256 <= sizes F p < 2 ^ 40 /\ (32 | sizes F p) /\ compute_tree_index (sizes F p) = i) /\
  forall p, p ∈ L -> least_addr s <= p /\ chunksize (mem s) p = sizes F p.
Proof.
  intros W Hi N H. pose proof (wf_self _ _ W) as Ws. unfold sizes.
  assert (forall p, p ∈ L -> exists z, F !! p = Some z /\ self s + 944 <= p /\ p + z < 2 ^ 63 /\ 256 <= z < 2 ^ 40 /\ (32 | z) /\ compute_tree_index z = i) as G.
  { intros p Hp. destruct (H p Hp) as (z & E & K). destruct (wf_chunk _ _ W p z E) as (P1 & _ & P3 & P4 & P5). unfold header_size in P1.
    destruct (bin_of_cases z P4 P3); [lia |]. exists z. split_and!; (done || lia). }
  split_and!.
  - split; [| done | |].
    + intros q r Hq Hr. destruct (G q Hq) as (z & Ez & ?), (G r Hr) as (w & Ew & ?). unfold far. destruct (decide (q = r)); [by left | right].
      destruct (wf_apart _ _ W q z r w Ez Ew); [done | lia | lia].
    + intros q Hq. destruct (G q Hq) as (z & _ & ?). lia.
    + intros q Hq. destruct (G q Hq) as (z & _ & ?). unfold treebin_at. lia.
  - intros p Hp. destruct (G p Hp) as (z & -> & _ & _ & ?). done.
  - intros p Hp. destruct (G p Hp) as (z & Ez & _). rewrite Ez. split; [apply (wf_chunk _ _ W p z Ez) | by apply (wf_head _ _ W)].
Qed.

(** The fuel of the loops is enough for every bin. *)
Lemma tree_height s F i t : wf s F -> 0 <= i < 32 -> NoDup (nodes t) -> (forall p, p ∈ nodes t -> exists z, F !! p = Some z /\ bin_of z = 32 + i) ->
  trie (sizes F) (top_bit i) 0 t -> (height t <= tree_fuel)%nat.
Proof.
  intros W Hi N H T. destruct (tree_sep s F i _ W Hi N H) as (_ & S & _). pose proof (top_bit_range i Hi) as R.
  pose proof (trie_height (sizes F) (top_bit i) t 0 T ltac:(lia)) as Q. unfold tree_fuel.
  assert (Z.of_nat (height t) <= top_bit i - 0 - 3); [| lia]. apply Q; [intros q Hq; by apply S |].
  intros q r j Hq Hr Hj. destruct (S q Hq) as (? & _ & Eq), (S r Hr) as (? & _ & Er). apply tree_index_bits; try done; [congruence |]. rewrite Eq. lia.
Qed.

Lemma touched_bytes s s' F i L : wf s F -> 0 <= i < 32 -> (forall p, p ∈ L -> exists z, F !! p = Some z /\ bin_of z = 32 + i) ->
  (exists sm tm m', s' = set_mem (set_smallmap (set_treemap s tm) sm) m') -> touches_at (treebin_at s i) L (mem s) (mem s') ->
  moved s s' (bytes s F (32 + i)).
Proof.
  intros W Hi H E T. split; [done |]. intros x Hx. apply T.
  - intros Hx'. apply Hx. left. unfold header_bytes, treebin_at in *. rewrite decide_False by lia. lia.
  - intros q Hq Hx'. apply Hx. right. destruct (H q Hq) as (z & Ez & K). exists q, z. split_and!; try done; [lia |].
    destruct (wf_chunk _ _ W q z Ez) as (_ & _ & Hd & Hz & _). destruct (bin_of_cases z Hz Hd); lia.
Qed.

Lemma insert_large_bins s F X z : bins s F -> F !! X = None -> wf s (<[X := z]> F) -> 256 <= z ->
  exists s', insert_large_chunk s X z = Ret s' /\ bins s' (<[X := z]> F) /\ moved s s' (links s (<[X := z]> F)).
Proof.
  intros B Fx W Hz. set (F' := <[X := z]> F) in *. assert (F' !! X = Some z) as FX by apply lookup_insert_eq.
  destruct (wf_chunk _ _ W X z FX) as (X1 & X2 & X3 & X4 & X5). assert (sizes F' X = z) as EX by (unfold sizes; by rewrite FX).
  destruct (bin_of_cases z X4 X3) as [? | (_ & K & Ki)]; [lia |]. set (i := compute_tree_index z) in *.
  destruct (proj2 B i ltac:(lia)) as [_ (t & N & L & Bt & R & T)].
  assert (forall p, p ∈ X :: nodes t <-> exists y, F' !! p = Some y /\ bin_of y = 32 + i) as L'.
  { intros p. rewrite elem_of_cons, L. unfold F'. destruct (decide (p = X)) as [-> | NX].
    - rewrite lookup_insert_eq. split; [intros _; by exists z | by left].
    - rewrite lookup_insert_ne by done. split; [intros [| ?]; done | by right]. }
  assert (X ∉ nodes t) as NX by (intros (y & E & _)%L; congruence).
  assert (NoDup (X :: nodes t)) as N' by (by constructor).
  destruct (tree_sep s F' i (X :: nodes t) W ltac:(lia) N' (fun p => proj1 (L' p))) as (S & Sz & Hd).
  assert (trie (sizes F') (top_bit i) 0 t) as T'.
  { eapply trie_ext; [| exact T]. intros q Hq. unfold sizes, F'. rewrite lookup_insert_ne; [done |]. intros Eq. apply NX. by rewrite Eq. }
  pose proof (wf_self _ _ W) as Ws.
  destruct (insert_large_ok s (sizes F') X t) as (m' & E & R' & Tm); rewrite ?EX; fold i; try done; try lia.
  { unfold treebin_at. lia. } { by apply (tree_height s F i t (proj1 B) ltac:(lia) N (fun p => proj1 (L p))). }
  rewrite EX in *. fold i in E, R', Tm. set (s' := set_mem _ m') in E. exists s'. split; [done |].
  assert (exists sm tm m'', s' = set_mem (set_smallmap (set_treemap s tm) sm) m'') as Es'.
  { unfold s'. destruct (is_leaf t); [exists (smallmap s), (Z.lor (treemap s) (idx2bit i)), m' | exists (smallmap s), (treemap s), m']; by destruct s. }
  assert (forall j, 0 <= j < 32 -> Z.testbit (treemap s') j = (i =? j) || Z.testbit (treemap s) j) as Bs.
  { intros j Hj. unfold s'. destruct (is_leaf t) eqn:Ef; cbn [treemap set_mem mark_treemap set_treemap]; [apply map_mark; lia |].
    destruct (Z.eqb_spec i j) as [<- |]; [by rewrite Bt | done]. }
  apply (bins_step s s' F F' F' (32 + i)); try done; try lia.
  - by apply insert_subseteq.
  - apply (touched_bytes s s' F' i (X :: nodes t) W ltac:(lia)); try done. by apply L'.
  - destruct Es' as (sm & tm & m'' & Es'). unfold s'. destruct (is_leaf t); apply B.
  - unfold s'. destruct (is_leaf t); cbn; [apply map_mark_range; [lia | apply B] | apply B].
  - intros p y Hy. unfold F'. destruct (decide (p = X)) as [-> |]; [| by rewrite lookup_insert_ne]. rewrite lookup_insert_eq, Fx. split; [intros; simplify_eq; lia | done].
  - intros j Hj _. unfold s'. by destruct (is_leaf t).
  - intros j Hj Nj. rewrite Bs by done. destruct (Z.eqb_spec i j); [lia | done].
  - intros j Hj Ej. assert (j = i) as -> by lia. exists (tinsert (sizes F') (top_bit i) 0 X t). split_and!.
    + by rewrite nodes_tinsert.
    + intros p. by rewrite nodes_tinsert.
    + by rewrite Bs, Z.eqb_refl, is_leaf_tinsert by lia.
    + unfold s'. by destruct (is_leaf t).
    + by apply trie_tinsert.
Qed.

Lemma unlink_large_bins s F X z : bins s F -> F !! X = Some z -> 256 <= z ->
  exists s', unlink_large_chunk s X = Ret s' /\ bins s' (delete X F) /\ moved s s' (links s F).
Proof.
  intros B E Hz. destruct (wf_chunk _ _ (proj1 B) X z E) as (X1 & X2 & X3 & X4 & X5).
  destruct (bin_of_cases z X4 X3) as [? | (_ & K & Ki)]; [lia |]. set (i := compute_tree_index z) in *.
  destruct (proj2 B i ltac:(lia)) as [_ (t & N & L & Bt & R & T)].
  destruct (tree_sep s F i (nodes t) (proj1 B) ltac:(lia) N (fun p => proj1 (L p))) as (S & Sz & Hd).
  pose proof (wf_self _ _ (proj1 B)) as Ws. assert (X ∈ nodes t) as HX by (apply L; by exists z).
  destruct (unlink_large_ok s (sizes F) (top_bit i) i t R S) with (X := X) as (m' & t' & E' & P & R' & T' & Tm); try done.
  { intros q Hq. by apply Hd. } { unfold treebin_at. lia. } { by apply (tree_height s F i t (proj1 B) ltac:(lia) N (fun p => proj1 (L p))). }
  set (s' := set_mem _ m') in E'. exists s'. split; [done |].
  assert (Z.testbit (treemap s) i = true) as Bt' by (rewrite Bt; destruct t; [by apply elem_of_nil in HX | done]).
  assert (forall j, 0 <= j < 32 -> Z.testbit (treemap s') j = (if is_leaf t' then negb (i =? j) else true) && Z.testbit (treemap s) j) as Bs.
  { intros j Hj. unfold s'. destruct (is_leaf t'); [apply map_clear; lia | done]. }
  apply (bins_step s s' F _ F (32 + i)); try done; try lia.
  - apply B.
  - apply delete_subseteq.
  - apply (touched_bytes s s' F i (nodes t) (proj1 B) ltac:(lia)); try done; [by apply L |].
    unfold s'. destruct (is_leaf t'); [exists (smallmap s), (Z.ldiff (treemap s) (idx2bit i)), m' | exists (smallmap s), (treemap s), m']; by destruct s.
  - unfold s'. destruct (is_leaf t'); apply B.
  - unfold s'. destruct (is_leaf t'); cbn; [apply map_clear_range, B | apply B].
  - by apply (delete_bin F X z).
  - intros j Hj _. unfold s'. by destruct (is_leaf t').
  - intros j Hj Nj. rewrite Bs by done. destruct (is_leaf t'); [destruct (Z.eqb_spec i j); [lia | done] | done].
  - intros j Hj Ej. assert (j = i) as -> by lia. exists t'. split_and!.
    + rewrite P in N. by apply NoDup_cons in N as [_ N].
    + by apply (delete_members F X z _ (nodes t)).
    + rewrite Bs, Bt' by lia. destruct t'; cbn; [by rewrite Z.eqb_refl | done].
    + unfold s'. by destruct (is_leaf t').
    + eapply trie_ext; [| exact T']. intros q Hq. unfold sizes. rewrite lookup_delete_ne; [done |]. intros ->.
      rewrite P in N. by apply NoDup_cons in N as [N _].
Qed.

(** ** Chunks of any size *)

Lemma insert_chunk_ok s F X z : bins s F -> F !! X = None -> wf s (<[X := z]> F) ->
  exists s', insert_chunk s X z = Ret s' /\ bins s' (<[X := z]> F) /\ moved s s' (links s (<[X := z]> F)).
Proof.
  intros B E W. unfold insert_chunk. rewrite is_small_spec. case_bool_decide; [by apply insert_small_ok | apply insert_large_bins; (done || lia)].
Qed.

Lemma unlink_chunk_ok s F X z : bins s F -> F !! X = Some z ->
  exists s', unlink_chunk s X z = Ret s' /\ bins s' (delete X F) /\ moved s s' (links s F).
Proof.
  intros B E. unfold unlink_chunk. rewrite is_small_spec. case_bool_decide; [by apply unlink_small_ok | apply (unlink_large_bins s F X z); (done || lia)].
Qed.

(** Writes that leave links and heads of free chunks alone. *)
Lemma bins_frame_heads s s' F : bins s F -> self s' = self s -> least_addr s' = least_addr s -> smallmap s' = smallmap s -> treemap s' = treemap s ->
  (forall x, links s F x -> mem s' x = mem s x) -> (forall p z, F !! p = Some z -> head (mem s') p = head (mem s) p) -> bins s' F.
Proof.
  intros [W B] E1 E2 E3 E4 M H. split.
  - destruct W as [W1 W2 W3 W4 W5]. split; rewrite ?E1, ?E2, ?E3, ?E4; try done. intros p z E. rewrite <- (W5 p z E). unfold chunksize. by rewrite (H p z).
  - intros i Hi. destruct (B i Hi) as [Bs Bt]. split.
    + apply (small_bin_frame s s' F F); try done; [by rewrite E3 |]. intros x Hx. apply M. by apply (bytes_links _ _ i); [lia |].
    + apply (tree_bin_frame s s' F F); try done; [by rewrite E4 |]. intros x Hx. apply M. by apply (bytes_links _ _ (32 + i)); [lia |].
Qed.

Lemma bins_frame s s' F : bins s F -> self s' = self s -> least_addr s' = least_addr s -> smallmap s' = smallmap s -> treemap s' = treemap s ->
  (forall x, links s F x -> mem s' x = mem s x) -> (forall p z x, F !! p = Some z -> p + 8 <= x < p + 16 -> mem s' x = mem s x) -> bins s' F.
Proof. intros B E1 E2 E3 E4 M H. apply (bins_frame_heads s); try done. intros p z E. apply ld_ext. intros x Hx. apply (H p z x E). lia. Qed.

End Free.
