(* ===== verification/DlLayout.v ===== *)
(** * kernel/dlmalloc.cc: the layout of a space

    From the state of a space to its top, memory is a sequence of chunks, each in use, in a
    bin or the designated victim.  [inv] says that the boundary tags in memory, the bins and
    the members of the state agree with such a sequence.  A chunk that is being
    allocated, released or merged is taken out of the sequence and put back: the lemmas
    about [opened] are the steps of which mspace_malloc and mspace_free consist. *)

From S2P Require Import Prelude DlHeap DlBins DlTrie DlFree.

Module Layout.
Import Chunk Bins Free.

(** ** Sequences of chunks *)

Inductive kind : Type := Used | Binned | Victim.
#[global] Instance kind_eq_dec : EqDecision kind.
Proof. solve_decision. Defined.

Definition chunks : Type := list (Z * kind).

Fixpoint total (cs : chunks) : Z := match cs with [] => 0 | (z, _) :: cs' => z + total cs' end.

(** The chunks of kind [k] of the sequence that starts at [p]. *)
Fixpoint cmap (k : kind) (p : Z) (cs : chunks) : gmap Z Z :=
  match cs with
  | [] => ∅
  | (z, k') :: cs' => if decide (k' = k) then <[p := z]> (cmap k (p + z) cs') else cmap k (p + z) cs'
  end.

Definition sized (c : Z * kind) : Prop := (32 | c.1) /\ 32 <= c.1.

Lemma total_app cs1 cs2 : total (cs1 ++ cs2) = total cs1 + total cs2.
Proof. induction cs1 as [| [z k] cs1 IH]; [done |]. cbn. lia. Qed.

Lemma total_sized cs : Forall sized cs -> 0 <= total cs /\ (32 | total cs).
Proof.
  induction 1 as [| [z k] cs [H1 H2] _ [IH1 IH2]]; cbn in *; [split; [lia | apply Z.divide_0_r] |]. split; [lia | by apply Z.divide_add_r].
Qed.

Lemma cmap_range k p cs q z : Forall sized cs -> cmap k p cs !! q = Some z -> p <= q /\ q + z <= p + total cs /\ 32 <= z /\ (32 | z).
Proof.
  intros S. revert p. induction S as [| [y k'] cs [H1 H2] S IH]; intros p; cbn in *; [done |]. destruct (total_sized cs S) as [T _].
  assert (cmap k (p + y) cs !! q = Some z -> p <= q /\ q + z <= p + (y + total cs) /\ 32 <= z /\ (32 | z)) as G by (intros (? & ? & ? & ?)%IH; split_and!; (lia || done)).
  case_decide; [| done]. intros [[-> ->] | [_ E]]%lookup_insert_Some; [| auto]. split_and!; try lia; done.
Qed.

Lemma cmap_out k p cs q : Forall sized cs -> q < p \/ p + total cs <= q -> cmap k p cs !! q = None.
Proof. intros S H. destruct (cmap k p cs !! q) as [z |] eqn:E; [| done]. apply cmap_range in E; [lia | done]. Qed.

Lemma cmap_app k p cs1 cs2 : cmap k p (cs1 ++ cs2) = cmap k p cs1 ∪ cmap k (p + total cs1) cs2.
Proof.
  revert p. induction cs1 as [| [z k'] cs1 IH]; intros p; cbn; [by rewrite Z.add_0_r, map_empty_union |].
  rewrite IH, Z.add_assoc. case_decide; [by rewrite insert_union_l | done].
Qed.

Lemma cmap_disjoint k k' p cs q cs' : Forall sized cs -> Forall sized cs' -> p + total cs <= q -> cmap k p cs ##ₘ cmap k' q cs'.
Proof.
  intros S S' H. apply map_disjoint_spec. intros x y z E1 E2. apply cmap_range in E1, E2; try done. lia.
Qed.

(** The chunks around the part [mid] do not depend on it. *)
Definition around (k : kind) (p : Z) (cs1 : chunks) (n : Z) (cs2 : chunks) : gmap Z Z :=
  cmap k p cs1 ∪ cmap k (p + total cs1 + n) cs2.

Lemma cmap_mid k p cs1 mid cs2 : Forall sized (cs1 ++ mid ++ cs2) ->
  cmap k p (cs1 ++ mid ++ cs2) = cmap k (p + total cs1) mid ∪ around k p cs1 (total mid) cs2.
Proof.
  rewrite !Forall_app. intros (S1 & S2 & S3). rewrite !cmap_app. unfold around.
  rewrite !(map_union_assoc (cmap k (p + total cs1) mid)), (map_union_comm (cmap k (p + total cs1) mid) (cmap k p cs1)).
  - by rewrite <- map_union_assoc.
  - apply map_disjoint_sym, cmap_disjoint; (done || lia).
Qed.

(** Two chunks of a sequence are the same or do not overlap. *)
Lemma cmap_apart k k' p cs q z q' z' : Forall sized cs -> cmap k p cs !! q = Some z -> cmap k' p cs !! q' = Some z' ->
  (q = q' /\ z = z' /\ k = k') \/ q + z <= q' \/ q' + z' <= q.
Proof.
  intros S. revert p. induction S as [| [w j] cs [W1 W2] S IH]; intros p; cbn in *; [done |].
  assert (forall k q z, (if decide (j = k) then <[p := w]> (cmap k (p + w) cs) else cmap k (p + w) cs) !! q = Some z ->
    (q = p /\ z = w /\ k = j) \/ cmap k (p + w) cs !! q = Some z) as C.
  { intros k0 q0 z0. case_decide; [| by right]. intros [[-> ->] | [_ E]]%lookup_insert_Some; [by left | by right]. }
  intros [(-> & -> & ->) | E1]%C [(-> & -> & ->) | E2]%C; [by left | | | by apply (IH (p + w))]; right.
  - apply cmap_range in E2; [lia | done].
  - apply cmap_range in E1; [lia | done].
Qed.

(** ** Boundary tags *)

(** The head of a chunk of size [z]. *)
Definition flags (pin used : bool) : Z := (if pin then 1 else 0) + (if used then 2 else 0).
Definition tag (z : Z) (pin used : bool) : Z := z + flags pin used.

Lemma aligned_land z c : (32 | z) -> 0 <= c < 32 -> Z.land z c = 0.
Proof.
  intros [k ->] Hc. apply Z.bits_inj'. intros j Hj. rewrite Z.land_spec, Z.testbit_0_l. change 32 with (2 ^ 5) in *.
  destruct (decide (j < 5)); [by rewrite Z.mul_pow2_bits_low by lia |]. rewrite (testbit_high 5 c) by (exact Hc || lia). apply andb_false_r.
Qed.

Lemma aligned_keep z c : (32 | z) -> 0 <= c < 32 -> Z.land z (Z.lnot c) = z.
Proof.
  intros [k ->] Hc. apply Z.bits_inj'. intros j Hj. rewrite Z.land_spec, Z.lnot_spec by lia. change 32 with (2 ^ 5) in *.
  destruct (decide (j < 5)); [by rewrite Z.mul_pow2_bits_low by lia |]. rewrite (testbit_high 5 c) by (exact Hc || lia). apply andb_true_r.
Qed.

Lemma aligned_lor z c : (32 | z) -> 0 <= c < 32 -> Z.lor z c = z + c.
Proof. intros Hz Hc. rewrite <- Z.lxor_lor, Z.add_nocarry_lxor by (by apply aligned_land). done. Qed.

Lemma tag_lor z pin used : (32 | z) -> tag z pin used = Z.lor z (flags pin used).
Proof. intros Hz. unfold tag. rewrite aligned_lor; [done | done |]. unfold flags. destruct pin, used; lia. Qed.

Lemma tag_land z pin used c : (32 | z) -> 0 <= c < 32 -> Z.land (tag z pin used) c = Z.land (flags pin used) c.
Proof. intros Hz Hc. rewrite tag_lor, Z.land_lor_distr_l, aligned_land by done. apply Z.lor_0_l. Qed.

Lemma tag_size z pin used : (32 | z) -> Z.land (tag z pin used) (Z.lnot FLAG_BITS) = z.
Proof.
  intros Hz. rewrite tag_lor, Z.land_lor_distr_l by done. rewrite (aligned_keep z FLAG_BITS) by (done || (cbn; lia)).
  assert (Z.land (flags pin used) (Z.lnot FLAG_BITS) = 0) as -> by (by destruct pin, used). apply Z.lor_0_r.
Qed.

Lemma tag_mark z pin used : (32 | z) -> Z.lor (tag z pin used) PINUSE_BIT = tag z true used.
Proof. intros Hz. rewrite !tag_lor, <- Z.lor_assoc by done. f_equal. by destruct pin, used. Qed.

Lemma tag_clear z pin used : (32 | z) -> Z.land (tag z pin used) (Z.lnot PINUSE_BIT) = tag z false used.
Proof.
  intros Hz. rewrite !tag_lor, Z.land_lor_distr_l by done. rewrite (aligned_keep z) by (done || (cbn; lia)). f_equal. by destruct pin, used.
Qed.

Lemma tag_inuse z : (32 | z) -> Z.lor (Z.lor z PINUSE_BIT) CINUSE_BIT = tag z true true.
Proof. intros Hz. by rewrite tag_lor, <- Z.lor_assoc. Qed.

Lemma tag_free z : (32 | z) -> Z.lor z PINUSE_BIT = tag z true false.
Proof. intros Hz. by rewrite tag_lor. Qed.

(** What the code reads from a head. *)
Lemma read_tag m q z b u : (32 | z) -> head m q = tag z b u ->
  pinuse m q = b /\ cinuse m q = u /\ chunksize m q = z /\ (u = true -> is_inuse m q = true /\ is_mmapped m q = false).
Proof.
  intros D E. unfold pinuse, cinuse, chunksize, is_inuse, is_mmapped. change INUSE_BITS with 3. change PINUSE_BIT with 1. change CINUSE_BIT with 2.
  rewrite E, (tag_land z b u 1), (tag_land z b u 2), (tag_land z b u 3) by (done || lia).
  rewrite tag_size by done. destruct b, u; split_and!; try done; intros; by split_and!.
Qed.

(** The tags of the sequence [cs] from [p]: before it the flag [pin] is set or not, behind
    it the flag is [pout]; a free chunk has its size at its end, and its neighbours
    are in use. *)
Fixpoint seg (m : ram) (p : Z) (pin : bool) (cs : chunks) (pout : bool) : Prop :=
  match cs with
  | [] => pin = pout
  | (z, k) :: cs' =>
      head m p = tag z pin (bool_decide (k = Used)) /\ (k <> Used -> pin = true /\ prev_foot m (p + z) = z) /\
      seg m (p + z) (bool_decide (k = Used)) cs' pout
  end.

Lemma seg_join m p pin cs1 cs2 pout : seg m p pin (cs1 ++ cs2) pout <->
  exists b, seg m p pin cs1 b /\ seg m (p + total cs1) b cs2 pout.
Proof.
  revert p pin. induction cs1 as [| [z k] cs1 IH]; intros p pin; cbn.
  - rewrite Z.add_0_r. split; [intros; by exists pin | by intros (b & <- & H)].
  - rewrite IH, Z.add_assoc. split; [intros (H1 & H2 & b & H3 & H4); exists b; by split_and! | intros (b & (H1 & H2 & H3) & H4); split_and!; eauto].
Qed.

Lemma seg_chunk m p pin cs pout k q z : seg m p pin cs pout -> cmap k p cs !! q = Some z ->
  exists b, head m q = tag z b (bool_decide (k = Used)) /\ (k <> Used -> b = true /\ prev_foot m (q + z) = z).
Proof.
  revert p pin. induction cs as [| [w j] cs IH]; intros p pin; cbn; [done |]. intros (G1 & G2 & G3). destruct (decide (j = k)) as [D | D].
  - intros [[-> ->] | [_ E]]%lookup_insert_Some; [subst j; by exists pin | by apply (IH _ _ G3)].
  - by apply (IH _ _ G3).
Qed.

(** The bytes of a sequence that are not tags. *)
Definition interior (p : Z) (cs : chunks) (x : Z) : Prop := exists k q z, cmap k p cs !! q = Some z /\ q + 16 <= x < q + z.

Lemma interior_app p cs1 cs2 x : Forall sized (cs1 ++ cs2) -> interior p cs1 x \/ interior (p + total cs1) cs2 x -> interior p (cs1 ++ cs2) x.
Proof.
  intros [S1 S2]%Forall_app [(k & q & z & E & H) | (k & q & z & E & H)]; exists k, q, z; (split; [| done]); rewrite cmap_app.
  - by apply lookup_union_Some_l.
  - apply lookup_union_Some_r; [apply cmap_disjoint; (done || lia) | done].
Qed.

Lemma seg_ext m m' p pin cs pout : Forall sized cs ->
  (forall x, p + 8 <= x < p + total cs + 8 -> ~ interior p cs x -> m' x = m x) -> seg m p pin cs pout -> seg m' p pin cs pout.
Proof.
  intros S. revert p pin. induction S as [| [z k] cs [H1 H2] S IH]; intros p pin E; [done |]. cbn [seg total fst] in *.
  destruct (total_sized cs S) as [T _].
  assert (forall x, interior p ((z, k) :: cs) x -> p + 16 <= x < p + z \/ interior (p + z) cs x) as HI.
  { intros x (k' & q & y & Eq & Hx). cbn in Eq. case_decide.
    - apply lookup_insert_Some in Eq as [[-> ->] | [_ Eq]]; [by left | right; by exists k', q, y].
    - right. by exists k', q, y. }
  assert (forall x, interior (p + z) cs x -> p + z + 16 <= x < p + z + total cs) as HR.
  { intros x (k' & q & y & Eq & Hx). apply cmap_range in Eq; [lia | done]. }
  intros (G1 & G2 & G3). split_and!.
  - rewrite <- G1. apply ld_ext. intros x Hx. apply E; [lia |]. intros [D | D%HR]%HI; lia.
  - intros N. destruct (G2 N) as [G4 G5]. split; [done |]. rewrite <- G5 at 2. apply ld_ext. intros x Hx. apply E; [lia |]. intros [D | D%HR]%HI; lia.
  - apply IH; [| done]. intros x Hx N. apply E; [lia |]. intros [D | D]%HI; [lia | done].
Qed.

(** ** Invariant *)

(** The first chunk behind the state. *)
Definition first (s : mstate) : Z := self s + header_size.

(** The members of the state that do not depend on the chunks. *)
Definition base (s : mstate) : Prop :=
  (32 | self s) /\ seg_base s = self s - 32 /\ 0 < seg_base s /\ seg_base s + seg_size s < 2 ^ 62 /\ seg_size s < 2 ^ 40 /\
  least_addr s = seg_base s /\ top s + topsize s + TOP_FOOT_SIZE = seg_base s + seg_size s /\ (32 | topsize s) /\ 0 <= topsize s.

Definition layout (s : mstate) (cs : chunks) : Prop :=
  base s /\ Forall sized cs /\ top s = first s + total cs /\ seg (mem s) (first s) true cs true /\
  head (mem s) (top s) = tag (topsize s) true false.

(** The designated victim. *)
Definition victim (s : mstate) (V : gmap Z Z) : Prop :=
  (dvsize s = 0 /\ dv s = 0 /\ V = ∅) \/ (0 < dvsize s /\ V = {[dv s := dvsize s]}).

Definition inv (s : mstate) (cs : chunks) : Prop :=
  layout s cs /\ bins s (cmap Binned (first s) cs) /\ victim s (cmap Victim (first s) cs).

(** Memory of the blocks in [U] is the same. *)
Definition kept (U : gmap Z Z) (m m' : ram) : Prop :=
  forall q y x, U !! q = Some y -> q + 16 <= x < q + y + 8 -> m' x = m x.

Lemma kept_trans U m m' m'' : kept U m m' -> kept U m' m'' -> kept U m m''.
Proof. intros K1 K2 q y x E Hx. rewrite (K2 q y x E Hx). by apply (K1 q y). Qed.

Lemma kept_weaken U U' m m' : U ⊆ U' -> kept U' m m' -> kept U m m'.
Proof. intros I K q y x E. apply (K q y). by eapply lookup_weaken. Qed.

Lemma kept_refl U m : kept U m m.
Proof. done. Qed.

Lemma first_in s cs : layout s cs -> 976 <= first s /\ first s + total cs < 2 ^ 62 /\ total cs < 2 ^ 40 /\ 32 <= self s.
Proof.
  intros ((D & H1 & H2 & H3 & H4 & H5 & H6 & H7 & H8) & S & T & _). destruct (total_sized cs S) as [T0 _].
  change TOP_FOOT_SIZE with 112 in *. unfold first, header_size in *.
  assert (32 <= self s) by lia. lia.
Qed.

Lemma layout_wf s cs : layout s cs -> in_range 32 (smallmap s) -> in_range 32 (treemap s) -> wf s (cmap Binned (first s) cs).
Proof.
  intros L M1 M2. destruct (first_in _ _ L) as (F1 & F2 & F3 & F4). destruct L as ((D & H1 & H2 & H3 & H4 & H5 & H6 & H7 & H8) & S & T & G & _).
  assert (self s + seg_size s < 2 ^ 62 + 32) by lia. split.
  - unfold first, header_size in *. destruct (total_sized cs S). lia.
  - done.
  - intros p z (P1 & P2 & P3 & P4)%cmap_range; [| done]. unfold first, header_size in *. split_and!; try done; lia.
  - intros p z q y E1 E2 N. destruct (cmap_apart _ _ _ _ _ _ _ _ S E1 E2) as [(? & _) | ?]; done.
  - intros p z E. destruct (seg_chunk _ _ _ _ _ _ _ _ G E) as (pin & Eh & _). unfold chunksize. rewrite Eh. apply tag_size.
    by apply cmap_range in E as (_ & _ & _ & ?).
Qed.

(** Links are inside free chunks: tags and blocks in use are elsewhere. *)
Lemma links_where s cs F x : layout s cs -> F ⊆ cmap Binned (first s) cs -> links s F x ->
  x < first s \/ exists q z, cmap Binned (first s) cs !! q = Some z /\ q + 16 <= x < q + z.
Proof.
  intros L I [H | (p & z & E & H)]; [left; unfold first; lia | right]. exists p, z. split; [by eapply lookup_weaken | done].
Qed.

Lemma layout_moved s s' cs F : layout s cs -> F ⊆ cmap Binned (first s) cs -> moved s s' (links s F) -> layout s' cs.
Proof.
  intros L I [(sm & tm & m' & ->) M]. pose proof (links_where s cs F) as W. destruct (first_in _ _ L) as (F1 & _).
  destruct L as (B & S & T & G & Ht) eqn:EL. clear EL. cbn [mem set_mem] in M. destruct (total_sized cs S) as [T0 _].
  split_and!; try done.
  - eapply seg_ext; [done | | exact G]. intros x Hx Ni. apply M. intros [D | (q & z & E & D)]%(W x); try done; [change (first s) with (first s) in *; cbn in Hx; unfold first in *; cbn in *; lia |].
    apply Ni. by exists Binned, q, z.
  - cbn [mem set_mem set_smallmap set_treemap top topsize]. rewrite <- Ht. apply ld_ext. intros x Hx. apply M. intros [D | (q & z & E & D)]%(W x); try done; [unfold first in *; lia |].
    apply cmap_range in E; [lia | done].
Qed.

Lemma kept_links s s' cs F U : layout s cs -> F ⊆ cmap Binned (first s) cs -> U ⊆ cmap Used (first s) cs -> moved s s' (links s F) ->
  kept U (mem s) (mem s').
Proof.
  intros L I IU [_ M] q y x E Hx. apply M. pose proof (lookup_weaken _ _ _ _ E IU) as E'.
  assert (Forall sized cs) as S by apply L. intros [D | (p & z & Ep & D)]%(links_where _ _ _ _ L I).
  - apply cmap_range in E'; [lia | done].
  - destruct (cmap_apart _ _ _ _ _ _ _ _ S E' Ep) as [(_ & _ & ?) | ?]; [done | lia].
Qed.

(** A victim that goes to a bin. *)
Fixpoint retire (cs : chunks) : chunks :=
  match cs with [] => [] | (z, k) :: cs' => (z, if decide (k = Victim) then Binned else k) :: retire cs' end.

Lemma total_retire cs : total (retire cs) = total cs.
Proof. induction cs as [| [z k] cs IH]; cbn; [done |]. by rewrite IH. Qed.

Lemma sized_retire cs : Forall sized cs -> Forall sized (retire cs).
Proof. induction 1 as [| [z k] cs H _ IH]; cbn; by constructor. Qed.

Lemma seg_retire m p pin cs pout : seg m p pin cs pout -> seg m p pin (retire cs) pout.
Proof.
  revert p pin. induction cs as [| [z k] cs IH]; intros p pin; cbn; [done |]. intros (H1 & H2 & H3).
  destruct k; cbn in *; split_and!; try done; try (by apply IH); intros _; by apply H2.
Qed.

Lemma cmap_retire k p cs : Forall sized cs -> cmap k p (retire cs) =
  match k with Used => cmap Used p cs | Victim => ∅ | Binned => cmap Binned p cs ∪ cmap Victim p cs end.
Proof.
  intros S. revert p. induction S as [| [z j] cs [H1 H2] S IH]; intros p; cbn in *; [by destruct k; rewrite ?map_empty_union |]. rewrite IH.
  destruct j, k; cbn; try done.
  - by rewrite insert_union_l.
  - rewrite insert_union_r; [done |]. apply cmap_out; [done | lia].
Qed.

(** ** A chunk outside of the sequence *)

(** The [n] bytes behind [cs1] are a chunk that is neither in use nor in a bin; [b] is the
    flag behind it. *)
Definition hole (s : mstate) (cs1 : chunks) (n : Z) (cs2 : chunks) (b : bool) : Prop :=
  base s /\ Forall sized cs1 /\ Forall sized cs2 /\ sized (n, Used) /\ top s = first s + total cs1 + n + total cs2 /\
  seg (mem s) (first s) true cs1 true /\ seg (mem s) (first s + total cs1 + n) b cs2 true /\
  head (mem s) (top s) = tag (topsize s) true false.

Definition opened (s : mstate) (cs1 : chunks) (n : Z) (cs2 : chunks) (b : bool) : Prop :=
  hole s cs1 n cs2 b /\ bins s (around Binned (first s) cs1 n cs2).

Lemma around_after k p cs1 n y j cs2 : Forall sized cs1 -> 0 <= n -> around k p cs1 n ((y, j) :: cs2) =
  if decide (j = k) then <[p + total cs1 + n := y]> (around k p cs1 (n + y) cs2) else around k p cs1 (n + y) cs2.
Proof.
  intros S Hn. unfold around. cbn. rewrite <- !Z.add_assoc. case_decide; [| done]. symmetry. apply insert_union_r, cmap_out; [done | lia].
Qed.

Lemma around_before k p cs1 w j n cs2 : Forall sized cs1 -> around k p (cs1 ++ [(w, j)]) n cs2 =
  if decide (j = k) then <[p + total cs1 := w]> (around k p cs1 (w + n) cs2) else around k p cs1 (w + n) cs2.
Proof.
  intros S. unfold around. rewrite cmap_app, total_app. cbn. replace (p + (total cs1 + (w + 0)) + n) with (p + total cs1 + (w + n)) by lia.
  case_decide; rewrite <- map_union_assoc; [| by rewrite map_empty_union]. rewrite <- insert_union_l, map_empty_union.
  symmetry. apply insert_union_r, cmap_out; [done | lia].
Qed.

Lemma cmap_hole k p cs1 z j cs2 : Forall sized cs1 -> cmap k p (cs1 ++ (z, j) :: cs2) =
  if decide (j = k) then <[p + total cs1 := z]> (around k p cs1 z cs2) else around k p cs1 z cs2.
Proof.
  intros S. rewrite cmap_app. pose proof (around_after k p cs1 0 z j cs2 S ltac:(lia)) as E. unfold around at 1 in E. rewrite Z.add_0_r in E. exact E.
Qed.

Lemma around_none k p cs1 n cs2 q : Forall sized cs1 -> Forall sized cs2 -> p + total cs1 <= q < p + total cs1 + n -> around k p cs1 n cs2 !! q = None.
Proof. intros S1 S2 H. apply lookup_union_None. split; (apply cmap_out; [done | lia]). Qed.

Lemma around_range k p cs1 n cs2 q z : Forall sized cs1 -> Forall sized cs2 -> around k p cs1 n cs2 !! q = Some z ->
  32 <= z /\ (32 | z) /\ ((p <= q /\ q + z <= p + total cs1) \/ (p + total cs1 + n <= q /\ q + z <= p + total cs1 + n + total cs2)).
Proof.
  intros S1 S2 [E | [_ E]]%lookup_union_Some_raw; (apply cmap_range in E; [| done]); destruct E as (? & ? & ? & ?); split_and!; try done; [by left | right; lia].
Qed.

(** A chunk has one kind. *)
Lemma around_kind k k' p cs1 n cs2 q z z' : Forall sized cs1 -> Forall sized cs2 -> 0 <= n ->
  around k p cs1 n cs2 !! q = Some z -> around k' p cs1 n cs2 !! q = Some z' -> k = k'.
Proof.
  intros S1 S2 Hn E1 E2. unfold around in *. apply lookup_union_Some_raw in E1 as [E1 | [_ E1]], E2 as [E2 | [_ E2]].
  - destruct (cmap_apart _ _ _ _ _ _ _ _ S1 E1 E2) as [(_ & _ & ?) | ?]; [done |]. apply cmap_range in E1, E2; (done || lia).
  - apply cmap_range in E1, E2; (done || lia).
  - apply cmap_range in E1, E2; (done || lia).
  - destruct (cmap_apart _ _ _ _ _ _ _ _ S2 E1 E2) as [(_ & _ & ?) | ?]; [done |]. apply cmap_range in E1, E2; (done || lia).
Qed.

Lemma seg_repin m m' p b b' y cs pout : Forall sized cs -> seg m p b ((y, Used) :: cs) pout -> head m' p = tag y b' true -> 32 <= y ->
  (forall x, p + 16 <= x -> m' x = m x) -> seg m' p b' ((y, Used) :: cs) pout.
Proof.
  intros S (_ & _ & G) H Hy E. cbn [seg]. split_and!; [done | done |]. eapply seg_ext; [done | | exact G]. intros x Hx _. apply E. lia.
Qed.

Lemma close_layout s cs1 n y cs3 b m' b' mid A : hole s cs1 n ((y, Used) :: cs3) b ->
  bins s A -> A ⊆ around Binned (first s) cs1 n ((y, Used) :: cs3) ->
  let p := first s + total cs1 in
  (forall x, x < p + 8 \/ p + n + 16 <= x -> m' x = mem s x) -> total mid = n -> Forall sized mid ->
  seg m' p true mid b' -> head m' (p + n) = tag y b' true ->
  layout (set_mem s m') (cs1 ++ mid ++ (y, Used) :: cs3) /\ bins (set_mem s m') A /\
  kept (around Used (first s) cs1 n ((y, Used) :: cs3)) (mem s) m'.
Proof.
  intros (B & S1 & S2 & [N1 N2] & T & G1 & G2 & Ht) Bi IA p E Tm Sm Gm Hn. fold p in T, G2. cbn [fst total] in *.
  apply Forall_cons in S2 as H; destruct H as [[Y1 Y2] S3]. cbn [fst] in Y1, Y2. destruct (total_sized _ S1) as [T1 _], (total_sized _ S3) as [T3 _].
  split_and!.
  - split_and!; [done | by rewrite !Forall_app | | |].
    + change (top s = first s + total (cs1 ++ mid ++ (y, Used) :: cs3)). rewrite !total_app. cbn [total]. lia.
    + change (seg m' (first s) true (cs1 ++ mid ++ (y, Used) :: cs3) true). apply seg_join. exists true. split.
      * eapply seg_ext; [done | | exact G1]. intros x Hx _. apply E. fold p in Hx. lia.
      * fold p. apply seg_join. exists b'. split; [done |]. rewrite Tm. eapply seg_repin; [done | exact G2 | done | done |]. intros x Hx. apply E. lia.
    + change (head m' (top s) = tag (topsize s) true false). rewrite <- Ht. apply ld_ext. intros x Hx. apply E. lia.
  - eapply bins_frame; [exact Bi | done.. | |].
    + intros x [H | (q & z & Eq & H)].
      * apply E. left. unfold p, first. lia.
      * apply E. pose proof (lookup_weaken _ _ _ _ Eq IA) as Eq'. apply around_range in Eq'; [fold p in Eq'; lia | done..].
    + intros q z x Eq0 Hx. apply E. pose proof (lookup_weaken _ _ _ _ Eq0 IA) as Eq. unfold around in Eq. cbn [cmap] in Eq. rewrite decide_False in Eq by done.
      apply lookup_union_Some_raw in Eq as [Eq | [_ Eq]]; (apply cmap_range in Eq; [| done]); fold p in Eq; lia.
  - intros q z x Eq Hx. apply E. apply around_range in Eq; [fold p in Eq; lia | done..].
Qed.

Lemma around_retire k p cs1 n cs2 : Forall sized cs1 -> Forall sized cs2 -> 0 <= n -> around k p (retire cs1) n (retire cs2) =
  match k with Used => around Used p cs1 n cs2 | Victim => ∅ | Binned => around Binned p cs1 n cs2 ∪ around Victim p cs1 n cs2 end.
Proof.
  intros S1 S2 Hn. unfold around. rewrite total_retire, !cmap_retire by done. destruct k; [done | | by rewrite map_empty_union].
  rewrite <- !map_union_assoc. f_equal. rewrite !map_union_assoc. f_equal. apply map_union_comm, cmap_disjoint; (done || lia).
Qed.

Lemma hole_retire s cs1 n cs2 b : hole s cs1 n cs2 b -> hole s (retire cs1) n (retire cs2) b.
Proof.
  intros (B & S1 & S2 & N & T & G1 & G2 & Ht). unfold hole. rewrite !total_retire. split_and!; auto using sized_retire, seg_retire.
Qed.

(** ** Taking chunks out *)

(** Behind a free chunk is a chunk in use. *)
Lemma seg_after_free m p cs : seg m p false cs true -> exists y cs', cs = (y, Used) :: cs'.
Proof. destruct cs as [| [y k] cs]; cbn; [done |]. intros (_ & H & _). destruct k; [eauto | by destruct H | by destruct H]. Qed.

Lemma layout_hole s cs1 z k cs2 : layout s (cs1 ++ (z, k) :: cs2) -> k <> Used \/ seg (mem s) (first s) true cs1 true ->
  hole s cs1 z cs2 (bool_decide (k = Used)).
Proof.
  intros (B & (S1 & [Sz S2]%Forall_cons)%Forall_app & T & (b & G1 & G2)%seg_join & Ht) H. cbn [seg] in G2. destruct G2 as (_ & G2 & G3).
  rewrite total_app in T. cbn [total] in T. split_and!; try done; [lia |]. destruct H as [H | H]; [| done]. by destruct (G2 H) as [-> _].
Qed.

(** A chunk in use and the free chunk before it. *)
Lemma layout_hole_before s cs1 w k z cs2 : layout s (cs1 ++ (w, k) :: (z, Used) :: cs2) -> k <> Used -> hole s cs1 (w + z) cs2 true.
Proof.
  intros (B & (S1 & [[W1 W2] [[Z1 Z2] S2]%Forall_cons]%Forall_cons)%Forall_app & T & (b & G1 & G2)%seg_join & Ht) H.
  cbn [seg fst] in *. destruct G2 as (_ & G2 & _ & _ & G3). destruct (G2 H) as [-> _].
  rewrite total_app in T. cbn [total] in T. split_and!; try done; [split; cbn; [by apply Z.divide_add_r | lia] | lia |].
  by rewrite Z.add_assoc.
Qed.

(** The chunk behind joins. *)
Lemma hole_after s cs1 n y k cs2 : hole s cs1 n ((y, k) :: cs2) true -> k <> Used -> hole s cs1 (n + y) cs2 false.
Proof.
  intros (B & S1 & [[Y1 Y2] S2]%Forall_cons & [N1 N2] & T & G1 & (_ & _ & G2) & Ht) H. cbn [fst total] in *.
  split_and!; try done; [split; cbn; [by apply Z.divide_add_r | lia] | lia |]. rewrite bool_decide_eq_false_2 in G2 by done. by rewrite Z.add_assoc.
Qed.

(** ** Putting chunks back *)

Lemma hole_bounds s cs1 n cs2 b : hole s cs1 n cs2 b -> let p := first s + total cs1 in
  976 <= first s /\ first s <= p /\ p + n + total cs2 < 2 ^ 62 /\ 0 <= total cs2 /\ 32 <= n < 2 ^ 40 /\ (32 | n).
Proof.
  intros ((D & H1 & H2 & H3 & H4 & H5 & H6 & H7 & H8) & S1 & S2 & [N1 N2] & T & _). destruct (total_sized _ S1), (total_sized _ S2).
  cbn [fst] in *. change TOP_FOOT_SIZE with 112 in *. unfold first, header_size in *. split_and!; try done; lia.
Qed.

Lemma plus_offset p n : 0 <= p -> 0 <= n -> p + n < 2 ^ 63 -> chunk_plus_offset p n = p + n.
Proof. intros. unfold chunk_plus_offset, u64. apply wrap_small. unfold in_range. lia. Qed.

Lemma tag_range z b c : 0 <= z < 2 ^ 63 -> in_range 64 (tag z b c).
Proof. unfold in_range, tag, flags. destruct b, c; lia. Qed.

(** The whole chunk is in use. *)
Lemma close_used s cs1 n y cs3 b : opened s cs1 n ((y, Used) :: cs3) b -> victim s (around Victim (first s) cs1 n ((y, Used) :: cs3)) ->
  let p := first s + total cs1 in let m' := set_inuse_and_pinuse (mem s) p n in
  inv (set_mem s m') (cs1 ++ (n, Used) :: (y, Used) :: cs3) /\ kept (around Used (first s) cs1 n ((y, Used) :: cs3)) (mem s) m'.
Proof.
  intros O V p m'. destruct (hole_bounds _ _ _ _ _ (proj1 O)) as (P1 & P2 & P3 & P4 & P5 & P6). fold p in P2, P3. cbn [total] in P3.
  destruct O as [Ho Bi]. pose proof Ho as (_ & S1 & [[Y1 Y2] S3]%Forall_cons & _ & _ & _ & G2 & _). cbn [seg fst] in *. destruct G2 as (G2 & _). change (head (mem s) (p + n) = tag y b true) in G2.
  destruct (total_sized _ S3) as [T3 _]. unfold m', set_inuse_and_pinuse in *. rewrite plus_offset in * by lia.
  assert (head (set_head (mem s) p (Z.lor (Z.lor n PINUSE_BIT) CINUSE_BIT)) (p + n) = tag y b true) as Eh.
  { rewrite <- G2. mem_fields. by mem_read. }
  rewrite Eh, tag_mark, tag_inuse in * by done. clear Eh. set (m1 := set_head _ (p + n) _) in *.
  destruct (close_layout s cs1 n y cs3 b m1 true [(n, Used)] _ Ho Bi (reflexivity _)) as (L & B & K); fold p.
  - intros x Hx. unfold m1, set_head. rewrite !st_out by lia. done.
  - cbn. lia.
  - apply Forall_singleton. split; cbn; (done || lia).
  - cbn [seg]. split_and!; [| done | done]. unfold m1. mem_fields. pose proof (tag_range n true true). mem_read; [done | lia..].
  - unfold m1. mem_fields. rewrite ld_st_eq; [done | apply tag_range; lia].
  - split; [| done]. split_and!; [done | |].
    + cbn. change (first (set_mem s m1)) with (first s). rewrite cmap_hole by done. by rewrite decide_False.
    + change (first (set_mem s m1)) with (first s). rewrite cmap_hole by done. by rewrite decide_False.
Qed.

(** The chunk is split: the first part is in use, the rest is free. *)
Lemma close_split s cs1 n y cs3 m' nb r k A : hole s cs1 n ((y, Used) :: cs3) false ->
  bins s A -> A ⊆ around Binned (first s) cs1 n ((y, Used) :: cs3) -> nb + r = n -> sized (nb, Used) -> sized (r, k) -> k <> Used ->
  let p := first s + total cs1 in
  (forall x, x < p + 8 \/ p + n + 8 <= x -> m' x = mem s x) ->
  head m' p = tag nb true true -> head m' (p + nb) = tag r true false -> prev_foot m' (p + n) = r ->
  let cs := cs1 ++ (nb, Used) :: (r, k) :: (y, Used) :: cs3 in
  layout (set_mem s m') cs /\ bins (set_mem s m') A /\
  kept (around Used (first s) cs1 n ((y, Used) :: cs3)) (mem s) m'.
Proof.
  intros O B IA En Sn Sr Hk p E H1 H2 H3 cs. pose proof O as (_ & _ & _ & _ & _ & _ & (G & _) & _).
  change (head (mem s) (p + n) = tag y false true) in G.
  apply (close_layout s cs1 n y cs3 false m' false [(nb, Used); (r, k)] A O B IA).
  - intros x Hx. apply E. fold p in Hx. lia.
  - cbn. lia.
  - constructor; [done |]. by constructor.
  - fold p. cbn [seg]. assert (bool_decide (k = Used) = false) as -> by (by apply bool_decide_eq_false_2).
    split_and!; try done. intros _. split; [done |]. by rewrite <- Z.add_assoc, En.
  - fold p. rewrite <- G. apply ld_ext. intros x Hx. apply E. lia.
Qed.

(** The chunk is free again. *)
Lemma close_free s cs1 n y cs3 b m' k : opened s cs1 n ((y, Used) :: cs3) b -> k <> Used ->
  let p := first s + total cs1 in
  (forall x, x < p + 8 \/ p + n + 16 <= x -> m' x = mem s x) ->
  head m' p = tag n true false -> prev_foot m' (p + n) = n -> head m' (p + n) = tag y false true ->
  layout (set_mem s m') (cs1 ++ (n, k) :: (y, Used) :: cs3) /\ bins (set_mem s m') (around Binned (first s) cs1 n ((y, Used) :: cs3)) /\
  kept (around Used (first s) cs1 n ((y, Used) :: cs3)) (mem s) m'.
Proof.
  intros O Hk p E H1 H2 H3. apply (close_layout s cs1 n y cs3 b m' false [(n, k)] _ (proj1 O) (proj2 O) (reflexivity _)); try done.
  - cbn. lia.
  - apply Forall_singleton. apply O.
  - fold p. cbn [seg]. assert (bool_decide (k = Used) = false) as -> by (by apply bool_decide_eq_false_2). by split_and!.
Qed.

(** The free chunk goes to its bin. *)
Lemma finish_insert s cs F q z : layout s cs -> bins s F -> F !! q = None -> cmap Binned (first s) cs = <[q := z]> F ->
  exists s', insert_chunk s q z = Ret s' /\ layout s' cs /\ bins s' (cmap Binned (first s) cs) /\
    moved s s' (links s (cmap Binned (first s) cs)) /\ kept (cmap Used (first s) cs) (mem s) (mem s').
Proof.
  intros L B E EF. pose proof (layout_wf s cs L) as W. rewrite EF in W. destruct (wf_maps _ _ (proj1 B)) as [M1 M2].
  destruct (insert_chunk_ok s F q z B E (W M1 M2)) as (s' & I & B' & Mv). exists s'. rewrite EF. split_and!; try done.
  - eapply layout_moved; [exact L | | exact Mv]. by rewrite EF.
  - eapply kept_links; [exact L | | | exact Mv]; [by rewrite EF | done].
Qed.

(** The same for a chunk that is small, and for the victim. *)
Lemma finish_insert_small s cs F q z : layout s cs -> bins s F -> F !! q = None -> z < 256 -> cmap Binned (first s) cs = <[q := z]> F ->
  exists s', insert_small_chunk s q z = Ret s' /\ layout s' cs /\ bins s' (cmap Binned (first s) cs) /\
    moved s s' (links s (cmap Binned (first s) cs)) /\ kept (cmap Used (first s) cs) (mem s) (mem s').
Proof.
  intros L B E Hz EF. destruct (finish_insert s cs F q z L B E EF) as (s' & I & R). exists s'. split; [| exact R].
  rewrite <- I. unfold insert_chunk. rewrite is_small_spec. by rewrite bool_decide_eq_true_2.
Qed.

End Layout.
