(* ===== verification/Dlmalloc.v ===== *)
(** * kernel/dlmalloc.cc: the operations of a space *)

From S2P Require Import Prelude DlHeap DlBins.

Module Mspace.
Import Chunk Bins.

(** ** The start of a space *)

(** kernel/dlmalloc.cc:2597-2597, MAX_SMALL_REQUEST. *)
Definition MAX_SMALL_REQUEST : Z := 255 - CHUNK_ALIGN_MASK - CHUNK_OVERHEAD.

(** kernel/dlmalloc.cc:702-702, DEFAULT_TRIM_THRESHOLD. *)
Definition DEFAULT_TRIM_THRESHOLD : Z := 2 * 1024 * 1024.
(** kernel/dlmalloc.cc:697-697, DEFAULT_GRANULARITY. *)
Definition DEFAULT_GRANULARITY : Z := 64 * 1024.
(** kernel/dlmalloc.cc:607-607, MAX_SIZE_T, which is also the MAX_RELEASE_CHECK_RATE. *)
Definition MAX_SIZE_T : Z := 2 ^ 64 - 1.

(** kernel/dlmalloc.cc:3913-3925, init_top. *)
Definition init_top (s : mstate) (p psize : Z) : mstate :=
  let offset := align_offset (p + 16) in
  let p := p + offset in
  let psize := u64 (psize - offset) in
  let m := set_head (mem s) p (Z.lor psize PINUSE_BIT) in
  let m := set_head m (chunk_plus_offset p psize) TOP_FOOT_SIZE in
  set_checks (set_mem (set_top s p psize) m) DEFAULT_TRIM_THRESHOLD (release_checks s).

(** kernel/dlmalloc.cc:3928-3935, init_bins. *)
Definition init_bins (s : mstate) : mstate :=
  set_mem s (fold_left (fun m i => let bin := smallbin_at s i in set_fd (set_bk m bin bin) bin bin)
    (seqZ 0 32) (mem s)).

(** kernel/dlmalloc.cc:5416-5437, init_user_mstate. *)
Definition init_user_mstate (m : ram) (tbase tsize : Z) : mstate :=
  let msize := pad_request sizeof_malloc_state in
  let msp := align_as_chunk tbase in
  let self := chunk2mem msp in
  let m := store_bytes m self (replicate (Z.to_nat msize) 0) in
  let m := set_head m msp (Z.lor msize INUSE_BITS) in
  let s := init_bins (mkState self 0 0 0 0 tbase 0 0 0 MAX_SIZE_T tsize 0 tbase tsize m) in
  let mn := chunk_plus_offset msp (chunksize (mem s) msp) in
  init_top s mn (u64 (tbase + tsize - mn - TOP_FOOT_SIZE)).

(** kernel/dlmalloc.cc:5458-5470, create_mspace_with_base; a page has 2 MiB. *)
Definition create_mspace_with_base (m : ram) (base capacity : Z) : option mstate :=
  let msize := pad_request sizeof_malloc_state in
  if (capacity >? msize + TOP_FOOT_SIZE) && (capacity <? u64 (- (msize + TOP_FOOT_SIZE + 2 * MiB)))
  then Some (init_user_mstate m base capacity) else None.

(** ** Allocation *)

(** kernel/dlmalloc.cc:2430-2430, leftmost_child. *)
Definition leftmost_child (m : ram) (t : Z) : Z := if negb (child m t 0 =? 0) then child m t 0 else child m t 1.

(** kernel/dlmalloc.cc:4490-4497, the loop of tmalloc_large over a subtree: the smallest
    remainder and the chunk that has it. *)
Fixpoint smallest (fuel : nat) (m : ram) (nb t rsize v : Z) : outcome (Z * Z) :=
  if t =? 0 then Ret (rsize, v)
  else
    match fuel with
    | O => OutOfFuel
    | S n =>
        let trem := u64 (chunksize m t - nb) in
        let '(rsize, v) := if trem <? rsize then (trem, t) else (rsize, v) in
        smallest n m nb (leftmost_child m t) rsize v
    end.

(** kernel/dlmalloc.cc:4461-4478, the loop of tmalloc_large down the trie of [nb]: the
    subtree to search next, the smallest remainder and the chunk that has it. *)
Fixpoint find_size (fuel : nat) (m : ram) (nb t sizebits rst rsize v : Z) : outcome (Z * Z * Z) :=
  match fuel with
  | O => OutOfFuel
  | S n =>
      let trem := u64 (chunksize m t - nb) in
      let next rsize v :=
        let rt := child m t 1 in
        let t := child m t (Z.land (Z.shiftr sizebits 63) 1) in
        let rst := if negb (rt =? 0) && negb (rt =? t) then rt else rst in
        if t =? 0 then Ret (rst, rsize, v)
        else find_size n m nb t (u64 (Z.shiftl sizebits 1)) rst rsize v in
      if trem <? rsize then if trem =? 0 then Ret (t, trem, t) else next trem t
      else next rsize v
  end.

(** kernel/dlmalloc.cc:4452-4498, the search of tmalloc_large: the smallest remainder and
    the chunk that has it, or 0. *)
Definition best_large (s : mstate) (nb : Z) : outcome (Z * Z) :=
  let m := mem s in
  let idx := compute_tree_index nb in
  let t := ld m (treebin_at s idx) in
  '(t, rsize, v) ← (if negb (t =? 0)
                    then find_size tree_fuel m nb t (u64 (Z.shiftl nb (leftshift_for_tree_index idx))) 0 (u64 (- nb)) 0
                    else Ret (0, u64 (- nb), 0));
  let t := if (t =? 0) && (v =? 0) then
             let leftbits := Z.land (left_bits (idx2bit idx)) (treemap s) in
             if negb (leftbits =? 0) then ld m (treebin_at s (compute_bit2idx (least_bit leftbits))) else t
           else t in
  smallest tree_fuel m nb t rsize v.

(** kernel/dlmalloc.cc:4501-4517, the end of tmalloc_large: takes the chunk [v], splitting
    off a remainder that is a chunk. *)
Definition take_large (s : mstate) (nb v rsize : Z) : outcome (Z * mstate) :=
  if ok_address s v then
    let r := chunk_plus_offset v nb in
    if ok_next v r then
      s ← unlink_large_chunk s v;
      s ← (if rsize <? MIN_CHUNK_SIZE then Ret (set_mem s (set_inuse_and_pinuse (mem s) v (u64 (rsize + nb))))
           else
             let m := set_size_and_pinuse_of_inuse_chunk (mem s) v nb in
             insert_chunk (set_mem s (set_size_and_pinuse_of_free_chunk m r rsize)) r rsize);
      Ret (chunk2mem v, s)
    else ABORT
  else ABORT.

(** kernel/dlmalloc.cc:4451-4519, tmalloc_large. *)
Definition tmalloc_large (s : mstate) (nb : Z) : outcome (Z * mstate) :=
  '(rsize, v) ← best_large s nb;
  if negb (v =? 0) && (rsize <? u64 (dvsize s - nb)) then take_large s nb v rsize
  else Ret (0, s).

(** kernel/dlmalloc.cc:4522-4557, tmalloc_small. *)
Definition tmalloc_small (s : mstate) (nb : Z) : outcome (Z * mstate) :=
  let m := mem s in
  let t := ld m (treebin_at s (compute_bit2idx (least_bit (treemap s)))) in
  '(rsize, v) ← smallest tree_fuel m nb (leftmost_child m t) (u64 (chunksize m t - nb)) t;
  if ok_address s v then
    let r := chunk_plus_offset v nb in
    if ok_next v r then
      s ← unlink_large_chunk s v;
      s ← (if rsize <? MIN_CHUNK_SIZE then Ret (set_mem s (set_inuse_and_pinuse (mem s) v (u64 (rsize + nb))))
           else
             let m := set_size_and_pinuse_of_inuse_chunk (mem s) v nb in
             replace_dv (set_mem s (set_size_and_pinuse_of_free_chunk m r rsize)) r rsize);
      Ret (chunk2mem v, s)
    else ABORT
  else ABORT.

(** kernel/dlmalloc.cc:4054-4076, sys_alloc, as it is configured: without mmap and morecore
    there is no memory to get, and the function fails in any case (4258-4259). *)
Definition sys_alloc (s : mstate) (nb : Z) : Z * mstate :=
  let asize := Z.land (u64 (nb + TOP_FOOT_SIZE + MALLOC_ALIGNMENT + (DEFAULT_GRANULARITY - 1)))
                 (Z.lnot (DEFAULT_GRANULARITY - 1)) in
  let fp := u64 (footprint s + asize) in
  if asize <=? nb then (0, s)
  else if negb (footprint_limit s =? 0) && ((fp <=? footprint s) || (fp >? footprint_limit s)) then (0, s)
  else (0, s).

(** kernel/dlmalloc.cc:5533-5544, a chunk of the bin [idx] or of the next one, whole. *)
Definition malloc_exact (s : mstate) (idx : Z) : outcome (Z * mstate) :=
  let b := smallbin_at s idx in
  let p := fd (mem s) b in
  s ← unlink_first_small_chunk s b p idx;
  Ret (chunk2mem p, set_mem s (set_inuse_and_pinuse (mem s) p (small_index2size idx))).

(** kernel/dlmalloc.cc:5547-5571, a chunk of the next small bin that has one, split. *)
Definition malloc_split_small (s : mstate) (nb idx smallbits : Z) : outcome (Z * mstate) :=
  let leftbits := Z.land (u32 (Z.shiftl smallbits idx)) (left_bits (idx2bit idx)) in
  let i := compute_bit2idx (least_bit leftbits) in
  let b := smallbin_at s i in
  let p := fd (mem s) b in
  s ← unlink_first_small_chunk s b p i;
  let rsize := u64 (small_index2size i - nb) in
  if rsize <? MIN_CHUNK_SIZE then
    Ret (chunk2mem p, set_mem s (set_inuse_and_pinuse (mem s) p (small_index2size i)))
  else
    let m := set_size_and_pinuse_of_inuse_chunk (mem s) p nb in
    let r := chunk_plus_offset p nb in
    s ← replace_dv (set_mem s (set_size_and_pinuse_of_free_chunk m r rsize)) r rsize;
    Ret (chunk2mem p, s).

(** kernel/dlmalloc.cc:5589-5621, the end of mspace_malloc: the designated victim, the
    top, the system. *)
Definition malloc_rest (s : mstate) (nb : Z) : Z * mstate :=
  if nb <=? dvsize s then
    let rsize := dvsize s - nb in
    let p := dv s in
    if rsize >=? MIN_CHUNK_SIZE then
      let r := chunk_plus_offset p nb in
      let m := set_size_and_pinuse_of_free_chunk (mem s) r rsize in
      (chunk2mem p, set_mem (set_dv s r rsize) (set_size_and_pinuse_of_inuse_chunk m p nb))
    else
      let dvs := dvsize s in
      (chunk2mem p, set_mem (set_dv s 0 0) (set_inuse_and_pinuse (mem s) p dvs))
  else if nb <? topsize s then
    let rsize := topsize s - nb in
    let p := top s in
    let r := chunk_plus_offset p nb in
    let m := set_head (mem s) r (Z.lor rsize PINUSE_BIT) in
    (chunk2mem p, set_mem (set_top s r rsize) (set_size_and_pinuse_of_inuse_chunk m p nb))
  else sys_alloc s nb.

(** kernel/dlmalloc.cc:5517-5629, mspace_malloc. *)
Definition mspace_malloc (s : mstate) (bytes : Z) : outcome (Z * mstate) :=
  if bytes <=? MAX_SMALL_REQUEST then
    let nb := if bytes <? MIN_REQUEST then MIN_CHUNK_SIZE else pad_request bytes in
    let idx := small_index nb in
    let smallbits := Z.shiftr (smallmap s) idx in
    if negb (Z.land smallbits 3 =? 0) then
      malloc_exact s (idx + Z.land (Z.lnot smallbits) 1)
    else if nb >? dvsize s then
      if negb (smallbits =? 0) then malloc_split_small s nb idx smallbits
      else if negb (treemap s =? 0) then
        '(mem, s) ← tmalloc_small s nb;
        if negb (mem =? 0) then Ret (mem, s) else Ret (malloc_rest s nb)
      else Ret (malloc_rest s nb)
    else Ret (malloc_rest s nb)
  else if bytes >=? MAX_REQUEST then Ret (malloc_rest s MAX_SIZE_T)
  else
    let nb := pad_request bytes in
    if negb (treemap s =? 0) then
      '(mem, s) ← tmalloc_large s nb;
      if negb (mem =? 0) then Ret (mem, s) else Ret (malloc_rest s nb)
    else Ret (malloc_rest s nb).

(** ** Release *)

(** kernel/dlmalloc.cc:4365-4374, sys_trim with no pad, as it is configured: the segment is
    external, so nothing is given back and further attempts are disabled. *)
Definition sys_trim (s : mstate) : mstate :=
  if topsize s >? trim_check s then set_checks s MAX_SIZE_T (release_checks s) else s.

(** kernel/dlmalloc.cc:4306-4310, release_unused_segments, with the one segment of the
    space: only the counter is reset. *)
Definition release_unused_segments (s : mstate) : mstate := set_checks s (trim_check s) MAX_SIZE_T.

(** kernel/dlmalloc.cc:5710-5721, the end of mspace_free: the chunk goes to its bin. *)
Definition free_insert (s : mstate) (p psize : Z) : outcome mstate :=
  if is_small psize then insert_small_chunk s p psize
  else
    s ← insert_large_chunk s p psize;
    let s := set_checks s (trim_check s) (u64 (release_checks s - 1)) in
    Ret (if release_checks s =? 0 then release_unused_segments s else s).

(** kernel/dlmalloc.cc:5676-5722, mspace_free from the check of the next chunk on. *)
Definition free_forward (s : mstate) (p psize next : Z) : outcome mstate :=
  let m := mem s in
  if ok_next p next && pinuse m next then
    if negb (cinuse m next) then
      if next =? top s then
        let tsize := u64 (topsize s + psize) in
        let s := set_mem (set_top s p tsize) (set_head m p (Z.lor tsize PINUSE_BIT)) in
        let s := if p =? dv s then set_dv s 0 0 else s in
        Ret (if tsize >? trim_check s then sys_trim s else s)
      else if next =? dv s then
        let dsize := u64 (dvsize s + psize) in
        Ret (set_mem (set_dv s p dsize) (set_size_and_pinuse_of_free_chunk m p dsize))
      else
        let nsize := chunksize m next in
        let psize := u64 (psize + nsize) in
        s ← unlink_chunk s next nsize;
        let s := set_mem s (set_size_and_pinuse_of_free_chunk (mem s) p psize) in
        if p =? dv s then Ret (set_dv s (dv s) psize) else free_insert s p psize
    else free_insert (set_mem s (set_free_with_pinuse m p psize next)) p psize
  else ABORT.

(** kernel/dlmalloc.cc:5631-5730, mspace_free; unmapping does not succeed. *)
Definition mspace_free (s : mstate) (mem_ : Z) : outcome mstate :=
  if negb (mem_ =? 0) then
    let p := mem2chunk mem_ in
    let m := mem s in
    if ok_address s p && is_inuse m p then
      let psize := chunksize m p in
      let next := chunk_plus_offset p psize in
      if negb (pinuse m p) then
        let prevsize := prev_foot m p in
        if is_mmapped m p then Ret s
        else
          let prev := chunk_minus_offset p prevsize in
          let psize := u64 (psize + prevsize) in
          if ok_address s prev then
            if negb (prev =? dv s) then
              s ← unlink_chunk s prev prevsize;
              free_forward s prev psize next
            else if Z.land (head m next) INUSE_BITS =? INUSE_BITS then
              Ret (set_mem (set_dv s (dv s) psize) (set_free_with_pinuse m prev psize next))
            else free_forward s prev psize next
          else ABORT
      else free_forward s p psize next
    else ABORT
  else Ret s.

(** ** Changing the size of a block *)

(** kernel/dlmalloc.cc:4409-4445, dispose_chunk from the check of the next chunk on. *)
Definition dispose_forward (s : mstate) (p psize next : Z) : outcome mstate :=
  let m := mem s in
  if ok_address s next then
    if negb (cinuse m next) then
      if next =? top s then
        let tsize := u64 (topsize s + psize) in
        let s := set_mem (set_top s p tsize) (set_head m p (Z.lor tsize PINUSE_BIT)) in
        Ret (if p =? dv s then set_dv s 0 0 else s)
      else if next =? dv s then
        let dsize := u64 (dvsize s + psize) in
        Ret (set_mem (set_dv s p dsize) (set_size_and_pinuse_of_free_chunk m p dsize))
      else
        let nsize := chunksize m next in
        let psize := u64 (psize + nsize) in
        s ← unlink_chunk s next nsize;
        let s := set_mem s (set_size_and_pinuse_of_free_chunk (mem s) p psize) in
        if p =? dv s then Ret (set_dv s (dv s) psize) else insert_chunk s p psize
    else insert_chunk (set_mem s (set_free_with_pinuse m p psize next)) p psize
  else ABORT.

(** kernel/dlmalloc.cc:4380-4446, dispose_chunk; unmapping does not succeed. *)
Definition dispose_chunk (s : mstate) (p psize : Z) : outcome mstate :=
  let m := mem s in
  let next := chunk_plus_offset p psize in
  if negb (pinuse m p) then
    let prevsize := prev_foot m p in
    if is_mmapped m p then Ret s
    else
      let prev := chunk_minus_offset p prevsize in
      let psize := u64 (psize + prevsize) in
      if ok_address s prev then
        if negb (prev =? dv s) then
          s ← unlink_chunk s prev prevsize;
          dispose_forward s prev psize next
        else if Z.land (head m next) INUSE_BITS =? INUSE_BITS then
          Ret (set_mem (set_dv s (dv s) psize) (set_free_with_pinuse m prev psize next))
        else dispose_forward s prev psize next
      else ABORT
  else dispose_forward s p psize next.

(** kernel/dlmalloc.cc:3875-3907, mmap_resize; there is no mremap. *)
Definition mmap_resize (s : mstate) (oldp nb : Z) : Z :=
  let oldsize := chunksize (mem s) oldp in
  if is_small nb then 0
  else if (oldsize >=? u64 (nb + 8)) && (u64 (oldsize - nb) <=? 2 * DEFAULT_GRANULARITY) then oldp
  else 0.

(** kernel/dlmalloc.cc:4841-4844, the chunk [p] is cut to [nb] bytes and the rest given back;
    the same in 4892-4895 and, for the end of a chunk, in 4963-4967. *)
Definition cut (s : mstate) (p nb rsize : Z) : outcome mstate :=
  let r := chunk_plus_offset p nb in
  let m := set_inuse (mem s) p nb in
  dispose_chunk (set_mem s (set_inuse m r rsize)) r rsize.

(** kernel/dlmalloc.cc:4861-4881, try_realloc_chunk when the designated victim is next. *)
Definition extend_dv (s : mstate) (p nb oldsize : Z) : Z * mstate :=
  let m := mem s in
  let dvs := dvsize s in
  if u64 (oldsize + dvs) >=? nb then
    let dsize := u64 (oldsize + dvs - nb) in
    if dsize >=? MIN_CHUNK_SIZE then
      let r := chunk_plus_offset p nb in
      let n := chunk_plus_offset r dsize in
      let m := set_inuse m p nb in
      let m := set_size_and_pinuse_of_free_chunk m r dsize in
      (p, set_mem (set_dv s r dsize) (clear_pinuse m n))
    else (p, set_mem (set_dv s 0 0) (set_inuse m p (u64 (oldsize + dvs))))
  else (0, s).

(** kernel/dlmalloc.cc:4827-4905, try_realloc_chunk: the chunk, which is [p], or 0. *)
Definition try_realloc_chunk (s : mstate) (p nb : Z) : outcome (Z * mstate) :=
  let m := mem s in
  let oldsize := chunksize m p in
  let next := chunk_plus_offset p oldsize in
  if ok_address s p && is_inuse m p && ok_next p next && pinuse m next then
    if is_mmapped m p then Ret (mmap_resize s p nb, s)
    else if oldsize >=? nb then
      let rsize := oldsize - nb in
      if rsize >=? MIN_CHUNK_SIZE then s ← cut s p nb rsize; Ret (p, s) else Ret (p, s)
    else if next =? top s then
      if u64 (oldsize + topsize s) >? nb then
        let newtopsize := u64 (u64 (oldsize + topsize s) - nb) in
        let newtop := chunk_plus_offset p nb in
        let m := set_inuse m p nb in
        let m := set_head m newtop (Z.lor newtopsize PINUSE_BIT) in
        Ret (p, set_mem (set_top s newtop newtopsize) m)
      else Ret (0, s)
    else if next =? dv s then Ret (extend_dv s p nb oldsize)
    else if negb (cinuse m next) then
      let nextsize := chunksize m next in
      if u64 (oldsize + nextsize) >=? nb then
        let rsize := u64 (u64 (oldsize + nextsize) - nb) in
        s ← unlink_chunk s next nextsize;
        if rsize <? MIN_CHUNK_SIZE then Ret (p, set_mem s (set_inuse (mem s) p (u64 (oldsize + nextsize))))
        else s ← cut s p nb rsize; Ret (p, s)
      else Ret (0, s)
    else Ret (0, s)
  else ABORT.

(** The bytes that memcpy reads. *)
Definition bytes_at (m : ram) (a n : Z) : list Z := map (fun i => m (a + Z.of_nat i)) (seq 0 (Z.to_nat n)).

(** kernel/dlmalloc.cc:2312-2313, overhead_for. *)
Definition overhead_for (m : ram) (p : Z) : Z := if is_mmapped m p then 16 else CHUNK_OVERHEAD.

(** kernel/dlmalloc.cc:5752-5795, mspace_realloc. *)
Definition mspace_realloc (s : mstate) (oldmem bytes : Z) : outcome (Z * mstate) :=
  if oldmem =? 0 then mspace_malloc s bytes
  else if bytes >=? MAX_REQUEST then Ret (0, s)
  else
    let nb := request2size bytes in
    let oldp := mem2chunk oldmem in
    '(newp, s) ← try_realloc_chunk s oldp nb;
    if negb (newp =? 0) then Ret (chunk2mem newp, s)
    else
      '(r, s) ← mspace_malloc s bytes;
      if negb (r =? 0) then
        let oc := u64 (chunksize (mem s) oldp - overhead_for (mem s) oldp) in
        let n := if oc <? bytes then oc else bytes in
        s ← mspace_free (set_mem s (store_bytes (mem s) r (bytes_at (mem s) oldmem n))) oldmem;
        Ret (r, s)
      else Ret (0, s).

(** kernel/dlmalloc.cc:5797-5827, mspace_realloc_in_place. *)
Definition mspace_realloc_in_place (s : mstate) (oldmem bytes : Z) : outcome (Z * mstate) :=
  if negb (oldmem =? 0) then
    if bytes >=? MAX_REQUEST then Ret (0, s)
    else
      let oldp := mem2chunk oldmem in
      '(newp, s) ← try_realloc_chunk s oldp (request2size bytes);
      Ret (if newp =? oldp then oldmem else 0, s)
  else Ret (0, s).

(** kernel/dlmalloc.cc:5732-5750, mspace_calloc. *)
Definition mspace_calloc (s : mstate) (n_elements elem_size : Z) : outcome (Z * mstate) :=
  let req :=
    if negb (n_elements =? 0) then
      let req := u64 (n_elements * elem_size) in
      if negb (Z.land (Z.lor n_elements elem_size) (u64 (Z.lnot 0xffff)) =? 0) && negb (req / n_elements =? elem_size)
      then MAX_SIZE_T else req
    else 0 in
  '(r, s) ← mspace_malloc s req;
  Ret (r, if negb (r =? 0) then set_mem s (store_bytes (mem s) r (replicate (Z.to_nat req) 0)) else s).

(** ** Aligned blocks *)

(** kernel/dlmalloc.cc:4913-4913, the loop of internal_memalign: the first power of two
    from [a] on that is not below [alignment]. *)
Fixpoint round_up (fuel : nat) (a alignment : Z) : outcome Z :=
  if a <? alignment then
    match fuel with
    | O => OutOfFuel
    | S n => round_up n (u64 (Z.shiftl a 1)) alignment
    end
  else Ret a.

(** kernel/dlmalloc.cc:4929-4957, the leading part of the chunk [p] that is misaligned is
    given back: the aligned chunk. *)
Definition align_chunk (s : mstate) (p alignment : Z) : outcome (Z * mstate) :=
  let m := mem s in
  let mem_ := chunk2mem p in
  if negb (Z.land mem_ (alignment - 1) =? 0) then
    let br := mem2chunk (Z.land (u64 (mem_ + alignment - 1)) (u64 (- alignment))) in
    let pos := if u64 (br - p) >=? MIN_CHUNK_SIZE then br else u64 (br + alignment) in
    let leadsize := u64 (pos - p) in
    let newsize := u64 (chunksize m p - leadsize) in
    if is_mmapped m p then
      Ret (pos, set_mem s (set_head (st m pos (u64 (prev_foot m p + leadsize))) pos newsize))
    else
      let m := set_inuse m pos newsize in
      s ← dispose_chunk (set_mem s (set_inuse m p leadsize)) p leadsize;
      Ret (pos, s)
  else Ret (p, s).

(** kernel/dlmalloc.cc:4907-4979, internal_memalign. *)
Definition internal_memalign (s : mstate) (alignment bytes : Z) : outcome (Z * mstate) :=
  let alignment := if alignment <? MIN_CHUNK_SIZE then MIN_CHUNK_SIZE else alignment in
  alignment ← (if negb (Z.land alignment (alignment - 1) =? 0)
               then round_up 64 (Z.shiftl MALLOC_ALIGNMENT 1) alignment else Ret alignment);
  if bytes >=? u64 (MAX_REQUEST - alignment) then Ret (0, s)
  else
    let nb := request2size bytes in
    let req := u64 (nb + alignment + MIN_CHUNK_SIZE - CHUNK_OVERHEAD) in
    '(mem_, s) ← mspace_malloc s req;
    if negb (mem_ =? 0) then
      '(p, s) ← align_chunk s (mem2chunk mem_) alignment;
      s ← (if negb (is_mmapped (mem s) p) then
             let size := chunksize (mem s) p in
             if size >? u64 (nb + MIN_CHUNK_SIZE) then cut s p nb (size - nb) else Ret s
           else Ret s);
      Ret (chunk2mem p, s)
    else Ret (mem_, s).

(** kernel/dlmalloc.cc:5829-5838, mspace_memalign. *)
Definition mspace_memalign (s : mstate) (alignment bytes : Z) : outcome (Z * mstate) :=
  if alignment <=? MALLOC_ALIGNMENT then mspace_malloc s bytes
  else internal_memalign s alignment bytes.

End Mspace.
