(* ===== verification/DlSearch.v ===== *)
(** * kernel/dlmalloc.cc: the search for the best fit

    The loops of tmalloc_large and tmalloc_small walk down a trie.  They end within their
    fuel, find only chunks that are large enough, and find the smallest of those. *)

From S2P Require Import Prelude DlHeap DlBins DlTrie DlFree Dlmalloc.

Module Search.
Import Chunk Bins Trie Free Mspace.

(** The remainder of a chunk that is too small is above every bound the loops start with. *)
Lemma remainder z nb : 0 <= z < 2 ^ 40 -> 0 <= nb < 2 ^ 64 -> u64 (z - nb) = if decide (nb <= z) then z - nb else 2 ^ 64 + z - nb.
Proof.
  intros Hz Hn. unfold u64. case_decide; [apply wrap_small; unfold in_range; lia |].
  replace (z - nb) with ((2 ^ 64 + z - nb) + (-1) * 2 ^ 64) by lia. unfold wrap. rewrite Z.mod_add by lia. apply Z.mod_small. lia.
Qed.

(** Numbers that agree above a bit are ordered by it. *)
Lemma bit_less x y j : 0 <= x -> 0 <= y -> (forall k, j < k -> Z.testbit x k = Z.testbit y k) ->
  Z.testbit x j = false -> Z.testbit y j = true -> x < y.
Proof.
  intros Hx Hy A Bx By. assert (0 <= j) as Hj by (destruct (decide (0 <= j)); [done |]; rewrite Z.testbit_neg_r in By by lia; done).
  assert (Z.shiftr x (j + 1) = Z.shiftr y (j + 1)) as E.
  { apply Z.bits_inj'. intros k Hk. rewrite !Z.shiftr_spec by lia. apply A. lia. }
  assert (Z.shiftr x j = 2 * Z.shiftr x (j + 1) /\ Z.shiftr y j = 2 * Z.shiftr y (j + 1) + 1) as [E1 E2].
  { rewrite <- !Z.shiftr_shiftr by lia. rewrite !(Z.shiftr_div_pow2 _ 1) by lia. change (2 ^ 1) with 2.
    assert (Z.odd (Z.shiftr x j) = false /\ Z.odd (Z.shiftr y j) = true) as [O1 O2] by (rewrite <- !Z.bit0_odd, !Z.shiftr_spec by lia; done).
    rewrite (Zdiv2_odd_eqn (Z.shiftr x j)) at 1. rewrite (Zdiv2_odd_eqn (Z.shiftr y j)) at 1. rewrite O1, O2, !Z.div2_div. lia. }
  rewrite !Z.shiftr_div_pow2 in * by lia. assert (x / 2 ^ j < y / 2 ^ j) as L by lia.
  destruct (Z_lt_le_dec x y) as [| G]; [done |]. pose proof (Z.div_le_mono y x (2 ^ j) ltac:(apply Z.pow_pos_nonneg; lia) G). lia.
Qed.

(** The sizes in a subtrie of depth [d] agree above the bit [b - d]. *)
Definition agree (sz : Z -> Z) (b d : Z) (L : list Z) : Prop :=
  forall q r k, q ∈ L -> r ∈ L -> b - d < k -> Z.testbit (sz q) k = Z.testbit (sz r) k.

Lemma agree_child sz b d p l t0 t1 (c : bool) : trie sz b d (Node p l t0 t1) -> agree sz b d (nodes (Node p l t0 t1)) ->
  agree sz b (d + 1) (nodes (if c then t1 else t0)).
Proof.
  intros (_ & T0 & T1 & _) A q r k Hq Hr Hk. destruct (decide (k = b - d)) as [-> |].
  - destruct c; [destruct (T1 q Hq) as [-> _], (T1 r Hr) as [-> _] | destruct (T0 q Hq) as [-> _], (T0 r Hr) as [-> _]]; done.
  - apply A; [| | lia]; cbn; destruct c; set_solver.
Qed.

Lemma left_less sz b d p l t0 t1 q r : (forall q, q ∈ nodes (Node p l t0 t1) -> 0 <= sz q) -> trie sz b d (Node p l t0 t1) -> agree sz b d (nodes (Node p l t0 t1)) ->
  q ∈ nodes t0 -> r ∈ nodes t1 -> sz q < sz r.
Proof.
  intros P (_ & T0 & T1 & _) A Hq Hr. assert (q ∈ nodes (Node p l t0 t1) /\ r ∈ nodes (Node p l t0 t1)) as [Iq Ir] by (cbn; set_solver).
  apply (bit_less _ _ (b - d)); [by apply P | by apply P | | by apply T0 | by apply T1]. intros k Hk. by apply A.
Qed.

Section search.
Context (m : ram) (i : Z) (sz : Z -> Z) (b nb : Z).
Context (Hn : 0 <= nb < 2 ^ 64).

(** The subtrie [t] at [a] with the sizes that its chunks have. *)
Definition sub (par a : Z) (t : tree) : Prop :=
  (t <> Leaf -> rep m i par a t) /\ sep a (nodes t) /\ forall q, q ∈ nodes t -> chunksize m q = sz q /\ 0 <= sz q < 2 ^ 40.

Lemma sub_child par a p l t0 t1 (c : bool) : sub par a (Node p l t0 t1) -> sub p (slot p c) (if c then t1 else t0).
Proof.
  intros (R & S & H). specialize (R ltac:(done)). split; [intros _; destruct c; apply R |]. split; [apply (sep_sub a [] p l t0 t1 c S) |].
  intros q Hq. apply H. cbn. destruct c; set_solver.
Qed.

Lemma sub_root par a t : sub par a t -> t <> Leaf -> rootp t <> 0.
Proof. intros (_ & S & _) Ht. pose proof (sep_range _ _ S _ (rootp_nodes t Ht)). lia. Qed.

(** The chunk [v'] with the remainder [rs'] is a better one of [L], or the one before. *)
Definition better (L : list Z) (rsize v rs' v' : Z) : Prop :=
  (rs' = rsize /\ v' = v) \/ (v' ∈ L /\ nb <= sz v' /\ rs' = sz v' - nb /\ rs' < rsize).

Lemma better_mono L L' rsize v rs' v' : L ⊆ L' -> better L rsize v rs' v' -> better L' rsize v rs' v'.
Proof. intros I [? | (? & ?)]; [by left | right]. split; [by apply I | done]. Qed.

Lemma better_trans L r1 v1 r2 v2 r3 v3 : better L r1 v1 r2 v2 -> better L r2 v2 r3 v3 -> better L r1 v1 r3 v3.
Proof. intros [[-> ->] | (? & ? & ? & ?)] [[-> ->] | (? & ? & ? & ?)]; unfold better; auto; right; split_and!; (done || lia). Qed.

(** One chunk is looked at. *)
Lemma look p rsize v : 0 <= sz p < 2 ^ 40 -> rsize <= 2 ^ 64 - nb ->
  let '(rs', v') := if u64 (sz p - nb) <? rsize then (u64 (sz p - nb), p) else (rsize, v) in
  better [p] rsize v rs' v' /\ rs' <= rsize /\ (nb <= sz p -> rs' <= sz p - nb).
Proof.
  intros Hz Hr. rewrite remainder by done. unfold better. destruct (Z.ltb_spec (if decide (nb <= sz p) then sz p - nb else 2 ^ 64 + sz p - nb) rsize) as [L | L].
  - case_decide; [| lia]. split_and!; try lia. right. split_and!; try lia. left.
  - split_and!; [by left | lia |]. intros G. rewrite decide_True in L by done. lia.
Qed.

Lemma smallest_ok t : forall fuel par a d rsize v, sub par a t -> (height t <= fuel)%nat -> rsize <= 2 ^ 64 - nb ->
  exists rs' v', smallest fuel m nb (rootp t) rsize v = Ret (rs', v') /\ rs' <= rsize /\ better (nodes t) rsize v rs' v' /\
    (trie sz b d t -> agree sz b d (nodes t) -> (forall q, q ∈ nodes t -> nb <= sz q) -> forall q, q ∈ nodes t -> rs' <= sz q - nb).
Proof.
  induction t as [| p l t0 IH0 t1 IH1]; intros fuel par a d rsize v Hs Hh Hr.
  { exists rsize, v. destruct fuel; cbn; (split_and!; [done | lia | by left | intros _ _ _ q Hq; by apply elem_of_nil in Hq]). }
  destruct fuel as [| fuel]; [cbn in Hh; lia |]. cbn [smallest rootp height] in *.
  pose proof (sub_root _ _ _ Hs ltac:(done)) as Np. cbn [rootp] in Np. destruct (Z.eqb_spec p 0); [done |].
  pose proof Hs as (R & S & Hz). specialize (R ltac:(done)). destruct (Hz p ltac:(left)) as [-> Zp].
  pose proof (look p rsize v Zp Hr) as Lk. destruct (if u64 (sz p - nb) <? rsize then _ else _) as [r1 v1]. destruct Lk as (B1 & L1 & C1).
  set (c := is_leaf t0). assert (leftmost_child m p = rootp (if c then t1 else t0)) as ->.
  { unfold leftmost_child. destruct (rep_node _ _ _ _ _ _ _ _ R) as (_ & _ & R0 & R1).
    assert (child m p 0 = rootp t0 /\ child m p 1 = rootp t1) as [-> ->] by (split; [apply (rep_root _ _ _ _ _ R0) | apply (rep_root _ _ _ _ _ R1)]).
    pose proof (sub_root _ _ _ (sub_child _ _ _ _ _ _ false Hs)) as N0. unfold c. destruct t0 as [| p0 l0 t00 t01]; [done |]. cbn [is_leaf].
    destruct (Z.eqb_spec (rootp (Node p0 l0 t00 t01)) 0); [by destruct N0 | done]. }
  assert (exists rs' v', smallest fuel m nb (rootp (if c then t1 else t0)) r1 v1 = Ret (rs', v') /\ rs' <= r1 /\ better (nodes (if c then t1 else t0)) r1 v1 rs' v' /\
    (trie sz b (d + 1) (if c then t1 else t0) -> agree sz b (d + 1) (nodes (if c then t1 else t0)) -> (forall q, q ∈ nodes (if c then t1 else t0) -> nb <= sz q) ->
      forall q, q ∈ nodes (if c then t1 else t0) -> rs' <= sz q - nb)) as (rs' & v' & E & L2 & B2 & C2).
  { pose proof (sub_child _ _ _ _ _ _ c Hs) as Hc. destruct c; [eapply IH1 | eapply IH0]; (exact Hc || lia). }
  exists rs', v'. rewrite E. assert (nodes (if c then t1 else t0) ⊆ nodes (Node p l t0 t1)) as I by (cbn; clear; destruct c; set_solver).
  split_and!; [done | lia | |].
  - eapply better_trans; [eapply better_mono; [| exact B1] | eapply better_mono; [exact I | exact B2]]. cbn. clear. set_solver.
  - intros T A G q Hq. assert (forall q, q ∈ nodes (if c then t1 else t0) -> rs' <= sz q - nb) as C2'.
    { apply C2; [destruct c; apply T | by eapply agree_child |]. intros r Hr'. by apply G, I. }
    pose proof (G p ltac:(left)) as Gp. specialize (C1 Gp). cbn [nodes] in Hq. rewrite elem_of_cons, !elem_of_app in Hq.
    destruct Hq as [-> | [Hq | Hq]]; [lia | destruct T as (T & _); rewrite (T q Hq); lia |].
    unfold c in *. destruct t0 as [| p0 l0 t00 t01]; cbn [is_leaf] in *; [destruct Hq as [Hq | Hq]; [by apply elem_of_nil in Hq | auto] |].
    destruct Hq as [Hq | Hq]; [auto |]. pose proof (left_less sz b d p l (Node p0 l0 t00 t01) t1 p0 q) as LL.
    specialize (C2' p0 ltac:(left)). enough (sz p0 < sz q) by lia. apply LL; try done; [intros r Hr'; by apply Hz | left].
Qed.

(** A subtrie in which every chunk is large enough. *)
Definition enough_for (t : tree) : Prop :=
  exists d, trie sz b d t /\ agree sz b d (nodes t) /\ forall q, q ∈ nodes t -> nb <= sz q.

(** The chunks of [L] that are large enough have remainders of at least [rs], or there is a
    smaller chunk in [t]. *)
Definition covers (L : list Z) (rs : Z) (t : tree) : Prop :=
  forall q, q ∈ L -> nb <= sz q -> rs <= sz q - nb \/ exists r, r ∈ nodes t /\ sz r <= sz q.

(** The outcome of the loop: the subtrie to search next. *)
Definition found (t rst : tree) (rsize v : Z) (complete : Prop) (o : outcome (Z * Z * Z)) : Prop :=
  exists T par a rs' v', o = Ret (rootp T, rs', v') /\ sub par a T /\ (height T <= Nat.max (height t) (height rst))%nat /\
    nodes T ⊆ nodes t ++ nodes rst /\ rs' <= rsize /\ better (nodes t) rsize v rs' v' /\
    (complete -> (rs' = 0 /\ v' ∈ nodes t) \/ (enough_for T /\ covers (nodes t ++ nodes rst) rs' T)).

(** The sizes of the subtrie at depth [d] start like [nb]; the subtrie to search next has larger ones. *)
Definition on_path (d : Z) (t rst : tree) : Prop :=
  trie sz b d t /\ (forall q k, q ∈ nodes t -> b - d < k -> Z.testbit (sz q) k = Z.testbit nb k) /\
  enough_for rst /\ forall q r, q ∈ nodes t -> r ∈ nodes rst -> sz q < sz r.

Lemma path_agree d t rst : on_path d t rst -> agree sz b d (nodes t).
Proof. intros (_ & P & _) q r k Hq Hr Hk. by rewrite (P q k Hq Hk), (P r k Hr Hk). Qed.

(** The next subtrie to search and the path below a node. *)
Definition next_rst (c : bool) (t1 rst : tree) : tree := if c then rst else if is_leaf t1 then rst else t1.

Lemma path_below d p l t0 t1 rst (Hz : forall q, q ∈ nodes (Node p l t0 t1) -> 0 <= sz q) : on_path d (Node p l t0 t1) rst ->
  let c := Z.testbit nb (b - d) in
  on_path (d + 1) (if c then t1 else t0) (next_rst c t1 rst) /\
  forall rs T, rs <= (if decide (nb <= sz p) then sz p - nb else rs) ->
    covers (nodes (if c then t1 else t0) ++ nodes (next_rst c t1 rst)) rs T -> covers (nodes (Node p l t0 t1) ++ nodes rst) rs T.
Proof.
  intros P. pose proof (path_agree _ _ _ P) as A. pose proof P as (T & Pf & ER & Lt). pose proof T as (T0 & T1 & T2 & T3 & T4). cbn zeta. set (c := Z.testbit nb (b - d)).
  assert (forall q, q ∈ nodes (if c then t1 else t0) -> q ∈ nodes (Node p l t0 t1)) as Ic by (cbn; clear; destruct c; set_solver).
  assert (forall q, q ∈ nodes t1 -> q ∈ nodes (Node p l t0 t1)) as I1 by (cbn; clear; set_solver).
  assert (forall q, q ∈ nodes t0 -> q ∈ nodes (Node p l t0 t1)) as I0 by (cbn; clear; set_solver).
  assert (c = false -> enough_for t1) as E1.
  { intros Ec. exists (d + 1). split_and!; [done | apply (agree_child sz b d p l t0 t1 true T A) |]. intros q Hq. enough (nb < sz q) by lia.
    apply (bit_less _ _ (b - d)); [lia | by apply Hz, I1 | | done | by apply T2]. intros k Hk. symmetry. by apply Pf; [apply I1 |]. }
  split.
  - split_and!.
    + by destruct c.
    + intros q k Hq Hk. destruct (decide (k = b - d)) as [-> |]; [| apply Pf; [by apply Ic | lia]].
      unfold c in *. destruct (Z.testbit nb (b - d)); [by apply T2 | by apply T1].
    + unfold next_rst. destruct c; [done |]. destruct (is_leaf t1); [done | by apply E1].
    + intros q r Hq Hr. unfold next_rst in Hr. destruct c; [by apply Lt; [apply Ic |] |]. destruct (is_leaf t1); [by apply Lt; [apply Ic |] |].
      by apply (left_less sz b d p l t0 t1).
  - intros rs T' Hp Cv q Hq G. rewrite elem_of_app in Hq.
    assert (forall q', q' ∈ nodes (if c then t1 else t0) ++ nodes (next_rst c t1 rst) -> nb <= sz q' -> sz q' <= sz q ->
      rs <= sz q - nb \/ exists r, r ∈ nodes T' /\ sz r <= sz q) as Via.
    { intros q' Hq' G' Le. destruct (Cv q' Hq' G') as [? | (r & ? & ?)]; [left; lia | right; exists r; split; [done | lia]]. }
    assert (q ∈ nodes (if c then t1 else t0) \/ q ∈ nodes (next_rst c t1 rst) -> rs <= sz q - nb \/ exists r, r ∈ nodes T' /\ sz r <= sz q) as Via'
      by (intros H; apply (Via q); [by apply elem_of_app | done | lia]).
    destruct Hq as [Hq | Hq].
    + cbn [nodes] in Hq. rewrite elem_of_cons, !elem_of_app in Hq. destruct Hq as [-> | [Hq | Hq]].
      * left. rewrite decide_True in Hp by done. lia.
      * left. rewrite (T0 q Hq) in *. rewrite decide_True in Hp by done. lia.
      * unfold next_rst in *. destruct c eqn:Ec.
        -- destruct Hq as [Hq | Hq]; [| auto]. exfalso. enough (sz q < nb) by lia.
           apply (bit_less _ _ (b - d)); [by apply Hz, I0 | lia | intros k Hk; apply Pf; [by apply I0 | done] | by apply T1 | done].
        -- destruct Hq as [Hq | Hq]; [auto |]. destruct t1; [by apply elem_of_nil in Hq | auto].
    + unfold next_rst in *. destruct c eqn:Ec; [auto |]. destruct t1 as [| p1 l1 t10 t11]; [auto |]. cbn [is_leaf] in *.
      destruct (E1 eq_refl) as (d1 & _ & _ & G1). apply (Via p1); [apply elem_of_app; right; left | apply G1; left |].
      pose proof (Lt p1 q ltac:(apply I1; left) Hq). lia.
Qed.

(** The loop below a node at which [r1] and [v1] are the best so far. *)
Definition find_below (fuel : nat) (p : Z) (c : bool) (d rst r1 v1 : Z) : outcome (Z * Z * Z) :=
  let rt := child m p 1 in
  let t := child m p (if c then 1 else 0) in
  let rst := if negb (rt =? 0) && negb (rt =? t) then rt else rst in
  if t =? 0 then Ret (rst, r1, v1) else find_size fuel m nb t (Kbits nb b (d + 1)) rst r1 v1.

Lemma next_rst_root par a p l t0 t1 rst (c : bool) : sub par a (Node p l t0 t1) ->
  (if negb (rootp t1 =? 0) && negb (rootp t1 =? rootp (if c then t1 else t0)) then rootp t1 else rootp rst) = rootp (next_rst c t1 rst).
Proof.
  intros Hs. unfold next_rst. destruct c; [rewrite Z.eqb_refl; by rewrite andb_false_r |].
  pose proof (sub_root _ _ _ (sub_child _ _ _ _ _ _ true Hs)) as N1. destruct t1 as [| p1 l1 t10 t11]; [done |]. cbn [is_leaf rootp] in *.
  destruct (Z.eqb_spec p1 0); [by destruct N1 |]. destruct (Z.eqb_spec p1 (rootp t0)) as [E |]; [| done]. exfalso.
  destruct t0 as [| p0 l0 t00 t01]; [done |]. cbn in E. subst p0. destruct Hs as (_ & S & _). pose proof (sep_nodup _ _ S) as N.
  cbn in N. apply NoDup_cons in N as [_ (_ & _ & [N _]%NoDup_cons)%NoDup_app]. apply N. set_solver.
Qed.

Lemma find_below_ok fuel par a parR aR p l t0 t1 rst rsize v r1 v1 d : let c := Z.testbit nb (b - d) in
  sub par a (Node p l t0 t1) -> sub parR aR rst -> better [p] rsize v r1 v1 -> r1 <= rsize -> (nb <= sz p -> r1 <= sz p - nb) ->
  (forall parR' aR', (if c then t1 else t0) <> Leaf -> sub parR' aR' (next_rst c t1 rst) ->
    found (if c then t1 else t0) (next_rst c t1 rst) r1 v1 (on_path (d + 1) (if c then t1 else t0) (next_rst c t1 rst))
      (find_size fuel m nb (rootp (if c then t1 else t0)) (Kbits nb b (d + 1)) (rootp (next_rst c t1 rst)) r1 v1)) ->
  found (Node p l t0 t1) rst rsize v (on_path d (Node p l t0 t1) rst) (find_below fuel p c d (rootp rst) r1 v1).
Proof.
  intros c Hs Hr B1 L1 C1 IH. pose proof Hs as (R & S & Hz). specialize (R ltac:(done)). destruct (rep_node _ _ _ _ _ _ _ _ R) as (_ & _ & R0 & R1). unfold find_below.
  assert (child m p 1 = rootp t1 /\ child m p (if c then 1 else 0) = rootp (if c then t1 else t0)) as [-> ->].
  { split; [apply (rep_root _ _ _ _ _ R1) |]. destruct c; [apply (rep_root _ _ _ _ _ R1) | apply (rep_root _ _ _ _ _ R0)]. }
  cbn zeta. rewrite (next_rst_root par a p l t0 t1 rst c Hs).
  assert (exists parR' aR', sub parR' aR' (next_rst c t1 rst)) as (parR' & aR' & Hn').
  { unfold next_rst. destruct c; [eauto |]. destruct (is_leaf t1); [eauto |]. exists p, (slot p true). apply (sub_child _ _ _ _ _ _ true Hs). }
  assert (nodes (next_rst c t1 rst) ⊆ nodes (Node p l t0 t1) ++ nodes rst) as Hn3.
  { unfold next_rst. clear. cbn. destruct c; [set_solver |]. destruct (is_leaf t1); set_solver. }
  assert (height (next_rst c t1 rst) <= Nat.max (height (Node p l t0 t1)) (height rst))%nat as Hn2.
  { unfold next_rst. cbn [height]. destruct c; [lia |]. destruct (is_leaf t1); lia. }
  pose proof (fun P => path_below d p l t0 t1 rst (fun q Hq => proj1 (proj2 (Hz q Hq))) P) as PB. cbn zeta in PB. fold c in PB.
  assert (better (nodes (Node p l t0 t1)) rsize v r1 v1) as B1' by (eapply better_mono; [| exact B1]; cbn; set_solver).
  destruct (decide (is_leaf (if c then t1 else t0) = true)) as [El | El].
  - destruct (if c then t1 else t0); [| done]. cbn [rootp Z.eqb].
    exists (next_rst c t1 rst), parR', aR', r1, v1. split_and!; try done. intros P. destruct (PB P) as [P' Cv]. right. split; [apply P' |].
    apply Cv; [case_decide; auto; lia |]. intros q Hq _. right. exists q. split; [| lia]. apply elem_of_app in Hq as [Hq | Hq]; [by apply elem_of_nil in Hq | done].
  - assert ((if c then t1 else t0) <> Leaf) as Nl by (intros E'; by rewrite E' in El).
    pose proof (sub_root _ _ _ (sub_child _ _ _ _ _ _ c Hs) Nl) as Nr. destruct (Z.eqb_spec (rootp (if c then t1 else t0)) 0); [done |].
    destruct (IH parR' aR' Nl Hn') as (T & parT & aT & rs' & v' & E & H1 & H2 & HT & H3 & H4 & H5).
    assert (forall q, q ∈ nodes (if c then t1 else t0) -> q ∈ nodes (Node p l t0 t1)) as I by (cbn; clear; destruct c; set_solver).
    exists T, parT, aT, rs', v'. split_and!; try done.
    + cbn [height] in *. destruct c; cbn in *; lia.
    + intros q Hq%HT. apply elem_of_app in Hq as [Hq | Hq]; [apply elem_of_app; left; by apply I | by apply Hn3].
    + lia.
    + eapply better_trans; [exact B1' | eapply better_mono; [exact I | exact H4]].
    + intros P. destruct (PB P) as [P' Cv]. destruct (H5 P') as [[H6 H7] | [H6 H7]]; [left; auto | right]. split; [done |]. apply Cv; [| done]. case_decide; [specialize (C1 H); lia | lia].
Qed.

Lemma find_ok t : forall fuel par a parR aR d rst rsize v, t <> Leaf -> sub par a t -> sub parR aR rst -> (height t <= fuel)%nat ->
  rsize <= 2 ^ 64 - nb -> b <= 63 -> 0 <= d ->
  found t rst rsize v (on_path d t rst) (find_size fuel m nb (rootp t) (Kbits nb b d) (rootp rst) rsize v).
Proof.
  induction t as [| p l t0 IH0 t1 IH1]; intros fuel par a parR aR d rst rsize v Ht Hs Hr Hh Hrs Hb Hd; [done |].
  destruct fuel as [| fuel]; [cbn in Hh; lia |]. cbn [find_size rootp height] in *.
  pose proof Hs as (R & S & Hz). specialize (R ltac:(done)). destruct (Hz p ltac:(left)) as [-> Zp].
  pose proof (look p rsize v Zp Hrs) as Lk. set (z := u64 (sz p - nb)) in *.
  rewrite Kbits_test, Kbits_next by done. set (c := Z.testbit nb (b - d)).
  assert (forall r1 v1, better [p] rsize v r1 v1 -> r1 <= rsize -> (nb <= sz p -> r1 <= sz p - nb) ->
    found (Node p l t0 t1) rst rsize v (on_path d (Node p l t0 t1) rst) (find_below fuel p c d (rootp rst) r1 v1)) as G.
  { intros r1 v1 B1 L1 C1. apply (find_below_ok fuel par a parR aR); try done. fold c. intros parR' aR' Nl Hn'.
    pose proof (sub_child _ _ _ _ _ _ c Hs) as Hc. destruct c; [eapply IH1 | eapply IH0]; eauto; lia. }
  revert Lk. destruct (Z.ltb_spec z rsize) as [L | L]; intros (B1 & L1 & C1); [| by apply G]. destruct (Z.eqb_spec z 0) as [E | E]; [| by apply G].
  exists (Node p l t0 t1), par, a, z, p. split_and!; try done; [cbn; lia | clear; set_solver | |].
  - eapply better_mono; [| exact B1]. cbn. set_solver.
  - intros _. left. split; [done | left].
Qed.

End search.

(** ** The best fit *)

(** The chunk [v] is the best fit for [nb] among the large chunks of [F], and [rs] its
    remainder; or [v] is 0, and there is none. *)
Definition best_fit (F : gmap Z Z) (nb rs v : Z) : Prop :=
  ((v = 0 /\ rs = 2 ^ 64 - nb) \/ (F !! v = Some (rs + nb) /\ 0 <= rs /\ 256 <= rs + nb)) /\
  forall q z, F !! q = Some z -> 256 <= z -> nb <= z -> rs <= z - nb.

(** The trie of a bin as the loops see it. *)
Lemma bin_sub s F i : bins s F -> 0 <= i < 32 -> let H := treebin_at s i in exists t,
  sub (mem s) i (sizes F) H H t /\ trie (sizes F) (top_bit i) 0 t /\ agree (sizes F) (top_bit i) 0 (nodes t) /\ (height t <= tree_fuel)%nat /\
  ld (mem s) H = rootp t /\ Z.testbit (treemap s) i = negb (is_leaf t) /\
  (forall q, q ∈ nodes t -> F !! q = Some (sizes F q) /\ 256 <= sizes F q < 2 ^ 40 /\ compute_tree_index (sizes F q) = i) /\
  (forall q z, F !! q = Some z -> 256 <= z -> compute_tree_index z = i -> q ∈ nodes t /\ sizes F q = z).
Proof.
  intros [W B] Hi H. destruct (B i Hi) as [_ (t & N & L & Bt & R & T)].
  destruct (tree_sep s F i (nodes t) W Hi N (fun p => proj1 (L p))) as (S & Sz & Hd). exists t. unfold sub. split_and!; try done.
  - intros q Hq. split; [by apply Hd |]. destruct (Sz q Hq) as ((? & ?) & _). lia.
  - intros q r j Hq Hr Hj. destruct (Sz q Hq) as (? & _ & Eq), (Sz r Hr) as (? & _ & Er). apply tree_index_bits; try done; [congruence |]. rewrite Eq. lia.
  - by apply (tree_height s F i t W Hi N (fun p => proj1 (L p))).
  - apply (rep_root _ _ _ _ _ R).
  - intros q Hq. destruct (Sz q Hq) as (? & _ & ?). split; [| done]. apply L in Hq as (z & E & _). unfold sizes. by rewrite E.
  - intros q z E Hz Ei. split; [| unfold sizes; by rewrite E]. apply L. exists z. split; [done |]. unfold bin_of. rewrite is_small_spec, bool_decide_eq_false_2 by lia. by rewrite Ei.
Qed.

Lemma tree_index_range z : 0 <= compute_tree_index z < 32.
Proof.
  unfold compute_tree_index. set (x := u32 (Z.shiftr z 8)). assert (in_range 32 x) as Hx by (apply wrap_range; lia).
  destruct (Z.eqb_spec x 0); [lia |]. destruct (Z.gtb_spec x 0xFFFF); [lia |]. unfold in_range in Hx.
  assert (0 <= Z.log2 x < 16) by (split; [apply Z.log2_nonneg | apply Z.log2_lt_pow2; lia]).
  rewrite Z.shiftl_mul_pow2 by lia. change (2 ^ 1) with 2. assert (0 <= Z.land (Z.shiftr z (Z.log2 x + 7)) 1 < 2); [| lia].
  rewrite (Z.land_ones _ 1) by lia. apply Z.mod_pos_bound. lia.
Qed.

Lemma sub_leaf m i sz : sub m i sz 0 0 Leaf.
Proof. split_and!; [done | | intros q Hq; by apply elem_of_nil in Hq]. split; [intros q r Hq | constructor | intros q Hq | intros q Hq]; by apply elem_of_nil in Hq. Qed.

Lemma neg_wrap nb : 0 < nb < 2 ^ 64 -> u64 (- nb) = 2 ^ 64 - nb.
Proof. intros Hn. pose proof (remainder 0 nb ltac:(lia) ltac:(lia)) as E. rewrite decide_False in E by lia. exact E. Qed.

(** The first loop. *)
Lemma first_loop s F nb idx t : let H := treebin_at s idx in 0 < nb < 2 ^ 64 -> 0 <= idx < 32 ->
  sub (mem s) idx (sizes F) H H t -> (height t <= tree_fuel)%nat ->
  found (mem s) idx (sizes F) (top_bit idx) nb t Leaf (2 ^ 64 - nb) 0 (on_path (sizes F) (top_bit idx) nb 0 t Leaf)
    (if negb (rootp t =? 0) then find_size tree_fuel (mem s) nb (rootp t) (u64 (Z.shiftl nb (leftshift_for_tree_index idx))) 0 (u64 (- nb)) 0
     else Ret (0, u64 (- nb), 0)).
Proof.
  intros H Hn Hi Hs Hh. rewrite neg_wrap by done. pose proof (sub_root _ _ _ _ _ _ Hs) as Nr. destruct t as [| p l t0 t1].
  - exists Leaf, 0, 0, (2 ^ 64 - nb), 0. split_and!; try done; [by apply sub_leaf | by left |]. intros (_ & _ & E & _). right. split; [done |].
    intros q Hq. by apply elem_of_nil in Hq.
  - specialize (Nr ltac:(done)). destruct (Z.eqb_spec (rootp (Node p l t0 t1)) 0); [done |]. cbn [negb]. rewrite leftshift_top_bit.
    replace (63 - top_bit idx) with (63 - top_bit idx + 0) by lia. fold (Kbits nb (top_bit idx) 0).
    pose proof (top_bit_range idx Hi). eapply (find_ok (mem s) idx (sizes F) (top_bit idx) nb ltac:(lia) (Node p l t0 t1) tree_fuel H H 0 0 0 Leaf); try done; [by apply sub_leaf | lia].
Qed.

Lemma best_fit_of F nb rs v L : (forall q, q ∈ L -> F !! q = Some (sizes F q) /\ 256 <= sizes F q < 2 ^ 40) ->
  better (sizes F) nb L (2 ^ 64 - nb) 0 rs v -> (v = 0 /\ rs = 2 ^ 64 - nb) \/ (F !! v = Some (rs + nb) /\ 0 <= rs /\ 256 <= rs + nb).
Proof.
  intros M [[-> ->] | (Hv & G & -> & _)]; [by left | right]. destruct (M v Hv) as [E ?]. replace (sizes F v - nb + nb) with (sizes F v) by lia. split_and!; (done || lia).
Qed.

(** The second loop, when the bin of [nb] has no chunk that is large enough. *)
Lemma next_bin s F nb : bins s F -> 256 <= nb < 2 ^ 64 -> let idx := compute_tree_index nb in
  (nb < 2 ^ 40 -> forall q z, F !! q = Some z -> 256 <= z -> compute_tree_index z = idx -> z < nb) ->
  let leftbits := Z.land (left_bits (idx2bit idx)) (treemap s) in
  exists rs v, smallest tree_fuel (mem s) nb (if negb (leftbits =? 0) then ld (mem s) (treebin_at s (compute_bit2idx (least_bit leftbits))) else 0) (2 ^ 64 - nb) 0 = Ret (rs, v) /\
    best_fit F nb rs v.
Proof.
  intros B Hn idx No leftbits. pose proof (tree_index_range nb) as Hi. fold idx in Hi.
  assert (forall j, 0 <= j < 32 -> Z.testbit leftbits j = bool_decide (idx < j < 32) && Z.testbit (treemap s) j) as Lb.
  { intros j Hj. unfold leftbits. rewrite Z.land_spec, left_bits_spec by lia. done. }
  assert (forall q z, F !! q = Some z -> 256 <= z -> nb <= z -> idx < compute_tree_index z /\ Z.testbit leftbits (compute_tree_index z) = true /\ nb < 2 ^ 40) as Hi2.
  { intros q z E Hz G. destruct (wf_chunk _ _ (proj1 B) q z E) as (_ & _ & _ & Hz' & _). pose proof (tree_index_range z) as Hj.
    assert (idx < compute_tree_index z) as L.
    { destruct (Z.lt_total idx (compute_tree_index z)) as [| [Eq | Lt]]; [done | |].
      - pose proof (No ltac:(lia) q z E Hz ltac:(done)). lia.
      - pose proof (tree_index_mono z nb ltac:(lia) ltac:(lia) Lt). lia. }
    split; [done |]. split; [| lia]. rewrite Lb, bool_decide_eq_true_2 by lia. destruct (bin_sub s F _ B Hj) as (t & _ & _ & _ & _ & _ & -> & _ & M').
    destruct (M' q z E Hz eq_refl) as [Hq _]. destruct t; [by apply elem_of_nil in Hq | done]. }
  destruct (Z.eqb_spec leftbits 0) as [E0 | N0]; cbn [negb].
  - exists (2 ^ 64 - nb), 0. split; [done |]. split; [by left |]. intros q z E Hz G. destruct (Hi2 q z E Hz G) as (_ & Bq & _). by rewrite E0, Z.testbit_0_l in Bq.
  - assert (in_range 32 leftbits) as Rl. { apply land_range; [lia | | apply B]. apply Z.lor_nonneg. split; apply wrap_range; lia. }
    destruct (least_bit_spec leftbits Rl N0) as (Ri & Bi & Li). set (i := compute_bit2idx (least_bit leftbits)) in *.
    rewrite Lb in Bi by done. apply andb_true_iff in Bi as [Bi Bt]. apply bool_decide_eq_true_1 in Bi.
    destruct (bin_sub s F i B Ri) as (t & Hs & T & A & Hh & -> & Et & Mem & Mem').
    destruct (smallest_ok (mem s) i (sizes F) (top_bit i) nb ltac:(lia) t tree_fuel _ _ 0 (2 ^ 64 - nb) 0 Hs Hh ltac:(lia)) as (rs & v & E & L & Bv & C).
    exists rs, v. split; [done |]. split; [eapply best_fit_of; [| exact Bv]; intros q Hq; destruct (Mem q Hq) as (? & ? & _); done |].
    intros q z Eq Hz G. destruct (Hi2 q z Eq Hz G) as (Hq1 & Hq2 & Hq3). destruct (wf_chunk _ _ (proj1 B) q z Eq) as (_ & _ & _ & Hz' & _).
    assert (forall r, r ∈ nodes t -> nb <= sizes F r) as Big.
    { intros r Hr. destruct (Mem r Hr) as (_ & ? & Er). pose proof (tree_index_mono nb (sizes F r) ltac:(lia) ltac:(lia)) as Mo. rewrite Er in Mo. fold idx in Mo. lia. }
    specialize (C T A Big). destruct (Z.lt_total i (compute_tree_index z)) as [Lt | [Eq' | Gt]].
    + destruct t as [| p l t0 t1]; [by rewrite Et in Bt |]. specialize (C p ltac:(left)). destruct (Mem p ltac:(left)) as (_ & ? & Ep).
      pose proof (tree_index_mono (sizes F p) z ltac:(lia) ltac:(lia)) as Mo. rewrite Ep in Mo. lia.
    + destruct (Mem' q z Eq Hz ltac:(done)) as [Hq <-]. by apply C.
    + rewrite (Li _ Gt) in Hq2. done.
Qed.


(** The search of tmalloc_large finds the best fit. *)
Lemma best_large_ok s F nb : bins s F -> 256 <= nb < 2 ^ 64 -> exists rs v, best_large s nb = Ret (rs, v) /\ best_fit F nb rs v.
Proof.
  intros B Hn. set (idx := compute_tree_index nb). pose proof (tree_index_range nb) as Hi. fold idx in Hi.
  destruct (bin_sub s F idx B Hi) as (t & Hs & T & A & Hh & El & _ & Mem & Mem').
  destruct (first_loop s F nb idx t ltac:(lia) Hi Hs Hh) as (T' & par & a & r1 & v1 & E & Hs' & Hh' & I & L1 & B1 & C1).
  unfold best_large. fold idx. rewrite El, E. cbn [mbind outcome_bind]. cbn [nodes] in I. rewrite app_nil_r in I. cbn [height] in Hh'.
  assert (nb < 2 ^ 40 -> on_path (sizes F) (top_bit idx) nb 0 t Leaf) as P.
  { intros G. split_and!; [done | | exists 0; split_and!; [done | |]; [intros q r k Hq | intros q Hq]; by apply elem_of_nil in Hq | intros q r _ Hr; by apply elem_of_nil in Hr].
    intros q k Hq Hk. destruct (Mem q Hq) as (_ & ? & Eq). apply tree_index_bits; try done; [lia |]. rewrite Eq. lia. }
  assert (forall q, q ∈ nodes t -> q <> 0) as Nz by (intros q Hq; destruct Hs as (_ & S & _); pose proof (sep_range _ _ S q Hq); lia).
  destruct (decide (rootp T' = 0 /\ v1 = 0)) as [[E0 ->] | Hf].
  - rewrite E0. cbn [Z.eqb andb]. assert (T' = Leaf) as -> by (destruct T'; [done | by destruct (sub_root _ _ _ _ _ _ Hs')]).
    assert (r1 = 2 ^ 64 - nb) as -> by (destruct B1 as [[-> _] | (Hv & _)]; [done | by destruct (Nz 0 Hv)]).
    apply next_bin; try done. fold idx. intros G q z Eq Hz Ei. destruct (Mem' q z Eq Hz Ei) as [Hq Ez].
    destruct (Z_lt_le_dec z nb) as [| Le]; [done |]. exfalso. destruct (C1 (P G)) as [[? Hv] | [_ Cv]]; [by destruct (Nz 0 Hv) |].
    destruct (Mem q Hq) as (_ & ? & _). destruct (Cv q) as [? | (r & Hr & _)]; [apply elem_of_app; by left | lia | lia | by apply elem_of_nil in Hr].
  - assert (((rootp T' =? 0) && (v1 =? 0)) = false) as -> by (destruct (Z.eqb_spec (rootp T') 0), (Z.eqb_spec v1 0); try done; by destruct Hf).
    destruct (smallest_ok (mem s) idx (sizes F) (top_bit idx) nb ltac:(lia) T' tree_fuel par a 0 r1 v1 Hs' ltac:(lia) ltac:(lia)) as (rs & v & E' & L2 & B2 & _).
    assert (better (sizes F) nb (nodes t) (2 ^ 64 - nb) 0 rs v) as B3 by (eapply better_trans; [exact B1 |]; by eapply better_mono).
    exists rs, v. split; [done |]. split; [eapply best_fit_of; [| exact B3]; intros q Hq; destruct (Mem q Hq) as (? & ? & _); done |].
    intros q z Eq Hz G. destruct (wf_chunk _ _ (proj1 B) q z Eq) as (_ & _ & _ & Hz' & _). specialize (C1 (P ltac:(lia))).
    assert (rs <= 0 \/ exists d, trie (sizes F) (top_bit idx) d T' /\ agree (sizes F) (top_bit idx) d (nodes T') /\ (forall q, q ∈ nodes T' -> nb <= sizes F q) /\
      covers (sizes F) nb (nodes t) r1 T') as D.
    { destruct C1 as [[-> _] | [(d & D1 & D2 & D3) D4]]; [left; lia | right]. exists d. cbn [nodes] in D4. rewrite app_nil_r in D4. done. }
    destruct D as [D | (d & D1 & D2 & D3 & D4)]; [lia |].
    destruct (smallest_ok (mem s) idx (sizes F) (top_bit idx) nb ltac:(lia) T' tree_fuel par a d r1 v1 Hs' ltac:(lia) ltac:(lia)) as (rs2 & v2 & E2 & _ & _ & C2).
    rewrite E' in E2. injection E2 as <- <-. specialize (C2 D1 D2 D3).
    assert (forall r, r ∈ nodes t -> nb <= sizes F r -> rs <= sizes F r - nb) as All.
    { intros r Hr Gr. destruct (D4 r Hr Gr) as [? | (r' & Hr' & ?)]; [lia |]. specialize (C2 r' Hr'). lia. }
    destruct (Z.lt_total idx (compute_tree_index z)) as [Lt | [Eq' | Gt]].
    + assert (exists r, r ∈ nodes t /\ nb <= sizes F r) as (r & Hr & Gr).
      { destruct B1 as [[-> ->] | (Hv & Gv & _)]; [| by exists v1]. destruct T' as [| p l t0 t1]; [by destruct Hf |].
        exists p. split; [apply I; left | apply D3; left]. }
      specialize (All r Hr Gr). destruct (Mem r Hr) as (_ & ? & Er). pose proof (tree_index_mono (sizes F r) z ltac:(lia) ltac:(lia)) as Mo. rewrite Er in Mo. lia.
    + destruct (Mem' q z Eq Hz ltac:(done)) as [Hq <-]. by apply All.
    + pose proof (tree_index_mono z nb ltac:(lia) ltac:(lia) Gt). lia.
Qed.

(** The search of tmalloc_small, in the first bin that is not empty. *)
Lemma best_small_ok s F nb : bins s F -> 0 <= nb < 256 -> treemap s <> 0 ->
  let t := ld (mem s) (treebin_at s (compute_bit2idx (least_bit (treemap s)))) in
  exists rs v, smallest tree_fuel (mem s) nb (leftmost_child (mem s) t) (u64 (chunksize (mem s) t - nb)) t = Ret (rs, v) /\ best_fit F nb rs v /\ v <> 0.
Proof.
  intros B Hn N0. destruct (least_bit_spec (treemap s)) as (Ri & Bi & Li); [apply B | done |]. set (i := compute_bit2idx (least_bit (treemap s))) in *.
  destruct (bin_sub s F i B Ri) as (t & Hs & T & A & Hh & -> & Et & Mem & Mem'). rewrite Et in Bi. destruct t as [| p l t0 t1]; [done |].
  destruct (smallest_ok (mem s) i (sizes F) (top_bit i) nb ltac:(lia) (Node p l t0 t1) (S tree_fuel) _ _ 0 (2 ^ 64 - nb) 0 Hs ltac:(lia) ltac:(lia)) as (rs & v & E & L & Bv & C).
  pose proof (sub_root _ _ _ _ _ _ Hs ltac:(done)) as Np. cbn [rootp] in *. destruct (Mem p ltac:(left)) as (Ep & Zp & Ip).
  assert (chunksize (mem s) p = sizes F p) as Ec by (by apply Hs; left). specialize (C T A).
  assert (forall q, q ∈ nodes (Node p l t0 t1) -> nb <= sizes F q) as Big by (intros q Hq; destruct (Mem q Hq) as (_ & ? & _); lia). specialize (C Big).
  assert (smallest (S tree_fuel) (mem s) nb p (2 ^ 64 - nb) 0 =
    smallest tree_fuel (mem s) nb (leftmost_child (mem s) p) (u64 (chunksize (mem s) p - nb)) p) as Es.
  { cbn [smallest]. destruct (Z.eqb_spec p 0); [done |]. rewrite Ec, remainder, decide_True by lia. destruct (Z.ltb_spec (sizes F p - nb) (2 ^ 64 - nb)); [done | lia]. }
  rewrite Es in E. exists rs, v. pose proof (C p ltac:(left)) as Cp. split_and!; [done | |].
  - split; [eapply best_fit_of; [| exact Bv]; intros q Hq; destruct (Mem q Hq) as (? & ? & _); done |].
    intros q z Eq Hz G. destruct (wf_chunk _ _ (proj1 B) q z Eq) as (_ & _ & _ & Hz' & _). pose proof (tree_index_range z) as Hj.
    destruct (Z.lt_total i (compute_tree_index z)) as [Lt | [Eq' | Gt]].
    + pose proof (tree_index_mono (sizes F p) z ltac:(lia) ltac:(lia)) as Mo. rewrite Ip in Mo. lia.
    + destruct (Mem' q z Eq Hz ltac:(done)) as [Hq <-]. by apply C.
    + pose proof (Li _ Gt) as Bz. destruct (bin_sub s F _ B Hj) as (t' & _ & _ & _ & _ & _ & Et' & _ & M2). rewrite Et' in Bz.
      destruct (M2 q z Eq Hz eq_refl) as [Hq _]. destruct t'; [by apply elem_of_nil in Hq | done].
  - destruct Bv as [[-> _] | (Hv & _)]; [lia |]. destruct Hs as (_ & S & _). pose proof (sep_range _ _ S v Hv). lia.
Qed.

End Search.
