(* ===== verification/DlAlloc.v ===== *)
(** * kernel/dlmalloc.cc: mspace_malloc is correct

    In a space that satisfies the invariant, mspace_malloc returns a block that was not in
    use, of the padded size, keeps the contents of all other blocks and the invariant, and
    fails only if no free chunk is large enough; it neither aborts nor runs out of
    fuel.  The search for the best fit in the tries is shown to find the smallest chunk
    that is large enough. *)

From S2P Require Import Prelude DlHeap DlBins DlTrie DlFree DlLayout Dlmalloc DlSearch.

Module Alloc.
Import Chunk Bins Trie Free Layout Mspace Search.

#[local] Ltac Zify.zify_post_hook ::= Z.to_euclidean_division_equations.

(** The blocks in use. *)
Definition used (s : mstate) (cs : chunks) : gmap Z Z := cmap Used (first s) cs.

Definition same_space (s s' : mstate) : Prop := self s' = self s /\ seg_base s' = seg_base s /\ seg_size s' = seg_size s.

Lemma same_space_trans s s' s'' : same_space s s' -> same_space s' s'' -> same_space s s''.
Proof. unfold same_space. intros (? & ? & ?) (? & ? & ?). split_and!; congruence. Qed.

Lemma moved_space s s' P : moved s s' P -> same_space s s'.
Proof. by intros [(sm & tm & m' & ->) _]. Qed.

Lemma same_first s s' : same_space s s' -> first s' = first s.
Proof. unfold first. by intros (-> & _). Qed.

(** From a space with the blocks [U] and the memory [m], a block of size [nb] at [r] was
    allocated. *)
Definition allocated (s : mstate) (U : gmap Z Z) (nb r : Z) (s' : mstate) : Prop :=
  exists cs' p, r = p + 16 /\ inv s' cs' /\ same_space s s' /\ U !! p = None /\ used s' cs' = <[p := nb]> U /\ kept U (mem s) (mem s').

Lemma allocated_trans s s1 U nb r s' : same_space s s1 -> kept U (mem s) (mem s1) -> allocated s1 U nb r s' -> allocated s U nb r s'.
Proof.
  intros E K (cs' & p & H1 & H2 & H3 & H4 & H5 & H6). exists cs', p. split_and!; try done; [by eapply same_space_trans | by eapply kept_trans].
Qed.

(** ** A chunk of a bin is taken *)

Lemma cmap_split k p cs q z : cmap k p cs !! q = Some z -> exists cs1 cs2, cs = cs1 ++ (z, k) :: cs2 /\ q = p + total cs1.
Proof.
  revert p. induction cs as [| [w j] cs IH]; intros p; cbn; [done |].
  assert (cmap k (p + w) cs !! q = Some z -> exists cs1 cs2, (w, j) :: cs = cs1 ++ (z, k) :: cs2 /\ q = p + total cs1) as G.
  { intros (cs1 & cs2 & -> & ->)%IH. exists ((w, j) :: cs1), cs2. cbn. split; [done | lia]. }
  destruct (decide (j = k)) as [-> |]; [| done]. intros [[-> ->] | [_ E]]%lookup_insert_Some; [| auto]. exists [], cs. cbn. split; [done | lia].
Qed.

Lemma victim_fields s s' V : dv s' = dv s -> dvsize s' = dvsize s -> victim s V -> victim s' V.
Proof. unfold victim. by intros -> ->. Qed.

Lemma take_binned s cs s' p z : inv s cs -> cmap Binned (first s) cs !! p = Some z ->
  bins s' (delete p (cmap Binned (first s) cs)) -> moved s s' (links s (cmap Binned (first s) cs)) ->
  exists cs1 y cs3, let cs2 := (y, Used) :: cs3 in cs = cs1 ++ (z, Binned) :: cs2 /\ p = first s' + total cs1 /\
    opened s' cs1 z cs2 false /\ victim s' (around Victim (first s') cs1 z cs2) /\ used s cs = around Used (first s') cs1 z cs2 /\
    same_space s s' /\ kept (used s cs) (mem s) (mem s').
Proof.
  intros (L & B & V) E B' M. destruct (cmap_split _ _ _ _ _ E) as (cs1 & cs2 & -> & ->). pose proof (moved_space _ _ _ M) as SS.
  pose proof (layout_moved _ _ _ _ L (reflexivity _) M) as L'.
  pose proof (layout_hole s' cs1 z Binned cs2 L' ltac:(by left)) as Ho. change (bool_decide (Binned = Used)) with false in Ho.
  assert (Forall sized cs1 /\ Forall sized cs2) as [S1 S2] by (split; apply Ho).
  destruct (seg_after_free (mem s') (first s' + total cs1 + z) cs2) as (y & cs3 & ->); [apply Ho |].
  exists cs1, y, cs3. cbn zeta. rewrite (same_first _ _ SS). rewrite cmap_hole in B' by done. rewrite decide_True in B' by done.
  assert (around Binned (first s) cs1 z ((y, Used) :: cs3) !! (first s + total cs1) = None) as Nq.
  { apply around_none; try done. pose proof (hole_bounds _ _ _ _ _ Ho) as (_ & _ & _ & _ & ? & _). lia. }
  rewrite delete_insert_id in B' by done.
  assert (opened s' cs1 z ((y, Used) :: cs3) false) as O by (split; [done | by rewrite (same_first _ _ SS)]).
  split; [done |]. split; [done |]. split; [exact O |]. split_and!; try apply SS.
  - rewrite cmap_hole in V by done. rewrite decide_False in V by done. destruct M as [(sm & tm & m' & ->) _]. exact V.
  - unfold used. rewrite cmap_hole by done. by rewrite decide_False.
  - apply (kept_links s s' _ _ _ L (reflexivity _) (reflexivity _) M).
Qed.

Lemma alloc_whole s cs1 n y cs3 b : let cs2 := (y, Used) :: cs3 in let p := first s + total cs1 in
  opened s cs1 n cs2 b -> victim s (around Victim (first s) cs1 n cs2) ->
  allocated s (around Used (first s) cs1 n cs2) n (p + 16) (set_mem s (set_inuse_and_pinuse (mem s) p n)).
Proof.
  intros cs2 p O V. destruct (close_used s cs1 n y cs3 b O V) as [I K]. exists (cs1 ++ (n, Used) :: (y, Used) :: cs3), p.
  assert (Forall sized cs1 /\ Forall sized cs2) as [S1 S2] by (split; apply O). pose proof (hole_bounds _ _ _ _ _ (proj1 O)) as (_ & _ & _ & _ & ? & _).
  split_and!; try done; [apply around_none; try done; lia |]. unfold used. rewrite cmap_hole by done. by rewrite decide_True.
Qed.

(** The memory [m'] after the chunk [p] is split. *)
Definition split_of (m : ram) (p nb r : Z) (m' : ram) : Prop :=
  (forall x, x < p + 8 \/ p + (nb + r) + 8 <= x -> m' x = m x) /\ head m' p = tag nb true true /\ head m' (p + nb) = tag r true false /\
  prev_foot m' (p + (nb + r)) = r.

Definition split_mem (m : ram) (p nb r : Z) : ram :=
  set_size_and_pinuse_of_free_chunk (set_size_and_pinuse_of_inuse_chunk m p nb) (p + nb) r.

Lemma split_mem_ok m p nb r : 0 <= p -> sized (nb, Used) -> sized (r, Used) -> p + nb + r < 2 ^ 62 ->
  split_of m p nb r (split_mem m p nb r) /\
  split_of m p nb r (set_size_and_pinuse_of_inuse_chunk (set_size_and_pinuse_of_free_chunk m (p + nb) r) p nb).
Proof.
  intros Hp [Dn Hn] [Dr Hr] Hb. cbn [fst] in *. unfold split_of, split_mem, set_size_and_pinuse_of_free_chunk, set_size_and_pinuse_of_inuse_chunk, set_foot.
  rewrite plus_offset, tag_inuse, tag_free by (done || lia). pose proof (tag_range nb true true ltac:(lia)). pose proof (tag_range r true false ltac:(lia)).
  rewrite Z.add_assoc. split_and!; mem_fields; try (intros x Hx; mem_out; done); by mem_read.
Qed.

(** What a split leaves: the tags of both parts, with the rest of kind [k]. *)
Lemma hole_split s cs1 n y cs3 nb r k A m' : let cs2 := (y, Used) :: cs3 in let p := first s + total cs1 in
  hole s cs1 n cs2 false -> bins s A -> A ⊆ around Binned (first s) cs1 n cs2 -> nb + r = n -> sized (nb, Used) -> sized (r, k) -> k <> Used ->
  split_of (mem s) p nb r m' ->
  let s1 := set_mem s m' in let cs := cs1 ++ (nb, Used) :: (r, k) :: cs2 in
  layout s1 cs /\ bins s1 A /\ kept (around Used (first s) cs1 n cs2) (mem s) (mem s1) /\
  cmap Used (first s) cs = <[p := nb]> (around Used (first s) cs1 n cs2) /\
  (forall j, j <> Used -> cmap j (first s) cs = if decide (k = j) then <[p + nb := r]> (around j (first s) cs1 n cs2) else around j (first s) cs1 n cs2).
Proof.
  intros cs2 p O Bi IA En [N1 N2] [R1 R2] Hk (M1 & M2 & M3 & M4) s1 cs. destruct (hole_bounds _ _ _ _ _ O) as (P1 & P2 & P3 & P4 & P5 & P6). cbn [fst] in *.
  assert (Forall sized cs1 /\ Forall sized cs2) as [S1 S2] by (split; apply O). fold p in P2, P3. rewrite En in M1, M4.
  destruct (close_split s cs1 n y cs3 m' nb r k A O Bi IA En) as (L & B & K); try done.
  split_and!; try done.
  - unfold cs. rewrite cmap_hole, decide_True by done. f_equal. rewrite (around_after Used _ cs1 nb r k) by (done || lia).
    rewrite decide_False by done. by rewrite En.
  - intros j Hj. unfold cs. rewrite cmap_hole, decide_False by done. rewrite (around_after j _ cs1 nb r k) by (done || lia). rewrite En. done.
Qed.

(** The sizes of a split are in range. *)
Lemma split_mem_hole s cs1 n cs2 b nb r k : hole s cs1 n cs2 b -> nb + r = n -> sized (nb, Used) -> sized (r, k) ->
  let p := first s + total cs1 in
  split_of (mem s) p nb r (split_mem (mem s) p nb r) /\
  split_of (mem s) p nb r (set_size_and_pinuse_of_inuse_chunk (set_size_and_pinuse_of_free_chunk (mem s) (p + nb) r) p nb).
Proof. intros Ho En Sn Sr p. destruct (hole_bounds _ _ _ _ _ Ho) as (? & ? & ? & ? & _). fold p in H0, H1. apply split_mem_ok; try done; lia. Qed.

Lemma alloc_split_insert s cs1 n y cs3 nb r : let cs2 := (y, Used) :: cs3 in let p := first s + total cs1 in
  opened s cs1 n cs2 false -> victim s (around Victim (first s) cs1 n cs2) -> nb + r = n -> sized (nb, Used) -> sized (r, Binned) ->
  exists s', insert_chunk (set_mem s (split_mem (mem s) p nb r)) (p + nb) r = Ret s' /\
    allocated s (around Used (first s) cs1 n cs2) nb (p + 16) s'.
Proof.
  intros cs2 p O V En Sn Sr. destruct (hole_split s cs1 n y cs3 nb r Binned _ (split_mem (mem s) p nb r) (proj1 O) (proj2 O) (reflexivity _) En Sn Sr ltac:(done)) as (L & B & K & EU & EJ);
    [apply (split_mem_hole s cs1 n cs2 false nb r Binned (proj1 O) En Sn Sr) |].
  set (cs := cs1 ++ _) in *. fold cs2 in L, B, K, EU, EJ. fold p in L, B, K, EU, EJ. set (s1 := set_mem s _) in *. pose proof (EJ Binned ltac:(done)) as EB. rewrite decide_True in EB by done.
  assert (Forall sized cs1 /\ Forall sized cs2) as [S1 S2] by (split; apply O). destruct Sn as [N1 N2], Sr as [R1 R2]. cbn [fst] in *.
  destruct (finish_insert s1 cs _ (p + nb) r L B) as (s' & I & L' & B' & M & K'); [apply around_none; try done; fold p; lia | exact EB |].
  exists s'. split; [exact I |]. pose proof (moved_space _ _ _ M) as SS. pose proof (same_first _ _ SS) as Ef. change (first s1) with (first s) in *.
  exists cs, p. split_and!; try apply SS.
  - done.
  - split; [done |]. rewrite Ef. split; [done |]. rewrite EJ, decide_False by done. destruct M as [(sm & tm & m' & ->) _]. exact V.
  - apply around_none; try done. fold p. lia.
  - unfold used. by rewrite Ef.
  - eapply kept_trans; [exact K |]. eapply kept_weaken; [| exact K']. rewrite EU. apply insert_subseteq, around_none; try done. fold p. lia.
Qed.

(** The rest becomes the victim; the old one goes to a bin. *)
Lemma alloc_split_victim s cs1 n y cs3 nb r : let cs2 := (y, Used) :: cs3 in let p := first s + total cs1 in
  opened s cs1 n cs2 false -> victim s (around Victim (first s) cs1 n cs2) -> dvsize s < 256 ->
  nb + r = n -> sized (nb, Used) -> sized (r, Victim) ->
  exists s', replace_dv (set_mem s (split_mem (mem s) p nb r)) (p + nb) r = Ret s' /\
    allocated s (around Used (first s) cs1 n cs2) nb (p + 16) s'.
Proof.
  intros cs2 p [Ho Bi] V Hd En Sn Sr. pose proof (hole_retire _ _ _ _ _ Ho) as Ho'. assert (Forall sized cs1 /\ Forall sized cs2) as [S1 S2] by (split; apply Ho).
  pose proof (hole_bounds _ _ _ _ _ Ho) as (_ & _ & _ & _ & Bn & _).
  pose proof (fun k => around_retire k (first s) cs1 n cs2 S1 S2 ltac:(lia)) as AR.
  destruct (hole_split s (retire cs1) n y (retire cs3) nb r Victim (around Binned (first s) cs1 n cs2) (split_mem (mem s) p nb r) Ho' Bi) as (L & B & K & EU & EJ); try done.
  { change ((y, Used) :: retire cs3) with (retire cs2). rewrite (AR Binned). apply map_union_subseteq_l. }
  { rewrite total_retire. apply (split_mem_hole s cs1 n cs2 false nb r Victim Ho En Sn Sr). }
  change ((y, Used) :: retire cs3) with (retire cs2) in *. rewrite total_retire in *. fold p in L, B, K, EU, EJ. set (cs := retire cs1 ++ _) in *.
  set (s1 := set_mem s (split_mem (mem s) p nb r)) in *. rewrite (AR Used) in K, EU.
  pose proof (EJ Binned ltac:(done)) as EB. pose proof (EJ Victim ltac:(done)) as EV. rewrite decide_False, (AR Binned) in EB by done. rewrite decide_True, (AR Victim) in EV by done.
  assert (p + nb <> 0 /\ around Used (first s) cs1 n cs2 !! p = None) as [Np Nu].
  { pose proof (hole_bounds _ _ _ _ _ Ho) as (? & ? & _). destruct Sn as [_ ?]. cbn in *. split; [fold p in H0; lia | apply around_none; try done; fold p; lia]. }
  assert (exists s2, (if negb (dvsize s1 =? 0) then insert_small_chunk s1 (dv s1) (dvsize s1) else Ret s1) = Ret s2 /\
    layout s2 cs /\ bins s2 (cmap Binned (first s) cs) /\ same_space s s2 /\ kept (cmap Used (first s) cs) (mem s1) (mem s2)) as (s2 & E2 & L2 & B2 & SS & K2).
  { cbn [dv dvsize s1 set_mem]. destruct V as [(-> & _ & V) | (Vp & V)].
    - exists s1. cbn [Z.eqb negb]. rewrite V, map_union_empty in EB. rewrite EB. split_and!; try done.
    - destruct (Z.eqb_spec (dvsize s) 0); [lia |]. cbn [negb].
      assert (around Binned (first s) cs1 n cs2 !! dv s = None) as Nd.
      { apply eq_None_not_Some. intros [z Ez]. enough (Binned = Victim) by done.
        eapply (around_kind _ _ _ cs1 n cs2); [done | done | lia | exact Ez | rewrite V; apply lookup_singleton_eq]. }
      destruct (finish_insert_small s1 cs _ (dv s) (dvsize s) L B) as (s2 & I & L2 & B2 & M & K2); [done | done | |].
      + change (first s1) with (first s). by rewrite EB, V, insert_union_singleton_r.
      + exists s2. split_and!; try done; apply (moved_space _ _ _ M). }
  exists (set_dv s2 (p + nb) r). unfold replace_dv. rewrite E2. split; [done |]. exists cs, p.
  assert (first s2 = first s) as Ef by (by apply same_first). split_and!; try done; try apply SS.
  - split; [exact L2 |]. change (first (set_dv s2 (p + nb) r)) with (first s2). rewrite Ef. split.
    + eapply bins_frame; [exact B2 | done..].
    + right. cbn. destruct Sr as [_ ?]. cbn in *. split; [lia |]. by rewrite EV.
  - unfold used. change (first (set_dv s2 (p + nb) r)) with (first s2). by rewrite Ef.
  - cbn [mem set_dv]. eapply kept_trans; [exact K |]. eapply kept_weaken; [| exact K2]. rewrite EU. by apply insert_subseteq.
Qed.

(** ** The designated victim and the top *)

(** The victim as an open chunk. *)
Lemma take_victim s cs : inv s cs -> 0 < dvsize s ->
  exists cs1 y cs3, let cs2 := (y, Used) :: cs3 in cs = cs1 ++ (dvsize s, Victim) :: cs2 /\ dv s = first s + total cs1 /\
    opened s cs1 (dvsize s) cs2 false /\ around Victim (first s) cs1 (dvsize s) cs2 = ∅ /\ used s cs = around Used (first s) cs1 (dvsize s) cs2.
Proof.
  intros (L & B & V) Hd. destruct V as [(? & _) | [_ V]]; [lia |].
  destruct (cmap_split Victim (first s) cs (dv s) (dvsize s)) as (cs1 & cs2 & -> & Ed); [rewrite V; apply lookup_singleton_eq |].
  pose proof (layout_hole s cs1 _ Victim cs2 L ltac:(by left)) as Ho. change (bool_decide (Victim = Used)) with false in Ho.
  assert (Forall sized cs1 /\ Forall sized cs2) as [S1 S2] by (split; apply Ho).
  destruct (seg_after_free (mem s) (first s + total cs1 + dvsize s) cs2) as (y & cs3 & ->); [apply Ho |].
  exists cs1, y, cs3. cbn zeta. split; [done |]. split; [done |]. unfold used. rewrite cmap_hole in B, V |- * by done.
  rewrite decide_False in B by done. rewrite decide_False by done. rewrite decide_True in V by done. split; [done |]. split; [| done].
  apply map_empty. intros q. destruct (decide (q = dv s)) as [-> | Nq].
  - rewrite Ed. apply around_none; try done. lia.
  - assert (({[dv s := dvsize s]} : gmap Z Z) !! q = None) as E by (by apply lookup_singleton_ne). rewrite <- V, lookup_insert_ne in E by congruence. done.
Qed.

Lemma rest_victim s cs nb : inv s cs -> sized (nb, Used) -> nb <= dvsize s ->
  let '(r, s') := malloc_rest s nb in allocated s (used s cs) nb r s'.
Proof.
  intros I [N1 N2] Hn. cbn [fst] in *. destruct (take_victim s cs I ltac:(lia)) as (cs1 & y & cs3 & -> & Ed & [Ho Bi] & EV & ->).
  destruct (hole_bounds _ _ _ _ _ Ho) as (P1 & P2 & P3 & P4 & P5 & P6). assert (Forall sized cs1 /\ Forall sized ((y, Used) :: cs3)) as [S1 S2] by (split; apply Ho).
  unfold malloc_rest. destruct (Z.leb_spec nb (dvsize s)); [| lia]. rewrite Ed in *. set (p := first s + total cs1) in *.
  assert (chunk2mem p = p + 16) as -> by (unfold chunk2mem, u64; apply wrap_small; unfold in_range; lia).
  change MIN_CHUNK_SIZE with 32. destruct (Z.geb_spec (dvsize s - nb) 32) as [G | G].
  - rewrite plus_offset by lia. set (r := dvsize s - nb) in *.
    assert (sized (r, Victim)) as Sr by (split; cbn; [by apply Z.divide_sub_r | lia]).
    destruct (split_mem_hole s cs1 _ _ false nb r Victim Ho ltac:(unfold r; lia) ltac:(done) Sr) as [_ Sp]. fold p in Sp.
    destruct (hole_split s cs1 _ y cs3 nb r Victim _ _ Ho Bi (reflexivity _) ltac:(unfold r; lia) ltac:(done) Sr ltac:(done) Sp) as (L & B & K & EU & EJ).
    fold p in L, B, K, EU, EJ. set (m' := set_size_and_pinuse_of_inuse_chunk _ p nb) in *. eexists _, p. split_and!.
    + done.
    + split_and!; [exact L | | right; cbn [dvsize dv set_mem set_dv]].
      * change (first (set_mem (set_dv s (p + nb) r) m')) with (first s). rewrite EJ, decide_False by done. eapply bins_frame; [exact B | done..].
      * change (first (set_mem (set_dv s (p + nb) r) m')) with (first s). rewrite EJ, decide_True, EV by done. split; [lia | done].
    + done.
    + apply around_none; try done. fold p. lia.
    + exact EU.
    + exact K.
  - assert (dvsize s = nb) as En by (destruct N1 as [a Ea], P6 as [c Ec]; lia). rewrite En in *.
    apply (alloc_whole (set_dv s 0 0) cs1 nb y cs3 false).
    + split; [exact Ho |]. eapply bins_frame; [exact Bi | done..].
    + left. split_and!; try done.
Qed.

Lemma rest_top s cs nb : inv s cs -> sized (nb, Used) -> dvsize s < nb < topsize s ->
  let '(r, s') := malloc_rest s nb in allocated s (used s cs) nb r s'.
Proof.
  intros (L & B & V) [N1 N2] Hn. cbn [fst] in *. destruct (first_in _ _ L) as (F1 & F2 & F3 & F4).
  destruct L as (Ba & S & T & G & Ht). pose proof Ba as (D & H1 & H2 & H3 & H4 & H5 & H6 & H7 & H8). change TOP_FOOT_SIZE with 112 in H6.
  destruct (total_sized cs S) as [T0 _]. unfold malloc_rest. destruct (Z.leb_spec nb (dvsize s)); [lia |]. destruct (Z.ltb_spec nb (topsize s)); [| lia].
  set (p := top s) in *. assert (chunk2mem p = p + 16) as -> by (unfold chunk2mem, u64; apply wrap_small; unfold in_range; lia).
  rewrite plus_offset by lia. set (r := topsize s - nb). assert (32 | r) as Dr by (by apply Z.divide_sub_r).
  unfold set_size_and_pinuse_of_inuse_chunk. rewrite tag_inuse, tag_free by done.
  set (m' := set_head (set_head (mem s) (p + nb) (tag r true false)) p (tag nb true true)).
  pose proof (tag_range nb true true ltac:(lia)) as R1. pose proof (tag_range r true false ltac:(lia)) as R2.
  assert (forall x, x < p + 8 -> m' x = mem s x) as E by (intros x Hx; unfold m', set_head; rewrite !st_out by lia; done).
  set (s' := set_mem (set_top s (p + nb) r) m'). assert (first s' = first s) as Ef by done.
  exists (cs ++ [(nb, Used)]), p. split_and!; try done.
  - unfold inv, layout, base. split_and!; try done; rewrite ?Ef.
    + change (p + nb + r + TOP_FOOT_SIZE = seg_base s + seg_size s). change TOP_FOOT_SIZE with 112. unfold r. lia.
    + change (0 <= r). unfold r. lia.
    + apply Forall_app. split; [done |]. by apply Forall_singleton.
    + change (p + nb = first s + total (cs ++ [(nb, Used)])). rewrite total_app. cbn. lia.
    + apply seg_join. exists true. split; [eapply seg_ext; [done | | exact G]; intros x Hx _; apply E; lia |].
      rewrite <- T. cbn [seg]. split_and!; try done. change (mem s') with m'. unfold m'. mem_fields. by rewrite ld_st_eq.
    + change (head m' (p + nb) = tag r true false). unfold m'. mem_fields. mem_read. done.
    + rewrite cmap_app. cbn [cmap]. rewrite decide_False, map_union_empty by done. eapply bins_frame; [exact B | done.. | |].
      * intros x [Hx | (q & z & Eq & Hx)]; apply E; [unfold first in T; lia |]. apply cmap_range in Eq; [lia | done].
      * intros q z x Eq Hx. apply E. apply cmap_range in Eq; [lia | done].
    + rewrite cmap_app. cbn [cmap]. rewrite decide_False, map_union_empty by done. exact V.
  - unfold used. apply cmap_out; [done |]. lia.
  - unfold used. rewrite Ef, cmap_app. cbn [cmap]. rewrite decide_True by done. rewrite <- T, insert_empty. symmetry. apply insert_union_singleton_r, cmap_out; [done | lia].
  - intros q z x Eq Hx. apply E. unfold used in Eq. apply cmap_range in Eq; [lia | done].
Qed.

Lemma malloc_rest_ok s cs nb : inv s cs -> sized (nb, Used) \/ nb = MAX_SIZE_T ->
  let '(r, s') := malloc_rest s nb in
  (r = 0 /\ s' = s /\ dvsize s < nb /\ topsize s <= nb) \/ allocated s (used s cs) nb r s'.
Proof.
  intros I Hn. assert (topsize s < 2 ^ 62 /\ dvsize s < 2 ^ 62) as [Ht Hd].
  { destruct I as (L & _ & V). destruct (first_in _ _ L) as (F1 & F2 & F3 & F4). destruct L as ((D & H1 & H2 & H3 & H4 & H5 & H6 & H7 & H8) & S & T & _).
    destruct (total_sized cs S). change TOP_FOOT_SIZE with 112 in H6. split; [lia |].
    destruct V as [(-> & _) | [_ V]]; [lia |]. pose proof (cmap_range Victim (first s) cs (dv s) (dvsize s) S) as C.
    rewrite V in C. specialize (C (lookup_singleton_eq _ _)). lia. }
  destruct (decide (nb <= dvsize s)) as [G1 | G1]; [| destruct (decide (nb < topsize s)) as [G2 | G2]].
  - destruct Hn as [Hn | ->]; [| unfold MAX_SIZE_T in G1; lia]. pose proof (rest_victim s cs nb I Hn G1). destruct (malloc_rest s nb). by right.
  - destruct Hn as [Hn | ->]; [| unfold MAX_SIZE_T in G2; lia]. pose proof (rest_top s cs nb I Hn ltac:(lia)). destruct (malloc_rest s nb). by right.
  - unfold malloc_rest. destruct (Z.leb_spec nb (dvsize s)); [lia |]. destruct (Z.ltb_spec nb (topsize s)); [lia |].
    assert (sys_alloc s nb = (0, s)) as -> by (unfold sys_alloc; repeat case_match; done). left. split_and!; (done || lia).
Qed.

(** ** Large chunks *)

Lemma chunk2mem_eq p : 0 <= p < 2 ^ 63 -> chunk2mem p = p + 16.
Proof. intros Hp. unfold chunk2mem, u64. apply wrap_small. unfold in_range. lia. Qed.

(** A large chunk is unlinked; it is open, and the checks of its address succeed. *)
Lemma take_tree s cs nb rs v : inv s cs -> cmap Binned (first s) cs !! v = Some (rs + nb) -> 256 <= rs + nb -> 0 <= rs -> sized (nb, Used) ->
  ok_address s v = true /\ chunk_plus_offset v nb = v + nb /\ ok_next v (v + nb) = true /\ chunk2mem v = v + 16 /\ u64 (rs + nb) = rs + nb /\
  (rs < 32 -> rs = 0) /\ (32 <= rs -> sized (rs, Binned)) /\
  exists s' cs1 y cs3, let cs2 := (y, Used) :: cs3 in
    unlink_large_chunk s v = Ret s' /\ dvsize s' = dvsize s /\ v = first s' + total cs1 /\
    opened s' cs1 (rs + nb) cs2 false /\ victim s' (around Victim (first s') cs1 (rs + nb) cs2) /\ used s cs = around Used (first s') cs1 (rs + nb) cs2 /\
    same_space s s' /\ kept (used s cs) (mem s) (mem s').
Proof.
  intros I E Hz Hr [N1 N2]. cbn [fst] in *. pose proof I as (L & B & V). destruct (wf_chunk _ _ (proj1 B) v _ E) as (P1 & P2 & P3 & P4 & P5).
  pose proof (wf_self _ _ (proj1 B)) as Ws. unfold header_size in P1.
  assert (32 | rs) as Dr. { replace rs with (rs + nb - nb) by lia. by apply Z.divide_sub_r. }
  destruct (unlink_large_bins s _ v _ B E Hz) as (s' & U & B' & M).
  destruct (take_binned s cs s' v _ I E B' M) as (cs1 & y & cs3 & Ecs & Ev & O & V' & EU & SS & K).
  split; [by apply ok_address_true |]. split; [apply plus_offset; lia |]. split; [unfold ok_next; lia |]. split; [apply chunk2mem_eq; lia |].
  split; [unfold u64; apply wrap_small; unfold in_range; lia |]. split; [intros ?; destruct Dr as [k Ek]; lia |]. split; [done |].
  exists s', cs1, y, cs3. cbn zeta. split_and!; try done; try apply O; try apply SS. by destruct M as [(sm & tm & m' & ->) _].
Qed.

Lemma take_large_ok s cs nb rs v : inv s cs -> cmap Binned (first s) cs !! v = Some (rs + nb) -> 256 <= rs + nb -> 0 <= rs -> sized (nb, Used) ->
  exists r s', take_large s nb v rs = Ret (r, s') /\ allocated s (used s cs) nb r s'.
Proof.
  intros I E Hz Hr Sn. destruct (take_tree s cs nb rs v I E Hz Hr Sn) as (C1 & C2 & C3 & C4 & C5 & Z0 & Sr & s1 & cs1 & y & cs3 & U & _ & Ev & O & V & EU & SS & K).
  unfold take_large. rewrite C1, C2, C3, U, C4, C5. cbn [mbind outcome_bind]. change MIN_CHUNK_SIZE with 32. destruct (Z.ltb_spec rs 32) as [G | G].
  - assert (rs = 0) as -> by auto. rewrite Z.add_0_l in *. eexists _, _. split; [done |]. eapply allocated_trans; [exact SS | exact K |].
    rewrite EU, Ev. by apply (alloc_whole s1 cs1 nb y cs3 false).
  - destruct (alloc_split_insert s1 cs1 (rs + nb) y cs3 nb rs O V ltac:(lia) Sn ltac:(auto)) as (s2 & I2 & A2). rewrite <- Ev in I2, A2.
    unfold split_mem in I2. rewrite I2. cbn [mbind outcome_bind]. eexists _, _. split; [done |]. rewrite EU in *. by eapply allocated_trans.
Qed.

Lemma tmalloc_large_ok s cs nb : inv s cs -> sized (nb, Used) -> 256 <= nb < 2 ^ 64 ->
  exists r s', tmalloc_large s nb = Ret (r, s') /\
    ((r = 0 /\ s' = s /\ ((forall q z, cmap Binned (first s) cs !! q = Some z -> z < nb) \/ nb <= dvsize s)) \/ allocated s (used s cs) nb r s').
Proof.
  intros I Sn Hn. pose proof I as (L & B & V). destruct (best_large_ok s _ nb B ltac:(lia)) as (rs & v & E & Bf & Best). unfold tmalloc_large. rewrite E. cbn [mbind outcome_bind].
  assert (0 <= dvsize s < 2 ^ 40) as Hd.
  { destruct V as [(-> & _) | [? V]]; [lia |]. pose proof (cmap_range Victim (first s) cs (dv s) (dvsize s) ltac:(apply L)) as C.
    rewrite V in C. specialize (C (lookup_singleton_eq _ _)). destruct (first_in _ _ L) as (? & ? & ? & _). lia. }
  rewrite remainder by lia. destruct Bf as [[-> ->] | (Ev & Hr & Hz)].
  - exists 0, s. split; [done |]. left. split_and!; try done. left. intros q z Eq. destruct (wf_chunk _ _ (proj1 B) q z Eq) as (_ & _ & _ & Hz & _).
    destruct (Z_lt_le_dec z nb) as [| G]; [done |]. pose proof (Best q z Eq ltac:(lia) G). lia.
  - destruct (wf_chunk _ _ (proj1 B) v _ Ev) as (Pv & _ & _ & Pz & _). pose proof (wf_self _ _ (proj1 B)). unfold header_size in Pv.
    destruct (Z.eqb_spec v 0); [lia |]. cbn [negb andb].
    destruct (Z.ltb_spec rs (if decide (nb <= dvsize s) then dvsize s - nb else 2 ^ 64 + dvsize s - nb)) as [G | G].
    + destruct (take_large_ok s cs nb rs v I Ev Hz Hr Sn) as (r & s' & T & A). exists r, s'. split; [done | by right].
    + exists 0, s. split; [done |]. left. split_and!; try done. right. case_decide; [done | lia].
Qed.

Lemma tmalloc_small_ok s cs nb : inv s cs -> sized (nb, Used) -> nb < 256 -> dvsize s < 256 -> treemap s <> 0 ->
  exists r s', tmalloc_small s nb = Ret (r, s') /\ allocated s (used s cs) nb r s'.
Proof.
  intros I Sn Hn Hd Ht. pose proof I as (L & B & V). pose proof (proj2 Sn) as N2. cbn [fst] in N2.
  destruct (best_small_ok s _ nb B ltac:(lia) Ht) as (rs & v & E & [Bf _] & Nv). unfold tmalloc_small. rewrite E. cbn [mbind outcome_bind].
  destruct Bf as [[-> _] | (Ev & Hr & Hz)]; [done |].
  destruct (take_tree s cs nb rs v I Ev Hz Hr Sn) as (C1 & C2 & C3 & C4 & C5 & Z0 & Sr & s1 & cs1 & y & cs3 & U & Ed & Ev' & O & V' & EU & SS & K).
  rewrite C1, C2, C3, U, C4, C5. cbn [mbind outcome_bind]. change MIN_CHUNK_SIZE with 32. destruct (Z.ltb_spec rs 32) as [G | G].
  - assert (rs = 0) as -> by auto. rewrite Z.add_0_l in *. lia.
  - destruct (alloc_split_victim s1 cs1 (rs + nb) y cs3 nb rs O V' ltac:(lia) ltac:(lia) Sn ltac:(by apply Sr)) as (s2 & I2 & A2). rewrite <- Ev' in I2, A2.
    unfold split_mem in I2. rewrite I2. cbn [mbind outcome_bind]. eexists _, _. split; [done |]. rewrite EU in *. by eapply allocated_trans.
Qed.

(** ** Small chunks *)

(** The first chunk of a marked small bin is unlinked; it is open. *)
Lemma take_small s cs i : inv s cs -> 0 <= i < 32 -> Z.testbit (smallmap s) i = true ->
  let p := fd (mem s) (smallbin_at s i) in
  sized (8 * i, Used) /\ 0 <= p < 2 ^ 62 /\
  exists s' cs1 y cs3, let cs2 := (y, Used) :: cs3 in
    unlink_first_small_chunk s (smallbin_at s i) p i = Ret s' /\ dvsize s' = dvsize s /\ p = first s' + total cs1 /\
    opened s' cs1 (8 * i) cs2 false /\ victim s' (around Victim (first s') cs1 (8 * i) cs2) /\ used s cs = around Used (first s') cs1 (8 * i) cs2 /\
    same_space s s' /\ kept (used s cs) (mem s) (mem s').
Proof.
  intros I Hi Bt p. pose proof I as (L & B & V). destruct (unlink_first_ok s _ i B Hi Bt) as [E (s' & U & B' & M)]. fold p in E, U, B'.
  destruct (wf_chunk _ _ (proj1 B) p _ E) as (P1 & P2 & P3 & P4 & P5). pose proof (wf_self _ _ (proj1 B)) as Ws. unfold header_size in P1.
  pose proof (cmap_range _ _ _ _ _ (proj1 (proj2 L)) E) as (_ & Pe & _). destruct (first_in _ _ L) as (_ & F2 & _).
  destruct (take_binned s cs s' p _ I E B' M) as (cs1 & y & cs3 & Ecs & Ev & O & V' & EU & SS & K).
  split; [split; cbn; (done || lia) |]. split; [lia |]. exists s', cs1, y, cs3. cbn zeta. split_and!; try done; try apply O; try apply SS.
  by destruct M as [(sm & tm & m' & ->) _].
Qed.

Lemma malloc_exact_ok s cs i : inv s cs -> 0 <= i < 32 -> Z.testbit (smallmap s) i = true ->
  exists r s', malloc_exact s i = Ret (r, s') /\ allocated s (used s cs) (8 * i) r s'.
Proof.
  intros I Hi Bt. destruct (take_small s cs i I Hi Bt) as (S8 & Pp & s1 & cs1 & y & cs3 & U & _ & Ep & O & V & EU & SS & K).
  unfold malloc_exact. rewrite U. cbn [mbind outcome_bind]. rewrite chunk2mem_eq by lia.
  assert (small_index2size i = 8 * i) as -> by (unfold small_index2size; rewrite Z.shiftl_mul_pow2; lia).
  eexists _, _. split; [done |]. eapply allocated_trans; [exact SS | exact K |]. rewrite EU, Ep. by apply (alloc_whole s1 cs1 (8 * i) y cs3 false).
Qed.

Lemma malloc_split_small_ok s cs nb : inv s cs -> sized (nb, Used) -> nb < 256 -> dvsize s < 256 ->
  let idx := small_index nb in let smallbits := Z.shiftr (smallmap s) idx in
  Z.land smallbits 3 = 0 -> smallbits <> 0 ->
  exists r s', malloc_split_small s nb idx smallbits = Ret (r, s') /\ allocated s (used s cs) nb r s'.
Proof.
  intros I Sn Hn Hd idx smallbits H3 H0. pose proof (proj2 Sn) as N2. cbn [fst] in N2. pose proof I as (L & B & V).
  assert (idx = nb / 8) as Ei by (apply small_index_spec; lia). assert (in_range 32 (smallmap s)) as Rs by apply B.
  unfold malloc_split_small. set (leftbits := Z.land _ (left_bits (idx2bit idx))).
  assert (forall j, 0 <= j < 32 -> Z.testbit leftbits j = bool_decide (idx < j) && Z.testbit (smallmap s) j) as Lb.
  { intros j Hj. unfold leftbits, smallbits, u32. rewrite Z.land_spec, left_bits_spec, testbit_wrap, bool_decide_eq_true_2, Z.shiftl_spec by lia. cbn [andb].
    rewrite andb_comm. destruct (decide (idx < j)); [| rewrite !bool_decide_eq_false_2 by lia; done]. rewrite !bool_decide_eq_true_2, Z.shiftr_spec by lia. f_equal. f_equal. lia. }
  assert (in_range 32 leftbits) as Rl.
  { unfold leftbits. rewrite Z.land_comm. apply land_range; [lia | apply Z.lor_nonneg; split; apply wrap_range; lia | apply wrap_range; lia]. }
  assert (leftbits <> 0) as Nl.
  { intros E0. apply H0. apply Z.bits_inj'. intros j Hj. rewrite Z.testbit_0_l. destruct (decide (j < 2)) as [L2 | G2].
    - assert (Z.testbit (Z.land smallbits 3) j = false) as T by (rewrite H3; apply Z.testbit_0_l). rewrite Z.land_spec in T.
      assert (Z.testbit 3 j = true) as T3 by (assert (j = 0 \/ j = 1) as [-> | ->] by lia; done). by rewrite T3, andb_true_r in T.
    - unfold smallbits. rewrite Z.shiftr_spec by lia. destruct (decide (j + idx < 32)); [| apply (testbit_high 32); (done || lia)].
      pose proof (Lb (j + idx) ltac:(lia)) as T. rewrite E0, Z.testbit_0_l, bool_decide_eq_true_2 in T by lia. done. }
  destruct (least_bit_spec leftbits Rl Nl) as (Ri & Bi & _). set (i := compute_bit2idx (least_bit leftbits)) in *.
  rewrite Lb in Bi by done. apply andb_true_iff in Bi as [Bi Bt]. apply bool_decide_eq_true_1 in Bi.
  destruct (take_small s cs i I Ri Bt) as ([S81 S82] & Pp & s1 & cs1 & y & cs3 & U & Ed & Ep & O & V' & EU & SS & K). cbn [fst] in *.
  rewrite U. cbn [mbind outcome_bind].
  assert (small_index2size i = 8 * i) as -> by (unfold small_index2size; rewrite Z.shiftl_mul_pow2; lia).
  assert (32 | 8 * i - nb) as Dr by (apply Z.divide_sub_r; [done | apply Sn]).
  rewrite remainder, decide_True by lia. change MIN_CHUNK_SIZE with 32. set (p := fd (mem s) (smallbin_at s i)) in *.
  destruct (Z.ltb_spec (8 * i - nb) 32) as [G | G]; [destruct Dr as [k Ek]; lia |]. rewrite chunk2mem_eq, plus_offset by lia.
  destruct (alloc_split_victim s1 cs1 (8 * i) y cs3 nb (8 * i - nb) O V' ltac:(lia) ltac:(lia) Sn ltac:(done)) as (s2 & I2 & A2). rewrite <- Ep in I2, A2.
  unfold split_mem in I2. rewrite I2. cbn [mbind outcome_bind]. eexists _, _. split; [done |]. rewrite EU in *. by eapply allocated_trans.
Qed.

(** ** mspace_malloc *)

Lemma pad_request_eq x : 0 <= x < MAX_REQUEST -> pad_request x = 32 * ((x + 39) / 32).
Proof.
  intros Hx. change MAX_REQUEST with (2 ^ 64 - 128) in Hx. unfold pad_request. change (x + CHUNK_OVERHEAD + CHUNK_ALIGN_MASK) with (x + 8 + 31). change CHUNK_ALIGN_MASK with 31.
  assert (u64 (x + 8 + 31) = x + 39) as -> by (unfold u64; rewrite wrap_small; [lia | unfold in_range; lia]).
  set (y := x + 39). rewrite (Z.div_mod y 32) at 1 by lia. rewrite <- (aligned_lor (32 * (y / 32)) (y mod 32)) by (apply Z.divide_factor_l || (apply Z.mod_pos_bound; lia)).
  rewrite Z.land_lor_distr_l, (aligned_keep (32 * (y / 32)) 31) by (apply Z.divide_factor_l || lia).
  assert (Z.land (y mod 32) (Z.lnot 31) = 0) as ->; [| apply Z.lor_0_r]. change 31 with (Z.ones 5). change 32 with (2 ^ 5). rewrite <- Z.land_ones by lia.
  apply Z.bits_inj'. intros j Hj. rewrite !Z.land_spec, Z.lnot_spec, Z.testbit_0_l by lia. destruct (Z.testbit (Z.ones 5) j); [by rewrite andb_false_r | by rewrite andb_false_r].
Qed.

(** The size of the chunk for a request: aligned, with room for the request, and not much more. *)
Lemma request_size x : 0 <= x < MAX_REQUEST -> let nb := request2size x in sized (nb, Used) /\ x + 8 <= nb /\ (nb < x + 40) /\ nb < 2 ^ 64.
Proof.
  intros Hx nb. unfold nb, request2size. rewrite pad_request_eq by done. change MAX_REQUEST with (2 ^ 64 - 128) in Hx. change MIN_REQUEST with 23. change MIN_CHUNK_SIZE with 32.
  destruct (Z.ltb_spec x 23); (split; [split; cbn; [(by exists 1) || apply Z.divide_factor_l | lia] | lia]).
Qed.

(** No free chunk and not the top has room for a chunk of size [nb]. *)
Definition no_room (s : mstate) (cs : chunks) (nb : Z) : Prop :=
  (forall q z, cmap Binned (first s) cs !! q = Some z -> z < nb) /\ (forall q z, cmap Victim (first s) cs !! q = Some z -> z < nb) /\ topsize s <= nb.

Lemma no_room_rest s cs nb : inv s cs -> dvsize s < nb -> topsize s <= nb -> (forall q z, cmap Binned (first s) cs !! q = Some z -> z < nb) -> no_room s cs nb.
Proof.
  intros (_ & _ & V) Hd Ht H. split_and!; try done. intros q z E. destruct V as [(_ & _ & V) | [_ V]]; rewrite V in E; [done |].
  apply lookup_singleton_Some in E as [_ <-]. lia.
Qed.

Lemma rest_max s cs : inv s cs -> malloc_rest s MAX_SIZE_T = (0, s).
Proof.
  intros I. pose proof (malloc_rest_ok s cs MAX_SIZE_T I ltac:(by right)) as H. destruct (malloc_rest s MAX_SIZE_T) as [r s'] eqn:E.
  destruct H as [(-> & -> & _) | (cs' & p & _ & I' & _ & _ & EU & _)]; [done |]. exfalso. destruct I' as (L' & _). destruct (first_in _ _ L') as (_ & _ & ? & _).
  assert (used s' cs' !! p = Some MAX_SIZE_T) as Ep by (rewrite EU; apply lookup_insert_eq). apply cmap_range in Ep; [| apply L']. unfold MAX_SIZE_T in Ep. lia.
Qed.

(** What mspace_malloc may return for a chunk of size [nb]. *)
Definition malloc_result (s : mstate) (cs : chunks) (nb : Z) (o : outcome (Z * mstate)) : Prop :=
  exists r s', o = Ret (r, s') /\ ((r = 0 /\ s' = s /\ no_room s cs nb) \/ allocated s (used s cs) nb r s').

Lemma rest_result s cs nb : inv s cs -> sized (nb, Used) -> (forall q z, cmap Binned (first s) cs !! q = Some z -> z < nb) \/ nb <= dvsize s ->
  malloc_result s cs nb (Ret (malloc_rest s nb)).
Proof.
  intros I Sn H. pose proof (malloc_rest_ok s cs nb I ltac:(by left)) as R. destruct (malloc_rest s nb) as [r s']. exists r, s'. split; [done |].
  destruct R as [(-> & -> & ? & ?) | A]; [| by right]. left. split_and!; try done. destruct H as [H | H]; [by apply no_room_rest | lia].
Qed.

Lemma allocated_some s U nb r s' : allocated s U nb r s' -> r <> 0.
Proof.
  intros (cs' & p & -> & I' & SS & _ & EU & _). destruct I' as (L' & _). destruct (first_in _ _ L') as (? & _).
  assert (used s' cs' !! p = Some nb) as Ep by (rewrite EU; apply lookup_insert_eq). apply cmap_range in Ep; [lia | apply L'].
Qed.

Lemma malloc_small_ok s cs nb : inv s cs -> sized (nb, Used) -> nb < 256 ->
  malloc_result s cs nb (
    let idx := small_index nb in
    let smallbits := Z.shiftr (smallmap s) idx in
    if negb (Z.land smallbits 3 =? 0) then malloc_exact s (idx + Z.land (Z.lnot smallbits) 1)
    else if nb >? dvsize s then
      if negb (smallbits =? 0) then malloc_split_small s nb idx smallbits
      else if negb (treemap s =? 0) then
        '(mem, s) ← tmalloc_small s nb;
        if negb (mem =? 0) then Ret (mem, s) else Ret (malloc_rest s nb)
      else Ret (malloc_rest s nb)
    else Ret (malloc_rest s nb)).
Proof.
  intros I Sn Hn. pose proof Sn as [N1 N2]. cbn [fst] in *. pose proof I as (L & B & V). cbn zeta. set (idx := small_index nb). set (smallbits := Z.shiftr (smallmap s) idx).
  assert (idx = nb / 8) as Ei by (apply small_index_spec; lia).
  destruct (Z.eqb_spec (Z.land smallbits 3) 0) as [E3 | N3]; cbn [negb].
  2: { assert (Z.testbit smallbits 0 = true) as T0.
       { destruct (Z.testbit smallbits 0) eqn:T0; [done |]. exfalso. destruct (Z.testbit smallbits 1) eqn:T1.
         - unfold smallbits in T1. rewrite Z.shiftr_spec in T1 by lia. destruct (take_small s cs (1 + idx) I ltac:(lia) T1) as ([D _] & _). cbn [fst] in D.
           destruct N1 as [a Ea], D as [c Ec]. lia.
         - apply N3. change 3 with (Z.ones 2). rewrite Z.land_ones by lia. apply Z.bits_inj'. intros j Hj. rewrite Z.testbit_0_l.
           destruct (decide (j < 2)); [| by rewrite Z.mod_pow2_bits_high by lia]. rewrite Z.mod_pow2_bits_low by lia. assert (j = 0 \/ j = 1) as [-> | ->] by lia; done. }
       assert (Z.land (Z.lnot smallbits) 1 = 0) as ->.
       { rewrite (Z.land_ones _ 1) by lia. rewrite <- Z.bit0_mod, Z.lnot_spec, T0 by lia. done. }
       unfold smallbits in T0. rewrite Z.shiftr_spec in T0 by lia. rewrite Z.add_0_r. destruct (malloc_exact_ok s cs idx I ltac:(lia) T0) as (r & s' & E & A).
       exists r, s'. split; [done | right]. replace nb with (8 * idx) by (destruct N1 as [a Ea]; lia). done. }
  destruct (Z.gtb_spec nb (dvsize s)) as [Gd | Gd]; [| apply rest_result; (done || (right; lia))].
  destruct (Z.eqb_spec smallbits 0) as [E0 | N0]; cbn [negb].
  2: { destruct (malloc_split_small_ok s cs nb I Sn Hn ltac:(lia) E3 N0) as (r & s' & E & A). exists r, s'. split; [done | by right]. }
  destruct (Z.eqb_spec (treemap s) 0) as [Et | Nt]; cbn [negb].
  - apply rest_result; try done. left. intros q z E. destruct (wf_chunk _ _ (proj1 B) q z E) as (_ & _ & Dz & Rz & _).
    destruct (Z_lt_le_dec z nb) as [| G]; [done |]. exfalso. destruct (bin_of_cases z Rz Dz) as [(Z1 & Z2 & Z3 & Z4) | (Z1 & Z2 & Z3)].
    + destruct (proj2 B (bin_of z) ltac:(lia)) as [(l & _ & Lm & Bt & _) _]. assert (q ∈ l) as Hq by (apply Lm; by exists z).
      assert (Z.testbit smallbits (bin_of z - idx) = true) as T; [| by rewrite E0, Z.testbit_0_l in T].
      unfold smallbits. rewrite Z.shiftr_spec by lia. replace (bin_of z - idx + idx) with (bin_of z) by lia. rewrite Bt. apply bool_decide_eq_true_2. intros ->. by apply elem_of_nil in Hq.
    + destruct (bin_sub s _ (compute_tree_index z) B (tree_index_range z)) as (t & _ & _ & _ & _ & _ & T & _ & M). rewrite Et, Z.testbit_0_l in T.
      destruct (M q z E Z1 eq_refl) as [Hq _]. destruct t; [by apply elem_of_nil in Hq | done].
  - destruct (tmalloc_small_ok s cs nb I Sn Hn ltac:(lia) Nt) as (r & s' & -> & A). cbn [mbind outcome_bind]. pose proof (allocated_some _ _ _ _ _ A).
    destruct (Z.eqb_spec r 0); [done |]. exists r, s'. split; [done | by right].
Qed.

Lemma mspace_malloc_ok s cs bytes : inv s cs -> 0 <= bytes < MAX_REQUEST -> malloc_result s cs (request2size bytes) (mspace_malloc s bytes).
Proof.
  intros I Hb. destruct (request_size bytes Hb) as (Sn & H1 & H2 & H3). unfold mspace_malloc. change MAX_SMALL_REQUEST with 216.
  destruct (Z.leb_spec bytes 216) as [G | G].
  - apply malloc_small_ok; try done. unfold request2size in *. rewrite pad_request_eq in * by done. change MIN_REQUEST with 23 in *. change MIN_CHUNK_SIZE with 32 in *.
    destruct (Z.ltb_spec bytes 23); lia.
  - destruct (Z.geb_spec bytes MAX_REQUEST); [lia |].
    assert (request2size bytes = pad_request bytes) as En by (unfold request2size; change MIN_REQUEST with 23; destruct (Z.ltb_spec bytes 23); [lia | done]).
    rewrite <- En. set (nb := request2size bytes) in *. assert (256 <= nb < 2 ^ 64) as Hn by (rewrite pad_request_eq in En by done; lia).
    pose proof I as (L & B & V). destruct (Z.eqb_spec (treemap s) 0) as [Et | Nt]; cbn [negb].
    + apply rest_result; try done. left. intros q z E. destruct (Z_lt_le_dec z nb) as [| Gz]; [done |]. exfalso.
      destruct (bin_sub s _ (compute_tree_index z) B (tree_index_range z)) as (t & _ & _ & _ & _ & _ & T & _ & M). rewrite Et, Z.testbit_0_l in T.
      destruct (M q z E ltac:(lia) eq_refl) as [Hq _]. destruct t; [by apply elem_of_nil in Hq | done].
    + destruct (tmalloc_large_ok s cs nb I Sn Hn) as (r & s' & -> & A). cbn [mbind outcome_bind]. destruct A as [(-> & -> & A) | A].
      * cbn [Z.eqb negb]. by apply rest_result.
      * pose proof (allocated_some _ _ _ _ _ A). destruct (Z.eqb_spec r 0); [done |]. exists r, s'. split; [done | by right].
Qed.

(** Where an allocated block is. *)
Lemma allocated_block s cs bytes r s' : inv s cs -> 0 <= bytes < MAX_REQUEST -> allocated s (used s cs) (request2size bytes) r s' ->
  exists cs', inv s' cs' /\ same_space s s' /\ used s' cs' = <[r - 16 := request2size bytes]> (used s cs) /\ kept (used s cs) (mem s) (mem s') /\
    (32 | r) /\ seg_base s < r /\ r + bytes <= seg_base s + seg_size s /\
    forall q z, used s cs !! q = Some z -> r + bytes <= q + 16 \/ q + z + 8 <= r.
Proof.
  intros I Hb (cs' & p & -> & I' & SS & Np & EU & K). exists cs'. destruct (request_size bytes Hb) as (_ & H1 & _). replace (p + 16 - 16) with p by lia.
  pose proof I' as (L & _ & _). pose proof L as ((D & B1 & B2 & B3 & B4 & B5 & B6 & B7 & B8) & S & T & _). change TOP_FOOT_SIZE with 112 in B6.
  assert (used s' cs' !! p = Some (request2size bytes)) as Ep by (rewrite EU; apply lookup_insert_eq).
  pose proof SS as (E1 & E2 & E3). rewrite E1, E2, E3 in *. pose proof (same_first _ _ SS) as Ef. unfold used in *. rewrite Ef in *.
  destruct (cmap_split _ _ _ _ _ Ep) as (cs1 & cs2 & Ecs & Epp). assert (Forall sized cs1) as S1 by (rewrite Ecs in S; by apply Forall_app in S as [? _]).
  destruct (total_sized _ S1) as [T1 D1]. pose proof (cmap_range _ _ _ _ _ S Ep) as (R1 & R2 & _). unfold first, header_size in *.
  split_and!; try done; try lia.
  - rewrite Epp. replace (self s + 944 + total cs1 + 16) with (self s + 32 * 30 + total cs1) by lia. apply Z.divide_add_r; [apply Z.divide_add_r; [done | apply Z.divide_factor_l] | done].
  - intros q z Eq. assert (q <> p) as Nq by (intros ->; congruence). assert (cmap Used (self s + 944) cs' !! q = Some z) as Eq' by (rewrite EU, lookup_insert_ne by done; done).
    destruct (cmap_apart _ _ _ _ _ _ _ _ S Ep Eq') as [(? & _) | ?]; [by subst | lia].
Qed.

Lemma malloc_any s cs bytes : inv s cs -> 0 <= bytes < 2 ^ 64 -> exists r s', mspace_malloc s bytes = Ret (r, s') /\
  ((r = 0 /\ s' = s /\ (MAX_REQUEST <= bytes \/ no_room s cs (request2size bytes))) \/
   (bytes < MAX_REQUEST /\ allocated s (used s cs) (request2size bytes) r s')).
Proof.
  intros I Hb. destruct (decide (bytes < MAX_REQUEST)) as [G | G].
  - destruct (mspace_malloc_ok s cs bytes I ltac:(lia)) as (r & s' & E & [(-> & -> & N) | A]); [exists 0, s; split; [done |]; left; auto |].
    exists r, s'. split; [done | by right].
  - exists 0, s. split; [| left; split_and!; [done | done | left; lia]]. unfold mspace_malloc. change MAX_SMALL_REQUEST with 216. change MAX_REQUEST with (2 ^ 64 - 128) in *.
    destruct (Z.leb_spec bytes 216); [lia |]. destruct (Z.geb_spec bytes (2 ^ 64 - 128)); [| lia]. by rewrite (rest_max s cs).
Qed.

End Alloc.
