(* ===== verification/DlRelease.v ===== *)
(** * kernel/dlmalloc.cc: mspace_free is correct

    Releasing a block in use keeps the invariant and the contents of all other blocks: the
    chunk is merged with the free chunks before and behind it, with the designated
    victim or with the top, and goes to its bin. *)

From S2P Require Import Prelude DlHeap DlBins DlTrie DlFree DlLayout Dlmalloc DlSearch DlAlloc.

Module Release.
Import Chunk Bins Free Layout Mspace Alloc.

(** From a space with the memory of [s], the blocks [U] remain. *)
Definition freed (s : mstate) (U : gmap Z Z) (s' : mstate) : Prop :=
  exists cs', inv s' cs' /\ same_space s s' /\ used s' cs' = U /\ kept U (mem s) (mem s').

Lemma freed_trans s s1 U s' : same_space s s1 -> kept U (mem s) (mem s1) -> freed s1 U s' -> freed s U s'.
Proof.
  intros E K (cs' & H1 & H2 & H3 & H4). exists cs'. split_and!; try done; [by eapply same_space_trans.. | by eapply kept_trans].
Qed.

(** The tags of a chunk that becomes free, behind which is a chunk in use. *)
Definition freeing (m : ram) (p n y : Z) (m' : ram) : Prop :=
  (forall x, x < p + 8 \/ p + n + 16 <= x -> m' x = m x) /\ head m' p = tag n true false /\ prev_foot m' (p + n) = n /\ head m' (p + n) = tag y false true.

Lemma freeing_ok m p n y b : 0 <= p -> 32 <= n -> 0 <= y < 2 ^ 62 -> p + n < 2 ^ 62 -> (32 | n) -> (32 | y) -> head m (p + n) = tag y b true ->
  freeing m p n y (set_free_with_pinuse m p n (p + n)) /\ (b = false -> freeing m p n y (set_size_and_pinuse_of_free_chunk m p n)).
Proof.
  intros Hp Hn Hy Hb Dn Dy Eh. unfold freeing, set_free_with_pinuse, set_size_and_pinuse_of_free_chunk, set_foot, clear_pinuse.
  rewrite plus_offset, Eh, tag_clear, tag_free by (done || lia). pose proof (tag_range n true false ltac:(lia)). pose proof (tag_range y false true ltac:(lia)).
  split; [| intros ->]; split_and!; try (intros x Hx; mem_fields; mem_out; done); unfold head, prev_foot in *; mem_fields; mem_read; done.
Qed.

(** The freed chunk goes to its bin. *)
Lemma insert_free s cs1 n y cs3 b m' : let cs2 := (y, Used) :: cs3 in let p := first s + total cs1 in
  opened s cs1 n cs2 b -> victim s (around Victim (first s) cs1 n cs2) -> freeing (mem s) p n y m' ->
  exists s', free_insert (set_mem s m') p n = Ret s' /\ freed s (around Used (first s) cs1 n cs2) s'.
Proof.
  intros cs2 p O V (M1 & M2 & M3 & M4). assert (Forall sized cs1 /\ Forall sized cs2) as [S1 S2] by (split; apply O).
  destruct (hole_bounds _ _ _ _ _ (proj1 O)) as (_ & _ & _ & _ & Hn & _).
  destruct (close_free s cs1 n y cs3 b m' Binned O ltac:(done) M1 M2 M3 M4) as (L & B & K). set (cs := cs1 ++ (n, Binned) :: (y, Used) :: cs3) in *.
  assert (cmap Binned (first s) cs = <[p := n]> (around Binned (first s) cs1 n cs2)) as EB by (unfold cs; rewrite cmap_hole, decide_True; done).
  destruct (finish_insert (set_mem s m') cs _ p n L B) as (s1 & I & L1 & B1 & M & K1); [apply around_none; try done; fold p; lia | exact EB |].
  pose proof (moved_space _ _ _ M) as SS. pose proof (same_first _ _ SS) as Ef. change (first (set_mem s m')) with (first s) in *.
  assert (forall s', self s' = self s1 -> least_addr s' = least_addr s1 -> smallmap s' = smallmap s1 -> treemap s' = treemap s1 -> mem s' = mem s1 ->
    dv s' = dv s1 -> dvsize s' = dvsize s1 -> layout s' cs -> same_space s s' -> freed s (around Used (first s) cs1 n cs2) s') as Fin.
  { intros s' E1 E2 E3 E4 E5 E6 E7 L' SS'. pose proof (same_first _ _ SS') as Ef'. exists cs. rewrite E5. split_and!.
    - split; [done |]. rewrite Ef'. split; [eapply bins_frame; [exact B1 | done.. | |]; intros; by rewrite E5 |].
      unfold cs. rewrite cmap_hole, decide_False by done. destruct M as [(sm & tm & m1 & ->) _]. by apply (victim_fields s).
    - done.
    - unfold used. rewrite Ef'. unfold cs. by rewrite cmap_hole, decide_False.
    - eapply kept_trans; [exact K |]. eapply kept_weaken; [| exact K1]. unfold cs. by rewrite cmap_hole, decide_False. }
  unfold insert_chunk in I. unfold free_insert. destruct (is_small n); [exists s1; split; [done |]; by apply Fin |].
  rewrite I. cbn [mbind outcome_bind]. eexists. split; [done |]. apply Fin; try (by case_match); by case_match.
Qed.

(** The freed chunk is the victim. *)
Lemma victim_free s cs1 n y cs3 b m' : let cs2 := (y, Used) :: cs3 in let p := first s + total cs1 in
  opened s cs1 n cs2 b -> around Victim (first s) cs1 n cs2 = ∅ -> freeing (mem s) p n y m' ->
  freed s (around Used (first s) cs1 n cs2) (set_mem (set_dv s p n) m').
Proof.
  intros cs2 p O V (M1 & M2 & M3 & M4). assert (Forall sized cs1 /\ Forall sized cs2) as [S1 S2] by (split; apply O).
  destruct (hole_bounds _ _ _ _ _ (proj1 O)) as (_ & _ & _ & _ & Hn & _).
  destruct (close_free s cs1 n y cs3 b m' Victim O ltac:(done) M1 M2 M3 M4) as (L & B & K).
  eexists. split_and!; [split_and!; [exact L | |] | done.. | |].
  - change (first (set_mem (set_dv s p n) m')) with (first s). rewrite cmap_hole, decide_False by done. eapply bins_frame; [exact B | done..].
  - change (first (set_mem (set_dv s p n) m')) with (first s). rewrite cmap_hole, decide_True by done. fold cs2. rewrite V. right. cbn. split; [lia | done].
  - unfold used. change (first (set_mem (set_dv s p n) m')) with (first s). by rewrite cmap_hole, decide_False.
  - exact K.
Qed.

(** The freed chunk joins the top. *)
Lemma top_free s cs1 n s' : let p := first s + total cs1 in
  hole s cs1 n [] true -> bins s (around Binned (first s) cs1 n []) -> victim s' (around Victim (first s) cs1 n []) ->
  self s' = self s -> least_addr s' = least_addr s -> smallmap s' = smallmap s -> treemap s' = treemap s -> seg_base s' = seg_base s -> seg_size s' = seg_size s ->
  top s' = p -> topsize s' = topsize s + n -> mem s' = set_head (mem s) p (tag (topsize s + n) true false) ->
  freed s (around Used (first s) cs1 n []) s'.
Proof.
  intros p Ho B V E1 E2 E3 E4 E5 E6 E7 E8 E9. destruct (hole_bounds _ _ _ _ _ Ho) as (P1 & P2 & P3 & P4 & P5 & P6).
  destruct Ho as (Ba & S1 & _ & _ & T & G1 & _ & _). pose proof Ba as (D & H1 & H2 & H3 & H4 & H5 & H6 & H7 & H8). cbn [total] in *. fold p in T, P2, P3. change TOP_FOOT_SIZE with 112 in H6.
  assert (SS : same_space s s') by (split_and!; done). pose proof (same_first _ _ SS) as Ef.
  assert (forall k, around k (first s) cs1 n [] = cmap k (first s) cs1) as EA by (intros k; unfold around; cbn; by rewrite map_union_empty).
  rewrite !EA in *. assert (forall x, x < p + 8 \/ p + 16 <= x -> mem s' x = mem s x) as Em by (intros x Hx; rewrite E9; unfold set_head; apply st_out; lia).
  exists cs1. split_and!; try done.
  - unfold inv, layout, base. rewrite Ef, E1, E2, E5, E6, E7, E8. change TOP_FOOT_SIZE with 112. split_and!; try done; try lia.
    + by apply Z.divide_add_r.
    + eapply seg_ext; [done | | exact G1]. intros x Hx _. apply Em. fold p in Hx. lia.
    + rewrite E9. mem_fields. rewrite ld_st_eq; [done |]. apply tag_range. lia.
    + eapply bins_frame; [exact B | done.. | |].
      * intros x [Hx | (q & z & Eq & Hx)]; apply Em; [unfold p, first; destruct (total_sized _ S1); lia |]. apply cmap_range in Eq; [fold p in Eq; lia | done].
      * intros q z x Eq Hx. apply Em. apply cmap_range in Eq; [fold p in Eq; lia | done].
  - unfold used. by rewrite Ef.
  - intros q z x Eq Hx. apply Em. apply cmap_range in Eq; [fold p in Eq; lia | done].
Qed.

(** ** Merging with the chunk behind *)

(** A chunk [mid] of [n] bytes that is taken out of [cs]; [d] tells whether it is the victim. *)
Definition in_flight (s : mstate) (cs1 mid cs2 : chunks) (d : bool) : Prop :=
  layout s (cs1 ++ mid ++ cs2) /\ (forall s', layout s' (cs1 ++ mid ++ cs2) -> hole s' cs1 (total mid) cs2 true) /\
  bins s (around Binned (first s) cs1 (total mid) cs2) /\
  (if d then dv s = first s + total cs1 /\ around Victim (first s) cs1 (total mid) cs2 = ∅ /\ forall y cs3, cs2 <> (y, Used) :: cs3
   else victim s (around Victim (first s) cs1 (total mid) cs2)).

Lemma around_sub k p cs1 mid cs2 : Forall sized (cs1 ++ mid ++ cs2) -> around k p cs1 (total mid) cs2 ⊆ cmap k p (cs1 ++ mid ++ cs2).
Proof.
  intros S. rewrite cmap_mid by done. apply map_union_subseteq_r, map_disjoint_union_r. rewrite !Forall_app in S. destruct S as (S1 & S2 & S3).
  split; [apply map_disjoint_sym |]; apply cmap_disjoint; (done || lia).
Qed.

(** The address of the victim, as the code compares it. *)
Lemma victim_at s V q : victim s V -> 0 < q -> (q =? dv s) = bool_decide (is_Some (V !! q)).
Proof.
  intros [(_ & -> & ->) | [_ ->]] Hq.
  - rewrite lookup_empty, bool_decide_eq_false_2 by (by intros [? ?]). lia.
  - destruct (Z.eqb_spec q (dv s)) as [-> | N]; symmetry; [apply bool_decide_eq_true_2; rewrite lookup_singleton_eq; eauto |].
    apply bool_decide_eq_false_2. rewrite lookup_singleton_ne by done. by intros [? ?].
Qed.

(** The next chunk is in use. *)
Lemma forward_used s cs1 mid y cs3 : let n := total mid in let p := first s + total cs1 in let cs2 := (y, Used) :: cs3 in
  in_flight s cs1 mid cs2 false ->
  exists s', free_forward s p n (p + n) = Ret s' /\ freed s (around Used (first s) cs1 n cs2) s'.
Proof.
  intros n p cs2 (L & Hh & B & V). pose proof (Hh s L) as Ho. destruct (hole_bounds _ _ _ _ _ Ho) as (P1 & P2 & P3 & P4 & P5 & P6). fold n in Ho, B, V, P3, P5, P6. fold p in P2, P3.
  pose proof Ho as (_ & _ & [[Y1 Y2] S3]%Forall_cons & _ & _ & _ & (Hn & _) & _). change (head (mem s) (p + n) = tag y true true) in Hn. cbn [fst total] in *. destruct (total_sized _ S3). change (total cs2) with (y + total cs3) in *.
  destruct (read_tag _ _ _ _ _ Y1 Hn) as (R1 & R2 & _). unfold free_forward. rewrite R1, R2. unfold ok_next. destruct (Z.ltb_spec p (p + n)); [| lia]. cbn [andb negb].
  destruct (freeing_ok (mem s) p n y true) as [Fr _]; try (done || lia). by apply (insert_free s cs1 n y cs3 true); [split | |].
Qed.

(** The next chunk is the top. *)
Lemma forward_top s cs1 mid d : let n := total mid in let p := first s + total cs1 in
  in_flight s cs1 mid [] d ->
  exists s', free_forward s p n (p + n) = Ret s' /\ freed s (around Used (first s) cs1 n []) s'.
Proof.
  intros n p (L & Hh & B & V). pose proof (Hh s L) as Ho. destruct (hole_bounds _ _ _ _ _ Ho) as (P1 & P2 & P3 & P4 & P5 & P6). fold n in Ho, B, V, P3, P5, P6. fold p in P2, P3. cbn [total] in *.
  pose proof Ho as (Ba & _ & _ & _ & T & _ & _ & Ht). cbn [total] in T. rewrite Z.add_0_r in T. fold p in T.
  pose proof Ba as (_ & H1 & H2 & H3 & H4 & H5 & H6 & H7 & H8). change TOP_FOOT_SIZE with 112 in H6.
  destruct (read_tag _ _ _ _ _ H7 Ht) as (R1 & R2 & _). unfold free_forward. rewrite <- T, R1, R2. unfold ok_next. destruct (Z.ltb_spec p (top s)); [| lia]. cbn [andb negb].
  rewrite Z.eqb_refl. assert (u64 (topsize s + n) = topsize s + n) as -> by (unfold u64; apply wrap_small; unfold in_range; lia). rewrite tag_free by (by apply Z.divide_add_r).
  set (s1 := set_mem _ _). set (s2 := if p =? dv s1 then set_dv s1 0 0 else s1).
  assert (victim s2 (around Victim (first s) cs1 n [])) as V2.
  { unfold s2. change (dv s1) with (dv s). destruct d.
    - destruct V as (Ed & -> & _). rewrite Ed. fold p. rewrite Z.eqb_refl. by left.
    - rewrite (victim_at s _ p V) by lia. rewrite bool_decide_eq_false_2; [exact V |]. rewrite around_none; [by intros [? ?] | apply Ho | apply Ho |]. fold p. lia. }
  eexists. split; [reflexivity |]. apply (top_free s cs1 n); try done; unfold s2, sys_trim; repeat case_match; try done; exact V2.
Qed.

(** Behind the chunk and its successor, which is free. *)
Lemma after_free s cs1 n y k cs3 : let p := first s + total cs1 in
  hole s cs1 n ((y, k) :: cs3) true -> k <> Used ->
  exists y' cs4, cs3 = (y', Used) :: cs4 /\ hole s cs1 (n + y) cs3 false /\
    (forall j, around j (first s) cs1 n ((y, k) :: cs3) = if decide (k = j) then <[p + n := y]> (around j (first s) cs1 (n + y) cs3) else around j (first s) cs1 (n + y) cs3) /\
    (forall j, around j (first s) cs1 (n + y) cs3 !! (p + n) = None) /\
    freeing (mem s) p (n + y) y' (set_size_and_pinuse_of_free_chunk (mem s) p (n + y)).
Proof.
  intros p Ho Hk. pose proof (hole_bounds _ _ _ _ _ Ho) as (_ & _ & _ & _ & Hn & _). pose proof (hole_after _ _ _ _ _ _ Ho Hk) as Ho'.
  destruct (hole_bounds _ _ _ _ _ Ho') as (P1 & P2 & P3 & P4 & P5 & P6). fold p in P2, P3. pose proof Ho as (_ & S1 & [[Y1 Y2] S3]%Forall_cons & _). cbn [fst] in *.
  destruct (seg_after_free (mem s) (first s + total cs1 + (n + y)) cs3) as (y' & cs4 & ->); [apply Ho' |]. exists y', cs4.
  split; [done |]. split; [done |]. split; [intros j; apply around_after; (done || lia) |]. split; [intros j; apply around_none; try done; fold p; lia |].
  pose proof Ho' as (_ & _ & [[Z1 Z2] S4]%Forall_cons & _ & _ & _ & (Hh & _) & _). cbn [fst total] in *. destruct (total_sized _ S4).
  eapply (freeing_ok (mem s) p (n + y) y' false); (done || lia).
Qed.

(** The next chunk is the victim. *)
Lemma forward_victim s cs1 mid y cs3 : let n := total mid in let p := first s + total cs1 in let cs2 := (y, Victim) :: cs3 in
  in_flight s cs1 mid cs2 false ->
  exists s', free_forward s p n (p + n) = Ret s' /\ freed s (around Used (first s) cs1 n cs2) s'.
Proof.
  intros n p cs2 (L & Hh & B & V). pose proof (Hh s L) as Ho. destruct (hole_bounds _ _ _ _ _ Ho) as (P1 & P2 & P3 & P4 & P5 & P6). fold n in Ho, B, V, P3, P5, P6. fold p in P2, P3.
  pose proof Ho as (Ba & S1 & S2 & _ & T & _ & (Hn & _) & _). pose proof S2 as [[Y1 Y2] S3]%Forall_cons. cbn [fst] in *. destruct (total_sized _ S3). fold p in T. change (total cs2) with (y + total cs3) in *.
  destruct (after_free s cs1 n y Victim cs3 Ho ltac:(done)) as (y' & cs4 & E3 & Ho' & EA & EN & Fr). fold cs2 in EA. fold p in EA, EN, Fr.
  change (head (mem s) (p + n) = tag y true false) in Hn. destruct (read_tag _ _ _ _ _ Y1 Hn) as (R1 & R2 & _). unfold free_forward. rewrite R1, R2.
  unfold ok_next. destruct (Z.ltb_spec p (p + n)); [| lia]. cbn [andb negb]. destruct (Z.eqb_spec (p + n) (top s)); [lia |].
  pose proof (EA Victim) as EV. rewrite decide_True in EV by done. rewrite (victim_at s _ (p + n) V), EV, bool_decide_eq_true_2 by (rewrite ?lookup_insert_eq; (eauto || lia)).
  rewrite EV in V. destruct V as [(_ & _ & V) | [Vd V]]; [by apply insert_non_empty in V |].
  assert (dv s = p + n /\ dvsize s = y) as [Ed Es].
  { assert (({[dv s := dvsize s]} : gmap Z Z) !! (p + n) = Some y) as E by (rewrite <- V; apply lookup_insert_eq). by apply lookup_singleton_Some in E. }
  assert (around Victim (first s) cs1 (n + y) cs3 = ∅) as E0.
  { rewrite <- (delete_insert_id _ (p + n) y (EN Victim)), V, Ed. apply delete_singleton_eq. }
  rewrite Es. assert (u64 (y + n) = n + y) as -> by (unfold u64; rewrite wrap_small; [lia | unfold in_range; lia]).
  eexists. split; [done |]. rewrite (EA Used), decide_False by done. subst cs3. apply (victim_free s cs1 (n + y) y' cs4 false); try done.
  split; [done |]. rewrite (EA Binned), decide_False in B by done. done.
Qed.

(** The next chunk is in a bin. *)
Lemma forward_binned s cs1 mid y cs3 d : let n := total mid in let p := first s + total cs1 in let cs2 := (y, Binned) :: cs3 in
  in_flight s cs1 mid cs2 d ->
  exists s', free_forward s p n (p + n) = Ret s' /\ freed s (around Used (first s) cs1 n cs2) s'.
Proof.
  intros n p cs2 (L & Hh & B & V). pose proof (Hh s L) as Ho. destruct (hole_bounds _ _ _ _ _ Ho) as (P1 & P2 & P3 & P4 & P5 & P6). fold n in Ho, B, V, P3, P5, P6. fold p in P2, P3.
  pose proof Ho as (Ba & S1 & S2 & _ & T & _ & (Hn & _) & _). pose proof S2 as [[Y1 Y2] S3]%Forall_cons. cbn [fst] in *. destruct (total_sized _ S3). fold p in T. change (total cs2) with (y + total cs3) in *.
  destruct (after_free s cs1 n y Binned cs3 Ho ltac:(done)) as (_ & _ & _ & _ & EA & EN & _). fold cs2 in EA. fold p in EA, EN.
  change (head (mem s) (p + n) = tag y true false) in Hn. destruct (read_tag _ _ _ _ _ Y1 Hn) as (R1 & R2 & R3 & _). unfold free_forward. rewrite R1, R2, R3.
  unfold ok_next. destruct (Z.ltb_spec p (p + n)); [| lia]. cbn [andb negb]. destruct (Z.eqb_spec (p + n) (top s)); [lia |].
  assert ((p + n =? dv s) = false) as ->.
  { destruct d; [destruct V as [-> _]; fold p; lia |]. rewrite (victim_at s _ (p + n) V), (EA Victim), decide_False, EN by (done || lia). apply bool_decide_eq_false_2. by intros [? ?]. }
  pose proof (EA Binned) as EB. rewrite decide_True in EB by done. rewrite EB in B.
  destruct (unlink_chunk_ok s _ (p + n) y B) as (s1 & U & B1 & M); [apply lookup_insert_eq |]. rewrite U. cbn [mbind outcome_bind].
  rewrite delete_insert_id in B1 by apply EN. rewrite <- EB in M.
  assert (Forall sized (cs1 ++ mid ++ cs2)) as S by apply L.
  pose proof (layout_moved _ _ _ _ L (around_sub Binned (first s) cs1 mid cs2 S) M) as L1. pose proof (moved_space _ _ _ M) as SS. pose proof (same_first _ _ SS) as Ef.
  pose proof (kept_links _ _ _ _ _ L (around_sub Binned (first s) cs1 mid cs2 S) (around_sub Used (first s) cs1 mid cs2 S) M) as K. fold n in K.
  pose proof (Hh s1 L1) as Ho1. fold n in Ho1. destruct (after_free s1 cs1 n y Binned cs3 Ho1 ltac:(done)) as (y' & cs4 & E3 & Ho2 & _ & _ & Fr). rewrite Ef in Fr. fold p in Fr.
  assert (u64 (n + y) = n + y) as -> by (unfold u64; apply wrap_small; unfold in_range; lia).
  assert (dv s1 = dv s /\ dvsize s1 = dvsize s) as [Ed1 Ed2] by (by destruct M as [(sm & tm & m' & ->) _]). change (dv (set_mem s1 _)) with (dv s1). rewrite Ed1.
  rewrite (EA Used), decide_False by done. rewrite (EA Used), decide_False in K by done. subst cs3. destruct d.
  - destruct V as (Ed & V & _). rewrite Ed. fold p. rewrite Z.eqb_refl. eexists. split; [done |]. eapply freed_trans; [exact SS | exact K |].
    rewrite <- Ef. unfold p. rewrite <- Ef. apply (victim_free s1 cs1 (n + y) y' cs4 false).
    + split; [done |]. by rewrite Ef.
    + rewrite Ef. rewrite (EA Victim), decide_False in V by done. done.
    + by rewrite Ef.
  - rewrite (victim_at s _ p V) by lia. rewrite bool_decide_eq_false_2 by (rewrite around_none; [by intros [? ?] | done | done | fold p; lia]).
    rewrite (EA Victim), decide_False in V by done.
    destruct (insert_free s1 cs1 (n + y) y' cs4 false (set_size_and_pinuse_of_free_chunk (mem s1) p (n + y))) as (s' & I & Fd).
    + split; [done |]. by rewrite Ef.
    + rewrite Ef. by apply (victim_fields s).
    + by rewrite Ef.
    + rewrite Ef in I, Fd. fold p in I. exists s'. split; [done |]. by eapply freed_trans.
Qed.

Lemma free_forward_ok s cs1 mid cs2 d : let n := total mid in let p := first s + total cs1 in
  in_flight s cs1 mid cs2 d ->
  exists s', free_forward s p n (p + n) = Ret s' /\ freed s (around Used (first s) cs1 n cs2) s'.
Proof.
  intros n p H. destruct cs2 as [| [y k] cs3]; [by apply (forward_top _ _ _ d) |]. destruct k.
  - destruct d; [by destruct H as (_ & _ & _ & _ & _ & H); destruct (H y cs3) | by apply forward_used].
  - by apply (forward_binned _ _ _ _ _ d).
  - destruct d; [| by apply forward_victim]. exfalso. destruct H as (L & Hh & _ & _ & H & _). pose proof (Hh s L) as Ho.
    destruct (after_free s cs1 (total mid) y Victim cs3 Ho ltac:(done)) as (_ & _ & _ & _ & EA & _). rewrite (EA Victim), decide_True in H by done. by apply insert_non_empty in H.
Qed.

(** ** mspace_free *)

(** A sequence that ends with the flag clear ends with a free chunk. *)
Lemma seg_ends_free m p cs : seg m p true cs false -> exists cs' w k, cs = cs' ++ [(w, k)] /\ k <> Used /\ prev_foot m (p + total cs) = w.
Proof.
  destruct cs as [| [w k] cs' _] using rev_ind; [done |]. intros (b & _ & G2)%seg_join. cbn [seg] in G2. destruct G2 as (_ & G2 & G3). exists cs', w, k.
  apply bool_decide_eq_false_1 in G3. destruct (G2 G3) as [_ G4]. rewrite total_app. cbn [total]. rewrite Z.add_0_r, Z.add_assoc. by split_and!.
Qed.

Lemma seg_same m m' p p' pin cs b b' : seg m p pin cs b -> seg m' p' pin cs b' -> b = b'.
Proof.
  revert p p' pin. induction cs as [| [z k] cs IH]; intros p p' pin; cbn; [congruence |]. intros (_ & _ & H) (_ & _ & H'). by apply (IH _ _ _ H H').
Qed.

(** The block alone is in flight. *)
Lemma flight_alone s cs1 z cs2 : inv s (cs1 ++ (z, Used) :: cs2) -> seg (mem s) (first s) true cs1 true -> 
  in_flight s cs1 [(z, Used)] cs2 false.
Proof.
  intros (L & B & V) G. assert (Forall sized cs1) as S1 by (destruct L as (_ & S & _); by apply Forall_app in S as [? _]).
  rewrite cmap_hole, decide_False in B by done. rewrite cmap_hole, decide_False in V by done. unfold in_flight. cbn [total app]. rewrite Z.add_0_r. split_and!; try done.
  intros s' L'. apply (layout_hole s' cs1 z Used cs2 L'). right. destruct L' as (_ & _ & _ & (b & G1 & _)%seg_join & _).
  assert (b = true) as -> by (symmetry; exact (seg_same _ _ _ _ _ _ _ _ G G1)). done.
Qed.

(** The block and the victim before it, behind which no chunk is in use. *)
Lemma flight_victim s cs1 w z cs2 : inv s (cs1 ++ (w, Victim) :: (z, Used) :: cs2) -> (forall y cs3, cs2 <> (y, Used) :: cs3) ->
  in_flight s cs1 [(w, Victim); (z, Used)] cs2 true /\ dv s = first s + total cs1.
Proof.
  intros (L & B & V) N. assert (Forall sized cs1) as S1 by (destruct L as (_ & S & _); by apply Forall_app in S as [? _]).
  assert (Forall sized ((w, Victim) :: (z, Used) :: cs2)) as [[W1 W2] [[Z1 Z2] S2]%Forall_cons]%Forall_cons by (destruct L as (_ & S & _); by apply Forall_app in S as [_ ?]). cbn [fst] in *.
  assert (forall j, cmap j (first s) (cs1 ++ (w, Victim) :: (z, Used) :: cs2) =
    if decide (Victim = j) then <[first s + total cs1 := w]> (around j (first s) cs1 w ((z, Used) :: cs2)) else around j (first s) cs1 w ((z, Used) :: cs2)) as EC by (intros j; by apply cmap_hole).
  assert (forall j, j <> Used -> around j (first s) cs1 w ((z, Used) :: cs2) = around j (first s) cs1 (w + z) cs2) as EA.
  { intros j Hj. rewrite around_after, decide_False by (done || lia). done. }
  rewrite EC, decide_False, EA in B by done. rewrite EC, decide_True, EA in V by done.
  assert (around Victim (first s) cs1 (w + z) cs2 !! (first s + total cs1) = None) as N0 by (apply around_none; (done || lia)).
  destruct V as [(_ & _ & V) | [Vd V]]; [by apply insert_non_empty in V |].
  assert (dv s = first s + total cs1) as Ed.
  { assert (({[dv s := dvsize s]} : gmap Z Z) !! (first s + total cs1) = Some w) as E by (rewrite <- V; apply lookup_insert_eq). by apply lookup_singleton_Some in E as [? _]. }
  split; [| done]. unfold in_flight. cbn [total app]. rewrite Z.add_0_r. split_and!; try done.
  - intros s' L'. by apply (layout_hole_before s' cs1 w Victim z cs2 L').
  - rewrite <- (delete_insert_id _ _ w N0), V, Ed. apply delete_singleton_eq.
Qed.

(** The block and the chunk of a bin before it, which is unlinked. *)
Lemma flight_binned s cs1 w z cs2 : inv s (cs1 ++ (w, Binned) :: (z, Used) :: cs2) ->
  let p := first s + total cs1 in (p =? dv s) = false /\
  exists s1, unlink_chunk s p w = Ret s1 /\ in_flight s1 cs1 [(w, Binned); (z, Used)] cs2 false /\ same_space s s1 /\
    kept (around Used (first s) cs1 (w + z) cs2) (mem s) (mem s1).
Proof.
  intros (L & B & V) p. assert (Forall sized (cs1 ++ (w, Binned) :: (z, Used) :: cs2)) as S by apply L.
  pose proof S as (S1 & [[W1 W2] [[Z1 Z2] S2]%Forall_cons]%Forall_cons)%Forall_app. cbn [fst] in *. destruct (first_in _ _ L) as (F1 & _). destruct (total_sized _ S1) as [T1 _].
  assert (forall j, cmap j (first s) (cs1 ++ (w, Binned) :: (z, Used) :: cs2) =
    if decide (Binned = j) then <[p := w]> (around j (first s) cs1 w ((z, Used) :: cs2)) else around j (first s) cs1 w ((z, Used) :: cs2)) as EC by (intros j; by apply cmap_hole).
  assert (forall j, j <> Used -> around j (first s) cs1 w ((z, Used) :: cs2) = around j (first s) cs1 (w + z) cs2) as EA.
  { intros j Hj. rewrite around_after, decide_False by (done || lia). done. }
  assert (forall j, around j (first s) cs1 (w + z) cs2 !! p = None) as N0 by (intros j; apply around_none; (done || fold p; lia)).
  pose proof (EC Victim) as EV. rewrite decide_False, EA in EV by done. rewrite EV in V. split.
  { rewrite (victim_at s _ p V) by (unfold p; lia). rewrite N0. apply bool_decide_eq_false_2. by intros [? ?]. }
  destruct (unlink_chunk_ok s _ p w B) as (s1 & U & B1 & M); [rewrite EC, decide_True by done; apply lookup_insert_eq |].
  pose proof (layout_moved _ _ _ _ L (reflexivity _) M) as L1. pose proof (moved_space _ _ _ M) as SS. pose proof (same_first _ _ SS) as Ef.
  rewrite EC, decide_True, EA, delete_insert_id in B1 by done.
  exists s1. split; [done |]. split; [| split; [done |]].
  - unfold in_flight. cbn [total app]. rewrite Z.add_0_r, Ef. split_and!; try done.
    + intros s' L'. by apply (layout_hole_before s' cs1 w Binned z cs2 L').
    + destruct M as [(sm & tm & m' & ->) _]. exact V.
  - eapply kept_links; [exact L | done | | exact M]. pose proof (around_sub Used (first s) cs1 [(w, Binned); (z, Used)] cs2 S) as Su. cbn [total] in Su. by rewrite Z.add_0_r in Su.
Qed.

(** The block and the victim before it, with a chunk in use behind. *)
Lemma free_into_victim s cs1 w z y cs3 : inv s (cs1 ++ (w, Victim) :: (z, Used) :: (y, Used) :: cs3) ->
  let p := first s + total cs1 in let n := w + z in dv s = p /\
  freed s (around Used (first s) cs1 n ((y, Used) :: cs3)) (set_mem (set_dv s p n) (set_free_with_pinuse (mem s) p n (p + n))) /\
  head (mem s) (p + n) = tag y true true.
Proof.
  intros I p n. pose proof I as (L & B & V). pose proof (layout_hole_before s cs1 w Victim z ((y, Used) :: cs3) L ltac:(done)) as Ho. fold n in Ho.
  destruct (hole_bounds _ _ _ _ _ Ho) as (P1 & P2 & P3 & P4 & P5 & P6). fold p in P2, P3. pose proof Ho as (_ & S1 & [[Y1 Y2] S3]%Forall_cons & _ & _ & _ & (Hn & _) & _).
  change (head (mem s) (p + n) = tag y true true) in Hn. cbn [fst total] in *. destruct (total_sized _ S3).
  assert (Forall sized ((w, Victim) :: (z, Used) :: (y, Used) :: cs3)) as [[W1 W2] [[Z1 Z2] S2]%Forall_cons]%Forall_cons by (destruct L as (_ & S & _); by apply Forall_app in S as [_ ?]). cbn [fst] in *.
  assert (forall j, j <> Used -> around j (first s) cs1 w ((z, Used) :: (y, Used) :: cs3) = around j (first s) cs1 n ((y, Used) :: cs3)) as EA.
  { intros j Hj. rewrite around_after, decide_False by (done || lia). done. }
  rewrite cmap_hole, decide_False, EA in B by done. rewrite cmap_hole, decide_True, EA in V by done. fold p in V.
  assert (around Victim (first s) cs1 n ((y, Used) :: cs3) !! p = None) as N0 by (apply around_none; (done || (fold p; lia))).
  destruct V as [(_ & _ & V) | [Vd V]]; [by apply insert_non_empty in V |].
  assert (dv s = p) as Ed.
  { assert (({[dv s := dvsize s]} : gmap Z Z) !! p = Some w) as E by (rewrite <- V; apply lookup_insert_eq). by apply lookup_singleton_Some in E as [? _]. }
  split; [done |]. split; [| done]. destruct (freeing_ok (mem s) p n y true) as [Fr _]; try (done || lia).
  apply (victim_free s cs1 n y cs3 true); [by split | | done]. rewrite <- (delete_insert_id _ _ w N0), V, Ed. apply delete_singleton_eq.
Qed.

Lemma mspace_free_ok s cs p z : inv s cs -> used s cs !! p = Some z ->
  exists s', mspace_free s (p + 16) = Ret s' /\ freed s (delete p (used s cs)) s'.
Proof.
  intros I E. pose proof I as (L & B & V). destruct (cmap_split _ _ _ _ _ E) as (cs1 & cs2 & -> & Ep). pose proof L as (Ba & S & T & (b & G1 & G2)%seg_join & Ht).
  pose proof S as (S1 & [[Z1 Z2] S2]%Forall_cons)%Forall_app. cbn [fst] in *. destruct (first_in _ _ L) as (F1 & F2 & F3 & F4). destruct (total_sized _ S1) as [T1 _], (total_sized _ S2) as [T2 _].
  rewrite total_app in F2, F3. cbn [total] in F2, F3. rewrite <- Ep in G2. cbn [seg] in G2. destruct G2 as (Hh & _ & G2). change (head (mem s) p = tag z b true) in Hh.
  destruct (read_tag _ _ _ _ _ Z1 Hh) as (R1 & _ & R3 & R4). destruct (R4 eq_refl) as [R5 R6].
  pose proof Ba as (_ & _ & _ & _ & _ & Bl & _).
  assert (delete p (used s (cs1 ++ (z, Used) :: cs2)) = around Used (first s) cs1 z cs2) as EU.
  { unfold used. rewrite cmap_hole, decide_True by done. rewrite Ep. apply delete_insert_id, around_none; (done || lia). }
  rewrite EU. unfold mspace_free. destruct (Z.eqb_spec (p + 16) 0); [lia |]. cbn [negb].
  assert (mem2chunk (p + 16) = p) as -> by (unfold mem2chunk, u64; rewrite wrap_small; [lia | unfold in_range; lia]).
  assert (forall q, first s <= q -> ok_address s q = true) as OK by (intros q Hq; apply ok_address_true; unfold first, header_size in *; destruct Ba as (_ & ? & _); lia).
  rewrite OK, R5, R3, R1, R6, plus_offset by lia. cbn [andb negb]. destruct b; cbn [negb].
  { destruct (free_forward_ok s cs1 [(z, Used)] cs2 false (flight_alone s cs1 z cs2 I G1)) as (s' & Ff & Fd). cbn [total] in *. rewrite Z.add_0_r, <- Ep in *. by exists s'. }
  destruct (seg_ends_free _ _ _ G1) as (cs0 & w & k & -> & Hk & Hf). rewrite <- Ep in Hf. rewrite Hf. rewrite total_app in Ep, F2, F3. cbn [total] in Ep, F2, F3. rewrite Z.add_0_r in Ep, F2, F3.
  apply Forall_app in S1 as [S0 [W1 W2]%Forall_singleton]. cbn [fst] in *. destruct (total_sized _ S0) as [T0 _]. set (q := first s + total cs0) in *.
  assert (chunk_minus_offset p w = q) as -> by (unfold chunk_minus_offset, u64, q; rewrite wrap_small; [lia | unfold in_range; lia]).
  assert (u64 (z + w) = w + z) as -> by (unfold u64; rewrite wrap_small; [lia | unfold in_range; lia]). rewrite OK by (unfold q; lia).
  rewrite (around_before Used (first s) cs0 w k z cs2 S0), decide_False by done. rewrite <- app_assoc in I. cbn [app] in I.
  assert (p + z = q + (w + z)) as -> by (unfold q; lia). destruct k; [done | |].
  - destruct (flight_binned s cs0 w z cs2 I) as (Nd & s1 & U & Fl & SS & K). fold q in Nd, U. rewrite Nd. cbn [negb]. rewrite U. cbn [mbind outcome_bind].
    destruct (free_forward_ok s1 cs0 [(w, Binned); (z, Used)] cs2 false Fl) as (s' & Ff & Fd). cbn [total] in *. rewrite (same_first _ _ SS), Z.add_0_r in *. fold q in Ff. exists s'. split; [done |]. by eapply freed_trans.
  - assert ((exists y cs3, cs2 = (y, Used) :: cs3) \/ forall y cs3, cs2 <> (y, Used) :: cs3) as [(y & cs3 & ->) | Nu].
    { destruct cs2 as [| [y []] cs3]; [by right | left; eauto | by right | by right]. }
    + destruct (free_into_victim s cs0 w z y cs3 I) as (Ed & Fd & Hn). fold q in Ed, Fd, Hn. rewrite Ed, Z.eqb_refl. cbn [negb]. change INUSE_BITS with 3.
      apply Forall_cons in S2 as [[Y1 _] _]. cbn [fst] in Y1. rewrite Hn, tag_land by (done || lia). change (Z.land (flags true true) 3 =? 3) with true. eauto.
    + destruct (flight_victim s cs0 w z cs2 I Nu) as [Fl Ed]. fold q in Ed. rewrite Ed, Z.eqb_refl. cbn [negb]. change INUSE_BITS with 3.
      assert ((Z.land (head (mem s) (q + (w + z))) 3 =? 3) = false) as ->.
      { assert (q + (w + z) = p + z) as -> by (unfold q; lia). destruct cs2 as [| [y k] cs3].
        - cbn [total] in *. assert (p + z = top s) as -> by (rewrite T, Ep, total_app, total_app; cbn; lia). rewrite Ht, tag_land by (lia || apply Ba). done.
        - cbn [seg] in G2. destruct G2 as (Hn & _). apply Forall_cons in S2 as [[Y1 _] _]. cbn [fst] in Y1. rewrite Hn, tag_land by (done || lia).
          destruct k; [by destruct (Nu y cs3) | done | done]. }
      destruct (free_forward_ok s cs0 [(w, Victim); (z, Used)] cs2 true Fl) as (s' & Ff & Fd). cbn [total] in *. rewrite Z.add_0_r in *. fold q in Ff. by exists s'.
Qed.

End Release.
