(* ===== verification/DlResize.v ===== *)
(** * kernel/dlmalloc.cc: chunks in use that change their size

    mspace_realloc and mspace_memalign cut a chunk in use into two, give a part back
    (dispose_chunk, which is mspace_free but for its checks), or let it grow into the
    free chunk behind it.  [swap_layout] replaces a part of the sequence of chunks by
    another; each step of try_realloc_chunk is an instance. *)

From S2P Require Import Prelude DlHeap DlBins DlTrie DlFree DlLayout Dlmalloc DlSearch DlAlloc DlRelease.

Module Resize.
Import Chunk Bins Free Layout Mspace Alloc Release.

(** ** dispose_chunk *)

Lemma freed_checks s U s' a b : freed s U (set_checks s' a b) -> freed s U s'.
Proof.
  intros (cs & (L & B & V) & SS & EU & K). exists cs. split_and!; try done. split_and!; [exact L | | exact V]. eapply bins_frame; [exact B | done..].
Qed.

Lemma adopt_least s X R i s' : adopt s X R i = Ret s' -> least_addr s' = least_addr s.
Proof. unfold adopt. repeat case_match; intros; by simplify_eq. Qed.

Lemma unlink_chunk_least s p z s' : unlink_chunk s p z = Ret s' -> least_addr s' = least_addr s.
Proof.
  unfold unlink_chunk. destruct (is_small z); [unfold unlink_small_chunk; repeat case_match; intros; by simplify_eq |]. unfold unlink_large_chunk.
  intros ([R s1] & E1 & E2)%bind_Ret. transitivity (least_addr s1).
  - destruct (negb (parent (mem s) p =? 0)); [| by simplify_eq]. apply bind_Ret in E2 as (s2 & E2 & E3). transitivity (least_addr s2).
    + destruct (negb (R =? 0)); [| by simplify_eq]. case_match; [| done]. apply bind_Ret in E3 as (s3 & E3 & E4). apply adopt_least in E3, E4. cbn in E3. congruence.
    + revert E2. unfold relink. repeat case_match; intros; by simplify_eq.
  - revert E1. unfold unlink_replacement. repeat case_match; try (intros; by simplify_eq); intros ([] & _ & E)%bind_Ret; revert E; case_match; intros; by simplify_eq.
Qed.

(** Where mspace_free from the next chunk on succeeds, dispose_chunk does the same, but for
    the counters. *)
Lemma dispose_forward_free s p n next s' : ok_address s next = true -> free_forward s p n next = Ret s' ->
  exists s'' a b, dispose_forward s p n next = Ret s'' /\ s' = set_checks s'' a b.
Proof.
  intros Ha. unfold free_forward, dispose_forward. rewrite Ha. destruct (ok_next p next && pinuse (mem s) next); [| done].
  assert (forall s, exists a b, s = set_checks s a b) as Same by (intros []; by eexists _, _).
  assert (forall s n s', free_insert s p n = Ret s' -> exists s'' a b, insert_chunk s p n = Ret s'' /\ s' = set_checks s'' a b) as Ins.
  { intros s0 n0 s1. unfold free_insert, insert_chunk. destruct (is_small n0).
    - intros E. exists s1. destruct (Same s1) as (a & b & E1). by exists a, b.
    - destruct (insert_large_chunk s0 p n0) as [s2 | |] eqn:E2; try done. cbn [mbind outcome_bind]. intros E. injection E as <-. exists s2.
      case_match; by eexists _, _. }
  destruct (negb (cinuse (mem s) next)); [| by apply Ins].
  destruct (next =? top s).
  { set (s1 := if p =? dv _ then _ else _). intros E. injection E as <-. destruct (Same s1) as (a & b & E).
    assert (exists a b, sys_trim s1 = set_checks s1 a b) as (c & d & T) by (unfold sys_trim; case_match; [by eexists _, _ | by exists a, b]).
    rewrite T. exists s1. case_match; by eexists _, _. }
  destruct (next =? dv s).
  { intros E. injection E as <-. eexists _, _, _. split; [reflexivity |]. by destruct s. }
  destruct (unlink_chunk s next _) as [s1 | |]; try done. cbn [mbind outcome_bind]. case_match; [| by apply Ins].
  intros E. injection E as <-. eexists _, _, _. split; [reflexivity |]. by destruct s1.
Qed.

Lemma dispose_chunk_free s p n s' : 0 <= p < 2 ^ 63 -> chunksize (mem s) p = n -> is_mmapped (mem s) p = false -> ok_address s (chunk_plus_offset p n) = true ->
  mspace_free s (p + 16) = Ret s' -> exists s'' a b, dispose_chunk s p n = Ret s'' /\ s' = set_checks s'' a b.
Proof.
  intros Hp En Hm Ha. unfold mspace_free, dispose_chunk, mem2chunk. replace (p + 16 - 16) with p by lia.
  assert (u64 p = p) as -> by (unfold u64; apply wrap_small; unfold in_range; lia). destruct (Z.eqb_spec (p + 16) 0); [lia |]. cbn [negb].
  rewrite En, Hm. destruct (ok_address s p && is_inuse (mem s) p); [| done]. destruct (negb (pinuse (mem s) p)); [| by apply dispose_forward_free].
  destruct (ok_address s (chunk_minus_offset _ _)); [| done]. destruct (negb (_ =? dv s)).
  - destruct (unlink_chunk s _ _) as [s1 | |] eqn:U; try done. cbn [mbind outcome_bind]. apply dispose_forward_free.
    unfold ok_address in *. by rewrite (unlink_chunk_least _ _ _ _ U).
  - case_match; [| by apply dispose_forward_free]. intros E. injection E as <-. eexists _, _, _. split; [reflexivity |]. by destruct s.
Qed.

(** dispose_chunk on a chunk in use is mspace_free. *)
Lemma dispose_chunk_ok s cs p z : inv s cs -> used s cs !! p = Some z -> exists s', dispose_chunk s p z = Ret s' /\ freed s (delete p (used s cs)) s'.
Proof.
  intros I E. destruct (mspace_free_ok s cs p z I E) as (s' & F & Fd). pose proof I as (L & _ & _). pose proof L as (Ba & S & _ & G & _).
  pose proof (cmap_range _ _ _ _ _ S E) as (P1 & P2 & P3 & P4). destruct (first_in _ _ L) as (F1 & F2 & _).
  destruct (seg_chunk _ _ _ _ _ _ _ _ G E) as (b & Hh & _). destruct (read_tag _ _ _ _ _ P4 Hh) as (_ & _ & Hz & [_ Hm]%(fun f => f eq_refl)).
  destruct (dispose_chunk_free s p z s') as (s'' & a & c & D & ->); try done; [lia | | exists s''; split; [done | by apply freed_checks in Fd]].
  rewrite plus_offset by lia. apply ok_address_true. destruct Ba as (_ & B1 & _ & _ & _ & -> & _). unfold first, header_size in *. lia.
Qed.

(** ** Replacing a part of the sequence *)

(** The tag of what is behind a part: the flag is [b]. *)
Definition next_tag (s : mstate) (m : ram) (q : Z) (b : bool) (cs : chunks) : Prop :=
  match cs with
  | [] => b = true /\ head m q = tag (topsize s) true false
  | (y, k) :: _ => head m q = tag y b (bool_decide (k = Used)) /\ (k <> Used -> b = true)
  end.

Lemma seg_swap m m' q b b' cs : Forall sized cs -> seg m q b cs true -> (forall x, q + 16 <= x -> m' x = m x) ->
  match cs with [] => b' = true | (y, k) :: _ => head m' q = tag y b' (bool_decide (k = Used)) /\ (k <> Used -> b' = true) end -> seg m' q b' cs true.
Proof.
  intros S G E. destruct cs as [| [y k] cs]; [done |]. apply Forall_cons in S as [[_ Y] S]. cbn [fst seg] in *. intros [H1 H2]. destruct G as (_ & G2 & G3). split_and!; [done | |].
  - intros Nk. split; [auto |]. rewrite <- (proj2 (G2 Nk)) at 2. apply ld_ext. intros x Hx. apply E. lia.
  - eapply seg_ext; [done | | exact G3]. intros x Hx _. apply E. lia.
Qed.

Lemma swap_layout s cs1 mid cs2 mid' a b' m' : layout s (cs1 ++ mid ++ cs2) ->
  let p := first s + total cs1 in let n := total mid in
  32 <= n -> Forall sized mid' -> total mid' = n -> seg (mem s) (first s) true cs1 a -> seg m' p a mid' b' -> next_tag s m' (p + n) b' cs2 ->
  (forall x, x < p + 8 \/ p + n + 16 <= x -> m' x = mem s x) -> bins s (around Binned (first s) cs1 n cs2) ->
  layout (set_mem s m') (cs1 ++ mid' ++ cs2) /\ bins (set_mem s m') (around Binned (first s) cs1 n cs2) /\
  kept (around Used (first s) cs1 n cs2) (mem s) m'.
Proof.
  intros (Ba & S & T & G & Ht) p n Hn Sm Tm G1 Gm Nt E Bi. pose proof S as (S1 & [S2 S3]%Forall_app)%Forall_app.
  apply seg_join in G as (a' & _ & (b & _ & G)%seg_join). fold p n in G. rewrite !total_app in T. fold n in T.
  destruct (total_sized _ S1) as [T1 _], (total_sized _ S3) as [T3 _]. split_and!.
  - split_and!; [done | by rewrite !Forall_app | | |].
    + change (top s = first s + total (cs1 ++ mid' ++ cs2)). rewrite !total_app. lia.
    + change (seg m' (first s) true (cs1 ++ mid' ++ cs2) true). apply seg_join. exists a. split; [eapply seg_ext; [done | | exact G1]; intros x Hx _; apply E; fold p in Hx; lia |].
      apply seg_join. exists b'. fold p. rewrite Tm. split; [done |]. apply (seg_swap (mem s) m' _ b); try done; [intros x Hx; apply E; lia |].
      destruct cs2 as [| [y k] cs2]; [apply Nt | exact Nt].
    + change (head m' (top s) = tag (topsize s) true false). destruct cs2 as [| [y k] cs3]; cbn [next_tag total] in *; [replace (top s) with (p + n) by lia; apply Nt |].
      apply Forall_cons in S3 as [[_ Y] S3]. cbn [fst] in Y. destruct (total_sized _ S3). rewrite <- Ht. apply ld_ext. intros x Hx. apply E. lia.
  - eapply bins_frame_heads; [exact Bi | done.. | |].
    + intros x [H | (q & z & Eq & H)]; apply E; [left; unfold p, first; lia |]. apply around_range in Eq; [fold p in Eq; lia | done..].
    + intros q z Eq. unfold around in Eq. change (mem (set_mem s m')) with m'. apply lookup_union_Some_raw in Eq as [Eq | [_ Eq]].
      * apply cmap_range in Eq; [| done]. fold p in Eq. apply ld_ext. intros x Hx. apply E. lia.
      * fold p in Eq. destruct (decide (q = p + n)) as [-> | Nq].
        -- destruct cs2 as [| [y k] cs3]; [done |]. apply Forall_cons in S3 as [[_ Y] S3]. cbn [cmap next_tag seg fst] in *.
           destruct (decide (k = Binned)) as [-> |]; [| apply cmap_range in Eq; (done || lia)].
           destruct Nt as [-> ->]; [| done]. destruct G as (-> & [-> _] & _); done.
        -- assert (p + n + 32 <= q); [| apply ld_ext; intros x Hx; apply E; lia].
           destruct cs2 as [| [y k] cs3]; [done |]. apply Forall_cons in S3 as [[_ Y] S3]. cbn [cmap fst] in *.
           enough (p + n + y <= q) by lia. case_decide; [rewrite lookup_insert_ne in Eq by congruence |]; by apply cmap_range in Eq as [? _].
  - intros q z x Eq Hx. apply E. apply around_range in Eq; [fold p in Eq; lia | done..].
Qed.

(** ** set_inuse *)

Lemma set_inuse_ok m p n a : 0 <= p -> 32 <= n -> p + n < 2 ^ 62 -> (32 | n) -> Z.land (head m p) PINUSE_BIT = Z.b2z a ->
  let m' := set_inuse m p n in
  head m' p = tag n a true /\ (forall x, x < p + 8 \/ p + 16 <= x < p + n + 8 \/ p + n + 16 <= x -> m' x = m x) /\
  Z.land (head m' (p + n)) PINUSE_BIT = Z.b2z true /\ (forall y b k, (32 | y) -> 0 <= y < 2 ^ 62 -> head m (p + n) = tag y b k -> head m' (p + n) = tag y true k).
Proof.
  intros Hp Hn Hb D Ha m'. unfold m', set_inuse. rewrite plus_offset, Ha by lia.
  assert (Z.lor (Z.lor (Z.b2z a) n) CINUSE_BIT = tag n a true) as ->.
  { rewrite tag_lor, (Z.lor_comm _ n), <- Z.lor_assoc by done. f_equal. by destruct a. }
  pose proof (tag_range n a true ltac:(lia)) as R. split_and!.
  - mem_fields. by mem_read.
  - intros x Hx. mem_fields. by mem_out.
  - mem_fields. rewrite ld_st_wrap. apply Z.bits_inj'. intros j Hj. unfold u64. change (Z.b2z true) with PINUSE_BIT. rewrite Z.land_spec. destruct (decide (j = 0)) as [-> |].
    + rewrite testbit_wrap, Z.lor_spec by lia. by rewrite orb_true_r.
    + rewrite (testbit_high 1 PINUSE_BIT) by (done || lia). apply andb_false_r.
  - intros y b k Dy Hy Eh. mem_fields. pose proof (tag_range y true k ltac:(lia)). rewrite (ld_st_ne m (p + 8)) by lia. unfold head in Eh. rewrite Eh, tag_mark by done. by rewrite ld_st_eq.
Qed.

(** A head keeps its flag for the chunk before. *)
Lemma tag_pin z b k : (32 | z) -> Z.land (tag z b k) PINUSE_BIT = Z.b2z b.
Proof. intros D. rewrite tag_land by (done || (cbn; lia)). by destruct b, k. Qed.

(** A chunk becomes two chunks in use. *)
Lemma set_inuse_two m p nb r a : 0 <= p -> sized (nb, Used) -> sized (r, Used) -> p + nb + r < 2 ^ 62 -> Z.land (head m p) PINUSE_BIT = Z.b2z a ->
  forall m', m' = set_inuse (set_inuse m p nb) (p + nb) r \/ (m' = set_inuse (set_inuse m (p + nb) r) p nb) ->
  head m' p = tag nb a true /\ head m' (p + nb) = tag r true true /\
  (forall x, x < p + 8 \/ p + 16 <= x < p + nb + 8 \/ p + nb + 16 <= x < p + nb + r + 8 \/ p + nb + r + 16 <= x -> m' x = m x) /\
  (forall y b k, (32 | y) -> 0 <= y < 2 ^ 62 -> head m (p + nb + r) = tag y b k -> head m' (p + nb + r) = tag y true k).
Proof.
  intros Hp [N1 N2] [R1 R2] Hb Ha m'. cbn [fst] in *. intros [-> | ->].
  - destruct (set_inuse_ok m p nb a) as (H1 & H2 & H3 & _); try (done || lia). set (m1 := set_inuse m p nb) in *.
    destruct (set_inuse_ok m1 (p + nb) r true) as (G1 & G2 & _ & G4); try (done || lia). split_and!; [| done | |].
    + rewrite <- H1. apply ld_ext. intros x Hx. apply G2. lia.
    + intros x Hx. rewrite G2, H2 by lia. done.
    + intros y b k Dy Hy E. apply (G4 y b k); try done. rewrite <- E. apply ld_ext. intros x Hx. apply H2. lia.
  - assert (exists b0, Z.land (head m (p + nb)) PINUSE_BIT = Z.b2z b0) as [b0 E0].
    { exists (Z.testbit (head m (p + nb)) 0). change PINUSE_BIT with (Z.ones 1). rewrite Z.land_ones by lia. by rewrite Z.bit0_mod. }
    destruct (set_inuse_ok m (p + nb) r b0) as (H1 & H2 & _ & H4); try (done || lia). set (m1 := set_inuse m (p + nb) r) in *.
    destruct (set_inuse_ok m1 p nb a) as (G1 & G2 & _ & G4); try (done || lia). { rewrite <- Ha. f_equal. apply ld_ext. intros x Hx. apply H2. lia. }
    split_and!; [done | | |].
    + apply (G4 r b0 true); (done || lia).
    + intros x Hx. rewrite G2, H2 by lia. done.
    + intros y b k Dy Hy E. rewrite <- (H4 y b k Dy Hy E). apply ld_ext. intros x Hx. apply G2. lia.
Qed.

(** ** Parts that become chunks in use *)

(** The part [mid] of the sequence is neither in a bin nor the victim; the flag of its head
    is [a]. *)
Definition loose (s : mstate) (cs1 mid cs2 : chunks) (a : bool) : Prop :=
  let p := first s + total cs1 in let n := total mid in
  layout s (cs1 ++ mid ++ cs2) /\ 32 <= n /\ seg (mem s) (first s) true cs1 a /\ Z.land (head (mem s) p) PINUSE_BIT = Z.b2z a /\
  bins s (around Binned (first s) cs1 n cs2) /\ victim s (around Victim (first s) cs1 n cs2).

(** A chunk in use is loose. *)
Lemma used_loose s cs p z : inv s cs -> used s cs !! p = Some z -> exists cs1 cs2 a,
  cs = cs1 ++ [(z, Used)] ++ cs2 /\ p = first s + total cs1 /\ loose s cs1 [(z, Used)] cs2 a /\
  used s cs = <[p := z]> (around Used (first s) cs1 z cs2) /\ around Used (first s) cs1 z cs2 !! p = None.
Proof.
  intros (L & B & V) E. destruct (cmap_split _ _ _ _ _ E) as (cs1 & cs2 & -> & ->). pose proof L as (_ & S & _ & (a & G1 & G2)%seg_join & _).
  pose proof S as (S1 & [[Z1 Z2] S2]%Forall_cons)%Forall_app. cbn [seg fst] in *. destruct G2 as (G2 & _). exists cs1, cs2, a. unfold used, loose. cbn [total app].
  rewrite cmap_hole, decide_False in B by done. rewrite cmap_hole, decide_False in V by done. rewrite cmap_hole, decide_True, Z.add_0_r by done. split_and!; try done.
  - by rewrite G2, tag_pin.
  - apply around_none; (done || lia).
Qed.

Lemma loose_bounds s cs1 mid cs2 a : loose s cs1 mid cs2 a -> let p := first s + total cs1 in let n := total mid in
  Forall sized cs1 /\ Forall sized cs2 /\ 976 <= p /\ p + n < 2 ^ 62 /\ 32 <= n < 2 ^ 40 /\ (32 | n) /\ (forall k, cmap k (first s) cs1 ∪ cmap k (p + n) cs2 = around k (first s) cs1 n cs2) /\
  (forall m', (forall y b k, (32 | y) -> 0 <= y < 2 ^ 62 -> head (mem s) (p + n) = tag y b k -> head m' (p + n) = tag y true k) -> next_tag s m' (p + n) true cs2).
Proof.
  intros (L & Hn & _) p n. destruct (first_in _ _ L) as (F1 & F2 & F3 & _). pose proof L as (Ba & (S1 & [S2 S3]%Forall_app)%Forall_app & T & (c & _ & (b & _ & G)%seg_join)%seg_join & Ht).
  fold p n in G. rewrite !total_app in F2, F3, T. fold n in F2, F3, T, Hn. destruct (total_sized _ S1) as [T1 _], (total_sized _ S2) as [_ T2], (total_sized _ S3) as [T3 _].
  split_and!; try done; try (unfold p; lia). intros m' Hm. destruct cs2 as [| [y k] cs3]; cbn [next_tag seg total] in *.
  - split; [done |]. pose proof Ba as (_ & B1 & B2 & B3 & B4 & B5 & B6 & B7 & B8). change TOP_FOOT_SIZE with 112 in B6. apply (Hm _ true false); try done; [lia |]. by replace (p + n) with (top s) by (unfold p; lia).
  - apply Forall_cons in S3 as [[Y1 Y2] S3]. cbn [fst] in *. destruct (total_sized _ S3). split; [| done]. apply (Hm y b); [done | lia | apply G].
Qed.

Lemma loose_whole s cs1 mid cs2 a : loose s cs1 mid cs2 a -> let p := first s + total cs1 in let n := total mid in
  let m' := set_inuse (mem s) p n in let cs := cs1 ++ [(n, Used)] ++ cs2 in
  inv (set_mem s m') cs /\ used (set_mem s m') cs = <[p := n]> (around Used (first s) cs1 n cs2) /\
  kept (around Used (first s) cs1 n cs2) (mem s) m' /\ (forall x, p + 16 <= x < p + n + 8 -> m' x = mem s x).
Proof.
  intros O p n m' cs. destruct (loose_bounds _ _ _ _ _ O) as (S1 & S2 & P1 & P2 & P3 & P4 & EA & Hnx). fold p n in P1, P2, P3, P4, EA, Hnx. destruct O as (L & _ & G1 & Ha & B & V).
  destruct (set_inuse_ok (mem s) p n a) as (I1 & I2 & _ & I4); try (done || lia). fold m' in I1, I2, I4.
  destruct (swap_layout s cs1 mid cs2 [(n, Used)] a true m' L) as (L' & B' & K'); fold p n; try done; try lia.
  - apply Forall_singleton. split; cbn; (done || lia).
  - cbn. lia.
  - by apply Hnx.
  - intros x Hx. apply I2. lia.
  - assert (forall k, cmap k (first s) cs = if decide (Used = k) then <[p := n]> (around k (first s) cs1 n cs2) else around k (first s) cs1 n cs2) as EC by (intros k; by apply cmap_hole).
    fold cs in L'. split_and!; try done.
    + split; [done |]. change (first (set_mem s m')) with (first s). rewrite !EC, !decide_False by done. done.
    + unfold used. change (first (set_mem s m')) with (first s). by rewrite EC, decide_True.
    + intros x Hx. apply I2. lia.
Qed.

Lemma loose_two s cs1 mid cs2 a nb r m' : loose s cs1 mid cs2 a -> let p := first s + total cs1 in let n := total mid in
  sized (nb, Used) -> sized (r, Used) -> nb + r = n ->
  m' = set_inuse (set_inuse (mem s) p nb) (p + nb) r \/ m' = set_inuse (set_inuse (mem s) (p + nb) r) p nb ->
  let cs := cs1 ++ [(nb, Used); (r, Used)] ++ cs2 in let A := around Used (first s) cs1 n cs2 in
  inv (set_mem s m') cs /\ used (set_mem s m') cs = <[p := nb]> (<[p + nb := r]> A) /\ A !! p = None /\ A !! (p + nb) = None /\
  kept (<[p := nb]> (<[p + nb := r]> A)) (mem s) m'.
Proof.
  intros O p n [N1 N2] [R1 R2] En Em cs A. destruct (loose_bounds _ _ _ _ _ O) as (S1 & S2 & P1 & P2 & P3 & P4 & EA & Hnx). fold p n in P1, P2, P3, P4, EA, Hnx. destruct O as (L & _ & G1 & Ha & B & V).
  cbn [fst] in *. destruct (set_inuse_two (mem s) p nb r a ltac:(lia) ltac:(done) ltac:(done) ltac:(lia) Ha m' Em) as (I1 & I2 & I3 & I4).
  replace (p + nb + r) with (p + n) in I3, I4 by lia.
  destruct (swap_layout s cs1 mid cs2 [(nb, Used); (r, Used)] a true m' L) as (L' & B' & K'); fold p n; try done; try lia.
  - by repeat constructor.
  - cbn. lia.
  - by apply Hnx.
  - intros x Hx. apply I3. lia.
  - assert (forall k, cmap k (first s) cs = if decide (Used = k) then <[p := nb]> (<[p + nb := r]> (around k (first s) cs1 n cs2)) else around k (first s) cs1 n cs2) as EC.
    { intros k. unfold cs. cbn [app]. rewrite cmap_hole, around_after by (done || lia). fold p. rewrite En. by case_decide. }
    fold cs in L'. split_and!.
    + split; [done |]. change (first (set_mem s m')) with (first s). rewrite !EC, !decide_False by done. done.
    + unfold used. change (first (set_mem s m')) with (first s). by rewrite EC, decide_True.
    + apply around_none; try done. fold p. lia.
    + apply around_none; try done. fold p. lia.
    + intros q z x [[<- <-] | [_ [[<- <-] | [_ E]]%lookup_insert_Some]]%lookup_insert_Some Hx; [apply I3; lia.. | by apply (K' q z)].
Qed.

(** From a space with memory [s], the block [p] with the first [k] bytes of its chunk as
    they were got the size [nb], beside the blocks [A]. *)
Definition resized (s : mstate) (A : gmap Z Z) (p k nb : Z) (s' : mstate) : Prop :=
  exists cs', inv s' cs' /\ same_space s s' /\ used s' cs' = <[p := nb]> A /\ kept (<[p := k]> A) (mem s) (mem s').

Lemma cut_ok s cs1 mid cs2 a nb r : loose s cs1 mid cs2 a -> let p := first s + total cs1 in let n := total mid in
  sized (nb, Used) -> sized (r, Used) -> nb + r = n -> exists s', cut s p nb r = Ret s' /\ resized s (around Used (first s) cs1 n cs2) p nb nb s'.
Proof.
  intros O p n Sn Sr En. destruct (loose_bounds _ _ _ _ _ O) as (_ & _ & P1 & P2 & P3 & _). fold p n in P1, P2, P3.
  destruct (loose_two s cs1 mid cs2 a nb r _ O Sn Sr En (or_introl eq_refl)) as (I & EU & Np & Nr & K). fold p n in I, EU, Np, Nr, K.
  unfold cut. destruct Sn as [N1 N2], Sr as [R1 R2]. cbn [fst] in *. rewrite plus_offset by lia.
  destruct (dispose_chunk_ok _ _ (p + nb) r I) as (s' & D & cs' & I' & SS & EU' & K'); [rewrite EU, lookup_insert_ne by lia; apply lookup_insert_eq |].
  exists s'. split; [done |]. rewrite EU, delete_insert_ne, delete_insert_id in EU' by (done || lia). rewrite EU, delete_insert_ne, delete_insert_id in K' by (done || lia).
  exists cs'. split_and!; try done; try apply SS. eapply kept_trans; [eapply kept_weaken; [| exact K] | exact K']. apply insert_mono. by apply insert_subseteq.
Qed.

Lemma kept_shrink A p k k' m m' : kept (<[p := k]> A) m m' -> k' <= k -> A !! p = None -> kept (<[p := k']> A) m m'.
Proof.
  intros K Hk Np q y x [[<- <-] | [Nq E]]%lookup_insert_Some Hx; [apply (K p k); [apply lookup_insert_eq | lia] |].
  apply (K q y); [by rewrite lookup_insert_ne | done].
Qed.

Lemma resized_shrink s A p k k' nb s' : resized s A p k nb s' -> k' <= k -> A !! p = None -> resized s A p k' nb s'.
Proof. intros (cs' & I & SS & EU & K) Hk Np. exists cs'. split_and!; try done; try apply SS. by eapply kept_shrink. Qed.

Lemma resized_trans s s1 A p k nb s' : same_space s s1 -> kept (<[p := k]> A) (mem s) (mem s1) -> resized s1 A p k nb s' -> resized s A p k nb s'.
Proof. intros SS K (cs' & I & SS' & EU & K'). exists cs'. split_and!; try done; [by eapply same_space_trans.. | by eapply kept_trans]. Qed.

(** ** try_realloc_chunk *)

(** The chunk behind is the top. *)
Lemma extend_top s cs1 z a nb : loose s cs1 [(z, Used)] [] a -> let p := first s + total cs1 in
  sized (nb, Used) -> z < nb < z + topsize s ->
  let nt := z + topsize s - nb in let m' := set_head (set_inuse (mem s) p nb) (p + nb) (tag nt true false) in
  resized s (around Used (first s) cs1 z []) p z nb (set_mem (set_top s (p + nb) nt) m').
Proof.
  intros O p [N1 N2] Hn nt m'. destruct (loose_bounds _ _ _ _ _ O) as (S1 & _ & P1 & P2 & P3 & P4 & _ & _). cbn [total app fst] in *. rewrite Z.add_0_r in *. fold p in P1, P2.
  destruct O as (L & _ & G1 & Ha & B & V). cbn [total app] in *. rewrite Z.add_0_r in *. destruct L as (Ba & S & T & _ & Ht).
  pose proof Ba as (D & H1 & H2 & H3 & H4 & H5 & H6 & H7 & H8). change TOP_FOOT_SIZE with 112 in H6. rewrite total_app in T. cbn [total] in T. fold p in Ha.
  destruct (total_sized _ S1) as [T1 _]. assert (forall k, around k (first s) cs1 z [] = cmap k (first s) cs1) as EA by (intros k; unfold around; cbn; by rewrite map_union_empty). rewrite !EA in *.
  assert (32 | nt) as Dt by (apply Z.divide_sub_r; [by apply Z.divide_add_r | done]). pose proof (tag_range nt true false ltac:(lia)) as Rt.
  destruct (set_inuse_ok (mem s) p nb a) as (I1 & I2 & _ & _); try (done || lia).
  assert (forall x, x < p + 8 \/ p + 16 <= x < p + nb + 8 -> m' x = mem s x) as E by (intros x Hx; unfold m', set_head; rewrite st_out by lia; apply I2; lia).
  set (s' := set_mem (set_top s (p + nb) nt) m'). assert (first s' = first s) as Ef by done.
  assert (forall k, cmap k (first s) (cs1 ++ [(nb, Used)]) = if decide (Used = k) then <[p := nb]> (cmap k (first s) cs1) else cmap k (first s) cs1) as EC.
  { intros k. rewrite cmap_app. cbn [cmap]. fold p. case_decide; [| by rewrite map_union_empty]. rewrite insert_empty. symmetry. apply insert_union_singleton_r, cmap_out; [done |]. fold p. lia. }
  exists (cs1 ++ [(nb, Used)]). split_and!; try done.
  - unfold inv, layout, base. rewrite Ef, !EC, !decide_False by done. split_and!; try done.
    + change (p + nb + nt + TOP_FOOT_SIZE = seg_base s + seg_size s). change TOP_FOOT_SIZE with 112. lia.
    + change (0 <= nt). lia.
    + apply Forall_app. split; [done |]. by apply Forall_singleton.
    + change (p + nb = first s + total (cs1 ++ [(nb, Used)])). rewrite total_app. cbn. lia.
    + apply seg_join. exists a. split; [eapply seg_ext; [done | | exact G1]; intros x Hx _; apply E; fold p in Hx; lia |].
      fold p. cbn [seg]. split_and!; try done. change (mem s') with m'. transitivity (head (set_inuse (mem s) p nb) p); [| exact I1]. unfold m', set_head, head. by mem_read.
    + change (head m' (p + nb) = tag nt true false). unfold m'. mem_fields. by mem_read.
    + eapply bins_frame; [exact B | done.. | |].
      * intros x [Hx | (q & y & Eq & Hx)]; apply E; [unfold p, first; lia |]. apply cmap_range in Eq; [fold p in Eq; lia | done].
      * intros q y x Eq Hx. apply E. apply cmap_range in Eq; [fold p in Eq; lia | done].
  - unfold used. by rewrite Ef, EC, decide_True.
  - intros q y x [[<- <-] | [_ Eq]]%lookup_insert_Some Hx; apply E; [lia |]. apply cmap_range in Eq; [fold p in Eq; lia | done].
Qed.

(** The chunk behind is the victim, which is taken whole or in part. *)
Lemma loose_victim s cs1 z y cs3 a : loose s cs1 [(z, Used)] ((y, Victim) :: cs3) a -> let p := first s + total cs1 in
  dv s = p + z /\ dvsize s = y /\ loose (set_dv s 0 0) cs1 [(z, Used); (y, Victim)] cs3 a /\ around Victim (first s) cs1 (z + y) cs3 = ∅ /\
  around Used (first s) cs1 z ((y, Victim) :: cs3) = around Used (first s) cs1 (z + y) cs3.
Proof.
  intros O p. destruct (loose_bounds _ _ _ _ _ O) as (S1 & S2 & P1 & P2 & P3 & P4 & _ & _). apply Forall_cons in S2 as [[Y1 Y2] S3]. cbn [total app fst] in *. rewrite Z.add_0_r in *.
  destruct O as (L & _ & G1 & Ha & B & V). cbn [total app] in *. rewrite Z.add_0_r in *. fold p in Ha, P1, P2. rewrite around_after, decide_False in B by (done || lia).
  rewrite around_after, decide_True in V by (done || lia). fold p in V.
  assert (around Victim (first s) cs1 (z + y) cs3 !! (p + z) = None) as Nv by (apply around_none; (done || (fold p; lia))).
  destruct V as [(_ & _ & V) | [Vd V]]; [by apply insert_non_empty in V |].
  assert (dv s = p + z /\ dvsize s = y) as [Ed Es].
  { assert (({[dv s := dvsize s]} : gmap Z Z) !! (p + z) = Some y) as E by (rewrite <- V; apply lookup_insert_eq). by apply lookup_singleton_Some in E. }
  assert (around Victim (first s) cs1 (z + y) cs3 = ∅) as E0 by (rewrite <- (delete_insert_id _ (p + z) y Nv), V, Ed; apply delete_singleton_eq).
  rewrite around_after, decide_False by (done || lia). split_and!; try done. unfold loose. cbn [total app]. rewrite Z.add_0_r. split_and!; try done.
  - lia.
  - eapply bins_frame; [exact B | done..].
  - by left.
Qed.

Lemma extend_mem m p nb d y a : 0 <= p -> sized (nb, Used) -> sized (d, Victim) -> p + nb + d < 2 ^ 62 -> Z.land (head m p) PINUSE_BIT = Z.b2z a ->
  (32 | y) -> 0 <= y < 2 ^ 62 -> head m (p + nb + d) = tag y false true ->
  let m' := clear_pinuse (set_size_and_pinuse_of_free_chunk (set_inuse m p nb) (p + nb) d) (p + nb + d) in
  head m' p = tag nb a true /\ head m' (p + nb) = tag d true false /\ prev_foot m' (p + nb + d) = d /\ head m' (p + nb + d) = tag y false true /\
  (forall x, x < p + 8 \/ p + 16 <= x < p + nb + 8 \/ p + nb + d + 16 <= x -> m' x = m x).
Proof.
  intros Hp [N1 N2] [D1 D2] Hb Ha Y1 Y2 Hy m'. cbn [fst] in *. destruct (set_inuse_ok m p nb a) as (I1 & I2 & _ & _); try (done || lia). unfold m'. set (m1 := set_inuse m p nb) in *.
  pose proof (tag_range d true false ltac:(lia)) as Rd. pose proof (tag_range y false true ltac:(lia)) as Ry.
  unfold clear_pinuse, set_size_and_pinuse_of_free_chunk, set_foot. rewrite plus_offset, tag_free by (done || lia).
  assert (head (st (set_head m1 (p + nb) (tag d true false)) (p + nb + d) d) (p + nb + d) = tag y false true) as ->.
  { rewrite <- Hy. unfold head, set_head. mem_read. apply ld_ext. intros x Hx. apply I2. lia. }
  rewrite tag_clear by done. unfold head, prev_foot, set_head in *. split_and!; try (mem_read; done). intros x Hx. mem_out. apply I2. lia.
Qed.

Lemma extend_victim s cs1 z y cs3 a nb : loose s cs1 [(z, Used)] ((y, Victim) :: cs3) a -> let p := first s + total cs1 in
  sized (nb, Used) -> z < nb -> nb < 2 ^ 64 ->
  exists newp s', extend_dv s p nb z = (newp, s') /\
    ((newp = 0 /\ s' = s) \/ (newp = p /\ resized s (around Used (first s) cs1 z ((y, Victim) :: cs3)) p z nb s')).
Proof.
  intros O p [N1 N2] Hz Hnb. destruct (loose_victim _ _ _ _ _ _ O) as (_ & Es & O' & E0 & EU). rewrite EU. destruct (loose_bounds _ _ _ _ _ O') as (S1 & S2 & P1 & P2 & P3 & P4 & _ & _).
  cbn [total app fst] in *. rewrite Z.add_0_r in *. change (first (set_dv s 0 0)) with (first s) in *. fold p in P1, P2.
  assert (32 <= z /\ 32 <= y) as [Z2 Y2]. { destruct O as ((_ & (_ & [[_ ?] [[_ ?] _]%Forall_cons]%Forall_cons)%Forall_app & _) & _). done. }
  unfold extend_dv. rewrite Es. assert (u64 (z + y) = z + y) as -> by (unfold u64; apply wrap_small; unfold in_range; lia).
  destruct (Z.geb_spec (z + y) nb) as [G | G]; [| by eexists _, _; split; [done | by left]].
  assert (u64 (z + y - nb) = z + y - nb) as -> by (unfold u64; apply wrap_small; unfold in_range; lia). change MIN_CHUNK_SIZE with 32.
  assert (around Used (first s) cs1 (z + y) cs3 !! p = None) as Np by (apply around_none; (done || (fold p; lia))).
  destruct (Z.geb_spec (z + y - nb) 32) as [Gd | Gd]; (eexists _, _; split; [reflexivity | right; split; [done |]]).
  - rewrite !plus_offset by lia. set (d := z + y - nb) in *. replace (p + nb + d) with (p + (z + y)) by lia.
    assert (32 | d) as Dd by (by apply Z.divide_sub_r). pose proof (tag_range d true false ltac:(lia)) as Rd.
    destruct O' as (L & _ & G1 & Ha & B & V). cbn [total app] in *. rewrite Z.add_0_r in *. change (first (set_dv s 0 0)) with (first s) in *. change (mem (set_dv s 0 0)) with (mem s) in *. fold p in Ha.
    pose proof L as (Ba & (_ & S')%Forall_app & _ & (c & _ & Gc)%seg_join & _). cbn [seg] in Gc. destruct Gc as (_ & _ & _ & _ & Gc). fold p in Gc.
    destruct (seg_after_free _ _ _ Gc) as (y' & cs4 & ->). destruct Gc as (Hh & _). apply Forall_cons in S2 as [[Y1' Y2'] S4]. cbn [fst] in *. destruct (total_sized _ S4).
    destruct (first_in _ _ L) as (_ & F2 & _). rewrite total_app in F2. cbn [total] in F2. change (first (set_dv s 0 0)) with (first s) in F2. fold p in F2.
    destruct (extend_mem (mem s) p nb d y' a) as (M1 & M2 & M3 & M4 & M5); try (done || lia). { replace (p + nb + d) with (p + z + y) by lia. exact Hh. }
    replace (p + nb + d) with (p + (z + y)) in * by lia. set (m' := clear_pinuse _ _) in *.
    destruct (swap_layout (set_dv s 0 0) cs1 [(z, Used); (y, Victim)] ((y', Used) :: cs4) [(nb, Used); (d, Victim)] a false m' L) as (L' & B' & K'); cbn [total]; rewrite ?Z.add_0_r;
      change (first (set_dv s 0 0)) with (first s); fold p; try done; try lia.
    + by repeat constructor.
    + cbn [seg]. split_and!; try done. intros _. split; [done |]. by replace (p + nb + d) with (p + (z + y)) by lia.
    + intros x Hx. apply M5. lia.
    + cbn [total] in *. rewrite Z.add_0_r in *. change (first (set_dv s 0 0)) with (first s) in *. change (mem (set_dv s 0 0)) with (mem s) in *.
      set (cs := cs1 ++ [(nb, Used); (d, Victim)] ++ (y', Used) :: cs4) in *. set (A := fun k => around k (first s) cs1 (z + y) ((y', Used) :: cs4)) in *.
      assert (cmap Used (first s) cs = <[p := nb]> (A Used) /\ cmap Binned (first s) cs = A Binned /\ cmap Victim (first s) cs = <[p + nb := d]> (A Victim)) as (EC1 & EC2 & EC3).
      { unfold cs, A. cbn [app]. rewrite !cmap_hole, !(around_after _ _ cs1 nb d) by (done || lia). fold p. replace (nb + d) with (z + y) by lia. by repeat case_decide. }
      exists cs. split_and!; try done.
      * unfold inv. change (first (set_mem (set_dv s (p + nb) d) m')) with (first s). rewrite EC2, EC3. split_and!; [exact L' | eapply bins_frame; [exact B' | done..] |].
        right. cbn. unfold A. rewrite E0. split; [lia | done].
      * intros q w x [[<- <-] | [_ Eq]]%lookup_insert_Some Hx; [apply M5; lia | by apply (K' q w)].
  - assert (z + y = nb) as En. { destruct N1 as [i Ei], P4 as [j Ej]. lia. }
    destruct (loose_whole _ _ _ _ _ O') as (I & EW & K & Hx). cbn [total] in *. rewrite Z.add_0_r in *. change (first (set_dv s 0 0)) with (first s) in *. change (mem (set_dv s 0 0)) with (mem s) in *. fold p in I, EW, K, Hx.
    rewrite En in *. eexists. split_and!; [exact I | done.. | exact EW |]. intros q w x [[<- <-] | [_ Eq]]%lookup_insert_Some Hq; [apply Hx; lia | by apply (K q w)].
Qed.

(** The chunk behind is in a bin; it is unlinked. *)
Lemma loose_binned s cs1 z y cs3 a : loose s cs1 [(z, Used)] ((y, Binned) :: cs3) a -> let p := first s + total cs1 in
  around Used (first s) cs1 z ((y, Binned) :: cs3) = around Used (first s) cs1 (z + y) cs3 /\
  exists s1, unlink_chunk s (p + z) y = Ret s1 /\ loose s1 cs1 [(z, Used); (y, Binned)] cs3 a /\ same_space s s1 /\
    kept (<[p := z]> (around Used (first s) cs1 (z + y) cs3)) (mem s) (mem s1).
Proof.
  intros O p. destruct (loose_bounds _ _ _ _ _ O) as (S1 & S2 & P1 & P2 & P3 & P4 & _ & _). apply Forall_cons in S2 as [[Y1 Y2] S3]. cbn [total app fst] in *. rewrite Z.add_0_r in *.
  destruct O as (L & _ & G1 & Ha & B & V). cbn [total app] in *. rewrite Z.add_0_r in *. fold p in Ha, P1, P2.
  assert (forall k, around k (first s) cs1 z ((y, Binned) :: cs3) = if decide (Binned = k) then <[p + z := y]> (around k (first s) cs1 (z + y) cs3) else around k (first s) cs1 (z + y) cs3) as EA by (intros k; apply around_after; (done || lia)).
  assert (around Binned (first s) cs1 (z + y) cs3 !! (p + z) = None) as Nq by (apply around_none; (done || (fold p; lia))).
  pose proof (around_sub Binned (first s) cs1 [(z, Used)] ((y, Binned) :: cs3) (proj1 (proj2 L))) as Sub. cbn [total app] in Sub. rewrite Z.add_0_r in Sub.
  rewrite EA, decide_True in B, Sub by done. rewrite EA, decide_False in V by done. rewrite EA, decide_False by done. split; [done |].
  destruct (unlink_chunk_ok s _ (p + z) y B) as (s1 & U & B1 & M); [apply lookup_insert_eq |]. exists s1. split; [done |].
  pose proof (layout_moved _ _ _ _ L Sub M) as L1. pose proof (moved_space _ _ _ M) as SS. pose proof (same_first _ _ SS) as Ef.
  assert (kept (<[p := z]> (around Used (first s) cs1 (z + y) cs3)) (mem s) (mem s1)) as K.
  { eapply kept_links; [exact L | exact Sub | | exact M]. rewrite cmap_hole, decide_True, EA, decide_False by done. done. }
  split; [| by split]. pose proof L1 as (_ & _ & _ & (c & Gc & Gd)%seg_join & _). pose proof L as (_ & _ & _ & (c' & Gc' & Gd')%seg_join & _).
  assert (c = a) as -> by (rewrite Ef in Gc; exact (seg_same _ _ _ _ _ _ _ _ Gc G1)). cbn [seg] in Gd. destruct Gd as (Gd & _).
  pose proof L as (_ & (_ & [[Z1 _] _]%Forall_cons)%Forall_app & _). cbn [fst] in Z1.
  unfold loose. cbn [total app]. rewrite Z.add_0_r. split_and!; try done; [lia | by rewrite Gd, tag_pin | |].
  - rewrite Ef. by rewrite delete_insert_id in B1.
  - rewrite Ef. destruct M as [(sm & tm & m' & ->) _]. exact V.
Qed.

(** Enough room with the chunk behind. *)
Lemma extend_binned s cs1 z y cs3 a nb : loose s cs1 [(z, Used)] ((y, Binned) :: cs3) a -> let p := first s + total cs1 in
  sized (nb, Used) -> z < nb <= z + y ->
  exists s1 s', unlink_chunk s (p + z) y = Ret s1 /\ resized s (around Used (first s) cs1 z ((y, Binned) :: cs3)) p z nb s' /\
    (z + y - nb < 32 -> s' = set_mem s1 (set_inuse (mem s1) p (z + y))) /\ (32 <= z + y - nb -> cut s1 p nb (z + y - nb) = Ret s').
Proof.
  intros O p Sn Hn. destruct (loose_binned _ _ _ _ _ _ O) as (-> & s1 & U & O1 & SS & K). exists s1. fold p in U, K. pose proof (same_first _ _ SS) as Ef.
  destruct (loose_bounds _ _ _ _ _ O1) as (S1 & S2 & P1 & P2 & P3 & P4 & _ & _). cbn [total app] in *. rewrite Z.add_0_r, Ef in *. fold p in P1, P2. pose proof Sn as [N1 N2]. cbn [fst] in *.
  assert (around Used (first s) cs1 (z + y) cs3 !! p = None) as Np by (apply around_none; (done || (fold p; lia))).
  destruct (decide (z + y - nb < 32)) as [G | G].
  - assert (z + y = nb) as En by (destruct N1 as [i Ei], P4 as [j Ej]; lia). destruct (loose_whole _ _ _ _ _ O1) as (I & EW & K1 & Hx). cbn [total] in *. rewrite Z.add_0_r, Ef in *. fold p in I, EW, K1, Hx.
    eexists. split; [done |]. split; [| split; [intros _; reflexivity | lia]]. rewrite En in *. eapply resized_trans; [exact SS | exact K |]. eexists. split_and!; [exact I | done.. | exact EW |].
    intros q w x [[<- <-] | [_ Eq]]%lookup_insert_Some Hq; [apply Hx; lia | by apply (K1 q w)].
  - destruct (cut_ok _ _ _ _ _ nb (z + y - nb) O1) as (s' & C & R); [done | split; cbn; [by apply Z.divide_sub_r | lia] | cbn; lia |]. cbn [total] in *. rewrite Z.add_0_r, Ef in *. fold p in C, R.
    exists s'. split; [done |]. split; [| split; [lia | done]]. eapply resized_trans; [exact SS | exact K |]. eapply resized_shrink; [exact R | lia | done].
Qed.

(** The checks of try_realloc_chunk succeed on a chunk in use. *)
Lemma realloc_checks s cs1 z cs2 a : loose s cs1 [(z, Used)] cs2 a -> let p := first s + total cs1 in head (mem s) p = tag z a true ->
  chunksize (mem s) p = z /\ chunk_plus_offset p z = p + z /\ is_mmapped (mem s) p = false /\
  ok_address s p && is_inuse (mem s) p && ok_next p (p + z) && pinuse (mem s) (p + z) = true.
Proof.
  intros O p Hh. destruct (loose_bounds _ _ _ _ _ O) as (S1 & S2 & P1 & P2 & P3 & P4 & _ & Hnx). cbn [total app] in *. rewrite Z.add_0_r in *. fold p in P1, P2, Hnx.
  destruct O as (L & _). cbn [app] in L. pose proof L as (Ba & _ & T & (c & _ & Gc)%seg_join & Ht). cbn [seg] in Gc. destruct Gc as (_ & _ & Gc). fold p in Gc. rewrite total_app in T. cbn [total] in T.
  destruct (read_tag _ _ _ _ _ P4 Hh) as (_ & _ & Rz & [Ri Rm]%(fun f => f eq_refl)). rewrite plus_offset by lia. split_and!; try done.
  assert (ok_address s p = true) as -> by (apply ok_address_true; destruct Ba as (_ & B1 & _ & _ & _ & -> & _); unfold p, first, header_size in *; destruct (total_sized _ S1); lia).
  rewrite Ri. assert (ok_next p (p + z) = true) as -> by (unfold ok_next; lia). cbn [andb]. destruct cs2 as [| [y k] cs3]; cbn [seg total] in *.
  - replace (p + z) with (top s) by (unfold p; lia). apply (read_tag _ _ _ _ _ (proj1 (proj2 (proj2 (proj2 (proj2 (proj2 (proj2 (proj2 Ba)))))))) Ht).
  - apply Forall_cons in S2 as [[Y1 _] _]. apply (read_tag _ _ _ _ _ Y1 (proj1 Gc)).
Qed.

(** What try_realloc_chunk finds when the chunk is too small, by what is behind it. *)
Lemma grow_ok s cs1 z cs2 a nb : loose s cs1 [(z, Used)] cs2 a -> let p := first s + total cs1 in
  head (mem s) p = tag z a true -> sized (nb, Used) -> z < nb -> nb < 2 ^ 64 ->
  exists newp s', try_realloc_chunk s p nb = Ret (newp, s') /\
    ((newp = 0 /\ s' = s) \/ (newp = p /\ resized s (around Used (first s) cs1 z cs2) p z nb s')).
Proof.
  intros O p Hh Sn Hz Hb. pose proof Sn as [N1 N2]. destruct (loose_bounds _ _ _ _ _ O) as (S1 & S2 & P1 & P2 & P3 & P4 & _ & _). cbn [total app fst] in *. rewrite Z.add_0_r in *. fold p in P1, P2.
  pose proof O as (L & _ & G1 & Ha & B & V). cbn [total app] in *. rewrite Z.add_0_r in *. pose proof L as (Ba & _ & T & (c & _ & Gc)%seg_join & Ht). cbn [seg] in Gc. destruct Gc as (_ & _ & Gc). fold p in Gc.
  change (bool_decide (Used = Used)) with true in Gc. rewrite total_app in T. cbn [total] in T.
  destruct (realloc_checks _ _ _ _ _ O Hh) as (Rz & Ro & Rm & Rc). fold p in Rz, Ro, Rm, Rc. unfold try_realloc_chunk. rewrite Rz, Ro, Rm, Rc. destruct (Z.geb_spec z nb); [lia |].
  pose proof Ba as (_ & B1 & B2 & B3 & B4 & B5 & B6 & B7 & B8). change TOP_FOOT_SIZE with 112 in B6.
  destruct cs2 as [| [y k] cs3]; cbn [seg total] in *.
  - assert (p + z = top s) as Et by (unfold p; lia). rewrite Et, Z.eqb_refl.
    assert (u64 (z + topsize s) = z + topsize s) as -> by (unfold u64; apply wrap_small; unfold in_range; lia).
    destruct (Z.gtb_spec (z + topsize s) nb) as [G | G]; [| by eexists _, _; split; [done | by left]].
    assert (u64 (z + topsize s - nb) = z + topsize s - nb) as -> by (unfold u64; apply wrap_small; unfold in_range; lia). rewrite plus_offset by lia.
    rewrite tag_free by (apply Z.divide_sub_r; [by apply Z.divide_add_r | done]). eexists _, _. split; [done | right]. split; [done |]. by apply (extend_top _ _ _ a).
  - apply Forall_cons in S2 as [[Y1 Y2] S3]. cbn [fst] in *. destruct (total_sized _ S3), (total_sized _ S1). destruct Gc as (Gc & _). destruct (read_tag _ _ _ _ _ Y1 Gc) as (_ & -> & -> & _).
    destruct (Z.eqb_spec (p + z) (top s)); [unfold p in *; lia |]. rewrite (victim_at s _ (p + z) V), around_after by (done || lia). fold p.
    assert (forall k', around k' (first s) cs1 (z + y) cs3 !! (p + z) = None) as Nk by (intros k'; apply around_none; (done || (fold p; lia))).
    destruct k; cbn [decide decide_rel]; rewrite ?decide_False, ?Nk by done.
    + rewrite bool_decide_eq_false_2 by (by intros [? ?]). eexists _, _. split; [done | by left].
    + rewrite bool_decide_eq_false_2 by (by intros [? ?]). cbn [negb bool_decide]. 
      destruct (first_in _ _ L) as (_ & _ & F3 & _). rewrite total_app in F3. cbn [total] in F3.
      assert (u64 (z + y) = z + y) as -> by (unfold u64; apply wrap_small; unfold in_range; lia).
      destruct (Z.geb_spec (z + y) nb) as [G | G]; [| by eexists _, _; split; [done | by left]].
      assert (u64 (z + y - nb) = z + y - nb) as -> by (unfold u64; apply wrap_small; unfold in_range; lia).
      destruct (extend_binned _ _ _ _ _ _ nb O Sn ltac:(lia)) as (s1 & s' & U & R & C1 & C2). fold p in U, R, C1, C2. rewrite U. cbn [mbind outcome_bind].
      change MIN_CHUNK_SIZE with 32. exists p, s'. split; [| by right]. destruct (Z.ltb_spec (z + y - nb) 32); [by rewrite C1 | by rewrite C2].
    + rewrite decide_True by done. rewrite bool_decide_eq_true_2 by (rewrite lookup_insert_eq; eauto).
      destruct (extend_victim _ _ _ _ _ _ nb O Sn Hz Hb) as (newp & s' & E & R). fold p in E, R. rewrite E. by exists newp, s'.
Qed.

Lemma try_realloc_ok s cs p z nb : inv s cs -> used s cs !! p = Some z -> sized (nb, Used) -> nb < 2 ^ 64 ->
  exists newp s', try_realloc_chunk s p nb = Ret (newp, s') /\
    ((newp = 0 /\ s' = s /\ z < nb) \/ (newp = p /\ resized s (delete p (used s cs)) p (Z.min z nb) nb s')).
Proof.
  intros I E Sn Hb. destruct (used_loose s cs p z I E) as (cs1 & cs2 & a & Ecs & Ep & O & EU & Np). rewrite EU, delete_insert_id by done.
  pose proof I as (L & _ & _). destruct (seg_chunk _ _ _ _ _ _ _ _ (proj1 (proj2 (proj2 (proj2 L)))) E) as (b & Hh & _). pose proof (cmap_range _ _ _ _ _ (proj1 (proj2 L)) E) as (P1 & P2 & P3 & P4).
  assert (b = a) as ->. { pose proof O as (_ & _ & _ & Ha & _). rewrite <- Ep, Hh, tag_pin in Ha by done. by destruct a, b. }
  destruct (decide (z < nb)) as [G | G].
  - rewrite Z.min_l by lia. destruct (grow_ok _ _ _ _ _ nb O) as (newp & s' & T & R); try done; [by rewrite <- Ep |]. rewrite <- Ep in T, R. exists newp, s'. split; [done |].
    destruct R as [[-> ->] | R]; [by left | by right].
  - rewrite Z.min_r by lia. rewrite Ep in Hh. destruct (realloc_checks _ _ _ _ _ O Hh) as (Rz & Ro & Rm & Rc). rewrite <- Ep in Rz, Ro, Rm, Rc. unfold try_realloc_chunk. rewrite Rz, Ro, Rm, Rc.
    destruct (Z.geb_spec z nb); [| lia]. change MIN_CHUNK_SIZE with 32. destruct Sn as [N1 N2]. cbn [fst] in *. destruct (Z.geb_spec (z - nb) 32) as [Gr | Gr].
    + destruct (cut_ok _ _ _ _ _ nb (z - nb) O) as (s' & C & R); [done | split; cbn; [by apply Z.divide_sub_r | lia] | cbn; lia |]. cbn [total] in R. rewrite Z.add_0_r in R. rewrite <- Ep in C, R. rewrite C. exists p, s'. split; [done | by right].
    + assert (z = nb) as -> by (destruct N1 as [i Ei], P4 as [j Ej]; lia). exists p, s. split; [done | right]. split; [done |]. exists cs. split_and!; try done.
Qed.

(** ** Writes of the client *)

(** The bytes of the blocks [U]. *)
Definition payload (U : gmap Z Z) (x : Z) : Prop := exists q z, U !! q = Some z /\ q + 16 <= x < q + z + 8.

Lemma seg_payload m m' p pin cs pout : Forall sized cs -> (forall x, p + 8 <= x -> ~ payload (cmap Used p cs) x -> m' x = m x) ->
  seg m p pin cs pout -> seg m' p pin cs pout.
Proof.
  intros S. revert p pin. induction S as [| [z k] cs [H1 H2] S IH]; intros p pin E; [done |]. cbn [seg fst] in *. intros (G1 & G2 & G3).
  assert (forall x, payload (cmap Used p ((z, k) :: cs)) x -> (k = Used /\ p + 16 <= x < p + z + 8) \/ payload (cmap Used (p + z) cs) x) as P.
  { intros x (q & y & Eq & Hx). cbn in Eq. case_decide; [| right; by exists q, y].
    apply lookup_insert_Some in Eq as [[-> ->] | [_ Eq]]; [by left | right; by exists q, y]. }
  assert (forall x, payload (cmap Used (p + z) cs) x -> p + z + 16 <= x) as P'.
  { intros x (q & y & Eq & Hx). apply cmap_range in Eq; [lia | done]. }
  split_and!.
  - rewrite <- G1. apply ld_ext. intros x Hx. apply E; [lia |]. intros [[_ D] | D%P']%P; lia.
  - intros N. destruct (G2 N) as [G4 G5]. split; [done |]. rewrite <- G5 at 2. apply ld_ext. intros x Hx. apply E; [lia |]. intros [[D _] | D%P']%P; [done | lia].
  - apply IH; [| done]. intros x Hx N. apply E; [lia |]. intros [[_ D] | D]%P; [lia | done].
Qed.

(** What a client writes into blocks in use does not touch the allocator. *)
Lemma writes_keep_inv s cs m' : inv s cs -> (forall x, ~ payload (used s cs) x -> m' x = mem s x) -> inv (set_mem s m') cs.
Proof.
  intros (L & B & V) E. pose proof L as (Ba & S & T & G & Ht). destruct (total_sized cs S) as [T0 _]. split_and!; [| | done].
  - unfold layout. split_and!; try done.
    + eapply seg_payload; [done | | exact G]. intros x _ N. by apply E.
    + change (head m' (top s) = tag (topsize s) true false). rewrite <- Ht. apply ld_ext. intros x Hx. apply E. intros (q & z & Eq & Hq). apply cmap_range in Eq; [lia | done].
  - assert (forall x, payload (used s cs) x -> first s + 16 <= x) as P by (intros x (q & z & Eq & Hq); apply cmap_range in Eq; [lia | done]).
    eapply bins_frame; [exact B | done.. | |].
    + intros x [Hx | (q & z & Eq & Hx)]; apply E; [intros D%P; unfold first in D; lia |]. intros (p & y & Ep & Hp).
      destruct (cmap_apart _ _ _ _ _ _ _ _ S Eq Ep) as [(_ & _ & ?) | ?]; [done | lia].
    + intros q z x Eq Hx. apply E. intros (p & y & Ep & Hp). destruct (cmap_apart _ _ _ _ _ _ _ _ S Eq Ep) as [(_ & _ & ?) | ?]; [done |].
      apply cmap_range in Eq; [lia | done].
Qed.

End Resize.
