(* ===== verification/DlRealloc.v ===== *)
(** * kernel/dlmalloc.cc: mspace_realloc and mspace_calloc are correct *)

From S2P Require Import Prelude DlHeap DlBins DlTrie DlFree DlLayout Dlmalloc DlSearch DlAlloc DlRelease DlResize.

Module Realloc.
Import Chunk Bins Free Layout Mspace Alloc Release Resize.

(** ** Copies and fills *)

Lemma length_bytes_at m a n : 0 <= n -> Z.of_nat (length (bytes_at m a n)) = n.
Proof. intros Hn. unfold bytes_at. rewrite length_map, length_seq. lia. Qed.

Lemma bytes_at_lookup m a n i : (i < Z.to_nat n)%nat -> bytes_at m a n !! i = Some (m (a + Z.of_nat i)).
Proof. intros Hi. unfold bytes_at. rewrite list_lookup_fmap, lookup_seq_lt by done. done. Qed.

(** A block of a space, with its size. *)
Lemma used_block s cs p z : inv s cs -> used s cs !! p = Some z ->
  chunksize (mem s) p = z /\ is_mmapped (mem s) p = false /\ 976 <= p /\ p + z < 2 ^ 62 /\ 32 <= z < 2 ^ 40 /\ (32 | z) /\ (32 | p + 16).
Proof.
  intros (L & _ & _) E. pose proof L as (Ba & S & _ & G & _). pose proof (cmap_range _ _ _ _ _ S E) as (P1 & P2 & P3 & P4). destruct (first_in _ _ L) as (F1 & F2 & F3 & _).
  destruct (seg_chunk _ _ _ _ _ _ _ _ G E) as (b & Hh & _). destruct (read_tag _ _ _ _ _ P4 Hh) as (_ & _ & Hz & [_ Hm]%(fun f => f eq_refl)).
  destruct (cmap_split _ _ _ _ _ E) as (cs1 & cs2 & -> & ->). apply Forall_app in S as [S1 _]. destruct (total_sized _ S1) as [T1 T2].
  split_and!; try done; try lia. unfold first, header_size. replace (self s + 944 + total cs1 + 16) with (self s + 32 * 30 + total cs1) by lia.
  apply Z.divide_add_r; [apply Z.divide_add_r; [apply Ba | apply Z.divide_factor_l] | done].
Qed.

Lemma mem2chunk_eq p : 0 <= p < 2 ^ 63 -> mem2chunk (p + 16) = p.
Proof. intros Hp. unfold mem2chunk, u64. replace (p + 16 - 16) with p by lia. apply wrap_small. unfold in_range. lia. Qed.

(** Bytes written into one block: the invariant holds, the other blocks are unchanged. *)
Lemma fill_block s cs p z bs : inv s cs -> used s cs !! p = Some z -> zlen bs <= z - 8 ->
  let m' := store_bytes (mem s) (p + 16) bs in
  inv (set_mem s m') cs /\ kept (delete p (used s cs)) (mem s) m' /\ (forall i b, bs !! i = Some b -> m' (p + 16 + Z.of_nat i) = b).
Proof.
  intros I E Hl m'. unfold zlen in Hl. assert (forall x, x < p + 16 \/ p + z + 8 <= x -> m' x = mem s x) as Out by (intros x Hx; apply store_bytes_out; lia). split_and!.
  - apply writes_keep_inv; [done |]. intros x N. apply Out. destruct (decide (p + 16 <= x < p + z + 8)); [| lia]. exfalso. apply N. by exists p, z.
  - intros q y x [Nq Eq]%lookup_delete_Some Hx. apply Out. destruct (cmap_apart _ _ _ _ _ _ _ _ (proj1 (proj2 (proj1 I))) E Eq) as [(? & _) | ?]; [done | lia].
  - intros i b Hb. by apply store_bytes_in.
Qed.

(** ** mspace_realloc *)

(** The block at [p] with [z] bytes, to be resized, became one at [r - 16] of the size [nb], with
    the first bytes of it. *)
Definition moved_block (s : mstate) (A : gmap Z Z) (p z nb r : Z) (s' : mstate) : Prop :=
  exists cs', inv s' cs' /\ same_space s s' /\ A !! (r - 16) = None /\ used s' cs' = <[r - 16 := nb]> A /\ kept A (mem s) (mem s') /\
    forall i, 0 <= i < Z.min z nb - 8 -> mem s' (r + i) = mem s (p + 16 + i).

Lemma resized_moved s A p z nb s' : A !! p = None -> resized s A p (Z.min z nb) nb s' -> moved_block s A p z nb (p + 16) s'.
Proof.
  intros Np (cs' & I & SS & EU & K). exists cs'. replace (p + 16 - 16) with p by lia. split_and!; try done; try apply SS.
  - eapply kept_weaken; [| exact K]. by apply insert_subseteq.
  - intros i Hi. apply (K p (Z.min z nb)); [apply lookup_insert_eq | lia].
Qed.

Lemma realloc_move s cs p z bytes r s1 : inv s cs -> used s cs !! p = Some z -> z < request2size bytes -> 0 <= bytes < MAX_REQUEST ->
  allocated s (used s cs) (request2size bytes) r s1 ->
  let oc := u64 (chunksize (mem s1) p - overhead_for (mem s1) p) in let n := if oc <? bytes then oc else bytes in
  exists s', mspace_free (set_mem s1 (store_bytes (mem s1) r (bytes_at (mem s1) (p + 16) n))) (p + 16) = Ret s' /\
    moved_block s (delete p (used s cs)) p z (request2size bytes) r s'.
Proof.
  intros I E Hz Hb (cs1 & q & -> & I1 & SS1 & Nq & EU1 & K1) oc n. destruct (request_size bytes Hb) as ([Dn _] & Hnb & Hnb' & _). cbn [fst] in Dn. set (nb := request2size bytes) in *.
  assert (p <> q) as Npq by congruence. assert (used s1 cs1 !! p = Some z) as E1 by (by rewrite EU1, lookup_insert_ne).
  destruct (used_block s1 cs1 p z I1 E1) as (Hc & Hm & P1 & P2 & P3 & P4 & _). assert (oc = z - 8) as Eo.
  { unfold oc, overhead_for. rewrite Hc, Hm. change CHUNK_OVERHEAD with 8. unfold u64. apply wrap_small. unfold in_range. lia. }
  assert (n = z - 8) as -> by (unfold n; rewrite Eo; destruct (Z.ltb_spec (z - 8) bytes); [done |]; destruct P4 as [i Ei], Dn as [j Ej]; lia).
  assert (used s1 cs1 !! q = Some nb) as Eq by (rewrite EU1; apply lookup_insert_eq).
  destruct (fill_block s1 cs1 q nb (bytes_at (mem s1) (p + 16) (z - 8)) I1 Eq) as (I2 & K2 & D2); [unfold zlen; rewrite length_bytes_at; lia |]. set (m2 := store_bytes _ _ _) in *.
  destruct (mspace_free_ok (set_mem s1 m2) cs1 p z I2 E1) as (s' & F & cs' & I' & SS & EU & K). exists s'. split; [done |]. change (used (set_mem s1 m2) cs1) with (used s1 cs1) in *.
  assert (delete p (used s1 cs1) = <[q := nb]> (delete p (used s cs))) as Ed by (rewrite EU1, delete_insert_ne; done). rewrite Ed in EU, K. change (mem (set_mem s1 m2)) with m2 in K.
  assert (delete p (used s cs) !! q = None) as Nq' by (rewrite lookup_delete_ne; done).
  assert (same_space s s') as SS' by (apply (same_space_trans s s1); done). exists cs'. replace (q + 16 - 16) with q by lia. split_and!; try done; try apply SS'.
  - eapply kept_trans; [eapply kept_weaken; [apply delete_subseteq | exact K1] |].
    eapply kept_trans; [eapply kept_weaken; [| exact K2] | eapply kept_weaken; [| exact K]]; [| by apply insert_subseteq]. rewrite EU1, delete_insert_id by done. apply delete_subseteq.
  - intros i Hi. rewrite Z.min_l in Hi by lia. rewrite (K q nb) by (apply lookup_insert_eq || lia). replace (q + 16 + i) with (q + 16 + Z.of_nat (Z.to_nat i)) by lia.
    rewrite (D2 _ (mem s1 (p + 16 + i))); [| rewrite bytes_at_lookup by lia; do 3 f_equal; lia]. apply (K1 p z); [done | lia].
Qed.

Lemma mspace_realloc_ok s cs p z bytes : inv s cs -> used s cs !! p = Some z -> 0 <= bytes < 2 ^ 64 ->
  exists r s', mspace_realloc s (p + 16) bytes = Ret (r, s') /\
    ((r = 0 /\ s' = s /\ (MAX_REQUEST <= bytes \/ no_room s cs (request2size bytes))) \/
     (bytes < MAX_REQUEST /\ moved_block s (delete p (used s cs)) p z (request2size bytes) r s')).
Proof.
  intros I E Hb. destruct (used_block s cs p z I E) as (_ & _ & P1 & P2 & P3 & _). unfold mspace_realloc. destruct (Z.eqb_spec (p + 16) 0); [lia |].
  destruct (Z.geb_spec bytes MAX_REQUEST) as [G | G]; [exists 0, s; split; [done |]; left; auto |]. rewrite mem2chunk_eq by lia.
  destruct (request_size bytes ltac:(lia)) as (Sn & _ & _ & Hnb). destruct (try_realloc_ok s cs p z _ I E Sn Hnb) as (newp & s1 & -> & [(-> & -> & Hz) | (-> & R)]); cbn [mbind outcome_bind].
  - cbn [Z.eqb negb]. destruct (malloc_any s cs bytes I Hb) as (r & s1 & -> & [(-> & -> & N) | [_ A]]); cbn [mbind outcome_bind]; [exists 0, s; split; [done |]; by left |].
    pose proof (allocated_some _ _ _ _ _ A) as Nr. destruct (Z.eqb_spec r 0); [done |]. cbn [negb].
    destruct (realloc_move s cs p z bytes r s1 I E Hz ltac:(lia) A) as (s' & F & M). rewrite F. exists r, s'. split; [done | right; split; [lia | done]].
  - destruct (Z.eqb_spec p 0); [lia |]. cbn [negb]. rewrite chunk2mem_eq by lia. exists (p + 16), s1. split; [done | right]. split; [lia |]. apply resized_moved; [apply lookup_delete_eq | done].
Qed.

(** ** mspace_calloc *)

Lemma high_bits x : in_range 64 x -> Z.land x (u64 (Z.lnot 0xffff)) = 0 -> x < 2 ^ 16.
Proof.
  intros Hx E. assert (Z.shiftr x 16 = 0) as E0; [| rewrite Z.shiftr_div_pow2 in E0 by lia; pose proof (Z.div_mod x (2 ^ 16)); pose proof (Z.mod_pos_bound x (2 ^ 16)); lia].
  apply Z.bits_inj'. intros j Hj. rewrite Z.testbit_0_l, Z.shiftr_spec by lia. destruct (decide (j + 16 < 64)); [| apply (testbit_high 64); (done || lia)].
  pose proof (f_equal (fun z => Z.testbit z (j + 16)) E) as T. cbn beta in T. rewrite Z.land_spec, Z.testbit_0_l in T. unfold u64 in T. rewrite testbit_wrap, bool_decide_eq_true_2, Z.lnot_spec in T by lia.
  rewrite (testbit_high 16 0xffff) in T by (done || lia). by rewrite andb_true_r in T.
Qed.

(** The overflow check: the product where it is a size, and otherwise a request that fails. *)
Lemma calloc_request n e : in_range 64 n -> in_range 64 e -> 0 < n ->
  let req := u64 (n * e) in
  (if negb (Z.land (Z.lor n e) (u64 (Z.lnot 0xffff)) =? 0) && negb (req / n =? e) then MAX_SIZE_T else req) = if decide (n * e < 2 ^ 64) then n * e else MAX_SIZE_T.
Proof.
  intros Hn He Hp req. unfold in_range in *. destruct (decide (n * e < 2 ^ 64)) as [G | G].
  - assert (req = n * e) as -> by (unfold req, u64; apply wrap_small; unfold in_range; nia). rewrite (Z.mul_comm n e), Z.div_mul, Z.eqb_refl by lia. by rewrite andb_false_r.
  - assert ((req / n =? e) = false) as ->.
    { apply Z.eqb_neq. intros E. pose proof (wrap_range 64 (n * e) ltac:(lia)) as R. fold (u64 (n * e)) in R. fold req in R. unfold in_range in R. pose proof (Z.mul_div_le req n Hp). rewrite E in *. lia. }
    assert ((Z.land (Z.lor n e) (u64 (Z.lnot 65535)) =? 0) = false) as ->; [| done]. apply Z.eqb_neq. intros E. apply G.
    rewrite Z.land_lor_distr_l in E. apply Z.lor_eq_0_iff in E as [E1 E2]. pose proof (high_bits n Hn E1). pose proof (high_bits e He E2). nia.
Qed.

Lemma mspace_calloc_ok s cs n e : inv s cs -> in_range 64 n -> in_range 64 e ->
  exists r s', mspace_calloc s n e = Ret (r, s') /\
    ((r = 0 /\ s' = s /\ (MAX_REQUEST <= n * e \/ no_room s cs (request2size (n * e)))) \/
     (n * e < MAX_REQUEST /\ allocated s (used s cs) (request2size (n * e)) r s' /\ forall i, 0 <= i < n * e -> mem s' (r + i) = 0)).
Proof.
  intros I Hn He. unfold mspace_calloc. set (req := if negb (n =? 0) then _ else 0). assert (0 <= n * e) by (unfold in_range in *; nia).
  assert (req = if decide (n * e < 2 ^ 64) then n * e else MAX_SIZE_T) as Er.
  { unfold req. destruct (Z.eqb_spec n 0) as [-> |]; [done |]. cbn [negb]. apply calloc_request; try done. unfold in_range in *. lia. }
  clearbody req. assert (0 <= req < 2 ^ 64) as Hr by (subst req; case_decide; [lia | done]).
  destruct (malloc_any s cs req I Hr) as (r & s1 & -> & [(-> & -> & N) | [G A]]); cbn [mbind outcome_bind].
  - exists 0, s. split; [done | left]. split_and!; try done. subst req. case_decide; [done |]. left. change MAX_REQUEST with (2 ^ 64 - 128). lia.
  - assert (req = n * e) as ->. { subst req. case_decide; [done |]. by vm_compute in G. } pose proof (allocated_some _ _ _ _ _ A) as Nr. destruct (Z.eqb_spec r 0); [done |]. cbn [negb].
    destruct A as (cs1 & p & -> & I1 & SS & Np & EU & K). destruct (request_size (n * e) ltac:(lia)) as (_ & Hs & _).
    destruct (fill_block s1 cs1 p (request2size (n * e)) (replicate (Z.to_nat (n * e)) 0) I1) as (I2 & K2 & D2); [rewrite EU; apply lookup_insert_eq | unfold zlen; rewrite length_replicate; lia |].
    eexists _, _. split; [reflexivity | right]. split; [done |]. split.
    + exists cs1, p. split_and!; try done; try apply SS. eapply kept_trans; [exact K |]. by rewrite EU, delete_insert_id in K2.
    + intros i Hi. cbn [mem set_mem]. replace (p + 16 + i) with (p + 16 + Z.of_nat (Z.to_nat i)) by lia. apply D2. apply lookup_replicate_2. lia.
Qed.

End Realloc.
