(* ===== verification/DlAlign.v ===== *)
(** * kernel/dlmalloc.cc: mspace_memalign is correct

    An aligned block is cut out of a larger one: the part before it and the part behind it
    are given back.  The alignment is rounded up to a power of two by a loop that does
    not end for alignments above 2^63. *)

From S2P Require Import Prelude DlHeap DlBins DlTrie DlFree DlLayout Dlmalloc DlSearch DlAlloc DlRelease DlResize DlRealloc.

Module Align.
Import Chunk Bins Free Layout Mspace Alloc Release Resize Realloc.

(** ** Powers of two *)

Lemma pow2_test x : 0 < x -> Z.land x (x - 1) = 0 -> x = 2 ^ Z.log2 x.
Proof.
  intros Hx E. destruct (Z.log2_spec x Hx) as [L1 L2]. destruct (decide (x = 2 ^ Z.log2 x)) as [| N]; [done |]. exfalso.
  pose proof (Z.log2_nonneg x) as L0. assert (Z.log2 (x - 1) = Z.log2 x) as El by (apply Z.log2_unique; lia).
  pose proof (f_equal (fun z => Z.testbit z (Z.log2 x)) E) as T. cbn beta in T. rewrite Z.land_spec, Z.testbit_0_l, Z.bit_log2 in T by lia.
  rewrite <- El, Z.bit_log2 in T; [done |]. enough (0 < 2 ^ Z.log2 x) by lia. apply Z.pow_pos_nonneg; lia.
Qed.

Lemma log2_lower a x : 2 ^ a < 2 ^ Z.log2 x -> a < Z.log2 x.
Proof. intros H. apply (Z.pow_lt_mono_r_iff 2); [lia | apply Z.log2_nonneg | done]. Qed.

Lemma log2_upper a x : 0 <= a -> 2 ^ Z.log2 x <= 2 ^ a -> Z.log2 x <= a.
Proof. intros Ha H. apply (Z.pow_le_mono_r_iff 2); [lia | done | done]. Qed.

Lemma pow2_mask k : 0 <= k -> 2 ^ k - 1 = Z.ones k.
Proof. intros Hk. rewrite Z.ones_equiv. lia. Qed.

(** Rounding down to a multiple of a power of two, as the code does it. *)
Lemma land_round x k : in_range 64 x -> 0 <= k < 64 -> Z.land x (u64 (- 2 ^ k)) = 2 ^ k * (x / 2 ^ k).
Proof.
  intros Hx Hk. rewrite Z.mul_comm, <- Z.shiftr_div_pow2, <- Z.shiftl_mul_pow2 by lia. apply Z.bits_inj'. intros j Hj. unfold u64. rewrite Z.land_spec, testbit_wrap, Z.shiftl_spec by lia.
  assert (- 2 ^ k = Z.lnot (Z.ones k)) as -> by (rewrite Z.ones_equiv; unfold Z.lnot; lia). rewrite Z.lnot_spec by lia.
  destruct (decide (j < k)); [rewrite Z.ones_spec_low, andb_false_r, andb_false_r, Z.testbit_neg_r by lia; done |]. rewrite Z.ones_spec_high, Z.shiftr_spec by lia.
  replace (j - k + k) with j by lia. destruct (decide (j < 64)); [by rewrite bool_decide_eq_true_2, andb_true_r by done |]. by rewrite (testbit_high 64 x) by (done || lia).
Qed.

Lemma round_up_ok n k al : 0 <= k -> (64 <= k + Z.of_nat n)%Z -> 2 ^ (k - 1) < al <= 2 ^ 63 -> k <= 63 -> exists j, round_up n (2 ^ k) al = Ret (2 ^ j) /\ k <= j <= 63 /\ 2 ^ (j - 1) < al <= 2 ^ j.
Proof.
  revert k. induction n as [| n IH]; intros k Hk Hn Ha Hk'; [lia |]. cbn [round_up]. destruct (Z.ltb_spec (2 ^ k) al) as [G | G].
  - assert (k < 63). { destruct (decide (k = 63)) as [-> |]; lia. }
    assert (u64 (Z.shiftl (2 ^ k) 1) = 2 ^ (k + 1)) as ->.
    { rewrite Z.shiftl_mul_pow2, Z.pow_add_r by lia. unfold u64. apply wrap_small. rewrite <- Z.pow_add_r by lia. split; [apply Z.pow_nonneg; lia | apply Z.pow_lt_mono_r; lia]. }
    destruct (IH (k + 1)) as (j & E & Hj & Hj'); try lia; [replace (k + 1 - 1) with k by lia; lia |]. exists j. split; [done | lia].
  - exists k. split; [done | lia].
Qed.

(** Above 2^63 the loop does not end: [a] becomes 0. *)
Lemma round_up_zero n al : 0 < al -> round_up n 0 al = OutOfFuel.
Proof. intros Ha. induction n as [| n IH]; cbn [round_up]; (destruct (Z.ltb_spec 0 al); [| lia]); done. Qed.

Lemma round_up_diverges n k al : 0 <= k <= 63 -> 2 ^ 63 < al -> round_up n (2 ^ k) al = OutOfFuel.
Proof.
  revert k. induction n as [| n IH]; intros k Hk Ha; cbn [round_up]; assert (2 ^ k <= 2 ^ 63) by (apply Z.pow_le_mono_r; lia); (destruct (Z.ltb_spec (2 ^ k) al); [| lia]); [done |].
  rewrite Z.shiftl_mul_pow2 by lia. change (2 ^ 1) with 2. rewrite Z.mul_comm, <- Z.pow_succ_r by lia. destruct (decide (k = 63)) as [-> |].
  - change (u64 (2 ^ Z.succ 63)) with 0. apply round_up_zero. lia.
  - assert (u64 (2 ^ Z.succ k) = 2 ^ Z.succ k) as ->; [| apply IH; lia]. unfold u64. apply wrap_small. split; [apply Z.pow_nonneg; lia | apply Z.pow_lt_mono_r; lia].
Qed.

(** ** The aligned spot *)

(** The address that the code computes for a misaligned block. *)
Lemma aligned_spot p k : 976 <= p < 2 ^ 62 -> (32 | p + 16) -> 6 <= k < 41 -> Z.land (p + 16) (2 ^ k - 1) <> 0 ->
  let q := mem2chunk (Z.land (u64 (p + 16 + 2 ^ k - 1)) (u64 (- 2 ^ k))) in
  p + 32 <= q /\ q + 32 <= p + 2 ^ k /\ (2 ^ k | q + 16) /\ (32 | q - p).
Proof.
  intros Hp Dp Hk N q. assert (2 ^ 6 <= 2 ^ k < 2 ^ 41) as Hk2 by (split; [apply Z.pow_le_mono_r; lia | apply Z.pow_lt_mono_r; lia]).
  assert (32 | 2 ^ k) as D32 by (exists (2 ^ (k - 5)); change 32 with (2 ^ 5); rewrite <- Z.pow_add_r by lia; f_equal; lia).
  rewrite pow2_mask, Z.land_ones in N by lia. set (A := 2 ^ k) in *. unfold q. assert (u64 (p + 16 + A - 1) = p + 16 + A - 1) as -> by (unfold u64; apply wrap_small; unfold in_range; lia).
  set (t := (p + 16 + A - 1) / A). assert (Z.land (p + 16 + A - 1) (u64 (- A)) = A * t) as -> by (apply (land_round (p + 16 + A - 1) k); unfold in_range; lia). assert (A * t <= p + 16 + A - 1 < A * t + A) as Ht.
  { pose proof (Z.div_mod (p + 16 + A - 1) A ltac:(lia)). pose proof (Z.mod_pos_bound (p + 16 + A - 1) A ltac:(lia)). fold t in H. lia. }
  assert (32 | A * t - (p + 16)) as Dt by (apply Z.divide_sub_r; [by apply Z.divide_mul_l | done]).
  assert (A * t <> p + 16) as Nt by (intros E; apply N; rewrite <- E, Z.mul_comm; apply Z.mod_mul; lia).
  assert (p + 16 + 32 <= A * t) by (destruct Dt as [c Ec]; lia). assert (A * t <= p + 16 + A - 32). { destruct Dt as [c Ec], D32 as [d Ed]. lia. }
  replace (A * t) with (A * t - 16 + 16) by lia. rewrite mem2chunk_eq by lia. split_and!; try lia.
  - replace (A * t - 16 + 16) with (A * t) by lia. apply Z.divide_factor_l.
  - by replace (A * t - 16 - p) with (A * t - (p + 16)) by lia.
Qed.

Lemma align_chunk_ok s cs U p n k nb : inv s cs -> used s cs = <[p := n]> U -> U !! p = None -> 6 <= k < 64 -> 32 <= nb -> nb + 2 ^ k + 32 <= n ->
  exists q s' cs' n', align_chunk s p (2 ^ k) = Ret (q, s') /\ (2 ^ k | q + 16) /\ inv s' cs' /\ same_space s s' /\
    U !! q = None /\ used s' cs' = <[q := n']> U /\ kept U (mem s) (mem s') /\ nb + 32 < n'.
Proof.
  intros I EU Np Hk Hnb Hn. assert (used s cs !! p = Some n) as E by (rewrite EU; apply lookup_insert_eq).
  destruct (used_block s cs p n I E) as (Hc & Hm & P1 & P2 & P3 & P4 & P5). assert (k < 41) as Hk'.
  { destruct (decide (k < 41)) as [| G]; [done |]. assert (2 ^ 41 <= 2 ^ k) by (apply Z.pow_le_mono_r; lia). lia. }
  assert (2 ^ 6 <= 2 ^ k) as Hk6 by (apply Z.pow_le_mono_r; lia). unfold align_chunk. rewrite chunk2mem_eq by lia. destruct (Z.eqb_spec (Z.land (p + 16) (2 ^ k - 1)) 0) as [E0 | N0]; cbn [negb].
  - exists p, s, cs, n. split_and!; try done; [| lia]. rewrite pow2_mask, Z.land_ones in E0 by lia. apply Z.mod_divide; lia.
  - destruct (aligned_spot p k ltac:(lia) P5 ltac:(lia) N0) as (Q1 & Q2 & Q3 & Q4). set (q := mem2chunk _) in *. change MIN_CHUNK_SIZE with 32.
    assert (u64 (q - p) = q - p) as -> by (unfold u64; apply wrap_small; unfold in_range; lia). destruct (Z.geb_spec (q - p) 32); [| lia].
    assert (u64 (q - p) = q - p) as -> by (unfold u64; apply wrap_small; unfold in_range; lia). rewrite Hc, Hm.
    assert (u64 (n - (q - p)) = n - (q - p)) as -> by (unfold u64; apply wrap_small; unfold in_range; lia). set (lead := q - p) in *.
    destruct (used_loose s cs p n I E) as (cs1 & cs2 & a & _ & Ep & O & EU' & Np').
    assert (around Used (first s) cs1 n cs2 = U) as EA by (rewrite <- (delete_insert_id _ p n Np'), <- EU', EU; by apply delete_insert_id).
    destruct (loose_two s cs1 _ cs2 a lead (n - lead) (set_inuse (set_inuse (mem s) (p + lead) (n - lead)) p lead) O) as (I1 & E1 & _ & Nq & K1); [split; cbn; (done || lia) | split; cbn; [by apply Z.divide_sub_r | lia] | cbn; lia | right; by rewrite <- Ep |].
    cbn [total] in *. rewrite Z.add_0_r, EA in *. rewrite <- Ep in *. replace (p + lead) with q in * by (unfold lead; lia). set (m1 := set_inuse (set_inuse (mem s) q (n - lead)) p lead) in *.
    destruct (dispose_chunk_ok _ _ p lead I1) as (s' & D & cs' & I' & SS & EU2 & K2); [rewrite E1; apply lookup_insert_eq |]. rewrite D. cbn [mbind outcome_bind].
    assert (delete p (<[p := lead]> (<[q := n - lead]> U)) = <[q := n - lead]> U) as Ed by (apply delete_insert_id; rewrite lookup_insert_ne by lia; done). rewrite E1, Ed in EU2, K2.
    exists q, s', cs', (n - lead). split_and!; try done; try apply SS; [| lia]. eapply kept_trans; [eapply kept_weaken; [| exact K1] | eapply kept_weaken; [| exact K2]]; [| by apply insert_subseteq].
    etransitivity; [by apply insert_subseteq | apply insert_subseteq]. by rewrite lookup_insert_ne by lia.
Qed.

(** ** mspace_memalign *)

Lemma cut_block s cs U p n nb : inv s cs -> used s cs = <[p := n]> U -> U !! p = None -> sized (nb, Used) -> nb + 32 <= n ->
  exists s' cs', cut s p nb (n - nb) = Ret s' /\ inv s' cs' /\ same_space s s' /\ used s' cs' = <[p := nb]> U /\ kept U (mem s) (mem s').
Proof.
  intros I EU Np Sn Hn. assert (used s cs !! p = Some n) as E by (rewrite EU; apply lookup_insert_eq). destruct (used_block s cs p n I E) as (_ & _ & _ & _ & _ & P4 & _).
  destruct (used_loose s cs p n I E) as (cs1 & cs2 & a & _ & Ep & O & EU' & Np').
  assert (around Used (first s) cs1 n cs2 = U) as EA by (rewrite <- (delete_insert_id _ p n Np'), <- EU', EU; by apply delete_insert_id).
  destruct (cut_ok _ _ _ _ _ nb (n - nb) O) as (s' & C & cs' & I' & SS & EU2 & K); [done | split; cbn; [apply Z.divide_sub_r; [done | apply Sn] | lia] | cbn; lia |].
  cbn [total] in *. rewrite Z.add_0_r, EA in *. rewrite <- Ep in *. exists s', cs'. split_and!; try done; try apply SS. eapply kept_weaken; [by apply insert_subseteq | exact K].
Qed.

Lemma memalign_pow s cs k bytes : inv s cs -> 6 <= k <= 63 -> 0 <= bytes < 2 ^ 64 ->
  exists r s', internal_memalign s (2 ^ k) bytes = Ret (r, s') /\
    ((r = 0 /\ s' = s) \/ (bytes < MAX_REQUEST /\ (2 ^ k | r) /\ allocated s (used s cs) (request2size bytes) r s')).
Proof.
  intros I Hk Hb. assert (2 ^ 6 <= 2 ^ k <= 2 ^ 63) as Hk2 by (split; apply Z.pow_le_mono_r; lia). unfold internal_memalign. change MIN_CHUNK_SIZE with 32. destruct (Z.ltb_spec (2 ^ k) 32); [lia |].
  assert (Z.land (2 ^ k) (2 ^ k - 1) = 0) as -> by (rewrite pow2_mask, Z.land_ones by lia; apply Z.mod_same; lia). cbn [Z.eqb negb mbind outcome_bind].
  change MAX_REQUEST with (2 ^ 64 - 128) in *. assert (u64 (2 ^ 64 - 128 - 2 ^ k) = 2 ^ 64 - 128 - 2 ^ k) as -> by (unfold u64; apply wrap_small; unfold in_range; lia).
  destruct (Z.geb_spec bytes (2 ^ 64 - 128 - 2 ^ k)) as [G | G]; [exists 0, s; split; [done | by left] |].
  destruct (request_size bytes) as (Sn & Hn1 & Hn2 & _); [change MAX_REQUEST with (2 ^ 64 - 128); lia |]. set (nb := request2size bytes) in *. pose proof Sn as [_ N2]. cbn [fst] in N2. change CHUNK_OVERHEAD with 8.
  assert (u64 (nb + 2 ^ k + 32 - 8) = nb + 2 ^ k + 24) as -> by (unfold u64; rewrite wrap_small; [lia | unfold in_range; lia]). set (req := nb + 2 ^ k + 24).
  destruct (malloc_any s cs req I ltac:(lia)) as (r & s1 & -> & [(-> & -> & _) | [Gr A]]); cbn [mbind outcome_bind]; [exists 0, s; split; [done | by left] |].
  pose proof (allocated_some _ _ _ _ _ A) as Nr. destruct (Z.eqb_spec r 0); [done |]. cbn [negb]. destruct A as (cs1 & p & -> & I1 & SS1 & Np & EU1 & K1).
  destruct (request_size req ltac:(lia)) as (_ & Hq1 & _). destruct (used_block s1 cs1 p (request2size req) I1) as (_ & _ & P1 & P2 & _); [rewrite EU1; apply lookup_insert_eq |]. rewrite mem2chunk_eq by lia.
  destruct (align_chunk_ok s1 cs1 _ p _ k nb I1 EU1 Np ltac:(lia) ltac:(lia) ltac:(lia)) as (q & s2 & cs2 & n2 & -> & Dq & I2 & SS2 & Nq & EU2 & K2 & Hn). cbn [mbind outcome_bind].
  destruct (used_block s2 cs2 q n2 I2) as (Hc & Hm & Q1 & Q2 & _); [rewrite EU2; apply lookup_insert_eq |]. rewrite Hc, Hm. cbn [negb].
  assert (u64 (nb + 32) = nb + 32) as -> by (unfold u64; apply wrap_small; unfold in_range; lia). destruct (Z.gtb_spec n2 (nb + 32)); [| lia].
  destruct (cut_block s2 cs2 _ q n2 nb I2 EU2 Nq Sn ltac:(lia)) as (s3 & cs3 & -> & I3 & SS3 & EU3 & K3). cbn [mbind outcome_bind]. rewrite chunk2mem_eq by lia.
  exists (q + 16), s3. split; [done | right]. split; [lia |]. split; [done |]. assert (same_space s s3) as SS by (eapply same_space_trans; [exact SS1 |]; by eapply same_space_trans).
  exists cs3, q. split_and!; try done; try apply SS. eapply kept_trans; [exact K1 |]. by eapply kept_trans.
Qed.

Lemma memalign_round s al bytes : 32 < al <= 2 ^ 63 -> exists k, 6 <= k <= 63 /\ 2 ^ (k - 1) < al <= 2 ^ k /\ internal_memalign s al bytes = internal_memalign s (2 ^ k) bytes.
Proof.
  intros Ha. destruct (decide (Z.land al (al - 1) = 0)) as [E | N].
  - pose proof (pow2_test al ltac:(lia) E) as Ek. assert (5 < Z.log2 al) by (apply log2_lower; rewrite <- Ek; lia). assert (Z.log2 al <= 63) by (apply log2_upper; rewrite <- ?Ek; lia).
    exists (Z.log2 al). rewrite <- Ek. split_and!; try lia; [| done]. rewrite Ek at 2. apply Z.pow_lt_mono_r; lia.
  - destruct (round_up_ok 64 6 al) as (k & E & Hk & Hk'); try (cbn; lia). exists k. split; [done |]. split; [done |]. unfold internal_memalign. change MIN_CHUNK_SIZE with 32. destruct (Z.ltb_spec al 32); [lia |].
    assert (2 ^ 6 <= 2 ^ k) by (apply Z.pow_le_mono_r; lia). destruct (Z.ltb_spec (2 ^ k) 32); [lia |]. destruct (Z.eqb_spec (Z.land al (al - 1)) 0); [done |].
    assert (Z.land (2 ^ k) (2 ^ k - 1) = 0) as -> by (rewrite pow2_mask, Z.land_ones by lia; apply Z.mod_same; lia). cbn [Z.eqb negb]. change (Z.shiftl MALLOC_ALIGNMENT 1) with (2 ^ 6). by rewrite E.
Qed.

Lemma mspace_memalign_ok s cs al bytes : inv s cs -> 0 <= al <= 2 ^ 63 -> 0 <= bytes < 2 ^ 64 ->
  exists r s', mspace_memalign s al bytes = Ret (r, s') /\
    ((r = 0 /\ s' = s) \/ (bytes < MAX_REQUEST /\ (exists k, 0 <= k /\ al <= 2 ^ k /\ (2 ^ k | r)) /\ allocated s (used s cs) (request2size bytes) r s')).
Proof.
  intros I Ha Hb. unfold mspace_memalign. change MALLOC_ALIGNMENT with 32. destruct (Z.leb_spec al 32) as [G | G].
  - destruct (malloc_any s cs bytes I Hb) as (r & s' & E & [(-> & -> & _) | [Gb A]]); [exists 0, s; split; [done | by left] |]. exists r, s'. split; [done | right]. split_and!; try done. exists 5.
    split_and!; [lia | lia |]. destruct A as (cs' & p & -> & I' & _ & _ & EU & _). apply (used_block s' cs' p (request2size bytes) I'). rewrite EU. apply lookup_insert_eq.
  - destruct (memalign_round s al bytes ltac:(lia)) as (k & Hk & Hk' & ->). destruct (memalign_pow s cs k bytes I Hk Hb) as (r & s' & E & [N | (Gb & D & A)]); exists r, s'; (split; [done |]); [by left | right].
    split_and!; try done. exists k. split_and!; (done || lia).
Qed.

(** An alignment above 2^63 that is not a power of two: the loop goes on for ever. *)
Lemma memalign_hangs s al bytes : 2 ^ 63 < al < 2 ^ 64 -> (forall fuel, round_up fuel (Z.shiftl MALLOC_ALIGNMENT 1) al = OutOfFuel) /\ mspace_memalign s al bytes = OutOfFuel.
Proof.
  intros Ha. assert (forall fuel, round_up fuel (Z.shiftl MALLOC_ALIGNMENT 1) al = OutOfFuel) as D by (intros fuel; apply (round_up_diverges fuel 6); lia). split; [done |].
  unfold mspace_memalign, internal_memalign. change MIN_CHUNK_SIZE with 32. destruct (Z.leb_spec al MALLOC_ALIGNMENT) as [G | _]; [change MALLOC_ALIGNMENT with 32 in G; lia |]. destruct (Z.ltb_spec al 32); [lia |].
  destruct (Z.eqb_spec (Z.land al (al - 1)) 0) as [E |]; [| cbn [negb]; by rewrite D]. exfalso. pose proof (pow2_test al ltac:(lia) E) as Ek.
  assert (63 < Z.log2 al) as L1 by (apply log2_lower; rewrite <- Ek; lia). assert (2 ^ 64 <= al) by (rewrite Ek; apply Z.pow_le_mono_r; lia). lia.
Qed.

End Align.
