(* ===== verification/DlSpace.v ===== *)
(** * kernel/dlmalloc.cc: a space refines an abstract heap

    A space that create_mspace_with_base makes satisfies the invariant, with no block in use;
    writes into blocks in use keep it.  A client that allocates, releases and writes
    only its own blocks therefore sees an abstract heap: disjoint blocks whose
    contents only the client changes. *)

From S2P Require Import Prelude DlHeap DlBins DlTrie DlFree DlLayout Dlmalloc DlSearch DlAlloc DlRelease DlResize DlRealloc DlAlign.

Module Space.
Import Chunk Bins Trie Free Layout Mspace Search Alloc Release Resize Realloc Align.

(** ** A new space *)

Lemma align_offset_16 a : (32 | a) -> align_offset (a + 16) = 16.
Proof.
  intros D. unfold align_offset. change CHUNK_ALIGN_MASK with 31. change MALLOC_ALIGNMENT with 32. rewrite <- (aligned_lor a 16) by (done || lia).
  rewrite Z.land_lor_distr_l, aligned_land by (done || lia). done.
Qed.

Lemma align_offset_0 a : (32 | a) -> align_offset a = 0.
Proof. intros D. unfold align_offset. change CHUNK_ALIGN_MASK with 31. by rewrite aligned_land by (done || lia). Qed.

Lemma ring_links_out s m l : (forall i, i ∈ l -> 0 <= i < 32) -> forall x, x < self s + 88 \/ self s + 600 <= x ->
  fold_left (fun m i => let bin := smallbin_at s i in set_fd (set_bk m bin bin) bin bin) l m x = m x.
Proof.
  revert m. induction l as [| i l IH]; intros m Hl x Hx; [done |]. cbn [fold_left]. rewrite IH; [| intros j Hj; apply Hl; by right | done].
  pose proof (Hl i ltac:(left)). unfold smallbin_at. mem_fields. by mem_out.
Qed.

Lemma ld_zero m a : (forall x, a <= x < a + 8 -> m x = 0) -> ld m a = 0.
Proof. intros H. rewrite <- (ld_ext m (fun _ => 0)); [reflexivity | intros i Hi; symmetry; by apply H]. Qed.

(** A state with empty bins, whose tree bins are null. *)
Lemma new_space s : (32 | self s) -> seg_base s = self s - 32 -> 0 < seg_base s -> seg_base s + seg_size s < 2 ^ 62 -> seg_size s < 2 ^ 40 ->
  least_addr s = seg_base s -> top s = first s -> top s + topsize s + 112 = seg_base s + seg_size s -> (32 | topsize s) -> 0 <= topsize s ->
  smallmap s = 0 -> treemap s = 0 -> dvsize s = 0 -> dv s = 0 -> head (mem s) (top s) = tag (topsize s) true false ->
  (forall x, self s + 600 <= x < self s + 856 -> mem s x = 0) -> inv s [].
Proof.
  intros H1 H2 H3 H4 H5 H6 H7 H8 H9 H10 H11 H12 H13 H14 H15 H16. split_and!; [| | by left].
  - unfold layout, base. change TOP_FOOT_SIZE with 112. cbn [total]. rewrite Z.add_0_r. split_and!; try done; constructor.
  - change (bins s ∅). split.
    + split; try (intros; by rewrite lookup_empty in *); [unfold first, header_size in *; lia |]. rewrite H11, H12. unfold in_range. lia.
    + intros i Hi. split.
      * exists []. split_and!; [constructor | | by rewrite H11, Z.testbit_0_l | done]. intros p. split; [by intros ?%elem_of_nil | intros (z & E & _); by rewrite lookup_empty in E].
      * exists Leaf. split_and!; [constructor | | by rewrite H12, Z.testbit_0_l | | done].
        -- intros p. split; [by intros ?%elem_of_nil | intros (z & E & _); by rewrite lookup_empty in E].
        -- split; [| done]. apply ld_zero. intros x Hx. apply H16. unfold treebin_at in Hx. lia.
Qed.

Lemma create_inv m base capacity : (32 | base) -> (32 | capacity) -> 0 < base -> 1088 < capacity < 2 ^ 40 -> base + capacity < 2 ^ 62 ->
  exists s, create_mspace_with_base m base capacity = Some s /\ inv s [] /\ used s [] = ∅ /\ seg_base s = base /\ seg_size s = capacity /\
    topsize s = capacity - 1088.
Proof.
  intros Db Dc Hb Hc He. unfold create_mspace_with_base. change (pad_request sizeof_malloc_state + TOP_FOOT_SIZE) with 1072.
  change (u64 (- (1072 + 2 * MiB))) with (2 ^ 64 - 2098224). destruct (Z.gtb_spec capacity 1072); [| lia]. destruct (Z.ltb_spec capacity (2 ^ 64 - 2098224)); [| lia]. cbn [andb].
  eexists. split; [done |]. unfold init_user_mstate. change (pad_request sizeof_malloc_state) with 960. change (Z.lor 960 INUSE_BITS) with (tag 960 true true).
  unfold align_as_chunk. rewrite align_offset_16 by done. rewrite chunk2mem_eq by lia. replace (base + 16 + 16) with (base + 32) by lia.
  set (m1 := store_bytes m (base + 32) (replicate (Z.to_nat 960) 0)). set (m2 := set_head m1 (base + 16) (tag 960 true true)).
  set (s0 := mkState _ _ _ _ _ _ _ _ _ _ _ _ _ _ m2). set (m3 := mem (init_bins s0)).
  assert (forall x, x < base + 120 \/ base + 632 <= x -> m3 x = m2 x) as E3.
  { intros x Hx. apply (ring_links_out s0 m2 (seqZ 0 32)); [intros i Hi; apply elem_of_seqZ in Hi; lia | cbn [self s0]; lia]. }
  assert (chunksize m3 (base + 16) = 960) as Ec.
  { unfold chunksize. assert (head m3 (base + 16) = tag 960 true true) as ->; [| apply tag_size; by exists 30].
    unfold head. rewrite (ld_ext m2 m3) by (intros x Hx; apply E3; lia). unfold m2, set_head. rewrite ld_st_eq; [done |]. apply tag_range. lia. }
  fold m3. rewrite Ec, plus_offset by lia. replace (base + 16 + 960) with (base + 976) by lia.
  assert (u64 (base + capacity - (base + 976) - TOP_FOOT_SIZE) = capacity - 1088) as ->.
  { change TOP_FOOT_SIZE with 112. unfold u64. rewrite wrap_small; [lia | unfold in_range; lia]. }
  unfold init_top. replace (base + 976 + 16) with (base + 31 * 32) by lia. rewrite align_offset_0 by (apply Z.divide_add_r; [done | apply Z.divide_factor_r]).
  rewrite Z.add_0_r, Z.sub_0_r. assert (u64 (capacity - 1088) = capacity - 1088) as -> by (unfold u64; apply wrap_small; unfold in_range; lia).
  assert (32 | capacity - 1088) as Dt by (apply Z.divide_sub_r; [done | by exists 34]). rewrite tag_free, plus_offset by (done || lia). change (mem (init_bins s0)) with m3.
  set (m4 := set_head (set_head m3 _ _) _ _). set (s := set_checks _ _ _). assert (first s = base + 976) as Ef by (unfold first, header_size; cbn; lia).
  split_and!; try done. apply (new_space s); try done; try lia.
  - cbn. by apply Z.divide_add_r; [| exists 1].
  - cbn. lia.
  - cbn. lia.
  - cbn. lia.
  - cbn. lia.
  - change (head m4 (base + 976) = tag (capacity - 1088) true false). pose proof (tag_range (capacity - 1088) true false ltac:(lia)).
    assert (32 <= capacity - 1088) by (destruct Dt as [k Ek]; lia). unfold m4. mem_fields. by mem_read.
  - change (self s) with (base + 32). change (mem s) with m4. intros x Hx. unfold m4, set_head. rewrite !st_out by lia. rewrite E3 by lia. unfold m2, set_head. rewrite st_out by lia.
    unfold m1. replace x with (base + 32 + Z.of_nat (Z.to_nat (x - base - 32))) by lia. apply store_bytes_in. apply lookup_replicate_2. lia.
Qed.

(** ** The abstract heap *)

(** An abstract heap: the blocks by address with their usable sizes, and the memory. *)
Record heap : Type := mkHeap { blocks : gmap Z Z; data : ram }.

(** What a client may ask for. *)
Inductive request : Type :=
  | QMalloc (bytes : Z) | QCalloc (n e : Z) | QMemalign (al bytes : Z) | QRealloc (r bytes : Z) | QFree (r : Z) | QWrite (x v : Z).

Definition poke (d : ram) (x v : Z) : ram := fun a => if decide (a = x) then v else d a.

(** Two heaps have the same contents in the blocks [B]. *)
Definition same_data (B : gmap Z Z) (d d' : ram) : Prop := forall r n x, B !! r = Some n -> r <= x < r + n -> d' x = d x.

(** A new block of [n] bytes at [r]: aligned, large enough, apart from the blocks [B]. *)
Definition fresh (B : gmap Z Z) (bytes r n : Z) : Prop :=
  r <> 0 /\ (32 | r) /\ bytes <= n /\ B !! r = None /\ forall q k, B !! q = Some k -> r + n <= q \/ q + k <= r.

(** A step of the abstract heap: a request and its result.  A block that is allocated is
    fresh, and zero or aligned where that was asked for; a block that changes its
    size keeps its contents; a request for a block may fail, and then changes nothing;
    nothing but a write changes the contents of other blocks. *)
Inductive heap_step : heap -> request -> Z -> heap -> Prop :=
  | heap_malloc B d bytes r n d' : fresh B bytes r n -> same_data B d d' -> heap_step (mkHeap B d) (QMalloc bytes) r (mkHeap (<[r := n]> B) d')
  | heap_calloc B d n e r k d' : fresh B (n * e) r k -> same_data B d d' -> (forall i, 0 <= i < n * e -> d' (r + i) = 0) ->
      heap_step (mkHeap B d) (QCalloc n e) r (mkHeap (<[r := k]> B) d')
  | heap_memalign B d al bytes r n d' k : fresh B bytes r n -> same_data B d d' -> 0 <= k -> al <= 2 ^ k -> (2 ^ k | r) ->
      heap_step (mkHeap B d) (QMemalign al bytes) r (mkHeap (<[r := n]> B) d')
  | heap_realloc B d p z bytes r n d' : B !! p = Some z -> fresh (delete p B) bytes r n -> same_data (delete p B) d d' ->
      (forall i, 0 <= i < Z.min z bytes -> d' (r + i) = d (p + i)) -> heap_step (mkHeap B d) (QRealloc p bytes) r (mkHeap (<[r := n]> (delete p B)) d')
  | heap_realloc_null B d bytes r n d' : fresh B bytes r n -> same_data B d d' -> heap_step (mkHeap B d) (QRealloc 0 bytes) r (mkHeap (<[r := n]> B) d')
  | heap_fail h q : (match q with QFree _ | QWrite _ _ => False | _ => True end) -> heap_step h q 0 h
  | heap_free B d r n d' : B !! r = Some n -> same_data (delete r B) d d' -> heap_step (mkHeap B d) (QFree r) 0 (mkHeap (delete r B) d')
  | heap_free_null h : heap_step h (QFree 0) 0 h
  | heap_write B d r n x v : B !! r = Some n -> r <= x < r + n -> heap_step (mkHeap B d) (QWrite x v) 0 (mkHeap B (poke d x v)).

(** The requests that a client may make: any sizes, the blocks it has, and no alignment
    above 2^63. *)
Definition legal (h : heap) (q : request) : Prop :=
  match q with
  | QMalloc bytes => in_range 64 bytes
  | QCalloc n e => in_range 64 n /\ in_range 64 e
  | QMemalign al bytes => 0 <= al <= 2 ^ 63 /\ in_range 64 bytes
  | QRealloc r bytes => (r = 0 \/ is_Some (blocks h !! r)) /\ in_range 64 bytes
  | QFree r => r = 0 \/ is_Some (blocks h !! r)
  | QWrite x _ => exists r n, blocks h !! r = Some n /\ r <= x < r + n
  end.

(** The space serves the client. *)
Definition serve (s : mstate) (q : request) : outcome (Z * mstate) :=
  match q with
  | QMalloc bytes => mspace_malloc s bytes
  | QCalloc n e => mspace_calloc s n e
  | QMemalign al bytes => mspace_memalign s al bytes
  | QRealloc r bytes => mspace_realloc s r bytes
  | QFree r => s' ← mspace_free s r; Ret (0, s')
  | QWrite x v => Ret (0, set_mem s (poke (mem s) x v))
  end.

#[global] Instance add_inj (a : Z) : Inj eq eq (Z.add a).
Proof. intros x y. lia. Qed.

(** The blocks of a space as the client sees them. *)
Definition heap_of (U : gmap Z Z) : gmap Z Z := kmap (Z.add 16) ((fun z => z - 8) <$> U).

(** The space implements the heap. *)
Definition implements (s : mstate) (h : heap) : Prop := exists cs, inv s cs /\ blocks h = heap_of (used s cs) /\ data h = mem s.

Lemma heap_of_lookup U r : heap_of U !! r = (fun z => z - 8) <$> U !! (r - 16).
Proof. unfold heap_of. replace r with (16 + (r - 16)) at 1 by lia. rewrite lookup_kmap by apply _. apply lookup_fmap. Qed.

Lemma heap_of_Some U r n : heap_of U !! r = Some n -> U !! (r - 16) = Some (n + 8).
Proof. rewrite heap_of_lookup. destruct (U !! (r - 16)) as [z |]; [| done]. cbn. intros [= <-]. f_equal. lia. Qed.

Lemma heap_of_insert U r z : heap_of (<[r - 16 := z]> U) = <[r := z - 8]> (heap_of U).
Proof. unfold heap_of. rewrite fmap_insert, kmap_insert by apply _. f_equal. lia. Qed.

Lemma heap_of_delete U r : heap_of (delete (r - 16) U) = delete r (heap_of U).
Proof. unfold heap_of. rewrite fmap_delete, kmap_delete by apply _. f_equal. lia. Qed.

Lemma kept_same U d d' : kept U d d' -> same_data (heap_of U) d d'.
Proof. intros K r n x E%heap_of_Some Hx. apply (K (r - 16) (n + 8)); [done | lia]. Qed.

Lemma fresh_block s cs A r nb bytes : inv s cs -> used s cs = <[r - 16 := nb]> A -> A !! (r - 16) = None -> bytes + 8 <= nb -> fresh (heap_of A) bytes r (nb - 8).
Proof.
  intros I EU Np Hb. assert (used s cs !! (r - 16) = Some nb) as E by (rewrite EU; apply lookup_insert_eq). destruct (used_block s cs _ nb I E) as (_ & _ & P1 & _ & _ & _ & P5).
  split_and!; [lia | by replace r with (r - 16 + 16) by lia | lia | by rewrite heap_of_lookup, Np |]. intros q k Eq%heap_of_Some.
  assert (used s cs !! (q - 16) = Some (k + 8)) as E2 by (rewrite EU, lookup_insert_ne; [done |]; intros D; rewrite D in Np; congruence).
  destruct (cmap_apart _ _ _ _ _ _ _ _ (proj1 (proj2 (proj1 I))) E E2) as [(D & _) | ?]; [| lia]. rewrite D in Np. congruence.
Qed.

Lemma allocated_heap s cs nb r s' bytes : allocated s (used s cs) nb r s' -> bytes + 8 <= nb ->
  fresh (heap_of (used s cs)) bytes r (nb - 8) /\ same_data (heap_of (used s cs)) (mem s) (mem s') /\ implements s' (mkHeap (<[r := nb - 8]> (heap_of (used s cs))) (mem s')).
Proof.
  intros (cs' & p & -> & I & SS & Np & EU & K) Hb. replace p with (p + 16 - 16) in Np, EU by lia. split_and!; [by eapply fresh_block | by apply kept_same |].
  exists cs'. split_and!; try done. by rewrite EU, heap_of_insert.
Qed.

Lemma allocated_space s U nb r s' : allocated s U nb r s' -> same_space s s'.
Proof. by intros (cs' & p & _ & _ & SS & _). Qed.

Lemma serve_malloc s cs bytes : inv s cs -> in_range 64 bytes -> exists r s', mspace_malloc s bytes = Ret (r, s') /\
  ((r = 0 /\ s' = s) \/ exists n, fresh (heap_of (used s cs)) bytes r n /\ same_data (heap_of (used s cs)) (mem s) (mem s') /\ implements s' (mkHeap (<[r := n]> (heap_of (used s cs))) (mem s')) /\ same_space s s').
Proof.
  intros I Hb. destruct (malloc_any s cs bytes I Hb) as (r & s' & E & [(-> & -> & _) | [G A]]); eexists _, _; (split; [exact E |]); [by left | right].
  exists (request2size bytes - 8). unfold in_range in Hb. destruct (request_size bytes ltac:(lia)) as (_ & Hs & _).
  destruct (allocated_heap s cs _ r s' bytes A Hs) as (F & Sd & Im). split_and!; try done; apply (allocated_space _ _ _ _ _ A).
Qed.

Lemma serve_realloc s cs r bytes : inv s cs -> r = 0 \/ is_Some (heap_of (used s cs) !! r) -> in_range 64 bytes ->
  exists r' s' h', mspace_realloc s r bytes = Ret (r', s') /\ heap_step (mkHeap (heap_of (used s cs)) (mem s)) (QRealloc r bytes) r' h' /\ implements s' h' /\ same_space s s'.
Proof.
  intros I Hr Hb. assert (implements s (mkHeap (heap_of (used s cs)) (mem s))) as Im by (by exists cs). destruct Hr as [-> | [n E]].
  - destruct (serve_malloc s cs bytes I Hb) as (r & s' & E & [(-> & ->) | (n & F & Sd & Im' & SS)]).
    + eexists _, _, _. split; [exact E |]. split; [by apply heap_fail | done].
    + eexists _, _, _. split; [exact E |]. split; [by eapply heap_realloc_null | done].
  - pose proof (heap_of_Some _ _ _ E) as E'. destruct (mspace_realloc_ok s cs (r - 16) (n + 8) bytes I E' Hb) as (r' & s' & R & M). replace (r - 16 + 16) with r in R by lia.
    destruct M as [(-> & -> & _) | (G & cs' & I' & SS & Np & EU & K & Dt)].
    + eexists _, _, _. split; [exact R |]. split; [by apply heap_fail | done].
    + unfold in_range in Hb. destruct (request_size bytes ltac:(lia)) as (_ & Hn & _). eexists _, _, _. split; [exact R |]. split; [| split; [| exact SS]].
      * eapply (heap_realloc _ _ r n bytes r' _ (mem s')); [done | rewrite <- heap_of_delete; by eapply fresh_block | rewrite <- heap_of_delete; by apply kept_same |].
        intros i Hi. rewrite Dt by lia. f_equal. lia.
      * exists cs'. split_and!; try done. cbn. by rewrite EU, heap_of_insert, heap_of_delete.
Qed.

Lemma serve_ok s h q : implements s h -> legal h q -> exists r s' h', serve s q = Ret (r, s') /\ heap_step h q r h' /\ implements s' h' /\ same_space s s'.
Proof.
  intros Im Hl. pose proof Im as (cs & I & Eb & Ed). destruct h as [B d]. cbn in Eb, Ed. subst B d. destruct q as [bytes | n e | al bytes | r bytes | r | x v]; cbn [legal serve blocks] in *.
  - destruct (serve_malloc s cs bytes I Hl) as (r & s' & E & [(-> & ->) | (n & F & Sd & Im' & SS)]); eexists _, _, _; (split; [exact E |]); (split; [| done]); [by apply heap_fail | by apply heap_malloc].
  - destruct Hl as [Hn He]. destruct (mspace_calloc_ok s cs n e I Hn He) as (r & s' & E & [(-> & -> & _) | (G & A & Z)]); [eexists _, _, _; (split; [exact E |]); split; [by apply heap_fail | done] |].
    assert (0 <= n * e) by (unfold in_range in *; nia). destruct (request_size (n * e) ltac:(lia)) as (_ & Hs & _).
    destruct (allocated_heap s cs _ r s' (n * e) A Hs) as (F & Sd & Im'). eexists _, _, _. split; [exact E |]. split; [by apply heap_calloc | split; [done | apply (allocated_space _ _ _ _ _ A)]].
  - destruct Hl as [Ha Hb]. destruct (mspace_memalign_ok s cs al bytes I Ha Hb) as (r & s' & E & [(-> & ->) | (G & (k & K1 & K2 & K3) & A)]); [eexists _, _, _; (split; [exact E |]); split; [by apply heap_fail | done] |].
    unfold in_range in Hb. destruct (request_size bytes ltac:(lia)) as (_ & Hs & _). destruct (allocated_heap s cs _ r s' bytes A Hs) as (F & Sd & Im'). eexists _, _, _. split; [exact E |]. split; [by eapply (heap_memalign _ _ _ _ _ _ _ k) | split; [done | apply (allocated_space _ _ _ _ _ A)]].
  - destruct Hl as [Hr Hb]. by apply serve_realloc.
  - destruct Hl as [-> | [n E]]; [exists 0, s; eexists; split; [done |]; split; [apply heap_free_null | done] |]. pose proof (heap_of_Some _ _ _ E) as E'.
    destruct (mspace_free_ok s cs (r - 16) _ I E') as (s' & F & cs' & I' & SS & EU & K). replace (r - 16 + 16) with r in F by lia. rewrite F. eexists _, _, _. split; [reflexivity |]. split; [| split; [| exact SS]].
    + eapply (heap_free _ _ _ n (mem s')); [done |]. rewrite <- heap_of_delete. by apply kept_same.
    + exists cs'. split_and!; try done. cbn. by rewrite EU, heap_of_delete.
  - destruct Hl as (r & n & E & Hx). eexists _, _, _. split; [reflexivity |]. split; [by eapply heap_write |]. split; [| done]. exists cs. split_and!; try done. apply writes_keep_inv; [done |].
    intros y Ny. unfold poke. rewrite decide_False; [done |]. intros ->. apply Ny. apply heap_of_Some in E. exists (r - 16), (n + 8). split; [done | lia].
Qed.

(** ** The theorems *)

(** The space of the kernel: 256 GiB from 512 GiB on, over memory that is zero. *)
Definition kernel_space : option mstate := create_mspace_with_base (fun _ => 0) (512 * GiB) (256 * GiB).

Lemma kernel_space_ok : exists s, kernel_space = Some s /\ inv s [] /\ used s [] = ∅ /\ seg_base s = 512 * GiB /\ seg_size s = 256 * GiB /\
  topsize s = 256 * GiB - 1088.
Proof. apply create_inv; [by exists (16 * GiB) | by exists (8 * GiB) | done..]. Qed.

(** C11. The allocator refines the abstract heap: every legal request of a client is served,
    without abort and within the fuel of the loops, by a step of the heap, and the space
    implements the heap again, in the same segment; so no sequence of allocations, releases and writes into
    blocks gives overlapping blocks or changes the contents of a block other than by the
    client's writes. *)
Theorem space_refines_heap s h q : implements s h -> legal h q ->
  exists r s' h', serve s q = Ret (r, s') /\ heap_step h q r h' /\ implements s' h' /\ same_space s s'.
Proof. apply serve_ok. Qed.

Lemma space_refines_heap_witness : exists s r s' h', kernel_space = Some s /\ serve s (QMemalign 4096 5000) = Ret (r, s') /\
  heap_step (mkHeap ∅ (mem s)) (QMemalign 4096 5000) r h' /\ implements s' h'.
Proof.
  destruct kernel_space_ok as (s & E & I & U & _). destruct (space_refines_heap s (mkHeap ∅ (mem s)) (QMemalign 4096 5000)) as (r & s' & h' & R1 & R2 & R3 & _); [| done |].
  - exists []. by rewrite U.
  - by exists s, r, s', h'.
Defined.

(** mspace_malloc is total and correct in a space that satisfies the invariant, for any
    request: it returns the address of a block that is aligned to 32 bytes, lies in the
    segment, has room for the request and overlaps no block in use; the invariant holds
    again with that block in use, and the contents of the other blocks are unchanged.  It
    returns 0, and changes nothing, only if the request is too large to be padded or no
    free chunk and not the top is large enough. *)
Theorem mspace_malloc_correct s cs bytes : inv s cs -> 0 <= bytes < 2 ^ 64 ->
  exists r s', mspace_malloc s bytes = Ret (r, s') /\
    ((r = 0 /\ s' = s /\ (MAX_REQUEST <= bytes \/ no_room s cs (request2size bytes))) \/
     exists cs', inv s' cs' /\ same_space s s' /\ used s' cs' = <[r - 16 := request2size bytes]> (used s cs) /\ kept (used s cs) (mem s) (mem s') /\
       (32 | r) /\ seg_base s < r /\ r + bytes <= seg_base s + seg_size s /\
       forall q z, used s cs !! q = Some z -> r + bytes <= q + 16 \/ q + z + 8 <= r).
Proof.
  intros I Hb. destruct (malloc_any s cs bytes I Hb) as (r & s' & E & [N | [G A]]); [exists r, s'; auto |].
  exists r, s'. split; [done | right]. apply (allocated_block s cs bytes r s' I ltac:(lia) A).
Qed.

Lemma mspace_malloc_correct_witness : exists s r s' cs', kernel_space = Some s /\ mspace_malloc s 100 = Ret (r, s') /\ inv s' cs' /\ used s' cs' = {[r - 16 := 128]}.
Proof.
  destruct kernel_space_ok as (s & E & I & U & _ & _ & T). destruct (mspace_malloc_correct s [] 100 I) as (r & s' & M & R); [done |]. exists s, r, s'.
  destruct R as [(_ & _ & [B | (_ & _ & N)]) | (cs' & I' & _ & U' & _)]; [by vm_compute in B | | by exists cs'; rewrite U', U].
  rewrite T in N. by vm_compute in N.
Defined.

(** mspace_free is total and correct on every block in use: it returns, the invariant
    holds again with exactly that block out of use, and the contents of the other
    blocks are unchanged.  Releasing the null pointer does nothing. *)
Theorem mspace_free_correct s cs : inv s cs -> mspace_free s 0 = Ret s /\
  forall r z, used s cs !! (r - 16) = Some z ->
    exists s' cs', mspace_free s r = Ret s' /\ inv s' cs' /\ same_space s s' /\ used s' cs' = delete (r - 16) (used s cs) /\
      kept (delete (r - 16) (used s cs)) (mem s) (mem s').
Proof.
  intros I. split; [done |]. intros r z E. destruct (mspace_free_ok s cs (r - 16) z I E) as (s' & F & cs' & R). replace (r - 16 + 16) with r in F by lia. by exists s', cs'.
Qed.

Lemma mspace_free_correct_witness : exists s r s1 s2 cs, kernel_space = Some s /\ mspace_malloc s 100 = Ret (r, s1) /\ mspace_free s1 r = Ret s2 /\
  inv s2 cs /\ used s2 cs = ∅.
Proof.
  destruct kernel_space_ok as (s & E & I & U & _ & _ & T). destruct (mspace_malloc_ok s [] 100 I) as (r & s1 & M & R); [done |].
  destruct R as [(_ & _ & _ & _ & N) | A]; [rewrite T in N; by vm_compute in N |]. destruct (allocated_block s [] 100 r s1 I ltac:(done) A) as (cs1 & I1 & _ & U1 & _).
  destruct (proj2 (mspace_free_correct s1 cs1 I1) r (request2size 100)) as (s2 & cs & F & I2 & _ & U2 & _); [rewrite U1; apply lookup_insert_eq |].
  exists s, r, s1, s2, cs. split_and!; try done. by rewrite U2, U1, U, delete_insert_id.
Defined.

(** mspace_realloc is total and correct on every block in use: the result is a block with room
    for the request that has the first bytes of the old one, in place or somewhere else, and
    the other blocks keep their contents; or it is 0, nothing is changed, and the request
    was too large or neither a free chunk nor the top had room. *)
Theorem mspace_realloc_correct s cs r z bytes : inv s cs -> used s cs !! (r - 16) = Some z -> 0 <= bytes < 2 ^ 64 ->
  exists r' s', mspace_realloc s r bytes = Ret (r', s') /\
    ((r' = 0 /\ s' = s /\ (MAX_REQUEST <= bytes \/ no_room s cs (request2size bytes))) \/
     exists cs', inv s' cs' /\ same_space s s' /\ used s' cs' = <[r' - 16 := request2size bytes]> (delete (r - 16) (used s cs)) /\
       kept (delete (r - 16) (used s cs)) (mem s) (mem s') /\ forall i, 0 <= i < Z.min (z - 8) bytes -> mem s' (r' + i) = mem s (r + i)).
Proof.
  intros I E Hb. destruct (mspace_realloc_ok s cs (r - 16) z bytes I E Hb) as (r' & s' & R & [N | (G & cs' & I' & SS & _ & EU & K & Dt)]); replace (r - 16 + 16) with r in * by lia;
    exists r', s'; (split; [done |]); [by left | right]. exists cs'. split_and!; try done; try apply SS. intros i Hi. apply Dt. destruct (request_size bytes ltac:(lia)) as (_ & ? & _). lia.
Qed.

Lemma mspace_realloc_correct_witness : exists s r s1 r' s2, kernel_space = Some s /\ mspace_malloc s 100 = Ret (r, s1) /\ mspace_realloc s1 r 5000 = Ret (r', s2) /\
  (r' = 0 \/ forall i, 0 <= i < 100 -> mem s2 (r' + i) = mem s1 (r + i)).
Proof.
  destruct kernel_space_ok as (s & E & I & U & _ & _ & T). destruct (mspace_malloc_ok s [] 100 I) as (r & s1 & M & R); [done |].
  destruct R as [(_ & _ & _ & _ & N) | A]; [rewrite T in N; by vm_compute in N |]. destruct (allocated_block s [] 100 r s1 I ltac:(done) A) as (cs1 & I1 & _ & U1 & _).
  destruct (mspace_realloc_correct s1 cs1 r (request2size 100) 5000 I1) as (r' & s2 & F & G); [rewrite U1; apply lookup_insert_eq | done |].
  exists s, r, s1, r', s2. split_and!; try done. destruct G as [(-> & _) | (cs & _ & _ & _ & _ & Dt)]; [by left | right]. intros i Hi. apply Dt. change (request2size 100) with 128. lia.
Defined.

(** C12. mspace_memalign: for an alignment up to 2^63 it returns, either 0 with nothing changed or a
    new block with room for the request, at a multiple of a power of two that is not below
    the alignment.  For a larger alignment it never returns, whatever the number of rounds
    of its loop: the power of two overflows to zero. *)
Theorem mspace_memalign_correct s cs al bytes : inv s cs -> 0 <= al < 2 ^ 64 -> 0 <= bytes < 2 ^ 64 ->
  (al <= 2 ^ 63 -> exists r s', mspace_memalign s al bytes = Ret (r, s') /\
    ((r = 0 /\ s' = s) \/
     exists k cs', 0 <= k /\ al <= 2 ^ k /\ (2 ^ k | r) /\ inv s' cs' /\ same_space s s' /\ used s' cs' = <[r - 16 := request2size bytes]> (used s cs) /\
       kept (used s cs) (mem s) (mem s') /\ r + bytes <= seg_base s + seg_size s /\ forall q z, used s cs !! q = Some z -> r + bytes <= q + 16 \/ q + z + 8 <= r)) /\
  (2 ^ 63 < al -> (forall rounds, round_up rounds (Z.shiftl MALLOC_ALIGNMENT 1) al = OutOfFuel) /\ mspace_memalign s al bytes = OutOfFuel).
Proof.
  intros I Ha Hb. split; [| intros G; apply memalign_hangs; lia]. intros G. destruct (mspace_memalign_ok s cs al bytes I ltac:(lia) Hb) as (r & s' & E & [N | (Gb & (k & K1 & K2 & K3) & A)]);
    exists r, s'; (split; [done |]); [by left | right]. destruct (allocated_block s cs bytes r s' I ltac:(lia) A) as (cs' & I' & SS & EU & K & _ & _ & Hr & Hd).
  exists k, cs'. split_and!; try done; try apply SS.
Qed.

Lemma mspace_memalign_correct_witness : exists s, kernel_space = Some s /\ (exists r s', mspace_memalign s 4096 100 = Ret (r, s')) /\ mspace_memalign s (2 ^ 63 + 1) 100 = OutOfFuel.
Proof.
  destruct kernel_space_ok as (s & E & I & _). exists s. split; [done |]. split.
  - destruct (proj1 (mspace_memalign_correct s [] 4096 100 I ltac:(done) ltac:(done)) ltac:(done)) as (r & s' & M & _). by exists r, s'.
  - apply (proj2 (mspace_memalign_correct s [] (2 ^ 63 + 1) 100 I ltac:(done) ltac:(done))). done.
Defined.

(** C13. The search of tmalloc_large is a best-fit search: in any trie of free chunks it ends
    within the fuel and finds, if there is a large chunk with room for [nb], a smallest
    such chunk, and otherwise none. *)
Theorem best_large_correct s cs nb : inv s cs -> 256 <= nb < 2 ^ 64 ->
  exists rs v, best_large s nb = Ret (rs, v) /\
    ((v = 0 /\ forall q z, cmap Binned (first s) cs !! q = Some z -> z < nb) \/
     (cmap Binned (first s) cs !! v = Some (rs + nb) /\ nb <= rs + nb /\ forall q z, cmap Binned (first s) cs !! q = Some z -> nb <= z -> rs + nb <= z)).
Proof.
  intros (L & B & V) Hn. destruct (best_large_ok s _ nb B Hn) as (rs & v & E & Bf & Best). exists rs, v. split; [done |]. destruct Bf as [[-> ->] | (Ev & Hr & Hz)].
  - left. split; [done |]. intros q z Eq. destruct (wf_chunk _ _ (proj1 B) q z Eq) as (_ & _ & _ & Hz & _). destruct (Z_lt_le_dec z nb) as [| G]; [done |]. pose proof (Best q z Eq ltac:(lia) G). lia.
  - right. split_and!; [done | lia |]. intros q z Eq G. pose proof (Best q z Eq ltac:(lia) G). lia.
Qed.

(** Two blocks, of which the first is released. *)
Definition sample_run : outcome mstate :=
  match kernel_space with
  | Some s => '(a, s) ← mspace_malloc s 1000; '(b, s) ← mspace_malloc s 100; mspace_free s a
  | None => ABORT
  end.

Lemma sample_inv : exists s cs, sample_run = Ret s /\ inv s cs.
Proof.
  destruct kernel_space_ok as (s & E & I & U & _ & _ & T). unfold sample_run. rewrite E.
  destruct (mspace_malloc_ok s [] 1000 I) as (a & s1 & -> & R); [done |]. destruct R as [(_ & _ & _ & _ & N) | A]; [rewrite T in N; by vm_compute in N |].
  destruct (allocated_block s [] 1000 a s1 I ltac:(done) A) as (cs1 & I1 & _ & U1 & _). cbn [mbind outcome_bind].
  destruct (malloc_any s1 cs1 100 I1) as (b & s2 & -> & R); [done |]. cbn [mbind outcome_bind].
  assert (exists cs2, inv s2 cs2 /\ used s2 cs2 !! (a - 16) = Some (request2size 1000)) as (cs2 & I2 & E2).
  { destruct R as [(_ & -> & _) | (_ & cs2 & p & _ & I2 & _ & Np & U2 & _)]; [exists cs1; split; [done |]; rewrite U1; apply lookup_insert_eq |].
    exists cs2. split; [done |]. rewrite U2, lookup_insert_ne; [rewrite U1; apply lookup_insert_eq |]. intros ->. by rewrite U1, lookup_insert_eq in Np. }
  destruct (mspace_free_ok s2 cs2 (a - 16) _ I2 E2) as (s3 & F & cs3 & I3 & _). replace (a - 16 + 16) with a in F by lia. by exists s3, cs3.
Qed.

Lemma sample_best : (s ← sample_run; best_large s 512) = Ret (512, 512 * GiB + 976).
Proof. vm_compute. reflexivity. Qed.

#[local] Opaque sample_run.

Lemma best_large_correct_witness : exists s cs, sample_run = Ret s /\ inv s cs /\ best_large s 512 = Ret (512, 512 * GiB + 976) /\ cmap Binned (first s) cs !! (512 * GiB + 976) = Some 1024.
Proof.
  destruct sample_inv as (s & cs & E & I). destruct (best_large_correct s cs 512 I) as (rs & v & B & R); [lia |]. exists s, cs.
  pose proof sample_best as S. rewrite E in S. cbn [mbind outcome_bind] in S. rewrite B in S. injection S as -> ->. split; [exact E |]. split; [exact I |]. split; [exact B |].
  destruct R as [[N _] | [R _]]; [lia | exact R].
Defined.

End Space.
