(* ===== verification/KernelHeap.v ===== *)
(** * The heap of the kernel: malloc over dlmalloc over demand-paged memory

    dlmalloc implements the interface [MspaceOps] of the memory manager.  Its code runs over
    demand-paged memory, so every operation comes with the addresses of the heap's space
    that it accesses, whichever they are, and faults their pages in.  From the
    initialisation on, whatever the kernel allocates, releases and writes, malloc serves
    every request with blocks that share no byte, neither of virtual nor of physical memory,
    and the machine stops only when the pages or the page tables run out. *)

From S2P Require Import Prelude Utils PhysMem AddressSpace MemManager DlHeap DlFree DlLayout Dlmalloc DlAlloc DlRealloc DlSpace.

Module KernelHeap.
Import Chunk Free Layout Alloc Realloc Space VirtualAllocator MemManager.

(** dlmalloc over the memory [m0], which may hold anything. *)
Definition dlmalloc (m0 : ram) : MspaceOps mstate := {|
  create_mspace_with_base base cap := Mspace.create_mspace_with_base m0 base cap;
  mspace_malloc := Mspace.mspace_malloc;
  mspace_memalign := Mspace.mspace_memalign;
  mspace_calloc := Mspace.mspace_calloc;
  mspace_realloc := Mspace.mspace_realloc;
  mspace_free := Mspace.mspace_free |}.

Section Heap.
Variable m0 : ram.
#[local] Existing Instance dlmalloc.
#[local] Instance ops : MspaceOps mstate := dlmalloc m0.

(** The kernel serves its clients; [accs] are the addresses that the allocator accesses
    meanwhile, a write to a block accesses its address. *)
Definition kserve (s : t (mspace := mstate)) (accs : list Z) (q : request) : outcome (Z * t (mspace := mstate)) :=
  match q with
  | QMalloc bytes => malloc s accs bytes
  | QCalloc n e => calloc s accs n e
  | QMemalign al bytes => memalign s accs al bytes
  | QRealloc r bytes => realloc s accs r bytes
  | QFree r => s' ← free s accs r; Ret (0, s')
  | QWrite x v => with_mspace s accs (fun ms => Ret (0, set_mem ms (poke (mem ms) x v)))
  end.

Definition in_space (v : Z) : Prop := GetSharedSpace <= v < GetSharedSpace + GetSpaceSize.

(** The accesses of a request are in the space of the heap, those of a write at its address. *)
Definition accesses (q : request) (accs : list Z) : Prop :=
  Forall in_space accs /\ match q with QWrite x _ => x ∈ accs | _ => True end.

Lemma space_demand v : in_space v -> demand v.
Proof. unfold in_space. change GetSharedSpace with (512 * 1024 ^ 3). change GetSpaceSize with (256 * 1024 ^ 3). unfold demand. change GiB with (1024 ^ 3). lia. Qed.

Lemma spaces_demand accs : Forall in_space accs -> Forall demand accs.
Proof. intros F. eapply Forall_impl; [exact F | exact space_demand]. Qed.

(** The heap [h] is in the shared space. *)
Definition kheap (s : t (mspace := mstate)) (h : heap) : Prop :=
  malloc_available_ s = true /\ exists ms, default_mspace_ s = Some ms /\ implements ms h /\ seg_base ms = GetSharedSpace /\ seg_size ms = GetSpaceSize.

Lemma kserve_serve s accs ms q : malloc_available_ s = true -> default_mspace_ s = Some ms ->
  kserve s accs q = s ← touches s accs; '(r, ms') ← serve ms q; Ret (r, mk (pmm_ s) (stack_alloc_next_ s) (addr_space_ s) (Some ms') (malloc_available_ s)).
Proof.
  intros E1 E2. destruct q; cbn [kserve serve]; unfold malloc, calloc, memalign, realloc, free, with_mspace; rewrite E1, E2; try done.
  cbn [rt_assert mbind outcome_bind]. destruct (touches s accs) as [s1 | |]; try done. cbn [mbind outcome_bind].
  change (mspace_free ms r) with (Mspace.mspace_free ms r). by destruct (Mspace.mspace_free ms r).
Qed.

(** A legal request is served by a step of the heap, once its accesses were. *)
Lemma kserve_ok s accs s1 h q : kheap s h -> legal h q -> touches s accs = Ret s1 ->
  exists r s' h', kserve s accs q = Ret (r, s') /\ heap_step h q r h' /\ kheap s' h' /\
    pmm_ s' = pmm_ s1 /\ addr_space_ s' = addr_space_ s1 /\ stack_alloc_next_ s' = stack_alloc_next_ s.
Proof.
  intros (E1 & ms & E2 & Im & B1 & B2) L Et. destruct (serve_ok ms h q Im L) as (r & ms' & h' & E & Hs & Im' & (_ & S1 & S2)).
  rewrite (kserve_serve s accs ms q E1 E2), Et. cbn [mbind outcome_bind]. rewrite E. cbn [mbind outcome_bind].
  destruct (touches_rest _ _ _ Et) as (R1 & R2 & R3). eexists _, _, h'. split; [reflexivity |]. split; [done |].
  split; [| done]. split; [cbn; congruence |]. exists ms'. split; [done |]. split; [done |]. split; congruence.
Qed.

(** A request whose accesses stop the machine stops it. *)
Lemma kserve_stops s accs h q why : kheap s h -> touches s accs = Fatal why -> kserve s accs q = Fatal why.
Proof. intros (E1 & ms & E2 & _) Et. by rewrite (kserve_serve s accs ms q E1 E2), Et. Qed.

(** ** Blocks are in demand-paged memory *)

Lemma heap_region s h r n : kheap s h -> blocks h !! r = Some n -> GetSharedSpace < r /\ r + n <= GetSharedSpace + GetSpaceSize.
Proof.
  intros (_ & ms & _ & (cs & I & Eb & _) & B1 & B2) E. rewrite Eb in E. apply heap_of_Some in E. pose proof I as (L & _ & _). pose proof L as (Ba & S & T & _).
  pose proof (cmap_range _ _ _ _ _ S E) as (P1 & P2 & P3 & _). destruct Ba as (_ & H1 & H2 & _ & _ & _ & H6 & _ & H8). change TOP_FOOT_SIZE with 112 in H6. rewrite B1 in *. rewrite B2 in *.
  unfold first, header_size in *. lia.
Qed.

Lemma shared_demand r n v : GetSharedSpace < r /\ r + n <= GetSharedSpace + GetSpaceSize -> r <= v < r + n -> demand v.
Proof. change GetSharedSpace with (512 * 1024 ^ 3). change GetSpaceSize with (256 * 1024 ^ 3). unfold demand. change GiB with (1024 ^ 3). lia. Qed.

Lemma heap_apart s h r n r' n' : kheap s h -> blocks h !! r = Some n -> blocks h !! r' = Some n' -> r <> r' -> r + n <= r' \/ r' + n' <= r.
Proof.
  intros (_ & ms & _ & (cs & I & Eb & _) & _) E E' N. rewrite Eb in E, E'. apply heap_of_Some in E, E'.
  destruct (cmap_apart _ _ _ _ _ _ _ _ (proj1 (proj2 (proj1 I))) E E') as [(? & _) | ?]; lia.
Qed.

(** ** Runs *)

(** A step of the machine: a request of the kernel, or what the memory manager does. *)
Inductive kstep : t (mspace := mstate) * gset Z * heap -> t (mspace := mstate) * gset Z * heap -> Prop :=
  | k_serve s d h q accs r s' h' : legal h q -> accesses q accs -> kserve s accs q = Ret (r, s') -> heap_step h q r h' -> kheap s' h' -> kstep (s, d, h) (s', d, h')
  | k_memory s d h s' d' : step (s, d) (s', d') -> kstep (s, d, h) (s', d', h).

Lemma step_mspace (s s' : t (mspace := mstate)) d d' : step (s, d) (s', d') -> default_mspace_ s' = default_mspace_ s /\ malloc_available_ s' = malloc_available_ s.
Proof.
  intros St. inversion St as [? ? va ? _ E | ? ? vs ? E | ? ? p ? E]; subst.
  - by apply touch_rest in E as (_ & ?).
  - unfold AllocStack in E. apply bind_Ret in E as (s2 & E & E'). injection E' as _ <-. by apply touch_rest in E as (_ & ?).
  - unfold AllocPage32 in E. apply bind_Ret in E as ([q pmm] & _ & E'). by injection E' as <- <-.
Qed.

Definition kinv (st : t (mspace := mstate) * gset Z * heap) : Prop := run_inv st.1 /\ kheap st.1.1 st.2.

Lemma kstep_inv st st' : kinv st -> kstep st st' -> kinv st'.
Proof.
  intros [R K] St. inversion St as [s d h q accs r s' h' L [A _] E Hs K' | s d h s' d' E]; subst; cbn [fst snd] in *.
  - split; [| done]. pose proof K as (M & ms & Em & _). rewrite (kserve_serve s accs ms q M Em) in E.
    destruct (touches s accs) as [s1 | |] eqn:Et; try done. cbn [mbind outcome_bind] in E.
    apply bind_Ret in E as ([r1 ms'] & _ & E'). injection E' as <- <-.
    assert (run_inv (s1, d)) as R1.
    { eapply run_steps; [exact R |]. eapply touches_step; [| exact Et]. eapply Forall_impl; [exact (spaces_demand _ A) |].
      intros v [Hv _]. unfold GiB in *. lia. }
    destruct R1 as (pg & a & [I1 I2 I3 I4 I5] & D & N). exists pg, a. cbn in *. split_and!; try done.
  - split; [by eapply run_step_inv |]. destruct (step_mspace _ _ _ _ E) as [E1 E2]. destruct K as (M & ms & E0 & K). cbn. split; [by rewrite E2 |]. exists ms. by rewrite E1.
Qed.

Lemma krun_inv st st' : kinv st -> rtc kstep st st' -> kinv st'.
Proof. intros I R. induction R; eauto using kstep_inv. Qed.

(** ** The heap after the initialisation *)

Lemma init_heap pmm a as_ (Ha : AddressSpaceX64.new = Ret as_) (Hp : PhysicalAllocator.refines pmm a) :
  exists s1 ms pg, inv s1 pg a /\ AddressSpaceX64.tables_taken_ (addr_space_ s1) = 3 /\ Mspace.create_mspace_with_base m0 GetSharedSpace GetSpaceSize = Some ms /\
    (forall accs, InitSubsystems (mk pmm kStacks as_ None false) 0 accs = (s2 ← touches s1 accs; Ret (AddressSpaceX64.zone_base, ready s2 ms))) /\
    forall accs s2, Forall in_space accs -> touches s1 accs = Ret s2 -> kinv (ready s2 ms, ∅, mkHeap ∅ (mem ms)).
Proof.
  destruct (create_inv m0 GetSharedSpace GetSpaceSize) as (ms & Hc & I & EU & B1 & B2 & _); [by exists (16 * GiB) | by exists (8 * GiB) | done.. |].
  destruct (InitSubsystems_spec (H := ops) pmm a as_ ms Ha Hp Hc) as [_ (s1 & pg & Hi & _ & _ & Hn & Ht & _ & E & _)]. exists s1, ms, pg. split_and!; try done.
  intros accs s2 A Et. destruct (touches_spec accs s1 pg a Hi (spaces_demand _ A)) as [(s2' & pg2 & a2 & Et' & [I2 (R1 & _) _ _ _ _ _]) | (why & Et' & _)]; rewrite Et in Et'; [| done].
  injection Et' as <-. split.
  - exists pg2, a2. cbn. split_and!; [by apply inv_ready | intros x Hx; by apply elem_of_empty in Hx | by rewrite R1, Hn].
  - split; [done |]. exists ms. split_and!; try done. exists []. by rewrite EU.
Qed.

(** The first block of the kernel. *)
Lemma first_malloc : exists ms, Mspace.create_mspace_with_base m0 GetSharedSpace GetSpaceSize = Some ms /\
  forall n, 0 <= n < 2 ^ 32 -> exists r ms', Mspace.mspace_malloc ms n = Ret (r, ms') /\ 0 < r.
Proof.
  destruct (create_inv m0 GetSharedSpace GetSpaceSize) as (ms & Hc & I & _ & _ & _ & T); [by exists (16 * GiB) | by exists (8 * GiB) | done.. |]. exists ms. split; [done |].
  intros n Hn. assert (n < MAX_REQUEST) as Hm by (change MAX_REQUEST with (2 ^ 64 - 128); lia).
  destruct (mspace_malloc_ok ms [] n I ltac:(lia)) as (r & ms' & E & [(_ & _ & _ & _ & N) | A]).
  - destruct (request_size n ltac:(lia)) as (_ & _ & Hs & _). rewrite T in N. change GetSpaceSize with (256 * 1024 ^ 3) in N. lia.
  - exists r, ms'. split; [done |]. destruct A as (cs' & p & -> & I' & _ & _ & EU & _). destruct (used_block ms' cs' p (request2size n) I') as (_ & _ & P & _); [rewrite EU; apply lookup_insert_eq | lia].
Qed.

(** C10. The heap of the kernel, from the initialisation on and through every interleaving of
    requests for memory, writes into blocks, page faults, stack and DMA allocations, whatever
    addresses of its space the allocator accesses for each of them.  Every legal request is
    served by a step of the abstract heap, with all that it accessed backed by memory, or the
    machine stops; it stops, in the initialisation too, only if there are fewer free pages
    than pages that the accesses need and that are not mapped, or fewer than two page
    tables for each of these.  Two bytes of different blocks that are backed by memory have
    different physical addresses, none of them on a page given out for DMA. *)
Theorem kernel_heap_sound pmm a as_ accs0 (Ha : AddressSpaceX64.new = Ret as_) (Hp : PhysicalAllocator.refines pmm a) (A0 : Forall in_space accs0) :
  match InitSubsystems (mk pmm kStacks as_ None false) 0 accs0 with
  | OutOfFuel => False
  | Fatal _ => (size (PhysicalAllocator.free_pages a) < pages_of accs0)%nat \/ AddressSpaceX64.kMaxTables < 3 + 2 * Z.of_nat (pages_of accs0)
  | Ret (cr3, s0) => cr3 = AddressSpaceX64.zone_base /\ exists ms0, default_mspace_ s0 = Some ms0 /\
    forall s d h, rtc kstep (s0, ∅, mkHeap ∅ (mem ms0)) (s, d, h) ->
      (forall q accs, legal h q -> accesses q accs ->
         match kserve s accs q with
         | Ret (r, s') => exists h', heap_step h q r h' /\ kstep (s, d, h) (s', d, h') /\
             forall v, v ∈ accs -> exists y, AddressSpaceX64.VirtualToPhysical (addr_space_ s') v = Ret y /\ y <> 0
         | Fatal _ => exists pg a', inv s pg a' /\ short s pg a' accs
         | OutOfFuel => False
         end) /\
      (forall r n r' n' v v' x x', blocks h !! r = Some n -> blocks h !! r' = Some n' -> r <> r' -> r <= v < r + n -> r' <= v' < r' + n' ->
         AddressSpaceX64.VirtualToPhysical (addr_space_ s) v = Ret x -> x <> 0 -> AddressSpaceX64.VirtualToPhysical (addr_space_ s) v' = Ret x' -> x' <> 0 ->
         x <> x' /\ x / 2 ^ 21 * 2 ^ 21 ∉ d)
  end.
Proof.
  destruct (init_heap pmm a as_ Ha Hp) as (s1 & ms0 & pg0 & I1 & Et1 & _ & E & I0). rewrite E. pose proof (missing_le pg0 accs0) as Le.
  destruct (touches_spec accs0 s1 pg0 a I1 (spaces_demand _ A0)) as [(s2 & _ & _ & Et & _) | (why & Et & Hs)]; rewrite Et; cbn [mbind outcome_bind].
  2: { unfold short in Hs. rewrite Et1 in Hs. destruct Hs; [left | right]; lia. }
  split; [done |]. exists ms0. split; [done |]. intros s d h R.
  destruct (krun_inv _ _ (I0 accs0 s2 A0 Et) R) as [Ri K]. cbn [fst snd] in *. split.
  - intros q accs L A. pose proof Ri as (pg & a1 & I & _). cbn [fst] in I.
    destruct (touches_spec accs s pg a1 I (spaces_demand _ (proj1 A))) as [(s3 & pg3 & a3 & Et3 & Fa) | (why & Et3 & Hs)].
    + destruct (kserve_ok s accs s3 h q K L Et3) as (r & s' & h' & Es & Hh & K' & _ & Ea & _). rewrite Es. exists h'. split; [done |].
      split; [by eapply k_serve |]. intros v Hv. rewrite Ea. destruct (f_mapped _ _ _ _ _ _ _ Fa v Hv) as [x Ex].
      eapply backed; [exact (f_inv _ _ _ _ _ _ _ Fa) | | exact Ex]. apply space_demand. by apply (proj1 (Forall_forall _ _) (proj1 A)).
    + rewrite (kserve_stops s accs h q why K Et3). by exists pg, a1.
  - intros r n r' n' v v' x x' E1 E2 N Hv Hv' V1 X1 V2 X2. pose proof (heap_region s h r n K E1) as R1. pose proof (heap_region s h r' n' K E2) as R2. pose proof (heap_apart s h r n r' n' K E1 E2 N).
    assert (demand v) as Dv by (by apply (shared_demand r n)). assert (demand v') as Dv' by (by apply (shared_demand r' n')).
    destruct (isolation s d v v' x x' Ri Dv Dv' V1 X1 V2 X2) as (_ & H1 & H2). split; [| exact H2]. intros Ex. specialize (H1 Ex). lia.
Qed.

End Heap.

(** ** A machine with three free pages *)

#[local] Instance zeros : MspaceOps mstate := dlmalloc (fun _ => 0).
Definition unbooted0 : t (mspace := mstate) :=
  mk PhysicalAllocator.small kStacks (default AddressSpaceX64.fresh (result AddressSpaceX64.new)) None false.
Definition booted0 : t (mspace := mstate) :=
  match InitSubsystems unbooted0 0 [GetSharedSpace + 16] with Ret (_, s) => s | _ => unbooted0 end.
Definition accs0 (k : Z) : list Z := map (fun i => GetSharedSpace + 2 ^ 21 * i) (seqZ 0 k).

Lemma accs0_space : accesses (QMalloc 1000) (accs0 3) /\ accesses (QMalloc 1000) (accs0 4).
Proof. split; (split; [| done]); apply (bool_decide_unpack _); vm_compute; exact I. Qed.

Definition served0 (k : Z) : bool :=
  match kserve (fun _ => 0) booted0 (accs0 k) (QMalloc 1000) with Ret _ => true | _ => false end.

Lemma served0_eq : served0 3 = true /\ served0 4 = false.
Proof. split; vm_compute; reflexivity. Qed.

(** The first page of the space was accessed; a request that accesses two more pages is served, one that accesses
    three more stops the machine. *)
Lemma kernel_heap_sound_witness :
  (exists r s' h h', kserve (fun _ => 0) booted0 (accs0 3) (QMalloc 1000) = Ret (r, s') /\ heap_step h (QMalloc 1000) r h') /\
  (exists why pg a, kserve (fun _ => 0) booted0 (accs0 4) (QMalloc 1000) = Fatal why /\ short booted0 pg a (accs0 4)).
Proof.
  pose proof (kernel_heap_sound (fun _ => 0) PhysicalAllocator.small PhysicalAllocator.small_pages (default AddressSpaceX64.fresh (result AddressSpaceX64.new))
    [GetSharedSpace + 16] eq_refl PhysicalAllocator.small_refines ltac:(apply (bool_decide_unpack _); vm_compute; exact I)) as W.
  change (mk _ _ _ None false) with unbooted0 in W.
  destruct served0_eq as [S3 S4]. unfold served0 in S3, S4. revert S3 S4. unfold booted0.
  destruct (InitSubsystems unbooted0 0 [GetSharedSpace + 16]) as [[c s0] | |]; [| destruct W as [W | W]; vm_compute in W; [lia | done] | destruct W].
  destruct W as (_ & ms0 & _ & W). destruct (W s0 ∅ _ (rtc_refl _ _)) as [Q _]. intros S3 S4.
  split.
  - pose proof (Q (QMalloc 1000) (accs0 3) ltac:(unfold legal, in_range; lia) (proj1 accs0_space)) as P.
    destruct (kserve (fun _ => 0) s0 (accs0 3) (QMalloc 1000)) as [[r s'] | |].
    + destruct P as (h' & Hh & _). exists r, s', (mkHeap ∅ (mem ms0)), h'. exact (conj eq_refl Hh).
    + exfalso. discriminate S3.
    + destruct P.
  - pose proof (Q (QMalloc 1000) (accs0 4) ltac:(unfold legal, in_range; lia) (proj2 accs0_space)) as P.
    destruct (kserve (fun _ => 0) s0 (accs0 4) (QMalloc 1000)) as [[r s'] | why |].
    + exfalso. discriminate S4.
    + destruct P as (pg & a & _ & Hs). exists why, pg, a. exact (conj eq_refl Hs).
    + destruct P.
Defined.

End KernelHeap.
