(* ===== verification/Initrd.v ===== *)
(** * kernel/initrd.h, .cc: the file archive the kernel boots from

    [PackageReader] finds the archive header in the boot module, inflates the
    archive (the inflater, tinfl, and [malloc] are parameters, instantiated in Boot) and returns its
    records one by one; [Initrd::Init] checks each file and builds the list of
    files that [Get] searches.  The theorems: [Init] terminates on any input,
    keeps only data that passes its checksum, and reads back every well-formed
    archive. *)

From S2P Require Import Prelude Utils Crc32.

(** A [const char*]: a literal of the program or an address ([Ptr 0] is null). *)
Inductive cptr : Type := Lit (s : list Z) | Ptr (p : Z).

(** A record name has at most 65535 bytes. *)
Definition kNameFuel : nat := Z.to_nat 65536.

Definition cptr_string (m : ram) (c : cptr) : outcome (list Z) :=
  match c with Lit s => Ret s | Ptr p => cstr m p kNameFuel end.

Module PackageReader.
Import Utils.

(** kernel/initrd.cc:21-21, PACKAGE_MAGIC. *)
Definition PACKAGE_MAGIC : Z := 0xCAFECAFE.

(** kernel/version.h:26-30, Version::getVersionNumber, which includes
    version-autogenerated.h. *)
Definition getVersionNumber : Z := 2.

(** kernel/initrd.h:24-28, PackageFileType. *)
Definition DEFAULT : Z := 0xAA.
Definition LINK : Z := 0xBB.

(** kernel/initrd.h:64-70, PackageFile. *)
Record PackageFile : Type := mkFile {
  is_link : bool; name : cptr; buf : Z; len : Z; content : Z }.

(** kernel/initrd.h:51-52, PackageFile::PackageFile. *)
Definition PackageFile_empty : PackageFile := mkFile false (Ptr 0) 0 0 0.

(** kernel/initrd.h:63-63, PackageFile::empty. *)
Definition empty (f : PackageFile) : bool := (buf f =? 0) && negb (is_link f).

(** kernel/initrd.h:82-86, PackageReader members. *)
Record t : Type := mk {
  next_ : Z; files_left_ : Z; runtime_index_name_ : cptr; app_index_name_ : cptr }.

Definition set_next (r : t) (p : Z) : t :=
  mk p (files_left_ r) (runtime_index_name_ r) (app_index_name_ r).

(** kernel/initrd.cc:121-125, PackageReader::ReadUint32. *)
Definition ReadUint32 (m : ram) (r : t) : Z * t :=
  (ReadUint32BE m (next_ r), set_next r (next_ r + 4)).

(** kernel/initrd.cc:127-137, PackageReader::ReadString. *)
Definition ReadString (m : ram) (r : t) : cptr * t :=
  let len := ReadUint16BE m (next_ r) in
  let str := next_ r + 2 in
  if negb (m (str + len) =? 0) then (Ptr 0, r)
  else (Ptr str, set_next r (next_ r + (len + 3))).

(** kernel/initrd.cc:139-143, PackageReader::Finish. *)
Definition Finish (r : t) : PackageFile * t :=
  (PackageFile_empty, mk 0 0 (runtime_index_name_ r) (app_index_name_ r)).

(** kernel/initrd.cc:91-119, PackageReader::Next. *)
Definition Next (m : ram) (r : t) : PackageFile * t :=
  if (0 =? files_left_ r) || (0 =? next_ r) then Finish r
  else
    let '(type, r) := ReadUint32 m r in
    if negb (DEFAULT =? type) && negb (LINK =? type) then Finish r
    else
      let '(len, r) := ReadUint32 m r in
      let '(name, r) := ReadString m r in
      let '(is_link, content, buf, r) :=
        if LINK =? type then
          let '(content, r) := ReadUint32 m r in (true, content, 0, r)
        else
          let '(content, r) := ReadUint32 m r in
          (false, content, next_ r, set_next r (next_ r + len)) in
      (mkFile is_link name buf len content,
       mk (next_ r) (u32 (files_left_ r - 1)) (runtime_index_name_ r) (app_index_name_ r)).

Section Reader.
(** [malloc], and the inflater: the output of decompressing [in_len] bytes at
    [in_ptr] into a buffer of [out_len] bytes, or [None] on failure. *)
Variable malloc : Z -> Z.
Variable tinfl_decompress_mem_to_mem : ram -> Z -> Z -> Z -> option (list Z).

(** kernel/initrd.cc:29-30, the initial members of PackageReader::PackageReader. *)
Definition initial : t := mk 0 0 (Lit []) (Lit []).

(** kernel/initrd.cc:49-49, the test for the letters PCKG. *)
Definition is_pckg (m : ram) (pos : Z) : bool :=
  (m pos =? 80) && (m (pos + 1) =? 67) && (m (pos + 2) =? 75) && (m (pos + 3) =? 71).

(** kernel/initrd.cc:53-87, the part of PackageReader::PackageReader after the
    header was found; the result has the memory with the inflated archive. *)
Definition open_archive (m : ram) (pos len : Z) : t * ram :=
  let old_count := ReadUint32BE m (pos + 4) in
  if negb (old_count =? 0) then (initial, m)
  else
    let kernelVer := ReadUint32BE m (pos + 8) in
    if negb (kernelVer =? getVersionNumber) then (initial, m)
    else
      let left := ReadUint32BE m (pos + 12) in
      let stuck := mk 0 left (Lit []) (Lit []) in
      let inflated_size := ReadUint32BE m (pos + 16) in
      let ptr := malloc inflated_size in
      if ptr =? 0 then (stuck, m)
      else
        match tinfl_decompress_mem_to_mem m (pos + 20) (u64 (len - 20)) inflated_size with
        | None => (stuck, m)
        | Some out =>
            let m := store_bytes m ptr out in
            let '(rt_name, r) := ReadString m (set_next stuck ptr) in
            let '(app_name, r) := ReadString m r in
            (mk (next_ r) left rt_name app_name, m)
        end.

(** kernel/initrd.cc:41-88, the search loop of PackageReader::PackageReader. *)
Fixpoint search (fuel : nat) (m : ram) (pos stop len : Z) : outcome (t * ram) :=
  if pos <? stop then
    match fuel with
    | O => OutOfFuel
    | S n =>
        let value := ReadUint32BE m pos in
        let pos := pos + 4 in
        if negb (PACKAGE_MAGIC =? value) then search n m pos stop len
        else if negb (is_pckg m pos) then search n m pos stop len
        else Ret (open_archive m pos len)
    end
  else Ret (initial, m).

(** kernel/initrd.cc:26-89, PackageReader::PackageReader.  The loop advances by
    four bytes a turn, so [len] turns are enough. *)
Definition new (m : ram) (start len : Z) : outcome (t * ram) :=
  _ ← rt_assert (negb (start =? 0)) "start";
  _ ← rt_assert (len >? 0) "len > 0";
  pos ← AlignPtr start 4;
  search (Z.to_nat len) m pos (start + len) len.

End Reader.
End PackageReader.

Module Initrd.
Import Utils PackageReader.

(** kernel/initrd.h:120-125, InitrdFile. *)
Record InitrdFile : Type := mkInitrdFile {
  _name : cptr; _size : Z; _data : cptr; _is_empty : bool }.

(** kernel/initrd.h:93-97, InitrdFile::InitrdFile. *)
Definition InitrdFile_empty : InitrdFile :=
  mkInitrdFile (Lit [60; 105; 110; 118; 97; 108; 105; 100; 95; 102; 105; 108; 101; 62]) 0 (Lit []) true.

Definition is_null (c : cptr) : bool := match c with Ptr p => p =? 0 | Lit _ => false end.

(** kernel/initrd.h:99-106, InitrdFile::InitrdFile. *)
Definition InitrdFile_new (name : cptr) (size : Z) (data : cptr) : outcome InitrdFile :=
  _ ← rt_assert (negb (is_null name)) "name";
  _ ← rt_assert (negb (is_null data)) "data";
  Ret (mkInitrdFile name size data false).

(** kernel/initrd.h:160-164, Initrd members. *)
Record t : Type := mk {
  files_ : list InitrdFile; runtime_index_name_ : cptr; app_index_name_ : cptr }.

(** kernel/initrd.h:132-136, Initrd::Initrd. *)
Definition new : t := mk [] (Lit []) (Lit []).

(** kernel/initrd.cc:152-171, the loop of Initrd::Init; [file] is the record
    read last. *)
Fixpoint load_files (fuel : nat) (m : ram) (r : PackageReader.t) (file : PackageFile)
  (files : list InitrdFile) : outcome (list InitrdFile) :=
  if empty file then Ret files
  else
    match fuel with
    | O => OutOfFuel
    | S n =>
        if is_link file then
          if content file >=? Z.of_nat (length files) then Ret files
          else
            match files !! Z.to_nat (content file) with
            | None => Fatal "vector index"
            | Some f =>
                x ← InitrdFile_new (name file) (_size f) (_data f);
                let '(file', r') := Next m r in
                load_files n m r' file' (files ++ [x])
            end
        else
          if negb (content file =? CRC32.Compute m (buf file) (len file)) then Ret files
          else
            x ← InitrdFile_new (name file) (len file) (Ptr (buf file));
            let '(file', r') := Next m r in
            load_files n m r' file' (files ++ [x])
    end.

Section Init.
Variable malloc : Z -> Z.
Variable tinfl_decompress_mem_to_mem : ram -> Z -> Z -> Z -> option (list Z).

(** kernel/initrd.cc:145-175, Initrd::Init.  [Next] takes one record off the
    count [files_left_], which is at most 2^32 - 1: the count is enough fuel.
    The result has the memory with the inflated archive. *)
Definition Init (m : ram) (s : t) (buf len : Z) : outcome (t * ram) :=
  _ ← rt_assert (negb (buf =? 0)) "buf";
  _ ← rt_assert (len >? 0) "len > 0";
  '(reader, m) ← PackageReader.new malloc tinfl_decompress_mem_to_mem m buf len;
  let '(file, r) := Next m reader in
  files ← load_files (Z.to_nat (files_left_ reader)) m r file (files_ s);
  Ret (mk files (PackageReader.runtime_index_name_ reader) (PackageReader.app_index_name_ reader), m).

End Init.

(** kernel/initrd.cc:177-180, Initrd::GetByIndex. *)
Definition GetByIndex (s : t) (index : Z) : outcome InitrdFile :=
  _ ← rt_assert (index <? Z.of_nat (length (files_ s))) "index < files_.size()";
  match files_ s !! Z.to_nat index with
  | Some f => Ret f
  | None => Fatal "vector index"
  end.

(** kernel/initrd.cc:182-189, Initrd::Get, on the string [filename]. *)
Fixpoint Get_in (m : ram) (files : list InitrdFile) (filename : list Z) : outcome InitrdFile :=
  match files with
  | [] => Ret InitrdFile_empty
  | file :: files' =>
      s ← cptr_string m (_name file);
      if decide (filename = s) then Ret file else Get_in m files' filename
  end.

(** kernel/initrd.cc:182-189, Initrd::Get. *)
Definition Get (m : ram) (s : t) (filename : list Z) : outcome InitrdFile :=
  Get_in m (files_ s) filename.

(** The bytes at a pointer. *)
Definition bytes_at_cptr (m : ram) (c : cptr) (size : Z) : list Z :=
  match c with Lit s => take (Z.to_nat size) s | Ptr p => CRC32.bytes_at m p (Z.to_nat size) end.

(** ** Termination and integrity *)

Lemma Next_left m r :
  0 <= files_left_ r < 2 ^ 32 ->
  let '(file, r') := Next m r in
  0 <= files_left_ r' /\ (empty file = true \/ files_left_ r' = files_left_ r - 1).
Proof.
  intros Hr. unfold Next. destruct ((0 =? files_left_ r) || (0 =? next_ r)) eqn:E0.
  { simpl. split; [lia | by left]. }
  apply orb_false_iff in E0 as [E0 _]. apply Z.eqb_neq in E0. cbn [ReadUint32].
  destruct (negb _ && negb _); [simpl; split; [lia | by left] |].
  unfold ReadString. destruct (negb _); destruct (LINK =? _); simpl;
    unfold u32; rewrite wrap_small by (red; lia); lia.
Qed.

(** A record that is a file has its buffer right after its checksum. *)
Lemma Next_file m r :
  let file := (Next m r).1 in
  is_link file = false -> empty file = false ->
  content file = ReadUint32BE m (buf file - 4).
Proof.
  unfold Next. destruct ((0 =? files_left_ r) || (0 =? next_ r)); [done |]. cbn [ReadUint32].
  destruct (negb _ && negb _); [done |].
  unfold ReadString. destruct (negb _); destruct (LINK =? _); simpl; intros; try done; f_equal; lia.
Qed.

(** What [Init] knows about the files it keeps: the data passes the checksum
    that the archive stores right before it. *)
Definition checked (m : ram) (f : InitrdFile) : Prop :=
  exists p, p <> 0 /\ _data f = Ptr p /\ CRC32.Compute m p (_size f) = ReadUint32BE m (p - 4).

Lemma InitrdFile_new_Ret name size data x :
  InitrdFile_new name size data = Ret x ->
  x = mkInitrdFile name size data false /\ is_null name = false /\ is_null data = false.
Proof.
  unfold InitrdFile_new. destruct (is_null name), (is_null data); intros [= <-]; done.
Qed.

Lemma InitrdFile_new_total name size data : InitrdFile_new name size data <> OutOfFuel.
Proof. unfold InitrdFile_new. by destruct (is_null name), (is_null data). Qed.

Lemma load_files_total fuel m : forall r file files,
  0 <= files_left_ r < 2 ^ 32 ->
  (empty file = true \/ files_left_ r < Z.of_nat fuel) ->
  load_files fuel m r file files <> OutOfFuel.
Proof.
  induction fuel as [| n IH]; intros r file files Hr Hf; cbn [load_files];
    destruct (empty file) eqn:E; [done | | done |].
  { destruct Hf; [done | lia]. }
  destruct Hf as [Hf | Hf]; [done |].
  assert (forall files', (let '(file', r') := Next m r in load_files n m r' file' files') <> OutOfFuel) as K.
  { intros files'. pose proof (Next_left m r Hr) as L. destruct (Next m r) as [file' r'].
    destruct L as [L1 L2]. destruct L2 as [L2 | L2].
    - destruct n; cbn; by rewrite L2.
    - apply IH; [lia | right; lia]. }
  destruct (is_link file).
  - destruct (content file >=? _); [done |]. destruct (files !! _); [| done].
    pose proof (InitrdFile_new_total (name file) (_size i) (_data i)).
    destruct (InitrdFile_new _ _ _); [apply K | done | done].
  - destruct (negb _); [done |].
    pose proof (InitrdFile_new_total (name file) (len file) (Ptr (buf file))).
    destruct (InitrdFile_new _ _ _); [apply K | done | done].
Qed.

Lemma load_files_checked fuel m : forall r file files out,
  (is_link file = false -> empty file = false -> content file = ReadUint32BE m (buf file - 4)) ->
  Forall (checked m) files ->
  load_files fuel m r file files = Ret out -> Forall (checked m) out.
Proof.
  induction fuel as [| n IH]; intros r file files out Hfile Hf; cbn [load_files];
    destruct (empty file) eqn:E; [by intros [= <-] | done | by intros [= <-] |].
  assert (forall x out, checked m x ->
    (let '(file', r') := Next m r in load_files n m r' file' (files ++ [x])) = Ret out ->
    Forall (checked m) out) as K.
  { intros x out' Hx. pose proof (Next_file m r) as N. destruct (Next m r) as [file' r'].
    apply IH; [done |]. apply Forall_app. auto. }
  destruct (is_link file) eqn:El.
  - destruct (content file >=? _); [by intros [= <-] |].
    destruct (files !! _) as [f |] eqn:Ef; [| done].
    intros (x & (-> & _)%InitrdFile_new_Ret & E2)%bind_Ret. eapply K, E2.
    by apply (Forall_lookup_1 _ _ _ _ Hf) in Ef.
  - destruct (negb _) eqn:Ec; [by intros [= <-] |].
    apply negb_false_iff, Z.eqb_eq in Ec.
    intros (x & (-> & _ & Hn)%InitrdFile_new_Ret & E2)%bind_Ret. eapply K, E2.
    exists (buf file). cbn in *. apply Z.eqb_neq in Hn. split_and!; [done | done |].
    rewrite <- Ec. by apply Hfile.
Qed.

(** ** Archives

    The records of an archive and the bytes that store them. *)
Inductive entry : Type :=
  | EFile (name data : list Z)
  | ELink (name : list Z) (index : Z).

Definition be16 (z : Z) : list Z := [(z / 2 ^ 8) `mod` 2 ^ 8; z `mod` 2 ^ 8].
Definition be32 (z : Z) : list Z :=
  [(z / 2 ^ 24) `mod` 2 ^ 8; (z / 2 ^ 16) `mod` 2 ^ 8; (z / 2 ^ 8) `mod` 2 ^ 8; z `mod` 2 ^ 8].

Definition encode_string (s : list Z) : list Z := be16 (zlen s) ++ s ++ [0].

Definition encode (e : entry) : list Z :=
  match e with
  | EFile n d => be32 DEFAULT ++ be32 (zlen d) ++ encode_string n ++ be32 (CRC32.crc_ref d) ++ d
  | ELink n i => be32 LINK ++ be32 0 ++ encode_string n ++ be32 i
  end.

Definition encode_all (es : list entry) : list Z := concat (map encode es).

(** The files an archive stands for: a link has the data of the file it names. *)
Fixpoint contents (es : list entry) (acc : list (list Z * list Z)) : list (list Z * list Z) :=
  match es with
  | [] => acc
  | EFile n d :: es' => contents es' (acc ++ [(n, d)])
  | ELink n i :: es' => contents es' (acc ++ [(n, snd (default ([], []) (acc !! Z.to_nat i)))])
  end.

(** A name is a C string of at most 65535 bytes. *)
Definition name_ok (n : list Z) : Prop := zlen n < 2 ^ 16 /\ Forall (fun b => b <> 0) n.

#[export] Instance name_ok_dec n : Decision (name_ok n).
Proof. unfold name_ok. apply _. Defined.

(** Links point to earlier records. *)
Fixpoint entries_ok (es : list entry) (count : Z) : Prop :=
  match es with
  | [] => True
  | EFile n d :: es' => name_ok n /\ zlen d < 2 ^ 32 /\ entries_ok es' (count + 1)
  | ELink n i :: es' => name_ok n /\ 0 <= i < count /\ entries_ok es' (count + 1)
  end.

#[export] Instance entries_ok_dec es : forall count, Decision (entries_ok es count).
Proof. induction es as [| [n d | n i] es IH]; intros count; cbn [entries_ok]; apply _. Defined.

Lemma holds_bytes_at m p bs : holds m p bs -> CRC32.bytes_at m p (length bs) = bs.
Proof.
  intros Hh. apply list_eq. intros i. unfold CRC32.bytes_at.
  rewrite list_lookup_fmap. destruct (bs !! i) as [b |] eqn:E.
  - rewrite lookup_seq_lt by (by eapply lookup_lt_Some). simpl. f_equal. by apply Hh.
  - rewrite lookup_seq_ge; [done |]. by apply lookup_ge_None.
Qed.

Lemma holds_be32 m p z : ram_ok m -> in_range 32 z -> holds m p (be32 z) -> ReadUint32BE m p = z.
Proof.
  intros Hm Hz Hh. rewrite ReadUint32BE_value by done.
  pose proof (Hh 0%nat _ eq_refl) as E0. pose proof (Hh 1%nat _ eq_refl) as E1.
  pose proof (Hh 2%nat _ eq_refl) as E2. pose proof (Hh 3%nat _ eq_refl) as E3.
  change (Z.of_nat 0) with 0 in E0. change (Z.of_nat 1) with 1 in E1.
  change (Z.of_nat 2) with 2 in E2. change (Z.of_nat 3) with 3 in E3.
  rewrite Z.add_0_r in E0. rewrite E0, E1, E2, E3. unfold in_range in Hz.
  rewrite (Z.mod_small (z / 2 ^ 24)) by (split; [apply Z.div_pos; lia | apply Z.div_lt_upper_bound; lia]).
  replace (z / 2 ^ 24) with (z / 2 ^ 16 / 2 ^ 8) by (rewrite Z.div_div; done).
  replace (z / 2 ^ 16) with (z / 2 ^ 8 / 2 ^ 8) by (rewrite Z.div_div; done).
  pose proof (Z.div_mod z (2 ^ 8)). pose proof (Z.div_mod (z / 2 ^ 8) (2 ^ 8)).
  pose proof (Z.div_mod (z / 2 ^ 8 / 2 ^ 8) (2 ^ 8)). lia.
Qed.

Lemma holds_be16 m p z : ram_ok m -> in_range 16 z -> holds m p (be16 z) -> ReadUint16BE m p = z.
Proof.
  intros Hm Hz Hh. rewrite ReadUint16BE_value by done.
  pose proof (Hh 0%nat _ eq_refl) as E0. pose proof (Hh 1%nat _ eq_refl) as E1.
  change (Z.of_nat 0) with 0 in E0. change (Z.of_nat 1) with 1 in E1.
  rewrite Z.add_0_r in E0. rewrite E0, E1. unfold in_range in Hz.
  rewrite (Z.mod_small (z / 2 ^ 8)) by (split; [apply Z.div_pos; lia | apply Z.div_lt_upper_bound; lia]).
  pose proof (Z.div_mod z (2 ^ 8)). lia.
Qed.

(** Reading a stored string. *)
Lemma ReadString_holds m r n :
  ram_ok m -> name_ok n -> holds m (next_ r) (encode_string n) ->
  ReadString m r = (Ptr (next_ r + 2), set_next r (next_ r + zlen (encode_string n))) /\
  cptr_string m (Ptr (next_ r + 2)) = Ret n.
Proof.
  intros Hm [Hl Hz] Hh. unfold encode_string in *. apply holds_app in Hh as [H1 H2].
  change (zlen (be16 (zlen n))) with 2 in H2. unfold ReadString.
  rewrite (holds_be16 m _ (zlen n)); [| done | pose proof (zlen_nonneg n); red; lia | done].
  pose proof H2 as [_ H0]%holds_app. pose proof (H0 0%nat 0 eq_refl) as E.
  rewrite Z.add_0_r in E. rewrite E. split.
  - cbn [negb Z.eqb]. f_equal. f_equal. unfold zlen. rewrite !length_app. simpl. lia.
  - cbn. apply holds_cstr; [done | done |]. unfold kNameFuel, zlen in *. lia.
Qed.

Lemma zlen_EFile n d : zlen (encode (EFile n d)) = 8 + zlen (encode_string n) + 4 + zlen d.
Proof. unfold encode. rewrite !zlen_app. change (zlen (be32 _)) with 4. lia. Qed.

Lemma zlen_ELink n i : zlen (encode (ELink n i)) = 8 + zlen (encode_string n) + 4.
Proof. unfold encode. rewrite !zlen_app. change (zlen (be32 _)) with 4. lia. Qed.

Lemma Next_EFile m r n d :
  ram_ok m -> 0 < next_ r -> 0 < files_left_ r < 2 ^ 32 -> name_ok n -> zlen d < 2 ^ 32 ->
  holds m (next_ r) (encode (EFile n d)) ->
  exists q, next_ r < q /\ holds m q d /\ cptr_string m (Ptr (next_ r + 10)) = Ret n /\
    Next m r = (mkFile false (Ptr (next_ r + 10)) q (zlen d) (CRC32.crc_ref d),
                PackageReader.mk (next_ r + zlen (encode (EFile n d))) (files_left_ r - 1)
                  (PackageReader.runtime_index_name_ r) (PackageReader.app_index_name_ r)).
Proof.
  intros Hm Hp Hl Hn Hd Hh. unfold encode in Hh.
  apply holds_app in Hh as [H1 Hh]. apply holds_app in Hh as [H2 Hh].
  apply holds_app in Hh as [H3 Hh]. apply holds_app in Hh as [H4 H5].
  change (zlen (be32 _)) with 4 in *. unfold Next.
  rewrite (proj2 (Z.eqb_neq 0 (files_left_ r))), (proj2 (Z.eqb_neq 0 (next_ r))) by lia.
  cbn [orb ReadUint32 next_ set_next].
  rewrite (holds_be32 m (next_ r) DEFAULT) by (done || (red; split; by vm_compute)).
  cbn [Z.eqb DEFAULT LINK Pos.eqb negb andb].
  rewrite (holds_be32 m (next_ r + 4) (zlen d)) by (done || (pose proof (zlen_nonneg d); red; lia)).
  destruct (ReadString_holds m (set_next (set_next r (next_ r + 4)) (next_ r + 4 + 4)) n) as [E S];
    [done | done | done |]. rewrite E. cbn [next_ set_next] in *.
  set (L := zlen (encode_string n)) in *. pose proof (zlen_nonneg (encode_string n)).
  exists (next_ r + 4 + 4 + L + 4). split; [unfold L; lia |]. split; [done |].
  replace (next_ r + 10) with (next_ r + 4 + 4 + 2) by lia. split; [done |].
  rewrite (holds_be32 m (next_ r + 4 + 4 + L) (CRC32.crc_ref d)) by (done || by apply wrap_range).
  rewrite zlen_EFile. fold L. cbn. unfold u32. rewrite wrap_small by (red; lia).
  f_equal. f_equal. lia.
Qed.

Lemma Next_ELink m r n i :
  ram_ok m -> 0 < next_ r -> 0 < files_left_ r < 2 ^ 32 -> name_ok n -> 0 <= i < 2 ^ 32 ->
  holds m (next_ r) (encode (ELink n i)) ->
  cptr_string m (Ptr (next_ r + 10)) = Ret n /\
  Next m r = (mkFile true (Ptr (next_ r + 10)) 0 0 i,
              PackageReader.mk (next_ r + zlen (encode (ELink n i))) (files_left_ r - 1)
                (PackageReader.runtime_index_name_ r) (PackageReader.app_index_name_ r)).
Proof.
  intros Hm Hp Hl Hn Hi Hh. unfold encode in Hh.
  apply holds_app in Hh as [H1 Hh]. apply holds_app in Hh as [H2 Hh].
  apply holds_app in Hh as [H3 H4].
  change (zlen (be32 _)) with 4 in *. unfold Next.
  rewrite (proj2 (Z.eqb_neq 0 (files_left_ r))), (proj2 (Z.eqb_neq 0 (next_ r))) by lia.
  cbn [orb ReadUint32 next_ set_next].
  rewrite (holds_be32 m (next_ r) LINK) by (done || (red; split; by vm_compute)).
  cbn [Z.eqb DEFAULT LINK Pos.eqb negb andb].
  rewrite (holds_be32 m (next_ r + 4) 0) by (done || (red; lia)).
  destruct (ReadString_holds m (set_next (set_next r (next_ r + 4)) (next_ r + 4 + 4)) n) as [E S];
    [done | done | done |]. rewrite E. cbn [next_ set_next] in *.
  set (L := zlen (encode_string n)) in *.
  replace (next_ r + 10) with (next_ r + 4 + 4 + 2) by lia. split; [done |].
  rewrite (holds_be32 m (next_ r + 4 + 4 + L) i) by (done || (red; lia)).
  rewrite zlen_ELink. fold L. cbn. unfold u32. rewrite wrap_small by (red; lia).
  f_equal. f_equal. lia.
Qed.

(** A kept file stands for a name and its data. *)
Definition file_rep (m : ram) (f : InitrdFile) (x : list Z * list Z) : Prop :=
  cptr_string m (_name f) = Ret x.1 /\ is_null (_name f) = false /\ _is_empty f = false /\
  _size f = zlen x.2 /\ exists q, 0 < q /\ _data f = Ptr q /\ holds m q x.2.

(** One round of the loop: a file is checked and kept, a link names an earlier file. *)
Lemma load_file_step fuel m rest files n d p q :
  ram_ok m -> 0 < p -> 0 < q -> holds m q d -> cptr_string m (Ptr p) = Ret n ->
  let f := mkInitrdFile (Ptr p) (zlen d) (Ptr q) false in
  file_rep m f (n, d) /\
  load_files (S fuel) m rest (mkFile false (Ptr p) q (zlen d) (CRC32.crc_ref d)) files =
  let '(file', r') := Next m rest in load_files fuel m r' file' (files ++ [f]).
Proof.
  intros Hm Hp Hq Hqd Hs. split.
  - split; [done |]. cbn. rewrite (proj2 (Z.eqb_neq p 0)) by lia. repeat split. by exists q.
  - cbn [load_files]. unfold PackageReader.empty. cbn [buf is_link content len name].
    rewrite (proj2 (Z.eqb_neq q 0)) by lia. cbn [andb].
    unfold CRC32.Compute. rewrite CRC32.crc_loop_fold by done.
    replace (Z.to_nat (zlen d)) with (length d) by (unfold zlen; lia).
    rewrite (holds_bytes_at m q d Hqd). fold (CRC32.crc_ref d). rewrite Z.eqb_refl. cbn [negb].
    unfold InitrdFile_new. cbn [is_null]. by rewrite (proj2 (Z.eqb_neq p 0)), (proj2 (Z.eqb_neq q 0)) by lia.
Qed.

Lemma load_link_step fuel m rest files acc n an ad i p :
  0 < p -> 0 <= i -> Forall2 (file_rep m) files acc -> acc !! Z.to_nat i = Some (an, ad) ->
  cptr_string m (Ptr p) = Ret n ->
  exists f, file_rep m f (n, ad) /\
    load_files (S fuel) m rest (mkFile true (Ptr p) 0 0 i) files =
    let '(file', r') := Next m rest in load_files fuel m r' file' (files ++ [f]).
Proof.
  intros Hp Hi HF Eacc Hs. destruct (Forall2_lookup_r _ _ _ _ _ HF Eacc) as (f & Ef & _ & _ & _ & Hsz & q & Hq & Eq & Hqd).
  exists (mkInitrdFile (Ptr p) (_size f) (Ptr q) false). split.
  - split; [done |]. cbn. rewrite (proj2 (Z.eqb_neq p 0)) by lia. repeat split; [done |]. by exists q.
  - pose proof (lookup_lt_Some _ _ _ Ef). cbn [load_files]. unfold PackageReader.empty.
    cbn [buf is_link content len name Z.eqb andb negb]. rewrite Z.geb_leb, (proj2 (Z.leb_gt _ _)), Ef by lia.
    unfold InitrdFile_new. rewrite Eq. cbn [is_null]. by rewrite (proj2 (Z.eqb_neq p 0)), (proj2 (Z.eqb_neq q 0)) by lia.
Qed.

Lemma load_roundtrip m es : forall r files acc fuel,
  ram_ok m -> 0 < next_ r -> files_left_ r = zlen es -> (zlen es < 2 ^ 32) -> zlen acc + zlen es < 2 ^ 32 ->
  entries_ok es (zlen acc) -> holds m (next_ r) (encode_all es) ->
  Forall2 (file_rep m) files acc -> (length es <= fuel)%nat ->
  let '(file, r') := Next m r in
  exists out, load_files fuel m r' file files = Ret out /\
    Forall2 (file_rep m) out (contents es acc).
Proof.
  induction es as [| e es IH]; intros r files acc fuel Hm Hp Hl Hb Hb' Hok Hh HF Hfuel.
  { unfold Next. rewrite Hl. simpl. exists files. by destruct fuel. }
  assert (zlen (e :: es) = zlen es + 1) as Ez by (unfold zlen; simpl; lia).
  pose proof (zlen_nonneg es). pose proof (zlen_nonneg acc).
  assert (forall x : list Z * list Z, zlen (acc ++ [x]) = zlen acc + 1) as Ea.
  { intros x. unfold zlen. rewrite length_app. simpl. lia. }
  destruct fuel as [| fuel]; [simpl in Hfuel; lia |]. simpl in Hfuel.
  unfold encode_all in Hh. cbn [map concat] in Hh. apply holds_app in Hh as [H1 H2].
  set (r1 := PackageReader.mk (next_ r + zlen (encode e)) (files_left_ r - 1)
               (PackageReader.runtime_index_name_ r) (PackageReader.app_index_name_ r)).
  assert (forall x f, file_rep m f x -> entries_ok es (zlen acc + 1) ->
    let '(file, r') := Next m r1 in
    exists out, load_files fuel m r' file (files ++ [f]) = Ret out /\
      Forall2 (file_rep m) out (contents es (acc ++ [x]))) as K.
  { intros x f Hf Hok'. apply IH; try done.
    - cbn. pose proof (zlen_nonneg (encode e)). lia.
    - cbn. lia.
    - lia.
    - rewrite Ea. lia.
    - by rewrite Ea.
    - apply Forall2_app; [done |]. by constructor.
    - lia. }
  destruct e as [n d | n i]; cbn [entries_ok] in Hok; destruct Hok as (Hn & Hd & Hok).
  - destruct (Next_EFile m r n d) as (q & Hq & Hqd & Hs & ->); [done | done | lia | done | done | done |]. fold r1.
    destruct (load_file_step fuel m r1 files n d (next_ r + 10) q) as [Hf ->]; [done | lia | lia | done | done |].
    specialize (K _ _ Hf). destruct (Next m r1) as [file' r']. by apply K.
  - destruct (Next_ELink m r n i) as (Hs & ->); [done | done | lia | done | lia | done |]. fold r1.
    destruct (lookup_lt_is_Some_2 acc (Z.to_nat i)) as [[an ad] Eacc]; [unfold zlen in *; lia |].
    destruct (load_link_step fuel m r1 files acc n an ad i (next_ r + 10)) as (f & Hf & ->); [lia | lia | done | done | done |].
    cbn [contents]. rewrite Eacc. cbn [default snd].
    specialize (K _ _ Hf). destruct (Next m r1) as [file' r']. by apply K.
Qed.

(** ** The header *)

Section Header.
Context (malloc : Z -> Z) (tinfl : ram -> Z -> Z -> Z -> option (list Z)).

Lemma search_total fuel m : forall pos stop len,
  stop - pos <= Z.of_nat fuel -> search malloc tinfl fuel m pos stop len <> OutOfFuel.
Proof.
  induction fuel as [| n IH]; intros pos stop len Hf; cbn [search];
    (destruct (Z.ltb_spec pos stop); [| done]); [lia |].
  assert (search malloc tinfl n m (pos + 4) stop len <> OutOfFuel) by (apply IH; lia).
  by destruct (negb (PACKAGE_MAGIC =? _)), (negb (is_pckg m (pos + 4))).
Qed.

Lemma ReadUint32BE_range m p : in_range 32 (ReadUint32BE m p).
Proof. apply wrap_range. lia. Qed.

Lemma open_left m pos len : in_range 32 (files_left_ (open_archive malloc tinfl m pos len).1).
Proof.
  unfold open_archive. pose proof (ReadUint32BE_range m (pos + 12)).
  destruct (negb _); [done |]. destruct (negb _); [done |]. destruct (_ =? 0); [done |].
  destruct (tinfl _ _ _ _); [| done].
  destruct (ReadString _ _) as [a r1]. destruct (ReadString _ r1) as [b r2]. done.
Qed.

(** What the search returns is the closed reader or an archive opened at a
    position past the start of the module. *)
Lemma search_Ret fuel m : forall pos stop len x,
  search malloc tinfl fuel m pos stop len = Ret x ->
  x = (initial, m) \/ exists pos', pos < pos' /\ x = open_archive malloc tinfl m pos' len.
Proof.
  induction fuel as [| n IH]; intros pos stop len x; cbn [search]; destruct (pos <? stop);
    try (by intros [= <-]; left).
  assert (search malloc tinfl n m (pos + 4) stop len = Ret x ->
    x = (initial, m) \/ exists pos', pos < pos' /\ x = open_archive malloc tinfl m pos' len) as K.
  { intros [-> | (pos' & Hp & ->)]%IH; [by left | right]. exists pos'. split; [lia | done]. }
  destruct (negb (PACKAGE_MAGIC =? _)); [done |].
  destruct (negb (is_pckg m (pos + 4))); [done |].
  intros [= <-]. right. exists (pos + 4). split; [lia | done].
Qed.

Lemma new_Ret m start len x :
  0 < start -> start + 4 <= 2 ^ 64 -> PackageReader.new malloc tinfl m start len = Ret x ->
  x = (initial, m) \/ exists pos, start < pos /\ x = open_archive malloc tinfl m pos len.
Proof.
  intros Hs Hb. unfold PackageReader.new. rewrite (proj2 (Z.eqb_neq start 0)) by lia.
  destruct (len >? 0); [| done]. cbn [negb rt_assert mbind outcome_bind]. unfold AlignPtr.
  destruct (Align_up start 4) as (p & -> & _ & Hp); [red; lia | lia | lia |].
  cbn [mbind outcome_bind]. intros [-> | (pos & Hpos & ->)]%search_Ret; [by left | right].
  exists pos. split; [lia | done].
Qed.

Lemma new_left m start len r m' :
  0 < start -> start + 4 <= 2 ^ 64 -> PackageReader.new malloc tinfl m start len = Ret (r, m') ->
  in_range 32 (files_left_ r).
Proof.
  intros Hs Hb [[= -> ->] | (pos & _ & E)]%new_Ret; [by split | | done | done].
  pose proof (open_left m pos len) as L. by rewrite <- E in L.
Qed.

Lemma new_total m start len :
  0 < start -> start + 4 <= 2 ^ 64 -> PackageReader.new malloc tinfl m start len <> OutOfFuel.
Proof.
  intros Hs Hb. unfold PackageReader.new. rewrite (proj2 (Z.eqb_neq start 0)) by lia.
  destruct (Z.gtb_spec len 0); [| done]. cbn [negb rt_assert mbind outcome_bind]. unfold AlignPtr.
  destruct (Align_up start 4) as (p & -> & _ & Hp); [red; lia | lia | lia |].
  cbn [mbind outcome_bind]. apply search_total. lia.
Qed.

(** ** The theorems *)

(** C18. Loading the archive terminates whatever bytes the boot module holds: the
    constructor and the record loop of [Init] never run out of the fuel they are
    given (the length of the module, the record count of its header). *)
Theorem Init_terminates m s start len
  (Hs : 0 < start) (Hb : start + 4 <= 2 ^ 64) :
  Init malloc tinfl m s start len <> OutOfFuel.
Proof.
  unfold Init. destruct (negb _); [| done]. destruct (len >? 0); [| done].
  cbn [rt_assert mbind outcome_bind].
  pose proof (new_total m start len Hs Hb) as T.
  destruct (PackageReader.new malloc tinfl m start len) as [[r m'] | |] eqn:E; [| done | done].
  cbn [mbind outcome_bind]. pose proof (new_left _ _ _ _ _ Hs Hb E) as [L1 L2].
  pose proof (Next_left m' r (conj L1 L2)) as N. destruct (Next m' r) as [file r'].
  destruct N as [N1 N2].
  assert (load_files (Z.to_nat (files_left_ r)) m' r' file (files_ s) <> OutOfFuel).
  { destruct N2 as [N2 | N2]; [destruct (Z.to_nat _); cbn; by rewrite N2 |].
    apply load_files_total; [lia | right; lia]. }
  by destruct (load_files _ _ _ _ _).
Qed.

(** C19. Integrity: whatever the boot module holds, every file that [Init] keeps
    (a link included) has data whose CRC-32 equals the checksum stored right
    before it. *)
Theorem Init_checked m start len s m'
  (E : Init malloc tinfl m new start len = Ret (s, m')) :
  Forall (checked m') (files_ s).
Proof.
  unfold Init in E. apply bind_Ret in E as (_ & _ & E). apply bind_Ret in E as (_ & _ & E).
  apply bind_Ret in E as ([r m1] & E1 & E). pose proof (Next_file m1 r) as N.
  destruct (Next m1 r) as [file r1]. apply bind_Ret in E as (out & E2 & [= <- <-]).
  eapply load_files_checked; [exact N | | exact E2]. done.
Qed.

(** The size passed to the inflater is that of the whole module and not of what
    is left of it after the header: an inflater that rejects input beyond the end
    of the module never opens any archive. *)
Theorem new_inflates_past_end m start len r m'
  (Hs : 0 < start) (Hb : start + 4 <= 2 ^ 64) (Hl : 0 < len < 2 ^ 64)
  (Bounded : forall p n o, start + len < p + n -> tinfl m p n o = None)
  (E : PackageReader.new malloc tinfl m start len = Ret (r, m')) :
  next_ r = 0.
Proof.
  apply new_Ret in E as [[= -> ->] | (pos & Hpos & E)]; [done | | done | done].
  unfold open_archive in E.
  rewrite Bounded in E.
  2: { unfold u64, wrap. destruct (decide (20 <= len)); [rewrite Z.mod_small by lia; lia |].
       rewrite <- (Z.mod_unique (len - 20) (2 ^ 64) (-1) (len - 20 + 2 ^ 64)) by lia. lia. }
  destruct (negb _); [by simplify_eq |]. destruct (negb _); [by simplify_eq |].
  destruct (_ =? 0); by simplify_eq.
Qed.

Lemma store_ok m p bs : ram_ok m -> Forall (in_range 8) bs -> ram_ok (store_bytes m p bs).
Proof.
  intros Hm Hb a. unfold store_bytes. case_decide; [| done].
  destruct (bs !! _) as [x |] eqn:E; simpl; [| done]. by eapply (Forall_lookup_1 _ _ _ _ Hb).
Qed.

(** The contents of the inflated archive and the header in front of the
    compressed bytes [z]. *)
Definition payload (rt app : list Z) (es : list entry) : list Z :=
  encode_string rt ++ encode_string app ++ encode_all es.
Definition image (rt app : list Z) (es : list entry) (z : list Z) : list Z :=
  be32 PACKAGE_MAGIC ++ [80; 67; 75; 71] ++ be32 0 ++ be32 getVersionNumber ++
  be32 (zlen es) ++ be32 (zlen (payload rt app es)) ++ z.

(** There is no signature at [pos]. *)
Definition unsigned_at (m : ram) (pos : Z) : Prop :=
  ReadUint32BE m pos <> PACKAGE_MAGIC \/ is_pckg m (pos + 4) = false.

Lemma search_skip k : forall fuel m pos stop len,
  (forall j, 0 <= j < Z.of_nat k -> unsigned_at m (pos + 4 * j)) -> pos + 4 * Z.of_nat k <= stop ->
  search malloc tinfl (k + fuel) m pos stop len = search malloc tinfl fuel m (pos + 4 * Z.of_nat k) stop len.
Proof.
  induction k as [| k IH]; intros fuel m pos stop len Hno Hst; [by rewrite Z.mul_0_r, Z.add_0_r |].
  cbn [Nat.add search]. rewrite (proj2 (Z.ltb_lt _ _)) by lia.
  assert (search malloc tinfl (k + fuel) m (pos + 4) stop len =
    search malloc tinfl fuel m (pos + 4 * Z.of_nat (S k)) stop len) as E.
  { rewrite IH; [f_equal; lia | | lia]. intros j Hj. replace (pos + 4 + 4 * j) with (pos + 4 * (j + 1)) by lia. apply Hno. lia. }
  destruct (Hno 0 ltac:(lia)) as [H | H]; rewrite Z.mul_0_r, Z.add_0_r in H.
  - by rewrite (proj2 (Z.eqb_neq _ _)) by congruence.
  - rewrite H. cbn [negb]. by destruct (negb (PACKAGE_MAGIC =? ReadUint32BE m pos)).
Qed.

(** Opening an archive whose header sits at the aligned address [start], the first
    signature from [from] on. *)
Lemma holds_pckg m p : holds m p [80; 67; 75; 71] -> is_pckg m p = true.
Proof.
  rewrite !holds_cons, <- !Z.add_assoc. intros (E0 & E1 & E2 & E3 & _). unfold is_pckg.
  change (1 + (1 + 1)) with 3 in E3. change (1 + 1) with 2 in E2. by rewrite E0, E1, E2, E3.
Qed.

Lemma open_image m from len start rt app es z ptr :
  ram_ok m -> 0 < from -> (4 | from) -> (4 | start) -> from <= start < from + len -> start + 4 <= 2 ^ 64 ->
  (forall j, 0 <= j < (start - from) / 4 -> unsigned_at m (from + 4 * j)) ->
  holds m start (image rt app es z) -> zlen es < 2 ^ 32 -> zlen (payload rt app es) < 2 ^ 32 ->
  name_ok rt -> name_ok app -> Forall (in_range 8) (payload rt app es) ->
  malloc (zlen (payload rt app es)) = ptr -> 0 < ptr ->
  tinfl m (start + 24) (u64 (len - 20)) (zlen (payload rt app es)) = Some (payload rt app es) ->
  let m' := store_bytes m ptr (payload rt app es) in
  exists r, PackageReader.new malloc tinfl m from len = Ret (r, m') /\
    files_left_ r = zlen es /\ 0 < next_ r /\ holds m' (next_ r) (encode_all es) /\
    cptr_string m' (PackageReader.runtime_index_name_ r) = Ret rt /\
    cptr_string m' (PackageReader.app_index_name_ r) = Ret app.
Proof.
  intros Hm Hs Hd Hds Hfs Hb Hno Hh Hes Hpl Hrt Happ Hbytes Hmal Hptr Htin m'.
  pose proof (zlen_nonneg z) as Z1. pose proof (zlen_nonneg es) as Z2.
  pose proof (zlen_nonneg (payload rt app es)) as Z3. unfold image in Hh. apply holds_app in Hh as [H1 Hh]. apply holds_app in Hh as [H2 Hh].
  apply holds_app in Hh as [H3 Hh]. apply holds_app in Hh as [H4 Hh].
  apply holds_app in Hh as [H5 Hh]. apply holds_app in Hh as [H6 _].
  change (zlen (be32 _)) with 4 in *. change (zlen [80; 67; 75; 71]) with 4 in *.
  unfold PackageReader.new, AlignPtr. rewrite (proj2 (Z.eqb_neq from 0)) by lia.
  destruct (Z.gtb_spec len 0); [| lia]. cbn [negb rt_assert mbind outcome_bind].
  rewrite Align_multiple by (done || lia). cbn [mbind outcome_bind].
  set (k := Z.to_nat ((start - from) / 4)).
  assert (4 * Z.of_nat k = start - from) as Hk.
  { destruct Hd as [x ->], Hds as [y ->]. unfold k. rewrite <- Z.mul_sub_distr_r, Z.div_mul by lia. lia. }
  replace (Z.to_nat len) with (k + S (Z.to_nat len - S k))%nat by lia.
  rewrite search_skip; [| intros j Hj; apply Hno; lia | lia].
  replace (from + 4 * Z.of_nat k) with start by lia. cbn [search].
  rewrite (proj2 (Z.ltb_lt _ _)) by lia.
  rewrite (holds_be32 m start PACKAGE_MAGIC), Z.eqb_refl by (done || (red; split; by vm_compute)).
  rewrite (holds_pckg m (start + 4) H2). cbn [negb]. unfold open_archive.
  rewrite (holds_be32 m (start + 4 + 4) 0) by (done || (red; lia)).
  replace (start + 4 + 8) with (start + 4 + 4 + 4) by lia.
  rewrite (holds_be32 m (start + 4 + 4 + 4) getVersionNumber) by (done || (red; split; by vm_compute)).
  replace (start + 4 + 12) with (start + 4 + 4 + 4 + 4) by lia.
  rewrite (holds_be32 m (start + 4 + 4 + 4 + 4) (zlen es)) by (done || (red; lia)).
  replace (start + 4 + 16) with (start + 4 + 4 + 4 + 4 + 4) by lia.
  rewrite (holds_be32 m (start + 4 + 4 + 4 + 4 + 4) (zlen (payload rt app es))) by (done || (red; lia)).
  rewrite Z.eqb_refl, Hmal, (proj2 (Z.eqb_neq ptr 0)) by lia. cbn [negb Z.eqb].
  replace (start + 4 + 20) with (start + 24) by lia. rewrite Htin. fold m'.
  assert (ram_ok m') as Hm' by by apply store_ok.
  pose proof (store_holds m ptr (payload rt app es)) as Hst. fold m' in Hst.
  unfold payload in Hst. apply holds_app in Hst as [S1 Hst]. apply holds_app in Hst as [S2 S3].
  destruct (ReadString_holds m' (set_next (PackageReader.mk 0 (zlen es) (Lit []) (Lit [])) ptr) rt)
    as [-> N1]; [done | done | done |].
  set (r1 := set_next _ (next_ _ + zlen (encode_string rt))).
  destruct (ReadString_holds m' r1 app) as [-> N2]; [done | done | done |].
  pose proof (zlen_nonneg (encode_string rt)). pose proof (zlen_nonneg (encode_string app)).
  eexists. split; [reflexivity |].
  cbn [files_left_ next_ PackageReader.runtime_index_name_ PackageReader.app_index_name_ set_next r1] in *.
  split; [reflexivity |]. split; [lia |]. split; [exact S3 |]. exact (conj N1 N2).
Qed.

(** Loading the archive at [start], the first signature from [from] on. *)
Lemma Init_image m from len start rt app es z ptr :
  ram_ok m -> 0 < from -> (4 | from) -> (4 | start) -> from <= start < from + len -> start + 4 <= 2 ^ 64 ->
  (forall j, 0 <= j < (start - from) / 4 -> unsigned_at m (from + 4 * j)) ->
  holds m start (image rt app es z) -> zlen es < 2 ^ 32 -> zlen (payload rt app es) < 2 ^ 32 ->
  name_ok rt -> name_ok app -> Forall (in_range 8) (payload rt app es) -> entries_ok es 0 ->
  malloc (zlen (payload rt app es)) = ptr -> 0 < ptr ->
  tinfl m (start + 24) (u64 (len - 20)) (zlen (payload rt app es)) = Some (payload rt app es) ->
  exists s m', Init malloc tinfl m new from len = Ret (s, m') /\
    Forall2 (file_rep m') (files_ s) (contents es []) /\
    cptr_string m' (runtime_index_name_ s) = Ret rt /\
    cptr_string m' (app_index_name_ s) = Ret app.
Proof.
  intros. destruct (open_image m from len start rt app es z ptr) as (r & E & Hl & Hn & Hent & E1 & E2); try done.
  set (m' := store_bytes m ptr (payload rt app es)) in *.
  unfold Init. rewrite (proj2 (Z.eqb_neq from 0)) by lia.
  destruct (Z.gtb_spec len 0); [| lia]. cbn [negb rt_assert mbind outcome_bind].
  rewrite E. cbn [mbind outcome_bind].
  pose proof (load_roundtrip m' es r [] [] (Z.to_nat (files_left_ r))) as L.
  destruct (Next m' r) as [file r'].
  destruct L as (out & E' & F); try done.
  - by apply store_ok.
  - rewrite Hl. unfold zlen. lia.
  - cbn [files_ new]. rewrite E'. eexists _, m'. split; [done |]. done.
Qed.

(** C7. Round trip: a module that holds a well-formed archive (any records, links to
    earlier records included), with an inflater that returns the archive and
    memory to hold it, is loaded; the files are exactly those the archive stands
    for, in order, with their names and data, and the index names are the ones
    stored. *)
Theorem Init_roundtrip m start rt app es z ptr
  (Hm : ram_ok m) (Hs : 0 < start) (Hd : (4 | start)) (Hb : start + 4 <= 2 ^ 64)
  (Hh : holds m start (image rt app es z)) (Hes : zlen es < 2 ^ 32)
  (Hpl : zlen (payload rt app es) < 2 ^ 32) (Hrt : name_ok rt) (Happ : name_ok app)
  (Hbytes : Forall (in_range 8) (payload rt app es)) (Hok : entries_ok es 0)
  (Hmal : malloc (zlen (payload rt app es)) = ptr) (Hptr : 0 < ptr)
  (Htin : tinfl m (start + 24) (4 + zlen z) (zlen (payload rt app es)) = Some (payload rt app es))
  (Hz : zlen z < 2 ^ 63) :
  exists s m', Init malloc tinfl m new start (24 + zlen z) = Ret (s, m') /\
    Forall2 (file_rep m') (files_ s) (contents es []) /\
    cptr_string m' (runtime_index_name_ s) = Ret rt /\
    cptr_string m' (app_index_name_ s) = Ret app.
Proof.
  pose proof (zlen_nonneg z). apply (Init_image m start (24 + zlen z) start rt app es z ptr); try done; [lia | |].
  - rewrite Z.sub_diag, Z.div_0_l by done. lia.
  - replace (u64 (24 + zlen z - 20)) with (4 + zlen z) by (unfold u64; rewrite wrap_small; [lia | red; lia]). done.
Qed.

End Header.

(** Lookup by name returns the first file with that name, and the empty file
    when there is none; lookup by index returns the file at the index and stops
    the machine beyond the last. *)
Theorem Get_correct m s xs nm (F : Forall2 (file_rep m) (files_ s) xs) :
  (exists i x f, xs !! i = Some x /\ x.1 = nm /\ files_ s !! i = Some f /\ Get m s nm = Ret f /\
     forall j y, (j < i)%nat -> xs !! j = Some y -> y.1 <> nm) \/
  ((forall x, x ∈ xs -> x.1 <> nm) /\ Get m s nm = Ret InitrdFile_empty).
Proof.
  unfold Get. induction F as [| f x files xs Hf F IH].
  { right. split; [| done]. intros x Hx. by apply elem_of_nil in Hx. }
  cbn [Get_in]. destruct Hf as [-> _]. cbn [mbind outcome_bind].
  case_decide as E.
  - left. exists 0%nat, x, f. split_and!; try done. intros j y Hj. lia.
  - destruct IH as [(i & y & g & E1 & E2 & E3 & E4 & E5) | [IH E4]].
    + left. exists (S i), y, g. split_and!; try done. intros [| j] w Hj Hw; [| eapply E5; [| done]; lia].
      simpl in Hw. congruence.
    + right. split; [| done]. intros y [-> | Hy]%elem_of_cons; [congruence | by apply IH].
Qed.

(** ** A concrete archive *)

Definition es0 : list entry := [EFile [97] [1; 2; 3]; ELink [98; 99] 0].
Definition img0 : list Z := image [97] [98; 99] es0 [7; 7].
Definition pay0 : list Z := payload [97] [98; 99] es0.
Definition ram0 : ram := ram_of 0x2000 img0.
Definition malloc0 (n : Z) : Z := 0x9000.
Definition tinfl0 (m : ram) (p n o : Z) : option (list Z) := Some pay0.

Lemma ram0_ok : ram_ok ram0.
Proof. apply ram_of_ok, (bool_decide_unpack _). vm_compute. exact I. Qed.

Lemma ram0_holds : holds ram0 0x2000 img0.
Proof.
  intros i b Hi. unfold ram0, ram_of. rewrite decide_True by lia.
  replace (Z.to_nat (0x2000 + Z.of_nat i - 0x2000)) with i by lia. by rewrite Hi.
Qed.

Lemma Init_roundtrip_witness :
  exists s m', Init malloc0 tinfl0 ram0 new 0x2000 26 = Ret (s, m') /\
    Forall2 (file_rep m') (files_ s) [([97], [1; 2; 3]); ([98; 99], [1; 2; 3])].
Proof.
  destruct (Init_roundtrip malloc0 tinfl0 ram0 0x2000 [97] [98; 99] es0 [7; 7] 0x9000 ram0_ok
    eq_refl) as (s & m' & E & F & _).
  - exists 2048. reflexivity.
  - by vm_compute.
  - exact ram0_holds.
  - by vm_compute.
  - by vm_compute.
  - apply (bool_decide_unpack _); vm_compute; exact I.
  - apply (bool_decide_unpack _); vm_compute; exact I.
  - apply (bool_decide_unpack _). vm_compute. exact I.
  - apply (bool_decide_unpack _). vm_compute. exact I.
  - reflexivity.
  - done.
  - reflexivity.
  - by vm_compute.
  - exists s, m'. exact (conj E F).
Defined.

Definition loaded0 : t * ram :=
  match Init malloc0 tinfl0 ram0 new 0x2000 26 with Ret x => x | _ => (new, ram0) end.

Definition returns {A} (x : outcome A) : bool := match x with Ret _ => true | _ => false end.

Lemma returns_Ret {A} (x : outcome A) d :
  returns x = true -> x = Ret (match x with Ret a => a | _ => d end).
Proof. by destruct x. Qed.

Lemma loaded0_eq : Init malloc0 tinfl0 ram0 new 0x2000 26 = Ret loaded0.
Proof.
  unfold loaded0. apply returns_Ret; vm_compute; reflexivity.
Qed.

Lemma Init_checked_witness : Forall (checked loaded0.2) (files_ loaded0.1).
Proof.
  apply (Init_checked malloc0 tinfl0 ram0 0x2000 26). rewrite loaded0_eq.
  by destruct loaded0.
Defined.

Lemma Init_terminates_witness : Init malloc0 tinfl0 (fun _ => 0) new 0x2000 (2 ^ 40) <> OutOfFuel.
Proof. apply (Init_terminates malloc0 tinfl0); by vm_compute. Defined.

Lemma new_inflates_past_end_witness :
  exists r m', PackageReader.new malloc0
    (fun m p n o => if 0x2000 + 26 <? p + n then None else Some pay0) ram0 0x2000 26 = Ret (r, m') /\
    next_ r = 0.
Proof.
  set (x := PackageReader.new malloc0 _ ram0 0x2000 26).
  assert (E : x = Ret (match x with Ret a => a | _ => (initial, ram0) end))
    by (apply returns_Ret; vm_compute; reflexivity).
  destruct (match x with Ret a => a | _ => _ end) as [r m'].
  exists r, m'. split; [exact E |].
  eapply (new_inflates_past_end malloc0
    (fun m p n o => if 0x2000 + 26 <? p + n then None else Some pay0) ram0 0x2000 26); [done.. | | exact E].
  intros p n o Hp. cbv beta. by rewrite (proj2 (Z.ltb_lt _ _)) by done.
Defined.

Lemma loaded0_files :
  Forall2 (file_rep loaded0.2) (files_ loaded0.1) [([97], [1; 2; 3]); ([98; 99], [1; 2; 3])].
Proof.
  assert (holds loaded0.2 36889 [1; 2; 3]) as Hd
    by (intros [| [| [| i]]] b Hb; [injection Hb as <-; vm_compute; reflexivity..
                                   | destruct i; discriminate Hb]).
  assert (files_ loaded0.1 = [mkInitrdFile (Ptr 36883) 3 (Ptr 36889) false;
                              mkInitrdFile (Ptr 36902) 3 (Ptr 36889) false]) as ->
    by (vm_compute; reflexivity).
  assert (forall n nm, cptr_string loaded0.2 (Ptr n) = Ret nm -> (n =? 0) = false ->
    file_rep loaded0.2 (mkInitrdFile (Ptr n) 3 (Ptr 36889) false) (nm, [1; 2; 3])) as K.
  { intros n nm E1 E2. split; [exact E1 |]. split; [exact E2 |]. split; [reflexivity |].
    split; [reflexivity |]. exists 36889. exact (conj eq_refl (conj eq_refl Hd)). }
  constructor; [| constructor; [| constructor]]; apply K; vm_compute; reflexivity.
Qed.

Lemma Get_correct_witness : exists f, Get loaded0.2 loaded0.1 [98; 99] = Ret f /\ _is_empty f = false.
Proof.
  destruct (Get_correct loaded0.2 loaded0.1 _ [98; 99] loaded0_files) as [(i & x & f & _ & _ & Hf & E & _) | [Hn _]].
  - exists f. split; [exact E |]. destruct (Forall2_lookup_l _ _ _ _ _ loaded0_files Hf) as (y & _ & R).
    apply R.
  - exfalso. apply (Hn ([98; 99], [1; 2; 3])); [| done]. set_solver.
Defined.

End Initrd.
