(* ===== verification/Deflate.v ===== *)
(** * Deflate streams, as RFC 1950 and RFC 1951 define them

    The format that the boot archive is compressed in, from the side of the writer: bits,
    canonical Huffman codes, tokens, blocks and streams.  A value here is written by the
    functions [*_bits] and means what the functions [expand] say.  The inflater (Tinfl) is
    specified by them.  The lemmas show that canonical codes are prefix free. *)

From S2P Require Import Prelude.

Module Deflate.

(** ** Bits *)

(** The [n] lowest bits of a number, lowest first, and the number that bits make. *)
Fixpoint bits_of (n : nat) (z : Z) : list bool :=
  match n with O => [] | S n => Z.odd z :: bits_of n (Z.div2 z) end.
Fixpoint val (l : list bool) : Z := match l with [] => 0 | b :: l => Z.b2z b + 2 * val l end.

(** The bits of bytes. *)
Definition unpack (bs : list Z) : list bool := concat (map (bits_of 8) bs).

(** Bytes for bits, the last one filled with zeros. *)
Fixpoint pack (n : nat) (l : list bool) : list Z :=
  match n with O => [] | S n => match l with [] => [] | _ => val (take 8 l) :: pack n (drop 8 l) end end.

(** ** Canonical Huffman codes (RFC 1951, 3.2.2) *)

Definition count (lens : list Z) (k : Z) : Z := zlen (filter (fun l => l = k) lens).

(** The first code of [k] bits. *)
Fixpoint first_code (lens : list Z) (k : nat) : Z :=
  match k with
  | O => 0
  | S k => 2 * (first_code lens k + (if decide (k = 0%nat) then 0 else count lens (Z.of_nat k)))
  end.

(** The length of the code of the symbol [s], and its code: codes of the same length are in the
    order of the symbols; the first bit of a code is its most significant one. *)
Definition len_of (lens : list Z) (s : Z) : Z := default 0 (lens !! Z.to_nat s).
Definition code_value (lens : list Z) (s : Z) : Z :=
  first_code lens (Z.to_nat (len_of lens s)) + count (take (Z.to_nat s) lens) (len_of lens s).
Definition code (lens : list Z) (s : Z) : list bool :=
  reverse (bits_of (Z.to_nat (len_of lens s)) (code_value lens s)).

(** The part of all words of 15 bits that codes of these lengths take up. *)
Definition weight (l : Z) : Z := if decide (l = 0) then 0 else 2 ^ (15 - l).
Definition kraft (lens : list Z) : Z := foldr (fun l n => weight l + n) 0 lens.
Definition used (lens : list Z) : Z := zlen (filter (fun l => l <> 0) lens).

(** Lengths that a stream may give: a complete code, or at most one symbol. *)
Definition lens_ok (lens : list Z) : Prop :=
  Forall (fun l => 0 <= l <= 15) lens /\ (kraft lens = 2 ^ 15 \/ used lens <= 1).
#[export] Instance lens_ok_dec lens : Decision (lens_ok lens).
Proof. unfold lens_ok. apply _. Defined.

(** The symbol [s] has a code. *)
Definition coded (lens : list Z) (s : Z) : Prop := 0 <= s /\ len_of lens s <> 0.

(** ** Tokens (3.2.5) *)

(** A byte, or a copy: the symbols and the extra bits of its length and its distance. *)
Inductive token : Type := Literal (c : Z) | Copy (ls le ds de : Z).

(** The extra bits and the first value of the length symbols from 257 on and of the
    distance symbols. *)
Definition length_extra : list Z := [0;0;0;0;0;0;0;0;1;1;1;1;2;2;2;2;3;3;3;3;4;4;4;4;5;5;5;5;0].
Definition length_base : list Z := [3;4;5;6;7;8;9;10;11;13;15;17;19;23;27;31;35;43;51;59;67;83;99;115;131;163;195;227;258].
Definition dist_extra : list Z := [0;0;0;0;1;1;2;2;3;3;4;4;5;5;6;6;7;7;8;8;9;9;10;10;11;11;12;12;13;13].
Definition dist_base : list Z := [1;2;3;4;5;7;9;13;17;25;33;49;65;97;129;193;257;385;513;769;1025;1537;2049;3073;4097;6145;8193;12289;16385;24577].

Definition sym_bits (lens : list Z) (s : Z) : option (list bool) :=
  if decide (coded lens s) then Some (code lens s) else None.
Definition extra_bits (n e : Z) : option (list bool) :=
  if decide (0 <= e < 2 ^ n) then Some (bits_of (Z.to_nat n) e) else None.

Definition token_bits (ll ld : list Z) (t : token) : option (list bool) :=
  match t with
  | Literal c => if decide (0 <= c < 256) then sym_bits ll c else None
  | Copy ls le ds de =>
      if decide (257 <= ls /\ 0 <= ds) then
        ln ← length_extra !! Z.to_nat (ls - 257); dn ← dist_extra !! Z.to_nat ds;
        a ← sym_bits ll ls; b ← extra_bits ln le; c ← sym_bits ld ds; d ← extra_bits dn de;
        Some (a ++ b ++ c ++ d)
      else None
  end.

(** The tokens of a block, with the symbol 256 at the end. *)
Fixpoint tokens_bits (ll ld : list Z) (ts : list token) : option (list bool) :=
  match ts with
  | [] => sym_bits ll 256
  | t :: ts => a ← token_bits ll ld t; b ← tokens_bits ll ld ts; Some (a ++ b)
  end.

(** A copy of [n] bytes from [d] bytes before the end, byte by byte. *)
Fixpoint copy (n : nat) (d : nat) (out : list Z) : list Z :=
  match n with O => out | S n => copy n d (out ++ [default 0 (out !! (length out - d)%nat)]) end.

Definition expand_token (out : list Z) (t : token) : option (list Z) :=
  match t with
  | Literal c => Some (out ++ [c])
  | Copy ls le ds de =>
      lb ← length_base !! Z.to_nat (ls - 257); db ← dist_base !! Z.to_nat ds;
      if decide (db + de <= zlen out) then Some (copy (Z.to_nat (lb + le)) (Z.to_nat (db + de)) out) else None
  end.
Fixpoint expand_tokens (out : list Z) (ts : list token) : option (list Z) :=
  match ts with [] => Some out | t :: ts => out ← expand_token out t; expand_tokens out ts end.

(** ** Code lengths in a block (3.2.7) *)

Inductive run_length : Type := Len (l : Z) | Again (e : Z) | Zeros3 (e : Z) | Zeros11 (e : Z).

Definition run_bits (lc : list Z) (x : run_length) : option (list bool) :=
  match x with
  | Len l => if decide (0 <= l < 16) then sym_bits lc l else None
  | Again e => a ← sym_bits lc 16; b ← extra_bits 2 e; Some (a ++ b)
  | Zeros3 e => a ← sym_bits lc 17; b ← extra_bits 3 e; Some (a ++ b)
  | Zeros11 e => a ← sym_bits lc 18; b ← extra_bits 7 e; Some (a ++ b)
  end.
Fixpoint runs_bits (lc : list Z) (xs : list run_length) : option (list bool) :=
  match xs with [] => Some [] | x :: xs => a ← run_bits lc x; b ← runs_bits lc xs; Some (a ++ b) end.

Definition expand_run (l : list Z) (x : run_length) : option (list Z) :=
  match x with
  | Len k => Some (l ++ [k])
  | Again e => k ← last l; Some (l ++ replicate (Z.to_nat (3 + e)) k)
  | Zeros3 e => Some (l ++ replicate (Z.to_nat (3 + e)) 0)
  | Zeros11 e => Some (l ++ replicate (Z.to_nat (11 + e)) 0)
  end.
Fixpoint expand_runs (l : list Z) (xs : list run_length) : option (list Z) :=
  match xs with [] => Some l | x :: xs => l ← expand_run l x; expand_runs l xs end.

(** ** Blocks (3.2.3) *)

(** A stored block, with the bits that fill the byte before it; a block with the fixed codes;
    a block with codes of its own: the lengths of the codes for lengths, how many of them are
    written, how many lengths belong to the first code, the lengths, and the tokens. *)
Inductive block : Type :=
  | Stored (fill : list bool) (data : list Z)
  | Fixed (ts : list token)
  | Dynamic (lc : list Z) (nc n0 : Z) (xs : list run_length) (ts : list token).

Definition order : list Z := [16; 17; 18; 0; 8; 7; 9; 6; 10; 5; 11; 4; 12; 3; 13; 2; 14; 1; 15].
Definition fixed_ll : list Z := replicate 144 8 ++ replicate 112 9 ++ replicate 24 7 ++ replicate 8 8.
Definition fixed_ld : list Z := replicate 32 5.

(** The bits of a block that starts [pos] bits after the start of a byte, without the header. *)
Definition block_bits (pos : nat) (x : block) : option (list bool) :=
  match x with
  | Stored fill data =>
      if decide ((length fill < 8)%nat /\ ((pos + 3 + length fill) mod 8 = 0)%nat /\ zlen data < 2 ^ 16 /\
                 Forall (fun c => 0 <= c < 256) data)
      then Some (fill ++ bits_of 16 (zlen data) ++ bits_of 16 (2 ^ 16 - 1 - zlen data) ++ unpack data)
      else None
  | Fixed ts => tokens_bits fixed_ll fixed_ld ts
  | Dynamic lc nc n0 xs ts =>
      l ← expand_runs [] xs;
      let n1 := zlen l - n0 in
      let ll := take (Z.to_nat n0) l in
      let ld := drop (Z.to_nat n0) l in
      if decide (length lc = 19%nat /\ Forall (fun c => 0 <= c < 8) lc /\ lens_ok lc /\
                 4 <= nc <= 19 /\ Forall (fun s => len_of lc s = 0) (drop (Z.to_nat nc) order) /\
                 257 <= n0 < 289 /\ 1 <= n1 < 33 /\ lens_ok ll /\ lens_ok ld)
      then
        a ← runs_bits lc xs; b ← tokens_bits ll ld ts;
        Some (bits_of 5 (n0 - 257) ++ bits_of 5 (n1 - 1) ++ bits_of 4 (nc - 4) ++
              concat (map (fun s => bits_of 3 (len_of lc s)) (take (Z.to_nat nc) order)) ++ a ++ b)
      else None
  end.
Definition block_type (x : block) : Z := match x with Stored _ _ => 0 | Fixed _ => 1 | Dynamic _ _ _ _ _ => 2 end.
Definition expand_block (out : list Z) (x : block) : option (list Z) :=
  match x with
  | Stored _ data => Some (out ++ data)
  | Fixed ts => expand_tokens out ts
  | Dynamic _ _ _ _ ts => expand_tokens out ts
  end.

(** Blocks: the last one has its first bit set. *)
Fixpoint blocks_bits (pos : nat) (xs : list block) : option (list bool) :=
  match xs with
  | [] => None
  | x :: xs =>
      a ← block_bits pos x;
      let h := (match xs with [] => true | _ => false end) :: bits_of 2 (block_type x) ++ a in
      match xs with
      | [] => Some h
      | _ => b ← blocks_bits (pos + length h) xs; Some (h ++ b)
      end
  end.
Fixpoint expand_blocks (out : list Z) (xs : list block) : option (list Z) :=
  match xs with [] => Some out | x :: xs => out ← expand_block out x; expand_blocks out xs end.

(** ** Streams (RFC 1950) *)

(** Adler-32. *)
Definition adler_step (s : Z * Z) (c : Z) : Z * Z := let a := (s.1 + c) mod 65521 in (a, (s.2 + a) mod 65521).
Definition adler32 (l : list Z) : Z := let '(a, b) := fold_left adler_step l (1, 0) in b * 2 ^ 16 + a.

(** The two bytes in front: method 8, no dictionary, and a multiple of 31. *)
Definition header_ok (cmf flg : Z) : Prop :=
  0 <= cmf < 256 /\ 0 <= flg < 256 /\ cmf mod 16 = 8 /\ (flg / 32) mod 2 = 0 /\ (cmf * 256 + flg) mod 31 = 0.

Definition be32 (z : Z) : list Z := [z / 2 ^ 24 mod 256; z / 2 ^ 16 mod 256; z / 2 ^ 8 mod 256; z mod 256].

(** The bytes of a stream with the blocks [xs]. *)
Definition zlib (cmf flg : Z) (xs : list block) : option (list Z) :=
  data ← expand_blocks [] xs;
  if decide (header_ok cmf flg) then
    bs ← blocks_bits 0 xs; Some (cmf :: flg :: pack (length bs) bs ++ be32 (adler32 data))
  else None.

(** ** Lemmas: bits *)

Lemma length_bits_of n z : length (bits_of n z) = n.
Proof. revert z. induction n as [| n IH]; intros z; simpl; [done | by rewrite IH]. Qed.

Lemma bits_of_app n m z : bits_of (n + m) z = bits_of n z ++ bits_of m (z / 2 ^ Z.of_nat n).
Proof.
  revert z. induction n as [| n IH]; intros z; [simpl; by rewrite Z.div_1_r |].
  cbn [Nat.add bits_of app]. f_equal. rewrite IH. do 2 f_equal.
  rewrite Z.div2_div, Z.div_div by (try lia; apply Z.pow_pos_nonneg; lia). f_equal.
  rewrite Nat2Z.inj_succ, Z.pow_succ_r; lia.
Qed.

Lemma val_bound l : 0 <= val l < 2 ^ zlen l.
Proof.
  induction l as [| b l IH]; [unfold zlen; simpl; lia |]. unfold zlen in *. cbn [val length].
  rewrite Nat2Z.inj_succ, Z.pow_succ_r by lia. destruct b; simpl Z.b2z; lia.
Qed.

Lemma bits_of_val l : bits_of (length l) (val l) = l.
Proof.
  induction l as [| b l IH]; [done |]. cbn [length bits_of val].
  rewrite Z.odd_add_mul_2, Z.div2_div. replace ((Z.b2z b + 2 * val l) / 2) with (val l) 
    by (rewrite Z.add_comm, Z.mul_comm, Z.div_add_l by lia; destruct b; [change (Z.b2z true / 2) with 0 | change (Z.b2z false / 2) with 0]; lia).
  rewrite IH. by destruct b.
Qed.

Lemma val_bits_of n z : val (bits_of n z) = z mod 2 ^ Z.of_nat n.
Proof.
  revert z. induction n as [| n IH]; intros z; [simpl; by rewrite Z.mod_1_r |]. cbn [bits_of val]. rewrite IH.
  rewrite Nat2Z.inj_succ, Z.pow_succ_r by lia. rewrite Z.rem_mul_r by (try lia; apply Z.pow_pos_nonneg; lia).
  rewrite Z.div2_div, Zmod_odd. destruct (Z.odd z); simpl; lia.
Qed.

Lemma val_app a b : val (a ++ b) = val a + 2 ^ zlen a * val b.
Proof.
  induction a as [| x a IH]; [unfold zlen; simpl; lia |]. cbn [app val]. rewrite IH. unfold zlen. cbn [length].
  rewrite Nat2Z.inj_succ, Z.pow_succ_r by lia. lia.
Qed.

Lemma bits_of_mod n z : bits_of n (z mod 2 ^ Z.of_nat n) = bits_of n z.
Proof. rewrite <- val_bits_of. rewrite <- (length_bits_of n z) at 1. apply bits_of_val. Qed.

Lemma length_unpack bs : length (unpack bs) = (8 * length bs)%nat.
Proof. unfold unpack. induction bs as [| c bs IH]; [done |]. cbn [map concat]. rewrite length_app, length_bits_of, IH. simpl. lia. Qed.

Lemma unpack_app a b : unpack (a ++ b) = unpack a ++ unpack b.
Proof. unfold unpack. by rewrite map_app, concat_app. Qed.

(** Packed bits come back, with fewer than eight zeros behind them. *)
Lemma unpack_pack n l : (length l <= n)%nat ->
  exists z, unpack (pack n l) = l ++ z /\ (length z < 8)%nat /\ Forall (in_range 8) (pack n l).
Proof.
  revert l. induction n as [| n IH]; intros l Hl.
  - destruct l; [| simpl in Hl; lia]. exists []. repeat split; [simpl; lia | constructor].
  - destruct l as [| b l]; [exists []; repeat split; [simpl; lia | constructor] |].
    cbn [pack]. set (l' := b :: l) in *.
    assert (V : in_range 8 (val (take 8 l'))).
    { pose proof (val_bound (take 8 l')) as B. unfold in_range. assert (2 ^ zlen (take 8 l') <= 2 ^ 8); [| lia].
      apply Z.pow_le_mono_r; [lia |]. unfold zlen. rewrite length_take. lia. }
    destruct (decide (8 <= length l')%nat) as [H8 | H8].
    + destruct (IH (drop 8 l')) as (z & E & Hz & F); [rewrite length_drop; lia |].
      exists z. split; [| split; [done | by constructor]]. unfold unpack in *. cbn [map concat]. rewrite E.
      replace 8%nat with (length (take 8 l')) at 1 by (rewrite length_take; lia).
      by rewrite bits_of_val, app_assoc, take_drop.
    + rewrite drop_ge by lia. assert (pack n [] = []) as -> by (by destruct n).
      exists (bits_of (8 - length l') 0). rewrite length_bits_of. split; [| split; [simpl in *; lia | by constructor]].
      unfold unpack. cbn [map concat]. rewrite app_nil_r, take_ge by lia.
      replace 8%nat with (length l' + (8 - length l'))%nat at 1 by lia. rewrite bits_of_app, bits_of_val. do 2 f_equal.
      apply Z.div_small. apply val_bound.
Qed.

(** ** Lemmas: canonical codes are prefix free *)

Definition len_ok (l : Z) : Prop := 0 <= l <= 15.

Lemma count_cons l lens k : count (l :: lens) k = (if decide (l = k) then 1 else 0) + count lens k.
Proof. unfold count, zlen. rewrite filter_cons. case_decide; simpl; lia. Qed.

Lemma count_nonneg lens k : 0 <= count lens k.
Proof. apply zlen_nonneg. Qed.

Lemma count_of_app a b k : count (a ++ b) k = count a k + count b k.
Proof. unfold count. by rewrite filter_app, zlen_app. Qed.

Lemma first_code_S lens k : first_code lens (S (S k)) = 2 * (first_code lens (S k) + count lens (Z.of_nat (S k))).
Proof.
  set (j := S k). assert (j <> 0%nat) by (unfold j; lia). clearbody j. cbn [first_code].
  by rewrite decide_False by done.
Qed.

(** What the codes of fewer than [k] bits take up. *)
Fixpoint below (lens : list Z) (k : nat) : Z :=
  match k with O => 0 | S k => below lens k + (if decide (k = 0%nat) then 0 else count lens (Z.of_nat k) * 2 ^ (15 - Z.of_nat k)) end.

Lemma below_S lens k : below lens (S (S k)) = below lens (S k) + count lens (Z.of_nat (S k)) * 2 ^ (15 - Z.of_nat (S k)).
Proof.
  set (j := S k). assert (j <> 0%nat) by (unfold j; lia). clearbody j. cbn [below]. by rewrite decide_False by done.
Qed.

Lemma below_first lens k : (k <= 15)%nat -> first_code lens k * 2 ^ (15 - Z.of_nat k) = below lens k.
Proof.
  induction k as [| k IH]; intros Hk; [done |]. cbn [first_code below]. rewrite <- IH by lia.
  assert (2 ^ (15 - Z.of_nat k) = 2 * 2 ^ (15 - Z.of_nat (S k))) as ->.
  { rewrite <- Z.pow_succ_r by lia. f_equal. lia. }
  case_decide; lia.
Qed.

Lemma below_mono lens i j : (i <= j)%nat -> below lens i <= below lens j.
Proof.
  induction 1 as [| j _ IH]; [done |]. cbn [below]. pose proof (count_nonneg lens (Z.of_nat j)).
  case_decide; [lia |]. assert (0 <= 2 ^ (15 - Z.of_nat j)) by (apply Z.pow_nonneg; lia). nia.
Qed.

Lemma below_cons l lens k : len_ok l ->
  below (l :: lens) k = below lens k + (if decide (1 <= l < Z.of_nat k) then weight l else 0).
Proof.
  intros Hl. unfold len_ok in Hl. induction k as [| k IH]; [simpl; case_decide; lia |].
  cbn [below]. rewrite IH, count_cons. unfold weight.
  repeat case_decide; subst; try lia; try (replace l with (Z.of_nat k) in * by lia; lia).
Qed.

Lemma kraft_below lens : Forall len_ok lens -> kraft lens = below lens 16.
Proof.
  induction 1 as [| l lens Hl _ IH]; [done |]. rewrite below_cons by done. cbn [kraft foldr]. fold (kraft lens). rewrite IH.
  unfold weight, len_ok in *. repeat case_decide; lia.
Qed.

Lemma kraft_bound lens : lens_ok lens -> kraft lens <= 2 ^ 15.
Proof.
  intros [F [-> | U]]; [done |].
  assert (G : forall l, Forall len_ok l -> kraft l <= used l * 2 ^ 14 /\ 0 <= used l); [| destruct (G lens F); lia].
  clear. induction 1 as [| l lens Hl _ [IH IH0]]; [by vm_compute |]. cbn [kraft foldr]. fold (kraft lens).
  unfold used, weight, len_ok, zlen in *. rewrite filter_cons.
  destruct (decide (l = 0)) as [-> | Hn]; [rewrite decide_False by tauto; lia |]. rewrite decide_True by done.
  cbn [length]. assert (2 ^ (15 - l) <= 2 ^ 14) by (apply Z.pow_le_mono_r; lia). lia.
Qed.

(** The words of 15 bits that start with the code of [s]. *)
Definition low (lens : list Z) (s : Z) : Z := code_value lens s * 2 ^ (15 - len_of lens s).

Lemma coded_len lens s : Forall len_ok lens -> coded lens s ->
  1 <= len_of lens s <= 15 /\ lens !! Z.to_nat s = Some (len_of lens s).
Proof.
  unfold coded, len_of. intros F [Hs Hc]. destruct (lens !! Z.to_nat s) as [k |] eqn:E; simpl in *; [| done].
  pose proof (Forall_lookup_1 _ _ _ _ F E) as K. unfold len_ok in K. split; [lia | done].
Qed.

Lemma rank_step lens i k : lens !! i = Some k -> count (take (S i) lens) k = count (take i lens) k + 1.
Proof. intros E. rewrite (take_S_r _ _ _ E), count_of_app, count_cons, decide_True by done. done. Qed.

Lemma rank_mono lens i j k : (i <= j)%nat -> count (take i lens) k <= count (take j lens) k.
Proof.
  intros H. rewrite <- (take_drop i (take j lens)), count_of_app, take_take, Nat.min_l by done.
  pose proof (count_nonneg (drop i (take j lens)) k). lia.
Qed.

Lemma low_spec lens s : Forall len_ok lens -> coded lens s ->
  let k := len_of lens s in
  low lens s = below lens (Z.to_nat k) + count (take (Z.to_nat s) lens) k * 2 ^ (15 - k) /\
  low lens s + 2 ^ (15 - k) <= below lens (S (Z.to_nat k)).
Proof.
  intros F C k. destruct (coded_len lens s F C) as [K E]. fold k in K, E. unfold low, code_value. fold k.
  assert (0 <= 2 ^ (15 - k)) by (apply Z.pow_nonneg; lia).
  split; [rewrite Z.mul_add_distr_r, <- below_first by lia; do 3 f_equal; lia |].
  cbn [below]. rewrite decide_False by lia. rewrite Z2Nat.id by lia.
  rewrite Z.mul_add_distr_r. rewrite <- below_first by lia. rewrite Z2Nat.id by lia.
  pose proof (rank_step lens _ _ E) as R. pose proof (rank_mono lens (S (Z.to_nat s)) (length lens) k) as M.
  apply lookup_lt_Some in E as L. specialize (M ltac:(lia)). rewrite (take_ge lens (length lens)) in M by lia. nia.
Qed.

Lemma low_disjoint lens s s' : Forall len_ok lens -> coded lens s -> coded lens s' -> s <> s' ->
  low lens s + 2 ^ (15 - len_of lens s) <= low lens s' \/ low lens s' + 2 ^ (15 - len_of lens s') <= low lens s.
Proof.
  intros F.
  assert (G : forall s s', coded lens s -> coded lens s' ->
    len_of lens s < len_of lens s' \/ (len_of lens s = len_of lens s' /\ s < s') ->
    low lens s + 2 ^ (15 - len_of lens s) <= low lens s').
  { clear s s'. intros s s' C C' H. destruct (low_spec lens s F C) as [E L]. destruct (low_spec lens s' F C') as [E' L'].
    destruct (coded_len lens s F C) as [K Q]. destruct (coded_len lens s' F C') as [K' Q'].
    assert (0 <= 2 ^ (15 - len_of lens s')) by (apply Z.pow_nonneg; lia).
    destruct H as [H | [H Hs]].
    - pose proof (below_mono lens (S (Z.to_nat (len_of lens s))) (Z.to_nat (len_of lens s')) ltac:(lia)).
      pose proof (count_nonneg (take (Z.to_nat s') lens) (len_of lens s')). nia.
    - rewrite E, E', <- H. destruct C as [C0 _]. pose proof (rank_step lens _ _ Q) as R.
      pose proof (rank_mono lens (S (Z.to_nat s)) (Z.to_nat s') (len_of lens s) ltac:(lia)).
      assert (0 <= 2 ^ (15 - len_of lens s)) by (apply Z.pow_nonneg; lia). nia. }
  intros C C' N. destruct (Z.lt_trichotomy (len_of lens s) (len_of lens s')) as [H | [H | H]].
  - left. apply G; tauto.
  - destruct (Z.lt_trichotomy s s') as [? | [? | ?]]; [left; apply G; auto | done | right; apply G; auto].
  - right. apply G; tauto.
Qed.

Lemma code_value_bound lens s : lens_ok lens -> coded lens s -> 0 <= code_value lens s < 2 ^ len_of lens s.
Proof.
  intros H C. pose proof (kraft_bound _ H) as K. destruct H as [F _]. rewrite kraft_below in K by done.
  destruct (coded_len lens s F C) as [L Q]. destruct (low_spec lens s F C) as [E B].
  pose proof (below_mono lens (S (Z.to_nat (len_of lens s))) 16 ltac:(lia)) as M.
  assert (P : 2 ^ 15 = 2 ^ len_of lens s * 2 ^ (15 - len_of lens s)) by (rewrite <- Z.pow_add_r by lia; f_equal; lia).
  assert (0 < 2 ^ (15 - len_of lens s)) by (apply Z.pow_pos_nonneg; lia).
  pose proof (below_mono lens 0 (Z.to_nat (len_of lens s)) ltac:(lia)) as M0. cbn [below] in M0.
  pose proof (count_nonneg (take (Z.to_nat s) lens) (len_of lens s)).
  unfold low in *. nia.
Qed.

Lemma length_code lens s : length (code lens s) = Z.to_nat (len_of lens s).
Proof. unfold code. by rewrite length_reverse, length_bits_of. Qed.

Lemma code_prefix_free lens s s' :
  lens_ok lens -> coded lens s -> coded lens s' -> code lens s `prefix_of` code lens s' -> s = s'.
Proof.
  intros H C C' P. destruct (decide (s = s')) as [| N]; [done | exfalso].
  pose proof (code_value_bound _ _ H C) as B. pose proof (code_value_bound _ _ H C') as B'. destruct H as [F _].
  destruct (coded_len _ _ F C) as [K _]. destruct (coded_len _ _ F C') as [K' _].
  pose proof (prefix_length _ _ P) as L. rewrite !length_code in L.
  unfold code in P. set (k := len_of lens s) in *. set (k' := len_of lens s') in *.
  replace (Z.to_nat k') with (Z.to_nat (k' - k) + Z.to_nat k)%nat in P by lia.
  rewrite bits_of_app, reverse_app, Z2Nat.id in P by lia. destruct P as [r P].
  apply app_inj_1 in P as [P _]; [| by rewrite !length_reverse, !length_bits_of].
  apply (f_equal (fun l => val (reverse l))) in P. rewrite !reverse_involutive, !val_bits_of, !Z2Nat.id in P by lia.
  rewrite (Z.mod_small (code_value lens s)) in P by lia.
  assert (Q : 2 ^ k' = 2 ^ k * 2 ^ (k' - k)) by (rewrite <- Z.pow_add_r by lia; f_equal; lia).
  assert (D : 0 < 2 ^ (k' - k)) by (apply Z.pow_pos_nonneg; lia).
  rewrite Z.mod_small in P by (split; [apply Z.div_pos | apply Z.div_lt_upper_bound]; lia).
  pose proof (Z.div_mod (code_value lens s') (2 ^ (k' - k)) ltac:(lia)) as DM. rewrite P in DM.
  pose proof (Z.mod_pos_bound (code_value lens s') (2 ^ (k' - k)) D) as MB.
  assert (W : 2 ^ (15 - k) = 2 ^ (k' - k) * 2 ^ (15 - k')) by (rewrite <- Z.pow_add_r by lia; f_equal; lia).
  assert (0 < 2 ^ (15 - k')) by (apply Z.pow_pos_nonneg; lia).
  pose proof (low_disjoint lens s s' F C C' N) as X. unfold low in X. fold k k' in X. rewrite W, DM in X.
  rewrite <- P in X. nia.
Qed.

End Deflate.
