(* ===== verification/Tinfl.v ===== *)
(** * deps/miniz/tinfl.c: the inflater of the boot archive

    tinfl_decompress is a coroutine; tinfl_decompress_mem_to_mem, the function that the kernel
    calls, enters it once, with all of the input, so that each return of a status ends it.
    A [run] is what the coroutine does up to such a return.  The kernel is built for 64 bits without
    unaligned loads: the bit buffer has 64 bits and copies go byte by byte.  A write
    or a read outside the output buffer is [Fatal].  The tables are arrays that were
    cleared; of the arrays of code sizes only the entries that the loops read are kept. *)

From S2P Require Import Prelude.

Module Tinfl.

(** ** Returning from the coroutine *)

Definition FAILED : Z := -1.
Definition HAS_MORE_OUTPUT : Z := 2.

(** A part of the coroutine returns a status ([inl]) or goes on. *)
Definition run (A : Type) : Type := outcome (Z + A).
Definition Exit {A} (status : Z) : run A := Ret (inl status).
Definition Go {A} (a : A) : run A := Ret (inr a).
Definition andthen {A B} (m : run A) (f : A -> run B) : run B :=
  match m with Ret (inr a) => f a | Ret (inl s) => Ret (inl s) | Fatal w => Fatal w | OutOfFuel => OutOfFuel end.
Notation "x <~ m ; k" := (andthen m (fun x => k)) (at level 20, m at level 100, k at level 200, right associativity).
Notation "' x <~ m ; k" := (andthen m (fun x => k)) (at level 20, x pattern, m at level 100, k at level 200, right associativity).
Definition lift {A} (m : outcome A) : run A :=
  match m with Ret a => Go a | Fatal w => Fatal w | OutOfFuel => OutOfFuel end.

(** ** Bits of the input *)

(** The bit buffer and the input from pIn_buf_cur on. *)
Record bits : Type := mkBits { bit_buf : Z; num_bits : Z; input : list Z }.

(** deps/miniz/tinfl.c:171-185, TINFL_GET_BYTE, without more input to come. *)
Definition get_byte (b : bits) : Z * bits :=
  match input b with [] => (0, b) | c :: r => (c, mkBits (bit_buf b) (num_bits b) r) end.

(** deps/miniz/tinfl.c:187-187, a byte more in the bit buffer. *)
Definition add_byte (b : bits) : bits :=
  let '(c, b) := get_byte b in
  mkBits (Z.lor (bit_buf b) (u64 (Z.shiftl c (num_bits b)))) (u32 (num_bits b + 8)) (input b).

(** deps/miniz/tinfl.c:187-187, TINFL_NEED_BITS. *)
Fixpoint need_bits (fuel : nat) (n : Z) (b : bits) : outcome bits :=
  let b := add_byte b in
  if num_bits b <? n then match fuel with O => OutOfFuel | S f => need_bits f n b end else Ret b.

Definition drop_bits (n : Z) (b : bits) : bits :=
  mkBits (Z.shiftr (bit_buf b) n) (u32 (num_bits b - n)) (input b).

Definition ready (n : Z) (b : bits) : outcome bits := if num_bits b <? n then need_bits (Z.to_nat n) n b else Ret b.

(** deps/miniz/tinfl.c:188-188, TINFL_SKIP_BITS. *)
Definition skip_bits (n : Z) (b : bits) : outcome bits := b ← ready n b; Ret (drop_bits n b).

(** deps/miniz/tinfl.c:189-189, TINFL_GET_BITS. *)
Definition get_bits (n : Z) (b : bits) : outcome (Z * bits) :=
  b ← ready n b; Ret (Z.land (bit_buf b) (Z.shiftl 1 n - 1), drop_bits n b).

(** ** Huffman tables *)

(** An array that was cleared, and the constant arrays. *)
Notation array := (gmap Z Z).
Definition at_ (a : array) (i : Z) : Z := default 0 (a !! i).
Definition nth_ (l : list Z) (i : Z) : Z := default 0 (l !! Z.to_nat i).

Definition TINFL_FAST_LOOKUP_BITS : Z := 10.
Definition TINFL_FAST_LOOKUP_SIZE : Z := 1024.

(** deps/miniz/tinfl.c:103-107, tinfl_huff_table. *)
Record huff : Type := mkHuff { m_look_up : array; m_tree : array }.

(** deps/miniz/tinfl.c:313-313, how many symbols have a code of each size. *)
Definition count_sizes (sizes : list Z) : array := fold_left (fun (a : array) c => <[c := at_ a c + 1]> a) sizes ∅.

(** deps/miniz/tinfl.c:314-315, the number of used symbols, the total and the first codes. *)
Definition size_step (total_syms : array) (x : Z * Z * array) (i : Z) : Z * Z * array :=
  let '(used_syms, total, next_code) := x in
  let total := u32 (Z.shiftl (total + at_ total_syms i) 1) in
  (used_syms + at_ total_syms i, total, <[i + 1 := total]> next_code).
Definition first_codes (total_syms : array) : Z * Z * array :=
  fold_left (size_step total_syms) (seqZ 1 15) (0, 0, <[1 := 0]> (<[0 := 0]> ∅)).

(** deps/miniz/tinfl.c:323-323, the bits of a code of [l] bits in reverse. *)
Fixpoint reverse_code (l : nat) (cur_code rev_code : Z) : Z :=
  match l with
  | O => rev_code
  | S l => reverse_code l (Z.shiftr cur_code 1) (Z.lor (Z.shiftl rev_code 1) (Z.land cur_code 1))
  end.

(** deps/miniz/tinfl.c:324-324, the entries of a short code. *)
Fixpoint fill_short (fuel : nat) (look_up : array) (rev_code code_size k : Z) : outcome array :=
  if rev_code <? TINFL_FAST_LOOKUP_SIZE then
    match fuel with
    | O => OutOfFuel
    | S f => fill_short f (<[rev_code := k]> look_up) (rev_code + Z.shiftl 1 code_size) code_size k
    end
  else Ret look_up.

(** deps/miniz/tinfl.c:327-331, the way to a leaf, [n] nodes long: the node, the rest of the code, the
    tree and the next free node. *)
Fixpoint descend (n : nat) (rev_code : Z) (tree : array) (tree_cur tree_next : Z) : Z * Z * array * Z :=
  match n with
  | O => (tree_cur, rev_code, tree, tree_next)
  | S n =>
      let rev_code := Z.shiftr rev_code 1 in
      let tree_cur := tree_cur - Z.land rev_code 1 in
      if at_ tree (- tree_cur - 1) =? 0
      then descend n rev_code (<[- tree_cur - 1 := tree_next]> tree) tree_next (tree_next - 2)
      else descend n rev_code tree (at_ tree (- tree_cur - 1)) tree_next
  end.

(** The arrays while a table is built. *)
Record building : Type := mkBuild { look_up : array; tree : array; next_code : array; tree_next : Z }.

(** deps/miniz/tinfl.c:325-332, a code that is longer than the index of the first table. *)
Definition put_long (x : building) (rev_code code_size sym_index : Z) : building :=
  let i := Z.land rev_code (TINFL_FAST_LOOKUP_SIZE - 1) in
  let tree_cur := at_ (look_up x) i in
  let '(lu, tree_cur, next) :=
    if 0 =? tree_cur then (<[i := tree_next x]> (look_up x), tree_next x, tree_next x - 2)
    else (look_up x, tree_cur, tree_next x) in
  let rev_code := Z.shiftr rev_code (TINFL_FAST_LOOKUP_BITS - 1) in
  let '(tree_cur, rev_code, tr, next) :=
    descend (Z.to_nat (code_size - (TINFL_FAST_LOOKUP_BITS + 1))) rev_code (tree x) tree_cur next in
  let tree_cur := tree_cur - Z.land (Z.shiftr rev_code 1) 1 in
  mkBuild lu (<[- tree_cur - 1 := sym_index]> tr) (next_code x) next.

(** deps/miniz/tinfl.c:320-333, the body of the loop over the symbols. *)
Definition put_symbol (x : building) (sym_index code_size : Z) : outcome building :=
  if code_size =? 0 then Ret x
  else
    let cur_code := at_ (next_code x) code_size in
    let x := mkBuild (look_up x) (tree x) (<[code_size := cur_code + 1]> (next_code x)) (tree_next x) in
    let rev_code := reverse_code (Z.to_nat code_size) cur_code 0 in
    if code_size <=? TINFL_FAST_LOOKUP_BITS then
      lu ← fill_short (Z.to_nat TINFL_FAST_LOOKUP_SIZE) (look_up x) rev_code code_size (Z.lor (Z.shiftl code_size 9) sym_index);
      Ret (mkBuild lu (tree x) (next_code x) (tree_next x))
    else Ret (put_long x rev_code code_size sym_index).

Fixpoint put_symbols (x : building) (sym_index : Z) (sizes : list Z) : outcome building :=
  match sizes with
  | [] => Ret x
  | s :: sizes => x ← put_symbol x sym_index s; put_symbols x (sym_index + 1) sizes
  end.

(** deps/miniz/tinfl.c:309-333, the table of the code sizes [sizes]. *)
Definition make_table (sizes : list Z) : run huff :=
  let '(used_syms, total, next) := first_codes (count_sizes sizes) in
  if negb (65536 =? total) && (used_syms >? 1) then Exit FAILED
  else x <~ lift (put_symbols (mkBuild ∅ ∅ next (-1)) 0 sizes); Go (mkHuff (look_up x) (tree x)).

(** ** Decoding a symbol *)

(** deps/miniz/tinfl.c:226-226, the walk down the tree. *)
Fixpoint walk (fuel : nat) (t : array) (buf temp code_len : Z) : outcome (Z * Z) :=
  let temp := at_ t (Z.lnot temp + Z.land (Z.shiftr buf code_len) 1) in
  let code_len := code_len + 1 in
  if temp <? 0 then match fuel with O => OutOfFuel | S f => walk f t buf temp code_len end
  else Ret (temp, code_len).

(** deps/miniz/tinfl.c:204-206, the walk as far as there are bits. *)
Fixpoint walk_upto (fuel : nat) (t : array) (buf n temp code_len : Z) : outcome Z :=
  let temp := at_ t (Z.lnot temp + Z.land (Z.shiftr buf code_len) 1) in
  let code_len := code_len + 1 in
  if (temp <? 0) && (n >=? code_len + 1)
  then match fuel with O => OutOfFuel | S f => walk_upto f t buf n temp code_len end
  else Ret temp.

(** deps/miniz/tinfl.c:197-206, whether the bit buffer has a whole code. *)
Definition has_code (h : huff) (b : bits) : outcome bool :=
  let temp := at_ (m_look_up h) (Z.land (bit_buf b) (TINFL_FAST_LOOKUP_SIZE - 1)) in
  if temp >=? 0 then
    let code_len := Z.shiftr temp 9 in Ret (negb (code_len =? 0) && (num_bits b >=? code_len))
  else if num_bits b >? TINFL_FAST_LOOKUP_BITS then
    t ← walk_upto 16 (m_tree h) (bit_buf b) (num_bits b) temp TINFL_FAST_LOOKUP_BITS; Ret (t >=? 0)
  else Ret false.

(** deps/miniz/tinfl.c:195-208, TINFL_HUFF_BITBUF_FILL. *)
Fixpoint huff_fill (fuel : nat) (h : huff) (b : bits) : outcome bits :=
  found ← has_code h b;
  if (found : bool) then Ret b
  else
    let b := add_byte b in
    if num_bits b <? 15 then match fuel with O => OutOfFuel | S f => huff_fill f h b end else Ret b.

(** deps/miniz/tinfl.c:223-227, the symbol in the bit buffer, with the length of its code in the
    entry of the first table. *)
Definition look (h : huff) (buf : Z) : outcome (Z * Z) :=
  let temp := at_ (m_look_up h) (Z.land buf (TINFL_FAST_LOOKUP_SIZE - 1)) in
  if temp >=? 0 then Ret (temp, Z.shiftr temp 9)
  else walk 16 (m_tree h) buf temp TINFL_FAST_LOOKUP_BITS.

(** deps/miniz/tinfl.c:214-227, TINFL_HUFF_DECODE. *)
Definition huff_decode (h : huff) (b : bits) : outcome (Z * bits) :=
  b ← (if num_bits b <? 15 then
         match input b with
         | c0 :: c1 :: r =>
             Ret (mkBits (Z.lor (Z.lor (bit_buf b) (u64 (Z.shiftl c0 (num_bits b)))) (u64 (Z.shiftl c1 (num_bits b + 8))))
                         (u32 (num_bits b + 16)) r)
         | _ => huff_fill 2 h b
         end
       else Ret b);
  '(temp, code_len) ← look h (bit_buf b);
  Ret (if at_ (m_look_up h) (Z.land (bit_buf b) (TINFL_FAST_LOOKUP_SIZE - 1)) >=? 0 then Z.land temp 511 else temp,
       drop_bits code_len b).

(** ** The output buffer *)

(** The bytes of the buffer and the position of pOut_buf_cur. *)
Record out : Type := mkOut { obuf : list Z; ocur : Z }.
Definition full (o : out) : bool := ocur o >=? zlen (obuf o).

Definition poke (o : out) (i c : Z) : outcome out :=
  if (0 <=? i) && (i <? zlen (obuf o)) then Ret (mkOut (<[Z.to_nat i := c]> (obuf o)) (ocur o)) else Fatal "write past the output buffer".
Definition peek (o : out) (i : Z) : outcome Z :=
  if (0 <=? i) && (i <? zlen (obuf o)) then Ret (nth_ (obuf o) i) else Fatal "read past the output buffer".
Definition advance (o : out) (n : Z) : out := mkOut (obuf o) (ocur o + n).

(** *pOut_buf_cur++ = c. *)
Definition put (o : out) (c : Z) : outcome out := o' ← poke o (ocur o) (u8 c); Ret (advance o' 1).

(** ** Stored blocks *)

(** deps/miniz/tinfl.c:264-264, a byte of the header, from the bit buffer as long as that has bits. *)
Definition raw_byte (b : bits) : outcome (Z * bits) :=
  if negb (num_bits b =? 0) then get_bits 8 b else Ret (get_byte b).

(** deps/miniz/tinfl.c:266-272, the bytes that are in the bit buffer: how many are left. *)
Fixpoint stored_bits (fuel : nat) (counter : Z) (b : bits) (o : out) : run (Z * bits * out) :=
  if negb (counter =? 0) && negb (num_bits b =? 0) then
    match fuel with
    | O => OutOfFuel
    | S f =>
        '(dist, b) <~ lift (get_bits 8 b);
        if full o then Exit HAS_MORE_OUTPUT
        else o <~ lift (put o dist); stored_bits f (counter - 1) b o
    end
  else Go (counter, b, o).

(** memcpy to the output. *)
Fixpoint put_list (o : out) (l : list Z) : outcome out :=
  match l with [] => Ret o | c :: l => o ← put o c; put_list o l end.

(** deps/miniz/tinfl.c:273-289, the other bytes. *)
Fixpoint stored_copy (fuel : nat) (counter : Z) (b : bits) (o : out) : run (bits * out) :=
  if negb (counter =? 0) then
    match fuel with
    | O => OutOfFuel
    | S f =>
        if full o then Exit HAS_MORE_OUTPUT
        else if zlen (input b) =? 0 then Exit FAILED
        else
          let n := Z.min (Z.min (zlen (obuf o) - ocur o) (zlen (input b))) counter in
          o <~ lift (put_list o (take (Z.to_nat n) (input b)));
          stored_copy f (counter - n) (mkBits (bit_buf b) (num_bits b) (drop (Z.to_nat n) (input b))) o
    end
  else Go (b, o).

(** deps/miniz/tinfl.c:262-290, a stored block. *)
Definition stored (b : bits) (o : out) : run (bits * out) :=
  b <~ lift (skip_bits (Z.land (num_bits b) 7) b);
  '(h0, b) <~ lift (raw_byte b); '(h1, b) <~ lift (raw_byte b);
  '(h2, b) <~ lift (raw_byte b); '(h3, b) <~ lift (raw_byte b);
  let counter := Z.lor h0 (Z.shiftl h1 8) in
  if negb (counter =? Z.lxor 0xFFFF (Z.lor h2 (Z.shiftl h3 8))) then Exit FAILED
  else
    '(counter, b, o) <~ stored_bits (Z.to_nat counter) counter b o;
    stored_copy (Z.to_nat counter) counter b o.

(** ** The code sizes of a block *)

(** deps/miniz/tinfl.c:300-301, the fixed codes. *)
Definition fixed_lengths : list Z := replicate 144 8 ++ replicate 112 9 ++ replicate 24 7 ++ replicate 8 8.
Definition fixed_distances : list Z := replicate 32 5.

(** deps/miniz/tinfl.c:235-235, s_length_dezigzag. *)
Definition s_length_dezigzag : list Z := [16; 17; 18; 0; 8; 7; 9; 6; 10; 5; 11; 4; 12; 3; 13; 2; 14; 1; 15].

(** deps/miniz/tinfl.c:306-306, the sizes of the codes for code sizes. *)
Fixpoint size_codes (order : list Z) (b : bits) (sizes : list Z) : outcome (list Z * bits) :=
  match order with
  | [] => Ret (sizes, b)
  | z :: order => '(s, b) ← get_bits 3 b; size_codes order b (<[Z.to_nat z := s]> sizes)
  end.

(** deps/miniz/tinfl.c:336-345, the code sizes; [l] are those of m_len_codes before counter. *)
Fixpoint len_codes (fuel : nat) (h : huff) (total : Z) (b : bits) (l : list Z) : run (list Z * bits) :=
  if zlen l <? total then
    match fuel with
    | O => OutOfFuel
    | S f =>
        '(dist, b) <~ lift (huff_decode h b);
        if dist <? 16 then len_codes f h total b (l ++ [dist])
        else if (dist =? 16) && (zlen l =? 0) then Exit FAILED
        else
          '(s, b) <~ lift (get_bits (nth_ [2; 3; 7] (dist - 16)) b);
          let s := s + nth_ [3; 3; 11] (dist - 16) in
          len_codes f h total b (l ++ replicate (Z.to_nat s) (if dist =? 16 then nth_ l (zlen l - 1) else 0))
    end
  else Go (l, b).

(** deps/miniz/tinfl.c:305-352, the tables of a block with codes of its own. *)
Definition dynamic_tables (b : bits) : run (huff * huff * bits) :=
  '(n0, b) <~ lift (get_bits 5 b); let n0 := n0 + 257 in
  '(n1, b) <~ lift (get_bits 5 b); let n1 := n1 + 1 in
  '(n2, b) <~ lift (get_bits 4 b); let n2 := n2 + 4 in
  '(sizes, b) <~ lift (size_codes (take (Z.to_nat n2) s_length_dezigzag) b (replicate 19 0));
  t2 <~ make_table sizes;
  '(l, b) <~ len_codes (Z.to_nat (n0 + n1)) t2 (n0 + n1) b [];
  if negb (n0 + n1 =? zlen l) then Exit FAILED
  else
    t1 <~ make_table (drop (Z.to_nat n0) l);
    t0 <~ make_table (take (Z.to_nat n0) l);
    Go (t0, t1, b).

(** deps/miniz/tinfl.c:297-302, the tables of the fixed codes. *)
Definition fixed_tables (b : bits) : run (huff * huff * bits) :=
  t1 <~ make_table fixed_distances; t0 <~ make_table fixed_lengths; Go (t0, t1, b).

(** ** Literals and copies *)

(** deps/miniz/tinfl.c:370-370, 32 bits more. *)
Definition refill (b : bits) : bits :=
  if num_bits b <? 30 then
    match input b with
    | c0 :: c1 :: c2 :: c3 :: r =>
        let v := Z.lor (Z.lor (Z.lor c0 (Z.shiftl c1 8)) (Z.shiftl c2 16)) (Z.shiftl c3 24) in
        mkBits (Z.lor (bit_buf b) (u64 (Z.shiftl v (num_bits b)))) (u32 (num_bits b + 32)) r
    | _ => b
    end
  else b.

(** deps/miniz/tinfl.c:356-405, the literals up to a symbol of another kind. *)
Fixpoint literals (fuel : nat) (t0 : huff) (b : bits) (o : out) : run (Z * bits * out) :=
  match fuel with
  | O => OutOfFuel
  | S f =>
      if (zlen (input b) <? 4) || (zlen (obuf o) - ocur o <? 2) then
        '(counter, b) <~ lift (huff_decode t0 b);
        if counter >=? 256 then Go (counter, b, o)
        else if full o then Exit HAS_MORE_OUTPUT
        else o <~ lift (put o counter); literals f t0 b o
      else
        let b := refill b in
        '(counter, code_len) <~ lift (look t0 (bit_buf b));
        let b := drop_bits code_len b in
        if negb (Z.land counter 256 =? 0) then Go (counter, b, o)
        else
          '(sym2, code_len) <~ lift (look t0 (bit_buf b));
          let b := drop_bits code_len b in
          o <~ lift (poke o (ocur o) (u8 counter));
          if negb (Z.land sym2 256 =? 0) then Go (sym2, b, advance o 1)
          else o <~ lift (poke o (ocur o + 1) (u8 sym2)); literals f t0 b (advance o 2)
  end.

(** deps/miniz/tinfl.c:231-234, the bases and the extra bits of lengths and distances. *)
Definition s_length_base : list Z := [3;4;5;6;7;8;9;10;11;13;15;17;19;23;27;31;35;43;51;59;67;83;99;115;131;163;195;227;258;0;0].
Definition s_length_extra : list Z := [0;0;0;0;0;0;0;0;1;1;1;1;2;2;2;2;3;3;3;3;4;4;4;4;5;5;5;5;0;0;0].
Definition s_dist_base : list Z := [1;2;3;4;5;7;9;13;17;25;33;49;65;97;129;193;257;385;513;769;1025;1537;2049;3073;4097;6145;8193;12289;16385;24577;0;0].
Definition s_dist_extra : list Z := [0;0;0;0;1;1;2;2;3;3;4;4;5;5;6;6;7;7;8;8;9;9;10;10;11;11;12;12;13;13;0;0].

(** deps/miniz/tinfl.c:409-409, the extra bits; the same for a distance (413). *)
Definition extra (n base : Z) (b : bits) : outcome (Z * bits) :=
  if negb (n =? 0) then '(x, b) ← get_bits n b; Ret (base + x, b) else Ret (base, b).

(** deps/miniz/tinfl.c:425-429, a copy that does not fit the buffer. *)
Fixpoint copy_slow (counter : nat) (o : out) (src : Z) : run out :=
  match counter with
  | O => Go o
  | S n =>
      if full o then Exit HAS_MORE_OUTPUT
      else c <~ lift (peek o src); o <~ lift (put o c); copy_slow n o (src + 1)
  end.

(** *pOut_buf_cur++ = *pSrc++. *)
Definition copy1 (os : out * Z) : outcome (out * Z) :=
  c ← peek os.1 os.2; o ← put os.1 c; Ret (o, os.2 + 1).

(** deps/miniz/tinfl.c:455-468, a copy in steps of three bytes. *)
Fixpoint copy_fast (fuel : nat) (counter : Z) (os : out * Z) : outcome out :=
  os ← copy1 os; os ← copy1 os; os ← copy1 os;
  let counter := counter - 3 in
  if counter >? 2 then match fuel with O => OutOfFuel | S f => copy_fast f counter os end
  else if counter >? 0 then
    os ← copy1 os; os ← (if counter >? 1 then copy1 os else Ret os); Ret os.1
  else Ret os.1.

(** deps/miniz/tinfl.c:408-469, a copy of earlier output for the length symbol [counter]. *)
Definition copy_match (t1 : huff) (counter : Z) (b : bits) (o : out) : run (bits * out) :=
  '(counter, b) <~ lift (extra (nth_ s_length_extra (counter - 257)) (nth_ s_length_base (counter - 257)) b);
  '(dist, b) <~ lift (huff_decode t1 b);
  '(dist, b) <~ lift (extra (nth_ s_dist_extra dist) (nth_ s_dist_base dist) b);
  let from_start := ocur o in
  if dist >? from_start then Exit FAILED
  else
    let src := from_start - dist in
    o <~ (if Z.max (ocur o) src + counter >? zlen (obuf o) then copy_slow (Z.to_nat counter) o src
          else lift (copy_fast (Z.to_nat counter) counter (o, src)));
    Go (b, o).

(** deps/miniz/tinfl.c:353-470, the symbols of a block up to its end. *)
Fixpoint symbols (fuel : nat) (t0 t1 : huff) (b : bits) (o : out) : run (bits * out) :=
  match fuel with
  | O => OutOfFuel
  | S f =>
      '(counter, b, o) <~ literals (length (obuf o) + 1) t0 b o;
      let counter := Z.land counter 511 in
      if counter =? 256 then Go (b, o)
      else '(b, o) <~ copy_match t1 counter b o; symbols f t0 t1 b o
  end.

(** ** The stream *)

(** deps/miniz/tinfl.c:258-471, the blocks. *)
Fixpoint blocks (fuel : nat) (b : bits) (o : out) : run (bits * out) :=
  match fuel with
  | O => OutOfFuel
  | S f =>
      '(final, b) <~ lift (get_bits 3 b);
      let type := Z.shiftr final 1 in
      '(b, o) <~
        (if type =? 0 then stored b o
         else if type =? 3 then Exit FAILED
         else
           '(t0, t1, b) <~ (if type =? 1 then fixed_tables b else dynamic_tables b);
           symbols (length (obuf o) + 1) t0 t1 b o);
      if Z.land final 1 =? 0 then blocks f b o else Go (b, o)
  end.

(** deps/miniz/tinfl.c:252-255, the two bytes of the zlib header. *)
Definition header (b : bits) : run bits :=
  let '(zhdr0, b) := get_byte b in
  let '(zhdr1, b) := get_byte b in
  if negb ((zhdr0 * 256 + zhdr1) mod 31 =? 0) || negb (Z.land zhdr1 32 =? 0) || negb (Z.land zhdr0 15 =? 8) then Exit FAILED
  else Go b.

(** deps/miniz/tinfl.c:474-474, the checksum behind the blocks. *)
Fixpoint trailer (n : nat) (z : Z) (b : bits) : outcome (Z * bits) :=
  match n with
  | O => Ret (z, b)
  | S n => '(s, b) ← raw_byte b; trailer n (Z.lor (u32 (Z.shiftl z 8)) s) b
  end.

(** deps/miniz/tinfl.c:488-493, the sums over a block of the output. *)
Definition adler_sum (s : Z * Z) (l : list Z) : Z * Z :=
  fold_left (fun s c => let s1 := u32 (s.1 + c) in (s1, u32 (s.2 + s1))) l s.

(** deps/miniz/tinfl.c:486-495, the sums over the output, a block of [block_len] bytes first. *)
Fixpoint adler_blocks (fuel : nat) (s : Z * Z) (l : list Z) (block_len : Z) : outcome (Z * Z) :=
  if zlen l =? 0 then Ret s
  else
    match fuel with
    | O => OutOfFuel
    | S f =>
        let '(s1, s2) := adler_sum s (take (Z.to_nat block_len) l) in
        adler_blocks f (s1 mod 65521, s2 mod 65521) (drop (Z.to_nat block_len) l) 5552
    end.

(** deps/miniz/tinfl.c:484-496, the checksum of the output. *)
Definition check_adler32 (l : list Z) : outcome Z :=
  '(s1, s2) ← adler_blocks (length l + 1) (1, 0) l (zlen l mod 5552);
  Ret (u32 (Z.shiftl s2 16 + s1)).

(** deps/miniz/tinfl.c:229-499, tinfl_decompress from its initial state, for the flags of the kernel
    (a zlib header, an output buffer for all of the output): the status and the output. *)
Definition tinfl_decompress (old : list Z) (src : list Z) : outcome (Z * list Z) :=
  r ← (b <~ header (mkBits 0 0 src);
       '(b, o) <~ blocks (8 * length src + 8) b (mkOut old 0);
       b <~ lift (skip_bits (Z.land (num_bits b) 7) b);
       '(z_adler32, b) <~ lift (trailer 4 1 b);
       Go (z_adler32, o));
  match r with
  | inl status => Ret (status, [])
  | inr (z_adler32, o) =>
      let l := take (Z.to_nat (ocur o)) (obuf o) in
      check ← check_adler32 l;
      Ret (if check =? z_adler32 then 0 else -2, l)
  end.

(** deps/miniz/tinfl.c:530-535, tinfl_decompress_mem_to_mem: the bytes of the output, or [None] where
    the code returns TINFL_DECOMPRESS_MEM_TO_MEM_FAILED. *)
Definition tinfl_decompress_mem_to_mem (old src : list Z) : outcome (option (list Z)) :=
  '(status, l) ← tinfl_decompress old src;
  Ret (if status =? 0 then Some l else None).

End Tinfl.
