(* ===== verification/TinflTable.v ===== *)
(** * The Huffman tables of tinfl.c decode canonical codes

    The first table is indexed by ten bits of the input and holds the symbol and the length of a
    short code, or the first node of a tree for the rest of longer ones.  The nodes are numbered
    in the order in which they are made: [own] lists the bits that lead to each of them.
    The invariant [table] says what every entry holds; each symbol that is put into the
    table keeps it, since canonical codes are prefix free. *)

From S2P Require Import Prelude Deflate Tinfl.

Module TinflTable.
Import Deflate Tinfl.

(** ** Bits of a number *)

Lemma bits_of_lookup n z i : (i < n)%nat -> bits_of n z !! i = Some (Z.testbit z (Z.of_nat i)).
Proof.
  revert z i. induction n as [| n IH]; intros z i Hi; [lia |]. destruct i as [| i]; [cbn; by rewrite Z.testbit_even_0 || by rewrite <- Z.bit0_odd |].
  cbn [bits_of lookup list_lookup]. rewrite IH by lia. f_equal. rewrite Z.div2_spec, Z.shiftr_spec by lia. f_equal. lia.
Qed.

Lemma bit_at z m : 0 <= m -> Z.land (Z.shiftr z m) 1 = Z.b2z (Z.testbit z m).
Proof.
  intros Hm. change 1 with (Z.ones 1). rewrite Z.land_ones by lia. change (2 ^ 1) with 2.
  rewrite <- Z.bit0_mod, Z.shiftr_spec by lia. by rewrite Z.add_0_l.
Qed.

Lemma take_bits_of n m z : (m <= n)%nat -> take m (bits_of n z) = bits_of m z.
Proof. intros H. replace n with (m + (n - m))%nat by lia. rewrite bits_of_app, take_app_le, take_ge; rewrite ?length_bits_of; done. Qed.

Lemma bits_of_snoc n z : bits_of (S n) z = bits_of n z ++ [Z.testbit z (Z.of_nat n)].
Proof.
  replace (S n) with (n + 1)%nat by lia. rewrite bits_of_app. f_equal. cbn [bits_of]. f_equal.
  rewrite <- Z.bit0_odd, Z.div_pow2_bits by lia. f_equal.
Qed.

Lemma land_1023 z : Z.land z (TINFL_FAST_LOOKUP_SIZE - 1) = z mod 2 ^ Z.of_nat 10.
Proof. change (TINFL_FAST_LOOKUP_SIZE - 1) with (Z.ones 10). by rewrite Z.land_ones. Qed.

Lemma at_insert a i v j : at_ (<[i := v]> a) j = if decide (i = j) then v else at_ a j.
Proof. unfold at_. destruct (decide (i = j)) as [-> | N]; [by rewrite lookup_insert_eq | by rewrite lookup_insert_ne]. Qed.

Lemma push_bit r v : 0 <= r ->
  let x := Z.lor (Z.shiftl r 1) (Z.land v 1) in Z.odd x = Z.odd v /\ Z.div2 x = r /\ 0 <= x <= 2 * r + 1.
Proof.
  intros Hr x. subst x. change (Z.land v 1) with (Z.land v (Z.ones 1)). rewrite Z.land_ones by lia.
  assert (E : Z.lor (Z.shiftl r 1) (v mod 2 ^ 1) = 2 * r + Z.b2z (Z.odd v)).
  { change (2 ^ 1) with 2. rewrite Zmod_odd. change (if Z.odd v then 1 else 0) with (Z.b2z (Z.odd v)).
    rewrite Z.shiftl_mul_pow2 by lia. change (2 ^ 1) with 2. rewrite Z.mul_comm.
    destruct (Z.odd v); simpl Z.b2z; [| rewrite Z.lor_0_r; lia]. by destruct r. }
  rewrite E. rewrite Z.add_comm, Z.odd_add_mul_2, Z.div2_div. split; [by destruct (Z.odd v) |].
  rewrite Z.mul_comm, Z.add_comm, Z.div_add_l by lia.
  destruct (Z.odd v); [change (Z.b2z true / 2) with 0 | change (Z.b2z false / 2) with 0]; simpl Z.b2z; lia.
Qed.

(** The bits of a reversed code are the code. *)
Lemma reverse_code_bits l : forall v r n, 0 <= r ->
  bits_of (l + n) (reverse_code l v r) = reverse (bits_of l v) ++ bits_of n r.
Proof.
  induction l as [| l IH]; intros v r n Hr; [done |]. cbn [reverse_code bits_of].
  destruct (push_bit r v Hr) as (O & D & B). replace (S l + n)%nat with (l + S n)%nat by lia.
  rewrite IH by apply B. rewrite reverse_cons, <- app_assoc. rewrite Z.div2_spec. f_equal.
  cbn [bits_of app]. by rewrite O, D.
Qed.

Lemma reverse_code_bound l : forall v r, 0 <= r -> 0 <= reverse_code l v r < 2 ^ Z.of_nat l * (r + 1).
Proof.
  induction l as [| l IH]; intros v r Hr; [simpl; lia |]. cbn [reverse_code].
  destruct (push_bit r v Hr) as (_ & _ & B). specialize (IH (Z.shiftr v 1) _ (proj1 B)).
  rewrite Nat2Z.inj_succ, Z.pow_succ_r by lia. assert (0 < 2 ^ Z.of_nat l) by (apply Z.pow_pos_nonneg; lia). nia.
Qed.

(** ** The invariant of a table *)

Section Table.
Context (lens : list Z) (Hok : lens_ok lens).
Notation cd s := (code lens s).

(** The symbols that were put so far: those below [n] that have a code. *)
Definition known (n s : Z) : Prop := coded lens s /\ s < n.

(** The number of a node. *)
Definition node (k : nat) : Z := -1 - 2 * Z.of_nat k.

(** The entry for the bits [p]: a node, a symbol, or nothing. *)
Definition entry (own : list (list bool)) (sy : Z -> Prop) (leaf : Z -> Z) (p : list bool) (v : Z) : Prop :=
  (exists k, own !! k = Some p /\ v = node k) \/
  (p ∉ own /\ exists s, sy s /\ v = leaf s) \/
  (p ∉ own /\ (forall s, ~ sy s) /\ v = 0).

Definition short (n : Z) (p : list bool) (s : Z) : Prop := known n s /\ cd s `prefix_of` p.
Definition short_entry (s : Z) : Z := Z.lor (Z.shiftl (len_of lens s) 9) s.
Definition long (n : Z) (p : list bool) (s : Z) : Prop := known n s /\ cd s = p.

Record table (n : Z) (own : list (list bool)) (lu tr : array) (next : Z) : Prop := {
  t_nodup : NoDup own;
  t_own : forall p, p ∈ own -> (10 <= length p)%nat /\ exists s, coded lens s /\ p `prefix_of` cd s /\ (length p < length (cd s))%nat;
  t_closed : forall p b, p ++ [b] ∈ own -> (10 <= length p)%nat -> p ∈ own;
  t_next : next = node (length own);
  t_look : forall i, 0 <= i < 2 ^ Z.of_nat 10 -> entry own (short n (bits_of 10 i)) short_entry (bits_of 10 i) (at_ lu i);
  t_tree : forall k p b, own !! k = Some p -> entry own (long n (p ++ [b])) id (p ++ [b]) (at_ tr (2 * Z.of_nat k + Z.b2z b));
  t_fresh : forall j, 2 * zlen own <= j -> at_ tr j = 0;
  t_path : forall s m, known n s -> (10 <= m < length (cd s))%nat -> take m (cd s) ∈ own }.

Lemma prefix_free s s' : coded lens s -> coded lens s' -> cd s `prefix_of` cd s' -> s = s'.
Proof. by apply code_prefix_free. Qed.

Lemma code_len s : coded lens s -> Z.of_nat (length (cd s)) = len_of lens s /\ 1 <= len_of lens s <= 15.
Proof. intros C. rewrite length_code. destruct (coded_len lens s (proj1 Hok) C) as [K _]. lia. Qed.

(** The bits of a new code lead nowhere yet. *)
Lemma new_path n own lu tr next s p : table n own lu tr next -> coded lens s -> n <= s -> cd s `prefix_of` p ->
  p ∉ own /\ (forall s', known n s' -> ~ cd s' `prefix_of` cd s) /\ (forall s', known n s' -> cd s' `prefix_of` p -> False).
Proof.
  intros T C Hn P. split; [| split].
  - intros H. destruct (t_own _ _ _ _ _ T p H) as (_ & s' & C' & P' & L).
    assert (s = s') as <- by (apply prefix_free; [done | done | by etrans]).
    pose proof (prefix_length _ _ P). lia.
  - intros s' [C' L] P'. pose proof (prefix_free s' s C' C P'). lia.
  - intros s' [C' L] P'. assert (cd s' `prefix_of` cd s \/ cd s `prefix_of` cd s') as [Q | Q] by (by eapply prefix_weak_total).
    + pose proof (prefix_free s' s C' C Q). lia.
    + pose proof (prefix_free s s' C C' Q). lia.
Qed.

(** *** Making a node *)

Lemma entry_grow own sy leaf p q v : p <> q -> entry own sy leaf p v -> entry (own ++ [q]) sy leaf p v.
Proof.
  intros N [(k & E & ->) | [(H & X) | (H & X)]].
  - left. exists k. split; [by apply lookup_app_l_Some | done].
  - right; left. split; [| done]. rewrite elem_of_app, list_elem_of_singleton. tauto.
  - right; right. split; [| done]. rewrite elem_of_app, list_elem_of_singleton. tauto.
Qed.

(** The node for [q], whose slot held nothing, when the slot is set to it. *)
Lemma grow n own lu tr next lu' tr' q s :
  table n own lu tr next -> q ∉ own -> (10 <= length q)%nat ->
  coded lens s -> q `prefix_of` cd s -> (length q < length (cd s))%nat ->
  (forall p b, q = p ++ [b] -> (10 <= length p)%nat -> p ∈ own) ->
  (forall i, 0 <= i < 2 ^ Z.of_nat 10 -> at_ lu' i = if decide (bits_of 10 i = q) then next else at_ lu i) ->
  (forall k p b, own !! k = Some p -> at_ tr' (2 * Z.of_nat k + Z.b2z b) =
     if decide (p ++ [b] = q) then next else at_ tr (2 * Z.of_nat k + Z.b2z b)) ->
  (forall j, 2 * zlen own <= j -> at_ tr' j = at_ tr j) ->
  table n (own ++ [q]) lu' tr' (next - 2).
Proof.
  intros [N O Cl Nx L T F P] Hq Lq C Pq Lc Par HL HT HF.
  assert (Own : entry (own ++ [q]) (fun _ => False) id q next).
  { left. exists (length own). split; [| done]. by rewrite lookup_app_r, Nat.sub_diag by lia. }
  split.
  - apply NoDup_app. split; [done |]. split; [| apply NoDup_singleton]. intros x Hx ->%list_elem_of_singleton. done.
  - intros p [Hp | ->%list_elem_of_singleton]%elem_of_app; [by apply O | eauto].
  - intros p b [Hp | E%list_elem_of_singleton]%elem_of_app Lp; apply elem_of_app; left; [by apply (Cl p b) | by apply (Par p b)].
  - rewrite Nx, length_app. unfold node. simpl. lia.
  - intros i Hi. rewrite HL by done. case_decide as E.
    + rewrite E. destruct Own as [X | [[? _] | [? _]]]; [by left | set_solver | set_solver].
    + by apply entry_grow, L.
  - intros k p b [E | [K E]]%lookup_app_Some.
    + rewrite (HT k p b E). case_decide as D.
      * rewrite D. destruct Own as [X | [[? _] | [? _]]]; [by left | set_solver | set_solver].
      * by apply entry_grow, T.
    + apply list_lookup_singleton_Some in E as [K0 <-]. rewrite HF, F by (unfold zlen; destruct b; simpl Z.b2z; lia).
      right; right. split; [| split; [| done]].
      * intros [H | H%list_elem_of_singleton]%elem_of_app; [by apply Hq, (Cl q b) |].
        apply (f_equal length) in H. rewrite length_app in H. simpl in H. lia.
      * intros s' [Ks E']. apply Hq. replace q with (take (length q) (cd s')) by (by rewrite E', take_app_length).
        apply P; [done |]. rewrite E', length_app. simpl. lia.
  - intros j Hj. unfold zlen in *. rewrite length_app in Hj. simpl in Hj. rewrite HF by (unfold zlen; lia). apply F. unfold zlen. lia.
  - intros s' m K Hm. apply elem_of_app. left. by apply P.
Qed.

Lemma closed_take n own lu tr next p m : table n own lu tr next -> p ∈ own -> (10 <= m <= length p)%nat -> take m p ∈ own.
Proof.
  intros T. induction p as [| b p IH] using rev_ind; intros H Hm; [by rewrite take_nil |].
  rewrite length_app in Hm. simpl in Hm. destruct (decide (m = length p + 1)%nat) as [-> | Hn].
  - by rewrite take_ge by (rewrite length_app; simpl; lia).
  - rewrite take_app_le by lia. apply IH; [| lia]. apply (t_closed _ _ _ _ _ T p b H). lia.
Qed.

Lemma slot_inj n own lu tr next k p b k' p' b' : table n own lu tr next -> own !! k = Some p -> own !! k' = Some p' ->
  2 * Z.of_nat k + Z.b2z b = 2 * Z.of_nat k' + Z.b2z b' <-> p ++ [b] = p' ++ [b'].
Proof.
  intros T E E'. split.
  - intros H. assert (k = k' /\ b = b') as [<- <-] by (destruct b, b'; simpl in H; split; (lia || reflexivity)). congruence.
  - intros [-> [= ->]]%app_inj_2; [| done]. by rewrite (NoDup_lookup _ _ _ _ (t_nodup _ _ _ _ _ T) E E').
Qed.

Lemma take_S_bit m z n : (m < n)%nat -> take (S m) (bits_of n z) = take m (bits_of n z) ++ [Z.testbit z (Z.of_nat m)].
Proof. intros H. rewrite !take_bits_of by lia. apply bits_of_snoc. Qed.

(** *** The way to the leaf of a long code *)

Lemma descend_spec s R lu : coded lens s -> cd s = bits_of (length (cd s)) R ->
  forall j m own tr next k, table s own lu tr next -> own !! k = Some (take m (cd s)) -> (10 <= m)%nat ->
  (m + j + 1 = length (cd s))%nat ->
  exists own' tr' k', descend j (Z.shiftr R (Z.of_nat m - 1)) tr (node k) next =
      (node k', Z.shiftr R (Z.of_nat (m + j) - 1), tr', node (length own')) /\
    table s own' lu tr' (node (length own')) /\ own' !! k' = Some (take (m + j) (cd s)).
Proof.
  intros C ER. induction j as [| j IH]; intros m own tr next k T E Hm Hj.
  - exists own, tr, k. rewrite Nat.add_0_r. cbn [descend]. pose proof (t_next _ _ _ _ _ T) as Nx. rewrite <- Nx. done.
  - cbn [descend]. rewrite Z.shiftr_shiftr by lia. replace (Z.of_nat m - 1 + 1) with (Z.of_nat m) by lia.
    rewrite bit_at by lia. set (b := Z.testbit R (Z.of_nat m)).
    assert (Q : take (S m) (cd s) = take m (cd s) ++ [b]) by (rewrite ER; apply take_S_bit; lia).
    assert (PQ : take (S m) (cd s) `prefix_of` cd s) by (exists (drop (S m) (cd s)); by rewrite take_drop).
    replace (- (node k - Z.b2z b) - 1) with (2 * Z.of_nat k + Z.b2z b) by (unfold node; lia).
    replace (Z.of_nat m) with (Z.of_nat (S m) - 1) by lia.
    destruct (t_tree _ _ _ _ _ T k _ b E) as [(k' & E' & ->) | [(_ & s' & [K E'] & _) | (H & _ & ->)]].
    + rewrite (proj2 (Z.eqb_neq _ _)) by (unfold node; lia).
      destruct (IH (S m) own tr next k' T) as (own' & tr' & k2 & D & T' & E2); [by rewrite Q | lia | lia |].
      exists own', tr', k2. replace (m + S j)%nat with (S m + j)%nat by lia. done.
    + exfalso. destruct (new_path _ _ _ _ _ s (cd s) T C ltac:(lia) ltac:(done)) as (_ & X & _).
      apply (X s' K). by rewrite E', <- Q.
    + change (0 =? 0) with true. cbn iota. pose proof (t_next _ _ _ _ _ T) as Nx.
      assert (kl := lookup_lt_Some _ _ _ E).
      assert (T2 : table s (own ++ [take (S m) (cd s)]) lu (<[2 * Z.of_nat k + Z.b2z b := next]> tr) (next - 2)).
      { apply (grow s own lu tr next lu _ _ s); try done; rewrite ?length_take; try lia.
        - by rewrite Q.
        - intros p b' Ep Lp. rewrite Q in Ep. apply app_inj_2 in Ep as [<- _]; [| done]. by eapply list_elem_of_lookup_2.
        - intros i Hi. rewrite decide_False; [done |]. intros X. apply (f_equal length) in X.
          rewrite length_bits_of, length_take in X. lia.
        - intros k' p b' E'. rewrite at_insert, Q. pose proof (slot_inj _ _ _ _ _ k _ b k' p b' T E E') as J.
          repeat case_decide; try done; exfalso; naive_solver.
        - intros i Hi. rewrite at_insert, decide_False; [done |]. unfold zlen in Hi. destruct b; simpl Z.b2z; lia. }
      subst next.
      destruct (IH (S m) _ _ _ (length own) T2) as (own' & tr' & k2 & D & T' & E2); [| lia | lia |].
      { by rewrite lookup_app_r, Nat.sub_diag by lia. }
      exists own', tr', k2. replace (m + S j)%nat with (S m + j)%nat by lia. done.
Qed.

Lemma known_S n s : known (n + 1) s <-> known n s \/ (coded lens s /\ s = n).
Proof. unfold known. split; [intros [? ?]; destruct (decide (s = n)); [by right | left; split; [done | lia]] | intros [[? ?] | [? ->]]; split; (done || lia)]. Qed.

Lemma entry_iff own (sy sy' : Z -> Prop) leaf p v : (forall s, sy s <-> sy' s) -> entry own sy leaf p v -> entry own sy' leaf p v.
Proof. unfold entry. naive_solver. Qed.

(** A symbol without a code changes nothing. *)
Lemma table_skip n own lu tr next : ~ coded lens n -> table n own lu tr next -> table (n + 1) own lu tr next.
Proof.
  intros C [N O Cl Nx L T F P]. assert (K : forall s, known (n + 1) s <-> known n s) by (intros s; rewrite known_S; naive_solver).
  split; try done.
  - intros i Hi. eapply entry_iff, L, Hi. intros s. unfold short. by rewrite K.
  - intros k p b E. eapply entry_iff, T, E. intros s. unfold long. by rewrite K.
  - intros s m Hs. apply P. by apply K.
Qed.

(** A long code, from its first node on. *)
Lemma put_leaf s own lu tr next k m b :
  coded lens s -> table s own lu tr next -> own !! k = Some (take m (cd s)) -> (10 <= m)%nat -> (m + 1 = length (cd s))%nat ->
  cd s = take m (cd s) ++ [b] -> table (s + 1) own lu (<[2 * Z.of_nat k + Z.b2z b := s]> tr) next.
Proof.
  intros C T E Hm Hl Ec. assert (kl := lookup_lt_Some _ _ _ E).
  destruct (new_path _ _ _ _ _ s (cd s) T C ltac:(lia) ltac:(done)) as (No & _ & Nk). pose proof T as [N O Cl Nx L Tr F P].
  split; try done.
  - intros i Hi. eapply entry_iff, L, Hi. intros s'. unfold short. rewrite known_S.
    split; [naive_solver |]. intros [[K | [_ ->]] Pr]; [done |]. apply prefix_length in Pr.
    rewrite length_bits_of in Pr. lia.
  - intros k' p b' E'. rewrite at_insert. case_decide as D.
    + apply (slot_inj _ _ _ _ _ k _ b k' p b' T E E') in D. rewrite <- D, <- Ec.
      right; left. split; [done |]. exists s. split; [| done]. split; [| done]. apply known_S. by right.
    + eapply entry_iff, Tr, E'. intros s'. unfold long. rewrite known_S. split; [naive_solver |].
      intros [[K | [_ ->]] X]; [done |]. exfalso. apply D, (slot_inj _ _ _ _ _ k _ b k' p b' T E E'). by rewrite <- X, <- Ec.
  - intros i Hi. rewrite at_insert, decide_False; [by apply F |]. unfold zlen in Hi. destruct b; simpl Z.b2z; lia.
  - intros s' m' [K | [_ ->]]%known_S Hm'; [by apply P |].
    rewrite Ec, take_app_le by (rewrite length_take; lia).
    apply (closed_take _ _ _ _ _ _ _ T); [by eapply list_elem_of_lookup_2 | rewrite length_take; lia].
Qed.

Lemma put_long_spec s R x own : coded lens s -> (10 < length (cd s))%nat -> cd s = bits_of (length (cd s)) R -> 0 <= R ->
  table s own (look_up x) (tree x) (tree_next x) ->
  exists own', let x' := put_long x R (len_of lens s) s in
    table (s + 1) own' (look_up x') (tree x') (tree_next x') /\ next_code x' = next_code x.
Proof.
  intros C Hl ER HR T. destruct (code_len s C) as [Hk _]. unfold put_long.
  rewrite land_1023. set (i := R mod 2 ^ Z.of_nat 10).
  assert (Hi : 0 <= i < 2 ^ Z.of_nat 10) by (apply Z.mod_pos_bound; lia).
  assert (Bi : bits_of 10 i = take 10 (cd s)) by (unfold i; rewrite bits_of_mod, ER, take_bits_of by lia; done).
  assert (P10 : take 10 (cd s) `prefix_of` cd s) by (exists (drop 10 (cd s)); by rewrite take_drop).
  assert (exists own1 k lu1, (if 0 =? at_ (look_up x) i then (<[i := tree_next x]> (look_up x), tree_next x, tree_next x - 2)
             else (look_up x, at_ (look_up x) i, tree_next x)) = (lu1, node k, node (length own1)) /\
    table s own1 lu1 (tree x) (node (length own1)) /\ own1 !! k = Some (take 10 (cd s))) as (own1 & k & lu1 & -> & T1 & E1).
  { pose proof (t_next _ _ _ _ _ T) as Nx.
    destruct (t_look _ _ _ _ _ T i Hi) as [(k & E & ->) | [(_ & s' & [K P] & _) | (H & _ & ->)]].
    - rewrite (proj2 (Z.eqb_neq _ _)) by (unfold node; lia). exists own, k, (look_up x). rewrite Nx in *. rewrite Bi in E. done.
    - exfalso. destruct (new_path _ _ _ _ _ s (cd s) T C ltac:(lia) ltac:(done)) as (_ & X & _). apply (X s' K).
      rewrite Bi in P. by etrans.
    - change (0 =? 0) with true. cbn iota. exists (own ++ [take 10 (cd s)]), (length own), (<[i := tree_next x]> (look_up x)).
      rewrite lookup_app_r, Nat.sub_diag by lia. rewrite Bi in H.
      assert (T2 : table s (own ++ [take 10 (cd s)]) (<[i := tree_next x]> (look_up x)) (tree x) (tree_next x - 2)).
      { apply (grow s own (look_up x) (tree x) (tree_next x) _ _ _ s); try done; rewrite ?length_take; try lia.
        - intros p b Ep Lp. apply (f_equal length) in Ep. rewrite length_app, length_take in Ep. cbn [length] in Ep. lia.
        - intros i' Hi'. rewrite at_insert, <- Bi. repeat case_decide; subst; try done.
          exfalso. apply H0. apply (f_equal val) in H1. rewrite !val_bits_of in H1. rewrite !Z.mod_small in H1 by done. done.
        - intros k p b E. rewrite decide_False; [done |]. intros X. apply (f_equal length) in X.
          rewrite length_app, length_take in X. cbn [length] in X.
          destruct (t_own _ _ _ _ _ T p) as [? _]; [by eapply list_elem_of_lookup_2 | lia]. }
      pose proof (t_next _ _ _ _ _ T2) as Nx2. rewrite <- Nx2, <- Nx. done. }
  change (TINFL_FAST_LOOKUP_BITS - 1) with (Z.of_nat 10 - 1).
  destruct (descend_spec s R lu1 C ER (length (cd s) - 11) 10 own1 (tree x) _ k T1 E1) as (own' & tr' & k' & D & T' & E'); [lia | lia |].
  replace (Z.to_nat (len_of lens s - (TINFL_FAST_LOOKUP_BITS + 1))) with (length (cd s) - 11)%nat
    by (unfold TINFL_FAST_LOOKUP_BITS; lia).
  rewrite D. exists own'. cbn [look_up tree tree_next next_code]. split; [| done].
  replace (10 + (length (cd s) - 11))%nat with (length (cd s) - 1)%nat in * by lia.
  rewrite Z.shiftr_shiftr, bit_at by lia.
  replace (Z.of_nat (length (cd s) - 1) - 1 + 1) with (Z.of_nat (length (cd s) - 1)) by lia.
  set (b := Z.testbit R _). replace (- (node k' - Z.b2z b) - 1) with (2 * Z.of_nat k' + Z.b2z b) by (unfold node; lia).
  apply (put_leaf s own' lu1 tr' _ k' (length (cd s) - 1)); try done; try lia.
  pose proof (take_S_bit (length (cd s) - 1) R (length (cd s)) ltac:(lia)) as Q.
  rewrite <- ER, take_ge in Q by lia. exact Q.
Qed.

(** *** Short codes *)

Lemma fill_short_spec k K : 0 <= k -> forall fuel lu r, 0 <= r -> 1024 <= r + Z.of_nat fuel * 2 ^ k ->
  exists lu', fill_short fuel lu r k K = Ret lu' /\
    forall i, at_ lu' i = if decide (r <= i < 1024 /\ (i - r) mod 2 ^ k = 0) then K else at_ lu i.
Proof.
  intros Hk. assert (P : 0 < 2 ^ k) by (apply Z.pow_pos_nonneg; lia).
  induction fuel as [| fuel IH]; intros lu r Hr Hf; cbn [fill_short]; unfold TINFL_FAST_LOOKUP_SIZE;
    destruct (r <? 1024) eqn:E; (apply Z.ltb_lt in E || apply Z.ltb_ge in E); try lia.
  1, 3: exists lu; split; [done |]; intros i; rewrite decide_False by lia; done.
  destruct (IH (<[r := K]> lu) (r + Z.shiftl 1 k)) as (lu' & F & A); rewrite ?Z.shiftl_1_l in *; [lia | lia |].
  exists lu'. split; [done |]. intros i. rewrite A, at_insert.
  assert (M : (i - (r + 2 ^ k)) mod 2 ^ k = (i - r) mod 2 ^ k).
  { replace (i - (r + 2 ^ k)) with (i - r + -1 * 2 ^ k) by lia. by rewrite Z.mod_add by lia. }
  rewrite M. destruct (decide (r = i)) as [<- | N].
  - rewrite Z.sub_diag, Z.mod_0_l by lia. repeat case_decide; try done; lia.
  - repeat case_decide; try done; [lia |]. exfalso. apply H. split; [| lia]. split; [| lia].
    destruct (Z.le_gt_cases (r + 2 ^ k) i); [done |]. rewrite Z.mod_small in H0 by lia. lia.
Qed.

Lemma prefix_bits c n i : c `prefix_of` bits_of n i <-> (length c <= n)%nat /\ c = bits_of (length c) i.
Proof.
  split.
  - intros P. pose proof (prefix_length _ _ P) as L. rewrite length_bits_of in L. split; [done |]. destruct P as [r P].
    rewrite <- (take_bits_of n (length c)) by done. by rewrite P, take_app_length.
  - intros [L E]. rewrite E. exists (drop (length c) (bits_of n i)). rewrite <- (take_bits_of n (length c)) by done. by rewrite take_drop.
Qed.

Lemma put_short_spec s R lu lu' own tr next : coded lens s -> (length (cd s) <= 10)%nat -> cd s = bits_of (length (cd s)) R ->
  0 <= R < 2 ^ len_of lens s -> table s own lu tr next ->
  (forall i, at_ lu' i = if decide (R <= i < 1024 /\ (i - R) mod 2 ^ len_of lens s = 0) then short_entry s else at_ lu i) ->
  table (s + 1) own lu' tr next.
Proof.
  intros C Hl ER HR T A. destruct (code_len s C) as [Hk Hk1]. pose proof T as [N O Cl Nx L Tr F P].
  assert (M : forall i, 0 <= i < 1024 -> (R <= i < 1024 /\ (i - R) mod 2 ^ len_of lens s = 0) <-> cd s `prefix_of` bits_of 10 i).
  { intros i Hi. rewrite prefix_bits. assert (Pk : 0 < 2 ^ len_of lens s) by (apply Z.pow_pos_nonneg; lia). split.
    - intros [_ E]. split; [done |]. rewrite ER at 1. rewrite <- (bits_of_mod (length (cd s)) i), Hk. f_equal.
      apply Z.mod_divide in E as [q E]; [| lia]. replace i with (R + q * 2 ^ len_of lens s) by lia.
      by rewrite Z.mod_add, Z.mod_small by lia.
    - intros [_ E]. rewrite ER in E at 1. apply (f_equal val) in E. rewrite !val_bits_of, Hk, Z.mod_small in E by lia.
      pose proof (Z.div_mod i (2 ^ len_of lens s) ltac:(lia)) as D. rewrite <- E in D.
      assert (0 <= i / 2 ^ len_of lens s) by (apply Z.div_pos; lia). split; [nia |].
      replace (i - R) with (i / 2 ^ len_of lens s * 2 ^ len_of lens s) by lia. by apply Z.mod_mul; lia. }
  split; try done.
  - intros i Hi. rewrite A. change (2 ^ Z.of_nat 10) with 1024 in Hi. specialize (M i Hi). case_decide as D.
    + destruct (new_path _ _ _ _ _ s (bits_of 10 i) T C ltac:(lia) (proj1 M D)) as (No & _ & _).
      right; left. split; [done |]. exists s. split; [| done]. split; [apply known_S; by right | by apply M].
    + eapply entry_iff, L, Hi. intros s'. unfold short. rewrite known_S. split; [naive_solver |].
      intros [[K | [_ ->]] X]; [done |]. exfalso. by apply D, M.
  - intros k p b E. eapply entry_iff, Tr, E. intros s'. unfold long. rewrite known_S. split; [naive_solver |].
    intros [[K | [_ ->]] X]; [done |]. exfalso. apply (f_equal length) in X. rewrite length_app in X. simpl in X.
    destruct (O p) as [? _]; [by eapply list_elem_of_lookup_2 | lia].
  - intros s' m [K | [_ ->]]%known_S Hm; [by apply P | lia].
Qed.

(** *** All symbols *)

Definition codes_at (n : Z) (nc : array) : Prop :=
  forall k, 1 <= k <= 15 -> at_ nc k = first_code lens (Z.to_nat k) + count (take (Z.to_nat n) lens) k.

Definition built (n : Z) (x : building) : Prop :=
  codes_at n (next_code x) /\ exists own, table n own (look_up x) (tree x) (tree_next x).

Lemma put_symbol_spec n x k : 0 <= n -> lens !! Z.to_nat n = Some k -> built n x ->
  exists x', put_symbol x n k = Ret x' /\ built (n + 1) x'.
Proof.
  intros Hn E [NC (own & T)]. assert (Lk : len_of lens n = k) by (unfold len_of; by rewrite E).
  pose proof (Forall_lookup_1 _ _ _ _ (proj1 Hok) E) as Bk. cbn in Bk.
  assert (NC' : forall k', 1 <= k' <= 15 -> at_ (<[k := at_ (next_code x) k + 1]> (next_code x)) k' =
     first_code lens (Z.to_nat k') + count (take (Z.to_nat (n + 1)) lens) k' \/ k = 0).
  { intros k' Hk'. destruct (decide (k = 0)) as [| Nz]; [by right | left]. rewrite at_insert.
    replace (Z.to_nat (n + 1)) with (S (Z.to_nat n)) by lia. rewrite (take_S_r _ _ _ E), count_of_app, count_cons.
    change (count [] k') with 0. repeat case_decide; subst; rewrite NC by lia; lia. }
  unfold put_symbol. destruct (k =? 0) eqn:Z0.
  - apply Z.eqb_eq in Z0. exists x. split; [done |]. split.
    + intros k' Hk'. rewrite NC by done. replace (Z.to_nat (n + 1)) with (S (Z.to_nat n)) by lia.
      rewrite (take_S_r _ _ _ E), count_of_app, count_cons, decide_False by lia. change (count [] k') with 0. lia.
    + exists own. apply table_skip; [| done]. intros [_ C]. congruence.
  - apply Z.eqb_neq in Z0. assert (C : coded lens n) by (split; [done | congruence]).
    destruct (code_len n C) as [Hl _]. rewrite Lk in Hl.
    assert (V : at_ (next_code x) k = code_value lens n) by (unfold code_value; rewrite Lk; apply NC; lia).
    rewrite V. set (R := reverse_code (Z.to_nat k) (code_value lens n) 0).
    assert (ER : cd n = bits_of (length (cd n)) R).
    { unfold R. rewrite length_code, Lk. pose proof (reverse_code_bits (Z.to_nat k) (code_value lens n) 0 0 ltac:(lia)) as X.
      rewrite Nat.add_0_r in X. rewrite X. cbn [bits_of]. rewrite app_nil_r. unfold code. by rewrite Lk. }
    assert (BR : 0 <= R < 2 ^ k).
    { pose proof (reverse_code_bound (Z.to_nat k) (code_value lens n) 0 ltac:(lia)) as B. rewrite Z2Nat.id in B by lia. unfold R. lia. }
    cbn [look_up tree next_code tree_next].
    destruct (k <=? TINFL_FAST_LOOKUP_BITS) eqn:S10; unfold TINFL_FAST_LOOKUP_BITS in S10.
    + apply Z.leb_le in S10.
      destruct (fill_short_spec k (Z.lor (Z.shiftl k 9) n) ltac:(lia) (Z.to_nat TINFL_FAST_LOOKUP_SIZE) (look_up x) R) as (lu & F & A).
      { lia. }
      { unfold TINFL_FAST_LOOKUP_SIZE. assert (0 < 2 ^ k) by (apply Z.pow_pos_nonneg; lia). lia. }
      rewrite F. cbn [mbind outcome_bind]. eexists. split; [reflexivity |]. split; cbn [next_code look_up tree tree_next].
      * intros k' Hk'. rewrite <- V. destruct (NC' k' Hk') as [-> | ?]; [done | lia].
      * exists own. apply (put_short_spec n R (look_up x) lu own); try done; [lia | by rewrite Lk |].
        intros i. rewrite Lk. unfold short_entry. rewrite Lk. apply A.
    + apply Z.leb_gt in S10. destruct (put_long_spec n R (mkBuild (look_up x) (tree x) (<[k := code_value lens n + 1]> (next_code x)) (tree_next x)) own)
        as (own' & T' & X); [done | lia | done | lia | done |]. rewrite Lk in T', X.
      eexists. split; [reflexivity |]. split; [| by exists own'].
      intros k' Hk'. rewrite X. cbn [next_code]. rewrite <- V. destruct (NC' k' Hk') as [-> | ?]; [done | lia].
Qed.

Lemma put_symbols_spec rest : forall n x, 0 <= n -> drop (Z.to_nat n) lens = rest -> built n x ->
  exists x', put_symbols x n rest = Ret x' /\ built (n + zlen rest) x'.
Proof.
  induction rest as [| k rest IH]; intros n x Hn D B; cbn [put_symbols].
  - exists x. unfold zlen. simpl. by rewrite Z.add_0_r.
  - assert (E : lens !! Z.to_nat n = Some k).
    { rewrite <- (Nat.add_0_r (Z.to_nat n)), <- lookup_drop, D. done. }
    destruct (put_symbol_spec n x k Hn E B) as (x1 & -> & B1). cbn [mbind outcome_bind].
    destruct (IH (n + 1) x1) as (x2 & -> & B2); [lia | | done |].
    { replace (Z.to_nat (n + 1)) with (S (Z.to_nat n)) by lia. rewrite <- (drop_drop lens 1 (Z.to_nat n)) || rewrite <- Nat.add_1_r, <- drop_drop.
      by rewrite D. }
    exists x2. split; [done |]. replace (n + zlen (k :: rest)) with (n + 1 + zlen rest) by (unfold zlen; simpl; lia). done.
Qed.

End Table.

(** ** The codes of all symbols *)

Lemma count_sizes_spec lens k : at_ (count_sizes lens) k = count lens k.
Proof.
  unfold count_sizes. induction lens as [| l lens IH] using rev_ind; [done |].
  rewrite fold_left_app, count_of_app, count_cons. change (count [] k) with 0. cbn [fold_left]. rewrite at_insert, IH.
  repeat case_decide; subst; try done; [rewrite IH; lia | lia].
Qed.

Lemma first_code_bound lens k : 0 <= first_code lens k <= zlen lens * 2 ^ Z.of_nat k * Z.of_nat k.
Proof.
  assert (B : forall j, 0 <= count lens j <= zlen lens).
  { intros j. unfold count, zlen. pose proof (length_filter (fun l => l = j) lens). lia. }
  induction k as [| k IH]; [simpl; lia |]. cbn [first_code]. rewrite Nat2Z.inj_succ, Z.pow_succ_r by lia.
  specialize (B (Z.of_nat k)). assert (1 <= 2 ^ Z.of_nat k) by (apply (Z.pow_le_mono_r 2 0); lia).
  assert (zlen lens * 1 <= zlen lens * 2 ^ Z.of_nat k) by nia. case_decide; nia.
Qed.

Lemma filter_range_nil (lens : list Z) a b : b <= a -> filter (fun l => a <= l < b) lens = [].
Proof. intros H. induction lens as [| l lens IH]; [done |]. by rewrite filter_cons, decide_False by lia. Qed.

Lemma first_codes_spec lens n : zlen lens <= 512 -> (n <= 15)%nat ->
  let '(u, total, nc) := fold_left (size_step (count_sizes lens)) (seqZ 1 (Z.of_nat n)) (0, 0, <[1 := 0]> (<[0 := 0]> ∅)) in
  u = zlen (filter (fun l => 1 <= l < 1 + Z.of_nat n) lens) /\ total = first_code lens (S n) /\
  forall k, 1 <= k <= Z.of_nat n + 1 -> at_ nc k = first_code lens (Z.to_nat k).
Proof.
  intros Hl. induction n as [| n IH]; intros Hn.
  - cbn [Z.of_nat]. change (seqZ 1 0) with ([] : list Z). cbn [fold_left]. split; [| split; [done |]].
    + by rewrite filter_range_nil by lia.
    + intros k Hk. replace k with 1 by lia. by rewrite at_insert, decide_True.
  - specialize (IH ltac:(lia)). replace (Z.of_nat (S n)) with (Z.of_nat n + 1) by lia.
    rewrite seqZ_app by lia. rewrite fold_left_app. cbn [seqZ]. change (seqZ (1 + Z.of_nat n) 1) with [0 + (1 + Z.of_nat n)].
    destruct (fold_left _ (seqZ 1 (Z.of_nat n)) _) as [[u total] nc]. destruct IH as (-> & -> & A).
    cbn [fold_left size_step]. rewrite count_sizes_spec, Z.add_0_l.
    assert (T : u32 (Z.shiftl (first_code lens (S n) + count lens (1 + Z.of_nat n)) 1) = first_code lens (S (S n))).
    { rewrite Z.shiftl_mul_pow2 by lia. change (2 ^ 1) with 2.
      assert (X : first_code lens (S (S n)) = (first_code lens (S n) + count lens (1 + Z.of_nat n)) * 2).
      { rewrite first_code_S. replace (1 + Z.of_nat n) with (Z.of_nat (S n)) by lia. lia. }
      rewrite <- X. apply wrap_small. unfold in_range. pose proof (first_code_bound lens (S (S n))) as B. split; [lia |].
      assert (2 ^ Z.of_nat (S (S n)) <= 2 ^ 16) by (apply Z.pow_le_mono_r; lia).
      pose proof (zlen_nonneg lens). assert (0 < 2 ^ Z.of_nat (S (S n))) by (apply Z.pow_pos_nonneg; lia).
      assert (zlen lens * 2 ^ Z.of_nat (S (S n)) <= 512 * 2 ^ 16) by nia. nia. }
    rewrite T. split; [| split; [done |]].
    + unfold count, zlen. clear -Hl. induction lens as [| l lens IHl]; [done |].
      unfold zlen in Hl. simpl in Hl. specialize (IHl ltac:(unfold zlen; lia)). rewrite !filter_cons.
      repeat case_decide; simpl; try lia.
    + intros k Hk. rewrite at_insert. case_decide; [subst; f_equal; lia |]. apply A. lia.
Qed.

(** The table [h] has an entry for every code. *)
Definition decodes (lens : list Z) (h : huff) : Prop :=
  lens_ok lens /\ zlen lens <= 512 /\ exists own next, table lens (zlen lens) own (m_look_up h) (m_tree h) next.

Lemma empty_table lens : table lens 0 [] ∅ ∅ (-1).
Proof.
  split; try done.
  - apply NoDup_nil_2.
  - intros p H. by apply elem_of_nil in H.
  - intros p b H. by apply elem_of_nil in H.
  - intros i Hi. right; right. split; [by intros H%elem_of_nil |]. split; [| done]. intros s [[[? _] ?] _]. lia.
  - intros s m [[? _] ?]. lia.
Qed.

Lemma make_table_spec lens : zlen lens <= 512 -> Forall len_ok lens ->
  (lens_ok lens /\ exists h, make_table lens = Go h /\ decodes lens h) \/ (~ lens_ok lens /\ make_table lens = Exit FAILED).
Proof.
  intros Hl F. unfold make_table. pose proof (first_codes_spec lens 15 Hl ltac:(lia)) as X. unfold first_codes.
  change (Z.of_nat 15) with 15 in X. destruct (fold_left _ (seqZ 1 15) _) as [[u total] nc]. destruct X as (-> & -> & A).
  assert (U : zlen (filter (fun l => 1 <= l < 1 + 15) lens) = used lens).
  { unfold used, zlen. clear -F. induction F as [| l lens Hl _ IH]; [done |]. rewrite !filter_cons. unfold len_ok in Hl.
    repeat case_decide; simpl; lia. }
  assert (K : first_code lens 16 = 2 * kraft lens).
  { rewrite kraft_below by done. rewrite first_code_S, below_S, <- (below_first lens 15) by lia.
    change (15 - Z.of_nat 15) with 0. change (2 ^ 0) with 1. lia. }
  rewrite U, K. destruct (decide (lens_ok lens)) as [Ok | No].
  - left. split; [done |].
    replace (negb (65536 =? 2 * kraft lens) && (used lens >? 1)) with false.
    + destruct (put_symbols_spec lens Ok lens 0 (mkBuild ∅ ∅ nc (-1))) as (x & -> & _ & own & T); [done | done | |].
      { split; cbn [next_code look_up tree tree_next]; [| exists []; apply empty_table].
        intros k Hk. rewrite A by lia. change (count (take (Z.to_nat 0) lens) k) with 0. lia. }
      exists (mkHuff (look_up x) (tree x)). split; [done |]. split; [done |]. split; [done |]. exists own, (tree_next x). exact T.
    + symmetry. destruct Ok as [_ [-> | Hu]]; [done |]. rewrite (Z.gtb_ltb), (proj2 (Z.ltb_ge _ _)) by done. apply andb_false_r.
  - right. split; [done |]. replace (negb (65536 =? 2 * kraft lens) && (used lens >? 1)) with true; [done |].
    symmetry. apply andb_true_iff. split.
    + apply negb_true_iff, Z.eqb_neq. intros E. apply No. split; [done |]. left. change (2 ^ 15) with 32768. lia.
    + rewrite Z.gtb_ltb. apply Z.ltb_lt. destruct (Z.le_gt_cases (used lens) 1); [| done]. exfalso. apply No. split; [done | by right].
Qed.

(** ** Decoding with a table *)

Section Decode.
Context (lens : list Z) (h : huff) (D : decodes lens h).
Notation cd s := (code lens s).

Lemma coded_known s : coded lens s -> known lens (zlen lens) s.
Proof.
  intros C. split; [done |]. destruct D as (Ok & _). destruct (coded_len lens s (proj1 Ok) C) as [_ E].
  apply lookup_lt_Some in E. unfold zlen. lia.
Qed.

Lemma coded_bound s : coded lens s -> 0 <= s < 512.
Proof. intros C. pose proof (coded_known s C) as [_ ?]. destruct C, D as (_ & ? & _). lia. Qed.

(** What is stored for a short code. *)
Lemma short_entry_spec s : coded lens s -> let v := short_entry lens s in
  0 < v /\ Z.shiftr v 9 = len_of lens s /\ Z.land v 511 = s /\ Z.land v 256 = Z.land s 256 /\ u8 v = u8 s.
Proof.
  intros C v. pose proof (coded_bound s C) as B. destruct D as (Ok & _). destruct (code_len lens Ok s C) as [_ K].
  assert (E : v = len_of lens s * 2 ^ 9 + s).
  { unfold v, short_entry. rewrite <- Z.add_nocarry_lxor || rewrite <- Z.lxor_lor; [rewrite <- Z.add_nocarry_lxor|];
      try (rewrite Z.shiftl_mul_pow2 by lia; reflexivity).
    all: apply Z.bits_inj'; intros i Hi; rewrite Z.land_spec, Z.bits_0;
      destruct (Z.lt_ge_cases i 9); [rewrite Z.shiftl_spec_low by lia; done |];
      rewrite (testbit_high 9 s i) by (unfold in_range; lia); apply andb_false_r. }
  split; [lia |]. split; [rewrite E, Z.shiftr_div_pow2, Z.div_add_l, Z.div_small by lia; lia |].
  assert (M : v mod 2 ^ 9 = s) by (rewrite E, Z.add_comm, Z.mod_add, Z.mod_small by lia; done).
  split; [change 511 with (Z.ones 9); by rewrite Z.land_ones |]. split.
  - rewrite <- M. rewrite <- Z.land_ones by lia. rewrite <- Z.land_assoc. by change (Z.land (Z.ones 9) 256) with 256.
  - rewrite <- M. unfold u8, wrap. apply Znumtheory.Zmod_div_mod; [lia | lia |]. by exists 2.
Qed.

(** The entry and the length that [look] finds for the symbol [s]. *)
Definition found (s v : Z) : Prop :=
  Z.land v 511 = s /\ Z.land v 256 = Z.land s 256 /\ u8 v = u8 s /\ 0 <= v.

Lemma walk_spec s own next z : table lens (zlen lens) own (m_look_up h) (m_tree h) next -> coded lens s ->
  cd s = bits_of (length (cd s)) z ->
  forall fuel m k, own !! k = Some (take m (cd s)) -> (10 <= m < length (cd s))%nat -> (length (cd s) <= m + fuel + 1)%nat ->
  walk fuel (m_tree h) z (node k) (Z.of_nat m) = Ret (s, len_of lens s).
Proof.
  intros T C Ez. destruct D as (Ok & _). destruct (code_len lens Ok s C) as [Hk _].
  induction fuel as [| fuel IH]; intros m k E Hm Hf; cbn [walk]; rewrite bit_at by lia;
    set (b := Z.testbit z (Z.of_nat m));
    replace (Z.lnot (node k) + Z.b2z b) with (2 * Z.of_nat k + Z.b2z b) by (unfold Z.lnot, node; lia);
    (assert (Q : take (S m) (cd s) = take m (cd s) ++ [b]) by (rewrite Ez; apply take_S_bit; lia));
    pose proof (t_tree _ _ _ _ _ _ T k _ b E) as X; rewrite <- Q in X;
    destruct (decide (S m = length (cd s))) as [L | L].
  1, 3: rewrite take_ge in X by lia;
    destruct X as [(k' & E' & _) | [(_ & s' & [[K _] E'] & ->) | (_ & N & _)]];
    [ exfalso; destruct (t_own _ _ _ _ _ _ T (cd s)) as (_ & s' & C' & P & L'); [by eapply list_elem_of_lookup_2 |];
      pose proof (code_prefix_free lens s s' Ok C C' P); subst s'; lia
    | assert (s' = s) as -> by (apply (code_prefix_free lens s' s Ok K C); by rewrite E');
      rewrite (proj2 (Z.ltb_ge _ _)) by (apply C); unfold id; do 2 f_equal; lia
    | exfalso; apply (N s); split; [by apply coded_known | done] ].
  - lia.
  - assert (Hin : take (S m) (cd s) ∈ own) by (apply (t_path _ _ _ _ _ _ T); [by apply coded_known | lia]).
    destruct X as [(k' & E' & ->) | [(N & _) | (N & _)]]; [| done | done].
    rewrite (proj2 (Z.ltb_lt _ _)) by (unfold node; lia). replace (Z.of_nat m + 1) with (Z.of_nat (S m)) by lia.
    apply IH; [done | lia | lia].
Qed.

(** The first table for the bits of a code. *)
Lemma look_up_spec s z own next : table lens (zlen lens) own (m_look_up h) (m_tree h) next -> coded lens s ->
  cd s = bits_of (length (cd s)) z ->
  let v := at_ (m_look_up h) (Z.land z (TINFL_FAST_LOOKUP_SIZE - 1)) in
  ((length (cd s) <= 10)%nat /\ v = short_entry lens s) \/
  ((10 < length (cd s))%nat /\ exists k, own !! k = Some (take 10 (cd s)) /\ v = node k).
Proof.
  intros T C Ez v. subst v. rewrite land_1023. set (i := z mod 2 ^ Z.of_nat 10).
  assert (Hi : 0 <= i < 2 ^ Z.of_nat 10) by (apply Z.mod_pos_bound; lia).
  assert (Bi : bits_of 10 i = bits_of 10 z) by apply bits_of_mod. destruct D as (Ok & _).
  pose proof (t_look _ _ _ _ _ _ T i Hi) as X. destruct (decide (length (cd s) <= 10)%nat) as [L | L].
  - left. split; [done |]. assert (P : cd s `prefix_of` bits_of 10 i) by (rewrite Bi; apply prefix_bits; done).
    destruct X as [(k & E & _) | [(_ & s' & [[K _] P'] & ->) | (_ & N & _)]].
    + exfalso. destruct (t_own _ _ _ _ _ _ T (bits_of 10 i)) as (_ & s' & C' & P' & L'); [by eapply list_elem_of_lookup_2 |].
      assert (s = s') as <- by (apply (code_prefix_free lens s s' Ok C C'); by etrans).
      rewrite length_bits_of in L'. lia.
    + assert (s' = s) as ->; [| done]. destruct (prefix_weak_total _ _ _ P P') as [Q | Q].
      * symmetry. by apply (code_prefix_free lens).
      * by apply (code_prefix_free lens).
    + exfalso. apply (N s). split; [by apply coded_known | done].
  - right. split; [lia |]. assert (Ti : bits_of 10 i = take 10 (cd s)) by (rewrite Bi, Ez, take_bits_of by lia; done).
    assert (Hin : take 10 (cd s) ∈ own) by (apply (t_path _ _ _ _ _ _ T); [by apply coded_known | lia]).
    rewrite Ti in X. destruct X as [(k & E & ->) | [(N & _) | (N & _)]]; [by exists k | done | done].
Qed.

Lemma look_spec s z : coded lens s -> cd s = bits_of (length (cd s)) z ->
  exists v, look h z = Ret (v, len_of lens s) /\ found s v /\
    (if at_ (m_look_up h) (Z.land z (TINFL_FAST_LOOKUP_SIZE - 1)) >=? 0 then Z.land v 511 else v) = s.
Proof.
  intros C Ez. pose proof D as (Ok & _ & own & next & T). destruct (code_len lens Ok s C) as [Hk K].
  unfold look. destruct (look_up_spec s z own next T C Ez) as [[L ->] | (L & k & E & ->)].
  - destruct (short_entry_spec s C) as (P & Sh & M & B & U). rewrite Z.geb_leb, (proj2 (Z.leb_le _ _)), Sh by lia.
    exists (short_entry lens s). split; [done |]. split; [| done]. split; [done |]. split; [done |]. split; [done | lia].
  - rewrite Z.geb_leb, (proj2 (Z.leb_gt _ _)) by (unfold node; lia).
    change TINFL_FAST_LOOKUP_BITS with (Z.of_nat 10). rewrite (walk_spec s own next z T C Ez 16 10 k E) by lia.
    exists s. split; [done |]. split; [| done]. pose proof (coded_bound s C). split; [| split; [done | split; [done | lia]]].
    change 511 with (Z.ones 9). rewrite Z.land_ones, Z.mod_small by lia. done.
Qed.

(** The walk over the first [n] bits finds the symbol if its code has no more than [n]. *)
Lemma walk_upto_spec s own next z n : table lens (zlen lens) own (m_look_up h) (m_tree h) next -> coded lens s ->
  take n (cd s) = bits_of (Nat.min n (length (cd s))) z ->
  forall fuel m k, own !! k = Some (take m (cd s)) -> (10 <= m < length (cd s))%nat -> (m < n)%nat -> (length (cd s) <= m + fuel + 1)%nat ->
  exists v, walk_upto fuel (m_tree h) z (Z.of_nat n) (node k) (Z.of_nat m) = Ret v /\ (0 <= v <-> (length (cd s) <= n)%nat).
Proof.
  intros T C Ez. destruct D as (Ok & _).
  induction fuel as [| fuel IH]; intros m k E Hm Hn Hf; cbn [walk_upto]; rewrite bit_at by lia;
    set (b := Z.testbit z (Z.of_nat m));
    replace (Z.lnot (node k) + Z.b2z b) with (2 * Z.of_nat k + Z.b2z b) by (unfold Z.lnot, node; lia);
    (assert (Q : take (S m) (cd s) = take m (cd s) ++ [b]) by
      (replace (take (S m) (cd s)) with (take (S m) (take n (cd s))) by (rewrite take_take; f_equal; lia);
       replace (take m (cd s)) with (take m (take n (cd s))) by (rewrite take_take; f_equal; lia);
       rewrite Ez; apply take_S_bit; lia));
    pose proof (t_tree _ _ _ _ _ _ T k _ b E) as X; rewrite <- Q in X;
    destruct (decide (S m = length (cd s))) as [L | L].
  1, 3: rewrite take_ge in X by lia;
    destruct X as [(k' & E' & _) | [(_ & s' & [[K _] E'] & ->) | (_ & N & _)]];
    [ exfalso; destruct (t_own _ _ _ _ _ _ T (cd s)) as (_ & s' & C' & P & L'); [by eapply list_elem_of_lookup_2 |];
      pose proof (code_prefix_free lens s s' Ok C C' P); subst s'; lia
    | unfold id; destruct K as [K0 K1]; rewrite (proj2 (Z.ltb_ge _ _)) by done; exists s'; split; [done | lia]
    | exfalso; apply (N s); split; [by apply coded_known | done] ].
  - lia.
  - assert (Hin : take (S m) (cd s) ∈ own) by (apply (t_path _ _ _ _ _ _ T); [by apply coded_known | lia]).
    destruct X as [(k' & E' & ->) | [(N & _) | (N & _)]]; [| done | done].
    rewrite (proj2 (Z.ltb_lt _ _)) by (unfold node; lia). cbn [andb].
    replace (Z.of_nat m + 1) with (Z.of_nat (S m)) by lia.
    destruct (Z.of_nat n >=? Z.of_nat (S m) + 1) eqn:G; rewrite Z.geb_leb in G.
    + apply Z.leb_le in G. apply IH; [done | lia | lia | lia].
    + apply Z.leb_gt in G. exists (node k'). split; [done |]. unfold node. lia.
Qed.

(** [has_code] is right about the first [num_bits] bits of a code. *)
Lemma has_code_spec s b n : coded lens s -> num_bits b = Z.of_nat n -> 0 <= bit_buf b ->
  take n (cd s) = bits_of (Nat.min n (length (cd s))) (bit_buf b) ->
  has_code h b = Ret (bool_decide (length (cd s) <= n)%nat).
Proof.
  intros C Hn Hz Ez. pose proof D as (Ok & _ & own & next & T). destruct (code_len lens Ok s C) as [Hk K].
  unfold has_code. rewrite Hn.
  destruct (decide (length (cd s) <= n)%nat) as [L | L].
  - rewrite bool_decide_true by done. rewrite Nat.min_r, take_ge in Ez by lia.
    destruct (look_up_spec s (bit_buf b) own next T C Ez) as [[L10 ->] | (L10 & k & E & ->)].
    + destruct (short_entry_spec s C) as (P & Sh & _). rewrite Z.geb_leb, (proj2 (Z.leb_le _ _)), Sh by lia.
      rewrite (proj2 (Z.eqb_neq _ _)), Z.geb_leb, (proj2 (Z.leb_le _ _)) by lia. done.
    + rewrite Z.geb_leb, (proj2 (Z.leb_gt _ _)) by (unfold node; lia).
      unfold TINFL_FAST_LOOKUP_BITS. rewrite Z.gtb_ltb, (proj2 (Z.ltb_lt _ _)) by lia.
      destruct (walk_upto_spec s own next (bit_buf b) n T C) with (fuel := 16%nat) (m := 10%nat) (k := k) as (v & W & V);
        [rewrite Nat.min_r, take_ge by lia; done | done | lia | lia | lia |].
      change (Z.of_nat 10) with 10 in W. rewrite W. cbn [mbind outcome_bind]. rewrite Z.geb_leb, (proj2 (Z.leb_le _ _)); [done | lia].
  - rewrite bool_decide_false by done. rewrite Nat.min_l in Ez by lia.
    destruct (decide (n <= 10)%nat) as [N10 | N10].
    + rewrite land_1023. set (i := bit_buf b mod 2 ^ Z.of_nat 10).
      assert (Hi : 0 <= i < 2 ^ Z.of_nat 10) by (apply Z.mod_pos_bound; lia).
      assert (Bi : bits_of 10 i = bits_of 10 (bit_buf b)) by apply bits_of_mod.
      destruct (t_look _ _ _ _ _ _ T i Hi) as [(k & E & ->) | [(_ & s' & [[K' _] P'] & ->) | (_ & _ & ->)]].
      * rewrite Z.geb_leb, (proj2 (Z.leb_gt _ _)) by (unfold node; lia).
        unfold TINFL_FAST_LOOKUP_BITS. rewrite Z.gtb_ltb, (proj2 (Z.ltb_ge _ _)) by lia. done.
      * destruct (short_entry_spec s' K') as (P & Sh & _). rewrite Z.geb_leb, (proj2 (Z.leb_le _ _)), Sh by lia.
        destruct (code_len lens Ok s' K') as [Hk' _]. rewrite Z.geb_leb, (proj2 (Z.leb_gt _ _)); [by rewrite andb_false_r |].
        destruct (decide (length (cd s') <= n)%nat) as [L' | L']; [| lia]. exfalso.
        rewrite Bi in P'. apply prefix_bits in P' as [_ P'].
        assert (Q : cd s' `prefix_of` take n (cd s)) by (rewrite Ez; apply prefix_bits; done).
        assert (s' = s) as ->; [| lia]. apply (code_prefix_free lens s' s Ok K' C). etrans; [exact Q |].
        exists (drop n (cd s)). by rewrite take_drop.
      * done.
    + assert (Q : take 10 (cd s) = bits_of 10 (bit_buf b)).
      { rewrite <- (take_bits_of n 10) by lia. rewrite <- Ez, take_take. f_equal. lia. }
      assert (Hin : take 10 (cd s) ∈ own) by (apply (t_path _ _ _ _ _ _ T); [by apply coded_known | lia]).
      rewrite land_1023. pose proof (t_look _ _ _ _ _ _ T (bit_buf b mod 2 ^ Z.of_nat 10) ltac:(apply Z.mod_pos_bound; lia)) as X.
      rewrite bits_of_mod, <- Q in X. destruct X as [(k & E & ->) | [(N & _) | (N & _)]]; [| done | done].
      rewrite Z.geb_leb, (proj2 (Z.leb_gt _ _)) by (unfold node; lia).
      unfold TINFL_FAST_LOOKUP_BITS. rewrite Z.gtb_ltb, (proj2 (Z.ltb_lt _ _)) by lia.
      destruct (walk_upto_spec s own next (bit_buf b) n T C) with (fuel := 16%nat) (m := 10%nat) (k := k) as (v & W & V);
        [rewrite Nat.min_l by lia; done | done | lia | lia | lia |].
      change (Z.of_nat 10) with 10 in W. rewrite W. cbn [mbind outcome_bind]. rewrite Z.geb_leb, (proj2 (Z.leb_gt _ _)); [done | lia].
Qed.

End Decode.

End TinflTable.
