(* ===== verification/TinflStream.v ===== *)
(** * Reading bits and symbols, and writing the output, in tinfl.c

    [stream b] are the bits that are still to be read, in the bit buffer and in the input.  Each
    operation of the reader takes its bits off the front of it, whatever is buffered; and none
    reads a byte that is not there while the bits it needs are. *)

From S2P Require Import Prelude Deflate Tinfl TinflTable.

Module TinflStream.
Import Deflate Tinfl TinflTable.

(** ** Bits *)

Definition stream (b : bits) : list bool := bits_of (Z.to_nat (num_bits b)) (bit_buf b) ++ unpack (input b).

Record bits_ok (b : bits) : Prop := {
  ok_num : 0 <= num_bits b <= 61;
  ok_buf : 0 <= bit_buf b < 2 ^ num_bits b;
  ok_in : Forall (in_range 8) (input b) }.

Lemma length_stream b : 0 <= num_bits b -> zlen (stream b) = num_bits b + 8 * zlen (input b).
Proof. intros H. unfold stream, zlen. rewrite length_app, length_bits_of, length_unpack. lia. Qed.

(** More bits at the upper end of the bit buffer. *)
Lemma join x v n m : 0 <= n -> 0 <= m -> n + m <= 64 -> 0 <= x < 2 ^ n -> 0 <= v < 2 ^ m ->
  let y := Z.lor x (u64 (Z.shiftl v n)) in
  0 <= y < 2 ^ (n + m) /\ bits_of (Z.to_nat (n + m)) y = bits_of (Z.to_nat n) x ++ bits_of (Z.to_nat m) v.
Proof.
  intros Hn Hm H64 Hx Hv y.
  assert (P : 0 < 2 ^ n) by (apply Z.pow_pos_nonneg; lia). assert (Pm : 0 < 2 ^ m) by (apply Z.pow_pos_nonneg; lia).
  assert (E : y = x + v * 2 ^ n).
  { unfold y. assert (W : u64 (Z.shiftl v n) = v * 2 ^ n).
    { rewrite Z.shiftl_mul_pow2 by lia. apply wrap_small. unfold in_range. assert (2 ^ (n + m) <= 2 ^ 64) by (apply Z.pow_le_mono_r; lia).
      rewrite Z.pow_add_r in * by lia. nia. }
    rewrite W. rewrite <- Z.lxor_lor, <- Z.add_nocarry_lxor; [done | |].
    all: apply Z.bits_inj'; intros i Hi; rewrite Z.land_spec, Z.bits_0; destruct (Z.lt_ge_cases i n);
      [rewrite Z.mul_pow2_bits_low by lia; apply andb_false_r | rewrite (testbit_high n x i) by (done || lia); done]. }
  rewrite E, Z.pow_add_r by lia. split; [nia |]. rewrite Z2Nat.inj_add, bits_of_app by lia. rewrite Z2Nat.id by lia. f_equal.
  - rewrite <- (bits_of_mod _ (x + v * 2 ^ n)), Z2Nat.id, Z.mod_add, Z.mod_small by lia. done.
  - rewrite Z.div_add, Z.div_small by lia. by rewrite Z.add_0_l.
Qed.

Lemma add_byte_spec b : bits_ok b -> num_bits b <= 53 -> input b <> [] ->
  let b' := add_byte b in bits_ok b' /\ stream b' = stream b /\ num_bits b' = num_bits b + 8.
Proof.
  intros [N B I] Hn Hi. destruct b as [buf n [| c r]]; [done |]. cbn [bit_buf num_bits input] in *.
  apply Forall_cons in I as [Hc I]. unfold in_range in Hc.
  destruct (join buf c n 8 ltac:(lia) ltac:(lia) ltac:(lia) B Hc) as [J1 J2].
  unfold add_byte, get_byte. cbn [input bit_buf num_bits].
  assert (W : u32 (n + 8) = n + 8) by (apply wrap_small; unfold in_range; lia). rewrite W.
  split; [by split; cbn; [lia | |] |]. split; [| done]. unfold stream. cbn [num_bits bit_buf input]. rewrite J2, <- app_assoc.
  f_equal.
Qed.

Lemma need_bits_spec n fuel : forall b, bits_ok b -> num_bits b < n -> n <= 32 -> n <= zlen (stream b) ->
  n - num_bits b <= Z.of_nat fuel + 1 ->
  exists b', need_bits fuel n b = Ret b' /\ bits_ok b' /\ stream b' = stream b /\ n <= num_bits b'.
Proof.
  induction fuel as [| fuel IH]; intros b W Hn Hs Hl Hf; cbn [need_bits];
    pose proof (ok_num _ W); rewrite length_stream in Hl by lia;
    (assert (input b <> []) by (intros E; rewrite E in Hl; unfold zlen in Hl; simpl in Hl; lia));
    destruct (add_byte_spec b W ltac:(lia) ltac:(done)) as (W' & S' & N').
  - rewrite (proj2 (Z.ltb_ge _ _)) by lia. exists (add_byte b). repeat split; (done || lia || apply W').
  - destruct (num_bits (add_byte b) <? n) eqn:E; [apply Z.ltb_lt in E | apply Z.ltb_ge in E].
    + destruct (IH (add_byte b)) as (b' & -> & W2 & S2 & N2); [done | lia | done | rewrite S', length_stream; lia | lia |].
      exists b'. rewrite S2, S'. done.
    + exists (add_byte b). done.
Qed.

Lemma ready_spec n b : bits_ok b -> 0 <= n <= 32 -> n <= zlen (stream b) ->
  exists b', ready n b = Ret b' /\ bits_ok b' /\ stream b' = stream b /\ n <= num_bits b'.
Proof.
  intros W Hn Hl. unfold ready. destruct (num_bits b <? n) eqn:E; [apply Z.ltb_lt in E | apply Z.ltb_ge in E; by exists b].
  apply need_bits_spec; try done; try lia. pose proof (ok_num _ W). lia.
Qed.

Lemma drop_bits_spec n b : bits_ok b -> 0 <= n <= num_bits b ->
  bits_ok (drop_bits n b) /\ stream (drop_bits n b) = drop (Z.to_nat n) (stream b) /\ num_bits (drop_bits n b) = num_bits b - n.
Proof.
  intros [N B I] Hn. unfold drop_bits.
  assert (W : u32 (num_bits b - n) = num_bits b - n) by (apply wrap_small; unfold in_range; lia). rewrite W.
  assert (P : 0 < 2 ^ n) by (apply Z.pow_pos_nonneg; lia).
  split; [| split; [| done]].
  - split; cbn [num_bits bit_buf input]; [lia | | done]. rewrite Z.shiftr_div_pow2 by lia.
    split; [apply Z.div_pos; lia |]. apply Z.div_lt_upper_bound; [done |]. rewrite <- Z.pow_add_r by lia.
    replace (n + (num_bits b - n)) with (num_bits b) by lia. lia.
  - unfold stream. cbn [num_bits bit_buf input]. rewrite drop_app_le by (rewrite length_bits_of; lia). f_equal.
    replace (Z.to_nat (num_bits b)) with (Z.to_nat n + Z.to_nat (num_bits b - n))%nat by lia.
    rewrite bits_of_app, drop_app_length' by (by rewrite length_bits_of). by rewrite Z2Nat.id, Z.shiftr_div_pow2 by lia.
Qed.

Lemma stream_front n b l r : bits_ok b -> stream b = l ++ r -> zlen l = n -> n <= num_bits b ->
  l = bits_of (Z.to_nat n) (bit_buf b).
Proof.
  intros [N _ _] E L Hn. unfold zlen in L. apply (f_equal (take (length l))) in E. rewrite take_app_length in E.
  unfold stream in E. rewrite take_app_le in E by (rewrite length_bits_of; lia). rewrite take_bits_of in E by lia.
  rewrite <- E. f_equal. lia.
Qed.

Lemma get_bits_spec n b l r : bits_ok b -> stream b = l ++ r -> zlen l = n -> n <= 32 ->
  exists b', get_bits n b = Ret (val l, b') /\ bits_ok b' /\ stream b' = r.
Proof.
  intros W E L Hn. pose proof (zlen_nonneg l). pose proof (zlen_nonneg r).
  destruct (ready_spec n b W) as (b1 & R & W1 & S1 & N1); [lia | rewrite E, zlen_app; lia |].
  unfold get_bits. rewrite R. cbn [mbind outcome_bind]. destruct (drop_bits_spec n b1 W1 ltac:(lia)) as (W2 & S2 & _).
  exists (drop_bits n b1). split; [| split; [done |]].
  - rewrite (stream_front n b1 l r W1) by (done || congruence). rewrite val_bits_of, Z2Nat.id by lia.
    rewrite Z.shiftl_1_l, Z.sub_1_r, <- Z.ones_equiv, Z.land_ones by lia. done.
  - rewrite S2, S1, E. unfold zlen in L. by rewrite drop_app_length' by lia.
Qed.

Lemma skip_bits_spec n b l r : bits_ok b -> stream b = l ++ r -> zlen l = n -> n <= 32 ->
  exists b', skip_bits n b = Ret b' /\ bits_ok b' /\ stream b' = r.
Proof.
  intros W E L Hn. destruct (get_bits_spec n b l r W E L Hn) as (b' & G & H). exists b'. split; [| done].
  unfold get_bits, skip_bits in *. destruct (ready n b); cbn [mbind outcome_bind] in *; congruence.
Qed.

(** ** Symbols *)

Section Symbol.
Context (lens : list Z) (h : huff) (D : decodes lens h).

Lemma front_min b c r : bits_ok b -> stream b = c ++ r ->
  take (Z.to_nat (num_bits b)) c = bits_of (Nat.min (Z.to_nat (num_bits b)) (length c)) (bit_buf b).
Proof.
  intros [N _ _] E. set (n := Z.to_nat (num_bits b)) in *.
  rewrite <- (take_bits_of n) by lia. transitivity (take (Nat.min n (length c)) (stream b)).
  - rewrite E, take_app_le by lia. destruct (decide (n <= length c)%nat); [by rewrite Nat.min_l by lia |].
    rewrite Nat.min_r by lia. by rewrite !take_ge by lia.
  - unfold stream. fold n. rewrite take_app_le by (rewrite length_bits_of; lia). done.
Qed.

Lemma huff_fill_spec s r : coded lens s -> forall fuel b, bits_ok b -> num_bits b < 15 -> stream b = code lens s ++ r ->
  15 <= num_bits b + 8 * (Z.of_nat fuel + 1) ->
  exists b', huff_fill fuel h b = Ret b' /\ bits_ok b' /\ stream b' = stream b /\ len_of lens s <= num_bits b'.
Proof.
  intros C. pose proof D as (Ok & _). destruct (code_len lens Ok s C) as [Hk K].
  induction fuel as [| fuel IH]; intros b W Hn E Hf; cbn [huff_fill]; pose proof (ok_num _ W) as N; pose proof (ok_buf _ W) as B;
    rewrite (has_code_spec lens h D s b (Z.to_nat (num_bits b)) C ltac:(lia) ltac:(lia) (front_min b _ _ W E));
    cbn [mbind outcome_bind]; case_bool_decide as L; [exists b; repeat split; (done || lia || apply W) | |
      exists b; repeat split; (done || lia || apply W) |].
  all: assert (I : input b <> []) by
    (intros X; pose proof (length_stream b ltac:(lia)) as Y; rewrite E, X, zlen_app in Y; unfold zlen in Y; simpl in Y; lia);
    destruct (add_byte_spec b W ltac:(lia) I) as (W' & S' & N').
  - rewrite (proj2 (Z.ltb_ge _ _)) by lia. exists (add_byte b). rewrite S'. repeat split; (done || lia || apply W').
  - destruct (num_bits (add_byte b) <? 15) eqn:G; [apply Z.ltb_lt in G | apply Z.ltb_ge in G].
    + destruct (IH (add_byte b)) as (b' & -> & W2 & S2 & L2); [done | lia | congruence | lia |].
      exists b'. rewrite S2, S'. done.
    + exists (add_byte b). rewrite S'. repeat split; (done || lia || apply W').
Qed.

(** The symbol at the front of enough bits, as [look] finds it. *)
Lemma look_front s b r : bits_ok b -> coded lens s -> stream b = code lens s ++ r -> len_of lens s <= num_bits b ->
  exists v, look h (bit_buf b) = Ret (v, len_of lens s) /\ found s v /\
    (if at_ (m_look_up h) (Z.land (bit_buf b) (TINFL_FAST_LOOKUP_SIZE - 1)) >=? 0 then Z.land v 511 else v) = s /\
    let b' := drop_bits (len_of lens s) b in bits_ok b' /\ stream b' = r /\ num_bits b' = num_bits b - len_of lens s.
Proof.
  intros W C E L. pose proof D as (Ok & _). destruct (code_len lens Ok s C) as [Hk K].
  destruct (look_spec lens h D s (bit_buf b) C) as (v & -> & F & M).
  { rewrite (stream_front (len_of lens s) b _ r W E) at 1 by (unfold zlen; lia). f_equal. lia. }
  exists v. split; [done |]. split; [done |]. split; [done |].
  destruct (drop_bits_spec (len_of lens s) b W ltac:(lia)) as (W2 & S2 & N2). split; [done |]. split; [| done].
  rewrite S2, E. by rewrite drop_app_length' by lia.
Qed.

(** TINFL_HUFF_DECODE reads the symbol whose code is next. *)
Lemma huff_decode_spec s b r : bits_ok b -> coded lens s -> stream b = code lens s ++ r ->
  exists b', huff_decode h b = Ret (s, b') /\ bits_ok b' /\ stream b' = r.
Proof.
  intros W C E. pose proof D as (Ok & _). destruct (code_len lens Ok s C) as [Hk K].
  unfold huff_decode.
  match goal with |- context [mbind _ ?m] => match m with (if _ then _ else _) =>
    assert (exists b1, m = Ret b1 /\ bits_ok b1 /\ stream b1 = stream b /\ len_of lens s <= num_bits b1) as (b1 & -> & W1 & S1 & N1) end end.
  { destruct (num_bits b <? 15) eqn:G; [apply Z.ltb_lt in G | apply Z.ltb_ge in G; exists b; repeat split; (done || lia || apply W)].
    pose proof (ok_num _ W). pose proof (ok_in _ W) as I. pose proof (ok_buf _ W) as B.
    destruct (input b) as [| c0 [| c1 r1]] eqn:X; [apply (huff_fill_spec s r C 2); (done || lia) | apply (huff_fill_spec s r C 2); (done || lia) |].
    apply Forall_cons in I as [H0 I]. apply Forall_cons in I as [H1 I]. unfold in_range in H0, H1.
    destruct (join (bit_buf b) c0 (num_bits b) 8 ltac:(lia) ltac:(lia) ltac:(lia) B H0) as [J1 J2].
    destruct (join _ c1 (num_bits b + 8) 8 ltac:(lia) ltac:(lia) ltac:(lia) J1 H1) as [J3 J4].
    assert (Wn : u32 (num_bits b + 16) = num_bits b + 16) by (apply wrap_small; unfold in_range; lia). rewrite Wn.
    replace (num_bits b + 8 + 8) with (num_bits b + 16) in * by lia.
    eexists. split; [reflexivity |]. split; [split; cbn; (lia || done) |]. split; [| cbn; lia].
    unfold stream. cbn [num_bits bit_buf input]. rewrite J4, J2, X, <- !app_assoc. done. }
  cbn [mbind outcome_bind]. destruct (look_front s b1 r W1 C ltac:(congruence) N1) as (v & -> & _ & M & W2 & S2 & _).
  cbn [mbind outcome_bind]. rewrite M. eauto.
Qed.

End Symbol.

(** The 32 bits of the fast loop. *)
Lemma refill_spec b : bits_ok b -> 4 <= zlen (input b) -> bits_ok (refill b) /\ stream (refill b) = stream b /\ 30 <= num_bits (refill b).
Proof.
  intros W Hi. unfold refill. destruct (num_bits b <? 30) eqn:G; [apply Z.ltb_lt in G | apply Z.ltb_ge in G; done].
  pose proof (ok_num _ W) as N. pose proof (ok_in _ W) as I. pose proof (ok_buf _ W) as B.
  destruct (input b) as [| c0 [| c1 [| c2 [| c3 r]]]] eqn:X; try (unfold zlen in Hi; simpl in Hi; lia).
  apply Forall_cons in I as [H0 I]. apply Forall_cons in I as [H1 I]. apply Forall_cons in I as [H2 I]. apply Forall_cons in I as [H3 I].
  unfold in_range in H0, H1, H2, H3.
  assert (S8 : forall c n, 0 <= c < 2 ^ 8 -> 0 <= n <= 32 -> Z.shiftl c n = u64 (Z.shiftl c n)).
  { intros c n Hc Hn. symmetry. apply wrap_small. rewrite Z.shiftl_mul_pow2 by lia. unfold in_range.
    assert (0 < 2 ^ n <= 2 ^ 32) by (split; [apply Z.pow_pos_nonneg | apply Z.pow_le_mono_r]; lia). nia. }
  rewrite (S8 c1), (S8 c2), (S8 c3) by lia.
  destruct (join c0 c1 8 8 ltac:(lia) ltac:(lia) ltac:(lia) H0 H1) as [A1 A2].
  destruct (join _ c2 16 8 ltac:(lia) ltac:(lia) ltac:(lia) A1 H2) as [B1 B2].
  destruct (join _ c3 24 8 ltac:(lia) ltac:(lia) ltac:(lia) B1 H3) as [C1 C2].
  destruct (join _ _ (num_bits b) 32 ltac:(lia) ltac:(lia) ltac:(lia) B C1) as [D1 D2].
  assert (Wn : u32 (num_bits b + 32) = num_bits b + 32) by (apply wrap_small; unfold in_range; lia). rewrite Wn.
  split; [split; cbn; (lia || done) |]. split; [| cbn; lia]. unfold stream. cbn [num_bits bit_buf input].
  rewrite D2. change (Z.to_nat 32) with (Z.to_nat (24 + 8)). rewrite C2. change (Z.to_nat 24) with (Z.to_nat (16 + 8)). rewrite B2.
  change (Z.to_nat 16) with (Z.to_nat (8 + 8)). rewrite A2, X, <- !app_assoc. done.
Qed.

(** ** Output *)

(** The bytes that were put, and the room in the buffer. *)
Definition written (o : out) : list Z := take (Z.to_nat (ocur o)) (obuf o).
Definition out_ok (o : out) : Prop := 0 <= ocur o <= zlen (obuf o).

Lemma zlen_written o : out_ok o -> zlen (written o) = ocur o.
Proof. unfold out_ok, written, zlen. intros H. rewrite length_take. lia. Qed.

Lemma poke_put o c : out_ok o -> ocur o < zlen (obuf o) ->
  exists o', poke o (ocur o) c = Ret o' /\ out_ok (advance o' 1) /\ written (advance o' 1) = written o ++ [c] /\
    zlen (obuf o') = zlen (obuf o) /\ ocur o' = ocur o.
Proof.
  unfold out_ok, poke, written, advance. intros H L.
  rewrite (proj2 (Z.leb_le _ _)), (proj2 (Z.ltb_lt _ _)) by lia. cbn [andb]. eexists. split; [reflexivity |].
  cbn [obuf ocur]. unfold zlen in *. rewrite length_insert. split; [lia |]. split; [| done].
  replace (Z.to_nat (ocur o + 1)) with (S (Z.to_nat (ocur o))) by lia.
  rewrite (take_S_r _ _ c) by (rewrite list_lookup_insert_eq; [done | lia]). by rewrite take_insert_ge by lia.
Qed.

Lemma put_spec o c : out_ok o -> ocur o < zlen (obuf o) ->
  exists o', put o c = Ret o' /\ out_ok o' /\ written o' = written o ++ [u8 c] /\ zlen (obuf o') = zlen (obuf o) /\ ocur o' = ocur o + 1.
Proof.
  intros H L. destruct (poke_put o (u8 c) H L) as (o1 & E & O & W & Z1 & C1). unfold put. rewrite E. cbn [mbind outcome_bind].
  eexists. split; [reflexivity |]. split; [done |]. split; [done |]. cbn. split; [done | lia].
Qed.

Lemma peek_spec o i c : out_ok o -> written o !! Z.to_nat i = Some c -> 0 <= i -> peek o i = Ret c.
Proof.
  unfold out_ok, peek, written, nth_. intros H E Hi. apply lookup_take_Some in E as [E L]. apply lookup_lt_Some in E as L2.
  unfold zlen in *. rewrite (proj2 (Z.leb_le _ _)), (proj2 (Z.ltb_lt _ _)) by lia. cbn [andb]. by rewrite E.
Qed.

End TinflStream.
