(* ===== verification/TinflInflate.v ===== *)
(** * tinfl.c inflates every deflate stream

    For each part of a stream, what the code reads of it and writes to the output; and the
    theorem for whole streams. *)

From S2P Require Import Prelude Deflate Tinfl TinflTable TinflStream.

Module TinflInflate.
Import Deflate Tinfl TinflTable TinflStream.

(** The buffer of [cap] bytes has the output [w]. *)
Record has (cap : Z) (o : out) (w : list Z) : Prop := {
  h_ok : out_ok o; h_cap : zlen (obuf o) = cap; h_out : written o = w; h_bytes : Forall (in_range 8) w }.

Lemma has_len cap o w : has cap o w -> ocur o = zlen w /\ zlen w <= cap.
Proof. intros [O C W _]. pose proof (zlen_written o O). unfold out_ok in O. subst w. lia. Qed.

Lemma u8_byte c : in_range 8 c -> u8 c = c.
Proof. apply wrap_small. Qed.

Lemma put_has cap o w c : has cap o w -> zlen w < cap -> in_range 8 c -> exists o', put o c = Ret o' /\ has cap o' (w ++ [c]).
Proof.
  intros H L Hc. destruct (has_len _ _ _ H) as [E _]. destruct H as [O C W F].
  destruct (put_spec o c O ltac:(lia)) as (o' & P & O' & W' & Z' & _). exists o'. split; [done |].
  rewrite u8_byte in W' by done. split; [done | lia | congruence |]. apply Forall_app. split; [done | by constructor].
Qed.

Lemma put_list_has cap l : forall o w, has cap o w -> zlen w + zlen l <= cap -> Forall (in_range 8) l ->
  exists o', put_list o l = Ret o' /\ has cap o' (w ++ l).
Proof.
  induction l as [| c l IH]; intros o w H L F; [exists o; by rewrite app_nil_r |].
  apply Forall_cons in F as [Hc F]. unfold zlen in L. simpl in L. fold (zlen w) (zlen l) in L.
  destruct (put_has cap o w c H) as (o1 & E1 & H1); [unfold zlen in *; lia | done |]. cbn [put_list]. rewrite E1. cbn [mbind outcome_bind].
  destruct (IH o1 (w ++ [c]) H1) as (o2 & E2 & H2); [rewrite zlen_app; unfold zlen in *; simpl; lia | done |].
  exists o2. split; [done |]. by rewrite <- app_assoc in H2.
Qed.

(** ** Copies *)

Lemma copy_add a b d w : copy (a + b) d w = copy b d (copy a d w).
Proof. revert w. induction a as [| a IH]; intros w; [done |]. cbn [Nat.add copy]. apply IH. Qed.

Lemma length_copy n d w : length (copy n d w) = (length w + n)%nat.
Proof. revert w. induction n as [| n IH]; intros w; cbn [copy]; [lia |]. rewrite IH, length_app. simpl. lia. Qed.

Lemma copy1_has cap o w d : has cap o w -> 1 <= d <= zlen w -> zlen w < cap ->
  exists o', copy1 (o, zlen w - d) = Ret (o', zlen w + 1 - d) /\ has cap o' (copy 1 (Z.to_nat d) w).
Proof.
  intros H Hd L. pose proof H as [O C W F]. unfold zlen in Hd.
  destruct (lookup_lt_is_Some_2 w (length w - Z.to_nat d)%nat ltac:(lia)) as [c Ec].
  unfold copy1. cbn [fst snd]. rewrite (peek_spec o _ c O); [| rewrite W, <- Ec; f_equal; unfold zlen; lia | unfold zlen; lia].
  cbn [mbind outcome_bind]. destruct (put_has cap o w c H L) as (o' & -> & H').
  { by apply (Forall_lookup_1 _ _ _ _ F Ec). }
  cbn [mbind outcome_bind]. exists o'. split; [do 2 f_equal; lia |]. cbn [copy]. by rewrite Ec.
Qed.

Lemma copy1_next cap o w d k : has cap o (copy k (Z.to_nat d) w) -> 1 <= d <= zlen w -> zlen w + Z.of_nat k < cap ->
  exists o', copy1 (o, zlen w + Z.of_nat k - d) = Ret (o', zlen w + Z.of_nat (S k) - d) /\ has cap o' (copy (S k) (Z.to_nat d) w).
Proof.
  intros H Hd L. assert (Z1 : zlen (copy k (Z.to_nat d) w) = zlen w + Z.of_nat k) by (unfold zlen; rewrite length_copy; lia).
  destruct (copy1_has cap o _ d H) as (o' & E & H'); [lia | lia |]. rewrite Z1 in E. exists o'. split.
  - rewrite E. do 2 f_equal. lia.
  - replace (S k) with (k + 1)%nat by lia. by rewrite copy_add.
Qed.

Lemma copy_fast_has cap d : forall fuel counter o w, has cap o w -> 1 <= d <= zlen w -> 3 <= counter <= 3 * (Z.of_nat fuel + 1) + 2 ->
  zlen w + counter <= cap ->
  exists o', copy_fast fuel counter (o, zlen w - d) = Ret o' /\ has cap o' (copy (Z.to_nat counter) (Z.to_nat d) w).
Proof.
  induction fuel as [| fuel IH]; intros counter o w H Hd Hc L; cbn [copy_fast];
    (destruct (copy1_next cap o w d 0) as (o1 & E1 & H1); [done | done | lia |]); rewrite Z.add_0_r in E1; rewrite E1; cbn [mbind outcome_bind];
    (destruct (copy1_next cap o1 w d 1 H1 Hd) as (o2 & E2 & H2); [lia |]); rewrite E2; cbn [mbind outcome_bind];
    (destruct (copy1_next cap o2 w d 2 H2 Hd) as (o3 & E3 & H3); [lia |]); rewrite E3; cbn [mbind outcome_bind].
  1: rewrite Z.gtb_ltb, (proj2 (Z.ltb_ge _ _)) by lia.
  2: destruct (counter - 3 >? 2) eqn:G; rewrite Z.gtb_ltb in G;
     [apply Z.ltb_lt in G | apply Z.ltb_ge in G].
  2: { assert (Z1 : zlen (copy 3 (Z.to_nat d) w) = zlen w + 3) by (unfold zlen; rewrite length_copy; lia).
       destruct (IH (counter - 3) o3 (copy 3 (Z.to_nat d) w) H3) as (o' & E & H'); [lia | lia | lia |].
       exists o'. rewrite Z1 in E. split; [exact E |]. rewrite <- copy_add in H'. by replace (3 + Z.to_nat (counter - 3))%nat with (Z.to_nat counter) in H' by lia. }
  all: destruct (counter - 3 >? 0) eqn:G0; rewrite Z.gtb_ltb in G0; [apply Z.ltb_lt in G0 | apply Z.ltb_ge in G0];
    [| exists o3; split; [done |]; by replace (Z.to_nat counter) with 3%nat by lia];
    (destruct (copy1_next cap o3 w d 3 H3 Hd) as (o4 & E4 & H4); [lia |]); rewrite E4; cbn [mbind outcome_bind];
    destruct (counter - 3 >? 1) eqn:G1; rewrite Z.gtb_ltb in G1; [apply Z.ltb_lt in G1 | apply Z.ltb_ge in G1];
    [(destruct (copy1_next cap o4 w d 4 H4 Hd) as (o5 & E5 & H5); [lia |]); rewrite E5; cbn [mbind outcome_bind];
       exists o5; split; [done |]; by replace (Z.to_nat counter) with 5%nat by lia
    | cbn [mbind outcome_bind]; exists o4; split; [done |]; by replace (Z.to_nat counter) with 4%nat by lia].
Qed.

Lemma extra_spec n base e b r : bits_ok b -> 0 <= n <= 32 -> 0 <= e < 2 ^ n -> stream b = bits_of (Z.to_nat n) e ++ r ->
  exists b', extra n base b = Ret (base + e, b') /\ bits_ok b' /\ stream b' = r.
Proof.
  intros W Hn He E. unfold extra. destruct (n =? 0) eqn:Z0; cbn [negb].
  - apply Z.eqb_eq in Z0. subst n. exists b. change (2 ^ 0) with 1 in He. replace e with 0 by lia. rewrite Z.add_0_r.
    cbn in E. done.
  - destruct (get_bits_spec n b _ r W E) as (b' & -> & W' & S'); [unfold zlen; rewrite length_bits_of; lia | lia |].
    cbn [mbind outcome_bind]. exists b'. rewrite val_bits_of, Z2Nat.id, Z.mod_small by lia. done.
Qed.

Lemma nth_front l l' i x : l !! Z.to_nat i = Some x -> nth_ (l ++ l') i = x.
Proof. intros E. unfold nth_. by rewrite (lookup_app_l_Some _ _ _ _ E). Qed.

Lemma tables_range :
  Forall (fun n => 0 <= n <= 32) length_extra /\ Forall (fun n => 0 <= n <= 32) dist_extra /\
  Forall (fun n => 3 <= n) length_base /\ Forall (fun n => 1 <= n) dist_base.
Proof. repeat split; apply (bool_decide_unpack _); vm_compute; done. Qed.

(** A copy, from its extra bits on. *)
Lemma copy_match_spec ld t1 cap b o w ls le ds de ln dn lb db c r :
  decodes ld t1 -> bits_ok b -> has cap o w -> 257 <= ls ->
  length_extra !! Z.to_nat (ls - 257) = Some ln -> dist_extra !! Z.to_nat ds = Some dn ->
  length_base !! Z.to_nat (ls - 257) = Some lb -> dist_base !! Z.to_nat ds = Some db ->
  0 <= le < 2 ^ ln -> 0 <= de < 2 ^ dn -> coded ld ds -> c = code ld ds ->
  stream b = bits_of (Z.to_nat ln) le ++ c ++ bits_of (Z.to_nat dn) de ++ r ->
  db + de <= zlen w -> zlen w + (lb + le) <= cap ->
  exists b' o', copy_match t1 ls b o = Go (b', o') /\ bits_ok b' /\ stream b' = r /\
    has cap o' (copy (Z.to_nat (lb + le)) (Z.to_nat (db + de)) w).
Proof.
  intros D W H Hls E1 E2 E3 E4 Hle Hde C -> E Hd Hc. destruct tables_range as (R1 & R2 & R3 & R4).
  pose proof (Forall_lookup_1 _ _ _ _ R1 E1) as B1. pose proof (Forall_lookup_1 _ _ _ _ R2 E2) as B2.
  pose proof (Forall_lookup_1 _ _ _ _ R3 E3) as B3. pose proof (Forall_lookup_1 _ _ _ _ R4 E4) as B4. cbn in B1, B2, B3, B4.
  unfold copy_match.
  change s_length_extra with (length_extra ++ [0; 0]). change s_length_base with (length_base ++ [0; 0]).
  change s_dist_extra with (dist_extra ++ [0; 0]). change s_dist_base with (dist_base ++ [0; 0]).
  rewrite (nth_front _ _ _ _ E1), (nth_front _ _ _ _ E3).
  destruct (extra_spec ln lb le b _ W B1 Hle E) as (b1 & -> & W1 & S1). cbn [lift andthen Go].
  destruct (huff_decode_spec ld t1 D ds b1 _ W1 C S1) as (b2 & -> & W2 & S2). cbn [lift andthen Go].
  rewrite (nth_front _ _ _ _ E2), (nth_front _ _ _ _ E4).
  destruct (extra_spec dn db de b2 _ W2 B2 Hde S2) as (b3 & -> & W3 & S3). cbn [lift andthen Go].
  destruct (has_len _ _ _ H) as [Oc _]. rewrite Oc, (h_cap _ _ _ H).
  rewrite Z.gtb_ltb, (proj2 (Z.ltb_ge _ _)) by lia. rewrite Z.gtb_ltb, (proj2 (Z.ltb_ge _ _)) by lia.
  destruct (copy_fast_has cap (db + de) (Z.to_nat (lb + le)) (lb + le) o w H) as (o' & -> & H'); [lia | lia | lia |].
  cbn [lift andthen Go]. exists b3, o'. done.
Qed.

(** ** Literals *)

Lemma land_256 s : 0 <= s < 512 -> Z.land s 256 = if s <? 256 then 0 else 256.
Proof.
  intros Hs. assert (A : Forall (fun s => Z.land s 256 = if s <? 256 then 0 else 256) (seqZ 0 512))
    by (apply (bool_decide_unpack _); vm_compute; done).
  rewrite Forall_forall in A. apply A, elem_of_seqZ. lia.
Qed.

Lemma land_256_lit v c : found c v -> 0 <= c < 256 -> (Z.land v 256 =? 0) = true /\ u8 v = c.
Proof.
  intros (_ & -> & -> & _) Hc. rewrite land_256, (proj2 (Z.ltb_lt _ _)) by lia. split; [done |]. apply u8_byte. unfold in_range. lia.
Qed.

Lemma land_256_sym v s : found s v -> 256 <= s < 512 -> (Z.land v 256 =? 0) = false /\ Z.land v 511 = s.
Proof. intros (-> & -> & _ & _) Hs. rewrite land_256, (proj2 (Z.ltb_ge _ _)) by lia. done. Qed.

Lemma sym_bits_Some lens s a : sym_bits lens s = Some a -> coded lens s /\ a = code lens s.
Proof. unfold sym_bits. case_decide; [by intros [= <-] | done]. Qed.

Lemma extra_bits_Some n e a : extra_bits n e = Some a -> 0 <= e < 2 ^ n /\ a = bits_of (Z.to_nat n) e.
Proof. unfold extra_bits. case_decide; [by intros [= <-] | done]. Qed.

Section Block.
Context (ll ld : list Z) (t0 t1 : huff) (D0 : decodes ll t0) (D1 : decodes ld t1) (cap : Z).

Definition lits (cs : list Z) : list bool := concat (map (code ll) cs).
Definition lit_ok (c : Z) : Prop := 0 <= c < 256 /\ coded ll c.

Lemma zlen_cons {A} (x : A) l : zlen (x :: l) = 1 + zlen l.
Proof. unfold zlen. simpl. lia. Qed.

Lemma len15 s : coded ll s -> 1 <= len_of ll s <= 15.
Proof. intros C. destruct D0 as (Ok & _). by destruct (code_len ll Ok s C). Qed.

(** A store at the cursor and the step over it, and a store behind a byte that the cursor has not passed yet. *)
Lemma poke_has o w c : has cap o w -> zlen w < cap -> 0 <= c < 256 ->
  exists o1, poke o (ocur o) c = Ret o1 /\ has cap (advance o1 1) (w ++ [c]).
Proof.
  intros H L Hc. destruct (has_len _ _ _ H) as [Oc _]. pose proof (h_cap _ _ _ H) as Hcap.
  destruct (poke_put o c (h_ok _ _ _ H) ltac:(lia)) as (o1 & P1 & O1 & Wr1 & Z1 & C1). exists o1. split; [done |].
  split; [done | cbn; lia | by rewrite Wr1, (h_out _ _ _ H) |]. apply Forall_app. split; [apply H | repeat constructor; lia].
Qed.

Lemma poke_next o w c : has cap (advance o 1) w -> zlen w < cap -> 0 <= c < 256 ->
  exists o2, poke o (ocur o + 1) c = Ret o2 /\ has cap (advance o2 2) (w ++ [c]).
Proof.
  intros H L Hc. destruct (poke_has _ _ _ H L Hc) as (o2 & P2 & H2). unfold poke in *. cbn [ocur obuf advance] in P2.
  destruct ((0 <=? ocur o + 1) && (ocur o + 1 <? zlen (obuf o))); [| discriminate].
  injection P2 as <-. eexists. split; [reflexivity |].
  unfold advance in *. cbn [ocur obuf] in *. replace (ocur o + 2) with (ocur o + 1 + 1) by lia. done.
Qed.

Lemma literals_spec s r : coded ll s -> 256 <= s -> forall fuel cs b o w,
  bits_ok b -> has cap o w -> Forall lit_ok cs -> stream b = lits cs ++ code ll s ++ r -> zlen w + zlen cs <= cap ->
  (length cs < fuel)%nat ->
  exists v b' o', literals fuel t0 b o = Go (v, b', o') /\ Z.land v 511 = s /\ bits_ok b' /\ stream b' = r /\ has cap o' (w ++ cs).
Proof.
  intros C Hs. pose proof (coded_bound ll t0 D0 s C) as Bs.
  induction fuel as [| fuel IH]; intros cs b o w W H F E L Hf; [lia |]. cbn [literals].
  destruct (has_len _ _ _ H) as [Oc _]. pose proof (h_cap _ _ _ H) as Hcap.
  destruct ((zlen (input b) <? 4) || (zlen (obuf o) - ocur o <? 2)) eqn:Slow.
  - destruct cs as [| c cs].
    + cbn [lits map concat app] in E. destruct (huff_decode_spec ll t0 D0 s b r W C E) as (b' & -> & W' & S').
      cbn [lift andthen Go]. rewrite Z.geb_leb, (proj2 (Z.leb_le _ _)) by lia. exists s, b', o. rewrite app_nil_r.
      split; [done |]. split; [| done]. change 511 with (Z.ones 9). rewrite Z.land_ones, Z.mod_small by lia. done.
    + apply Forall_cons in F as [[Hc Cc] F]. unfold lits in E. cbn [map concat] in E. rewrite <- app_assoc in E.
      destruct (huff_decode_spec ll t0 D0 c b _ W Cc E) as (b' & -> & W' & S'). cbn [lift andthen Go].
      rewrite zlen_cons in L. pose proof (zlen_nonneg cs).
      rewrite Z.geb_leb, (proj2 (Z.leb_gt _ _)) by lia. unfold full. rewrite Z.geb_leb, (proj2 (Z.leb_gt _ _)) by lia.
      destruct (put_has cap o w c H) as (o' & -> & H'); [lia | unfold in_range; lia |]. cbn [lift andthen Go].
      destruct (IH cs b' o' (w ++ [c])) as (v & b2 & o2 & E2 & M & W2 & S2 & Hf2); try done.
      { rewrite zlen_app. change (zlen [c]) with 1. lia. } { simpl in Hf. lia. }
      exists v, b2, o2. rewrite <- app_assoc in Hf2. done.
  - apply orb_false_iff in Slow as [G1%Z.ltb_ge G2%Z.ltb_ge].
    destruct (refill_spec b W G1) as (W1 & S1 & N1). rewrite <- S1 in E. clear S1 W. set (b1 := refill b) in *. clearbody b1.
    destruct cs as [| c cs].
    + cbn [lits map concat app] in E. pose proof (len15 s C).
      destruct (look_front ll t0 D0 s b1 r W1 C E ltac:(lia)) as (v & -> & Fv & _ & W2 & S2 & N2). cbn [lift andthen Go].
      destruct (land_256_sym v s Fv ltac:(lia)) as [-> M]. cbn [negb]. exists v, (drop_bits (len_of ll s) b1), o. rewrite app_nil_r. done.
    + apply Forall_cons in F as [[Hc Cc] F]. unfold lits in E. cbn [map concat] in E. rewrite <- app_assoc in E.
      pose proof (len15 c Cc). rewrite zlen_cons in L. pose proof (zlen_nonneg cs).
      destruct (look_front ll t0 D0 c b1 _ W1 Cc E ltac:(lia)) as (v & -> & Fv & _ & W2 & S2 & N2). cbn [lift andthen Go].
      destruct (land_256_lit v c Fv Hc) as [-> U]. cbn [negb]. rewrite U.
      destruct (poke_has o w c H ltac:(lia) Hc) as (o1 & P1 & Hh).
      destruct cs as [| c2 cs].
      * cbn [map concat app] in S2. pose proof (len15 s C).
        destruct (look_front ll t0 D0 s _ r W2 C S2 ltac:(lia)) as (v2 & -> & Fv2 & _ & W3 & S3 & N3). cbn [lift andthen Go].
        rewrite P1. cbn [lift andthen Go]. destruct (land_256_sym v2 s Fv2 ltac:(lia)) as [-> M]. cbn [negb].
        eexists v2, _, _. split; [reflexivity |]. done.
      * apply Forall_cons in F as [[Hc2 Cc2] F]. cbn [map concat] in S2. rewrite <- app_assoc in S2.
        pose proof (len15 c2 Cc2). rewrite zlen_cons in L. pose proof (zlen_nonneg cs).
        destruct (look_front ll t0 D0 c2 _ _ W2 Cc2 S2 ltac:(lia)) as (v2 & -> & Fv2 & _ & W3 & S3 & N3). cbn [lift andthen Go].
        rewrite P1. cbn [lift andthen Go]. destruct (land_256_lit v2 c2 Fv2 Hc2) as [-> U2]. cbn [negb]. rewrite U2.
        assert (L2 : zlen (w ++ [c]) < cap) by (rewrite zlen_app; change (zlen [c]) with 1; lia).
        destruct (poke_next o1 _ c2 Hh L2 Hc2) as (o2 & -> & Hh2). cbn [lift andthen Go].
        destruct (IH cs _ (advance o2 2) ((w ++ [c]) ++ [c2]) W3) as (v3 & b3 & o3 & E3 & M & W4 & S4 & Hf3); try done.
        { rewrite !zlen_app. change (zlen [c]) with 1. change (zlen [c2]) with 1. lia. }
        { simpl in Hf. lia. }
        exists v3, b3, o3. rewrite <- !app_assoc in Hf3. done.
Qed.

(** ** The symbols of a block *)

Lemma split_literals ts : exists cs, ts = map Literal cs \/
  exists ls le ds de ts', ts = map Literal cs ++ Copy ls le ds de :: ts'.
Proof.
  induction ts as [| [c | ls le ds de] ts (cs & IH)]; [by exists []; left | |].
  - exists (c :: cs). destruct IH as [-> | (ls & le & ds & de & ts' & ->)]; [by left | right; by eexists _, _, _, _, _].
  - exists []. right. by eexists _, _, _, _, _.
Qed.

Lemma literals_bits cs ts : forall bs, tokens_bits ll ld (map Literal cs ++ ts) = Some bs ->
  exists bs', Forall lit_ok cs /\ bs = lits cs ++ bs' /\ tokens_bits ll ld ts = Some bs'.
Proof.
  induction cs as [| c cs IH]; intros bs E; [by exists bs |]. cbn [map app tokens_bits token_bits] in E.
  apply bind_Some in E as (a & Ea & E). apply bind_Some in E as (b & Eb & [= <-]).
  case_decide as Hc; [| done]. unfold sym_bits in Ea. case_decide as Cc; [| done]. injection Ea as <-.
  destruct (IH b Eb) as (bs' & F & -> & E'). exists bs'. split; [by constructor |]. split; [| done].
  unfold lits. cbn [map concat]. by rewrite app_assoc.
Qed.

Lemma literals_expand cs ts : forall w, expand_tokens w (map Literal cs ++ ts) = expand_tokens (w ++ cs) ts.
Proof. induction cs as [| c cs IH]; intros w; cbn; [by rewrite app_nil_r |]. rewrite IH, <- app_assoc. done. Qed.

Lemma expand_longer ts : forall w w', expand_tokens w ts = Some w' -> (length w <= length w')%nat.
Proof.
  induction ts as [| t ts IH]; intros w w' E; cbn in E; [by injection E as -> |].
  apply bind_Some in E as (w1 & E1 & E). apply IH in E. etrans; [| exact E].
  destruct t as [c | ls le ds de]; cbn in E1; [injection E1 as <-; rewrite length_app; lia |].
  apply bind_Some in E1 as (lb & _ & E1). apply bind_Some in E1 as (db & _ & E1). case_decide; [| done].
  injection E1 as <-. rewrite length_copy. lia.
Qed.

Lemma symbols_spec r : forall fuel ts b o w w' bs,
  bits_ok b -> has cap o w -> tokens_bits ll ld ts = Some bs -> expand_tokens w ts = Some w' ->
  stream b = bs ++ r -> zlen w' <= cap -> (length w' < length w + fuel)%nat ->
  exists b' o', symbols fuel t0 t1 b o = Go (b', o') /\ bits_ok b' /\ stream b' = r /\ has cap o' w'.
Proof.
  induction fuel as [| fuel IH]; intros ts b o w w' bs W H Eb Ex E L Hf; [apply expand_longer in Ex; lia |].
  cbn [symbols]. pose proof (h_cap _ _ _ H) as Hcap.
  assert (X : forall cs s r', coded ll s -> 256 <= s -> Forall lit_ok cs -> stream b = lits cs ++ code ll s ++ r' ->
    zlen w + zlen cs <= cap ->
    exists v b' o', literals (length (obuf o) + 1) t0 b o = Go (v, b', o') /\ Z.land v 511 = s /\ bits_ok b' /\ stream b' = r' /\ has cap o' (w ++ cs)).
  { intros cs s r' C Hs F Es Lc. pose proof (zlen_nonneg w). apply literals_spec; try done. unfold zlen in *. lia. }
  destruct (split_literals ts) as (cs & [-> | (ls & le & ds & de & ts' & ->)]).
  - rewrite <- (app_nil_r (map Literal cs)) in Eb, Ex. apply literals_bits in Eb as (bs' & F & -> & Eb). rewrite literals_expand in Ex.
    injection Ex as <-. cbn in Eb. unfold sym_bits in Eb. case_decide as C; [| done]. injection Eb as <-.
    rewrite zlen_app in L. rewrite <- app_assoc in E.
    destruct (X cs 256 r C ltac:(lia) F E L) as (v & b' & o' & -> & M & R). cbn [lift andthen Go].
    rewrite M. change (256 =? 256) with true. eauto.
  - apply literals_bits in Eb as (bs' & F & -> & Eb). rewrite literals_expand in Ex.
    cbn [tokens_bits expand_tokens token_bits expand_token] in Eb, Ex.
    apply bind_Some in Eb as (a & Ea & Eb). apply bind_Some in Eb as (b2 & Eb & [= <-]).
    apply bind_Some in Ex as (w1 & E1 & Ex). case_decide as Hls; [| done].
    apply bind_Some in Ea as (ln & Eln & Ea). apply bind_Some in Ea as (dn & Edn & Ea).
    apply bind_Some in Ea as (x1 & E11 & Ea). apply bind_Some in Ea as (x2 & E12 & Ea).
    apply bind_Some in Ea as (x3 & E13 & Ea). apply bind_Some in Ea as (x4 & E14 & [= <-]).
    apply bind_Some in E1 as (lb & Elb & E1). apply bind_Some in E1 as (db & Edb & E1). case_decide as Hd; [| done].
    injection E1 as <-. apply sym_bits_Some in E11 as [Cl ->]. apply extra_bits_Some in E12 as [Hle ->].
    apply sym_bits_Some in E13 as [Cd ->]. apply extra_bits_Some in E14 as [Hde ->].
    pose proof (expand_longer _ _ _ Ex) as Lx. rewrite length_copy, length_app in Lx.
    destruct tables_range as (_ & _ & R3 & _). pose proof (Forall_lookup_1 _ _ _ _ R3 Elb) as B3. cbn in B3.
    rewrite <- !app_assoc in E.
    destruct (X cs ls _ Cl ltac:(lia) F E) as (v & b' & o' & -> & M & W1 & S1 & H1); [unfold zlen in *; lia |].
    cbn [lift andthen Go]. rewrite M, (proj2 (Z.eqb_neq _ _)) by lia.
    destruct (copy_match_spec ld t1 cap b' o' (w ++ cs) ls le ds de ln dn lb db (code ld ds) (b2 ++ r) D1 W1 H1) as (b3 & o3 & -> & W3 & S3 & H3);
      try done; [lia | rewrite zlen_app in *; unfold zlen in *; lia |].
    cbn [lift andthen Go]. apply (IH ts' b3 o3 (copy (Z.to_nat (lb + le)) (Z.to_nat (db + de)) (w ++ cs)) w' b2); try done. rewrite length_copy, length_app. lia.
Qed.

End Block.

(** ** Stored blocks *)

Lemma bits8_inj c c' r r' : in_range 8 c -> in_range 8 c' -> bits_of 8 c ++ r = bits_of 8 c' ++ r' -> c = c' /\ r = r'.
Proof.
  unfold in_range. intros H H' E. apply app_inj_1 in E as [E ->]; [| by rewrite !length_bits_of]. split; [| done].
  apply (f_equal val) in E. rewrite !val_bits_of in E. change (2 ^ Z.of_nat 8) with (2 ^ 8) in E. by rewrite !Z.mod_small in E by lia.
Qed.

Lemma unpack_prefix d : forall l r, Forall (in_range 8) d -> Forall (in_range 8) l -> unpack l = unpack d ++ r ->
  exists l', l = d ++ l' /\ unpack l' = r.
Proof.
  induction d as [| c d IH]; intros l r Fd Fl E; [by exists l |].
  apply Forall_cons in Fd as [Hc Fd]. destruct l as [| c' l].
  - apply (f_equal length) in E. rewrite length_app, !length_unpack in E. simpl in E. lia.
  - apply Forall_cons in Fl as [Hc' Fl]. unfold unpack in E. cbn [map concat] in E. rewrite <- app_assoc in E.
    apply bits8_inj in E as [-> E]; [| done | done]. destruct (IH l r Fd Fl E) as (l' & -> & R). by exists l'.
Qed.

(** The rest of the stream is whole bytes exactly if the bit buffer has whole bytes. *)
Definition aligned (b : bits) : Prop := zlen (stream b) mod 8 = 0.

Lemma num_bits_mod b : bits_ok b -> num_bits b mod 8 = zlen (stream b) mod 8.
Proof.
  intros W. pose proof (ok_num _ W). rewrite length_stream by lia. rewrite (Z.mul_comm 8), Z.mod_add by lia. done.
Qed.

Lemma raw_byte_spec b c r : bits_ok b -> in_range 8 c -> aligned b -> stream b = bits_of 8 c ++ r ->
  exists b', raw_byte b = Ret (c, b') /\ bits_ok b' /\ aligned b' /\ stream b' = r.
Proof.
  intros W Hc A E. unfold raw_byte.
  assert (A' : forall b', stream b' = r -> aligned b').
  { intros b' <-. unfold aligned in *. rewrite E, zlen_app in A. unfold zlen at 1 in A. rewrite length_bits_of in A.
    change (Z.of_nat 8) with (1 * 8) in A. by rewrite Z.add_comm, Z.mod_add in A by lia. }
  destruct (num_bits b =? 0) eqn:N; cbn [negb].
  - apply Z.eqb_eq in N. pose proof (ok_in _ W) as I. pose proof (ok_buf _ W) as B. unfold stream in E. rewrite N in E. cbn [Z.to_nat bits_of app] in E.
    unfold get_byte. destruct (input b) as [| c' l]; [apply (f_equal length) in E; rewrite length_app, length_bits_of in E; simpl in E; lia |].
    apply Forall_cons in I as [Hc' I]. unfold unpack in E. cbn [map concat] in E. apply bits8_inj in E as [-> E]; [| done | done].
    eexists. split; [reflexivity |]. assert (S' : stream (mkBits (bit_buf b) (num_bits b) l) = r).
    { unfold stream. cbn [num_bits bit_buf input]. rewrite N. exact E. }
    split; [| split; [by apply A' | done]]. split; cbn [num_bits bit_buf input]; [rewrite N; lia | done | done].
  - destruct (get_bits_spec 8 b _ r W E) as (b' & -> & W' & S'); [unfold zlen; by rewrite length_bits_of | lia |].
    exists b'. rewrite val_bits_of. change (2 ^ Z.of_nat 8) with (2 ^ 8). rewrite Z.mod_small by done. auto.
Qed.

Lemma full_false cap o w : has cap o w -> zlen w < cap -> full o = false.
Proof.
  intros H L. destruct (has_len _ _ _ H) as [E _]. unfold full. rewrite (h_cap _ _ _ H), Z.geb_leb. apply Z.leb_gt. lia.
Qed.

Lemma stored_bits_spec cap r data : forall fuel b o w, bits_ok b -> aligned b -> has cap o w -> Forall (in_range 8) data ->
  stream b = unpack data ++ r -> zlen w + zlen data <= cap -> (length data <= fuel)%nat ->
  exists d1 d2 b' o', data = d1 ++ d2 /\ stored_bits fuel (zlen data) b o = Go (zlen d2, b', o') /\ bits_ok b' /\
    stream b' = unpack d2 ++ r /\ has cap o' (w ++ d1) /\ (d2 = [] \/ num_bits b' = 0).
Proof.
  induction data as [| c data IH]; intros fuel b o w W A H F E L Hf.
  - exists [], [], b, o. rewrite (app_nil_r w). assert (stored_bits fuel (zlen (@nil Z)) b o = Go (zlen (@nil Z), b, o)) as -> by (by destruct fuel).
    split_and!; try done. by left.
  - apply Forall_cons in F as [Hc F]. rewrite zlen_cons in L. pose proof (zlen_nonneg data). simpl in Hf.
    destruct (num_bits b =? 0) eqn:N.
    + exists [], (c :: data), b, o. rewrite (app_nil_r w). apply Z.eqb_eq in N as N'.
      assert (X : stored_bits fuel (zlen (c :: data)) b o = Go (zlen (c :: data), b, o))
        by (destruct fuel; cbn [stored_bits]; rewrite N; cbn [negb]; by rewrite andb_false_r).
      rewrite X. split_and!; try done. by right.
    + destruct fuel as [| fuel]; [lia |]. cbn [stored_bits]. rewrite N. cbn [negb]. rewrite zlen_cons, (proj2 (Z.eqb_neq _ _)) by lia. cbn [negb andb].
      unfold unpack in E. cbn [map concat] in E. rewrite <- app_assoc in E.
      destruct (raw_byte_spec b c _ W Hc A E) as (b' & R & W' & A' & S'). unfold raw_byte in R. rewrite N in R. cbn [negb] in R.
      rewrite R. cbn [lift andthen Go]. rewrite (full_false cap o w H) by lia.
      destruct (put_has cap o w c H) as (o' & -> & H'); [lia | done |]. cbn [lift andthen Go].
      replace (1 + zlen data - 1) with (zlen data) by lia.
      destruct (IH fuel b' o' (w ++ [c]) W' A' H' F S') as (d1 & d2 & b2 & o2 & -> & E2 & W2 & S2 & H2 & Z2);
        [rewrite zlen_app; change (zlen [c]) with 1; lia | lia |].
      exists (c :: d1), d2, b2, o2. rewrite <- app_assoc in H2. done.
Qed.

Lemma stored_copy_spec cap r d b o w : bits_ok b -> num_bits b = 0 \/ d = [] -> has cap o w -> Forall (in_range 8) d ->
  stream b = unpack d ++ r -> zlen w + zlen d <= cap ->
  exists b' o', stored_copy (length d) (zlen d) b o = Go (b', o') /\ bits_ok b' /\ stream b' = r /\ has cap o' (w ++ d).
Proof.
  intros W N H F E L. destruct d as [| c d]; [exists b, o; rewrite app_nil_r; done |].
  destruct N as [N | N]; [| done]. set (d' := c :: d) in *. pose proof (ok_in _ W) as I.
  assert (E' := E). unfold stream in E'. rewrite N in E'. cbn [Z.to_nat bits_of app] in E'.
  destruct (unpack_prefix d' (input b) r F I E') as (l' & El & R).
  assert (Hd : 1 <= zlen d') by (unfold d'; rewrite zlen_cons; pose proof (zlen_nonneg d); lia).
  destruct (has_len _ _ _ H) as [Oc _]. pose proof (h_cap _ _ _ H) as Hcap.
  replace (length d') with (S (length d)) by done. cbn [stored_copy]. rewrite (proj2 (Z.eqb_neq _ _)) by lia. cbn [negb].
  rewrite (full_false cap o w H) by lia.
  assert (Hi : zlen (input b) = zlen d' + zlen l') by (by rewrite El, zlen_app). pose proof (zlen_nonneg l').
  rewrite (proj2 (Z.eqb_neq (zlen (input b)) 0)) by lia.
  replace (Z.min (Z.min (zlen (obuf o) - ocur o) (zlen (input b))) (zlen d')) with (zlen d') by lia.
  rewrite El. unfold zlen at 1. rewrite Nat2Z.id, take_app_length.
  destruct (put_list_has cap d' o w H ltac:(lia) F) as (o' & -> & H'). cbn [lift andthen Go].
  rewrite Z.sub_diag. replace (stored_copy (length d) 0) with (fun b o => @Go (bits * out) (b, o)) by (by destruct (length d)).
  eexists _, o'. split; [reflexivity |]. unfold zlen. rewrite Nat2Z.id, drop_app_length.
  split; [| split; [| done]].
  - split; cbn [num_bits bit_buf input]; [lia | apply W |]. rewrite El in I. by apply Forall_app in I as [_ I].
  - unfold stream. cbn [num_bits bit_buf input]. by rewrite N.
Qed.

Lemma bits_16 n : 0 <= n < 2 ^ 16 ->
  bits_of 16 n = bits_of 8 (n mod 2 ^ 8) ++ bits_of 8 (n / 2 ^ 8) /\ in_range 8 (n mod 2 ^ 8) /\ in_range 8 (n / 2 ^ 8) /\
  Z.lor (n mod 2 ^ 8) (Z.shiftl (n / 2 ^ 8) 8) = n.
Proof.
  intros H. pose proof (Z.mod_pos_bound n (2 ^ 8) ltac:(lia)) as M.
  assert (Q : 0 <= n / 2 ^ 8 < 2 ^ 8) by (split; [apply Z.div_pos | apply Z.div_lt_upper_bound]; lia).
  split; [| split; [done | split; [done |]]].
  - change 16%nat with (8 + 8)%nat. rewrite bits_of_app. change (2 ^ Z.of_nat 8) with (2 ^ 8). f_equal. symmetry. apply (bits_of_mod 8).
  - pose proof (Z.div_mod n (2 ^ 8) ltac:(lia)) as DM. rewrite Z.lor_comm.
    assert (E : Z.lor (Z.shiftl (n / 2 ^ 8) 8) (n mod 2 ^ 8) = n / 2 ^ 8 * 2 ^ 8 + n mod 2 ^ 8); [| lia].
    rewrite Z.shiftl_mul_pow2 by lia. rewrite <- Z.lxor_lor, <- Z.add_nocarry_lxor; [done | |].
    all: apply Z.bits_inj'; intros i Hi; rewrite Z.land_spec, Z.bits_0; destruct (Z.lt_ge_cases i 8);
      [rewrite Z.mul_pow2_bits_low by lia; done | rewrite (testbit_high 8 (n mod 2 ^ 8) i) by (done || lia); apply andb_false_r].
Qed.

Lemma lxor_ones n : 0 <= n < 2 ^ 16 -> Z.lxor 0xFFFF n = 2 ^ 16 - 1 - n.
Proof.
  intros H. change 0xFFFF with (Z.ones 16). change (2 ^ 16 - 1) with (Z.ones 16).
  assert (T : forall i, 0 <= i -> Z.testbit n i = true -> Z.testbit (Z.ones 16) i = true).
  { intros i Hi B. rewrite Z.ones_spec_low; [done |]. destruct (Z.lt_ge_cases i 16); [lia |].
    rewrite (testbit_high 16 n i) in B by (done || lia). done. }
  rewrite Z.sub_nocarry_ldiff.
  - apply Z.bits_inj'. intros i Hi. rewrite Z.lxor_spec, Z.ldiff_spec. specialize (T i Hi).
    destruct (Z.testbit n i); [rewrite T by done; done | by rewrite xorb_false_r, andb_true_r].
  - apply Z.bits_inj'. intros i Hi. rewrite Z.ldiff_spec, Z.bits_0. specialize (T i Hi).
    destruct (Z.testbit n i); [by rewrite T by done | done].
Qed.

(** Skipping to the next byte. *)
Lemma align_spec b fill r : bits_ok b -> stream b = fill ++ r -> zlen fill < 8 -> zlen r mod 8 = 0 ->
  exists b', skip_bits (Z.land (num_bits b) 7) b = Ret b' /\ bits_ok b' /\ aligned b' /\ stream b' = r.
Proof.
  intros W E Hf A. pose proof (zlen_nonneg fill).
  assert (Nf : zlen fill = Z.land (num_bits b) 7).
  { change 7 with (Z.ones 3). rewrite Z.land_ones by lia. change (2 ^ 3) with 8. rewrite num_bits_mod, E, zlen_app by done.
    apply Z.mod_divide in A as [q ->]; [| lia]. rewrite Z.mod_add, Z.mod_small; lia. }
  destruct (skip_bits_spec _ b _ _ W E Nf) as (b0 & E0 & W0 & S0); [lia |]. exists b0. unfold aligned. by rewrite S0.
Qed.

Lemma stored_spec cap fill data b o w r : bits_ok b -> has cap o w -> Forall (in_range 8) data -> zlen data < 2 ^ 16 ->
  stream b = fill ++ bits_of 16 (zlen data) ++ bits_of 16 (2 ^ 16 - 1 - zlen data) ++ unpack data ++ r ->
  zlen fill < 8 -> (zlen (stream b) - zlen fill) mod 8 = 0 -> zlen w + zlen data <= cap ->
  exists b' o', stored b o = Go (b', o') /\ bits_ok b' /\ stream b' = r /\ has cap o' (w ++ data).
Proof.
  intros W H F Hd E Hf A L. unfold stored. pose proof (zlen_nonneg data). pose proof (zlen_nonneg fill).
  rewrite E, zlen_app, Z.add_simpl_l in A.
  destruct (align_spec b _ _ W E Hf A) as (b0 & -> & W0 & A0 & S0). cbn [lift andthen Go].
  destruct (bits_16 (zlen data) ltac:(lia)) as (B1 & R1 & R2 & J1).
  destruct (bits_16 (2 ^ 16 - 1 - zlen data) ltac:(lia)) as (B2 & R3 & R4 & J2).
  rewrite B1, B2, <- !app_assoc in S0.
  destruct (raw_byte_spec _ _ _ W0 R1 A0 S0) as (b1 & -> & W1 & A1 & S1). cbn [lift andthen Go].
  destruct (raw_byte_spec _ _ _ W1 R2 A1 S1) as (b2 & -> & W2 & A2 & S2). cbn [lift andthen Go].
  destruct (raw_byte_spec _ _ _ W2 R3 A2 S2) as (b3 & -> & W3 & A3 & S3). cbn [lift andthen Go].
  destruct (raw_byte_spec _ _ _ W3 R4 A3 S3) as (b4 & -> & W4 & A4 & S4). cbn [lift andthen Go].
  rewrite J1, J2, lxor_ones by lia. replace (2 ^ 16 - 1 - (2 ^ 16 - 1 - zlen data)) with (zlen data) by lia.
  rewrite Z.eqb_refl. cbn [negb].
  destruct (stored_bits_spec cap r data (Z.to_nat (zlen data)) b4 o w W4 A4 H F S4 L) as (d1 & d2 & b5 & o5 & Ed & -> & W5 & S5 & H5 & N5);
    [unfold zlen; lia |]. cbn [lift andthen Go]. rewrite Ed in F, L. apply Forall_app in F as [_ F]. rewrite zlen_app in L.
  destruct (stored_copy_spec cap r d2 b5 o5 (w ++ d1) W5 ltac:(tauto) H5 F S5) as (b' & o' & E' & R');
    [rewrite zlen_app; lia |].
  replace (Z.to_nat (zlen d2)) with (length d2) by (unfold zlen; lia). rewrite E'. exists b', o'. rewrite Ed, app_assoc. done.
Qed.

(** ** The codes of a block *)

Lemma size_codes_spec lc r : forall ord b sizes,
  bits_ok b -> Forall (fun s => 0 <= len_of lc s < 8 /\ 0 <= s < zlen sizes) ord ->
  stream b = concat (map (fun s => bits_of 3 (len_of lc s)) ord) ++ r ->
  exists sizes' b', size_codes ord b sizes = Ret (sizes', b') /\ bits_ok b' /\ stream b' = r /\ length sizes' = length sizes /\
    forall s, 0 <= s < zlen sizes -> (s ∈ ord -> len_of sizes' s = len_of lc s) /\ (s ∉ ord -> len_of sizes' s = len_of sizes s).
Proof.
  induction ord as [| z ord IH]; intros b sizes W F E.
  - exists sizes, b. split_and!; try done. intros s Hs. split; [by intros ?%elem_of_nil | done].
  - apply Forall_cons in F as [[Hz Hb] F]. cbn [map concat] in E. rewrite <- app_assoc in E. cbn [size_codes].
    destruct (get_bits_spec 3 b _ _ W E) as (b1 & -> & W1 & S1); [unfold zlen; by rewrite length_bits_of | lia |].
    rewrite val_bits_of. change (2 ^ Z.of_nat 3) with 8. rewrite Z.mod_small by lia. cbn [mbind outcome_bind].
    assert (Hl : zlen (<[Z.to_nat z := len_of lc z]> sizes) = zlen sizes) by (unfold zlen; by rewrite length_insert).
    destruct (IH b1 (<[Z.to_nat z := len_of lc z]> sizes) W1) as (s' & b' & -> & W' & S' & L' & P); [by rewrite Hl | done |].
    rewrite Hl in P. rewrite length_insert in L'. exists s', b'. split_and!; try done. intros s Hs. destruct (P s Hs) as [P1 P2].
    split.
    + intros Hin. destruct (decide (s ∈ ord)) as [Ho | Ho]; [by apply P1 |].
      apply elem_of_cons in Hin as [-> | ?]; [| done]. rewrite P2 by done. unfold len_of at 1.
      unfold zlen in Hb. rewrite list_lookup_insert_eq by lia. done.
    + intros Hno. apply not_elem_of_cons in Hno as [Hne Hno]. rewrite P2 by done. unfold len_of.
      rewrite list_lookup_insert_ne by lia. done.
Qed.

Lemma len_of_eq a b : length a = length b -> (forall s, 0 <= s < zlen a -> len_of a s = len_of b s) -> a = b.
Proof.
  intros L H. apply list_eq_same_length with (length a); [done | done |]. intros i x y Hi Ex Ey.
  specialize (H (Z.of_nat i) ltac:(unfold zlen; lia)). unfold len_of in H. rewrite Nat2Z.id, Ex, Ey in H. done.
Qed.

Lemma order_all s : 0 <= s < 19 -> s ∈ order.
Proof.
  intros H. assert (A : Forall (fun s => s ∈ order) (seqZ 0 19)) by (apply (bool_decide_unpack _); vm_compute; done).
  rewrite Forall_forall in A. apply A, elem_of_seqZ. lia.
Qed.

Lemma order_range : Forall (fun s => 0 <= s < 19) order.
Proof. apply (bool_decide_unpack _); vm_compute; done. Qed.

Lemma size_codes_all lc nc b r : bits_ok b -> length lc = 19%nat -> Forall (fun c => 0 <= c < 8) lc ->
  Forall (fun s => len_of lc s = 0) (drop nc order) ->
  stream b = concat (map (fun s => bits_of 3 (len_of lc s)) (take nc order)) ++ r ->
  exists b', size_codes (take nc order) b (replicate 19 0) = Ret (lc, b') /\ bits_ok b' /\ stream b' = r.
Proof.
  intros W L F Z0 E.
  destruct (size_codes_spec lc r (take nc order) b (replicate 19 0) W) as (sizes & b' & -> & W' & S' & L' & P); [| done |].
  - apply Forall_take. apply (Forall_impl _ _ _ order_range). intros s Hs. split; [| by change (zlen (replicate 19 0)) with 19].
    destruct (lookup_lt_is_Some_2 lc (Z.to_nat s) ltac:(lia)) as [x Ex]. unfold len_of. rewrite Ex. cbn.
    by apply (Forall_lookup_1 _ _ _ _ F Ex).
  - exists b'. split; [| done]. do 2 f_equal. rewrite length_replicate in L'. apply len_of_eq; [lia |].
    intros s Hs. unfold zlen in Hs. rewrite L' in Hs. destruct (P s) as [P1 P2]; [by change (zlen (replicate 19 0)) with 19 |].
    destruct (decide (s ∈ take nc order)) as [H | H]; [by apply P1 |]. rewrite P2 by done.
    assert (s ∈ drop nc order) as Hd.
    { pose proof (order_all s ltac:(lia)) as O. rewrite <- (take_drop nc order) in O. apply elem_of_app in O as [O | O]; done. }
    rewrite Forall_forall in Z0. rewrite (Z0 s Hd). unfold len_of. rewrite lookup_replicate_2 by lia. done.
Qed.

(** A run as the decoder sees it: its symbol, its extra bits and the lengths it adds. *)
Lemma run_spec lc x a l l1 : run_bits lc x = Some a -> expand_run l x = Some l1 ->
  (exists k, 0 <= k < 16 /\ coded lc k /\ a = code lc k /\ l1 = l ++ [k]) \/
  (exists s e, 16 <= s <= 18 /\ coded lc s /\ (s = 16 -> l <> []) /\
     0 <= e < 2 ^ nth_ [2; 3; 7] (s - 16) /\ a = code lc s ++ bits_of (Z.to_nat (nth_ [2; 3; 7] (s - 16))) e /\
     l1 = l ++ replicate (Z.to_nat (e + nth_ [3; 3; 11] (s - 16))) (if s =? 16 then nth_ l (zlen l - 1) else 0)).
Proof.
  assert (G : forall s n e m v, 16 <= s <= 18 -> nth_ [2; 3; 7] (s - 16) = n -> nth_ [3; 3; 11] (s - 16) = m ->
    (s = 16 -> l <> []) -> (if s =? 16 then nth_ l (zlen l - 1) else 0) = v ->
    (a0 ← sym_bits lc s; b ← extra_bits n e; Some (a0 ++ b)) = Some a -> l ++ replicate (Z.to_nat (m + e)) v = l1 ->
    exists s e, 16 <= s <= 18 /\ coded lc s /\ (s = 16 -> l <> []) /\
     0 <= e < 2 ^ nth_ [2; 3; 7] (s - 16) /\ a = code lc s ++ bits_of (Z.to_nat (nth_ [2; 3; 7] (s - 16))) e /\
     l1 = l ++ replicate (Z.to_nat (e + nth_ [3; 3; 11] (s - 16))) (if s =? 16 then nth_ l (zlen l - 1) else 0)).
  { intros s n e m v Hs <- <- H16 <- E <-. apply bind_Some in E as (a0 & Ea & E). apply bind_Some in E as (b & Eb & [= <-]).
    apply sym_bits_Some in Ea as [C ->]. apply extra_bits_Some in Eb as [He ->]. exists s, e.
    rewrite (Z.add_comm e). split_and!; try done; lia. }
  destruct x as [k | e | e | e]; cbn [run_bits expand_run]; intros Ea El.
  - left. case_decide; [| done]. apply sym_bits_Some in Ea as [C ->]. injection El as <-. eauto.
  - right. apply bind_Some in El as (k & Ek & El). injection El as El. apply (G 16 2 e 3 k); try done.
    + intros _ ->. done.
    + change (16 =? 16) with true. cbn iota. unfold nth_. rewrite last_lookup in Ek. unfold zlen.
      replace (Z.to_nat (Z.of_nat (length l) - 1)) with (pred (length l)) by lia. by rewrite Ek.
  - right. injection El as El. by apply (G 17 3 e 3 0).
  - right. injection El as El. by apply (G 18 7 e 11 0).
Qed.

Lemma nth_runs s : 16 <= s <= 18 -> 0 <= nth_ [2; 3; 7] (s - 16) <= 7 /\ 3 <= nth_ [3; 3; 11] (s - 16).
Proof. intros H. assert (s = 16 \/ s = 17 \/ s = 18) as [-> | [-> | ->]] by lia; vm_compute; intuition discriminate. Qed.

Lemma runs_longer lc xs : forall bs l l', runs_bits lc xs = Some bs -> expand_runs l xs = Some l' -> (length l + length xs <= length l')%nat.
Proof.
  induction xs as [| x xs IH]; intros bs l l' Eb El; cbn in Eb, El; [injection El as ->; simpl; lia |].
  apply bind_Some in Eb as (a & Ea & Eb). apply bind_Some in Eb as (b & Eb & _). apply bind_Some in El as (l1 & E1 & El).
  specialize (IH b l1 l' Eb El). assert (length l < length l1)%nat; [| simpl; lia].
  destruct (run_spec lc x a l l1 Ea E1) as [(k & _ & _ & _ & ->) | (s & e & Hs & _ & _ & He & _ & ->)];
    rewrite length_app; [simpl; lia |]. rewrite length_replicate. destruct (nth_runs s Hs). lia.
Qed.

Lemma len_codes_spec lc h total l' r : decodes lc h -> zlen l' = total -> forall xs fuel b l bs,
  bits_ok b -> runs_bits lc xs = Some bs -> expand_runs l xs = Some l' -> stream b = bs ++ r -> total <= zlen l + Z.of_nat fuel ->
  exists b', len_codes fuel h total b l = Go (l', b') /\ bits_ok b' /\ stream b' = r.
Proof.
  intros D Ht. induction xs as [| x xs IH]; intros fuel b l bs W Eb El E Hf.
  - cbn in Eb, El. injection Eb as <-. injection El as ->. exists b. split; [| done].
    destruct fuel; cbn [len_codes]; by rewrite (proj2 (Z.ltb_ge _ _)) by lia.
  - pose proof (runs_longer lc _ _ _ _ Eb El) as Lx. simpl in Lx. cbn [runs_bits expand_runs] in Eb, El.
    apply bind_Some in Eb as (a & Ea & Eb). apply bind_Some in Eb as (bs' & Eb & [= <-]). apply bind_Some in El as (l1 & E1 & El).
    pose proof (runs_longer lc _ _ _ _ Eb El) as Lx1.
    destruct fuel as [| fuel]; [unfold zlen in *; lia |]. cbn [len_codes]. rewrite (proj2 (Z.ltb_lt _ _)) by (unfold zlen in *; lia).
    rewrite <- app_assoc in E.
    destruct (run_spec lc x a l l1 Ea E1) as [(k & Hk & C & -> & ->) | (s & e & Hs & C & H16 & He & -> & ->)].
    + destruct (huff_decode_spec lc h D k b _ W C E) as (b1 & -> & W1 & S1). cbn [lift andthen Go].
      rewrite (proj2 (Z.ltb_lt _ _)) by lia. apply (IH fuel b1 _ bs'); try done. rewrite zlen_app. change (zlen [k]) with 1. lia.
    + destruct (nth_runs s Hs) as [N1 N2]. rewrite <- app_assoc in E.
      destruct (huff_decode_spec lc h D s b _ W C E) as (b1 & -> & W1 & S1). cbn [lift andthen Go].
      rewrite (proj2 (Z.ltb_ge _ _)) by lia.
      replace ((s =? 16) && (zlen l =? 0)) with false.
      2: { symmetry. destruct (Z.eqb_spec s 16) as [-> |]; [| done]. cbn [andb]. apply Z.eqb_neq. specialize (H16 eq_refl).
           destruct l; [done |]. unfold zlen. simpl. lia. }
      destruct (get_bits_spec (nth_ [2; 3; 7] (s - 16)) b1 _ _ W1 S1) as (b2 & -> & W2 & S2); [unfold zlen; rewrite length_bits_of; lia | lia |].
      cbn [lift andthen Go]. rewrite val_bits_of, Z2Nat.id, Z.mod_small by lia.
      apply (IH fuel b2 _ bs'); try done. rewrite zlen_app. unfold zlen at 2. rewrite length_replicate. lia.
Qed.

Lemma lens_ok_table lens : zlen lens <= 512 -> lens_ok lens -> exists h, make_table lens = Go h /\ decodes lens h.
Proof. intros L Ok. destruct (make_table_spec lens L (proj1 Ok)) as [(_ & X) | (N & _)]; done. Qed.

Lemma dynamic_tables_spec lc nc n0 xs l b bs r :
  expand_runs [] xs = Some l -> runs_bits lc xs = Some bs ->
  length lc = 19%nat -> Forall (fun c => 0 <= c < 8) lc -> lens_ok lc ->
  4 <= nc <= 19 -> Forall (fun s => len_of lc s = 0) (drop (Z.to_nat nc) order) ->
  257 <= n0 < 289 -> 1 <= zlen l - n0 < 33 -> lens_ok (take (Z.to_nat n0) l) -> lens_ok (drop (Z.to_nat n0) l) ->
  bits_ok b ->
  stream b = bits_of 5 (n0 - 257) ++ bits_of 5 (zlen l - n0 - 1) ++ bits_of 4 (nc - 4) ++
    concat (map (fun s => bits_of 3 (len_of lc s)) (take (Z.to_nat nc) order)) ++ bs ++ r ->
  exists t0 t1 b', dynamic_tables b = Go (t0, t1, b') /\ bits_ok b' /\ stream b' = r /\
    decodes (take (Z.to_nat n0) l) t0 /\ decodes (drop (Z.to_nat n0) l) t1.
Proof.
  intros El Eb Lc Fc Okc Hn Hz H0 H1 Ok0 Ok1 W E. unfold dynamic_tables.
  assert (V : forall k x, 0 <= x < 2 ^ Z.of_nat k -> val (bits_of k x) = x) by (intros k x Hx; by rewrite val_bits_of, Z.mod_small).
  destruct (get_bits_spec 5 b _ _ W E) as (b1 & -> & W1 & S1); [unfold zlen; by rewrite length_bits_of | lia |].
  cbn [lift andthen Go]. rewrite V by (simpl; lia). replace (n0 - 257 + 257) with n0 by lia.
  destruct (get_bits_spec 5 b1 _ _ W1 S1) as (b2 & -> & W2 & S2); [unfold zlen; by rewrite length_bits_of | lia |].
  cbn [lift andthen Go]. rewrite V by (simpl; lia). replace (zlen l - n0 - 1 + 1) with (zlen l - n0) by lia.
  destruct (get_bits_spec 4 b2 _ _ W2 S2) as (b3 & -> & W3 & S3); [unfold zlen; by rewrite length_bits_of | lia |].
  cbn [lift andthen Go]. rewrite V by (simpl; lia). replace (nc - 4 + 4) with nc by lia.
  change s_length_dezigzag with order.
  destruct (size_codes_all lc (Z.to_nat nc) b3 _ W3 Lc Fc Hz S3) as (b4 & -> & W4 & S4). cbn [lift andthen Go].
  destruct (lens_ok_table lc ltac:(unfold zlen; lia) Okc) as (t2 & -> & D2). cbn [andthen Go].
  replace (n0 + (zlen l - n0)) with (zlen l) by lia.
  destruct (len_codes_spec lc t2 (zlen l) l r D2 eq_refl xs (Z.to_nat (zlen l)) b4 [] bs W4 Eb El S4) as (b5 & -> & W5 & S5);
    [unfold zlen; simpl; lia |]. cbn [andthen Go]. rewrite Z.eqb_refl. cbn [negb].
  destruct (lens_ok_table (drop (Z.to_nat n0) l)) as (t1 & -> & D1); [unfold zlen in *; rewrite length_drop; lia | done |]. cbn [andthen Go].
  destruct (lens_ok_table (take (Z.to_nat n0) l)) as (t0 & -> & D0); [unfold zlen in *; rewrite length_take; lia | done |]. cbn [andthen Go].
  exists t0, t1, b5. done.
Qed.

(** ** Blocks *)

Lemma fixed_ok : lens_ok fixed_ll /\ lens_ok fixed_ld.
Proof. split; apply (bool_decide_unpack _); vm_compute; done. Qed.

Lemma fixed_tables_spec b : exists t0 t1, fixed_tables b = Go (t0, t1, b) /\ decodes fixed_ll t0 /\ decodes fixed_ld t1.
Proof.
  unfold fixed_tables. change fixed_distances with fixed_ld. change fixed_lengths with fixed_ll. destruct fixed_ok as [O0 O1].
  destruct (lens_ok_table fixed_ld) as (t1 & -> & D1); [by vm_compute | done |].
  destruct (lens_ok_table fixed_ll) as (t0 & -> & D0); [by vm_compute | done |]. exists t0, t1. done.
Qed.

(** The body of the loop over the blocks, behind the header of three bits. *)
Definition block_body (type : Z) (b : bits) (o : out) : run (bits * out) :=
  if type =? 0 then stored b o
  else if type =? 3 then Exit FAILED
  else '(t0, t1, b) <~ (if type =? 1 then fixed_tables b else dynamic_tables b); symbols (length (obuf o) + 1) t0 t1 b o.

Lemma expand_block_longer w x w' : expand_block w x = Some w' -> (length w <= length w')%nat.
Proof. destruct x; cbn; [intros [= <-]; rewrite length_app; lia | apply expand_longer | apply expand_longer]. Qed.

Lemma expand_blocks_longer xs : forall w w', expand_blocks w xs = Some w' -> (length w <= length w')%nat.
Proof.
  induction xs as [| x xs IH]; intros w w' E; cbn in E; [by injection E as -> |].
  apply bind_Some in E as (w1 & E1 & E). apply expand_block_longer in E1. apply IH in E. lia.
Qed.

Lemma block_spec cap pos x a b o w w' r : bits_ok b -> has cap o w ->
  block_bits pos x = Some a -> expand_block w x = Some w' -> stream b = a ++ r ->
  (zlen (stream b) + Z.of_nat pos + 3) mod 8 = 0 -> zlen w' <= cap ->
  exists b' o', block_body (block_type x) b o = Go (b', o') /\ bits_ok b' /\ stream b' = r /\ has cap o' w'.
Proof.
  intros W H Ea Ex E A L. pose proof (h_cap _ _ _ H) as Hcap. unfold block_body.
  assert (Hf : (length w' < length w + (length (obuf o) + 1))%nat) by (unfold zlen in *; lia).
  destruct x as [fill data | ts | lc nc n0 xs ts]; cbn [block_bits expand_block block_type] in *.
  - case_decide as Hs; [| done]. destruct Hs as (Lf & Pf & Ld & F). apply (inj Some) in Ea, Ex. subst a w'.
    rewrite <- !app_assoc in E. rewrite zlen_app in L.
    apply (stored_spec cap fill data b o w r W H F Ld E); [unfold zlen; lia | | lia].
    assert (P : (Z.of_nat pos + 3 + zlen fill) mod 8 = 0).
    { unfold zlen. replace (Z.of_nat pos + 3 + Z.of_nat (length fill)) with (Z.of_nat (pos + 3 + length fill)) by lia.
      rewrite <- (Nat2Z.inj_mod _ 8), Pf. done. }
    apply Z.mod_divide in A as [q A]; [| lia]. apply Z.mod_divide in P as [q' P]; [| lia].
    replace (zlen (stream b) - zlen fill) with ((q - q') * 8) by lia. by apply Z.mod_mul.
  - destruct (fixed_tables_spec b) as (t0 & t1 & F & D0 & D1). change (1 =? 0) with false. change (1 =? 3) with false.
    change (1 =? 1) with true. cbn iota. rewrite F. cbn [andthen Go].
    apply (symbols_spec fixed_ll fixed_ld t0 t1 D0 D1 cap r _ ts b o w w' a); done.
  - apply bind_Some in Ea as (l & El & Ea). case_decide as Hs; [| done].
    destruct Hs as (Lc & Fc & Okc & Hn & Hz & H0 & H1 & Ok0 & Ok1).
    apply bind_Some in Ea as (rb & Er & Ea). apply bind_Some in Ea as (tb & Et & Ea). apply (inj Some) in Ea. subst a. rewrite <- !app_assoc in E.
    destruct (dynamic_tables_spec lc nc n0 xs l b rb (tb ++ r) El Er Lc Fc Okc Hn Hz H0 H1 Ok0 Ok1 W E)
      as (t0 & t1 & b1 & F & W1 & S1 & D0 & D1).
    change (2 =? 0) with false. change (2 =? 3) with false. change (2 =? 1) with false. cbn iota. rewrite F. cbn [andthen Go].
    by apply (symbols_spec _ _ t0 t1 D0 D1 cap r _ ts b1 o w w' tb).
Qed.

Lemma header_value f t : 0 <= t <= 2 ->
  Z.shiftr (val (f :: bits_of 2 t)) 1 = t /\ (Z.land (val (f :: bits_of 2 t)) 1 =? 0) = negb f.
Proof. intros H. assert (t = 0 \/ t = 1 \/ t = 2) as [-> | [-> | ->]] by lia; destruct f; vm_compute; done. Qed.

Lemma block_step cap pos x a f b o w w' r : bits_ok b -> has cap o w ->
  block_bits pos x = Some a -> expand_block w x = Some w' -> stream b = (f :: bits_of 2 (block_type x) ++ a) ++ r ->
  (zlen (stream b) + Z.of_nat pos) mod 8 = 0 -> zlen w' <= cap ->
  exists b' o', bits_ok b' /\ stream b' = r /\ has cap o' w' /\
    forall fuel, blocks (S fuel) b o = if f then Go (b', o') else blocks fuel b' o'.
Proof.
  intros W H Ea Ex E A L. assert (T : 0 <= block_type x <= 2) by (destruct x; simpl; lia).
  destruct (header_value f (block_type x) T) as [V1 V2].
  assert (E' : stream b = (f :: bits_of 2 (block_type x)) ++ a ++ r) by (rewrite E; cbn [app]; by rewrite <- app_assoc).
  destruct (get_bits_spec 3 b _ _ W E') as (b1 & G & W1 & S1); [unfold zlen; cbn [length]; rewrite length_bits_of; done | lia |].
  destruct (block_spec cap pos x a b1 o w w' r W1 H Ea Ex S1) as (b' & o' & B & R); [| done |].
  { rewrite S1. rewrite E', zlen_app in A. unfold zlen at 1 in A. cbn [length] in A. rewrite length_bits_of in A.
    rewrite <- A. f_equal. lia. }
  exists b', o'. destruct R as (R1 & R2 & R3). split; [done |]. split; [done |]. split; [done |].
  intros fuel. cbn [blocks]. rewrite G. cbn [lift andthen Go]. rewrite V1. fold (block_body (block_type x) b1 o). rewrite B.
  cbn [andthen Go]. rewrite V2. by destruct f.
Qed.

Lemma blocks_spec cap r : forall xs fuel pos b o w w' bs, bits_ok b -> has cap o w ->
  blocks_bits pos xs = Some bs -> expand_blocks w xs = Some w' -> stream b = bs ++ r ->
  (zlen (stream b) + Z.of_nat pos) mod 8 = 0 -> zlen w' <= cap -> (length xs <= fuel)%nat ->
  exists b' o', blocks fuel b o = Go (b', o') /\ bits_ok b' /\ stream b' = r /\ has cap o' w'.
Proof.
  induction xs as [| x xs IH]; intros fuel pos b o w w' bs W H Eb Ex E A L Hf; [done |].
  destruct fuel as [| fuel]; [simpl in Hf; lia |]. cbn [blocks_bits expand_blocks] in Eb, Ex.
  apply bind_Some in Eb as (a & Ea & Eb). apply bind_Some in Ex as (w1 & E1 & Ex).
  pose proof (expand_blocks_longer _ _ _ Ex) as Lx. assert (L1 : zlen w1 <= cap) by (unfold zlen in *; lia).
  destruct xs as [| y xs].
  - apply (inj Some) in Eb, Ex. subst bs w'.
    destruct (block_step cap pos x a true b o w w1 r W H Ea E1 E A L) as (b' & o' & W' & S' & H' & B).
    rewrite B. exists b', o'. done.
  - apply bind_Some in Eb as (bs' & Eb & Ebs). apply (inj Some) in Ebs. subst bs. set (hd := false :: bits_of 2 (block_type x) ++ a) in *.
    assert (E' : stream b = hd ++ bs' ++ r) by (by rewrite E, <- app_assoc).
    destruct (block_step cap pos x a false b o w w1 (bs' ++ r) W H Ea E1 E' A L1) as (b' & o' & W' & S' & H' & B).
    rewrite B. apply (IH fuel (pos + length hd)%nat b' o' w1 w' bs'); try done; [| simpl in *; lia].
    rewrite S'. rewrite E', zlen_app in A. rewrite <- A. f_equal. unfold zlen at 2. lia.
Qed.

(** ** The checksum *)

Lemma adler_sum_spec s1 s2 l : 0 <= s1 < 65521 -> 0 <= s2 < 65521 -> Forall (in_range 8) l -> zlen l <= 5552 ->
  let '(a, b) := adler_sum (s1, s2) l in
  let n := zlen l in
  0 <= a <= 65520 + 255 * n /\ 0 <= b /\ 2 * b <= 2 * 65520 * (n + 1) + 255 * n * (n + 1) /\
  fold_left adler_step l (s1, s2) = (a mod 65521, b mod 65521).
Proof.
  intros H1 H2. induction l as [| c l IH] using rev_ind; intros F L.
  - unfold adler_sum. cbn [fold_left]. change (zlen (@nil Z)) with 0. cbv zeta. rewrite !Z.mod_small by lia. split_and!; (lia || done).
  - apply Forall_app in F as [F [Hc _]%Forall_cons]. rewrite zlen_app in L. change (zlen [c]) with 1 in L. unfold in_range in Hc.
    specialize (IH F ltac:(lia)). unfold adler_sum in *. rewrite !fold_left_app.
    destruct (fold_left _ l (s1, s2)) as [a b] eqn:Es. destruct IH as (Ba & Bb0 & Bb & ->). pose proof (zlen_nonneg l) as Ln.
    cbn [fold_left fst snd]. rewrite zlen_app. change (zlen [c]) with 1. set (n := zlen l) in *.
    assert (E1 : u32 (a + c) = a + c) by (apply wrap_small; unfold in_range; lia). rewrite E1.
    assert (N2 : 255 * n * (n + 1) <= 255 * 5551 * 5552) by nia.
    assert (E2 : u32 (b + (a + c)) = b + (a + c)) by (apply wrap_small; unfold in_range; lia). rewrite E2.
    split; [lia |]. split; [lia |]. split; [nia |].
    unfold adler_step. cbn [fst snd]. rewrite Z.add_mod_idemp_l by lia. f_equal. by rewrite <- Z.add_mod by lia.
Qed.

Lemma adler_fold_reduced l s : 0 <= s.1 < 65521 -> 0 <= s.2 < 65521 ->
  0 <= (fold_left adler_step l s).1 < 65521 /\ 0 <= (fold_left adler_step l s).2 < 65521.
Proof.
  revert s. induction l as [| c l IH]; intros s H1 H2; [done |]. cbn [fold_left]. apply IH; cbn [fst snd adler_step]; apply Z.mod_pos_bound; lia.
Qed.

Lemma adler_blocks_spec fuel : forall n s l, 0 <= n <= 5552 -> 0 <= s.1 < 65521 -> 0 <= s.2 < 65521 -> Forall (in_range 8) l ->
  zlen l + (if decide (n = 5552) then 0 else 1) <= Z.of_nat fuel ->
  adler_blocks fuel s l n = Ret (fold_left adler_step l s).
Proof.
  induction fuel as [| fuel IH]; intros n s l Hn H1 H2 F Hf; (destruct l as [| c l]; [done |]).
  { rewrite zlen_cons in Hf. pose proof (zlen_nonneg l). case_decide; lia. }
  cbn [adler_blocks]. pose proof (zlen_nonneg l). rewrite (proj2 (Z.eqb_neq _ _)) by (rewrite zlen_cons; lia).
  rewrite zlen_cons in Hf. assert (Hl : zlen (c :: l) = 1 + zlen l) by apply zlen_cons. set (l' := c :: l) in *. destruct s as [s1 s2].
  pose proof (adler_sum_spec s1 s2 (take (Z.to_nat n) l') H1 H2 (Forall_take _ _ _ F)) as A.
  destruct (adler_sum (s1, s2) (take (Z.to_nat n) l')) as [a b].
  destruct A as (_ & _ & _ & A); [unfold zlen; rewrite length_take; lia |].
  rewrite <- (take_drop (Z.to_nat n) l') at 2. rewrite fold_left_app, <- A.
  destruct (adler_fold_reduced (take (Z.to_nat n) l') (s1, s2) H1 H2) as [R1 R2].
  apply IH; try done; [by apply Forall_drop |]. rewrite decide_True by done. unfold zlen in *. rewrite length_drop. case_decide; lia.
Qed.

Lemma check_adler32_spec l : Forall (in_range 8) l -> check_adler32 l = Ret (adler32 l) /\ 0 <= adler32 l < 2 ^ 32.
Proof.
  intros F. unfold check_adler32, adler32. pose proof (Z.mod_pos_bound (zlen l) 5552 ltac:(lia)) as M.
  rewrite adler_blocks_spec; [| lia | cbn; lia | cbn; lia | done | unfold zlen; case_decide; lia].
  destruct (adler_fold_reduced l (1, 0)) as [R1 R2]; [cbn; lia | cbn; lia |].
  destruct (fold_left adler_step l (1, 0)) as [a b]. cbn [mbind outcome_bind fst snd] in *.
  rewrite Z.shiftl_mul_pow2 by lia. split; [f_equal; apply wrap_small; unfold in_range |]; lia.
Qed.

(** ** Streams *)

Lemma lor_low x c : 0 <= x -> in_range 8 c -> Z.lor (x * 2 ^ 8) c = x * 2 ^ 8 + c.
Proof.
  intros Hx Hc. rewrite <- Z.lxor_lor, <- Z.add_nocarry_lxor; [done | |].
  all: apply Z.bits_inj'; intros i Hi; rewrite Z.land_spec, Z.bits_0; destruct (Z.lt_ge_cases i 8);
    [rewrite Z.mul_pow2_bits_low by lia; done | rewrite (testbit_high 8 c i) by (done || lia); apply andb_false_r].
Qed.

Lemma trailer_step z c : 0 <= z -> in_range 8 c -> Z.lor (u32 (Z.shiftl z 8)) c = (z mod 2 ^ 24) * 2 ^ 8 + c.
Proof.
  intros Hz Hc. assert (u32 (Z.shiftl z 8) = (z mod 2 ^ 24) * 2 ^ 8) as ->.
  { unfold u32, wrap. rewrite Z.shiftl_mul_pow2 by lia. change (2 ^ 32) with (2 ^ 24 * 2 ^ 8). by rewrite Z.mul_mod_distr_r by lia. }
  apply lor_low; [apply Z.mod_pos_bound; lia | done].
Qed.

Lemma trailer_spec z b r : bits_ok b -> aligned b -> 0 <= z < 2 ^ 32 -> stream b = unpack (be32 z) ++ r ->
  exists b', trailer 4 1 b = Ret (z, b') /\ bits_ok b' /\ stream b' = r.
Proof.
  intros W A Hz E. unfold be32, unpack in E. cbn [map concat] in E. rewrite app_nil_r, <- !app_assoc in E.
  assert (M : forall x, in_range 8 (x mod 256)) by (intros x; apply (Z.mod_pos_bound x 256); lia).
  set (c0 := z / 2 ^ 24 mod 256) in *. set (c1 := z / 2 ^ 16 mod 256) in *. set (c2 := z / 2 ^ 8 mod 256) in *. set (c3 := z mod 256) in *.
  destruct (raw_byte_spec b c0 _ W (M _) A E) as (b0 & R0 & W0 & A0 & S0).
  destruct (raw_byte_spec b0 c1 _ W0 (M _) A0 S0) as (b1 & R1 & W1 & A1 & S1).
  destruct (raw_byte_spec b1 c2 _ W1 (M _) A1 S1) as (b2 & R2 & W2 & A2 & S2).
  destruct (raw_byte_spec b2 c3 _ W2 (M _) A2 S2) as (b3 & R3 & W3 & A3 & S3).
  exists b3. split; [| done]. cbn [trailer]. rewrite R0. cbn [mbind outcome_bind]. rewrite R1. cbn [mbind outcome_bind].
  rewrite R2. cbn [mbind outcome_bind]. rewrite R3. cbn [mbind outcome_bind]. do 2 f_equal.
  pose proof (M (z / 2 ^ 24)) as B0. pose proof (M (z / 2 ^ 16)) as B1. pose proof (M (z / 2 ^ 8)) as B2. pose proof (M z) as B3.
  fold c0 in B0. fold c1 in B1. fold c2 in B2. fold c3 in B3. unfold in_range in *.
  rewrite (trailer_step 1 c0), (Z.mod_small 1) by (unfold in_range; lia).
  rewrite (trailer_step _ c1), (Z.mod_small (1 * 2 ^ 8 + c0)) by (unfold in_range; lia).
  rewrite (trailer_step _ c2), (Z.mod_small ((1 * 2 ^ 8 + c0) * 2 ^ 8 + c1)) by (unfold in_range; lia).
  rewrite (trailer_step _ c3) by (unfold in_range; lia).
  replace (((1 * 2 ^ 8 + c0) * 2 ^ 8 + c1) * 2 ^ 8 + c2) with (c0 * 2 ^ 16 + c1 * 2 ^ 8 + c2 + 1 * 2 ^ 24) by lia.
  rewrite Z.mod_add, Z.mod_small by lia. clear -Hz. subst c0 c1 c2 c3.
  assert (Q : forall k, 0 <= k -> z / 2 ^ k / 256 = z / 2 ^ (k + 8)).
  { intros k Hk. rewrite Z.div_div by (try lia; apply Z.pow_pos_nonneg; lia). by rewrite Z.pow_add_r by lia. }
  pose proof (Z.div_mod z 256 ltac:(lia)) as D0. pose proof (Z.div_mod (z / 2 ^ 8) 256 ltac:(lia)) as D1.
  pose proof (Z.div_mod (z / 2 ^ 16) 256 ltac:(lia)) as D2. rewrite Q in D1, D2 by lia. cbn [Z.add Pos.add] in D1, D2.
  change (8 + 8) with 16 in D1. change (16 + 8) with 24 in D2. change (z / 256) with (z / 2 ^ 8) in D0.
  rewrite (Z.mod_small (z / 2 ^ 24)) by (split; [apply Z.div_pos | apply Z.div_lt_upper_bound]; lia). lia.
Qed.

Lemma header_spec cmf flg l : header_ok cmf flg -> header (mkBits 0 0 (cmf :: flg :: l)) = Go (mkBits 0 0 l).
Proof.
  intros (Hc & Hf & H8 & H32 & H31). unfold header, get_byte. cbn [input bit_buf num_bits].
  rewrite H31. change 15 with (Z.ones 4). rewrite Z.land_ones by lia. change (2 ^ 4) with 16. rewrite H8.
  assert (A : Forall (fun f => (f / 32) mod 2 = 0 -> Z.land f 32 = 0) (seqZ 0 256)) by (apply (bool_decide_unpack _); vm_compute; done).
  rewrite Forall_forall in A. rewrite (A flg) by (done || (apply elem_of_seqZ; lia)). done.
Qed.

Lemma blocks_count xs : forall pos bs, blocks_bits pos xs = Some bs -> (length xs <= length bs)%nat.
Proof.
  induction xs as [| x xs IH]; intros pos bs E; [done |]. cbn [blocks_bits] in E. apply bind_Some in E as (a & _ & E).
  destruct xs as [| y xs]; [apply (inj Some) in E; subst bs; simpl; lia |].
  apply bind_Some in E as (b & Eb & E). apply (inj Some) in E. subst bs. apply IH in Eb. rewrite length_app. simpl in *. lia.
Qed.

Lemma tinfl_decompress_spec cmf flg xs z data old junk :
  zlib cmf flg xs = Some z -> expand_blocks [] xs = Some data -> zlen data <= zlen old -> Forall (in_range 8) junk ->
  tinfl_decompress_mem_to_mem old (z ++ junk) = Ret (Some data).
Proof.
  intros Ez Ed L Fj. unfold zlib in Ez. rewrite Ed in Ez. cbn [mbind option_bind] in Ez.
  case_decide as Hh; [| done]. apply bind_Some in Ez as (bs & Eb & Ez). apply (inj Some) in Ez. subst z.
  destruct (unpack_pack (length bs) bs ltac:(lia)) as (pad & Ep & Lp & Fp).
  unfold tinfl_decompress_mem_to_mem, tinfl_decompress. cbn [app]. rewrite header_spec by done. cbn [andthen Go].
  set (l := (pack (length bs) bs ++ be32 (adler32 data)) ++ junk).
  assert (Fb : Forall (in_range 8) (be32 (adler32 data))).
  { unfold be32. repeat constructor; apply Z.mod_pos_bound; lia. }
  assert (W : bits_ok (mkBits 0 0 l)).
  { split; cbn [num_bits bit_buf input]; [lia | lia |]. unfold l. by repeat apply Forall_app_2. }
  assert (E : stream (mkBits 0 0 l) = bs ++ pad ++ unpack (be32 (adler32 data)) ++ unpack junk).
  { unfold stream. cbn [num_bits bit_buf input Z.to_nat bits_of app]. unfold l. by rewrite !unpack_app, Ep, <- !app_assoc. }
  assert (A : (zlen (stream (mkBits 0 0 l)) + Z.of_nat 0) mod 8 = 0).
  { rewrite length_stream by (cbn; lia). cbn [num_bits input]. rewrite Z.add_0_r, Z.add_0_l, Z.mul_comm. by apply Z.mod_mul. }
  assert (H0 : has (zlen old) (mkOut old 0) []).
  { split; [unfold out_ok; cbn; pose proof (zlen_nonneg old); lia | done | done | constructor]. }
  destruct (blocks_spec (zlen old) _ xs (8 * length (cmf :: flg :: l) + 8) 0 _ _ [] data bs W H0 Eb Ed E A L) as (b1 & o1 & -> & W1 & S1 & H1).
  { pose proof (blocks_count xs 0 bs Eb) as N. apply (f_equal length) in Ep. rewrite length_unpack, length_app in Ep.
    unfold l. cbn [length]. rewrite !length_app. lia. }
  cbn [andthen Go].
  destruct (align_spec b1 pad _ W1 S1) as (b2 & -> & W2 & A2 & S2); [unfold zlen; lia | |].
  { rewrite zlen_app. unfold zlen. rewrite !length_unpack. rewrite !Nat2Z.inj_mul, <- Z.mul_add_distr_l, Z.mul_comm. by apply Z.mod_mul. }
  cbn [lift andthen Go]. destruct H1 as [O1 C1 Wr F1]. destruct (check_adler32_spec data F1) as [Ck Rk].
  destruct (trailer_spec (adler32 data) b2 _ W2 A2 Rk S2) as (b3 & -> & _). cbn [lift andthen Go mbind outcome_bind].
  fold (written o1). rewrite Wr, Ck. cbn [mbind outcome_bind]. rewrite Z.eqb_refl. done.
Qed.

(** C8. The inflater inverts the format: for every deflate stream, of stored blocks, blocks with the
    fixed codes and blocks with codes of their own in any order, whatever lies behind the
    stream in memory and whatever the buffer held, the function returns and the output is
    exactly the data that the stream stands for, if the buffer is large enough. *)
Theorem tinfl_inflates cmf flg xs z data old junk
  (Hz : zlib cmf flg xs = Some z) (Hd : expand_blocks [] xs = Some data)
  (Hl : zlen data <= zlen old) (Hj : Forall (in_range 8) junk) :
  tinfl_decompress_mem_to_mem old (z ++ junk) = Ret (Some data).
Proof. by apply (tinfl_decompress_spec cmf flg xs). Qed.

(** A stream of three blocks, as zlib writes it. *)
Definition sample : list block :=
  [Fixed [Literal 98; Literal 111; Literal 111; Literal 116; Literal 32; Literal 98; Copy 257 0 4 0];
   Stored [false;false;false;false;false;false] [];
   Dynamic [2; 0; 4; 2; 4; 3; 0; 0; 0; 0; 0; 0; 0; 0; 0; 0; 3; 0; 3] 16 261 [Zeros11 86; Len 3; Again 0; Len 2;
   Zeros11 127; Zeros11 5; Len 5; Len 3; Len 4; Len 0; Len 5; Len 3; Len 3; Len 0; Len 3; Len 0; Len 3; Len 0;
   Len 3; Again 0] [Literal 100; Literal 99; Literal 101; Literal 101; Literal 98; Literal 97; Literal 101;
   Literal 101; Literal 100; Literal 100; Literal 101; Literal 101; Literal 101; Literal 99; Literal 100; Literal
   99; Literal 101; Literal 97; Literal 98; Literal 99; Literal 97; Literal 101; Copy 257 0 8 0; Copy 258 0 0 0;
   Literal 99; Copy 257 0 9 2; Literal 99; Literal 101; Literal 100; Copy 260 0 7 0; Copy 257 0 5 1; Literal 97;
   Copy 258 0 8 1; Copy 257 0 7 2; Literal 98; Literal 98; Copy 257 0 3 0; Copy 257 0 1 0; Literal 99; Copy 258 0
   10 7; Literal 98; Literal 97; Literal 97; Literal 101]].
Definition sample_bytes : list Z :=
  [120; 218; 74; 202; 207; 47; 81; 72; 2; 18; 0; 0; 0; 0; 255; 255; 37; 138; 135; 9; 0; 48; 16; 2; 103; 181;
   220; 254; 43; 196; 39; 138; 136; 165; 1; 11; 90; 32; 13; 114; 196; 138; 67; 54; 133; 254; 48; 215; 53; 139;
   246; 52; 230; 126; 150; 120; 210; 66; 30; 209].
Definition sample_data : list Z :=
  [98; 111; 111; 116; 32; 98; 111; 111; 116; 100; 99; 101; 101; 98; 97; 101; 101; 100; 100; 101; 101; 101; 99;
   100; 99; 101; 97; 98; 99; 97; 101; 97; 101; 101; 101; 101; 101; 101; 99; 101; 98; 97; 99; 101; 100; 101; 101;
   101; 101; 101; 101; 101; 100; 101; 97; 101; 99; 101; 98; 100; 101; 101; 98; 98; 101; 101; 98; 101; 98; 101;
   99; 97; 101; 101; 101; 98; 97; 97; 101].

Lemma tinfl_inflates_witness :
  zlib 120 218 sample = Some sample_bytes /\
  tinfl_decompress_mem_to_mem (replicate 100 7) (sample_bytes ++ [1; 2; 3]) = Ret (Some sample_data).
Proof.
  split; [vm_compute; reflexivity |].
  apply (tinfl_inflates 120 218 sample); [vm_compute; reflexivity | vm_compute; reflexivity | vm_compute; discriminate |].
  repeat constructor; vm_compute; (discriminate || reflexivity).
Defined.

End TinflInflate.
