(* ===== verification/TinflTotal.v ===== *)
(** * tinfl.c on any input

    Whatever the bytes of the input are, the inflater returns; the only access outside of its
    arrays is the copy for the length symbols 286 and 287, which no stream may use.
    The input counts as a number, [num b]: it has no more bits than the input, reading
    divides it by powers of two, and a block that starts at zero is refused. *)

From S2P Require Import Prelude Deflate Tinfl TinflTable TinflStream TinflInflate.

Module TinflTotal.
Import Deflate Tinfl TinflTable TinflStream TinflInflate.

(** ** Bits, with the zeros behind the end of the input *)

Definition num (b : bits) : Z := bit_buf b + 2 ^ num_bits b * val (unpack (input b)).

Lemma num_nonneg b : bits_ok b -> 0 <= num b.
Proof. intros [N B _]. unfold num. pose proof (val_bound (unpack (input b))). assert (0 < 2 ^ num_bits b) by lia. nia. Qed.

Lemma unpack_cons c r : in_range 8 c -> val (unpack (c :: r)) = c + 2 ^ 8 * val (unpack r).
Proof.
  intros Hc. unfold unpack. cbn [map concat]. rewrite val_app, val_bits_of. unfold zlen. rewrite length_bits_of.
  change (Z.of_nat 8) with 8. by rewrite Z.mod_small by done.
Qed.

Lemma add_byte_any b : bits_ok b -> num_bits b <= 53 ->
  bits_ok (add_byte b) /\ num (add_byte b) = num b /\ num_bits (add_byte b) = num_bits b + 8.
Proof.
  intros W Hn. pose proof W as [N B I].
  assert (G : forall c l, in_range 8 c -> Forall (in_range 8) l ->
    let b' := mkBits (Z.lor (bit_buf b) (u64 (Z.shiftl c (num_bits b)))) (u32 (num_bits b + 8)) l in
    bits_ok b' /\ bit_buf b' = bit_buf b + 2 ^ num_bits b * c /\ num_bits b' = num_bits b + 8).
  { intros c l Hc Hl. cbn [bit_buf num_bits]. assert (W8 : u32 (num_bits b + 8) = num_bits b + 8) by (apply wrap_small; unfold in_range; lia).
    destruct (join (bit_buf b) c (num_bits b) 8 ltac:(lia) ltac:(lia) ltac:(lia) B Hc) as [J1 J2]. rewrite W8.
    split; [split; cbn [num_bits bit_buf input]; (done || lia) |]. split; [| done].
    apply (f_equal val) in J2. rewrite val_app, !val_bits_of, !Z2Nat.id in J2 by lia. rewrite !Z.mod_small in J2 by (done || lia).
    unfold zlen in J2. rewrite length_bits_of, Z2Nat.id in J2 by lia. lia. }
  unfold add_byte, get_byte. destruct (input b) as [| c r] eqn:E.
  - destruct (G 0 (input b)) as (W' & E1 & E2); [done | by rewrite E |]. cbn [bit_buf num_bits] in E1, E2. split; [done |]. split; [| done].
    unfold num. cbn [bit_buf num_bits input]. rewrite E1, E2, E. change (val (unpack [])) with 0. lia.
  - apply Forall_cons in I as [Hc I]. destruct (G c r Hc I) as (W' & E1 & E2). cbn [bit_buf num_bits input] in *. split; [done |]. split; [| done].
    unfold num. cbn [bit_buf num_bits input]. rewrite E1, E2, E, unpack_cons, Z.pow_add_r by (done || lia). lia.
Qed.

Lemma need_bits_any n fuel : forall b, bits_ok b -> num_bits b < n <= 32 -> n - num_bits b <= Z.of_nat fuel + 1 ->
  exists b', need_bits fuel n b = Ret b' /\ bits_ok b' /\ num b' = num b /\ n <= num_bits b'.
Proof.
  induction fuel as [| fuel IH]; intros b W Hn Hf; cbn [need_bits]; pose proof (ok_num _ W);
    destruct (add_byte_any b W ltac:(lia)) as (W' & V' & N').
  - rewrite (proj2 (Z.ltb_ge _ _)) by lia. exists (add_byte b). split_and!; (done || lia).
  - destruct (num_bits (add_byte b) <? n) eqn:E; [apply Z.ltb_lt in E | apply Z.ltb_ge in E; exists (add_byte b); done].
    destruct (IH (add_byte b)) as (b' & -> & W2 & V2 & N2); [done | lia | lia |]. exists b'. rewrite V2. done.
Qed.

Lemma drop_bits_any n b : bits_ok b -> 0 <= n <= num_bits b ->
  bits_ok (drop_bits n b) /\ num (drop_bits n b) = num b / 2 ^ n /\ num_bits (drop_bits n b) = num_bits b - n.
Proof.
  intros W Hn. destruct (drop_bits_spec n b W Hn) as (W' & _ & N'). split; [done |]. split; [| done].
  unfold num. rewrite N'. cbn [drop_bits bit_buf input]. rewrite Z.shiftr_div_pow2 by lia.
  assert (2 ^ num_bits b = 2 ^ n * 2 ^ (num_bits b - n)) as -> by (rewrite <- Z.pow_add_r by lia; f_equal; lia).
  assert (0 < 2 ^ n) by (apply Z.pow_pos_nonneg; lia).
  rewrite <- Z.mul_assoc, (Z.mul_comm (2 ^ n)), Z.div_add by lia. done.
Qed.

Lemma get_bits_any n b : bits_ok b -> 0 <= n <= 32 ->
  exists b', get_bits n b = Ret (num b mod 2 ^ n, b') /\ bits_ok b' /\ num b' = num b / 2 ^ n.
Proof.
  intros W Hn. unfold get_bits, ready.
  assert (exists b1, (if num_bits b <? n then need_bits (Z.to_nat n) n b else Ret b) = Ret b1 /\ bits_ok b1 /\ num b1 = num b /\ n <= num_bits b1)
    as (b1 & -> & W1 & V1 & N1).
  { destruct (num_bits b <? n) eqn:E; [apply Z.ltb_lt in E | apply Z.ltb_ge in E; by exists b].
    pose proof (ok_num _ W). apply need_bits_any; (done || lia). }
  cbn [mbind outcome_bind]. destruct (drop_bits_any n b1 W1 ltac:(lia)) as (W2 & V2 & _).
  exists (drop_bits n b1). split; [| split; [done | by rewrite V2, V1]]. do 2 f_equal.
  rewrite Z.shiftl_1_l, Z.sub_1_r, <- Z.ones_equiv, Z.land_ones by lia. rewrite <- V1. unfold num.
  assert (2 ^ num_bits b1 = 2 ^ n * 2 ^ (num_bits b1 - n)) as -> by (rewrite <- Z.pow_add_r by lia; f_equal; lia).
  assert (0 < 2 ^ n) by (apply Z.pow_pos_nonneg; lia).
  rewrite <- Z.mul_assoc, (Z.mul_comm (2 ^ n)), Z.mod_add by lia. done.
Qed.

(** Reading never makes the number larger. *)
Lemma div_le x k : 0 <= x -> 0 <= k -> x / 2 ^ k <= x.
Proof. intros Hx Hk. assert (1 <= 2 ^ k) by (apply (Z.pow_le_mono_r 2 0); lia). apply Z.div_le_upper_bound; nia. Qed.

Definition reads {A} (b : bits) (m : outcome (A * bits)) (P : A -> Prop) : Prop :=
  exists a b', m = Ret (a, b') /\ bits_ok b' /\ num b' <= num b /\ P a.

Lemma get_bits_reads n b : bits_ok b -> 0 <= n <= 32 -> reads b (get_bits n b) (fun v => 0 <= v < 2 ^ n).
Proof.
  intros W Hn. destruct (get_bits_any n b W Hn) as (b' & E & W' & V'). eexists _, b'. split; [exact E |]. split; [done |].
  split; [rewrite V'; apply div_le; [by apply num_nonneg | lia] |]. apply Z.mod_pos_bound, Z.pow_pos_nonneg; lia.
Qed.

Lemma raw_byte_any b : bits_ok b -> exists v b', raw_byte b = Ret (v, b') /\ bits_ok b' /\ num b' <= num b /\ 0 <= v < 2 ^ 8 /\ (num b = 0 -> v = 0 /\ num b' = 0).
Proof.
  intros W. pose proof (num_nonneg b W) as Vn. unfold raw_byte. destruct (num_bits b =? 0) eqn:N; cbn [negb].
  - apply Z.eqb_eq in N. pose proof W as [_ B I]. unfold get_byte. unfold num in *. rewrite N in *. change (2 ^ 0) with 1 in *.
    destruct (input b) as [| c r] eqn:E.
    + exists 0, b. unfold num. rewrite N, E. split_and!; (done || lia).
    + apply Forall_cons in I as [Hc I]. rewrite unpack_cons in * by done. pose proof (val_bound (unpack r)) as U. unfold in_range in Hc.
      exists c, (mkBits (bit_buf b) 0 r). cbn [bit_buf num_bits input]. change (2 ^ 0) with 1.
      split; [done |]. split; [split; cbn; (done || lia) |]. split; [nia |]. split; [done |]. intros Z0. split; [nia |]. nia.
  - destruct (get_bits_any 8 b W ltac:(lia)) as (b' & E & W' & V'). eexists _, b'. split; [exact E |]. split; [done |].
    split; [rewrite V'; apply div_le; lia |]. split; [apply Z.mod_pos_bound; lia |]. intros Z0. rewrite V', Z0. done.
Qed.

(** ** Symbols *)

Section Symbol.
Context (lens : list Z) (h : huff) (D : decodes lens h).

(** A symbol, or zero where the table has no entry. *)
Definition some_sym (s : Z) : Prop := s = 0 \/ coded lens s.

Lemma some_sym_bound s : some_sym s -> 0 <= s < 512.
Proof. intros [-> | C]; [lia |]. by apply (coded_bound lens h D). Qed.

Lemma walk_any own next z : table lens (zlen lens) own (m_look_up h) (m_tree h) next ->
  forall fuel m k p, own !! k = Some p -> length p = m -> (15 <= m + fuel + 1)%nat ->
  exists v len, walk fuel (m_tree h) z (node k) (Z.of_nat m) = Ret (v, len) /\ Z.of_nat m < len <= 15 /\ some_sym v /\
    forall n, Z.of_nat m < n -> exists t, walk_upto fuel (m_tree h) z n (node k) (Z.of_nat m) = Ret t /\ (0 <= t -> len <= n).
Proof.
  intros T. pose proof D as (Ok & _).
  assert (L15 : forall p, p ∈ own -> (length p <= 14)%nat).
  { intros p Hp. destruct (t_own _ _ _ _ _ _ T p Hp) as (_ & s & C & _ & L). destruct (code_len lens Ok s C). lia. }
  induction fuel as [| fuel IH]; intros m k p E Lp Hf; pose proof (L15 p ltac:(by eapply list_elem_of_lookup_2)) as L14;
    cbn [walk walk_upto]; rewrite bit_at by lia;
    set (b := Z.testbit z (Z.of_nat m));
    replace (Z.lnot (node k) + Z.b2z b) with (2 * Z.of_nat k + Z.b2z b) by (unfold Z.lnot, node; lia);
    (destruct (t_tree _ _ _ _ _ _ T k p b E) as [(k' & E' & ->) | [(_ & s & [[C _] Es] & ->) | (_ & _ & ->)]]).
  1: { pose proof (L15 _ ltac:(by eapply list_elem_of_lookup_2)) as X. rewrite length_app in X. simpl in X. lia. }
  3: { rewrite (proj2 (Z.ltb_lt _ _)) by (unfold node; lia). cbn [andb].
       pose proof (L15 _ ltac:(by eapply list_elem_of_lookup_2)) as X. rewrite length_app in X. simpl in X.
       destruct (IH (S m) k' (p ++ [b]) E') as (v & len & Ew & Hl & Hv & Hu); [rewrite length_app; simpl; lia | lia |].
       replace (Z.of_nat m + 1) with (Z.of_nat (S m)) by lia. exists v, len. split; [done |]. split; [lia |]. split; [done |].
       intros n Hn. destruct (n >=? Z.of_nat (S m) + 1) eqn:G; rewrite Z.geb_leb in G; [apply Z.leb_le in G; apply Hu; lia |].
       eexists. split; [reflexivity |]. unfold node. lia. }
  all: unfold id; try (assert (0 <= s) by apply C); rewrite (proj2 (Z.ltb_ge _ _)) by lia; cbn [andb];
    eexists _, _; (split; [reflexivity |]); (split; [lia |]); (split; [by first [left; reflexivity | right] |]); intros n Hn;
    eexists; (split; [reflexivity |]); lia.
Qed.

Lemma look_any z : 0 <= z ->
  exists v k, look h z = Ret (v, k) /\ 0 <= k <= 15 /\ some_sym (Z.land v 511) /\ 0 <= v /\
    (if at_ (m_look_up h) (Z.land z (TINFL_FAST_LOOKUP_SIZE - 1)) >=? 0 then Z.land v 511 else v) = Z.land v 511 /\
    forall b, bit_buf b = z -> 0 <= num_bits b -> exists f, has_code h b = Ret f /\ (f = true -> k <= num_bits b).
Proof.
  intros Hz. pose proof D as (Ok & _ & own & next & T). unfold look, has_code.
  assert (M : forall b : bits, bit_buf b = z -> at_ (m_look_up h) (Z.land (bit_buf b) (TINFL_FAST_LOOKUP_SIZE - 1)) =
    at_ (m_look_up h) (Z.land z (TINFL_FAST_LOOKUP_SIZE - 1))) by (by intros b ->).
  rewrite land_1023 in *. pose proof (t_look _ _ _ _ _ _ T (z mod 2 ^ Z.of_nat 10) ltac:(apply Z.mod_pos_bound; lia)) as X.
  destruct X as [(k & E & Ev) | [(_ & s & [[C _] _] & Ev) | (_ & _ & Ev)]]; rewrite Ev in *.
  - rewrite Z.geb_leb, (proj2 (Z.leb_gt _ _)) by (unfold node; lia).
    destruct (walk_any own next z T 16 10 k (bits_of 10 (z mod 2 ^ Z.of_nat 10)) E) as (v & len & Ew & Hl & Hv & Hu); [apply length_bits_of | lia |].
    change (Z.of_nat 10) with TINFL_FAST_LOOKUP_BITS in *. pose proof (some_sym_bound v Hv) as Bv.
    assert (Lv : Z.land v 511 = v) by (change 511 with (Z.ones 9); rewrite Z.land_ones, Z.mod_small; lia).
    exists v, len. rewrite Ew, Lv. split; [done |]. split; [unfold TINFL_FAST_LOOKUP_BITS in Hl; lia |]. split; [done |]. split; [lia |]. split; [done |].
    intros b Eb Hb. rewrite M by done. rewrite Z.geb_leb, (proj2 (Z.leb_gt _ _)) by (unfold node; lia).
    destruct (num_bits b >? TINFL_FAST_LOOKUP_BITS) eqn:G; [| by exists false].
    rewrite Z.gtb_ltb in G. apply Z.ltb_lt in G. destruct (Hu (num_bits b) G) as (t & Et & Ht). rewrite Eb, Et. cbn [mbind outcome_bind].
    eexists. split; [reflexivity |]. rewrite Z.geb_leb. intros Lt%Z.leb_le. by apply Ht.
  - destruct (short_entry_spec lens h D s C) as (P & Sh & Mk & _). destruct (code_len lens Ok s C) as [_ K].
    rewrite Z.geb_leb, (proj2 (Z.leb_le _ _)) by lia. rewrite Sh. eexists _, _. split; [reflexivity |].
    split; [lia |]. rewrite Mk. split; [by right |]. split; [lia |]. split; [done |].
    intros b Eb Hb. rewrite M by done. rewrite Z.geb_leb, (proj2 (Z.leb_le _ _)), Sh by lia. eexists. split; [reflexivity |].
    rewrite andb_true_iff, Z.geb_leb, Z.leb_le. tauto.
  - change (0 >=? 0) with true. cbn iota. change (Z.shiftr 0 9) with 0. exists 0, 0. change (Z.land 0 511) with 0.
    split; [done |]. split; [lia |]. split; [by left |]. split; [lia |]. split; [done |].
    intros b Eb Hb. rewrite M by done. exists false. done.
Qed.

Lemma huff_fill_any fuel : forall b, bits_ok b -> num_bits b < 15 -> 15 <= num_bits b + 8 * (Z.of_nat fuel + 1) ->
  exists b', huff_fill fuel h b = Ret b' /\ bits_ok b' /\ num b' = num b /\
    (15 <= num_bits b' \/ exists f, has_code h b' = Ret f /\ f = true).
Proof.
  induction fuel as [| fuel IH]; intros b W Hn Hf; cbn [huff_fill]; pose proof (ok_num _ W) as N; pose proof (ok_buf _ W) as B;
    destruct (look_any (bit_buf b) ltac:(lia)) as (v & k & _ & _ & _ & _ & _ & Hc); destruct (Hc b eq_refl ltac:(lia)) as (f & Ef & _);
    rewrite Ef; cbn [mbind outcome_bind]; (destruct f; [exists b; rewrite Ef; eauto 10 |]);
    destruct (add_byte_any b W ltac:(lia)) as (W' & V' & N').
  - rewrite (proj2 (Z.ltb_ge _ _)) by lia. exists (add_byte b). split_and!; try done. left. lia.
  - destruct (num_bits (add_byte b) <? 15) eqn:G; [apply Z.ltb_lt in G | apply Z.ltb_ge in G; exists (add_byte b); split_and!; try done; by left].
    destruct (IH (add_byte b)) as (b' & -> & W2 & V2 & Q); [done | lia | lia |]. exists b'. rewrite V2. done.
Qed.

Lemma look_bits b : bits_ok b -> 15 <= num_bits b \/ (exists f, has_code h b = Ret f /\ f = true) ->
  exists v k, look h (bit_buf b) = Ret (v, k) /\ some_sym (Z.land v 511) /\ 0 <= v /\
    (if at_ (m_look_up h) (Z.land (bit_buf b) (TINFL_FAST_LOOKUP_SIZE - 1)) >=? 0 then Z.land v 511 else v) = Z.land v 511 /\
    0 <= k <= 15 /\ let b' := drop_bits k b in bits_ok b' /\ num b' <= num b /\ num_bits b' = num_bits b - k.
Proof.
  intros W H. pose proof (ok_num _ W) as N. pose proof (ok_buf _ W) as B.
  destruct (look_any (bit_buf b) ltac:(lia)) as (v & k & E & K & S & Hv & M & Hc). exists v, k. do 4 (split; [done |]). split; [done |].
  assert (k <= num_bits b).
  { destruct H as [H | (f & Ef & ->)]; [lia |]. destruct (Hc b eq_refl ltac:(lia)) as (f' & Ef' & X). rewrite Ef in Ef'.
    injection Ef' as <-. by apply X. }
  destruct (drop_bits_any k b W ltac:(lia)) as (W2 & V2 & N2). split; [done |]. split; [| done].
  rewrite V2. apply div_le; [by apply num_nonneg | lia].
Qed.

Lemma huff_decode_any b : bits_ok b -> reads b (huff_decode h b) some_sym.
Proof.
  intros W. unfold huff_decode. pose proof (ok_num _ W) as N.
  match goal with |- context [mbind _ ?m] => match m with (if _ then _ else _) =>
    assert (exists b1, m = Ret b1 /\ bits_ok b1 /\ num b1 = num b /\ (15 <= num_bits b1 \/ exists f, has_code h b1 = Ret f /\ f = true))
      as (b1 & -> & W1 & V1 & Q) end end.
  { destruct (num_bits b <? 15) eqn:G; [apply Z.ltb_lt in G | apply Z.ltb_ge in G; exists b; auto 10].
    destruct (input b) as [| c0 [| c1 r1]] eqn:X; [apply huff_fill_any; (done || lia) | apply huff_fill_any; (done || lia) |].
    destruct (add_byte_any b W ltac:(lia)) as (W' & V' & N'). destruct (add_byte_any (add_byte b) W' ltac:(lia)) as (W2 & V2 & N2).
    exists (add_byte (add_byte b)).
    assert (U : u32 (num_bits b + 8) = num_bits b + 8) by (apply wrap_small; unfold in_range; lia).
    assert (U2 : u32 (num_bits b + 8 + 8) = u32 (num_bits b + 16)) by (f_equal; lia).
    split; [| split; [done | split; [by rewrite V2 | left; lia]]].
    unfold add_byte, get_byte. rewrite X. cbn [input bit_buf num_bits]. by rewrite U, U2. }
  cbn [mbind outcome_bind]. destruct (look_bits b1 W1 Q) as (v & k & -> & S & _ & M & _ & W2 & V2 & _). cbn [mbind outcome_bind].
  rewrite M. eexists _, _. split; [reflexivity |]. split; [done |]. split; [lia | done].
Qed.

End Symbol.

(** ** Parts of the coroutine *)

(** A part ends: with [P], with a status, or outside of an array, the last only if [over]. *)
Definition fine {A} (over : Prop) (P : A -> Prop) (m : run A) : Prop :=
  match m with Ret (inr a) => P a | Ret (inl _) => True | Fatal _ => over | OutOfFuel => False end.

Lemma fine_then {A B} over (P : A -> Prop) (Q : B -> Prop) m f :
  fine over P m -> (forall a, P a -> fine over Q (f a)) -> fine over Q (andthen m f).
Proof. destruct m as [[s | a] | w |]; cbn; auto. Qed.

Lemma fine_then_eq {A B} over (P : A -> Prop) (Q : B -> Prop) m f :
  fine over P m -> (forall a, m = Go a -> P a -> fine over Q (f a)) -> fine over Q (andthen m f).
Proof. destruct m as [[s | a] | w |]; cbn; auto. Qed.

Lemma fine_weaken {A} (over over' : Prop) (P Q : A -> Prop) m :
  fine over P m -> (over -> over') -> (forall a, P a -> Q a) -> fine over' Q m.
Proof. destruct m as [[s | a] | w |]; cbn; auto. Qed.

Lemma fine_reads {A} over b (m : outcome (A * bits)) (P : A -> Prop) :
  reads b m P -> fine over (fun '(a, b') => P a /\ bits_ok b' /\ num b' <= num b) (lift m).
Proof. intros (a & b' & -> & W & V & H). cbn. done. Qed.

(** A buffer of [cap] bytes in which the position [c] was reached. *)
Definition at_least (cap c : Z) (o : out) : Prop := out_ok o /\ zlen (obuf o) = cap /\ c <= ocur o.

Lemma full_spec cap c o : at_least cap c o -> full o = false -> ocur o < cap.
Proof. intros (_ & L & _) F. unfold full in F. rewrite Z.geb_leb in F. apply Z.leb_gt in F. lia. Qed.

Lemma put_any cap o c : at_least cap (ocur o) o -> ocur o < cap ->
  exists o', put o c = Ret o' /\ at_least cap (ocur o + 1) o' /\ ocur o' = ocur o + 1.
Proof.
  intros (O & L & _) H. destruct (put_spec o c O ltac:(lia)) as (o' & E & O' & _ & Z' & C'). exists o'.
  split; [done |]. split; [split; [done | split; lia] | done].
Qed.

Lemma poke_any cap o i c : at_least cap (ocur o) o -> 0 <= i < cap ->
  exists o', poke o i c = Ret o' /\ at_least cap (ocur o) o' /\ ocur o' = ocur o.
Proof.
  intros (O & L & _) H. unfold poke. rewrite (proj2 (Z.leb_le _ _)), (proj2 (Z.ltb_lt _ _)) by lia. cbn [andb].
  eexists. split; [reflexivity |]. unfold at_least, out_ok, zlen in *. cbn [obuf ocur]. rewrite length_insert. auto with lia.
Qed.

Lemma at_least_self cap c o : at_least cap c o -> at_least cap (ocur o) o.
Proof. intros (O & L & _). split; [done | split; [done | lia]]. Qed.

Lemma copy1_any cap o src : at_least cap (ocur o) o -> 0 <= src <= ocur o -> ocur o < cap ->
  exists o', copy1 (o, src) = Ret (o', src + 1) /\ at_least cap (ocur o + 1) o' /\ ocur o' = ocur o + 1.
Proof.
  intros H Hs Hc. pose proof H as (O & L & _). unfold copy1, peek. cbn [fst snd].
  rewrite (proj2 (Z.leb_le _ _)), (proj2 (Z.ltb_lt _ _)) by lia. cbn [andb mbind outcome_bind].
  destruct (put_any cap o (nth_ (obuf o) src) H Hc) as (o' & -> & H' & C'). cbn [mbind outcome_bind]. by exists o'.
Qed.

Lemma copy1_over o src cap : at_least cap (ocur o) o -> 0 <= src <= ocur o ->
  (exists o', copy1 (o, src) = Ret (o', src + 1) /\ at_least cap (ocur o + 1) o' /\ ocur o' = ocur o + 1) \/ exists w, copy1 (o, src) = Fatal w.
Proof.
  intros H Hs. destruct (Z.lt_ge_cases (ocur o) cap) as [Lt | Ge]; [left; by apply copy1_any |]. right.
  pose proof H as (O & L & _). unfold copy1, peek. cbn [fst snd].
  destruct ((0 <=? src) && (src <? zlen (obuf o))); cbn [mbind outcome_bind]; [| by eexists].
  unfold put, poke. rewrite (proj2 (Z.ltb_ge _ _)), andb_false_r by lia. by eexists.
Qed.

Lemma copy_fast_any cap : forall fuel counter o src, at_least cap (ocur o) o -> 0 <= src <= ocur o ->
  3 <= counter <= 3 * (Z.of_nat fuel + 1) + 2 -> ocur o + counter <= cap ->
  exists o', copy_fast fuel counter (o, src) = Ret o' /\ at_least cap (ocur o + 3) o'.
Proof.
  assert (U : forall o o' k, ocur o' = ocur o + k -> at_least cap (ocur o + k) o' -> at_least cap (ocur o') o') by (by intros o o' k ->).
  induction fuel as [| fuel IH]; intros counter o src H Hs Hc L; cbn [copy_fast];
    (destruct (copy1_any cap o src H Hs ltac:(lia)) as (o1 & -> & H1 & C1)); cbn [mbind outcome_bind]; apply (U _ _ _ C1) in H1;
    (destruct (copy1_any cap o1 (src + 1) H1 ltac:(lia) ltac:(lia)) as (o2 & -> & H2 & C2)); cbn [mbind outcome_bind]; apply (U _ _ _ C2) in H2;
    (destruct (copy1_any cap o2 (src + 1 + 1) H2 ltac:(lia) ltac:(lia)) as (o3 & -> & H3 & C3)); cbn [mbind outcome_bind]; apply (U _ _ _ C3) in H3;
    (assert (X3 : at_least cap (ocur o + 3) o3) by (destruct H3 as (A & B & _); split; [done | split; [done | lia]])).
  1: rewrite Z.gtb_ltb, (proj2 (Z.ltb_ge _ _)) by lia.
  2: destruct (counter - 3 >? 2) eqn:G; rewrite Z.gtb_ltb in G; [apply Z.ltb_lt in G | apply Z.ltb_ge in G];
     [destruct (IH (counter - 3) o3 (src + 1 + 1 + 1) H3) as (o' & E & H'); [lia | lia | lia |];
      exists o'; split; [exact E |]; destruct H' as (A & B & ?); split; [done | split; [done | lia]] |].
  all: destruct (counter - 3 >? 0) eqn:G0; rewrite Z.gtb_ltb in G0; [apply Z.ltb_lt in G0 | by exists o3];
    (destruct (copy1_any cap o3 (src + 1 + 1 + 1) H3 ltac:(lia) ltac:(lia)) as (o4 & -> & H4 & C4)); cbn [mbind outcome_bind]; apply (U _ _ _ C4) in H4;
    destruct (counter - 3 >? 1) eqn:G1; rewrite Z.gtb_ltb in G1; [apply Z.ltb_lt in G1 | cbn [mbind outcome_bind]; exists o4; split; [done |];
      destruct H4 as (A & B & ?); split; [done | split; [done | lia]]];
    (destruct (copy1_any cap o4 (src + 1 + 1 + 1 + 1) H4 ltac:(lia) ltac:(lia)) as (o5 & -> & H5 & C5)); cbn [mbind outcome_bind];
    exists o5; split; [done |]; destruct H5 as (A & B & ?); split; [done | split; [done | lia]].
Qed.

(** The copy for a length of zero, three bytes wherever the position is. *)
Lemma copy_fast_zero cap o src fuel : at_least cap (ocur o) o -> 0 <= src <= ocur o ->
  fine True (at_least cap (ocur o + 1)) (lift (copy_fast fuel 0 (o, src))).
Proof.
  intros H Hs. assert (E : copy_fast fuel 0 (o, src) = (os ← copy1 (o, src); os ← copy1 os; os ← copy1 os; Ret os.1)) by (by destruct fuel).
  rewrite E. destruct (copy1_over o src cap H Hs) as [(o1 & -> & H1 & C1) | [w ->]]; [| done]. cbn [mbind outcome_bind].
  rewrite <- C1 in H1. destruct (copy1_over o1 (src + 1) cap H1 ltac:(lia)) as [(o2 & -> & H2 & C2) | [w ->]]; [| done]. cbn [mbind outcome_bind].
  rewrite <- C2 in H2. destruct (copy1_over o2 (src + 1 + 1) cap H2 ltac:(lia)) as [(o3 & -> & H3 & C3) | [w ->]]; [| done]. cbn.
  destruct H3 as (A & B & ?). split; [done | split; [done | lia]].
Qed.

Lemma copy_slow_any cap n : forall o src, at_least cap (ocur o) o -> 0 <= src <= ocur o ->
  fine False (at_least cap (ocur o + Z.of_nat n)) (copy_slow n o src).
Proof.
  induction n as [| n IH]; intros o src H Hs; cbn [copy_slow]; [cbn; by rewrite Z.add_0_r |].
  destruct (full o) eqn:F; [done |]. pose proof (full_spec cap _ o H F) as Lt. pose proof H as (O & L & _).
  destruct (copy1_any cap o src H Hs Lt) as (o' & E & H' & C'). unfold copy1 in E. cbn [fst snd] in E.
  destruct (peek o src) as [c | |]; [| discriminate | discriminate]. cbn [mbind outcome_bind lift andthen Go] in *.
  destruct (put o c) as [o1 | |]; [| discriminate | discriminate]. cbn [mbind outcome_bind lift andthen Go] in *. injection E as ->.
  rewrite <- C' in H'. eapply fine_weaken; [apply IH; [done | lia] | done |]. intros o2 (A & B & ?). split; [done | split; [done | lia]].
Qed.

(** ** What a stream gets to *)

(** The loop over the symbols of a block, from a state on, gets to the length symbol [s]. *)
Inductive meets (t0 t1 : huff) : bits -> out -> Z -> Prop :=
  | meets_now b o c b1 o1 :
      literals (length (obuf o) + 1) t0 b o = Go (c, b1, o1) -> Z.land c 511 <> 256 -> meets t0 t1 b o (Z.land c 511)
  | meets_later b o c b1 o1 b2 o2 s :
      literals (length (obuf o) + 1) t0 b o = Go (c, b1, o1) -> Z.land c 511 <> 256 ->
      copy_match t1 (Z.land c 511) b1 o1 = Go (b2, o2) -> meets t0 t1 b2 o2 s -> meets t0 t1 b o s.

(** The loop over the blocks gets from one state, before the header of a block, to another. *)
Inductive block_from : bits -> out -> bits -> out -> Prop :=
  | block_here b o : block_from b o b o
  | block_next b o v b1 b2 o2 b' o' :
      get_bits 3 b = Ret (v, b1) -> block_body (Z.shiftr v 1) b1 o = Go (b2, o2) -> Z.land v 1 = 0 ->
      block_from b2 o2 b' o' -> block_from b o b' o'.

(** The block that starts here has a length symbol that the format reserves. *)
Definition reserved (b : bits) (o : out) : Prop :=
  exists v b1 t0 t1 b2 s, get_bits 3 b = Ret (v, b1) /\
    (if Z.shiftr v 1 =? 1 then fixed_tables b1 else dynamic_tables b1) = Go (t0, t1, b2) /\
    meets t0 t1 b2 o s /\ 286 <= s.

(** ** Literals and copies *)

(** What a part does to the reader and the buffer: it reads on and reaches the position [c]. *)
Definition goes (b : bits) (cap c : Z) (x : bits * out) : Prop := bits_ok x.1 /\ num x.1 <= num b /\ at_least cap c x.2.

Lemma goes_trans b b1 cap c c1 x : num b1 <= num b -> c <= c1 -> goes b1 cap c1 x -> goes b cap c x.
Proof. intros V H (W & V' & O & L & G). split; [done |]. split; [lia |]. split; [done |]. split; [done | lia]. Qed.

Lemma nth_range l i lo hi : Forall (fun x => lo <= x <= hi) l -> lo <= 0 <= hi -> lo <= nth_ l i <= hi.
Proof. intros F H. unfold nth_. destruct (l !! Z.to_nat i) eqn:E; cbn; [by apply (Forall_lookup_1 _ _ _ _ F E) | done]. Qed.

Lemma extra_any n base b : bits_ok b -> 0 <= n <= 32 -> reads b (extra n base b) (fun x => base <= x /\ (n = 0 -> x = base)).
Proof.
  intros W Hn. unfold extra. destruct (n =? 0) eqn:E; cbn [negb]; [exists base, b; split_and!; (done || lia) |].
  apply Z.eqb_neq in E. destruct (get_bits_reads n b W Hn) as (v & b' & -> & W' & V' & R). cbn [mbind outcome_bind]. exists (base + v), b'.
  split_and!; (done || lia).
Qed.

Lemma length_zero ls : 286 <= ls -> nth_ s_length_extra (ls - 257) = 0 /\ nth_ s_length_base (ls - 257) = 0.
Proof.
  intros H. unfold nth_. destruct (Z.le_gt_cases 288 ls).
  - rewrite !lookup_ge_None_2 by (cbn; lia). done.
  - assert (ls = 286 \/ ls = 287) as [-> | ->] by lia; done.
Qed.

Lemma length_three ls : 257 <= ls < 286 -> 3 <= nth_ s_length_base (ls - 257).
Proof.
  intros H. unfold nth_. assert (F : Forall (fun x => 3 <= x) (take 29 s_length_base)) by (apply (bool_decide_unpack _); vm_compute; done).
  destruct (s_length_base !! Z.to_nat (ls - 257)) as [x |] eqn:E; cbn [default from_option].
  - apply (Forall_lookup_1 _ _ (Z.to_nat (ls - 257)) _ F). rewrite lookup_take_lt by lia. done.
  - apply lookup_ge_None_1 in E. cbn in E. lia.
Qed.

Lemma copy_match_any ld t1 cap ls b o : decodes ld t1 -> bits_ok b -> at_least cap (ocur o) o -> 257 <= ls ->
  fine (286 <= ls) (goes b cap (ocur o + 1)) (copy_match t1 ls b o).
Proof.
  intros D W H Hls. unfold copy_match.
  assert (R1 : 0 <= nth_ s_length_extra (ls - 257) <= 32) by (apply nth_range; [apply (bool_decide_unpack _); vm_compute; done | lia]).
  assert (R2 : 0 <= nth_ s_length_base (ls - 257) <= 258) by (apply nth_range; [apply (bool_decide_unpack _); vm_compute; done | lia]).
  eapply fine_then; [apply fine_reads, extra_any; done |]. intros [counter b1] ([Hc Hc0] & W1 & V1).
  eapply fine_then; [apply fine_reads, (huff_decode_any ld t1 D); done |]. intros [dist b2] (S2 & W2 & V2).
  assert (R3 : 0 <= nth_ s_dist_extra dist <= 32) by (apply nth_range; [apply (bool_decide_unpack _); vm_compute; done | lia]).
  assert (R4 : 0 <= nth_ s_dist_base dist <= 24577) by (apply nth_range; [apply (bool_decide_unpack _); vm_compute; done | lia]).
  eapply fine_then; [apply fine_reads, extra_any; done |]. intros [dist' b3] ([Hd _] & W3 & V3). cbn zeta.
  destruct (dist' >? ocur o) eqn:G; [done |]. rewrite Z.gtb_ltb in G. apply Z.ltb_ge in G.
  pose proof H as (O & L & _). rewrite L. rewrite Z.max_l by lia.
  apply fine_then with (P := at_least cap (ocur o + 1)).
  - destruct (ocur o + counter >? cap) eqn:G2; rewrite Z.gtb_ltb in G2; [apply Z.ltb_lt in G2 | apply Z.ltb_ge in G2].
    + eapply fine_weaken; [apply copy_slow_any; [done | lia] | done |]. unfold out_ok in O. intros o' (A & B & ?). split; [done | split; [done | lia]].
    + destruct (Z.le_gt_cases 286 ls) as [Big | Small].
      * destruct (length_zero ls Big) as [Z1 Z2]. rewrite Hc0, Z2 by done.
        eapply fine_weaken; [apply copy_fast_zero; [done | lia] | done | done].
      * pose proof (length_three ls ltac:(lia)).
        destruct (copy_fast_any cap (Z.to_nat counter) counter o (ocur o - dist') H) as (o' & -> & (A & B & ?)); [lia | lia | lia |].
        cbn. split; [done | split; [done | lia]].
  - intros o' Ho. cbn. split; [done |]. split; [cbn; lia | done].
Qed.

Lemma land_big v : Z.land v 256 <> 0 -> 256 <= Z.land v 511.
Proof.
  intros H. assert (E : Z.land v 256 = Z.land (Z.land v 511) 256) by (rewrite <- Z.land_assoc; done). rewrite E in H.
  assert (R : 0 <= Z.land v 511 < 512) by (change 511 with (Z.ones 9); rewrite Z.land_ones by lia; apply Z.mod_pos_bound; lia).
  rewrite land_256 in H by done. destruct (Z.ltb_spec (Z.land v 511) 256); [done | lia].
Qed.

Section Block.
Context (ll ld : list Z) (t0 t1 : huff) (D0 : decodes ll t0) (D1 : decodes ld t1) (cap : Z).

Definition to_symbol (b : bits) (c : Z) (x : Z * bits * out) : Prop :=
  256 <= Z.land x.1.1 511 /\ some_sym ll (Z.land x.1.1 511) /\ goes b cap c (x.1.2, x.2).

Lemma literals_any fuel : forall b o, bits_ok b -> at_least cap (ocur o) o -> cap - ocur o < Z.of_nat fuel ->
  fine False (to_symbol b (ocur o)) (literals fuel t0 b o).
Proof.
  induction fuel as [| fuel IH]; intros b o W H Hf; pose proof H as (O & L & _); unfold out_ok in O; [lia |]. cbn [literals].
  assert (Again : forall b' o', bits_ok b' -> num b' <= num b -> at_least cap (ocur o') o' -> ocur o < ocur o' ->
    fine False (to_symbol b (ocur o)) (literals fuel t0 b' o')).
  { intros b' o' W' V' H' C'. eapply fine_weaken; [apply IH; (done || lia) | done |]. intros x (S1 & S2 & G). split; [done |]. split; [done |].
    eapply goes_trans; [| | exact G]; lia. }
  destruct ((zlen (input b) <? 4) || (zlen (obuf o) - ocur o <? 2)) eqn:Slow.
  - eapply fine_then; [apply fine_reads, (huff_decode_any ll t0 D0); done |]. intros [counter b1] (S1 & W1 & V1).
    pose proof (some_sym_bound ll t0 D0 counter S1) as Bc. destruct (counter >=? 256) eqn:G; rewrite Z.geb_leb in G.
    + apply Z.leb_le in G. assert (Lc : Z.land counter 511 = counter) by (change 511 with (Z.ones 9); rewrite Z.land_ones, Z.mod_small; lia).
      cbn. unfold to_symbol. cbn [fst snd]. rewrite Lc. split; [done |]. split; [done |]. done.
    + destruct (full o) eqn:F; [done |]. destruct (put_any cap o counter H (full_spec _ _ _ H F)) as (o' & -> & H' & C').
      cbn [lift andthen Go]. apply Again; [done | done | by rewrite C' | lia].
  - apply orb_false_iff in Slow as [G1%Z.ltb_ge G2%Z.ltb_ge].
    assert (exists b1, refill b = b1 /\ bits_ok b1 /\ num b1 = num b /\ 30 <= num_bits b1) as (b1 & -> & W1 & V1 & N1).
    { destruct (refill_spec b W G1) as (W1 & S1 & N1). exists (refill b). split_and!; try done.
      assert (X : forall x, bits_ok x -> num x = val (stream x)).
      { intros x [Nx Bx _]. unfold num, stream. rewrite val_app, val_bits_of, Z2Nat.id, Z.mod_small by lia.
        unfold zlen. by rewrite length_bits_of, Z2Nat.id by lia. }
      rewrite !X by done. by rewrite S1. }
    destruct (look_bits ll t0 D0 b1 W1) as (v & k & -> & Sv & Hv & _ & K & W2 & V2 & N2); [left; lia |]. cbn [lift andthen Go].
    destruct (Z.land v 256 =? 0) eqn:Gv; cbn [negb].
    2: { apply Z.eqb_neq in Gv. cbn. split; [by apply land_big |]. split; [done |]. split; [done |]. split; [cbn; lia |]. done. }
    destruct (look_bits ll t0 D0 (drop_bits k b1) W2) as (v2 & k2 & -> & Sv2 & Hv2 & _ & K2 & W3 & V3 & N3); [left; lia |]. cbn [lift andthen Go].
    destruct (poke_any cap o (ocur o) (u8 v) H ltac:(lia)) as (o1 & -> & H1 & C1). cbn [lift andthen Go].
    destruct (Z.land v2 256 =? 0) eqn:Gv2; cbn [negb].
    2: { apply Z.eqb_neq in Gv2. cbn. split; [by apply land_big |]. split; [done |]. split; [done |]. split; [cbn; lia |].
         destruct H1 as (A & B & ?). unfold at_least, out_ok, advance in *. cbn [fst snd obuf ocur] in *. lia. }
    destruct (poke_any cap o1 (ocur o1 + 1) (u8 v2)) as (o2 & -> & H2 & C2); [by rewrite C1 | lia |]. cbn [lift andthen Go].
    apply Again; [done | lia | | cbn; lia].
    destruct H2 as (A & B & ?). unfold at_least, out_ok, advance in *. cbn [obuf ocur] in *. lia.
Qed.

(** A block ends, and stays inside the buffer if it has no length symbol above 285. *)
Lemma symbols_any fuel : forall b o, bits_ok b -> at_least cap (ocur o) o -> cap - ocur o < Z.of_nat fuel ->
  fine (exists s, 286 <= s /\ meets t0 t1 b o s) (goes b cap (ocur o)) (symbols fuel t0 t1 b o).
Proof.
  induction fuel as [| fuel IH]; intros b o W H Hf; pose proof H as (O & L & _); unfold out_ok in O; [lia |]. cbn [symbols].
  eapply fine_then_eq; [eapply fine_weaken; [apply (literals_any (length (obuf o) + 1) b o W H); unfold zlen in *; lia | done | intros a Ha; exact Ha] |].
  intros [[counter b1] o1] El (Hs & Ss & W1 & V1 & H1). cbn [fst snd] in *. cbn zeta. destruct (Z.land counter 511 =? 256) eqn:G.
  - cbn. split; [done |]. split; [cbn; lia |]. done.
  - apply Z.eqb_neq in G. eapply fine_then_eq.
    + eapply fine_weaken; [apply (copy_match_any ld t1 cap (Z.land counter 511) b1 o1 D1 W1); [by eapply at_least_self | lia] | | intros a Ha; exact Ha].
      intros Big. exists (Z.land counter 511). split; [done |]. by eapply meets_now.
    + intros [b2 o2] Ec (W2 & V2 & H2). cbn [fst snd] in *. pose proof H1 as (_ & _ & ?). pose proof H2 as (_ & _ & ?).
      eapply fine_weaken; [apply IH; [done | by eapply at_least_self | lia] | |].
      * intros (s & Hs286 & M). exists s. split; [done |]. by eapply meets_later.
      * intros x Gx. eapply goes_trans; [| | exact Gx]; lia.
Qed.

End Block.

(** ** Stored blocks *)

Lemma stored_bits_any cap fuel : forall counter b o, bits_ok b -> at_least cap (ocur o) o -> 0 <= counter <= Z.of_nat fuel ->
  fine False (fun x => 0 <= x.1.1 <= counter /\ goes b cap (ocur o) (x.1.2, x.2)) (stored_bits fuel counter b o).
Proof.
  induction fuel as [| fuel IH]; intros counter b o W H Hc; cbn [stored_bits].
  - replace counter with 0 by lia. cbn. split; [lia |]. split; [done |]. split; [cbn; lia | done].
  - destruct (negb (counter =? 0) && negb (num_bits b =? 0)) eqn:G.
    2: { cbn. split; [lia |]. split; [done |]. split; [cbn; lia | done]. }
    apply andb_true_iff in G as [G%negb_true_iff%Z.eqb_neq _].
    eapply fine_then; [apply fine_reads, (get_bits_reads 8 b W); lia |]. intros [v b1] (R & W1 & V1).
    destruct (full o) eqn:F; [done |]. destruct (put_any cap o v H (full_spec _ _ _ H F)) as (o' & -> & H' & C'). cbn [lift andthen Go].
    eapply fine_weaken; [apply (IH (counter - 1) b1 o' W1); [by rewrite C' | lia] | done |].
    intros x [X G']. split; [lia |]. eapply goes_trans; [| | exact G']; lia.
Qed.

Lemma val_drop n l : val (drop n l) <= val l.
Proof.
  rewrite <- (take_drop n l) at 2. rewrite val_app. pose proof (val_bound (take n l)). pose proof (val_bound (drop n l)).
  assert (1 <= 2 ^ zlen (take n l)) by (apply (Z.pow_le_mono_r 2 0); [lia | apply zlen_nonneg]). nia.
Qed.

Lemma unpack_drop n l : unpack (drop n l) = drop (8 * n) (unpack l).
Proof.
  destruct (Nat.le_gt_cases n (length l)).
  - rewrite <- (take_drop n l) at 2. rewrite unpack_app, drop_app_length'; [done |]. rewrite length_unpack, length_take. lia.
  - rewrite !drop_ge by (rewrite ?length_unpack; lia). done.
Qed.

Lemma put_list_any cap l : forall o, at_least cap (ocur o) o -> ocur o + zlen l <= cap ->
  exists o', put_list o l = Ret o' /\ at_least cap (ocur o + zlen l) o' /\ ocur o' = ocur o + zlen l.
Proof.
  induction l as [| c l IH]; intros o H L; cbn [put_list].
  - exists o. change (zlen (@nil Z)) with 0. rewrite Z.add_0_r. done.
  - rewrite zlen_cons in *. pose proof (zlen_nonneg l). destruct (put_any cap o c H ltac:(lia)) as (o1 & -> & H1 & C1). cbn [mbind outcome_bind].
    destruct (IH o1) as (o2 & E & H2 & C2); [by rewrite C1 | lia |]. exists o2. rewrite E. rewrite C1 in *.
    replace (ocur o + (1 + zlen l)) with (ocur o + 1 + zlen l) by lia. done.
Qed.

Lemma stored_copy_any cap fuel : forall counter b o, bits_ok b -> at_least cap (ocur o) o -> 0 <= counter <= Z.of_nat fuel ->
  fine False (goes b cap (ocur o)) (stored_copy fuel counter b o).
Proof.
  induction fuel as [| fuel IH]; intros counter b o W H Hc; cbn [stored_copy].
  - replace counter with 0 by lia. cbn. split; [done |]. split; [cbn; lia | done].
  - destruct (counter =? 0) eqn:G; cbn [negb]; [cbn; split; [done |]; split; [cbn; lia | done] |]. apply Z.eqb_neq in G.
    destruct (full o) eqn:F; [done |]. pose proof (full_spec _ _ _ H F) as Lt. destruct (zlen (input b) =? 0) eqn:E; [done |]. apply Z.eqb_neq in E.
    pose proof (zlen_nonneg (input b)). pose proof H as (_ & L & _). rewrite L.
    set (n := Z.min (Z.min (cap - ocur o) (zlen (input b))) counter).
    assert (Ht : zlen (take (Z.to_nat n) (input b)) = n) by (unfold zlen in *; rewrite length_take; lia).
    destruct (put_list_any cap (take (Z.to_nat n) (input b)) o H) as (o' & -> & H' & C'); [lia |]. cbn [lift andthen Go].
    eapply fine_weaken; [apply (IH (counter - n) _ o'); [| by rewrite C' | lia] | done |].
    + destruct W as [Nw Bw Iw]. split; cbn [num_bits bit_buf input]; [done | done | by apply Forall_drop].
    + intros x Gx. eapply goes_trans; [| | exact Gx]; [| lia]. unfold num. cbn [num_bits bit_buf input].
      rewrite unpack_drop. pose proof (val_drop (8 * Z.to_nat n) (unpack (input b))). assert (0 <= 2 ^ num_bits b) by (apply Z.pow_nonneg; lia). nia.
Qed.

Lemma lor_byte h0 h1 : 0 <= h0 < 2 ^ 8 -> 0 <= h1 < 2 ^ 8 -> 0 <= Z.lor h0 (Z.shiftl h1 8) < 2 ^ 16.
Proof. intros H0 H1. rewrite Z.shiftl_mul_pow2, Z.lor_comm, lor_low by (done || lia). lia. Qed.

(** A stored block ends; one made of zeros is refused. *)
Lemma stored_any cap b o : bits_ok b -> at_least cap (ocur o) o ->
  fine False (goes b cap (ocur o)) (stored b o) /\ (num b = 0 -> stored b o = Exit FAILED).
Proof.
  intros W H. unfold stored.
  assert (N7 : 0 <= Z.land (num_bits b) 7 <= 32).
  { change 7 with (Z.ones 3). rewrite Z.land_ones by lia. pose proof (Z.mod_pos_bound (num_bits b) (2 ^ 3) ltac:(lia)). lia. }
  assert (exists b0, skip_bits (Z.land (num_bits b) 7) b = Ret b0 /\ bits_ok b0 /\ num b0 <= num b /\ (num b = 0 -> num b0 = 0)) as (b0 & -> & W0 & V0 & Z0).
  { destruct (get_bits_any _ b W N7) as (b' & E & W' & V'). exists b'. pose proof (num_nonneg b W).
    split; [| split; [done | split; [rewrite V'; apply div_le; lia | intros Zb; by rewrite V', Zb]]].
    unfold get_bits, skip_bits in *. destruct (ready _ b); cbn [mbind outcome_bind] in *; congruence. }
  cbn [lift andthen Go].
  destruct (raw_byte_any b0 W0) as (h0 & b1 & -> & W1 & V1 & R1 & Z1). cbn [lift andthen Go].
  destruct (raw_byte_any b1 W1) as (h1 & b2 & -> & W2 & V2 & R2 & Z2). cbn [lift andthen Go].
  destruct (raw_byte_any b2 W2) as (h2 & b3 & -> & W3 & V3 & R3 & Z3). cbn [lift andthen Go].
  destruct (raw_byte_any b3 W3) as (h3 & b4 & -> & W4 & V4 & R4 & Z4). cbn [lift andthen Go]. split.
  - pose proof (lor_byte h0 h1 R1 R2) as B. destruct (negb _); [done |].
    eapply fine_then; [apply (stored_bits_any cap (Z.to_nat (Z.lor h0 (Z.shiftl h1 8))) _ b4 o W4 H); lia |].
    intros [[counter b5] o5] (Hc & W5 & V5 & H5). cbn [fst snd] in *. pose proof H5 as (_ & _ & ?).
    eapply fine_weaken; [apply (stored_copy_any cap (Z.to_nat counter) counter b5 o5 W5); [by eapply at_least_self | lia] | done |].
    intros x Gx. eapply goes_trans; [| | exact Gx]; lia.
  - intros Zb. specialize (Z0 Zb). destruct (Z1 Z0) as [-> Z1']. destruct (Z2 Z1') as [-> Z2']. destruct (Z3 Z2') as [-> Z3']. by destruct (Z4 Z3') as [-> _].
Qed.

(** ** Codes *)

Lemma size_codes_any ord : forall b sizes, bits_ok b -> Forall len_ok sizes ->
  exists sizes' b', size_codes ord b sizes = Ret (sizes', b') /\ bits_ok b' /\ num b' <= num b /\ Forall len_ok sizes' /\ length sizes' = length sizes.
Proof.
  induction ord as [| z ord IH]; intros b sizes W F; cbn [size_codes]; [exists sizes, b; split_and!; (done || lia) |].
  destruct (get_bits_reads 3 b W ltac:(lia)) as (v & b1 & -> & W1 & V1 & R). cbn [mbind outcome_bind].
  destruct (IH b1 (<[Z.to_nat z := v]> sizes) W1) as (s' & b' & E & W' & V' & F' & L').
  { apply Forall_insert; [done | unfold len_ok; lia]. }
  exists s', b'. rewrite length_insert in L'. split_and!; (done || lia).
Qed.

Lemma len_codes_any lc h total fuel : decodes lc h -> zlen lc <= 19 -> forall b l, bits_ok b -> Forall len_ok l -> total <= zlen l + Z.of_nat fuel ->
  fine False (fun x => Forall len_ok x.1 /\ bits_ok x.2 /\ num x.2 <= num b) (len_codes fuel h total b l).
Proof.
  intros D H19. induction fuel as [| fuel IH]; intros b l W F Hf; cbn [len_codes].
  - rewrite (proj2 (Z.ltb_ge _ _)) by lia. cbn. split_and!; (done || lia).
  - destruct (zlen l <? total) eqn:G; [| cbn; split_and!; (done || lia)].
    eapply fine_then; [apply fine_reads, (huff_decode_any lc h D b W) |]. intros [dist b1] (S1 & W1 & V1).
    pose proof (some_sym_bound lc h D dist S1) as Bd. destruct (dist <? 16) eqn:G1.
    + apply Z.ltb_lt in G1. eapply fine_weaken; [apply (IH b1 (l ++ [dist]) W1) | done |].
      * apply Forall_app. split; [done |]. repeat constructor; lia.
      * rewrite zlen_app. change (zlen [dist]) with 1. lia.
      * intros x (X1 & X2 & X3). split_and!; (done || lia).
    + apply Z.ltb_ge in G1. destruct ((dist =? 16) && (zlen l =? 0)); [done |].
      assert (R : 0 <= nth_ [2; 3; 7] (dist - 16) <= 32) by (apply nth_range; [apply (bool_decide_unpack _); vm_compute; done | lia]).
      eapply fine_then; [apply fine_reads, (get_bits_reads _ b1 W1 R) |]. intros [v b2] (Rv & W2 & V2). cbn zeta.
      assert (R2 : 0 <= nth_ [3; 3; 11] (dist - 16) <= 11) by (apply nth_range; [apply (bool_decide_unpack _); vm_compute; done | lia]).
      eapply fine_weaken; [apply (IH b2 _ W2) | done |].
      * apply Forall_app. split; [done |]. apply Forall_replicate. destruct (dist =? 16); [| unfold len_ok; lia].
        unfold nth_, len_ok. destruct (l !! _) as [x |] eqn:E; cbn; [by apply (Forall_lookup_1 _ _ _ _ F E) | lia].
      * rewrite zlen_app. unfold zlen at 2. rewrite length_replicate.
        destruct (nth_runs dist); [| lia]. destruct S1 as [-> | C]; [lia |]. pose proof (coded_known lc h D dist C) as [_ K]. lia.
      * intros x (X1 & X2 & X3). split_and!; (done || lia).
Qed.

Definition tables_any (b : bits) (x : huff * huff * bits) : Prop :=
  (exists ll, decodes ll x.1.1) /\ (exists ld, decodes ld x.1.2) /\ bits_ok x.2 /\ num x.2 <= num b.

Lemma make_table_any lens : zlen lens <= 512 -> Forall len_ok lens -> fine False (decodes lens) (make_table lens).
Proof. intros L F. destruct (make_table_spec lens L F) as [(_ & h & -> & D) | (_ & ->)]; done. Qed.

Lemma dynamic_tables_any b : bits_ok b -> fine False (tables_any b) (dynamic_tables b).
Proof.
  intros W. unfold dynamic_tables.
  eapply fine_then; [apply fine_reads, (get_bits_reads 5 b W); lia |]. intros [n0 b1] (R0 & W1 & V1). cbn zeta.
  eapply fine_then; [apply fine_reads, (get_bits_reads 5 b1 W1); lia |]. intros [n1 b2] (R1 & W2 & V2). cbn zeta.
  eapply fine_then; [apply fine_reads, (get_bits_reads 4 b2 W2); lia |]. intros [n2 b3] (R2 & W3 & V3). cbn zeta.
  destruct (size_codes_any (take (Z.to_nat (n2 + 4)) s_length_dezigzag) b3 (replicate 19 0) W3) as (sizes & b4 & -> & W4 & V4 & F4 & L4).
  { apply Forall_replicate. unfold len_ok. lia. }
  cbn [lift andthen Go]. rewrite length_replicate in L4.
  eapply fine_then; [apply make_table_any; [unfold zlen; lia | done] |]. intros t2 D2.
  eapply fine_then; [apply (len_codes_any sizes t2 _ _ D2); [unfold zlen; lia | done | constructor | change (zlen (@nil Z)) with 0; lia] |].
  intros [l b5] (F5 & W5 & V5). cbn [fst snd] in *. destruct (n0 + 257 + (n1 + 1) =? zlen l) eqn:E; [| done]. cbn [negb]. apply Z.eqb_eq in E.
  eapply fine_then; [apply make_table_any; [unfold zlen in *; rewrite length_drop; lia | by apply Forall_drop] |]. intros t1 D1.
  eapply fine_then; [apply make_table_any; [unfold zlen in *; rewrite length_take; lia | by apply Forall_take] |]. intros t0 D0.
  cbn. split_and!; cbn; eauto; lia.
Qed.

(** ** Blocks *)

Lemma block_any cap v b0 b o : get_bits 3 b0 = Ret (v, b) -> bits_ok b -> at_least cap (ocur o) o ->
  fine (reserved b0 o) (goes b cap (ocur o)) (block_body (Z.shiftr v 1) b o).
Proof.
  intros Ev W H. unfold block_body. destruct (Z.shiftr v 1 =? 0); [eapply fine_weaken; [by apply (stored_any cap b o W H) | done | done] |].
  destruct (Z.shiftr v 1 =? 3); [done |]. apply fine_then_eq with (P := tables_any b).
  - destruct (Z.shiftr v 1 =? 1); [| eapply fine_weaken; [by apply dynamic_tables_any | done | done]].
    destruct (fixed_tables_spec b) as (t0 & t1 & -> & D0 & D1). cbn. split_and!; cbn; eauto; lia.
  - intros [[t0 t1] b1] Et ((ll & D0) & (ld & D1) & W1 & V1). cbn [fst snd] in *. pose proof H as (O & L & _). unfold out_ok in O.
    eapply fine_weaken; [apply (symbols_any ll ld t0 t1 D0 D1 cap (length (obuf o) + 1) b1 o W1 H); unfold zlen in *; lia | |].
    + intros (s & Hs & M). by exists v, b, t0, t1, b1, s.
    + intros x Gx. eapply goes_trans; [| | exact Gx]; lia.
Qed.

Lemma blocks_any cap fuel : forall k b o, bits_ok b -> at_least cap (ocur o) o -> num b < 8 ^ Z.of_nat k -> (k < fuel)%nat ->
  fine (exists b' o', block_from b o b' o' /\ reserved b' o') (goes b cap (ocur o)) (blocks fuel b o).
Proof.
  induction fuel as [| fuel IH]; intros k b o W H Hk Hf; [lia |]. cbn [blocks]. pose proof (num_nonneg b W) as Vn.
  destruct (get_bits_any 3 b W ltac:(lia)) as (b1 & Eb & W1 & V1). rewrite Eb. cbn [lift andthen Go]. change (2 ^ 3) with 8 in *.
  fold (block_body (Z.shiftr (num b mod 8) 1) b1 o). pose proof (div_le (num b) 3 Vn ltac:(lia)) as Le. change (2 ^ 3) with 8 in Le.
  destruct k as [| k].
  - change (8 ^ Z.of_nat 0) with 1 in Hk. replace (num b) with 0 in * by lia. change (Z.shiftr (0 mod 8) 1) with 0.
    unfold block_body. change (0 =? 0) with true. cbn iota. destruct (stored_any cap b1 o W1 H) as [_ ->]; done.
  - eapply fine_then_eq.
    { eapply fine_weaken; [apply (block_any cap _ b b1 o Eb W1 H) | intros R; exists b, o; split; [constructor | done] | intros x Gx; exact Gx]. }
    intros [b2 o2] E2 (W2 & V2 & H2). cbn [fst snd] in *.
    pose proof H2 as (_ & _ & ?). destruct (Z.land (num b mod 8) 1 =? 0) eqn:F; [| cbn; split; [done |]; split; [cbn; lia | done]].
    eapply fine_weaken; [apply (IH k b2 o2 W2); [by eapply at_least_self | | lia] | |].
    + apply Z.le_lt_trans with (num b / 8); [lia |]. apply Z.div_lt_upper_bound; [lia |].
      rewrite Nat2Z.inj_succ, Z.pow_succ_r in Hk by lia. done.
    + intros (b' & o' & Fr & R). exists b', o'. split; [| done]. eapply block_next; [done | done | by apply Z.eqb_eq | done].
    + intros x Gx. eapply goes_trans; [| | exact Gx]; lia.
Qed.

Lemma trailer_any n : forall z b, bits_ok b -> exists r, trailer n z b = Ret r.
Proof.
  induction n as [| n IH]; intros z b W; cbn [trailer]; [by eexists |].
  destruct (raw_byte_any b W) as (v & b' & -> & W' & _). cbn [mbind outcome_bind]. by apply IH.
Qed.

Lemma adler_blocks_any fuel : forall s l n, 0 <= n <= 5552 -> zlen l + (if decide (n = 5552) then 0 else 1) <= Z.of_nat fuel ->
  exists r, adler_blocks fuel s l n = Ret r.
Proof.
  induction fuel as [| fuel IH]; intros s l n Hn Hf; pose proof (zlen_nonneg l); cbn [adler_blocks];
    (destruct (zlen l =? 0) eqn:E; [by eexists |]); apply Z.eqb_neq in E; [case_decide; lia |].
  destruct (adler_sum s (take (Z.to_nat n) l)) as [a b]. apply IH; [lia |]. rewrite decide_True by done.
  unfold zlen in *. rewrite length_drop. case_decide; lia.
Qed.

(** ** The size of the tree

    The code that goes right at a node and then left as far as possible tells the node: there are
    no more nodes than symbols. *)

Lemma rank_exists lens k : forall r, 0 <= r < count lens k -> exists i, lens !! i = Some k /\ count (take i lens) k = r.
Proof.
  induction lens as [| l lens IH]; intros r Hr; [change (count [] k) with 0 in Hr; lia |]. rewrite count_cons in Hr.
  destruct (decide (l = k)) as [-> | N].
  - destruct (decide (r = 0)) as [-> | Hn]; [exists 0%nat; done |]. destruct (IH (r - 1)) as (i & E & C); [lia |].
    exists (S i). split; [done |]. cbn [take]. rewrite count_cons, decide_True by done. lia.
  - destruct (IH r) as (i & E & C); [lia |]. exists (S i). split; [done |]. cbn [take]. rewrite count_cons, decide_False by done. lia.
Qed.

Lemma below_find lens x n : 0 <= x < below lens (S n) -> exists k, (1 <= k <= n)%nat /\ below lens k <= x < below lens (S k).
Proof.
  induction n as [| n IH]; intros Hx; [change (below lens 1) with 0 in Hx; lia |].
  destruct (Z.lt_ge_cases x (below lens (S n))) as [Lt | Ge].
  - destruct IH as (k & Hk & H); [lia |]. exists k. split; [lia | done].
  - exists (S n). split; [lia | lia].
Qed.

(** In a complete code every word of 15 bits starts with a code. *)
Lemma complete lens w : lens_ok lens -> kraft lens = 2 ^ 15 -> length w = 15%nat -> exists s, coded lens s /\ code lens s `prefix_of` w.
Proof.
  intros Ok K Lw. pose proof (proj1 Ok) as F. set (x := val (reverse w)).
  assert (Hx : 0 <= x < 2 ^ 15) by (pose proof (val_bound (reverse w)) as B; unfold zlen in B; rewrite length_reverse, Lw in B; done).
  rewrite kraft_below in K by done. rewrite <- K in Hx. destruct (below_find lens x 15 Hx) as ([| k] & Hk & B1 & B2); [lia |]. rewrite below_S in B2.
  set (kz := Z.of_nat (S k)) in *. assert (P : 0 < 2 ^ (15 - kz)) by (apply Z.pow_pos_nonneg; lia).
  destruct (rank_exists lens kz ((x - below lens (S k)) / 2 ^ (15 - kz))) as (i & E & C).
  { split; [apply Z.div_pos; lia |]. apply Z.div_lt_upper_bound; lia. }
  assert (Ls : len_of lens (Z.of_nat i) = kz) by (unfold len_of; by rewrite Nat2Z.id, E).
  exists (Z.of_nat i). split; [split; [lia | rewrite Ls; lia] |].
  assert (V : code_value lens (Z.of_nat i) = x / 2 ^ (15 - kz)).
  { unfold code_value. rewrite Ls, Nat2Z.id, C. replace (Z.to_nat kz) with (S k) by lia.
    rewrite <- (below_first lens (S k)) by lia. fold kz. replace (x - first_code lens (S k) * 2 ^ (15 - kz)) with (x + - first_code lens (S k) * 2 ^ (15 - kz)) by lia.
    rewrite Z.div_add by lia. lia. }
  unfold code. rewrite Ls, V. rewrite <- (reverse_involutive w). rewrite <- (bits_of_val (reverse w)), length_reverse, Lw. fold x.
  replace 15%nat with (15 - S k + S k)%nat by lia. rewrite bits_of_app, reverse_app.
  replace (Z.of_nat (15 - S k)) with (15 - kz) by lia. replace (Z.to_nat kz) with (S k) by lia. by eexists.
Qed.

(** The code to the right of a node. *)
Lemma right_code lens n own lu tr next p : lens_ok lens -> kraft lens = 2 ^ 15 -> table lens n own lu tr next -> p ∈ own ->
  exists s j, coded lens s /\ code lens s = p ++ true :: replicate j false.
Proof.
  intros Ok K T Hp. destruct (t_own _ _ _ _ _ _ T p Hp) as (L10 & s0 & C0 & P0 & L0). destruct (code_len lens Ok s0 C0) as [Hl0 Hk0].
  destruct (complete lens (p ++ true :: replicate (14 - length p) false) Ok K) as (s & C & P).
  { rewrite length_app. cbn [length]. rewrite length_replicate. lia. }
  destruct (decide (length (code lens s) <= length p)%nat) as [Le | Gt].
  - exfalso. assert (Q : code lens s `prefix_of` p).
    { destruct P as [r P]. exists (take (length p - length (code lens s)) r).
      apply (f_equal (take (length p))) in P. rewrite take_app_length, take_app_ge in P by done. done. }
    assert (s = s0) as -> by (apply (code_prefix_free lens s s0 Ok C C0); by etrans). lia.
  - exists s, (length (code lens s) - length p - 1)%nat. split; [done |]. destruct P as [r P].
    pose proof (f_equal length P) as PL. rewrite !length_app in PL. cbn [length] in PL. rewrite length_replicate in PL.
    destruct (code_len lens Ok s C) as [Hc Hc15].
    apply (f_equal (take (length (code lens s)))) in P. rewrite take_app_length in P. remember (length (code lens s)) as c eqn:Ec. clear Ec.
    rewrite <- P, take_app_ge by lia. f_equal. replace (c - length p)%nat with (S (c - length p - 1)) by lia. cbn [take]. f_equal.
    rewrite take_replicate. f_equal. lia.
Qed.

Lemma right_code_inj (p q : list bool) i j : p ++ true :: replicate i false = q ++ true :: replicate j false -> p = q.
Proof.
  intros E. apply (f_equal reverse) in E. rewrite !reverse_app, !reverse_cons, !reverse_replicate, <- !app_assoc in E. cbn [app] in E.
  revert j E. induction i as [| i IH]; intros [| j] E; cbn in E; try discriminate.
  - injection E as E. by apply (inj reverse) in E.
  - injection E as E. by apply (IH j).
Qed.

Lemma used_two lens i j a b : lens !! i = Some a -> lens !! j = Some b -> (i < j)%nat -> a <> 0 -> b <> 0 -> 2 <= used lens.
Proof.
  intros Ea Eb Hij Ha Hb. unfold used. rewrite <- (take_drop (S i) lens), filter_app, zlen_app.
  assert (In1 : forall (l : list Z) k x, l !! k = Some x -> x <> 0 -> 1 <= zlen (filter (fun l => l <> 0) l)).
  { intros l k x E Hx. assert (X : x ∈ filter (fun l => l <> 0) l) by (apply list_elem_of_filter; split; [done | by eapply list_elem_of_lookup_2]).
    destruct (filter _ l); [by apply elem_of_nil in X |]. rewrite zlen_cons. pose proof (zlen_nonneg l0). lia. }
  pose proof (In1 (take (S i) lens) i a) as X. pose proof (In1 (drop (S i) lens) (j - S i)%nat b) as Y.
  rewrite lookup_take_lt in X by lia. rewrite lookup_drop in Y. replace (S i + (j - S i))%nat with j in Y by lia.
  specialize (X Ea Ha). specialize (Y Eb Hb). lia.
Qed.

Lemma own_bound lens n own lu tr next : lens_ok lens -> table lens n own lu tr next -> (length own <= Nat.max 5 (length lens))%nat.
Proof.
  intros Ok T. pose proof (proj1 Ok) as F. pose proof (t_nodup _ _ _ _ _ _ T) as N.
  assert (Lk : forall s, coded lens s -> 0 <= s < zlen lens).
  { intros s C. destruct (coded_len lens s F C) as [_ E]. apply lookup_lt_Some in E. destruct C. unfold zlen. lia. }
  destruct (proj2 Ok) as [K | U].
  - assert (exists f : list bool -> Z, forall p, p ∈ own -> coded lens (f p) /\ exists j, code lens (f p) = p ++ true :: replicate j false) as [f Hf].
    { clear N. assert (G : forall l : list (list bool), (forall p, p ∈ l -> p ∈ own) -> exists f : list bool -> Z, forall p, p ∈ l -> coded lens (f p) /\ exists j, code lens (f p) = p ++ true :: replicate j false).
      { induction l as [| q l IH]; intros Hl; [exists (fun _ => 0); by intros p ?%elem_of_nil |].
        destruct IH as [f Hf]; [intros p Hp; apply Hl; by right |].
        destruct (right_code lens n own lu tr next q Ok K T) as (s & j & C & E); [apply Hl; by left |].
        exists (fun p => if decide (p = q) then s else f p). intros p Hp. destruct (decide (p = q)) as [-> | Np]; [eauto |].
        apply Hf. by apply elem_of_cons in Hp as [-> | Hp]. }
      by apply G. }
    etrans; [| apply Nat.le_max_r]. rewrite <- (length_map f own). apply Nat2Z.inj_le. fold (zlen lens).
    assert (B : Z.of_nat (length (map f own)) <= Z.max 0 (zlen lens - 0)); [| pose proof (zlen_nonneg lens); lia]. apply NoDup_range_length.
    + apply NoDup_fmap_2_strong; [| done]. intros p q Hp Hq E. destruct (Hf p Hp) as (_ & i & Ei). destruct (Hf q Hq) as (_ & j & Ej).
      rewrite E, Ej in Ei. by apply right_code_inj in Ei.
    + intros z (p & -> & Hp)%list_elem_of_fmap. apply Lk, Hf, Hp.
  - assert (Lo : (length (map (fun p => Z.of_nat (length p)) own) <= 5)%nat); [| rewrite length_map in Lo; lia].
    apply Nat2Z.inj_le. change (Z.of_nat 5) with (Z.max 0 (15 - 10)). apply NoDup_range_length.
    + apply NoDup_fmap_2_strong; [| done]. intros p q Hp Hq E. destruct (t_own _ _ _ _ _ _ T p Hp) as (_ & s & C & P & _).
      destruct (t_own _ _ _ _ _ _ T q Hq) as (_ & s' & C' & P' & _).
      assert (s = s') as <-.
      { destruct (coded_len lens s F C) as [K1 E1]. destruct (coded_len lens s' F C') as [K2 E2]. destruct (decide (s = s')) as [| Ns]; [done | exfalso].
        destruct C as [C0 C1], C' as [C0' C1']. assert (2 <= used lens); [| lia].
        destruct (Z.lt_ge_cases s s'); [apply (used_two lens (Z.to_nat s) (Z.to_nat s') _ _ E1 E2) | apply (used_two lens (Z.to_nat s') (Z.to_nat s) _ _ E2 E1)]; (done || lia). }
      destruct P as [r Er], P' as [r' Er']. rewrite Er in Er'. apply app_inj_1 in Er' as [-> _]; [done | lia].
    + intros z (p & -> & Hp)%list_elem_of_fmap. destruct (t_own _ _ _ _ _ _ T p Hp) as (L10 & s & C & _ & L). destruct (code_len lens Ok s C). lia.
Qed.

(** The nodes lie inside m_tree, which has 576 entries: the entries of a node are at most 575. *)
Lemma nodes_bound lens h : decodes lens h -> zlen lens <= 288 ->
  forall i, 0 <= i -> -575 <= at_ (m_tree h) i /\ (i < 1024 -> -575 <= at_ (m_look_up h) i).
Proof.
  intros (Ok & _ & own & next & T) L i Hi. pose proof (own_bound _ _ _ _ _ _ Ok T) as B. unfold zlen in L.
  assert (G : forall sy leaf p v, (forall s, sy s -> 0 <= leaf s) -> entry own sy leaf p v -> -575 <= v).
  { intros sy leaf p v Hl [(k & E & ->) | [(_ & s & Hs & ->) | (_ & _ & ->)]]; [| specialize (Hl s Hs); lia | lia].
    apply lookup_lt_Some in E. unfold node. lia. }
  split.
  - destruct (Z.lt_ge_cases i (2 * zlen own)) as [Lt | Ge]; [| rewrite (t_fresh _ _ _ _ _ _ T) by done; lia].
    unfold zlen in Lt. destruct (lookup_lt_is_Some_2 own (Z.to_nat (i / 2))) as [p E].
    { assert (i / 2 < Z.of_nat (length own)) by (apply Z.div_lt_upper_bound; lia). assert (0 <= i / 2) by (apply Z.div_pos; lia). lia. }
    pose proof (t_tree _ _ _ _ _ _ T _ p (Z.odd i) E) as X. assert (0 <= i / 2) by (apply Z.div_pos; lia).
    replace (2 * Z.of_nat (Z.to_nat (i / 2)) + Z.b2z (Z.odd i)) with i in X.
    + apply (G _ _ _ _) in X; [done |]. intros s [[[? _] _] _]. done.
    + pose proof (Z.div2_odd i) as O. rewrite Z.div2_div in O. lia.
  - intros H. pose proof (t_look _ _ _ _ _ _ T i ltac:(lia)) as X. apply (G _ _ _ _) in X; [done |].
    intros s [[[? _] _] _]. unfold short_entry. apply Z.lor_nonneg. split; [| done]. apply Z.shiftl_nonneg.
    unfold len_of. destruct (lens !! Z.to_nat s) as [x |] eqn:E; cbn; [| done]. by apply (Forall_lookup_1 _ _ _ _ (proj1 Ok) E).
Qed.

Lemma header_any l : Forall (in_range 8) l ->
  fine False (fun b => bits_ok b /\ num b < 8 ^ Z.of_nat (8 * length l)) (header (mkBits 0 0 l)).
Proof.
  intros F. unfold header, get_byte. cbn [input bit_buf num_bits].
  assert (G : forall l', Forall (in_range 8) l' -> (length l' <= length l)%nat ->
    bits_ok (mkBits 0 0 l') /\ num (mkBits 0 0 l') < 8 ^ Z.of_nat (8 * length l)).
  { intros l' F' L. split; [split; cbn; (done || lia) |]. unfold num. cbn [bit_buf num_bits input]. change (2 ^ 0) with 1.
    pose proof (val_bound (unpack l')) as B. unfold zlen in B. rewrite length_unpack in B.
    assert (2 ^ Z.of_nat (8 * length l') <= 2 ^ Z.of_nat (8 * length l)) by (apply Z.pow_le_mono_r; lia).
    assert (2 ^ Z.of_nat (8 * length l) <= 8 ^ Z.of_nat (8 * length l)) by (apply Z.pow_le_mono_l; lia). lia. }
  destruct l as [| c0 [| c1 r]]; cbn [input bit_buf num_bits]; (destruct (_ || _); [done |]); cbn; apply G; cbn; try lia.
  1, 2: constructor. by apply Forall_cons in F as [_ [_ F]%Forall_cons].
Qed.

(** C9. On any input the inflater ends: it returns, with success or failure, or it accesses
    memory outside its output buffer, and the last only when it gets to a block in which it meets a length
    symbol above 285, which the format reserves; on all other inputs every read and write is inside
    the buffer.  The nodes of every table lie inside the 576 entries of m_tree: a node [v] < 0 stands for the
    entries - [v] - 1 and - [v]. *)
Theorem tinfl_terminates (old src : list Z) (Hs : Forall (in_range 8) src) :
  match tinfl_decompress_mem_to_mem old src with
  | Ret _ => True
  | Fatal _ => exists b0 b o, header (mkBits 0 0 src) = Go b0 /\ block_from b0 (mkOut old 0) b o /\ reserved b o
  | OutOfFuel => False
  end /\
  (forall lens h i, make_table lens = Go h -> zlen lens <= 288 -> Forall (fun l => 0 <= l <= 15) lens -> 0 <= i ->
     -575 <= at_ (m_tree h) i /\ (i < TINFL_FAST_LOOKUP_SIZE -> -575 <= at_ (m_look_up h) i)).
Proof.
  assert (Dec : forall lens h, make_table lens = Go h -> zlen lens <= 288 -> Forall (fun l => 0 <= l <= 15) lens -> decodes lens h).
  { intros lens h E L F. destruct (make_table_spec lens ltac:(lia) F) as [(_ & h' & E' & D) | (_ & E')]; rewrite E' in E; [by injection E as <- | done]. }
  split.
  - unfold tinfl_decompress_mem_to_mem, tinfl_decompress. pose proof (header_any src Hs) as Hh.
    destruct (header (mkBits 0 0 src)) as [[st | b] | w |]; cbn [fine] in Hh; [done | | done | done]. destruct Hh as [W V]. cbn [andthen].
    assert (H0 : at_least (zlen old) (ocur (mkOut old 0)) (mkOut old 0)).
    { split; [split; cbn; [lia | apply zlen_nonneg] |]. split; [done | cbn; lia]. }
    pose proof (blocks_any (zlen old) (8 * length src + 8) (8 * length src) b (mkOut old 0) W H0 V ltac:(lia)) as B.
    destruct (blocks (8 * length src + 8) b (mkOut old 0)) as [[st | [b1 o1]] | w |]; cbn [fine] in B; [done | | | done].
    2: { destruct B as (b' & o' & Fr & R). by exists b, b', o'. }
    destruct B as (W1 & _). cbn [fst andthen] in *.
    assert (N7 : 0 <= Z.land (num_bits b1) 7 <= 32).
    { change 7 with (Z.ones 3). rewrite Z.land_ones by lia. pose proof (Z.mod_pos_bound (num_bits b1) (2 ^ 3) ltac:(lia)). lia. }
    destruct (get_bits_any _ b1 W1 N7) as (b2 & E & W2 & _).
    assert (skip_bits (Z.land (num_bits b1) 7) b1 = Ret b2) as ->.
    { unfold get_bits, skip_bits in *. destruct (ready _ b1); cbn [mbind outcome_bind] in *; congruence. }
    cbn [lift andthen Go]. destruct (trailer_any 4 1 b2 W2) as [[z b3] ->]. cbn [lift andthen Go mbind outcome_bind]. unfold check_adler32.
    set (l := take (Z.to_nat (ocur o1)) (obuf o1)). pose proof (Z.mod_pos_bound (zlen l) 5552 ltac:(lia)) as M.
    destruct (adler_blocks_any (length l + 1) (1, 0) l (zlen l mod 5552)) as [[s1 s2] ->]; [lia | unfold zlen; case_decide; lia |]. done.
  - intros lens h i E L F Hi. by apply (nodes_bound lens h (Dec lens h E L F) L).
Qed.

(** A stream with a literal and the length symbol 286, in a buffer of three bytes. *)
Definition overrun : list Z :=
  120 :: 156 :: pack 24 ([true] ++ bits_of 2 1 ++ code fixed_ll 97 ++ code fixed_ll 286 ++ code fixed_ld 0).

(** The length symbols 286 and 287 write past the end of the buffer. *)
Example overrun_writes : tinfl_decompress_mem_to_mem [0; 0; 0] overrun = Fatal "write past the output buffer".
Proof. vm_compute. reflexivity. Qed.

Lemma tinfl_terminates_witness : tinfl_decompress_mem_to_mem [0; 0] [120; 156; 2] = Ret None /\
  exists b0 b o, header (mkBits 0 0 overrun) = Go b0 /\ block_from b0 (mkOut [0; 0; 0] 0) b o /\ reserved b o.
Proof.
  assert (Forall (in_range 8) overrun) as F by (apply (bool_decide_unpack _); vm_compute; exact I).
  pose proof (tinfl_terminates [0; 0; 0] overrun F) as [T _]. rewrite overrun_writes in T. split; [vm_compute; reflexivity | exact T].
Defined.

End TinflTotal.
