(* ===== verification/Transport.v ===== *)
(** * kernel/transport.h, .cc: values sent between isolates

    [ByteStream] and its reader, the serialiser [SerializeValue] over a heap of
    JavaScript objects (array buffers are taken from the sender), and
    [UnpackValue].  V8 objects are modelled by what the code reads of them: plain
    data, without getters or proxies.  The theorems: serialisation of any object
    graph, a cyclic one included, terminates; what it writes is read back as the
    tree the graph stands for; buffers that are external move, with all their views read as
    empty from then on, and the others stop the machine, as V8 neuters external buffers only. *)

From S2P Require Import Prelude.

Module TransportData.

(** kernel/transport.h:294-319, TransportData::Type. *)
Inductive Type_ : Type :=
  | UNDEFINED | NUL | STRING_16 | STRING_UTF8 | INT32 | UINT32 | DOUBLE | BOOL_TRUE
  | BOOL_FALSE | ARRAYBUFFER | TYPEDARRAY_UINT8 | TYPEDARRAY_UINT8_CLAMPED
  | TYPEDARRAY_UINT16 | TYPEDARRAY_UINT32 | TYPEDARRAY_INT8 | TYPEDARRAY_INT16
  | TYPEDARRAY_INT32 | TYPEDARRAY_DATAVIEW | ARRAY | EMPTY_ARRAY | HASHMAP
  | FUNCTION | NATIVE_OBJECT | ERROR_OBJ.

#[export] Instance Type_eq_dec : EqDecision Type_.
Proof. solve_decision. Defined.

Definition all_types : list Type_ :=
  [UNDEFINED; NUL; STRING_16; STRING_UTF8; INT32; UINT32; DOUBLE; BOOL_TRUE; BOOL_FALSE;
   ARRAYBUFFER; TYPEDARRAY_UINT8; TYPEDARRAY_UINT8_CLAMPED; TYPEDARRAY_UINT16;
   TYPEDARRAY_UINT32; TYPEDARRAY_INT8; TYPEDARRAY_INT16; TYPEDARRAY_INT32;
   TYPEDARRAY_DATAVIEW; ARRAY; EMPTY_ARRAY; HASHMAP; FUNCTION; NATIVE_OBJECT; ERROR_OBJ].

(** The value of an enumerator, and back. *)
Definition code (t : Type_) : Z :=
  match find_from (fun x => bool_decide (x = t)) 0 all_types with
  | Some i => Z.of_nat i
  | None => 0
  end.
Definition of_code (z : Z) : option Type_ := all_types !! Z.to_nat z.

(** kernel/transport.h:124-131, TransportData::SerializeError. *)
Inductive SerializeError : Type :=
  | NONE | MAX_STACK | INVALID_TYPE | EMPTY_BUFFER | TYPEDARRAY_VIEW | NOT_CLONABLE.

#[export] Instance SerializeError_eq_dec : EqDecision SerializeError.
Proof. solve_decision. Defined.

(** kernel/transport.h:336-336, kMaxStackSize. *)
Definition kMaxStackSize : Z := 128.

(** ** The values of the sender

    A number is classified the way [IsInt32], [IsUint32] and [IsNumber] are
    tried; a double is its 64-bit pattern, a string its 16-bit units. *)
Inductive value : Type :=
  | VUndefined | VNull | VBool (b : bool)
  | VInt32 (z : Z) | VUint32 (z : Z) | VDouble (bits : Z)
  | VString (units : list Z)
  | VRef (addr : Z)
  | VSymbol.

(** The views the code tells apart; the other ones cannot be transferred. *)
Inductive view : Type :=
  | Uint8Array | Uint16Array | Uint32Array | DataView | Int8Array | Int16Array | Int32Array
  | Uint8ClampedArray | OtherView.

(** deps/v8/src/objects.h:10115-10134, JSArrayBuffer.  A buffer is external when V8 does not
    own its memory: buffers that scripts make, those that were received and those of
    files are not; those of memory ranges and of AllocDMA are. *)
Record JSArrayBuffer : Type := mkBuf {
  backing_store : Z; byte_length : Z; is_external : bool; is_neuterable : bool; was_neutered : bool }.

Inductive obj : Type :=
  | OArrayBuffer (b : JSArrayBuffer)
  | OView (kind : view) (buffer offset len : Z)
  | OArray (elems : list value)
  | OFunction
  | OError (message : value)
  | OObject (props : list (value * value))
  | ONative (is_function : bool) (ptr : Z).

(** The heap of the sender, the stream written so far and the functions the
    sender exported. *)
Record st : Type := mkSt { heap : gmap Z obj; data_ : list Z; exports : list Z }.

Section Transport.
(** The address of the ExternalFunction made for the [n]-th export, and
    [JsObjectWrapperBase::Clone] ([None] is the null pointer). *)
Variable new_efn : nat -> Z.
Variable Clone : Z -> option Z.

(** ** Writing *)

Definition set_data (s : st) (d : list Z) : st := mkSt (heap s) d (exports s).

(** kernel/transport.h:47-54, ByteStream::AppendValue, for a type of [n] bytes. *)
Definition AppendValue (s : st) (n z : Z) : st := set_data s (data_ s ++ le_bytes n z).

(** kernel/transport.h:332-334, TransportData::AppendType. *)
Definition AppendType (s : st) (t : Type_) : st := AppendValue s 1 (code t).

(** kernel/transport.h:67-71, ByteStream::AppendBuffer, followed by the write of
    the bytes [bs] to the place it returns; the vector zeroes what it adds. *)
Definition AppendBuffer (s : st) (len : Z) (bs : list Z) : st :=
  set_data s (data_ s ++ take (Z.to_nat (u32 len)) (bs ++ replicate (Z.to_nat (u32 len) - length bs) 0)).

(** The bytes of 16-bit units in memory. *)
Definition units_bytes (us : list Z) : list Z := concat (map (le_bytes 2) us).

(** kernel/transport.h:164-173, TransportData::AppendString. *)
Definition AppendString (s : st) (units : list Z) : st :=
  let len := Z.of_nat (length units) in
  AppendBuffer (AppendValue (AppendType s STRING_16) 4 len) ((len + 1) * 2) (units_bytes units).

(** kernel/transport.h:321-323, TransportData::Clear. *)
Definition Clear (s : st) : st := set_data s [].

(** kernel/transport.h:141-144, TransportData::SetUndefined. *)
Definition SetUndefined (s : st) : st := AppendType (Clear s) UNDEFINED.

(** kernel/transport.h:146-150, TransportData::SetArray. *)
Definition SetArray (s : st) (size : Z) : st := AppendValue (AppendType (Clear s) ARRAY) 4 size.

(** kernel/transport.h:188-195, the block of SetEvalData that appends the bytes of
    a string with a terminating zero (lines 197-205 and SetString repeat it). *)
Definition append_utf8 (s : st) (buf : list Z) : st :=
  let len := Z.of_nat (length buf) in
  AppendBuffer (AppendValue (AppendType s STRING_UTF8) 4 len) (len + 1) (buf ++ [0]).

(** kernel/transport.h:212-222, TransportData::SetString. *)
Definition SetString (s : st) (buf : list Z) : st := append_utf8 (Clear s) buf.

(** kernel/transport.h:180-206, TransportData::SetEvalData. *)
Definition SetEvalData (s : st) (buf filename : list Z) : st :=
  append_utf8 (append_utf8 (AppendValue (AppendType (Clear s) ARRAY) 4 2) buf) filename.

(** kernel/transport.cc:128-146, the type of a view. *)
Definition view_type (k : view) : option Type_ :=
  match k with
  | Uint8Array => Some TYPEDARRAY_UINT8
  | Uint16Array => Some TYPEDARRAY_UINT16
  | Uint32Array => Some TYPEDARRAY_UINT32
  | DataView => Some TYPEDARRAY_DATAVIEW
  | Int8Array => Some TYPEDARRAY_INT8
  | Int16Array => Some TYPEDARRAY_INT16
  | Int32Array => Some TYPEDARRAY_INT32
  | Uint8ClampedArray => Some TYPEDARRAY_UINT8_CLAMPED
  | OtherView => None
  end.

(** deps/v8/src/objects.cc:18692-18698, JSArrayBuffer::Neuter. *)
Definition neutered (x : JSArrayBuffer) : JSArrayBuffer := mkBuf 0 0 (is_external x) (is_neuterable x) true.
Definition neuter_obj (o : obj) : obj :=
  match o with OArrayBuffer x => OArrayBuffer (neutered x) | o => o end.

(** deps/v8/src/api.cc:6799-6811, v8::ArrayBuffer::Neuter: a buffer that is not external, or
    not neuterable, stops the machine. *)
Definition Neuter (s : st) (b : Z) (x : JSArrayBuffer) : outcome st :=
  _ ← rt_assert (is_external x) "Only externalized ArrayBuffers can be neutered";
  _ ← rt_assert (is_neuterable x) "Only neuterable ArrayBuffers can be neutered";
  Ret (mkSt (alter neuter_obj b (heap s)) (data_ s) (exports s)).

(** deps/v8/src/objects-inl.h:6753-6768, JSArrayBufferView::byte_offset and byte_length (and
    the number of elements, lines 6789-6800): zero once the buffer [x] was neutered. *)
Definition view_reads (x : JSArrayBuffer) (field : Z) : Z := if was_neutered x then 0 else field.

(** kernel/transport.cc:99-116, SerializeValue of an ArrayBuffer. *)
Definition serialize_buffer (s : st) (b : Z) (x : JSArrayBuffer) : outcome (SerializeError * st) :=
  let s := AppendType s ARRAYBUFFER in
  if 0 =? byte_length x then Ret (EMPTY_BUFFER, s)
  else
    s ← Neuter (AppendValue (AppendValue s 8 (backing_store x)) 8 (byte_length x)) b x;
    Ret (NONE, s).

(** kernel/transport.cc:118-162, SerializeValue of an ArrayBufferView. *)
Definition serialize_view (s : st) (k : view) (b offset len : Z) : outcome (SerializeError * st) :=
  match heap s !! b with
  | Some (OArrayBuffer x) =>
      if 0 =? byte_length x then Ret (EMPTY_BUFFER, s)
      else
        match view_type k with
        | None => Ret (TYPEDARRAY_VIEW, s)
        | Some t =>
            let s := AppendType s t in
            let s := AppendValue (AppendValue s 8 (backing_store x)) 8 (byte_length x) in
            let s := AppendValue (AppendValue s 8 (view_reads x offset)) 8 (view_reads x len) in
            s ← Neuter s b x;
            Ret (NONE, s)
        end
  | _ => Fatal "view without buffer"
  end.

(** The text [<no error message>]. *)
Definition no_error_message : list Z :=
  [60; 110; 111; 32; 101; 114; 114; 111; 114; 32; 109; 101; 115; 115; 97; 103; 101; 62].

(** Thread::AddExport. *)
Definition AddExport (s : st) (a : Z) : Z * st :=
  (new_efn (length (exports s)), mkSt (heap s) (data_ s) (exports s ++ [a])).

(** kernel/transport.cc:194-199, the loop of SerializeValue over the elements of an
    array; lines 267-282 run it over the keys and values of an object. *)
Fixpoint serialize_list (ser : st -> value -> outcome (SerializeError * st)) (s : st)
  (vs : list value) : outcome (SerializeError * st) :=
  match vs with
  | [] => Ret (NONE, s)
  | v :: vs' =>
      '(err, s1) ← ser s v;
      if decide (NONE = err) then serialize_list ser s1 vs' else Ret (err, s1)
  end.

(** The keys and values of an object in the order they are written. *)
Definition flatten (props : list (value * value)) : list value :=
  concat (map (fun kv => [kv.1; kv.2]) props).

(** kernel/transport.cc:74-288, TransportData::SerializeValue. *)
Fixpoint SerializeValue (fuel : nat) (s : st) (v : value) (stack_level : Z)
  : outcome (SerializeError * st) :=
  if stack_level >? kMaxStackSize then Ret (MAX_STACK, s)
  else
    match fuel with
    | O => OutOfFuel
    | S n =>
        match v with
        | VUndefined => Ret (NONE, AppendType s UNDEFINED)
        | VNull => Ret (NONE, AppendType s NUL)
        | VBool b => Ret (NONE, AppendType s (if b then BOOL_TRUE else BOOL_FALSE))
        | VInt32 z => Ret (NONE, AppendValue (AppendType s INT32) 4 z)
        | VUint32 z => Ret (NONE, AppendValue (AppendType s UINT32) 4 z)
        | VDouble bits => Ret (NONE, AppendValue (AppendType s DOUBLE) 8 bits)
        | VString units => Ret (NONE, AppendString s units)
        | VSymbol => Ret (INVALID_TYPE, s)
        | VRef a =>
            match heap s !! a with
            | None => Fatal "no such object"
            | Some (OArrayBuffer x) => serialize_buffer s a x
            | Some (OView k b offset len) => serialize_view s k b offset len
            | Some (OArray elems) =>
                let s := AppendValue (AppendType s ARRAY) 4 (Z.of_nat (length elems)) in
                serialize_list (fun s v => SerializeValue n s v (stack_level + 1)) s elems
            | Some OFunction =>
                let '(efn, s) := AddExport s a in
                Ret (NONE, AppendValue (AppendType s FUNCTION) 8 efn)
            | Some (OError msg) =>
                let s := AppendType s ERROR_OBJ in
                Ret (NONE, match msg with
                           | VString units => AppendString s units
                           | _ => AppendString s no_error_message
                           end)
            | Some (ONative true ptr) => Ret (NONE, AppendValue (AppendType s FUNCTION) 8 ptr)
            | Some (ONative false ptr) =>
                match Clone ptr with
                | Some clone => Ret (NONE, AppendValue (AppendType s NATIVE_OBJECT) 8 clone)
                | None => Ret (NOT_CLONABLE, s)
                end
            | Some (OObject props) =>
                let s := AppendValue (AppendType s HASHMAP) 4 (Z.of_nat (length props)) in
                serialize_list (fun s v => SerializeValue n s v (stack_level + 1)) s (flatten props)
            end
        end
    end.

(** The nesting stops at level 129. *)
Definition kFuel : nat := 128.

(** kernel/transport.cc:34-46, TransportData::MoveValue. *)
Definition MoveValue (s : st) (v : value) : outcome (SerializeError * st) :=
  '(err, s1) ← SerializeValue kFuel (Clear s) v 1;
  if decide (NONE = err) then Ret (err, s1) else Ret (err, SetUndefined s1).

(** kernel/transport.cc:24-32, TransportData::PushArrayElement. *)
Definition PushArrayElement (s : st) (v : value) : outcome (SerializeError * st) :=
  '(err, s1) ← SerializeValue kFuel s v 1;
  if decide (NONE = err) then Ret (NONE, s1) else Ret (err, SetUndefined s1).

(** kernel/transport.cc:48-72, TransportData::MoveArgs. *)
Definition MoveArgs (s : st) (args : list value) : outcome (SerializeError * st) :=
  let s := Clear s in
  match args with
  | [] => Ret (NONE, AppendType s EMPTY_ARRAY)
  | _ =>
      let s := AppendValue (AppendType s ARRAY) 4 (Z.of_nat (length args)) in
      '(err, s1) ← serialize_list (fun s v => SerializeValue kFuel s v 1) s args;
      if decide (NONE = err) then Ret (NONE, s1) else Ret (err, SetUndefined s1)
  end.

(** ** Reading

    The values made by the receiver; an object is the list of its [Set] calls,
    a string that is read from UTF-8 its bytes. *)
Inductive jsval : Type :=
  | JUndefined | JNull | JBool (b : bool)
  | JInt32 (z : Z) | JUint32 (z : Z) | JDouble (bits : Z)
  | JString (units : list Z) | JUtf8 (bytes : list Z)
  | JArrayBuffer (data len : Z)
  | JView (kind : view) (data blen offset count : Z)
  | JArray (elems : list jsval)
  | JObject (props : list (jsval * jsval))
  | JNative (ptr : Z)
  | JError (msg : jsval).

(** kernel/transport.h:93-102, ByteStreamReader::ReadValue, for a type of [n]
    bytes; the reader is the part of the stream from [pos_] on. *)
Definition ReadValue (n : Z) (r : list Z) : outcome (Z * list Z) :=
  _ ← rt_assert (n <=? Z.of_nat (length r)) "pos_ + valsize <= stream_.data_.size()";
  Ret (little_endian_to_Z 8 (take (Z.to_nat n) r), drop (Z.to_nat n) r).

(** kernel/transport.h:108-113, ByteStreamReader::ReadBuffer. *)
Definition ReadBuffer (len : Z) (r : list Z) : outcome (list Z * list Z) :=
  let len := u32 len in
  _ ← rt_assert (len <=? Z.of_nat (length r)) "pos_ + len <= stream_.data_.size()";
  Ret (take (Z.to_nat len) r, drop (Z.to_nat len) r).

(** The 16-bit units stored in bytes. *)
Fixpoint bytes_units (n : nat) (bs : list Z) : list Z :=
  match n with
  | O => []
  | S n' => little_endian_to_Z 8 (take 2 bs) :: bytes_units n' (drop 2 bs)
  end.

(** kernel/transport.cc:301-306, TYPEDARRAY_READ, and the view made with the byte
    length shifted right by [sh]. *)
Definition read_view (k : view) (sh : Z) (r : list Z) : outcome (jsval * list Z) :=
  '(buf, r) ← ReadValue 8 r;
  '(len, r) ← ReadValue 8 r;
  '(byte_offset, r) ← ReadValue 8 r;
  '(byte_length, r) ← ReadValue 8 r;
  Ret (JView k buf len byte_offset (Z.shiftr byte_length sh), r).

(** kernel/transport.cc:391-393, the loop of UnpackValue over the elements of an array. *)
Fixpoint unpack_list (unpack : list Z -> outcome (jsval * list Z)) (n : nat) (r : list Z)
  : outcome (list jsval * list Z) :=
  match n with
  | O => Ret ([], r)
  | S n' => '(v, r) ← unpack r; '(vs, r) ← unpack_list unpack n' r; Ret (v :: vs, r)
  end.

(** kernel/transport.cc:399-403, the loop of UnpackValue over the properties of an object. *)
Fixpoint unpack_props (unpack : list Z -> outcome (jsval * list Z)) (n : nat) (r : list Z)
  : outcome (list (jsval * jsval) * list Z) :=
  match n with
  | O => Ret ([], r)
  | S n' =>
      '(k, r) ← unpack r; '(v, r) ← unpack r;
      '(ps, r) ← unpack_props unpack n' r; Ret ((k, v) :: ps, r)
  end.

(** kernel/transport.cc:308-424, TransportData::UnpackValue. *)
Fixpoint UnpackValue (fuel : nat) (r : list Z) : outcome (jsval * list Z) :=
  match fuel with
  | O => OutOfFuel
  | S n =>
      '(t, r) ← ReadValue 1 r;
      match of_code t with
      | Some UNDEFINED | Some FUNCTION => Ret (JUndefined, r)
      | Some NUL => Ret (JNull, r)
      | Some STRING_UTF8 =>
          '(len, r) ← ReadValue 4 r;
          '(bs, r) ← ReadBuffer (len + 1) r;
          Ret (JUtf8 (take (Z.to_nat len) bs), r)
      | Some STRING_16 =>
          '(len, r) ← ReadValue 4 r;
          '(bs, r) ← ReadBuffer (u32 (len + 1) * 2) r;
          Ret (JString (bytes_units (Z.to_nat len) bs), r)
      | Some INT32 => '(z, r) ← ReadValue 4 r; Ret (JInt32 (sign_of 32 z), r)
      | Some UINT32 => '(z, r) ← ReadValue 4 r; Ret (JUint32 z, r)
      | Some DOUBLE => '(z, r) ← ReadValue 8 r; Ret (JDouble z, r)
      | Some BOOL_TRUE => Ret (JBool true, r)
      | Some BOOL_FALSE => Ret (JBool false, r)
      | Some ARRAYBUFFER =>
          '(buf, r) ← ReadValue 8 r; '(len, r) ← ReadValue 8 r; Ret (JArrayBuffer buf len, r)
      | Some TYPEDARRAY_UINT8 => read_view Uint8Array 0 r
      | Some TYPEDARRAY_UINT8_CLAMPED => read_view Uint8ClampedArray 0 r
      | Some TYPEDARRAY_UINT16 => read_view Uint16Array 1 r
      | Some TYPEDARRAY_UINT32 => read_view Uint32Array 2 r
      | Some TYPEDARRAY_INT8 => read_view Int8Array 0 r
      | Some TYPEDARRAY_INT16 => read_view Int16Array 1 r
      | Some TYPEDARRAY_INT32 => read_view Int32Array 2 r
      | Some TYPEDARRAY_DATAVIEW => read_view DataView 0 r
      | Some EMPTY_ARRAY => Ret (JArray [], r)
      | Some ARRAY =>
          '(len, r) ← ReadValue 4 r;
          '(vs, r) ← unpack_list (UnpackValue n) (Z.to_nat len) r;
          Ret (JArray vs, r)
      | Some HASHMAP =>
          '(len, r) ← ReadValue 4 r;
          '(ps, r) ← unpack_props (UnpackValue n) (Z.to_nat len) r;
          Ret (JObject ps, r)
      | Some NATIVE_OBJECT =>
          '(ptr, r) ← ReadValue 8 r;
          _ ← rt_assert (negb (ptr =? 0)) "baseptr";
          Ret (JNative ptr, r)
      | Some ERROR_OBJ => '(v, r) ← UnpackValue n r; Ret (JError v, r)
      | None => Fatal "unknown data type"
      end
  end.

(** kernel/transport.cc:290-299, TransportData::Unpack.  Each call reads at least
    the byte of its type, so the length of the stream is enough fuel. *)
Definition Unpack (s : st) : outcome jsval :=
  _ ← rt_assert (negb (Nat.eqb (length (data_ s)) 0)) "!stream_.empty()";
  '(v, _) ← UnpackValue (S (length (data_ s))) (data_ s); Ret v.

(** ** Termination *)

Lemma serialize_list_total ser vs : forall s,
  (forall s v, ser s v <> OutOfFuel) -> serialize_list ser s vs <> OutOfFuel.
Proof.
  induction vs as [| v vs IH]; intros s Hs; cbn; [done |].
  pose proof (Hs s v). destruct (ser s v) as [[err s1] | |]; [| done | done]. cbn.
  case_decide; [by apply IH | done].
Qed.

Lemma SerializeValue_total fuel : forall s v level,
  129 <= level + Z.of_nat fuel -> SerializeValue fuel s v level <> OutOfFuel.
Proof.
  induction fuel as [| n IH]; intros s v level Hl; cbn [SerializeValue];
    destruct (Z.gtb_spec level kMaxStackSize) as [Hg | Hg]; try done; unfold kMaxStackSize in Hg; [lia |].
  assert (forall s vs, serialize_list (fun s v => SerializeValue n s v (level + 1)) s vs <> OutOfFuel) as K.
  { intros s1 vs. apply serialize_list_total. intros s2 v2. apply IH. lia. }
  assert (forall s b x, Neuter s b x <> OutOfFuel) as N
    by (intros s1 b x; unfold Neuter; by destruct (is_external x), (is_neuterable x)).
  destruct v; try done. destruct (heap s !! addr) as [[] |]; try done; try apply K.
  - unfold serialize_buffer. destruct (0 =? byte_length b); [done |].
    match goal with |- context [Neuter ?s1 addr b] => pose proof (N s1 addr b); by destruct (Neuter s1 addr b) end.
  - unfold serialize_view. destruct (heap s !! buffer) as [[x | | | | | |] |]; try done.
    destruct (0 =? byte_length x); [done |]. destruct (view_type kind); [| done].
    match goal with |- context [Neuter ?s1 buffer x] => pose proof (N s1 buffer x); by destruct (Neuter s1 buffer x) end.
  - destruct is_function; [done |]. by destruct (Clone ptr).
Qed.

(** ** Decoding the primitive parts *)

Lemma ReadValue_app n z r :
  0 <= n -> ReadValue n (le_bytes n z ++ r) = Ret (wrap (8 * n) z, r).
Proof.
  intros Hn. unfold ReadValue.
  pose proof (length_le_bytes n z Hn) as L.
  rewrite (proj2 (Z.leb_le _ _)) by (rewrite length_app; lia). cbn [rt_assert mbind outcome_bind].
  rewrite take_app_length', drop_app_length' by done.
  unfold le_bytes, wrap. rewrite little_endian_to_Z_to_little_endian by lia.
  by replace (n * 8) with (8 * n) by lia.
Qed.

Lemma ReadBuffer_app bs r :
  Z.of_nat (length bs) < 2 ^ 32 -> ReadBuffer (Z.of_nat (length bs)) (bs ++ r) = Ret (bs, r).
Proof.
  intros Hb. unfold ReadBuffer, u32. rewrite wrap_small by (red; lia).
  rewrite (proj2 (Z.leb_le _ _)) by (rewrite length_app; lia). cbn [rt_assert mbind outcome_bind].
  by rewrite Nat2Z.id, take_app_length, drop_app_length.
Qed.

Lemma of_code_code t : of_code (code t) = Some t.
Proof. by destruct t. Qed.

Lemma ReadType_app t r : ReadValue 1 (le_bytes 1 (code t) ++ r) = Ret (code t, r).
Proof. rewrite ReadValue_app by done. by destruct t. Qed.

Lemma length_units us : length (units_bytes us) = (2 * length us)%nat.
Proof.
  unfold units_bytes. induction us as [| u us IH]; [done |]. cbn [map concat].
  rewrite length_app, IH, length_le_bytes by lia. simpl. lia.
Qed.

Lemma bytes_units_app us r :
  Forall (in_range 16) us -> bytes_units (length us) (units_bytes us ++ r) = us.
Proof.
  induction us as [| u us IH]; intros F; [done |]. apply Forall_cons in F as [Hu F].
  unfold units_bytes. cbn [map concat length bytes_units]. rewrite <- app_assoc.
  assert (length (le_bytes 2 u) = 2%nat) as L by (by rewrite length_le_bytes).
  rewrite (take_app_length' (le_bytes 2 u)), (drop_app_length' (le_bytes 2 u)) by done.
  fold (units_bytes us). rewrite IH by done. f_equal.
  unfold le_bytes. rewrite little_endian_to_Z_to_little_endian by lia. apply Z.mod_small, Hu.
Qed.

(** The bytes [bs] are read as [t], whatever follows. *)
Definition decodes (bs : list Z) (t : jsval) : Prop :=
  (0 < length bs)%nat /\
  forall rest fuel, (length bs <= fuel)%nat -> UnpackValue fuel (bs ++ rest) = Ret (t, rest).

(** A type byte followed by a body. *)
Lemma decodes_intro ty body v :
  (forall rest n, (length body <= n)%nat ->
     match UnpackValue (S n) (le_bytes 1 (code ty) ++ body ++ rest) with
     | Ret x => x = (v, rest) | _ => False end) ->
  decodes (le_bytes 1 (code ty) ++ body) v.
Proof.
  intros K. assert (length (le_bytes 1 (code ty)) = 1%nat) as L
    by (by rewrite length_le_bytes).
  split; [rewrite length_app; lia |]. intros rest fuel Hf. rewrite length_app in Hf.
  destruct fuel as [| n]; [lia |]. specialize (K rest n ltac:(lia)). rewrite <- app_assoc.
  destruct (UnpackValue (S n) _); by subst.
Qed.

Ltac unpack_step :=
  let rest := fresh "rest" in let n := fresh "fuel" in let Hn := fresh "Hfuel" in
  apply decodes_intro; intros rest n Hn; cbn [UnpackValue];
  rewrite ReadType_app; cbn [mbind outcome_bind]; rewrite of_code_code; cbv iota.

Lemma decodes_type ty v :
  (ty, v) ∈ [(UNDEFINED, JUndefined); (NUL, JNull); (BOOL_TRUE, JBool true); (BOOL_FALSE, JBool false)] ->
  decodes (le_bytes 1 (code ty)) v.
Proof.
  intros Hin. rewrite <- (app_nil_r (le_bytes 1 (code ty))).
  repeat (apply elem_of_cons in Hin as [[= -> ->] | Hin]; [by unpack_step |]).
  by apply elem_of_nil in Hin.
Qed.

Lemma decodes_int32 z :
  - 2 ^ 31 <= z < 2 ^ 31 -> decodes (le_bytes 1 (code INT32) ++ le_bytes 4 z) (JInt32 z).
Proof.
  intros Hz. unpack_step. rewrite ReadValue_app by done. cbn [mbind outcome_bind].
  change (8 * 4) with 32. do 2 f_equal. unfold sign_of. rewrite wrap_idemp.
  by apply (sign_of_small 32).
Qed.

Lemma decodes_uint32 z :
  in_range 32 z -> decodes (le_bytes 1 (code UINT32) ++ le_bytes 4 z) (JUint32 z).
Proof.
  intros Hz. unpack_step. rewrite ReadValue_app by done. cbn [mbind outcome_bind].
  by rewrite wrap_small.
Qed.

Lemma decodes_double z :
  in_range 64 z -> decodes (le_bytes 1 (code DOUBLE) ++ le_bytes 8 z) (JDouble z).
Proof.
  intros Hz. unpack_step. rewrite ReadValue_app by done. cbn [mbind outcome_bind].
  by rewrite wrap_small.
Qed.

(** A string as the stream stores it. *)
Definition string_bytes (us : list Z) : list Z :=
  le_bytes 1 (code STRING_16) ++ le_bytes 4 (Z.of_nat (length us)) ++ units_bytes us ++ [0; 0].

Definition string_ok (us : list Z) : Prop :=
  Z.of_nat (length us) < 2 ^ 30 /\ Forall (in_range 16) us.

Lemma AppendString_bytes s us :
  string_ok us -> AppendString s us = set_data s (data_ s ++ string_bytes us).
Proof.
  intros [Hl _]. unfold AppendString, AppendBuffer, AppendValue, AppendType, set_data, string_bytes. cbn.
  f_equal. rewrite <- !app_assoc. do 3 f_equal. unfold u32. rewrite wrap_small by (red; lia).
  replace (Z.to_nat ((Z.of_nat (length us) + 1) * 2) - length (units_bytes us))%nat with 2%nat
    by (rewrite length_units; lia).
  apply take_ge. rewrite length_app, length_units. simpl. lia.
Qed.

Lemma decodes_string us : string_ok us -> decodes (string_bytes us) (JString us).
Proof.
  intros [Hl Hu]. unfold string_bytes. unpack_step. rewrite <- app_assoc.
  rewrite ReadValue_app by done. cbn [mbind outcome_bind]. rewrite wrap_small by (red; lia).
  unfold u32. rewrite wrap_small by (red; lia).
  replace ((Z.of_nat (length us) + 1) * 2) with (Z.of_nat (length (units_bytes us ++ [0; 0])))
    by (rewrite length_app, length_units; simpl; lia).
  rewrite ReadBuffer_app by (rewrite length_app, length_units; simpl; lia).
  cbn [mbind outcome_bind]. rewrite Nat2Z.id. by rewrite bytes_units_app.
Qed.

Lemma decodes_error us :
  string_ok us -> decodes (le_bytes 1 (code ERROR_OBJ) ++ string_bytes us) (JError (JString us)).
Proof.
  intros Hu. unpack_step. destruct (decodes_string us Hu) as [_ D]. by rewrite D.
Qed.

Lemma decodes_native p :
  in_range 64 p -> p <> 0 -> decodes (le_bytes 1 (code NATIVE_OBJECT) ++ le_bytes 8 p) (JNative p).
Proof.
  intros Hp Hnz. unpack_step. rewrite ReadValue_app by done. cbn [mbind outcome_bind].
  rewrite wrap_small by done. by rewrite (proj2 (Z.eqb_neq p 0)).
Qed.

Lemma decodes_buffer d l :
  in_range 64 d -> in_range 64 l ->
  decodes (le_bytes 1 (code ARRAYBUFFER) ++ le_bytes 8 d ++ le_bytes 8 l) (JArrayBuffer d l).
Proof.
  intros Hd Hl. unpack_step. rewrite <- app_assoc, ReadValue_app by done. cbn [mbind outcome_bind].
  rewrite ReadValue_app by done. cbn [mbind outcome_bind]. by rewrite !wrap_small.
Qed.

(** The shift of the byte length of a view. *)
Definition view_shift (k : view) : Z :=
  match k with
  | Uint16Array | Int16Array => 1
  | Uint32Array | Int32Array => 2
  | _ => 0
  end.

Lemma decodes_view k ty d l o n :
  view_type k = Some ty -> in_range 64 d -> in_range 64 l -> in_range 64 o -> in_range 64 n ->
  decodes (le_bytes 1 (code ty) ++ le_bytes 8 d ++ le_bytes 8 l ++ le_bytes 8 o ++ le_bytes 8 n)
    (JView k d l o (Z.shiftr n (view_shift k))).
Proof.
  intros Ht Hd Hl Ho Hn.
  assert (forall rest, read_view k (view_shift k)
    ((le_bytes 8 d ++ le_bytes 8 l ++ le_bytes 8 o ++ le_bytes 8 n) ++ rest) =
    Ret (JView k d l o (Z.shiftr n (view_shift k)), rest)) as K.
  { intros rest. unfold read_view. rewrite <- !app_assoc.
    do 4 (rewrite ReadValue_app by done; cbn [mbind outcome_bind]; rewrite wrap_small by done). done. }
  destruct k; cbn [view_type] in Ht; simplify_eq; unpack_step; cbn [view_shift] in K; by rewrite K.
Qed.

(** ** The tree a value stands for

    [reify n h v]: the value [v] of the heap [h] as the receiver should see it,
    nested at most [n] deep, and the buffers it takes, in order.  It is undefined
    for what cannot be sent (functions included, see [Unpack_loses_function]; a buffer
    has to be non-empty, external and neuterable). *)
Definition transferable (x : JSArrayBuffer) : bool :=
  negb (byte_length x =? 0) && is_external x && is_neuterable x.

Fixpoint reify_list (f : value -> option (jsval * list Z)) (vs : list value)
  : option (list jsval * list Z) :=
  match vs with
  | [] => Some ([], [])
  | v :: vs' =>
      match f v, reify_list f vs' with
      | Some (t, m), Some (ts, ms) => Some (t :: ts, m ++ ms)
      | _, _ => None
      end
  end.

Fixpoint pair_up (ts : list jsval) : list (jsval * jsval) :=
  match ts with
  | k :: v :: ts' => (k, v) :: pair_up ts'
  | _ => []
  end.

Definition error_text (msg : value) : list Z :=
  match msg with VString us => us | _ => no_error_message end.

Fixpoint reify (n : nat) (h : gmap Z obj) (v : value) : option (jsval * list Z) :=
  match n with
  | O => None
  | S n' =>
      match v with
      | VUndefined => Some (JUndefined, [])
      | VNull => Some (JNull, [])
      | VBool b => Some (JBool b, [])
      | VInt32 z => Some (JInt32 z, [])
      | VUint32 z => Some (JUint32 z, [])
      | VDouble z => Some (JDouble z, [])
      | VString us => Some (JString us, [])
      | VSymbol => None
      | VRef a =>
          match h !! a with
          | Some (OArrayBuffer x) =>
              if transferable x then Some (JArrayBuffer (backing_store x) (byte_length x), [a]) else None
          | Some (OView k b o len) =>
              match h !! b, view_type k with
              | Some (OArrayBuffer x), Some _ =>
                  if transferable x then
                    Some (JView k (backing_store x) (byte_length x) (view_reads x o)
                            (Z.shiftr (view_reads x len) (view_shift k)), [b])
                  else None
              | _, _ => None
              end
          | Some (OArray vs) =>
              match reify_list (reify n' h) vs with
              | Some (ts, m) => Some (JArray ts, m)
              | None => None
              end
          | Some (OError msg) => Some (JError (JString (error_text msg)), [])
          | Some (OObject ps) =>
              match reify_list (reify n' h) (flatten ps) with
              | Some (ts, m) => Some (JObject (pair_up ts), m)
              | None => None
              end
          | Some (ONative false p) =>
              match Clone p with Some c => Some (JNative c, []) | None => None end
          | Some (ONative true _) | Some OFunction | None => None
          end
      end
  end.

(** Values and objects with the sizes of the machine types. *)
Definition value_ok (v : value) : Prop :=
  match v with
  | VInt32 z => - 2 ^ 31 <= z < 2 ^ 31
  | VUint32 z => in_range 32 z
  | VDouble z => in_range 64 z
  | VString us => string_ok us
  | _ => True
  end.

Definition obj_ok (o : obj) : Prop :=
  match o with
  | OArrayBuffer x => in_range 64 (backing_store x) /\ in_range 64 (byte_length x)
  | OView _ _ o l => in_range 64 o /\ in_range 64 l
  | OArray vs => Z.of_nat (length vs) < 2 ^ 32 /\ Forall value_ok vs
  | OError msg => value_ok msg
  | OObject ps => Z.of_nat (length ps) < 2 ^ 32 /\ Forall (fun kv => value_ok kv.1 /\ value_ok kv.2) ps
  | _ => True
  end.

Definition heap_ok (h : gmap Z obj) : Prop := forall a o, h !! a = Some o -> obj_ok o.

(** The heap after the buffers [m] were taken. *)
Definition neuter_all (m : list Z) (h : gmap Z obj) : gmap Z obj :=
  fold_left (fun h b => alter neuter_obj b h) m h.

Lemma neuter_obj_idemp o : neuter_obj (neuter_obj o) = neuter_obj o.
Proof. by destruct o. Qed.

Lemma neuter_all_lookup m h b :
  neuter_all m h !! b = if decide (b ∈ m) then neuter_obj <$> h !! b else h !! b.
Proof.
  revert h. induction m as [| x m IH]; intros h; cbn.
  { rewrite decide_False; [done |]. apply not_elem_of_nil. }
  fold (neuter_all m (alter neuter_obj x h)). rewrite IH. destruct (decide (x = b)) as [-> | Hne].
  - rewrite lookup_alter_eq, (decide_True (P := b ∈ b :: m)) by (by apply elem_of_cons; left).
    case_decide; [| done]. rewrite <- option_fmap_compose. destruct (h !! b); cbn; by rewrite ?neuter_obj_idemp.
  - rewrite lookup_alter_ne by done. destruct (decide (b ∈ m)) as [Hb | Hb].
    + rewrite decide_True; [done |]. by apply elem_of_cons; right.
    + rewrite decide_False; [done |]. rewrite elem_of_cons. naive_solver.
Qed.

Lemma neuter_all_app m m' h : neuter_all (m ++ m') h = neuter_all m' (neuter_all m h).
Proof. apply fold_left_app. Qed.

(** The buffers a value takes are buffers that can be sent. *)
Definition buffers_of (h : gmap Z obj) (m : list Z) : Prop :=
  forall b, b ∈ m -> exists x, h !! b = Some (OArrayBuffer x) /\ transferable x = true.

Lemma reify_list_buffers h f vs : forall ts m,
  (forall v t m, f v = Some (t, m) -> buffers_of h m) ->
  reify_list f vs = Some (ts, m) -> buffers_of h m /\ length ts = length vs.
Proof.
  induction vs as [| v vs IH]; intros ts m K E; cbn in E.
  { injection E as <- <-. split; [| done]. intros b Hb. by apply not_elem_of_nil in Hb. }
  destruct (f v) as [[t m1] |] eqn:E1; [| done].
  destruct (reify_list f vs) as [[ts1 m2] |] eqn:E2; [| done]. injection E as <- <-.
  destruct (IH ts1 m2 K eq_refl) as [B L]. split; [| cbn; lia].
  intros b [Hb | Hb]%elem_of_app; [by eapply K | by apply B].
Qed.

Lemma reify_buffers n h : forall v t m, reify n h v = Some (t, m) -> buffers_of h m.
Proof.
  assert (buffers_of h []) as B0 by (intros b Hb; by apply not_elem_of_nil in Hb).
  induction n as [| n IH]; intros v t m E; cbn [reify] in E; [done |].
  destruct v; try (by injection E as <- <-); [| done].
  destruct (h !! addr) as [[x | k b o len | vs | | msg | ps | [] p] |] eqn:Ea; try done.
  - destruct (transferable x) eqn:Hx; [| done]. injection E as <- <-. intros b ->%list_elem_of_singleton. eauto.
  - destruct (h !! b) as [[x | | | | | |] |] eqn:Eb; try done. destruct (view_type k); [| done].
    destruct (transferable x) eqn:Hx; [| done]. injection E as <- <-. intros b' ->%list_elem_of_singleton. eauto.
  - destruct (reify_list _ vs) as [[ts m1] |] eqn:El; [| done]. injection E as <- <-.
    by eapply reify_list_buffers in El as [? _].
  - by injection E as <- <-.
  - destruct (reify_list _ _) as [[ts m1] |] eqn:El; [| done]. injection E as <- <-.
    by eapply reify_list_buffers in El as [? _].
  - destruct (Clone p); [| done]. by injection E as <- <-.
Qed.

(** The heap [h'] during the serialisation of a value of [h]: some buffers of [h]
    are taken already, those of [m] not. *)
Definition sim (h h' : gmap Z obj) (m : list Z) : Prop :=
  (forall b, b ∈ m -> h' !! b = h !! b) /\
  forall b, h' !! b = h !! b \/
    exists x, h !! b = Some (OArrayBuffer x) /\ h' !! b = Some (OArrayBuffer (neutered x)).

Lemma sim_other h h' m a o :
  sim h h' m -> h !! a = Some o -> (forall x, o <> OArrayBuffer x) -> h' !! a = Some o.
Proof. intros [_ S] Ea Ho. destruct (S a) as [-> | (x & E & _)]; [done |]. naive_solver. Qed.

Lemma sim_app_l h h' m m' : sim h h' (m ++ m') -> sim h h' m.
Proof. intros [S1 S2]. split; [| done]. intros b Hb. apply S1, elem_of_app. by left. Qed.

Lemma sim_neuter h h' m m' :
  sim h h' (m ++ m') -> buffers_of h m -> NoDup (m ++ m') -> sim h (neuter_all m h') m'.
Proof.
  intros [S1 S2] B (_ & D & _)%NoDup_app. split; intros b; rewrite neuter_all_lookup.
  - intros Hb. rewrite decide_False; [apply S1, elem_of_app; by right |]. intros Hm. by eapply D.
  - case_decide as Hm; [| apply S2]. right. destruct (B b Hm) as (x & E & _). exists x. split; [done |].
    destruct (S2 b) as [-> | (y & E' & ->)]; [by rewrite E |]. rewrite E in E'. by injection E' as ->.
Qed.

(** ** Reading sequences *)

Lemma unpack_list_ok bss ts rest fuel :
  Forall2 decodes bss ts -> (length (concat bss) <= fuel)%nat ->
  unpack_list (UnpackValue fuel) (length ts) (concat bss ++ rest) = Ret (ts, rest).
Proof.
  intros F. revert fuel. induction F as [| bs t bss ts [_ D] F IH]; intros fuel Hf; [done |].
  cbn [concat length unpack_list] in *. rewrite length_app in Hf. rewrite <- app_assoc, D by lia.
  cbn [mbind outcome_bind]. by rewrite IH by lia.
Qed.

Lemma unpack_props_ok k : forall bss ts rest fuel,
  Forall2 decodes bss ts -> length ts = (2 * k)%nat -> (length (concat bss) <= fuel)%nat ->
  unpack_props (UnpackValue fuel) k (concat bss ++ rest) = Ret (pair_up ts, rest).
Proof.
  induction k as [| k IH]; intros bss ts rest fuel F L Hf.
  { destruct F; [done |]. simpl in L. lia. }
  destruct F as [| b1 t1 bss ts [_ D1] F]; [simpl in L; lia |].
  destruct F as [| b2 t2 bss ts [_ D2] F]; [simpl in L; lia |].
  cbn [concat unpack_props pair_up] in *. rewrite !length_app in Hf. simpl in L.
  rewrite <- !app_assoc, D1 by lia. cbn [mbind outcome_bind].
  rewrite D2 by lia. cbn [mbind outcome_bind]. rewrite (IH bss ts) by (done || lia). done.
Qed.

Lemma decodes_array bss ts :
  Forall2 decodes bss ts -> Z.of_nat (length ts) < 2 ^ 32 ->
  decodes (le_bytes 1 (code ARRAY) ++ le_bytes 4 (Z.of_nat (length ts)) ++ concat bss) (JArray ts).
Proof.
  intros F L. unpack_step. rewrite <- app_assoc, ReadValue_app by done. cbn [mbind outcome_bind].
  rewrite wrap_small, Nat2Z.id by (red; lia). rewrite length_app in Hfuel.
  by rewrite unpack_list_ok by (done || lia).
Qed.

Lemma decodes_object k bss ts :
  Forall2 decodes bss ts -> length ts = (2 * k)%nat -> Z.of_nat k < 2 ^ 32 ->
  decodes (le_bytes 1 (code HASHMAP) ++ le_bytes 4 (Z.of_nat k) ++ concat bss) (JObject (pair_up ts)).
Proof.
  intros F L Hk. unpack_step. rewrite <- app_assoc, ReadValue_app by done. cbn [mbind outcome_bind].
  rewrite wrap_small, Nat2Z.id by (red; lia). rewrite length_app in Hfuel.
  by rewrite (unpack_props_ok k bss ts) by (done || lia).
Qed.

(** ** Serialisation writes what is read back *)

(** What one call promises: the stream grows by bytes that are read as [t], the
    buffers [m] are taken, nothing else changes. *)
Definition written (s s' : st) (t : jsval) (m : list Z) : Prop :=
  exists bs, data_ s' = data_ s ++ bs /\ exports s' = exports s /\
    heap s' = neuter_all m (heap s) /\ decodes bs t.

Lemma written_data s bs t :
  decodes bs t -> written s (set_data s (data_ s ++ bs)) t [].
Proof. intros D. by exists bs. Qed.

Section RoundTrip.
Context (h : gmap Z obj) (Hok : heap_ok h).
Context (Clone_ok : forall p c, Clone p = Some c -> in_range 64 c /\ c <> 0).

Definition ser_spec (n : nat) : Prop := forall s v t m,
  value_ok v -> sim h (heap s) m -> reify n h v = Some (t, m) -> NoDup m ->
  exists s', SerializeValue n s v (129 - Z.of_nat n) = Ret (NONE, s') /\ written s s' t m.

Lemma list_ok n (IH : ser_spec n) vs : forall s ts m,
  Forall value_ok vs -> sim h (heap s) m -> reify_list (reify n h) vs = Some (ts, m) -> NoDup m ->
  exists s' bss, serialize_list (fun s v => SerializeValue n s v (129 - Z.of_nat n)) s vs = Ret (NONE, s') /\
    data_ s' = data_ s ++ concat bss /\ exports s' = exports s /\
    heap s' = neuter_all m (heap s) /\ Forall2 decodes bss ts.
Proof.
  induction vs as [| v vs IHvs]; intros s ts m Hv Hs E Hnd; cbn in E.
  { injection E as <- <-. exists s, []. cbn. rewrite app_nil_r. split_and!; done. }
  apply Forall_cons in Hv as [Hv Hvs].
  destruct (reify n h v) as [[t m1] |] eqn:E1; [| done].
  destruct (reify_list (reify n h) vs) as [[ts1 m2] |] eqn:E2; [| done]. injection E as <- <-.
  pose proof Hnd as (Hn1 & _ & Hn2)%NoDup_app.
  destruct (IH s v t m1 Hv (sim_app_l _ _ _ _ Hs) E1 Hn1) as (s1 & Es & bs & D1 & X1 & H1 & Dec).
  destruct (IHvs s1 ts1 m2 Hvs) as (s2 & bss & Es2 & D2 & X2 & H2 & Dec2); [| done | done |].
  { rewrite H1. apply (sim_neuter _ _ m1 m2); [done | by eapply reify_buffers | done]. }
  exists s2, (bs :: bss). cbn [serialize_list]. rewrite Es. cbn [mbind outcome_bind].
  rewrite decide_True by done. split; [done |]. cbn [concat].
  rewrite D2, D1, H2, H1, neuter_all_app, app_assoc, X2. split_and!; try done. by constructor.
Qed.

Lemma no_message_ok : string_ok no_error_message.
Proof. split; [by vm_compute |]. apply (bool_decide_unpack _). vm_compute. exact I. Qed.

Lemma error_text_ok msg : value_ok msg -> string_ok (error_text msg).
Proof. destruct msg; cbn; try (intros _; apply no_message_ok). done. Qed.

Lemma flatten_ok ps :
  Forall (fun kv => value_ok kv.1 /\ value_ok kv.2) ps ->
  Forall value_ok (flatten ps) /\ length (flatten ps) = (2 * length ps)%nat.
Proof.
  unfold flatten. induction 1 as [| [k v] ps [Hk Hv] F [IH1 IH2]]; [done |]. cbn [map concat].
  split; [by repeat (apply Forall_cons; split) |]. rewrite length_app, IH2. simpl. lia.
Qed.

(** The elements of an array or of an object after their count. *)
Lemma ser_elems n (IH : ser_spec n) ty k vs s ts m t :
  Forall value_ok vs -> sim h (heap s) m -> reify_list (reify n h) vs = Some (ts, m) -> NoDup m ->
  (forall bss, length ts = length vs -> Forall2 decodes bss ts ->
     decodes (le_bytes 1 (code ty) ++ le_bytes 4 k ++ concat bss) t) ->
  exists s', serialize_list (fun s v => SerializeValue n s v (129 - Z.of_nat n)) (AppendValue (AppendType s ty) 4 k) vs =
    Ret (NONE, s') /\ written s s' t m.
Proof.
  intros Hv Hs El Hnd Hd. destruct (reify_list_buffers h _ _ _ _ (reify_buffers n h) El) as [_ L].
  destruct (list_ok n IH vs (AppendValue (AppendType s ty) 4 k) ts m Hv Hs El Hnd) as (s' & bss & -> & D & X & H' & F).
  eexists. split; [done |]. exists (le_bytes 1 (code ty) ++ le_bytes 4 k ++ concat bss).
  rewrite D. cbn. rewrite <- !app_assoc. split_and!; try done. by apply Hd.
Qed.

Lemma transferable_spec x : transferable x = true ->
  (0 =? byte_length x) = false /\
  forall s b, Neuter s b x = Ret (mkSt (alter neuter_obj b (heap s)) (data_ s) (exports s)).
Proof.
  unfold transferable, Neuter. intros [[Hl He]%andb_prop Hn]%andb_prop. rewrite He, Hn. split; [| done].
  by rewrite Z.eqb_sym, <- negb_true_iff.
Qed.

Lemma ser_ref n (IH : ser_spec n) s a t m :
  sim h (heap s) m -> reify (S n) h (VRef a) = Some (t, m) -> NoDup m ->
  exists s', SerializeValue (S n) s (VRef a) (129 - Z.of_nat (S n)) = Ret (NONE, s') /\ written s s' t m.
Proof.
  intros Hs E Hnd. cbn [reify] in E. cbn [SerializeValue].
  destruct (Z.gtb_spec (129 - Z.of_nat (S n)) kMaxStackSize) as [Hg | _]; [unfold kMaxStackSize in Hg; lia |].
  replace (129 - Z.of_nat (S n) + 1) with (129 - Z.of_nat n) by lia.
  destruct (h !! a) as [o |] eqn:Ea; [| done]. pose proof (Hok a o Ea) as Oo.
  destruct o as [x | k b o len | vs | | msg | ps | [] p]; try done.
  - destruct (transferable x) eqn:Hx; [| done]. injection E as <- <-.
    rewrite (proj1 Hs a), Ea by by apply list_elem_of_singleton. unfold serialize_buffer.
    destruct (transferable_spec x Hx) as (-> & N). rewrite N. eexists. split; [done |].
    exists (le_bytes 1 (code ARRAYBUFFER) ++ le_bytes 8 (backing_store x) ++ le_bytes 8 (byte_length x)).
    cbn. rewrite <- !app_assoc. split_and!; try done. destruct Oo. by apply decodes_buffer.
  - destruct (h !! b) as [[x | | | | | |] |] eqn:Eb; try done.
    destruct (view_type k) as [ty |] eqn:Ek; [| done].
    destruct (transferable x) eqn:Hx; [| done]. injection E as <- <-.
    rewrite (sim_other _ _ _ _ _ Hs Ea) by done. unfold serialize_view.
    rewrite (proj1 Hs b), Eb by by apply list_elem_of_singleton.
    destruct (transferable_spec x Hx) as (-> & N). rewrite Ek, N. eexists. split; [done |].
    exists (le_bytes 1 (code ty) ++ le_bytes 8 (backing_store x) ++ le_bytes 8 (byte_length x) ++
      le_bytes 8 (view_reads x o) ++ le_bytes 8 (view_reads x len)).
    cbn. rewrite <- !app_assoc. split_and!; try done.
    destruct Oo, (Hok b _ Eb). apply decodes_view; try done; unfold view_reads; by destruct (was_neutered x).
  - destruct (reify_list (reify n h) vs) as [[ts m1] |] eqn:El; [| done]. injection E as <- <-.
    rewrite (sim_other _ _ _ _ _ Hs Ea) by done. destruct Oo as [O1 O2].
    apply (ser_elems n IH _ _ _ _ ts); try done. intros bss L F. rewrite <- L. apply decodes_array; [done | lia].
  - injection E as <- <-. rewrite (sim_other _ _ _ _ _ Hs Ea) by done.
    pose proof (error_text_ok msg Oo) as Ho.
    eexists. split; [done |]. exists (le_bytes 1 (code ERROR_OBJ) ++ string_bytes (error_text msg)).
    replace (match msg with VString units => _ | _ => _ end)
      with (AppendString (AppendType s ERROR_OBJ) (error_text msg)) by by destruct msg.
    rewrite AppendString_bytes by done. cbn. rewrite <- !app_assoc. split_and!; try done.
    by apply decodes_error.
  - destruct (reify_list (reify n h) (flatten ps)) as [[ts m1] |] eqn:El; [| done]. injection E as <- <-.
    rewrite (sim_other _ _ _ _ _ Hs Ea) by done. destruct Oo as [O1 O2].
    destruct (flatten_ok ps O2) as [O3 O4]. apply (ser_elems n IH _ _ _ _ ts); try done.
    intros bss L F. apply decodes_object; [done | lia | done].
  - destruct (Clone p) as [c |] eqn:Ec; [| done]. injection E as <- <-.
    rewrite (sim_other _ _ _ _ _ Hs Ea) by done. rewrite Ec. eexists. split; [done |].
    exists (le_bytes 1 (code NATIVE_OBJECT) ++ le_bytes 8 c). cbn. rewrite <- !app_assoc.
    split_and!; try done. destruct (Clone_ok p c Ec). by apply decodes_native.
Qed.

Lemma ser_ok n : ser_spec n.
Proof.
  induction n as [| n IH]; [done |]. intros s v t m Hv Hs E Hnd.
  destruct v as [| | b | z | z | z | us | a |]; [.. | by apply ser_ref | done];
    cbn [reify] in E; injection E as <- <-; cbn [SerializeValue];
    (destruct (Z.gtb_spec (129 - Z.of_nat (S n)) kMaxStackSize) as [Hg | _];
      [unfold kMaxStackSize in Hg; lia |]);
    eexists; (split; [done |]).
  - apply written_data, decodes_type. set_solver.
  - apply written_data, decodes_type. set_solver.
  - apply written_data, decodes_type. destruct b; set_solver.
  - eexists. cbn. rewrite <- !app_assoc. split_and!; try done. by apply decodes_int32.
  - eexists. cbn. rewrite <- !app_assoc. split_and!; try done. by apply decodes_uint32.
  - eexists. cbn. rewrite <- !app_assoc. split_and!; try done. by apply decodes_double.
  - rewrite AppendString_bytes by done. by apply written_data, decodes_string.
Qed.

End RoundTrip.

Lemma decodes_Unpack s bs t : data_ s = bs -> decodes bs t -> Unpack s = Ret t.
Proof.
  intros <- [L D]. unfold Unpack. destruct (length (data_ s)) eqn:E; [lia |]. cbn [Nat.eqb negb rt_assert mbind outcome_bind].
  rewrite <- E in *. specialize (D [] (S (length (data_ s))) ltac:(lia)). rewrite app_nil_r in D.
  rewrite D. done.
Qed.

Lemma decodes_utf8 bs :
  Z.of_nat (length bs) < 2 ^ 32 - 1 ->
  decodes (le_bytes 1 (code STRING_UTF8) ++ le_bytes 4 (Z.of_nat (length bs)) ++ bs ++ [0]) (JUtf8 bs).
Proof.
  intros L. unpack_step. rewrite <- app_assoc, ReadValue_app by done. cbn [mbind outcome_bind].
  rewrite wrap_small by (red; lia).
  replace (Z.of_nat (length bs) + 1) with (Z.of_nat (length (bs ++ [0]))) by (rewrite length_app; simpl; lia).
  rewrite ReadBuffer_app by (rewrite length_app; simpl; lia). cbn [mbind outcome_bind].
  by rewrite Nat2Z.id, take_app_length.
Qed.

Lemma append_utf8_bytes s bs :
  Z.of_nat (length bs) < 2 ^ 32 - 1 ->
  append_utf8 s bs = set_data s (data_ s ++
    le_bytes 1 (code STRING_UTF8) ++ le_bytes 4 (Z.of_nat (length bs)) ++ bs ++ [0]).
Proof.
  intros L. unfold append_utf8, AppendBuffer, AppendValue, AppendType, set_data. cbn. f_equal.
  rewrite <- !app_assoc. do 3 f_equal. unfold u32. rewrite wrap_small by (red; lia).
  rewrite length_app. simpl length.
  replace (Z.to_nat (Z.of_nat (length bs) + 1) - (length bs + 1))%nat with 0%nat by lia.
  cbn [replicate]. rewrite app_nil_r. apply take_ge. rewrite length_app. simpl. lia.
Qed.

(** ** The theorems *)

(** An object as scripts see it: a view reads through its buffer. *)
Definition seen (h : gmap Z obj) (a : Z) : option obj :=
  match h !! a with
  | Some (OView k b o len) =>
      match h !! b with
      | Some (OArrayBuffer x) => Some (OView k b (view_reads x o) (view_reads x len))
      | _ => Some (OView k b o len)
      end
  | o => o
  end.

(** What is seen of [o] when the buffers [m] were taken. *)
Definition emptied (m : list Z) (a : Z) (o : obj) : obj :=
  match o with
  | OArrayBuffer x => if decide (a ∈ m) then OArrayBuffer (neutered x) else o
  | OView k b _ _ => if decide (b ∈ m) then OView k b 0 0 else o
  | _ => o
  end.

Lemma seen_neuter_all m h a : buffers_of h m -> seen (neuter_all m h) a = emptied m a <$> seen h a.
Proof.
  intros B. unfold seen. rewrite neuter_all_lookup. destruct (decide (a ∈ m)) as [Ha | Ha].
  { destruct (B a Ha) as (x & -> & _). cbn. by rewrite decide_True. }
  destruct (h !! a) as [[x | k b o len | | | | |] |]; cbn; try done.
  { by rewrite decide_False. }
  rewrite neuter_all_lookup. destruct (decide (b ∈ m)) as [Hb | Hb].
  - destruct (B b Hb) as (x & -> & _). cbn. by rewrite decide_True.
  - destruct (h !! b) as [[] |]; cbn; by rewrite decide_False.
Qed.

(** C6. Round trip: a value that can be sent (nested at most 128 deep, no function, every
    buffer of it non-empty, external, neuterable and used once) is serialised without
    error, the receiver reads exactly the tree the value stands for, and of the sender's
    objects just the buffers that travel with it are emptied, and the views of those
    buffers read as empty; every other object looks as before. *)
Theorem MoveValue_roundtrip s v t m
  (Clone_ok : forall p c, Clone p = Some c -> in_range 64 c /\ c <> 0)
  (Hh : heap_ok (heap s)) (Hv : value_ok v)
  (R : reify 128 (heap s) v = Some (t, m)) (Hnd : NoDup m) :
  exists s', MoveValue s v = Ret (NONE, s') /\ Unpack s' = Ret t /\ exports s' = exports s /\
    forall a, seen (heap s') a = emptied m a <$> seen (heap s) a.
Proof.
  destruct (ser_ok (heap s) Hh Clone_ok 128 (Clear s) v t m Hv) as (s' & E & bs & D & X & H' & Dec);
    [split; [done | by left] | done | done |].
  exists s'. unfold MoveValue, kFuel. change (129 - Z.of_nat 128) with 1 in E. rewrite E.
  cbn [mbind outcome_bind]. rewrite decide_True by done. split; [done |].
  split; [by eapply decodes_Unpack |]. split; [done |]. intros a. rewrite H'. apply seen_neuter_all.
  by eapply reify_buffers.
Qed.

(** The same for the arguments of a call: they are read back as an array. *)
Theorem MoveArgs_roundtrip s args ts m
  (Clone_ok : forall p c, Clone p = Some c -> in_range 64 c /\ c <> 0)
  (Hh : heap_ok (heap s)) (Hv : Forall value_ok args) (Hl : Z.of_nat (length args) < 2 ^ 32)
  (R : reify_list (reify 128 (heap s)) args = Some (ts, m)) (Hnd : NoDup m) :
  exists s', MoveArgs s args = Ret (NONE, s') /\ Unpack s' = Ret (JArray ts) /\
    heap s' = neuter_all m (heap s).
Proof.
  destruct args as [| v args].
  { injection R as <- <-. eexists. split; [done |]. split; [by vm_compute | done]. }
  set (s0 := AppendValue (AppendType (Clear s) ARRAY) 4 (Z.of_nat (length (v :: args)))).
  destruct (list_ok (heap s) 128 (ser_ok (heap s) Hh Clone_ok 128) (v :: args) s0 ts m Hv)
    as (s' & bss & E & D & X & H' & F); [split; [done | by left] | done | done |].
  change (129 - Z.of_nat 128) with 1 in E.
  destruct (reify_list_buffers (heap s) _ _ _ _ (reify_buffers 128 (heap s)) R) as [_ L].
  exists s'. unfold MoveArgs, kFuel. fold s0. rewrite E. cbn [mbind outcome_bind].
  rewrite decide_True by done. split; [done |]. split; [| done].
  eapply decodes_Unpack; [| apply (decodes_array bss ts F); lia].
  rewrite D, L. cbn. by rewrite <- !app_assoc.
Qed.

(** C16. Serialisation terminates on every heap, and a failed one leaves a stream
    that the receiver reads as undefined. *)
Theorem MoveValue_total s v :
  MoveValue s v <> OutOfFuel /\
  forall err s', MoveValue s v = Ret (err, s') -> err <> NONE -> Unpack s' = Ret JUndefined.
Proof.
  unfold MoveValue. pose proof (SerializeValue_total kFuel (Clear s) v 1 ltac:(done)) as T.
  destruct (SerializeValue kFuel (Clear s) v 1) as [[err s1] | |]; cbn [mbind outcome_bind]; [| done..].
  split; [by case_decide |]. intros err' s'. case_decide as E; intros [= <- <-] Hne; [by destruct Hne |].
  reflexivity.
Qed.

Lemma cycle_level n : forall s a vs,
  heap s !! a = Some (OArray (VRef a :: vs)) ->
  exists s', SerializeValue n s (VRef a) (129 - Z.of_nat n) = Ret (MAX_STACK, s') /\ heap s' = heap s.
Proof.
  induction n as [| n IH]; intros s a vs Ha; [by exists s |]. cbn [SerializeValue].
  destruct (Z.gtb_spec (129 - Z.of_nat (S n)) kMaxStackSize) as [Hg | _]; [unfold kMaxStackSize in Hg; lia |].
  rewrite Ha. cbn [serialize_list].
  replace (129 - Z.of_nat (S n) + 1) with (129 - Z.of_nat n) by lia.
  set (s0 := AppendValue _ _ _). destruct (IH s0 a vs Ha) as (s' & -> & E).
  exists s'. cbn [mbind outcome_bind]. by rewrite decide_False.
Qed.

(** An array that contains itself is refused with the stack error, and the
    sender's heap is as before. *)
Theorem MoveValue_cycle s a vs (Ha : heap s !! a = Some (OArray (VRef a :: vs))) :
  exists s', MoveValue s (VRef a) = Ret (MAX_STACK, s') /\ heap s' = heap s /\
    Unpack s' = Ret JUndefined.
Proof.
  destruct (cycle_level 128 (Clear s) a vs Ha) as (s' & E & H').
  unfold MoveValue, kFuel. change (129 - Z.of_nat 128) with 1 in E. rewrite E.
  cbn [mbind outcome_bind]. rewrite decide_False by done.
  exists (SetUndefined s'). split; [done |]. split; [done | reflexivity].
Qed.

(** One level of the serialiser, by the kind of the object. *)
Lemma SerializeValue_array n s a vs level :
  level <= kMaxStackSize -> heap s !! a = Some (OArray vs) ->
  SerializeValue (S n) s (VRef a) level =
  serialize_list (fun s v => SerializeValue n s v (level + 1))
    (AppendValue (AppendType s ARRAY) 4 (Z.of_nat (length vs))) vs.
Proof. intros Hl Ha. cbn [SerializeValue]. destruct (Z.gtb_spec level kMaxStackSize); [lia |]. by rewrite Ha. Qed.

Lemma SerializeValue_buffer n s b x level :
  level <= kMaxStackSize -> heap s !! b = Some (OArrayBuffer x) ->
  SerializeValue (S n) s (VRef b) level = serialize_buffer s b x.
Proof. intros Hl Hb. cbn [SerializeValue]. destruct (Z.gtb_spec level kMaxStackSize); [lia |]. by rewrite Hb. Qed.

Lemma SerializeValue_view n s c k b o len level :
  level <= kMaxStackSize -> heap s !! c = Some (OView k b o len) ->
  SerializeValue (S n) s (VRef c) level = serialize_view s k b o len.
Proof. intros Hl Hb. cbn [SerializeValue]. destruct (Z.gtb_spec level kMaxStackSize); [lia |]. by rewrite Hb. Qed.

Lemma SerializeValue_function n s f level :
  level <= kMaxStackSize -> heap s !! f = Some OFunction ->
  SerializeValue (S n) s (VRef f) level =
  Ret (NONE, AppendValue (AppendType (AddExport s f).2 FUNCTION) 8 (new_efn (length (exports s)))).
Proof. intros Hl Hf. cbn [SerializeValue]. destruct (Z.gtb_spec level kMaxStackSize); [lia |]. by rewrite Hf. Qed.

Definition not_external {A} : outcome A := Fatal "Only externalized ArrayBuffers can be neutered".

(** A buffer that is not external stops the machine. *)
Lemma Neuter_internal s b x : is_external x = false -> Neuter s b x = not_external.
Proof. intros E. unfold Neuter. by rewrite E. Qed.

Lemma MoveValue_internal s b x : heap s !! b = Some (OArrayBuffer x) -> byte_length x <> 0 ->
  is_external x = false -> MoveValue s (VRef b) = not_external.
Proof.
  intros Hb Hl He. unfold MoveValue. change kFuel with (S 127). rewrite (SerializeValue_buffer 127 _ b x) by done.
  unfold serialize_buffer. rewrite (proj2 (Z.eqb_neq 0 (byte_length x))) by lia. by rewrite Neuter_internal.
Qed.

Lemma MoveValue_internal_view s c k b o len ty x : heap s !! c = Some (OView k b o len) ->
  heap s !! b = Some (OArrayBuffer x) -> view_type k = Some ty -> byte_length x <> 0 -> is_external x = false ->
  MoveValue s (VRef c) = not_external.
Proof.
  intros Hc Hb Hk Hl He. unfold MoveValue. change kFuel with (S 127). rewrite (SerializeValue_view 127 _ c k b o len) by done.
  unfold serialize_view. change (heap (Clear s)) with (heap s). rewrite Hb, (proj2 (Z.eqb_neq 0 (byte_length x))), Hk by lia.
  by rewrite Neuter_internal.
Qed.

(** C17. Buffers of the sender.  Sending an array that holds the same external buffer twice
    fails, but only after the buffer was emptied: its contents are neither sent nor kept,
    and what arrives is undefined.  A non-empty buffer that is not external, as every
    buffer is that a script makes or receives, stops the machine when it is sent, alone, in
    that array or through any view of the kinds that can be sent. *)
Theorem MoveValue_shared_buffer s a b x
  (Ha : heap s !! a = Some (OArray [VRef b; VRef b])) (Hb : heap s !! b = Some (OArrayBuffer x))
  (Hl : byte_length x <> 0) :
  (is_external x = true -> is_neuterable x = true -> exists s', MoveValue s (VRef a) = Ret (EMPTY_BUFFER, s') /\
     heap s' !! b = Some (OArrayBuffer (neutered x)) /\ Unpack s' = Ret JUndefined) /\
  (is_external x = false ->
     MoveValue s (VRef a) = not_external /\ MoveValue s (VRef b) = not_external /\
     forall c k o len ty, heap s !! c = Some (OView k b o len) -> view_type k = Some ty ->
       MoveValue s (VRef c) = not_external).
Proof.
  assert (forall s, serialize_buffer s b x =
    (s ← Neuter (AppendValue (AppendValue (AppendType s ARRAYBUFFER) 8 (backing_store x)) 8 (byte_length x)) b x;
     Ret (NONE, s))) as SB
    by (intros s0; unfold serialize_buffer; by rewrite (proj2 (Z.eqb_neq 0 (byte_length x))) by lia).
  assert (forall s, MoveValue s (VRef a) = _) as MV by (intros s0; unfold MoveValue; by change kFuel with (S (S 126))).
  split.
  - intros He Hn. rewrite MV, (SerializeValue_array (S 126) (Clear s) a _ 1 ltac:(done) Ha). cbn [serialize_list].
    rewrite (SerializeValue_buffer 126 _ b x), SB by done. unfold Neuter. rewrite He, Hn. cbn [rt_assert mbind outcome_bind].
    rewrite decide_True by done.
    rewrite (SerializeValue_buffer 126 _ b (neutered x)) by (done || by cbn; rewrite lookup_alter_eq, Hb).
    cbn [serialize_buffer neutered byte_length Z.eqb mbind outcome_bind]. rewrite !decide_False by done. cbn [mbind outcome_bind].
    rewrite decide_False by done. eexists. split; [done |]. split; [| reflexivity].
    cbn. by rewrite lookup_alter_eq, Hb.
  - intros He. split; [| split].
    + rewrite MV, (SerializeValue_array (S 126) (Clear s) a _ 1 ltac:(done) Ha). cbn [serialize_list].
      rewrite (SerializeValue_buffer 126 _ b x), SB by done. by rewrite Neuter_internal.
    + by apply (MoveValue_internal s b x).
    + intros c k o len ty Hc Hk. by apply (MoveValue_internal_view s c k b o len ty x).
Qed.

(** The data of an evaluate message is read back as the array of the source and
    the file name. *)
Theorem SetEvalData_roundtrip s buf filename
  (Hb : Z.of_nat (length buf) < 2 ^ 32 - 1) (Hf : Z.of_nat (length filename) < 2 ^ 32 - 1) :
  Unpack (SetEvalData s buf filename) = Ret (JArray [JUtf8 buf; JUtf8 filename]).
Proof.
  unfold SetEvalData. rewrite !append_utf8_bytes by done.
  assert (Forall2 decodes [_; _] [JUtf8 buf; JUtf8 filename]) as F
    by (repeat apply Forall2_cons_2; [by apply decodes_utf8.. | apply Forall2_nil_2]).
  pose proof (decodes_array _ _ F eq_refl) as D.
  eapply decodes_Unpack; [| exact D]. cbn [data_ set_data concat]. rewrite app_nil_r.
  unfold AppendValue, AppendType, Clear. cbn [data_ set_data app]. by rewrite <- !app_assoc.
Qed.

(** The stream only grows. *)
Lemma serialize_list_grows ser vs : forall s err s',
  (forall s v err s', ser s v = Ret (err, s') -> exists bs, data_ s' = data_ s ++ bs) ->
  serialize_list ser s vs = Ret (err, s') -> exists bs, data_ s' = data_ s ++ bs.
Proof.
  induction vs as [| v vs IH]; intros s err s' K E; cbn in E.
  { injection E as _ <-. exists []. by rewrite app_nil_r. }
  apply bind_Ret in E as ([e1 s1] & E1 & E2). apply K in E1 as [bs1 D1].
  case_decide; [| by injection E2 as _ <-; eauto].
  apply IH in E2 as [bs2 D2]; [| done]. exists (bs1 ++ bs2). by rewrite D2, D1, app_assoc.
Qed.

Lemma Neuter_data s b x s' : Neuter s b x = Ret s' -> data_ s' = data_ s.
Proof. unfold Neuter. destruct (is_external x), (is_neuterable x); cbn; try done. by intros [= <-]. Qed.

Lemma SerializeValue_grows fuel : forall s v level err s',
  SerializeValue fuel s v level = Ret (err, s') -> exists bs, data_ s' = data_ s ++ bs.
Proof.
  assert (forall s : st, exists bs, data_ s = data_ s ++ bs) as Nil
    by (intros s; exists []; by rewrite app_nil_r).
  assert (forall s us, exists bs, data_ (AppendString s us) = data_ s ++ bs) as Str
    by (intros s us; eexists; cbn; by rewrite <- !app_assoc).
  induction fuel as [| n IH]; intros s v level err s' E; cbn [SerializeValue] in E;
    (destruct (level >? kMaxStackSize); [by injection E as _ <- |]); [done |].
  assert (forall s0 vs, serialize_list (fun s v => SerializeValue n s v (level + 1)) s0 vs = Ret (err, s') ->
    (exists bs, data_ s0 = data_ s ++ bs) -> exists bs, data_ s' = data_ s ++ bs) as K.
  { intros s0 vs E0 [bs0 D0]. apply serialize_list_grows in E0 as [bs D]; [| intros ????; apply IH].
    exists (bs0 ++ bs). by rewrite D, D0, app_assoc. }
  destruct v; try (injection E as _ <-; eexists; cbn; by rewrite <- ?app_assoc);
    try (by injection E as _ <-).
  destruct (heap s !! addr) as [[x | k b o len | vs | | msg | ps | [] p] |]; try done.
  - unfold serialize_buffer in E. destruct (0 =? byte_length x); [injection E as _ <-; eexists; cbn; by rewrite <- ?app_assoc |].
    apply bind_Ret in E as (s1 & E1%Neuter_data & [= _ <-]). rewrite E1. eexists. cbn. by rewrite <- ?app_assoc.
  - unfold serialize_view in E. destruct (heap s !! b) as [[x | | | | | |] |]; try done.
    destruct (0 =? byte_length x); [by injection E as _ <- |]. destruct (view_type k); [| by injection E as _ <-].
    apply bind_Ret in E as (s1 & E1%Neuter_data & [= _ <-]). rewrite E1. eexists. cbn. by rewrite <- ?app_assoc.
  - eapply K; [exact E |]. eexists. cbn. by rewrite <- ?app_assoc.
  - injection E as _ <-. eexists. cbn. by rewrite <- ?app_assoc.
  - injection E as _ <-. destruct msg; eexists; cbn; by rewrite <- ?app_assoc.
  - eapply K; [exact E |]. eexists. cbn. by rewrite <- ?app_assoc.
  - injection E as _ <-. eexists. cbn. by rewrite <- ?app_assoc.
  - destruct (Clone p); injection E as _ <-; [| done]. eexists. cbn. by rewrite <- ?app_assoc.
Qed.

Lemma le_bytes_first p rest :
  p `mod` 256 = 0 -> exists tl, le_bytes 8 p ++ rest = le_bytes 1 (code UNDEFINED) ++ tl.
Proof.
  intros Hp. unfold le_bytes. change 8 with (Z.succ 7) at 1. rewrite Z_to_little_endian_succ by lia.
  rewrite Z.land_ones by lia. change (2 ^ 8) with 256. rewrite Hp.
  exists (Z_to_little_endian 7 8 (p ≫ 8) ++ rest). reflexivity.
Qed.

Lemma serialize_function_first n s a f v level s' :
  level + 1 <= kMaxStackSize -> heap s !! a = Some (OArray [VRef f; v]) -> heap s !! f = Some OFunction ->
  SerializeValue (S (S n)) s (VRef a) level = Ret (NONE, s') ->
  exists bs, data_ s' = data_ s ++ le_bytes 1 (code ARRAY) ++ le_bytes 4 (Z.of_nat 2) ++
    le_bytes 1 (code FUNCTION) ++ le_bytes 8 (new_efn (length (exports s))) ++ bs.
Proof.
  intros Hl Ha Hf E. rewrite (SerializeValue_array (S n) s a _ level ltac:(lia) Ha) in E.
  cbn [serialize_list] in E. rewrite (SerializeValue_function n _ f) in E by done.
  cbn [mbind outcome_bind] in E. rewrite decide_True in E by done.
  apply bind_Ret in E as ([err s2] & E & E1). case_decide; [| by injection E1 as -> _].
  injection E1 as ->. apply SerializeValue_grows in E as [bs D].
  exists bs. rewrite D. cbn. by rewrite <- !app_assoc.
Qed.

Lemma UnpackValue_FUNCTION n r :
  UnpackValue (S n) (le_bytes 1 (code FUNCTION) ++ r) = Ret (JUndefined, r).
Proof. cbn [UnpackValue]. rewrite ReadType_app. cbn [mbind outcome_bind]. by rewrite of_code_code. Qed.

Lemma UnpackValue_UNDEFINED n r :
  UnpackValue (S n) (le_bytes 1 (code UNDEFINED) ++ r) = Ret (JUndefined, r).
Proof. cbn [UnpackValue]. rewrite ReadType_app. cbn [mbind outcome_bind]. by rewrite of_code_code. Qed.

Lemma UnpackValue_ARRAY n len r :
  in_range 32 len ->
  UnpackValue (S n) (le_bytes 1 (code ARRAY) ++ le_bytes 4 len ++ r) =
  ('(vs, r) ← unpack_list (UnpackValue n) (Z.to_nat len) r; Ret (JArray vs, r)).
Proof.
  intros Hl. cbn [UnpackValue]. rewrite ReadType_app. cbn [mbind outcome_bind].
  rewrite of_code_code. cbv iota. rewrite ReadValue_app by done. cbn [mbind outcome_bind].
  by rewrite wrap_small.
Qed.

#[local] Opaque SerializeValue UnpackValue.

Lemma MoveValue_NONE s v s' :
  MoveValue s v = Ret (NONE, s') -> SerializeValue kFuel (Clear s) v 1 = Ret (NONE, s').
Proof.
  unfold MoveValue. destruct (SerializeValue kFuel (Clear s) v 1) as [[err s1] | |]; cbn [mbind outcome_bind];
    [| done..]. case_decide; [congruence |]. intros [= -> _]. done.
Qed.

(** A function is written as its type and a pointer of eight bytes, but read back
    without the pointer: whatever follows it in the message is lost.  An array of a
    function (with an export whose address is a multiple of 256) and a value [v]
    arrives as two undefined values, for every [v] that is serialised. *)
Theorem Unpack_loses_function s a f v s'
  (Ha : heap s !! a = Some (OArray [VRef f; v])) (Hf : heap s !! f = Some OFunction)
  (Hp : new_efn (length (exports s)) `mod` 256 = 0)
  (E : MoveValue s (VRef a) = Ret (NONE, s')) :
  Unpack s' = Ret (JArray [JUndefined; JUndefined]).
Proof.
  apply MoveValue_NONE in E.
  apply (serialize_function_first 126 (Clear s) a f v) in E as [bs D]; [| done..]. cbn [Clear data_ set_data app exports] in D.
  destruct (le_bytes_first (new_efn (length (exports s))) bs Hp) as [tl Etl]. rewrite Etl in D.
  assert (exists k, length (data_ s') = S k) as [k Ek].
  { exists (Nat.pred (length (data_ s'))). rewrite D, length_app, length_le_bytes by done. lia. }
  unfold Unpack. rewrite Ek, D. cbn [Nat.eqb negb rt_assert mbind outcome_bind].
  rewrite UnpackValue_ARRAY by by vm_compute. change (Z.to_nat (Z.of_nat 2)) with 2%nat.
  cbn [unpack_list]. rewrite UnpackValue_FUNCTION. cbn [mbind outcome_bind].
  rewrite UnpackValue_UNDEFINED. reflexivity.
Qed.

End Transport.

(** ** Concrete instances *)

Definition efn0 (n : nat) : Z := 0x500000 + 256 * Z.of_nat n.

(** An array of a number, a string, a buffer and an object; an array that contains
    itself; an array with one buffer twice; an array with a function; a view; an array with
    a buffer of the script's own, twice. *)
Definition dma0 : JSArrayBuffer := mkBuf 0x7000 16 true true false.
Definition own0 : JSArrayBuffer := mkBuf 0x9000 8 false true false.
Definition heap0 : gmap Z obj :=
  <[1 := OArray [VInt32 (-5); VString [104; 105]; VRef 2; VRef 3]]>
  (<[2 := OArrayBuffer dma0]>
  (<[3 := OObject [(VString [97], VNull)]]>
  (<[4 := OArray [VRef 4]]>
  (<[5 := OArray [VRef 2; VRef 2]]>
  (<[6 := OArray [VRef 7; VInt32 9]]>
  (<[7 := OFunction]>
  (<[8 := OView Uint8Array 2 4 8]>
  (<[9 := OArrayBuffer own0]>
  (<[10 := OArray [VRef 9; VRef 9]]> ∅))))))))).
Definition st0 : st := mkSt heap0 [] [].

Lemma heap0_ok : heap_ok heap0.
Proof.
  intros a o Ha. unfold heap0 in Ha.
  repeat (apply lookup_insert_Some in Ha as [[<- <-] | [_ Ha]];
    [unfold obj_ok, value_ok, string_ok; repeat first [split | apply Forall_cons | apply Forall_nil]; done |]).
  by rewrite lookup_empty in Ha.
Qed.

Lemma MoveValue_roundtrip_witness :
  exists s', MoveValue efn0 (fun _ => None) st0 (VRef 1) = Ret (NONE, s') /\
    Unpack s' = Ret (JArray [JInt32 (-5); JString [104; 105]; JArrayBuffer 0x7000 16;
                             JObject [(JString [97], JNull)]]) /\
    seen (heap s') 2 = Some (OArrayBuffer (neutered dma0)) /\ seen (heap s') 8 = Some (OView Uint8Array 2 0 0) /\
    seen (heap s') 9 = Some (OArrayBuffer own0).
Proof.
  destruct (MoveValue_roundtrip efn0 (fun _ => None) st0 (VRef 1)
    (JArray [JInt32 (-5); JString [104; 105]; JArrayBuffer 0x7000 16; JObject [(JString [97], JNull)]]) [2])
    as (s' & E & U & _ & H').
  - intros p c [=].
  - exact heap0_ok.
  - exact I.
  - vm_compute. reflexivity.
  - apply NoDup_singleton.
  - exists s'. split; [exact E |]. split; [exact U |]. rewrite !H'. split_and!; reflexivity.
Defined.

Lemma MoveArgs_roundtrip_witness :
  exists s', MoveArgs efn0 (fun _ => None) st0 [VRef 2; VBool true] = Ret (NONE, s') /\
    Unpack s' = Ret (JArray [JArrayBuffer 0x7000 16; JBool true]).
Proof.
  destruct (MoveArgs_roundtrip efn0 (fun _ => None) st0 [VRef 2; VBool true]
    [JArrayBuffer 0x7000 16; JBool true] [2]) as (s' & E & U & _).
  - intros p c [=].
  - exact heap0_ok.
  - repeat constructor.
  - done.
  - vm_compute. reflexivity.
  - apply NoDup_singleton.
  - exists s'. exact (conj E U).
Defined.

Lemma MoveValue_cycle_witness :
  exists s', MoveValue efn0 (fun _ => None) st0 (VRef 4) = Ret (MAX_STACK, s') /\ heap s' = heap0.
Proof.
  destruct (MoveValue_cycle efn0 (fun _ => None) st0 4 [] eq_refl) as (s' & E & H' & _).
  exists s'. exact (conj E H').
Defined.

Lemma MoveValue_shared_buffer_witness :
  (exists s', MoveValue efn0 (fun _ => None) st0 (VRef 5) = Ret (EMPTY_BUFFER, s') /\
    heap s' !! 2 = Some (OArrayBuffer (neutered dma0))) /\
  MoveValue efn0 (fun _ => None) st0 (VRef 9) = not_external.
Proof.
  split.
  - destruct (MoveValue_shared_buffer efn0 (fun _ => None) st0 5 2 dma0 eq_refl eq_refl) as [P _]; [done |].
    destruct (P eq_refl eq_refl) as (s' & E & H' & _). exists s'. exact (conj E H').
  - destruct (MoveValue_shared_buffer efn0 (fun _ => None) st0 10 9 own0 eq_refl eq_refl) as [_ P]; [done |].
    exact (proj1 (proj2 (P eq_refl))).
Defined.

Lemma SetEvalData_roundtrip_witness :
  Unpack (SetEvalData st0 [49; 43; 49] [102]) = Ret (JArray [JUtf8 [49; 43; 49]; JUtf8 [102]]).
Proof. apply SetEvalData_roundtrip; done. Defined.

Definition sent0 : st :=
  match MoveValue efn0 (fun _ => None) st0 (VRef 6) with Ret (_, s) => s | _ => st0 end.

Lemma sent0_eq : MoveValue efn0 (fun _ => None) st0 (VRef 6) = Ret (NONE, sent0).
Proof. vm_compute. reflexivity. Qed.

Lemma Unpack_loses_function_witness : Unpack sent0 = Ret (JArray [JUndefined; JUndefined]).
Proof.
  apply (Unpack_loses_function efn0 (fun _ => None) st0 6 7 (VInt32 9) sent0);
    [reflexivity | reflexivity | reflexivity | exact sent0_eq].
Defined.

End TransportData.
