(* ===== verification/Engine.v ===== *)
(** * kernel/engine.h, .cc, engines.h, irq-dispatcher.h, .cc: message queues and engines

    The message queue of an engine thread, which interrupt handlers also write
    to without allocating memory, the dispatcher of interrupts, the engines of
    the processors and the accounting of buffers.  The theorems: no message that
    was accepted is lost, duplicated or reordered; when an interrupt message can
    be dropped. *)

From S2P Require Import Prelude.

(** A [std::vector] with its capacity, as the library the kernel links grows it. *)
Module Vector.

Record t (A : Type) : Type := mk { items : list A; capacity : Z }.
Arguments mk {A} items capacity.
Arguments items {A} t.
Arguments capacity {A} t.

Definition size {A} (v : t A) : Z := Z.of_nat (length (items v)).

(** [push_back] doubles the capacity when the vector is full. *)
Definition push_back {A} (v : t A) (x : A) : t A :=
  mk (items v ++ [x])
     (if size v <? capacity v then capacity v else Z.max (2 * capacity v) (size v + 1)).

Definition reserve {A} (v : t A) (n : Z) : t A := mk (items v) (Z.max (capacity v) n).

Definition empty {A} : t A := mk [] 0.

Definition ok {A} (v : t A) : Prop := size v <= capacity v.

Lemma push_back_ok {A} (v : t A) x : ok v -> ok (push_back v x).
Proof.
  unfold ok, push_back, size. cbn. rewrite length_app. simpl. intros H.
  destruct (Z.ltb_spec (Z.of_nat (length (items v))) (capacity v)); lia.
Qed.

Lemma size_nil {A} (v : t A) : size v = 0 -> items v = [].
Proof. unfold size. destruct (items v); simpl; [done | lia]. Qed.

End Vector.

Module EngineThread.

(** kernel/engine.h:32-41, ThreadMessage::Type. *)
Inductive MsgType : Type :=
  | EMPTY | EVALUATE | TIMEOUT_EVENT | IRQ_RAISE | SET_IMMEDIATE | FUNCTION_CALL
  | FUNCTION_RETURN_RESOLVE | FUNCTION_RETURN_REJECT.

#[export] Instance MsgType_eq_dec : EqDecision MsgType.
Proof. solve_decision. Defined.

(** kernel/engine.h:98-108, ThreadMessage members.  The sender is the handle of an
    engine thread, if there is one; the data is the stream of a TransportData. *)
Record ThreadMessage : Type := mkMsg {
  type_ : MsgType; sender_ : option Z; data_ : list Z; ptr_ : Z;
  recv_index_ : Z; recv_index2_ : Z; recv_index3_ : Z; ptr2_ : Z; reusable_ : bool }.

#[export] Instance ThreadMessage_eq_dec : EqDecision ThreadMessage.
Proof. solve_decision. Defined.

(** kernel/engine.h:43-56, ThreadMessage::ThreadMessage. *)
Definition new_message (type : MsgType) (sender : option Z) (data : list Z) (ptr recv_index : Z)
  : ThreadMessage := mkMsg type sender data ptr recv_index 0 0 0 false.

(** kernel/engine.h:81-83, ThreadMessage::MakeReusable. *)
Definition MakeReusable (m : ThreadMessage) : ThreadMessage :=
  mkMsg (type_ m) (sender_ m) (data_ m) (ptr_ m) (recv_index_ m) (recv_index2_ m)
        (recv_index3_ m) (ptr2_ m) true.

(** kernel/engine.h:76-79, ThreadMessage::sender. *)
Definition sender (m : ThreadMessage) : outcome Z :=
  match sender_ m with Some t => Ret t | None => Fatal "!sender_.empty()" end.

(** kernel/engine.h:113-118, EngineThread::Status. *)
Inductive Status : Type := S_EMPTY | S_NOT_STARTED | S_RUNNING | S_PAUSED.

(** kernel/engine.h:203-209, EngineThread members; an element of [messages_] can
    be null.  [is_idle] is the type of the thread. *)
Record t : Type := mk {
  status_ : Status; thread_ : option Z; messages_ : Vector.t (option ThreadMessage); is_idle : bool }.

(** kernel/engine.h:122-128, EngineThread::EngineThread. *)
Definition new (idle : bool) : t := mk S_EMPTY None Vector.empty idle.

Definition set_messages (e : t) (v : Vector.t (option ThreadMessage)) : t :=
  mk (status_ e) (thread_ e) v (is_idle e).

(** kernel/engine.h:130-142, EngineThread::TakeMessages. *)
Definition TakeMessages (e : t) : list (option ThreadMessage) * t :=
  if Vector.size (messages_ e) =? 0 then ([], e)
  else (Vector.items (messages_ e), set_messages e (Vector.reserve Vector.empty 128)).

(** kernel/engine.h:160-162, the message TakePromiseResultMessage looks for. *)
Definition is_result (promise_id : Z) (m : option ThreadMessage) : bool :=
  match m with
  | None => false
  | Some m =>
      (bool_decide (type_ m = FUNCTION_RETURN_RESOLVE) || bool_decide (type_ m = FUNCTION_RETURN_REJECT)) &&
      (recv_index_ m =? promise_id)
  end.

(** kernel/engine.h:147-170, EngineThread::TakePromiseResultMessage. *)
Definition TakePromiseResultMessage (e : t) (promise_id : Z) : outcome (option ThreadMessage * t) :=
  let v := messages_ e in
  if Vector.size v =? 0 then Ret (None, e)
  else
    match find_from (is_result promise_id) 0 (Vector.items v) with
    | None => Ret (None, e)
    | Some i =>
        match Vector.items v !! i with
        | Some (Some m) =>
            _ ← rt_assert (negb (reusable_ m)) "!message->reusable()";
            Ret (Some m, set_messages e (Vector.mk (<[i := None]> (Vector.items v)) (Vector.capacity v)))
        | _ => Fatal "message"
        end
    end.

(** kernel/engine.h:177-182, EngineThread::PushMessage. *)
Definition PushMessage (e : t) (message : ThreadMessage) : t :=
  set_messages e (Vector.push_back (messages_ e) (Some message)).

(** kernel/engine.h:188-196, EngineThread::PushMessageIRQ. *)
Definition PushMessageIRQ (e : t) (message : ThreadMessage) : t :=
  if Vector.size (messages_ e) <? Vector.capacity (messages_ e)
  then set_messages e (Vector.push_back (messages_ e) (Some message))
  else e.

(** kernel/engine.cc:21-24, EngineThread::thread. *)
Definition thread (e : t) : outcome Z :=
  match thread_ e with Some x => Ret x | None => Fatal "thread_" end.

(** ** The specification: a list of messages *)

Definition pending (e : t) : list ThreadMessage := omap id (Vector.items (messages_ e)).

Lemma pending_push e m : pending (PushMessage e m) = pending e ++ [m].
Proof. unfold pending, PushMessage. cbn. by rewrite omap_app. Qed.

Lemma pending_take e :
  omap id (TakeMessages e).1 = pending e /\ pending (TakeMessages e).2 = [].
Proof.
  unfold TakeMessages, pending. destruct (Z.eqb_spec (Vector.size (messages_ e)) 0) as [E | E]; [| done].
  cbn. by rewrite (Vector.size_nil _ E).
Qed.

(** ** Runs

    The operations of the threads and of the interrupt handlers on one queue, in
    the order the queue's lock puts them. *)
Inductive op : Type :=
  | Push (m : ThreadMessage) | PushIRQ (m : ThreadMessage) | Take | TakePromise (id : Z).

(** The messages a queue accepted and delivered so far. *)
Record run : Type := mkRun { queue : t; accepted : list ThreadMessage; delivered : list ThreadMessage }.

Definition exec (r : run) (o : op) : outcome run :=
  match o with
  | Push m => Ret (mkRun (PushMessage (queue r) m) (accepted r ++ [m]) (delivered r))
  | PushIRQ m =>
      if Vector.size (messages_ (queue r)) <? Vector.capacity (messages_ (queue r))
      then Ret (mkRun (PushMessageIRQ (queue r) m) (accepted r ++ [m]) (delivered r))
      else Ret (mkRun (PushMessageIRQ (queue r) m) (accepted r) (delivered r))
  | Take =>
      let '(ms, q) := TakeMessages (queue r) in
      Ret (mkRun q (accepted r) (delivered r ++ omap id ms))
  | TakePromise i =>
      '(m, q) ← TakePromiseResultMessage (queue r) i;
      Ret (mkRun q (accepted r) (delivered r ++ option_list m))
  end.

Fixpoint exec_all (r : run) (os : list op) : outcome run :=
  match os with
  | [] => Ret r
  | o :: os' => r' ← exec r o; exec_all r' os'
  end.

Definition start (idle : bool) : run := mkRun (new idle) [] [].

Definition is_take_promise (o : op) : bool := match o with TakePromise _ => true | _ => false end.

Lemma pending_irq e m :
  pending (PushMessageIRQ e m) =
  pending e ++ (if Vector.size (messages_ e) <? Vector.capacity (messages_ e) then [m] else []).
Proof.
  unfold PushMessageIRQ. destruct (_ <? _); [| by rewrite app_nil_r].
  unfold pending. cbn. by rewrite omap_app.
Qed.

(** Taking the result of a promise removes the first message that is its result. *)
Lemma promise_spec e i :
  match TakePromiseResultMessage e i with
  | Ret (None, e') => e' = e /\ Forall (fun m => is_result i (Some m) = false) (pending e)
  | Ret (Some m, e') =>
      exists l1 l2, pending e = l1 ++ m :: l2 /\ pending e' = l1 ++ l2 /\
        is_result i (Some m) = true /\ reusable_ m = false /\
        Forall (fun m => is_result i (Some m) = false) l1
  | Fatal _ => exists m, m ∈ pending e /\ is_result i (Some m) = true /\ reusable_ m = true
  | OutOfFuel => False
  end.
Proof.
  assert (forall l, Forall (fun m => is_result i m = false) l ->
    Forall (fun m => is_result i (Some m) = false) (omap id l)) as K.
  { induction 1 as [| [m |] l Hm Hl IH]; cbn; [done | by constructor | done]. }
  unfold TakePromiseResultMessage. destruct (Z.eqb_spec (Vector.size (messages_ e)) 0) as [E | E].
  { split; [done |]. apply K. by rewrite (Vector.size_nil _ E). }
  destruct (find_from (is_result i) 0 (Vector.items (messages_ e))) as [k |] eqn:Ef.
  2: { split; [done |]. apply K. by apply find_from_None in Ef. }
  apply find_from_Some in Ef as (j & x & -> & Hj & Hx & Hmin). cbn [Nat.add]. rewrite Hj.
  destruct x as [m |]; [| done].
  pose proof (list_elem_of_split_length _ _ _ Hj) as (l1 & l2 & El & Lj).
  assert (pending e = omap id l1 ++ m :: omap id l2) as Ep.
  { unfold pending. rewrite El, omap_app. done. }
  destruct (reusable_ m) eqn:Er; cbn.
  { exists m. split; [| done]. rewrite Ep. apply elem_of_app. right. by apply elem_of_cons; left. }
  exists (omap id l1), (omap id l2). split_and!; try done.
  - unfold pending. cbn. rewrite El. rewrite (insert_app_r_alt l1) by lia.
    replace (j - length l1)%nat with 0%nat by lia. cbn. by rewrite omap_app.
  - apply K. apply Forall_forall. intros y Hy. apply list_elem_of_lookup in Hy as [n Hn].
    apply (Hmin n y); [apply lookup_lt_Some in Hn; lia |].
    rewrite El. by apply lookup_app_l_Some.
Qed.

Definition conserved (r : run) : Prop := accepted r ≡ₚ delivered r ++ pending (queue r).

Lemma exec_conserved r o r' : conserved r -> exec r o = Ret r' -> conserved r'.
Proof.
  unfold conserved. intros C. destruct o as [m | m | | i]; cbn [exec].
  - intros [= <-]. cbn [queue accepted delivered]. rewrite pending_push, C. by rewrite app_assoc.
  - pose proof (pending_irq (queue r) m) as P. destruct (_ <? _); intros [= <-]; cbn [queue accepted delivered]; rewrite P.
    + by rewrite C, app_assoc.
    + by rewrite app_nil_r.
  - pose proof (pending_take (queue r)) as [P1 P2]. destruct (TakeMessages (queue r)) as [ms q].
    intros [= <-]. cbn in *. by rewrite P1, P2, app_nil_r.
  - pose proof (promise_spec (queue r) i) as P.
    destruct (TakePromiseResultMessage (queue r) i) as [[[m |] q] | |]; cbn [mbind outcome_bind]; [| | done..];
      intros [= <-]; cbn [queue accepted delivered].
    + destruct P as (l1 & l2 & E1 & E2 & _). rewrite C, E1, E2, <- !app_assoc.
      apply Permutation_app_head. symmetry. apply (Permutation_middle l1 l2 m).
    + destruct P as [-> _]. by rewrite app_nil_r.
Qed.

Lemma exec_all_conserved os : forall r r', conserved r -> exec_all r os = Ret r' -> conserved r'.
Proof.
  induction os as [| o os IH]; intros r r' C E; cbn in E; [by injection E as <- |].
  apply bind_Ret in E as (r1 & E1 & E2). eapply IH, E2. by eapply exec_conserved.
Qed.

Lemma exec_all_fifo os : forall r r',
  Forall (fun o => is_take_promise o = false) os ->
  accepted r = delivered r ++ pending (queue r) -> exec_all r os = Ret r' ->
  accepted r' = delivered r' ++ pending (queue r').
Proof.
  induction os as [| o os IH]; intros r r' F C E; cbn in E; [by injection E as <- |].
  apply Forall_cons in F as [Fo F]. apply bind_Ret in E as (r1 & E1 & E2). eapply IH, E2; [done |].
  destruct o as [m | m | | i]; cbn [exec] in E1; [| | | done].
  - injection E1 as <-. cbn [queue accepted delivered]. by rewrite pending_push, C, app_assoc.
  - pose proof (pending_irq (queue r) m) as P. destruct (_ <? _); injection E1 as <-; cbn [queue accepted delivered]; rewrite P.
    + by rewrite C, app_assoc.
    + by rewrite app_nil_r.
  - pose proof (pending_take (queue r)) as [P1 P2]. destruct (TakeMessages (queue r)) as [ms q].
    injection E1 as <-. cbn in *. by rewrite P1, P2, app_nil_r.
Qed.

(** C21. Conservation: in any run of the operations of a queue, by threads and by
    interrupt handlers, the messages accepted are exactly the ones delivered and
    the ones still pending; when no promise result is taken out of turn they are
    delivered in the order they were accepted. *)
Theorem queue_conserves idle os r (E : exec_all (start idle) os = Ret r) :
  accepted r ≡ₚ delivered r ++ pending (queue r) /\
  (Forall (fun o => is_take_promise o = false) os ->
   accepted r = delivered r ++ pending (queue r)).
Proof.
  split.
  - apply (exec_all_conserved os (start idle)); [apply Permutation_refl | exact E].
  - intros F. by apply (exec_all_fifo os (start idle)).
Qed.

(** Taking the result of a promise: the first pending resolve or reject message of
    that promise leaves the queue and every other message keeps its place; without
    such a message the queue is unchanged; a message that an interrupt binding owns
    is never taken (the machine stops). *)
Theorem TakePromise_correct e i :
  match TakePromiseResultMessage e i with
  | Ret (None, e') => e' = e /\ Forall (fun m => is_result i (Some m) = false) (pending e)
  | Ret (Some m, e') =>
      exists l1 l2, pending e = l1 ++ m :: l2 /\ pending e' = l1 ++ l2 /\
        is_result i (Some m) = true /\ reusable_ m = false /\
        Forall (fun m => is_result i (Some m) = false) l1
  | Fatal _ => exists m, m ∈ pending e /\ is_result i (Some m) = true /\ reusable_ m = true
  | OutOfFuel => False
  end.
Proof. exact (promise_spec e i). Qed.

(** [n] interrupt messages in a row. *)
Definition push_irqs (e : t) (ms : list ThreadMessage) : t := fold_left PushMessageIRQ ms e.

Lemma push_irqs_spec ms : forall e,
  Vector.ok (messages_ e) ->
  pending (push_irqs e ms) = pending e ++ take (Z.to_nat (Vector.capacity (messages_ e) - Vector.size (messages_ e))) ms /\
  Vector.capacity (messages_ (push_irqs e ms)) = Vector.capacity (messages_ e).
Proof.
  induction ms as [| m ms IH]; intros e Hok; cbn [push_irqs fold_left].
  { by rewrite take_nil, app_nil_r. }
  fold (push_irqs (PushMessageIRQ e m) ms). pose proof (pending_irq e m) as P.
  unfold PushMessageIRQ in *. unfold Vector.ok in Hok.
  destruct (Z.ltb_spec (Vector.size (messages_ e)) (Vector.capacity (messages_ e))) as [L | L].
  - destruct (IH (set_messages e (Vector.push_back (messages_ e) (Some m)))) as [IH1 IH2].
    { by apply Vector.push_back_ok. }
    rewrite IH1, IH2, P. unfold set_messages, Vector.push_back. cbn [messages_ Vector.capacity].
    rewrite (proj2 (Z.ltb_lt _ _)) by done. split; [| done].
    unfold Vector.size. cbn [Vector.items]. rewrite length_app, <- app_assoc. f_equal. cbn [length app].
    unfold Vector.size in L.
    replace (Z.to_nat (Vector.capacity (messages_ e) - Z.of_nat (length (Vector.items (messages_ e)))))
      with (S (Z.to_nat (Vector.capacity (messages_ e) - Z.of_nat (length (Vector.items (messages_ e)) + 1)))) by lia.
    done.
  - destruct (IH e Hok) as [IH1 IH2]. rewrite IH1, IH2. split; [| done].
    replace (Z.to_nat (Vector.capacity (messages_ e) - Vector.size (messages_ e))) with 0%nat by lia. done.
Qed.

(** C22. Interrupt messages: a burst of them never grows the queue's memory; as many are
    accepted as there is room for and the rest is dropped.  After a thread took its
    messages there is room for 128; a thread that was never sent a message has no
    room at all, so its interrupts are lost. *)
Theorem PushMessageIRQ_bounded e ms (Hok : Vector.ok (messages_ e)) :
  let room := Vector.capacity (messages_ e) - Vector.size (messages_ e) in
  pending (push_irqs e ms) = pending e ++ take (Z.to_nat room) ms /\
  Vector.capacity (messages_ (push_irqs e ms)) = Vector.capacity (messages_ e) /\
  (0 < Vector.size (messages_ e) ->
   pending (push_irqs (TakeMessages e).2 ms) = take 128 ms) /\
  (forall idle, pending (push_irqs (new idle) ms) = []).
Proof.
  intros room. destruct (push_irqs_spec ms e Hok) as [P1 P2]. split_and!; [done | done | |].
  - intros Hs. unfold TakeMessages. rewrite (proj2 (Z.eqb_neq _ _)) by lia.
    destruct (push_irqs_spec ms (set_messages e (Vector.reserve Vector.empty 128))) as [P _]; [done |].
    cbn [snd]. rewrite P. done.
  - intros idle. destruct (push_irqs_spec ms (new idle)) as [P _]; [done |]. rewrite P. done.
Qed.

(** ** Concrete instances *)

Definition msg0 : ThreadMessage := new_message EVALUATE None [1; 2] 0 0.
Definition result0 : ThreadMessage := new_message FUNCTION_RETURN_RESOLVE (Some 1) [0] 0 7.
Definition run0 : run :=
  match exec_all (start false) [Push msg0; Push result0; PushIRQ msg0; TakePromise 7; Take] with
  | Ret r => r | _ => start false
  end.

Lemma queue_conserves_witness :
  exec_all (start false) [Push msg0; Push result0; PushIRQ msg0; TakePromise 7; Take] = Ret run0 /\
  accepted run0 ≡ₚ delivered run0 ++ pending (queue run0).
Proof.
  assert (exec_all (start false) [Push msg0; Push result0; PushIRQ msg0; TakePromise 7; Take] = Ret run0)
    as E by (vm_compute; reflexivity).
  split; [exact E |]. exact (proj1 (queue_conserves false _ run0 E)).
Defined.

Lemma PushMessageIRQ_bounded_witness :
  pending (push_irqs (TakeMessages (PushMessage (new false) msg0)).2 [msg0; msg0]) = [msg0; msg0] /\
  pending (push_irqs (new false) [msg0]) = [].
Proof.
  destruct (PushMessageIRQ_bounded (PushMessage (new false) msg0) [msg0; msg0]) as (_ & _ & P & _);
    [by vm_compute |].
  destruct (PushMessageIRQ_bounded (new false) [msg0]) as (_ & _ & _ & Q); [by vm_compute |].
  split; [apply P; by vm_compute | apply Q].
Defined.

End EngineThread.

Module IrqDispatcher.
Import EngineThread.

(** kernel/irq-dispatcher.h:76-76, kIrqCount. *)
Definition kIrqCount : Z := 225.

(** kernel/irq-dispatcher.h:47-50, IRQBinding members. *)
Record IRQBinding : Type := mkBinding { thread_ : Z; b_recv_index_ : Z; reusable_msg_ : ThreadMessage }.

(** kernel/irq-dispatcher.h:30-35, IRQBinding::IRQBinding. *)
Definition IRQBinding_new (thread recv_index : Z) : IRQBinding :=
  mkBinding thread recv_index (MakeReusable (new_message IRQ_RAISE None [] 0 recv_index)).

(** kernel/irq-dispatcher.h:77-77, bindings_, with the engine threads that the
    bindings refer to. *)
Record t : Type := mk { bindings_ : list (list IRQBinding); threads : gmap Z EngineThread.t }.

(** kernel/irq-dispatcher.h:59-59, IrqDispatcher::IrqDispatcher. *)
Definition new (ths : gmap Z EngineThread.t) : t := mk (replicate (Z.to_nat kIrqCount) []) ths.

(** kernel/irq-dispatcher.h:64-69, IrqDispatcher::Bind. *)
Definition Bind (s : t) (number thread recv_index : Z) : outcome t :=
  _ ← rt_assert (number <? kIrqCount) "number < kIrqCount";
  Ret (mk (alter (fun l => l ++ [IRQBinding_new thread recv_index]) (Z.to_nat number) (bindings_ s))
          (threads s)).

(** kernel/irq-dispatcher.h:42-46, IRQBinding::Raise. *)
Definition raise_one (ths : gmap Z EngineThread.t) (b : IRQBinding) : gmap Z EngineThread.t :=
  alter (fun e => PushMessageIRQ e (reusable_msg_ b)) (thread_ b) ths.

(** kernel/irq-dispatcher.cc:20-30, IrqDispatcher::Raise. *)
Definition Raise (cpu : Z) (s : t) (number : Z) : outcome t :=
  _ ← rt_assert (0 =? cpu) "0 == Cpu::id()";
  _ ← rt_assert (number <? kIrqCount) "number < kIrqCount";
  Ret (mk (bindings_ s) (fold_left raise_one (default [] (bindings_ s !! Z.to_nat number)) (threads s))).

(** The messages that an interrupt sends to thread [x], in order. *)
Definition messages_for (s : t) (number x : Z) : list ThreadMessage :=
  map reusable_msg_ (filter (fun b => thread_ b = x) (default [] (bindings_ s !! Z.to_nat number))).

Lemma raise_all bs : forall ths x,
  fold_left raise_one bs ths !! x =
  (fun e => push_irqs e (map reusable_msg_ (filter (fun b => thread_ b = x) bs))) <$> ths !! x.
Proof.
  induction bs as [| b bs IH]; intros ths x; cbn [fold_left].
  { cbn. by destruct (ths !! x). }
  rewrite IH. unfold raise_one. destruct (decide (thread_ b = x)) as [<- | Hne].
  - rewrite lookup_alter_eq, filter_cons_True by done. cbn [map]. by destruct (ths !! thread_ b).
  - by rewrite lookup_alter_ne, filter_cons_False by done.
Qed.

(** An interrupt reaches exactly the threads bound to its number: each gets, in the
    order the bindings were made, the message of each of its bindings (as far as its
    queue has room), every other thread keeps its queue, and a binding is added at the
    end of its number only.  Interrupts outside 0 to 224, and interrupts raised on
    another processor than the first, stop the machine. *)
Theorem Raise_correct s number (Hlen : length (bindings_ s) = Z.to_nat kIrqCount) (Hn : 0 <= number) :
  (number < kIrqCount ->
   (exists s', Raise 0 s number = Ret s' /\ bindings_ s' = bindings_ s /\
      forall x, threads s' !! x = (fun e => push_irqs e (messages_for s number x)) <$> threads s !! x) /\
   forall th idx, exists s', Bind s number th idx = Ret s' /\ threads s' = threads s /\
      length (bindings_ s') = Z.to_nat kIrqCount /\
      forall k x, 0 <= k -> messages_for s' k x = messages_for s k x ++
        (if decide (k = number /\ x = th) then [reusable_msg_ (IRQBinding_new th idx)] else [])) /\
  (kIrqCount <= number -> forall cpu th idx, (exists why, Raise cpu s number = Fatal why) /\
     Bind s number th idx = Fatal "number < kIrqCount") /\
  (forall cpu, cpu <> 0 -> Raise cpu s number = Fatal "0 == Cpu::id()").
Proof.
  split_and!.
  - intros Hlt. unfold Raise, Bind. rewrite (proj2 (Z.ltb_lt _ _)) by done. split.
    + eexists. split; [done |]. split; [done |]. intros x. apply raise_all.
    + intros th idx. eexists. split; [done |]. split; [done |]. cbn [bindings_ threads].
      split; [by rewrite length_alter |]. intros k x Hk. unfold messages_for. cbn [bindings_].
      destruct (decide (k = number)) as [-> | Hne].
      * rewrite list_lookup_alter_eq.
        destruct (lookup_lt_is_Some_2 (bindings_ s) (Z.to_nat number)) as [l El]; [lia |].
        rewrite El. cbn [fmap option_fmap option_map from_option id]. rewrite filter_app, map_app. f_equal.
        destruct (decide (x = th)) as [-> | Hx].
        -- rewrite filter_cons_True, decide_True by done. done.
        -- rewrite filter_cons_False by (cbn; congruence). rewrite decide_False by naive_solver. done.
      * rewrite list_lookup_alter_ne by lia. rewrite decide_False by naive_solver. by rewrite app_nil_r.
  - intros Hge cpu th idx. unfold Raise, Bind. rewrite (proj2 (Z.ltb_ge _ _)) by done.
    split; [| done]. destruct (0 =? cpu); eauto.
  - intros cpu Hc. unfold Raise. by rewrite (proj2 (Z.eqb_neq 0 cpu)) by done.
Qed.

Definition irqs0 : t := new (<[1 := PushMessage (EngineThread.new false) msg0]> ∅).

Lemma Raise_correct_witness : exists s', Bind irqs0 5 1 42 = Ret s'.
Proof.
  destruct (Raise_correct irqs0 5) as [P _]; [by vm_compute | done |].
  destruct (P ltac:(done)) as [_ B]. destruct (B 1 42) as (s' & E & _). exists s'. exact E.
Defined.

End IrqDispatcher.

Module Engines.
Import EngineThread.

(** kernel/engine.h:213-217, EngineType. *)
Inductive EngineType : Type := DISABLED | EXECUTION | SERVICE.

#[export] Instance EngineType_eq_dec : EqDecision EngineType.
Proof. solve_decision. Defined.

(** kernel/engine.h:303-309, Engine members, with those of Engine::Threads
    (254-257); threads are named by the order of their creation. *)
Record Engine : Type := mkEngine {
  type_ : EngineType; thread_mgr_ : bool; init_ : bool;
  threads_ : list bool; new_threads_ : list nat }.

(** kernel/engine.h:260-264, Engine::Engine. *)
Definition Engine_new (type : EngineType) : Engine := mkEngine type false false [] [].

(** kernel/engine.h:229-237, Engine::Threads::Create. *)
Definition Create (e : Engine) (idle : bool) : nat * Engine :=
  (length (threads_ e),
   mkEngine (type_ e) (thread_mgr_ e) (init_ e) (threads_ e ++ [idle]) (new_threads_ e ++ [length (threads_ e)])).

(** kernel/engine.h:239-251, Engine::Threads::TakeNewThreads. *)
Definition TakeNewThreads (e : Engine) : list nat * Engine :=
  if Nat.eqb (length (threads_ e)) 0 then ([], e)
  else (new_threads_ e, mkEngine (type_ e) (thread_mgr_ e) (init_ e) (threads_ e) []).

(** kernel/engine.cc:40-71, Engine::Enter, up to the call of ThreadManager::Run.
    A disabled engine hangs; a service engine waits forever. *)
Definition Enter (e : Engine) : outcome Engine :=
  _ ← rt_assert (negb (init_ e)) "!init_";
  _ ← rt_assert (negb (thread_mgr_ e)) "!thread_mgr_";
  match type_ e with
  | DISABLED => Fatal "HangSystem"
  | SERVICE => OutOfFuel
  | EXECUTION => Ret (mkEngine (type_ e) true true (threads_ e) (new_threads_ e))
  end.

(** kernel/engines.h:286-297, Engines members (without the V8 platform). *)
Record t : Type := mk {
  cpu_count_ : Z; engines_ : list Engine; buffers_size_ : Z; buffers_count_ : Z;
  non_isolate_ticks_ : Z; global_ticks_counter_ : Z }.

(** kernel/engines.h:52-63, the body of the loop of Engines::Engines. *)
Definition new_engine (i : Z) : Engine :=
  if 9999 =? i then Engine_new SERVICE else (Create (Engine_new EXECUTION) true).2.

(** kernel/engines.h:37-63, Engines::Engines, up to the start of V8. *)
Definition new (cpu_count : Z) : outcome t :=
  _ ← rt_assert (cpu_count >=? 1) "cpu_count >= 1";
  Ret (mk cpu_count (map new_engine (seqZ 0 cpu_count)) 0 0 0 1).

(** The engines of type EXECUTION, in the order of [engines_execution_]. *)
Definition engines_execution (s : t) : list Engine :=
  filter (fun e => type_ e = EXECUTION) (engines_ s).

(** kernel/engines.h:167-169, Engines::MsPerTick. *)
Definition MsPerTick : Z := 10.

(** kernel/engines.h:172-183, the ticks that Engines::Sleep waits for. *)
Definition sleep_ticks (microseconds : Z) : Z :=
  let wait_ticks := microseconds / 1000 / MsPerTick in
  let wait_ticks := if wait_ticks <? 1 then 1 else wait_ticks in
  if wait_ticks >? 100 then 100 else wait_ticks.

(** kernel/engines.h:171-188, Engines::Sleep: [counter] lists what the loop reads
    of the tick counter; the result is the number of reads. *)
Fixpoint sleep_loop (counter : list Z) (after : Z) : outcome nat :=
  match counter with
  | [] => OutOfFuel
  | c :: counter' => if c <? after then n ← sleep_loop counter' after; Ret (S n) else Ret 1%nat
  end.

(** kernel/engines.h:171-188, Engines::Sleep. *)
Definition Sleep (s : t) (microseconds : Z) (counter : list Z) : outcome nat :=
  sleep_loop counter (u64 (global_ticks_counter_ s + sleep_ticks microseconds)).

(** kernel/engines.h:190-198, Engines::TimerTick, with NonIsolateTick; the result
    tells whether the engine of the processor was notified. *)
Definition TimerTick (s : t) (cpuid : Z) : outcome (bool * t) :=
  _ ← rt_assert (cpuid <? cpu_count_ s) "cpuid < cpu_count_";
  match engines_ s !! Z.to_nat cpuid with
  | None => Fatal "cpuid < engines_.size()"
  | Some e =>
      let ticks := u64 (global_ticks_counter_ s + 1) in
      if init_ e then
        Ret (thread_mgr_ e, mk (cpu_count_ s) (engines_ s) (buffers_size_ s) (buffers_count_ s)
                              (non_isolate_ticks_ s) ticks)
      else
        Ret (false, mk (cpu_count_ s) (engines_ s) (buffers_size_ s) (buffers_count_ s)
                       (u64 (non_isolate_ticks_ s + 1)) ticks)
  end.

(** kernel/engines.h:220-227, the tick count Engines::NonIsolateSleep waits to be exceeded. *)
Definition non_isolate_target (s : t) (ms : Z) : Z :=
  let sleep_ticks := ms / MsPerTick in
  let sleep_ticks := if sleep_ticks =? 0 then 1 else sleep_ticks in
  u64 (non_isolate_ticks_ s + sleep_ticks).

(** kernel/engines.h:230-240, the loop of Engines::NonIsolateSleep over the ticks it reads. *)
Fixpoint non_isolate_loop (ticks : list Z) (required_ticks : Z) : outcome nat :=
  match ticks with
  | [] => OutOfFuel
  | c :: ticks' =>
      if c >? required_ticks then Ret 1%nat
      else n ← non_isolate_loop ticks' required_ticks; Ret (S n)
  end.

(** kernel/engines.h:208-241, Engines::NonIsolateSleep. *)
Definition NonIsolateSleep (s : t) (cpuid ms : Z) (ticks : list Z) : outcome nat :=
  if 0 =? ms then Ret 0%nat
  else
    match engines_ s !! Z.to_nat cpuid with
    | None => Fatal "cpuid < engines_.size()"
    | Some e =>
        _ ← rt_assert (negb (init_ e)) "!engines_[cpuid]->is_init()";
        non_isolate_loop ticks (non_isolate_target s ms)
    end.

Definition set_buffers (s : t) (size count : Z) : t :=
  mk (cpu_count_ s) (engines_ s) size count (non_isolate_ticks_ s) (global_ticks_counter_ s).

(** kernel/engines.h:245-252, Engines::AllocateBuffer, with the pointer [calloc]
    returned; AllocateUninitializedBuffer (254-261) does the same with [malloc]. *)
Definition AllocateBuffer (s : t) (ptr length : Z) : Z * t :=
  if ptr =? 0 then (ptr, s)
  else (ptr, set_buffers s (u64 (buffers_size_ s + length)) (u64 (buffers_count_ s + 1))).

(** kernel/engines.h:263-271, Engines::FreeBuffer. *)
Definition FreeBuffer (s : t) (ptr length : Z) : t :=
  if ptr =? 0 then s
  else set_buffers s (u64 (buffers_size_ s - length)) (u64 (buffers_count_ s - 1)).

(** ** Buffer accounting *)

(** Runs of the buffer operations with the buffers that are live; [calloc] never
    returns a live address, and a buffer is freed with the length it was
    allocated with. *)
Inductive buffer_step : t * gmap Z Z -> t * gmap Z Z -> Prop :=
  | step_alloc s live ptr len s' :
      live !! ptr = None -> 0 <= len -> AllocateBuffer s ptr len = (ptr, s') -> ptr <> 0 ->
      buffer_step (s, live) (s', <[ptr := len]> live)
  | step_alloc_fail s live len s' :
      AllocateBuffer s 0 len = (0, s') -> buffer_step (s, live) (s', live)
  | step_free s live ptr len :
      live !! ptr = Some len -> buffer_step (s, live) (FreeBuffer s ptr len, delete ptr live)
  | step_free_null s live len : buffer_step (s, live) (FreeBuffer s 0 len, live).

Definition total (live : gmap Z Z) : Z := map_fold (fun _ len acc => len + acc) 0 live.

Definition balanced (st : t * gmap Z Z) : Prop :=
  buffers_size_ st.1 = u64 (total st.2) /\ buffers_count_ st.1 = u64 (Z.of_nat (size st.2)) /\
  st.2 !! 0 = None.

Lemma total_insert live ptr len :
  live !! ptr = None -> total (<[ptr := len]> live) = len + total live.
Proof. intros Hn. unfold total. rewrite map_fold_insert_L; [done | intros; lia | done]. Qed.

Lemma total_delete live ptr len :
  live !! ptr = Some len -> total live = len + total (delete ptr live).
Proof.
  intros Hs. rewrite <- (insert_delete_id live ptr len Hs) at 1.
  apply total_insert, lookup_delete_eq.
Qed.

Lemma u64_add a b : u64 (u64 a + b) = u64 (a + b).
Proof. unfold u64, wrap. by rewrite Zplus_mod_idemp_l. Qed.

Lemma u64_sub a b : u64 (u64 a - b) = u64 (a - b).
Proof. unfold u64, wrap. by rewrite Zminus_mod_idemp_l. Qed.

Lemma buffer_step_balanced st st' : balanced st -> buffer_step st st' -> balanced st'.
Proof.
  intros (B1 & B2 & B3) St. destruct St as [s live ptr len s' Hn Hl E Hp | s live len s' E | s live ptr len Hs | s live len];
    cbn in *.
  - unfold AllocateBuffer in E. rewrite (proj2 (Z.eqb_neq ptr 0)) in E by done. injection E as <-.
    split_and!; cbn.
    + rewrite total_insert, B1, u64_add by done. f_equal. lia.
    + rewrite map_size_insert_None, B2, u64_add by done. f_equal. lia.
    + by rewrite lookup_insert_ne.
  - injection E as <-. done.
  - assert (ptr <> 0) by congruence. unfold FreeBuffer. rewrite (proj2 (Z.eqb_neq ptr 0)) by done.
    split_and!; cbn.
    + rewrite B1, (total_delete live ptr len Hs), u64_sub. f_equal. lia.
    + rewrite B2, u64_sub. f_equal. rewrite map_size_delete_Some by eauto.
      pose proof (map_size_ne_0_lookup_2 live ptr (mk_is_Some _ _ Hs)).
      lia.
    + rewrite lookup_delete_ne by done. done.
  - done.
Qed.

(** The buffer statistics are exact: in any run of allocations and releases,
    [buffers_size] is the total length of the live buffers and [buffers_count] their
    number (modulo 2^64). *)
Theorem buffers_balanced s s' live
  (Hs : buffers_size_ s = 0) (Hc : buffers_count_ s = 0) (Run : rtc buffer_step (s, ∅) (s', live)) :
  buffers_size_ s' = u64 (total live) /\ buffers_count_ s' = u64 (Z.of_nat (size live)).
Proof.
  assert (balanced (s', live)) as (B1 & B2 & _); [| done].
  assert (balanced (s, ∅)) as B by done.
  revert B. remember (s, ∅ : gmap Z Z) as st0. remember (s', live) as st1. intros B.
  clear Heqst0 Heqst1. induction Run; eauto using buffer_step_balanced.
Qed.

(** Waiting: [Sleep] waits between 1 and 100 ticks whatever the argument, exactly one
    tick for each 10 milliseconds in between, and returns as soon as the counter has
    advanced that far; [NonIsolateSleep] waits one tick more than asked for: it still
    loops when the counter has advanced by [ms / 10] and returns at the next tick. *)
Theorem Sleep_ticks s us ms
  (Hus : 0 <= us < 2 ^ 64) (Hms : 0 <= ms < 2 ^ 32)
  (Hs : 0 <= global_ticks_counter_ s < 2 ^ 63) (Hn : 0 <= non_isolate_ticks_ s < 2 ^ 63) :
  1 <= sleep_ticks us <= 100 /\
  (10000 <= us <= 1009999 -> sleep_ticks us = us / 10000) /\
  (forall counter pre c, counter = pre ++ [c] ->
     Forall (fun x => x < global_ticks_counter_ s + sleep_ticks us) pre ->
     global_ticks_counter_ s + sleep_ticks us <= c ->
     Sleep s us counter = Ret (length counter)) /\
  (forall cpuid e ticks, 10 <= ms -> engines_ s !! Z.to_nat cpuid = Some e -> init_ e = false ->
     Forall (fun x => x <= non_isolate_ticks_ s + ms / 10) ticks ->
     NonIsolateSleep s cpuid ms ticks = OutOfFuel /\
     NonIsolateSleep s cpuid ms (ticks ++ [non_isolate_ticks_ s + ms / 10 + 1]) = Ret (S (length ticks))).
Proof.
  assert (us / 1000 / MsPerTick = us / 10000) as Ed by (unfold MsPerTick; by rewrite Z.div_div by lia).
  assert (1 <= sleep_ticks us <= 100) as Hr.
  { unfold sleep_ticks. rewrite Ed. destruct (Z.ltb_spec (us / 10000) 1); [destruct (Z.gtb_spec 1 100); lia |].
    destruct (Z.gtb_spec (us / 10000) 100); lia. }
  split_and!; [lia | lia | | |].
  - intros Hu. unfold sleep_ticks. rewrite Ed.
    assert (1 <= us / 10000) by (apply Z.div_le_lower_bound; lia).
    assert (us / 10000 <= 100) by (apply Z.lt_succ_r, Z.div_lt_upper_bound; lia).
    destruct (Z.ltb_spec (us / 10000) 1); [lia |]. destruct (Z.gtb_spec (us / 10000) 100); lia.
  - intros counter pre c -> F Hc. unfold Sleep, u64. rewrite wrap_small by (red; lia).
    induction F as [| x pre Hx F IH]; cbn [sleep_loop app].
    + by rewrite (proj2 (Z.ltb_ge _ _)) by done.
    + rewrite (proj2 (Z.ltb_lt _ _)) by done. by rewrite IH.
  - intros cpuid e ticks Hm He Hi F. unfold NonIsolateSleep. rewrite He, Hi, (proj2 (Z.eqb_neq 0 ms)) by lia.
    cbn [negb rt_assert mbind outcome_bind]. unfold non_isolate_target, MsPerTick, u64.
    assert (1 <= ms / 10) by (apply Z.div_le_lower_bound; lia).
    assert (ms / 10 < 2 ^ 32) by (apply Z.div_lt_upper_bound; lia).
    rewrite (proj2 (Z.eqb_neq (ms / 10) 0)), wrap_small by (lia || red; lia).
    induction F as [| x ticks Hx F [IH1 IH2]]; cbn [non_isolate_loop app].
    + split; [done |]. destruct (Z.gtb_spec (non_isolate_ticks_ s + ms / 10 + 1) (non_isolate_ticks_ s + ms / 10)); [done | lia].
    + destruct (Z.gtb_spec x (non_isolate_ticks_ s + ms / 10)); [lia |]. by rewrite IH1, IH2.
Qed.

Definition engines0 : t := mk 1 [new_engine 0] 0 0 0 1.

Lemma buffers_balanced_witness :
  exists s', rtc buffer_step (engines0, ∅) (s', {[4096 := 16]}) /\ buffers_size_ s' = 16.
Proof.
  exists (set_buffers engines0 16 1).
  assert (rtc buffer_step (engines0, ∅) (set_buffers engines0 16 1, {[4096 := 16]})) as R.
  { apply rtc_once. apply (step_alloc engines0 ∅ 4096 16); done. }
  split; [exact R |].
  destruct (buffers_balanced engines0 (set_buffers engines0 16 1) {[4096 := 16]} eq_refl eq_refl R) as [E _].
  rewrite E. reflexivity.
Defined.

Lemma Sleep_ticks_witness : Sleep engines0 30000 [1; 2; 3; 4] = Ret 4%nat.
Proof.
  destruct (Sleep_ticks engines0 30000 30) as (_ & _ & P & _); [done.. |].
  apply (P [1; 2; 3; 4] [1; 2; 3] 4); [done | | done]. by repeat constructor.
Defined.

End Engines.
