(* ===== verification/Timeouts.v ===== *)
(** * kernel/timeouts.h, v8platform.h, .cc: timers and the tasks of V8

    [Timeouts] is a priority queue of items with the time they are due.  The
    queue of the C++ library is an interface with its laws (the order of items
    due at the same time is left open); the theorems are proved against it and
    a list implementation shows that it can be met. *)

From S2P Require Import Prelude.
From Stdlib Require Import Sorting.Sorted.

(** [std::priority_queue] of items with a time, the earliest first. *)
Class PriorityQueue (A : Type) (Q : Type) := {
  pq_elems : Q -> list (A * Z);
  pq_empty : Q;
  pq_push : Q -> A * Z -> Q;
  pq_top : Q -> option (A * Z);
  pq_pop : Q -> Q;
  pq_empty_elems : pq_elems pq_empty = [];
  pq_push_elems q x : pq_elems (pq_push q x) ≡ₚ x :: pq_elems q;
  pq_top_None q : pq_top q = None <-> pq_elems q = [];
  pq_top_Some q x : pq_top q = Some x ->
    pq_elems q ≡ₚ x :: pq_elems (pq_pop q) /\ Forall (fun y => x.2 <= y.2) (pq_elems q) }.

Module Timeouts.

Section Timeouts.
Context {A Q : Type} `{PriorityQueue A Q}.

(** kernel/timeouts.h:59-61, Timeouts::Set. *)
Definition Set_ (q : Q) (item : A) (when_ticks : Z) : Q := pq_push q (item, when_ticks).

(** kernel/timeouts.h:63-69, Timeouts::Elapsed. *)
Definition Elapsed (q : Q) (ticks_now : Z) : bool :=
  match pq_top q with
  | None => false
  | Some top => ticks_now >=? top.2
  end.

(** kernel/timeouts.h:71-75, Timeouts::Take. *)
Definition Take (q : Q) : outcome (A * Q) :=
  match pq_top q with
  | None => Fatal "top of an empty queue"
  | Some top => Ret (top.1, pq_pop q)
  end.

(** The loop [while (Elapsed(now)) f(Take())] of the callers. *)
Fixpoint drain {S : Type} (f : S -> A -> S) (fuel : nat) (now : Z) (q : Q) (s : S) : outcome (S * Q) :=
  if Elapsed q now then
    match fuel with
    | O => OutOfFuel
    | S n => '(item, q') ← Take q; drain f n now q' (f s item)
    end
  else Ret (s, q).

(** Enough fuel for [drain]: the number of items. *)
Definition pq_size (q : Q) : nat := length (pq_elems q).

(** The items that are due are taken, in the order of their time, and the others
    stay. *)
Lemma drain_spec {S : Type} (f : S -> A -> S) fuel : forall now q s,
  (pq_size q <= fuel)%nat ->
  exists taken q', drain f fuel now q s = Ret (fold_left f (map fst taken) s, q') /\
    pq_elems q ≡ₚ taken ++ pq_elems q' /\ Forall (fun x => x.2 <= now) taken /\
    Forall (fun x => now < x.2) (pq_elems q') /\
    StronglySorted (fun x y => x.2 <= y.2) taken.
Proof.
  induction fuel as [| n IH]; intros now q s Hn; unfold pq_size in Hn; cbn [drain]; unfold Elapsed;
    destruct (pq_top q) as [top |] eqn:Et.
  - apply pq_top_Some in Et as [P _]. rewrite P in Hn. simpl in Hn. lia.
  - apply pq_top_None in Et. exists [], q. rewrite Et. split_and!; constructor.
  - destruct (pq_top_Some _ _ Et) as [P F]. destruct (Z.geb_spec now top.2) as [L | L].
    + unfold Take. rewrite Et. cbn [mbind outcome_bind].
      destruct (IH now (pq_pop q) (f s top.1)) as (taken & q' & E & P' & F1 & F2 & F3).
      { unfold pq_size. rewrite P in Hn. simpl in Hn. lia. }
      exists (top :: taken), q'. split_and!.
      * exact E.
      * by rewrite P, P'.
      * by constructor.
      * done.
      * constructor; [done |]. rewrite P, P' in F. apply Forall_cons in F as [_ F].
        by apply Forall_app in F as [F _].
    + exists [], q. split_and!; [done | done | constructor | | constructor].
      eapply Forall_impl; [exact F |]. intros x Hx. cbn in Hx. lia.
  - apply pq_top_None in Et. exists [], q. rewrite Et. split_and!; constructor.
Qed.

(** Timers: with the time [now], the loop that takes the elapsed items terminates,
    takes exactly the items due at or before [now], each once and in the order of
    their time, and leaves the others in the queue; setting a timer adds exactly that
    item. *)
Theorem drain_correct {S : Type} (f : S -> A -> S) now q s :
  (exists taken q', drain f (pq_size q) now q s = Ret (fold_left f (map fst taken) s, q') /\
    pq_elems q ≡ₚ taken ++ pq_elems q' /\ Forall (fun x => x.2 <= now) taken /\
    Forall (fun x => now < x.2) (pq_elems q') /\
    StronglySorted (fun x y => x.2 <= y.2) taken) /\
  (forall item when, pq_elems (Set_ q item when) ≡ₚ (item, when) :: pq_elems q).
Proof. split; [by apply drain_spec |]. intros item when. apply pq_push_elems. Qed.

End Timeouts.

(** A sorted list meets the interface. *)
Fixpoint insert_sorted {A} (x : A * Z) (l : list (A * Z)) : list (A * Z) :=
  match l with
  | [] => [x]
  | y :: l' => if x.2 <? y.2 then x :: y :: l' else y :: insert_sorted x l'
  end.

Lemma insert_sorted_perm {A} (x : A * Z) l : insert_sorted x l ≡ₚ x :: l.
Proof.
  induction l as [| y l IH]; [done |]. cbn. destruct (x.2 <? y.2); [done |].
  rewrite IH. apply perm_swap.
Qed.

Record sorted_list (A : Type) : Type := mkSorted {
  sl : list (A * Z); sl_sorted : StronglySorted (fun x y => x.2 <= y.2) sl }.
Arguments mkSorted {A} sl sl_sorted.
Arguments sl {A} s.

Lemma insert_sorted_sorted {A} (x : A * Z) l :
  StronglySorted (fun x y => x.2 <= y.2) l -> StronglySorted (fun x y => x.2 <= y.2) (insert_sorted x l).
Proof.
  induction 1 as [| y l Hl IH Hy]; cbn; [by repeat constructor |].
  destruct (Z.ltb_spec x.2 y.2) as [L | L].
  - constructor; [by constructor |]. constructor; [lia |].
    eapply Forall_impl; [exact Hy |]. intros z Hz. cbn in Hz. lia.
  - constructor; [done |]. rewrite insert_sorted_perm. by constructor.
Qed.

Lemma tail_sorted {A} (l : list (A * Z)) :
  StronglySorted (fun x y => x.2 <= y.2) l -> StronglySorted (fun x y => x.2 <= y.2) (tail l).
Proof. destruct 1; [constructor | done]. Qed.

#[export] Program Instance sorted_list_queue A : PriorityQueue A (sorted_list A) := {|
  pq_elems := sl;
  pq_empty := mkSorted [] _;
  pq_push q x := mkSorted (insert_sorted x (sl q)) _;
  pq_top q := head (sl q);
  pq_pop q := mkSorted (tail (sl q)) _ |}.
Next Obligation. constructor. Qed.
Next Obligation. intros A q x. apply insert_sorted_sorted, sl_sorted. Qed.
Next Obligation. intros A q. apply tail_sorted, sl_sorted. Qed.
Next Obligation. done. Qed.
Next Obligation. intros A q x. apply insert_sorted_perm. Qed.
Next Obligation. intros A [[| x l] Hl]; cbn; naive_solver. Qed.
Next Obligation.
  intros A [[| y l] Hl] x; cbn; [done |]. intros [= <-]. split; [done |].
  apply StronglySorted_inv in Hl as [_ Hl]. constructor; [lia | done].
Qed.

End Timeouts.

Module V8Platform.
Import Timeouts.

Section V8Platform.
Context {Q : Type} `{PriorityQueue Z Q}.

(** kernel/v8platform.h:40-43, V8Platform members; a task is its address. *)
Record t : Type := mk {
  background_tasks_ : list Z; foreground_tasks_ : list Z; foreground_delayed_tasks_ : Q }.

(** kernel/v8platform.cc:22-24, V8Platform::V8Platform. *)
Definition new : t := mk [] [] pq_empty.

(** kernel/v8platform.cc:39-43, V8Platform::CallOnForegroundThread. *)
Definition CallOnForegroundThread (s : t) (task : Z) : outcome t :=
  _ ← rt_assert (negb (task =? 0)) "task";
  Ret (mk (background_tasks_ s) (foreground_tasks_ s ++ [task]) (foreground_delayed_tasks_ s)).

(** kernel/v8platform.cc:45-53, V8Platform::CallDelayedOnForegroundThread; the delay
    is in microseconds, the product of the double and 10^6. *)
Definition CallDelayedOnForegroundThread (s : t) (task time_now delay_us : Z) : outcome t :=
  _ ← rt_assert (negb (task =? 0)) "task";
  Ret (mk (background_tasks_ s) (foreground_tasks_ s)
          (Set_ (foreground_delayed_tasks_ s) task (u64 (time_now + delay_us)))).

(** ** Running tasks

    The platform is part of a machine [W], which it is read from and stored to; a task of V8
    may change the machine, and post more tasks in it. *)
Section Machine.
Context {W : Type}.
Variable platform : W -> t.
Variable set_platform : t -> W -> W.
Variable task_Run : Z -> W -> outcome W.
(** Reading the clock. *)
Variable now : W -> Z * W.

(** kernel/v8platform.cc:30-37, V8Platform::CallOnBackgroundThread. *)
Definition CallOnBackgroundThread (w : W) (task : Z) : outcome W :=
  _ ← rt_assert (negb (task =? 0)) "task"; task_Run task w.

(** kernel/v8platform.cc:71-81, V8Platform::RunBackgroundTasks. *)
Fixpoint RunBackgroundTasks (fuel : nat) (w : W) : outcome W :=
  let s := platform w in
  match background_tasks_ s with
  | [] => Ret w
  | task :: rest =>
      match fuel with
      | O => OutOfFuel
      | S n =>
          _ ← rt_assert (negb (task =? 0)) "task";
          w ← task_Run task (set_platform (mk rest (foreground_tasks_ s) (foreground_delayed_tasks_ s)) w);
          RunBackgroundTasks n w
      end
  end.

(** kernel/v8platform.cc:84-92, the first loop of V8Platform::RunForegroundTasks. *)
Fixpoint run_foreground (fuel : nat) (w : W) : outcome W :=
  let s := platform w in
  match foreground_tasks_ s with
  | [] => Ret w
  | task :: rest =>
      match fuel with
      | O => OutOfFuel
      | S n =>
          _ ← rt_assert (negb (task =? 0)) "task";
          w ← task_Run task (set_platform (mk (background_tasks_ s) rest (foreground_delayed_tasks_ s)) w);
          run_foreground n w
      end
  end.

(** kernel/v8platform.cc:95-102, the second loop of V8Platform::RunForegroundTasks. *)
Fixpoint run_delayed (fuel : nat) (ticks_now : Z) (w : W) : outcome W :=
  let s := platform w in
  if Elapsed (foreground_delayed_tasks_ s) ticks_now then
    match fuel with
    | O => OutOfFuel
    | S n =>
        '(task, q) ← Take (foreground_delayed_tasks_ s);
        _ ← rt_assert (negb (task =? 0)) "task";
        w ← task_Run task (set_platform (mk (background_tasks_ s) (foreground_tasks_ s) q) w);
        run_delayed n ticks_now w
    end
  else Ret w.

(** kernel/v8platform.cc:83-103, V8Platform::RunForegroundTasks. *)
Definition RunForegroundTasks (fuel : nat) (w : W) : outcome W :=
  w ← run_foreground fuel w;
  let '(ticks_now, w) := now w in
  run_delayed fuel ticks_now w.

(** No task waits. *)
Lemma run_nothing fuel w : platform w = new -> platform (now w).2 = new ->
  RunBackgroundTasks fuel w = Ret w /\ RunForegroundTasks fuel w = Ret (now w).2.
Proof.
  intros E E'. split; [by destruct fuel; cbn; rewrite E |]. unfold RunForegroundTasks.
  replace (run_foreground fuel w) with (Ret w) by (by destruct fuel; cbn; rewrite E). cbn [mbind outcome_bind].
  destruct (now w) as [tm w1]. cbn [snd] in *. destruct fuel; cbn [run_delayed]; rewrite E'; cbn [foreground_delayed_tasks_ new];
    unfold Elapsed; by rewrite (proj2 (pq_top_None _) pq_empty_elems).
Qed.

End Machine.

(** ** The order of the tasks

    A machine that is a platform, the tasks that ran (most recent last) and a clock that
    stands still; the tasks post nothing. *)
Definition log : Type := (t * list Z)%type.
Definition log_Run (task : Z) (w : log) : outcome log := Ret (w.1, w.2 ++ [task]).
Definition log_set (s : t) (w : log) : log := (s, w.2).
#[local] Notation run_fg := (run_foreground (W := log) fst log_set log_Run).
#[local] Notation run_dl := (run_delayed (W := log) fst log_set log_Run).

Lemma run_foreground_spec fuel : forall s l,
  (length (foreground_tasks_ s) <= fuel)%nat -> Forall (fun x => x <> 0) (foreground_tasks_ s) ->
  run_fg fuel (s, l) = Ret (mk (background_tasks_ s) [] (foreground_delayed_tasks_ s), l ++ foreground_tasks_ s).
Proof.
  induction fuel as [| n IH]; intros [bg fg dl] l Hn F; cbn in *; destruct fg as [| task fg]; simpl in *;
    try (by rewrite app_nil_r); [lia |].
  apply Forall_cons in F as [Hz F]. rewrite (proj2 (Z.eqb_neq task 0)) by done. cbn.
  unfold log_set. cbn. rewrite IH; cbn; [| lia | done]. by rewrite <- app_assoc.
Qed.

Lemma run_delayed_drain fuel now : forall s l,
  Forall (fun x => x.1 <> 0) (pq_elems (foreground_delayed_tasks_ s)) ->
  run_dl fuel now (s, l) =
  ('(l, q) ← drain (fun l x => l ++ [x]) fuel now (foreground_delayed_tasks_ s) l;
   Ret (mk (background_tasks_ s) (foreground_tasks_ s) q, l)).
Proof.
  induction fuel as [| n IH]; intros [bg fg dl] l F; cbn in *;
    destruct (Elapsed dl now) eqn:El; try done.
  unfold Elapsed in El. unfold Take. destruct (pq_top dl) as [[task w] |] eqn:Et; [| done]. cbn.
  apply pq_top_Some in Et as [P _]. rewrite P in F. apply Forall_cons in F as [Hz F]. cbn in Hz.
  rewrite (proj2 (Z.eqb_neq task 0)) by done. cbn. unfold log_set. cbn. rewrite IH; done.
Qed.

(** With tasks that post nothing further, the foreground tasks run in the order they
    were posted, then the delayed ones that are due, earliest first; each runs once
    and no due task is left. *)
Theorem RunForegroundTasks_correct now s
  (Hf : Forall (fun x => x <> 0) (foreground_tasks_ s))
  (Hd : Forall (fun x => x.1 <> 0) (pq_elems (foreground_delayed_tasks_ s))) :
  exists fuel s' due,
    RunForegroundTasks (W := log) fst log_set log_Run (fun w => (now, w)) fuel (s, []) =
      Ret (s', foreground_tasks_ s ++ map fst due) /\ foreground_tasks_ s' = [] /\
    pq_elems (foreground_delayed_tasks_ s) ≡ₚ due ++ pq_elems (foreground_delayed_tasks_ s') /\
    Forall (fun x => x.2 <= now) due /\ StronglySorted (fun x y => x.2 <= y.2) due /\
    Forall (fun x => now < x.2) (pq_elems (foreground_delayed_tasks_ s')).
Proof.
  set (fuel := (length (foreground_tasks_ s) + pq_size (foreground_delayed_tasks_ s))%nat).
  destruct (drain_spec (fun l x => l ++ [x]) fuel now (foreground_delayed_tasks_ s)
    (foreground_tasks_ s)) as (due & q' & E & P & F1 & F2 & F3); [lia |].
  exists fuel, (mk (background_tasks_ s) [] q'), due.
  unfold RunForegroundTasks. rewrite run_foreground_spec by (done || lia). cbn [mbind outcome_bind].
  rewrite run_delayed_drain by done. cbn [foreground_delayed_tasks_ app]. rewrite E. cbn.
  split_and!; try done. do 2 f_equal.
  assert (forall (l acc : list Z), fold_left (fun l x => l ++ [x]) l acc = acc ++ l) as K.
  { induction l as [| x l IH]; intros acc; cbn; [by rewrite app_nil_r |]. by rewrite IH, <- app_assoc. }
  apply K.
Qed.

End V8Platform.

Definition tasks0 : t :=
  mk [] [7; 8] (Set_ (Set_ pq_empty 5 100) 6 50).

Lemma RunForegroundTasks_correct_witness :
  exists fuel s' due,
    RunForegroundTasks (W := log) fst log_set log_Run (fun w => (60, w)) fuel (tasks0, []) = Ret (s', 7 :: 8 :: due).
Proof.
  destruct (RunForegroundTasks_correct 60 tasks0) as (fuel & s' & due & E & _).
  - by repeat constructor.
  - cbn. by repeat constructor.
  - exists fuel, s', (map fst due). exact E.
Defined.

End V8Platform.
