(* ===== verification/Pool.v ===== *)
(** * kernel/v8utils.h, thread.h, local-storage.h, keystorage.h: tables of handles

    The pools that give out small indices for timeouts, handles and promises, the
    table of exported functions and the thread-local storage.  A pool implements a
    finite map: an index is never given out twice while it is in use. *)

From S2P Require Import Prelude Utils.

Module IndexedPool.

Section Pool.
Context {A : Type}.

(** The elements [data_] of a pool; [None] is one that is empty ([IsEmpty]): moved
    out, or never set. *)
#[local] Notation t := (list (option A)).

(** kernel/v8utils.h:205-210, the search of IndexedPool::Push for an empty slot. *)
Definition first_empty (data_ : t) : option nat :=
  find_from (fun x => match x with None => true | Some _ => false end) 0 data_.

(** kernel/v8utils.h:204-215, IndexedPool::Push; UniquePersistentIndexedPool::Push
    (245-256) is the same. *)
Definition Push (data_ : t) (value : A) : nat * t :=
  match first_empty data_ with
  | Some i => (i, <[i := Some value]> data_)
  | None => (length data_, data_ ++ [Some value])
  end.

(** kernel/v8utils.h:217-220, IndexedPool::Get (277-282 for persistent handles). *)
Definition Get (data_ : t) (index : nat) : outcome (option A) :=
  match data_ !! index with
  | None => Fatal "index < data_.size()"
  | Some x => Ret x
  end.

(** kernel/v8utils.h:222-225, IndexedPool::Take (258-261 for persistent handles):
    the element is moved out. *)
Definition Take (data_ : t) (index : nat) : outcome (option A * t) :=
  match data_ !! index with
  | None => Fatal "index < data_.size()"
  | Some x => Ret (x, <[index := None]> data_)
  end.

(** kernel/v8utils.h:231-233, IndexedPool::Clear. *)
Definition Clear (data_ : t) : t := [].

(** kernel/v8utils.h:263-275, UniquePersistentIndexedPool::Find. *)
Definition Find `{EqDecision A} (data_ : t) (value : A) : Utils.Nullable nat :=
  find_from (fun x => bool_decide (x = Some value)) 0 data_.

(** ** The specification: a finite map *)

Definition live (p : t) (i : nat) : option A := mjoin (p !! i).

(** The number of elements in use. *)
Definition count (p : t) : nat := length (omap id p).

Lemma first_empty_Some p i : first_empty p = Some i -> p !! i = Some None.
Proof.
  intros (j & x & -> & Hx & Hp & _)%find_from_Some. rewrite Nat.add_0_l. by destruct x.
Qed.

Lemma live_Push p v i p' j :
  Push p v = (i, p') -> live p i = None /\ live p' j = if decide (i = j) then Some v else live p j.
Proof.
  unfold Push, live. destruct (first_empty p) as [k |] eqn:E; intros [= <- <-].
  - apply first_empty_Some in E. rewrite E. split; [done |].
    destruct (decide (k = j)) as [<- | Hne].
    + rewrite list_lookup_insert_eq; [done |]. by eapply lookup_lt_Some.
    + by rewrite list_lookup_insert_ne.
  - split; [by rewrite lookup_ge_None_2 |]. destruct (decide (length p = j)) as [<- | Hne].
    + by rewrite lookup_app_r, Nat.sub_diag by lia.
    + destruct (decide (j < length p)%nat).
      * by rewrite lookup_app_l.
      * rewrite lookup_app_r by lia. rewrite (lookup_ge_None_2 p j) by lia.
        destruct (j - length p)%nat eqn:Ej; [lia |]. by destruct n0.
Qed.

Lemma live_Take p i x p' j :
  Take p i = Ret (x, p') -> x = live p i /\ live p' j = if decide (i = j) then None else live p j.
Proof.
  unfold Take, live. destruct (p !! i) as [y |] eqn:E; [| done]. intros [= <- <-]. split; [done |].
  destruct (decide (i = j)) as [<- | Hne].
  - rewrite list_lookup_insert_eq; [done |]. by eapply lookup_lt_Some.
  - by rewrite list_lookup_insert_ne.
Qed.

Lemma count_app p q : count (p ++ q) = (count p + count q)%nat.
Proof. unfold count. by rewrite omap_app, length_app. Qed.

Lemma count_insert (p : t) i y x :
  p !! i = Some y -> (count (<[i := x]> p) + length (option_list y) = count p + length (option_list x))%nat.
Proof.
  intros E. pose proof (list_elem_of_split_length _ _ _ E) as (l1 & l2 & -> & ->).
  rewrite (insert_app_r_alt l1) by lia. rewrite Nat.sub_diag. cbn [insert list_insert].
  rewrite !count_app. unfold count. cbn. destruct x, y; simpl; lia.
Qed.

Lemma count_Push p v i p' : Push p v = (i, p') -> count p' = S (count p).
Proof.
  unfold Push. destruct (first_empty p) as [k |] eqn:E; intros [= <- <-].
  - apply first_empty_Some in E. pose proof (count_insert p k None (Some v) E) as C. simpl in C. lia.
  - rewrite count_app. unfold count at 2. simpl. lia.
Qed.

Lemma count_Take p i v p' : Take p i = Ret (Some v, p') -> count p = S (count p').
Proof.
  unfold Take. destruct (p !! i) as [y |] eqn:E; [| done]. intros [= -> <-].
  pose proof (count_insert p i (Some v) None E) as C. simpl in C. lia.
Qed.

(** A pool is a finite map from small indices: [Push] returns an index that is not in
    use and stores the value there, leaving every other element alone; [Take] returns
    the element and frees the index; an index outside the pool stops the machine; no
    index larger than needed is used. *)
Theorem pool_correct p v i :
  (exists k p', Push p v = (k, p') /\ live p k = None /\ (k <= length p)%nat /\
     count p' = S (count p) /\
     (forall j, live p' j = if decide (k = j) then Some v else live p j) /\
     Get p' k = Ret (Some v) /\
     (first_empty p = None <-> k = length p)) /\
  (match Take p i with
   | Ret (x, p') => x = live p i /\ length p' = length p /\
       forall j, live p' j = if decide (i = j) then None else live p j
   | Fatal _ => (length p <= i)%nat
   | OutOfFuel => False
   end).
Proof.
  split.
  - destruct (Push p v) as [k p'] eqn:E. exists k, p'. split; [done |].
    destruct (live_Push p v k p' k E) as [L0 L1]. rewrite decide_True in L1 by done.
    assert ((k <= length p)%nat /\ (first_empty p = None <-> k = length p)) as [K1 K2].
    { unfold Push in E. destruct (first_empty p) as [j |] eqn:Ef; injection E as <- <-; [| done].
      apply first_empty_Some, lookup_lt_Some in Ef. split; [lia |]. split; [done | lia]. }
    split_and!; try done.
    + by eapply count_Push.
    + intros j. by eapply live_Push.
    + unfold Get. unfold live in L1. destruct (p' !! k) as [y |]; [| done]. by rewrite <- L1.
  - destruct (Take p i) as [[x p'] | |] eqn:E.
    + destruct (live_Take p i x p' i E) as [-> _]. split; [done |]. split.
      * unfold Take in E. destruct (p !! i); [| done]. injection E as _ <-. apply length_insert.
      * intros j. by eapply live_Take.
    + unfold Take in E. destruct (p !! i) eqn:Ei; [done |]. by apply lookup_ge_None.
    + unfold Take in E. by destruct (p !! i).
Qed.

End Pool.
End IndexedPool.

Module FunctionExports.

(** kernel/thread.h:65-67, FunctionExportData members: the function and its id. *)
Record FunctionExportData : Type := mkData { fn_ : Z; export_id : Z }.

(** kernel/thread.h:81-84, FunctionExports members. *)
Record t : Type := mk { data_ : list FunctionExportData; export_id_ : Z }.

(** kernel/thread.h:73-76, FunctionExports::FunctionExports. *)
Definition new : t := mk [] 0.

(** kernel/thread.cc:57-66, FunctionExports::Add; the result is the index and the
    export id of the new ExternalFunction. *)
Definition Add (e : t) (v : Z) : (Z * Z) * t :=
  let index := u32 (Z.of_nat (length (data_ e))) in
  let id := u64 (export_id_ e + 1) in
  ((index, id), mk (data_ e ++ [mkData v id]) id).

(** kernel/thread.cc:68-79, FunctionExports::Get; [None] is the empty handle. *)
Definition Get (e : t) (index id : Z) : outcome (option Z) :=
  match data_ e !! Z.to_nat index with
  | None => Fatal "index < data_.size()"
  | Some d => if negb (export_id d =? id) then Ret None else Ret (Some (fn_ d))
  end.

Fixpoint add_all (e : t) (vs : list Z) : list (Z * Z) * t :=
  match vs with
  | [] => ([], e)
  | v :: vs' => let '(h, e1) := Add e v in let '(hs, e2) := add_all e1 vs' in (h :: hs, e2)
  end.

Definition wf (e : t) : Prop :=
  export_id_ e = Z.of_nat (length (data_ e)) /\
  forall i d, data_ e !! i = Some d -> export_id d = Z.of_nat i + 1.

Lemma Add_spec e v :
  wf e -> Z.of_nat (length (data_ e)) + 1 < 2 ^ 32 ->
  let '((index, id), e') := Add e v in
  index = Z.of_nat (length (data_ e)) /\ id = index + 1 /\ data_ e' = data_ e ++ [mkData v id] /\ wf e'.
Proof.
  intros [W1 W2] L. unfold Add, u32, u64. rewrite !wrap_small by (red; lia). cbn.
  split_and!; [done | lia | done |]. split; cbn; [rewrite length_app; simpl; lia |].
  intros i d [Hi | [Hi Hd]]%lookup_app_Some; [by apply W2 |].
  destruct (i - length (data_ e))%nat as [| n] eqn:Ei; [| by destruct n].
  injection Hd as <-. cbn. lia.
Qed.

Lemma add_all_spec vs : forall e,
  wf e -> Z.of_nat (length (data_ e)) + Z.of_nat (length vs) < 2 ^ 32 ->
  let '(hs, e') := add_all e vs in
  length hs = length vs /\ data_ e' = data_ e ++ zip_with (fun v h => mkData v h.2) vs hs /\ wf e' /\
  forall i h, hs !! i = Some h -> h = (Z.of_nat (length (data_ e) + i), Z.of_nat (length (data_ e) + i) + 1).
Proof.
  induction vs as [| v vs IH]; intros e W L; cbn [add_all].
  { split_and!; try done. cbn. by rewrite app_nil_r. }
  simpl length in L. pose proof (Add_spec e v W ltac:(lia)) as A. destruct (Add e v) as [[index id] e1].
  destruct A as (-> & -> & D & W1). specialize (IH e1 W1).
  assert (length (data_ e1) = S (length (data_ e))) as L1 by (rewrite D, length_app; simpl; lia).
  rewrite L1 in IH. specialize (IH ltac:(lia)). destruct (add_all e1 vs) as [hs e2].
  destruct IH as (I1 & I2 & I3 & I4). split_and!; [simpl; lia | | done |].
  - rewrite I2, D, <- app_assoc. done.
  - intros [| i] h Hh; cbn in Hh.
    + injection Hh as <-. f_equal; lia.
    + apply I4 in Hh as ->. f_equal; lia.
Qed.

(** Exported functions: after any number of exports (fewer than 2^32) each handle
    gives back the function it was made for, and a handle with another export id gives
    the empty value. *)
Theorem exports_correct vs (L : Z.of_nat (length vs) < 2 ^ 32) :
  let '(hs, e) := add_all new vs in
  length hs = length vs /\
  forall i index id v, hs !! i = Some (index, id) -> vs !! i = Some v ->
    Get e index id = Ret (Some v) /\ forall id', id' <> id -> Get e index id' = Ret None.
Proof.
  pose proof (add_all_spec vs new) as A. destruct (add_all new vs) as [hs e].
  destruct A as (I1 & I2 & I3 & I4); [by split | simpl; lia |]. split; [done |].
  intros i index id v Hh Hv. pose proof (I4 i _ Hh) as E. cbn in E. injection E as -> ->.
  assert (data_ e !! i = Some (mkData v (Z.of_nat i + 1))) as Ed.
  { rewrite I2. cbn. rewrite lookup_zip_with, Hv. cbn. by rewrite Hh. }
  unfold Get. rewrite Nat2Z.id, Ed. cbn. rewrite Z.eqb_refl. split; [done |].
  intros id' Hid. by rewrite (proj2 (Z.eqb_neq _ _)) by lia.
Qed.

Lemma exports_correct_witness : Get (add_all new [10; 20; 30]).2 1 2 = Ret (Some 20).
Proof.
  pose proof (exports_correct [10; 20; 30] eq_refl) as P.
  destruct (add_all new [10; 20; 30]) as [hs e] eqn:E. injection E as <- <-.
  destruct P as [_ P]. apply (P 1%nat 1 2 20); reflexivity.
Defined.

End FunctionExports.

Module LocalStorage.

(** kernel/local-storage.h:46-47, kMaxSlots, the length of the array storage_. *)
Definition kMaxSlots : nat := 16.
#[local] Notation t := (list Z).

(** kernel/local-storage.h:27-32, LocalStorage::LocalStorage. *)
Definition new : t := replicate kMaxSlots 0.

(** kernel/local-storage.h:34-37, LocalStorage::Get. *)
Definition Get (s : t) (keyid : Z) : outcome Z :=
  _ ← rt_assert (keyid <? Z.of_nat kMaxSlots) "keyid < kMaxSlots";
  Ret (default 0 (s !! Z.to_nat keyid)).

(** kernel/local-storage.h:39-42, LocalStorage::Set. *)
Definition Set_ (s : t) (keyid value : Z) : outcome t :=
  _ ← rt_assert (keyid <? Z.of_nat kMaxSlots) "keyid < kMaxSlots";
  Ret (<[Z.to_nat keyid := value]> s).

(** kernel/keystorage.h:58-60, KeyStorage members, before the engines exist; after,
    [no_platform_storage_] is the storage of the current thread. *)
Record KeyStorage : Type := mkKeys { next_index_ : Z; storage : t }.

(** kernel/keystorage.h:28-29, KeyStorage::KeyStorage. *)
Definition KeyStorage_new : KeyStorage := mkKeys 1 new.

(** kernel/keystorage.h:31-33, KeyStorage::NewKey. *)
Definition NewKey (k : KeyStorage) : Z * KeyStorage :=
  (next_index_ k, mkKeys (u64 (next_index_ k + 1)) (storage k)).

(** kernel/keystorage.h:40-48, KeyStorage::Set. *)
Definition Key_Set (k : KeyStorage) (index value : Z) : outcome KeyStorage :=
  _ ← rt_assert (index >? 0) "index > 0";
  s ← Set_ (storage k) (index - 1) value; Ret (mkKeys (next_index_ k) s).

(** kernel/keystorage.h:35-38, KeyStorage::DeleteKey. *)
Definition DeleteKey (k : KeyStorage) (index : Z) : outcome KeyStorage :=
  _ ← rt_assert (index >? 0) "index > 0"; Key_Set k index 0.

(** kernel/keystorage.h:50-57, KeyStorage::Get. *)
Definition Key_Get (k : KeyStorage) (index : Z) : outcome Z :=
  _ ← rt_assert (index >? 0) "index > 0"; Get (storage k) (index - 1).

(** Thread-local keys: a key from 1 to 16 holds the value stored last and no other key
    is disturbed; a deleted key reads as null; the seventeenth key and key 0 stop the
    machine, since a key is never reused. *)
Theorem KeyStorage_correct k i v (L : length (storage k) = kMaxSlots) :
  (1 <= i <= 16 ->
   (exists k', Key_Set k i v = Ret k' /\ length (storage k') = kMaxSlots /\ Key_Get k' i = Ret v /\
      forall j, 1 <= j <= 16 -> j <> i -> Key_Get k' j = Key_Get k j) /\
   (exists k', DeleteKey k i = Ret k' /\ Key_Get k' i = Ret 0)) /\
  (16 < i -> Key_Set k i v = Fatal "keyid < kMaxSlots" /\ Key_Get k i = Fatal "keyid < kMaxSlots") /\
  Key_Set k 0 v = Fatal "index > 0".
Proof.
  assert (forall w j, 1 <= j <= 16 -> Key_Set k j w = Ret (mkKeys (next_index_ k) (<[Z.to_nat (j - 1) := w]> (storage k)))) as S.
  { intros w j Hj. unfold Key_Set, Set_. destruct (Z.gtb_spec j 0); [| lia]. cbn [rt_assert mbind outcome_bind].
    by rewrite (proj2 (Z.ltb_lt _ _)) by (unfold kMaxSlots; lia). }
  assert (forall k' j, 1 <= j <= 16 -> Key_Get k' j = Ret (default 0 (storage k' !! Z.to_nat (j - 1)))) as G.
  { intros k' j Hj. unfold Key_Get, Get. destruct (Z.gtb_spec j 0); [| lia]. cbn [rt_assert mbind outcome_bind].
    by rewrite (proj2 (Z.ltb_lt _ _)) by (unfold kMaxSlots; lia). }
  split_and!.
  - intros Hi. split.
    + rewrite S by done. eexists. split; [done |]. rewrite G by done. cbn [storage].
      rewrite length_insert, list_lookup_insert_eq by (rewrite L; unfold kMaxSlots; lia).
      split; [done |]. split; [done |]. intros j Hj Hne. rewrite !G by done. cbn [storage].
      by rewrite list_lookup_insert_ne by lia.
    + unfold DeleteKey. destruct (Z.gtb_spec i 0); [| lia]. cbn [rt_assert mbind outcome_bind].
      rewrite S by done. eexists. split; [done |]. rewrite G by done. cbn [storage].
      by rewrite list_lookup_insert_eq by (rewrite L; unfold kMaxSlots; lia).
  - intros Hi. unfold Key_Set, Key_Get, Set_, Get. destruct (Z.gtb_spec i 0); [| lia]. cbn [rt_assert mbind outcome_bind].
    by rewrite (proj2 (Z.ltb_ge _ _)) by (unfold kMaxSlots; lia).
  - done.
Qed.

Lemma KeyStorage_correct_witness : exists k', Key_Set KeyStorage_new 3 77 = Ret k' /\ Key_Get k' 3 = Ret 77.
Proof.
  destruct (KeyStorage_correct KeyStorage_new 3 77 eq_refl) as [P _].
  destruct (P ltac:(lia)) as [(k' & E & _ & G & _) _]. exists k'. exact (conj E G).
Defined.

End LocalStorage.
