(* ===== verification/Thread.v ===== *)
(** * kernel/thread.h: the operations of a thread object

    A thread owns the pools of its timeouts, of the JavaScript functions it keeps
    alive and of its promises, and a reference count that decides when it ends.
    [accounted] relates the count to what the pools hold. *)

From S2P Require Import Prelude Utils Pool.

Module Thread.

(** kernel/thread.h:87-91, ThreadType. *)
Inductive ThreadType : Type := DEFAULT | IDLE | TERMINATED.

#[global] Instance ThreadType_eq_dec : EqDecision ThreadType.
Proof. solve_decision. Defined.

(** kernel/thread.h:163-168, TimeoutData members; a persistent handle is the address
    of the value it keeps.  An element that was moved out is an empty slot of the
    pool. *)
Record TimeoutData : Type := mkTimeout {
  cb_ : Z; args_array_ : option Z; delay_ : Z; cleared_ : bool; has_args_ : bool; autoreset_ : bool }.

(** kernel/thread.h:98-103, TimeoutData::TimeoutData. *)
Definition TimeoutData_new (cb delay_ms : Z) (is_autoreset : bool) : TimeoutData :=
  mkTimeout cb None delay_ms false false is_autoreset.

(** kernel/thread.h:105-111, TimeoutData::TimeoutData with arguments. *)
Definition TimeoutData_args (cb args_array delay_ms : Z) (is_autoreset : bool) : TimeoutData :=
  mkTimeout cb (Some args_array) delay_ms false true is_autoreset.

(** kernel/thread.h:144-146, TimeoutData::SetCleared. *)
Definition SetCleared (d : TimeoutData) : TimeoutData :=
  mkTimeout (cb_ d) (args_array_ d) (delay_ d) true (has_args_ d) (autoreset_ d).

(** kernel/thread.h:365-398, Thread members.  [iv8_] tells whether there is an isolate
    (and its template cache), [context_] whether its context was made; [stack_] is
    the top and the length of the stack.  The saved registers are left out. *)
Record t : Type := mk {
  type_ : ThreadType; iv8_ : bool; context_ : bool; call_wrapper_ : option Z;
  stack_ : Z * Z; priority_ : Z; ethread_ : Z; exports_ : FunctionExports.t;
  ref_count_ : Z; terminate_ : bool; runtime_ : Z; ev_count_ : Z; filename_ : list Z;
  timeout_data_ : list (option TimeoutData); object_handles_ : list (option Z);
  promises_ : list (option Z) }.

(** kernel/thread.cc:37-51, Thread::Thread; [stack] is what AllocStack returned. *)
Definition new (type : ThreadType) (ethread : Z) (stack : Z * Z) : t :=
  mk type false false None stack 1 ethread FunctionExports.new 0 false 0 0 [] [] [] [].

Definition set_ref (x : t) (r : Z) : t :=
  mk (type_ x) (iv8_ x) (context_ x) (call_wrapper_ x) (stack_ x) (priority_ x) (ethread_ x)
     (exports_ x) r (terminate_ x) (runtime_ x) (ev_count_ x) (filename_ x)
     (timeout_data_ x) (object_handles_ x) (promises_ x).

Definition set_pools (x : t) (e : FunctionExports.t) (td : list (option TimeoutData))
  (oh pr : list (option Z)) : t :=
  mk (type_ x) (iv8_ x) (context_ x) (call_wrapper_ x) (stack_ x) (priority_ x) (ethread_ x)
     e (ref_count_ x) (terminate_ x) (runtime_ x) (ev_count_ x) (filename_ x) td oh pr.

Definition set_type (x : t) (ty : ThreadType) (isolate context : bool) (cw : option Z) : t :=
  mk ty isolate context cw (stack_ x) (priority_ x) (ethread_ x)
     (exports_ x) (ref_count_ x) (terminate_ x) (runtime_ x) (ev_count_ x) (filename_ x)
     (timeout_data_ x) (object_handles_ x) (promises_ x).

Definition set_priority (x : t) (p : Z) : t :=
  mk (type_ x) (iv8_ x) (context_ x) (call_wrapper_ x) (stack_ x) p (ethread_ x)
     (exports_ x) (ref_count_ x) (terminate_ x) (runtime_ x) (ev_count_ x) (filename_ x)
     (timeout_data_ x) (object_handles_ x) (promises_ x).

Definition set_stats (x : t) (term : bool) (rt ev : Z) (file : list Z) : t :=
  mk (type_ x) (iv8_ x) (context_ x) (call_wrapper_ x) (stack_ x) (priority_ x) (ethread_ x)
     (exports_ x) (ref_count_ x) term rt ev file
     (timeout_data_ x) (object_handles_ x) (promises_ x).

(** kernel/thread.h:323-325, Thread::Ref; the count is a size_t. *)
Definition Ref (x : t) : t := set_ref x (u64 (ref_count_ x + 1)).

(** kernel/thread.h:330-332, Thread::Unref. *)
Definition Unref (x : t) : t := set_ref x (u64 (ref_count_ x - 1)).

(** kernel/thread.h:243-246, Thread::AddExport; the result is the index and the export
    id of the function. *)
Definition AddExport (x : t) (fn : Z) : (Z * Z) * t :=
  let x := Ref x in
  let '(efn, e) := FunctionExports.Add (exports_ x) fn in
  (efn, set_pools x e (timeout_data_ x) (object_handles_ x) (promises_ x)).

(** kernel/thread.h:248-251, Thread::PutObject. *)
Definition PutObject (x : t) (v : Z) : nat * t :=
  let x := Ref x in
  let '(i, oh) := IndexedPool.Push (object_handles_ x) v in
  (i, set_pools x (exports_ x) (timeout_data_ x) oh (promises_ x)).

(** kernel/thread.h:253-256, Thread::GetObject. *)
Definition GetObject (x : t) (index : Z) : outcome (option Z) :=
  IndexedPool.Get (object_handles_ x) (Z.to_nat (u32 index)).

(** kernel/thread.h:258-261, Thread::TakeObject. *)
Definition TakeObject (x : t) (index : Z) : outcome (option Z * t) :=
  '(v, oh) ← IndexedPool.Take (object_handles_ x) (Z.to_nat (u32 index));
  Ret (v, set_pools x (exports_ x) (timeout_data_ x) oh (promises_ x)).

(** kernel/thread.h:263-266, Thread::AddTimeoutData. *)
Definition AddTimeoutData (x : t) (data : TimeoutData) : nat * t :=
  let x := Ref x in
  let '(i, td) := IndexedPool.Push (timeout_data_ x) data in
  (i, set_pools x (exports_ x) td (object_handles_ x) (promises_ x)).

(** kernel/thread.h:268-280, Thread::FlagTimeoutCleared. *)
Definition FlagTimeoutCleared (x : t) (index : Z) : bool * t :=
  match timeout_data_ x !! Z.to_nat (u32 index) with
  | Some (Some data) =>
      (true, set_pools x (exports_ x) (<[Z.to_nat (u32 index) := Some (SetCleared data)]> (timeout_data_ x))
               (object_handles_ x) (promises_ x))
  | _ => (false, x)
  end.

(** kernel/thread.h:282-285, Thread::TakeTimeoutData. *)
Definition TakeTimeoutData (x : t) (index : Z) : outcome (option TimeoutData * t) :=
  let x := Unref x in
  '(v, td) ← IndexedPool.Take (timeout_data_ x) (Z.to_nat (u32 index));
  Ret (v, set_pools x (exports_ x) td (object_handles_ x) (promises_ x)).

(** kernel/thread.h:287-290, Thread::AddPromise. *)
Definition AddPromise (x : t) (resolver : Z) : nat * t :=
  let x := Ref x in
  let '(i, pr) := IndexedPool.Push (promises_ x) resolver in
  (i, set_pools x (exports_ x) (timeout_data_ x) (object_handles_ x) pr).

(** kernel/thread.h:292-294, Thread::FindPromise. *)
Definition FindPromise (x : t) (resolver : Z) : Utils.Nullable nat :=
  IndexedPool.Find (promises_ x) resolver.

(** kernel/thread.h:296-299, Thread::TakePromise. *)
Definition TakePromise (x : t) (index : Z) : outcome (option Z * t) :=
  let x := Unref x in
  '(v, pr) ← IndexedPool.Take (promises_ x) (Z.to_nat (u32 index));
  Ret (v, set_pools x (exports_ x) (timeout_data_ x) (object_handles_ x) pr).

(** kernel/thread.h:305-307, Thread::AddPriority. *)
Definition AddPriority (x : t) (count : Z) : t := set_priority x (u32 (priority_ x + count)).

(** kernel/thread.h:309-311, Thread::ResetPriority. *)
Definition ResetPriority (x : t) : t := set_priority x 1.

(** kernel/thread.h:316-318, Thread::SetTerminateFlag. *)
Definition SetTerminateFlag (x : t) : t :=
  set_stats x true (runtime_ x) (ev_count_ x) (filename_ x).

(** kernel/thread.h:334-339, Thread::SetCallWrapper; [fn] is a function. *)
Definition SetCallWrapper (x : t) (fn : Z) : outcome t :=
  match call_wrapper_ x with
  | Some _ => Fatal "call_wrapper_.IsEmpty()"
  | None => Ret (set_type x (type_ x) (iv8_ x) (context_ x) (Some fn))
  end.

(** kernel/thread.h:221-229, Thread::GetStackBottom; the two tests of the alignment
    group as [(x % 2) * MiB == 0]. *)
Definition GetStackBottom (x : t) : outcome Z :=
  let '(top, len) := stack_ x in
  _ ← rt_assert (negb (top =? 0)) "stack_.top()";
  _ ← rt_assert (negb (len =? 0)) "stack_.len()";
  _ ← rt_assert ((top `mod` 2) * MiB =? 0) "stack_.top() % 2 * Constants::MiB == 0";
  _ ← rt_assert ((len `mod` 2) * MiB =? 0) "stack_.len() % 2 * Constants::MiB == 0";
  let stack_pos := u64 (top + len - 256 - 8) in
  _ ← rt_assert (negb (stack_pos =? 0)) "stack_pos";
  Ret stack_pos.

(** kernel/thread.cc:88-109, Thread::SetUp. *)
Definition SetUp (x : t) : outcome t :=
  if decide (type_ x = IDLE) then Ret x
  else
    _ ← rt_assert (negb (iv8_ x)) "nullptr == iv8_";
    Ret (set_type x (type_ x) true (context_ x) (call_wrapper_ x)).

(** kernel/thread.cc:111-139, Thread::TearDown: the assertion of line 117 always fails. *)
Definition TearDown (x : t) : outcome t :=
  _ ← rt_assert (bool_decide (type_ x = DEFAULT)) "ThreadType::DEFAULT == type_";
  _ ← rt_assert (iv8_ x) "iv8_";
  Fatal "main isolate exited".

(** ** The indices in use of a pool *)

Definition live_ids {A} (p : list (option A)) : list Z :=
  Z.of_nat <$> filter (fun i => is_Some (IndexedPool.live p i)) (seq 0 (length p)).

Lemma elem_of_live_ids {A} (p : list (option A)) (i : nat) :
  Z.of_nat i ∈ live_ids p <-> is_Some (IndexedPool.live p i).
Proof.
  unfold live_ids. rewrite list_elem_of_fmap. split.
  - intros (j & Ej & Hj). apply list_elem_of_filter in Hj as [Hj _]. by assert (i = j) as -> by lia.
  - intros Hi. exists i. split; [done |]. apply list_elem_of_filter. split; [done |].
    apply elem_of_seq. split; [lia |]. unfold IndexedPool.live in Hi.
    destruct (p !! i) eqn:E; [by apply lookup_lt_Some in E | by destruct Hi].
Qed.

Lemma live_ids_nat {A} (p : list (option A)) z :
  z ∈ live_ids p -> exists i, z = Z.of_nat i /\ (i < length p)%nat /\ is_Some (IndexedPool.live p i).
Proof.
  unfold live_ids. intros (i & -> & Hi)%list_elem_of_fmap. apply list_elem_of_filter in Hi as [Hi Hs].
  apply elem_of_seq in Hs. exists i. split; [done |]. split; [lia | done].
Qed.

Lemma NoDup_live_ids {A} (p : list (option A)) : NoDup (live_ids p).
Proof. apply NoDup_fmap; [intros x y E; lia |]. apply NoDup_filter, NoDup_seq. Qed.

(** Two pools with the same indices in use. *)
Lemma live_ids_perm {A B} (p : list (option A)) (q : list (option B)) extra :
  NoDup extra ->
  (forall z, z ∈ live_ids q <-> z ∈ extra \/ z ∈ live_ids p) ->
  (forall z, z ∈ extra -> z ∉ live_ids p) ->
  live_ids q ≡ₚ extra ++ live_ids p.
Proof.
  intros Hn H D. apply NoDup_Permutation.
  - apply NoDup_live_ids.
  - apply NoDup_app. split; [done |]. split; [done | apply NoDup_live_ids].
  - intros z. by rewrite H, elem_of_app.
Qed.

Lemma live_ids_Push {A} (p p' : list (option A)) v i :
  IndexedPool.Push p v = (i, p') -> live_ids p' ≡ₚ Z.of_nat i :: live_ids p.
Proof.
  intros E. change (Z.of_nat i :: live_ids p) with ([Z.of_nat i] ++ live_ids p).
  apply live_ids_perm; [apply NoDup_singleton | |].
  - intros z. rewrite list_elem_of_singleton. split.
    + intros Hz. destruct (live_ids_nat _ _ Hz) as (j & -> & _ & Hj).
      rewrite (proj2 (IndexedPool.live_Push _ _ _ _ j E)) in Hj. case_decide; [left; by subst |].
      right. by apply elem_of_live_ids.
    + intros [-> | Hz].
      * apply elem_of_live_ids. rewrite (proj2 (IndexedPool.live_Push _ _ _ _ i E)), decide_True by done. eauto.
      * destruct (live_ids_nat _ _ Hz) as (j & -> & _ & Hj). apply elem_of_live_ids.
        rewrite (proj2 (IndexedPool.live_Push _ _ _ _ j E)). case_decide; eauto.
  - intros z ->%list_elem_of_singleton Hz. apply elem_of_live_ids in Hz as [? Hz].
    rewrite (proj1 (IndexedPool.live_Push _ _ _ _ i E)) in Hz. done.
Qed.

Lemma live_ids_Take {A} (p p' : list (option A)) v i :
  IndexedPool.Take p i = Ret (Some v, p') -> live_ids p ≡ₚ Z.of_nat i :: live_ids p'.
Proof.
  intros E. change (Z.of_nat i :: live_ids p') with ([Z.of_nat i] ++ live_ids p').
  pose proof (fun j => IndexedPool.live_Take p i (Some v) p' j E) as L.
  apply live_ids_perm; [apply NoDup_singleton | |].
  - intros z. rewrite list_elem_of_singleton. split.
    + intros Hz. destruct (live_ids_nat _ _ Hz) as (j & -> & _ & Hj).
      destruct (decide (i = j)) as [-> | Hne]; [by left |]. right. apply elem_of_live_ids.
      rewrite (proj2 (L j)), decide_False by done. done.
    + intros [-> | Hz].
      * apply elem_of_live_ids. rewrite <- (proj1 (L i)). eauto.
      * destruct (live_ids_nat _ _ Hz) as (j & -> & _ & Hj). apply elem_of_live_ids.
        rewrite (proj2 (L j)) in Hj. case_decide; [by destruct Hj | done].
  - intros z ->%list_elem_of_singleton Hz. apply elem_of_live_ids in Hz as [? Hz].
    rewrite (proj2 (L i)), decide_True in Hz by done. done.
Qed.

Lemma Push_Take {A} (p : list (option A)) v :
  let '(i, p') := IndexedPool.Push p v in
  exists p'', IndexedPool.Take p' i = Ret (Some v, p'') /\ (i <= length p)%nat /\
    forall j, IndexedPool.live p'' j = IndexedPool.live p j.
Proof.
  destruct (IndexedPool.Push p v) as [i p'] eqn:E.
  pose proof (fun j => IndexedPool.live_Push p v i p' j E) as L.
  assert (p' !! i = Some (Some v)) as Ei.
  { destruct (L i) as [_ Li]. rewrite decide_True in Li by done. unfold IndexedPool.live in Li.
    destruct (p' !! i) as [y |]; [| done]. cbn in Li. by rewrite Li. }
  unfold IndexedPool.Take. rewrite Ei. eexists. split; [done |]. split.
  - unfold IndexedPool.Push in E. destruct (IndexedPool.first_empty p) eqn:F; injection E as <- _; [| done].
    apply IndexedPool.first_empty_Some, lookup_lt_Some in F. lia.
  - intros j. destruct (L j) as [L0 Lj]. unfold IndexedPool.live at 1. destruct (decide (i = j)) as [-> | Hne].
    + rewrite list_lookup_insert_eq by (by eapply lookup_lt_Some). by rewrite L0.
    + rewrite list_lookup_insert_ne by done. by rewrite <- Lj.
Qed.

(** C26. Reference counts: a timeout or a promise that is added and taken again leaves the
    reference count as it was; a function that is kept alive and taken again (what
    setImmediate does) leaves its reference behind, although the pool is as before, so
    a thread that used setImmediate once never ends because its count is zero. *)
Theorem references_balance x d f
  (Hr : in_range 64 (ref_count_ x))
  (Ht : Z.of_nat (length (timeout_data_ x)) < 2 ^ 32) (Ho : Z.of_nat (length (object_handles_ x)) < 2 ^ 32)
  (Hp : Z.of_nat (length (promises_ x)) < 2 ^ 32) :
  (exists x', TakeTimeoutData (AddTimeoutData x d).2 (Z.of_nat (AddTimeoutData x d).1) = Ret (Some d, x') /\
     ref_count_ x' = ref_count_ x) /\
  (exists x', TakePromise (AddPromise x f).2 (Z.of_nat (AddPromise x f).1) = Ret (Some f, x') /\
     ref_count_ x' = ref_count_ x) /\
  (exists x', TakeObject (PutObject x f).2 (Z.of_nat (PutObject x f).1) = Ret (Some f, x') /\
     (forall j, IndexedPool.live (object_handles_ x') j = IndexedPool.live (object_handles_ x) j) /\
     ref_count_ x' = u64 (ref_count_ x + 1)).
Proof.
  assert (u64 (u64 (ref_count_ x + 1) - 1) = ref_count_ x) as E.
  { unfold u64, wrap. rewrite Zminus_mod_idemp_l. replace (ref_count_ x + 1 - 1) with (ref_count_ x) by lia.
    by apply Z.mod_small. }
  assert (forall n : nat, Z.of_nat n < 2 ^ 32 -> Z.to_nat (u32 (Z.of_nat n)) = n) as U.
  { intros n Hn. unfold u32. rewrite wrap_small by (unfold in_range; lia). lia. }
  split_and!.
  - unfold AddTimeoutData, TakeTimeoutData. cbn. pose proof (Push_Take (timeout_data_ x) d) as K.
    destruct (IndexedPool.Push _ d) as [i td]. destruct K as (td' & ET & Hi & _). cbn. rewrite U, ET by lia. eauto.
  - unfold AddPromise, TakePromise. cbn. pose proof (Push_Take (promises_ x) f) as K.
    destruct (IndexedPool.Push _ f) as [i td]. destruct K as (td' & ET & Hi & _). cbn. rewrite U, ET by lia. eauto.
  - unfold PutObject, TakeObject. cbn. pose proof (Push_Take (object_handles_ x) f) as K.
    destruct (IndexedPool.Push _ f) as [i oh]. destruct K as (oh' & ET & Hi & L). cbn. rewrite U, ET by lia. eauto.
Qed.

Lemma references_balance_witness :
  exists x', TakeObject (PutObject (new DEFAULT 10 (0x400000, 0x200000)) 77).2 0 = Ret (Some 77, x') /\ ref_count_ x' = 1.
Proof.
  destruct (references_balance (new DEFAULT 10 (0x400000, 0x200000)) (TimeoutData_new 77 5 false) 77)
    as (_ & _ & x' & E & _ & R); [done.. |].
  exists x'. exact (conj E R).
Defined.

End Thread.
