(* ===== verification/Sched.v ===== *)
(** * kernel/thread-manager.h, .cc, thread.cc, native-object.cc: scheduling and the event loop

    [ThreadManager] picks the thread to run and turns elapsed timers into
    messages; [Thread::Run] takes the messages of a thread and acts on each.
    JavaScript is a parameter: what a call does is the list of natives it calls
    and of interrupts that arrive meanwhile, as a function of the state it starts
    in.  The theorems: the scheduler picks a thread of the highest priority and
    is fair among equals; every timer fires exactly once; no assertion of the
    event loop can fail. *)

From S2P Require Import Prelude Utils Transport Engine Timeouts Pool Thread.

Module Sched.
Import EngineThread.

(** kernel/thread-manager.h:64-65, ThreadData members. *)
Record ThreadData : Type := mkData { thread : Z; priority : Z }.

(** kernel/thread-manager.h:38-42, ThreadData::ThreadData. *)
Definition ThreadData_new (th : Z) : ThreadData := mkData th 1.

(** kernel/thread-manager.h:52-54, ThreadData::SetPriority. *)
Definition SetPriority (d : ThreadData) (value : Z) : ThreadData := mkData (thread d) value.

(** ** Picking the next thread *)

(** The swap with the last element followed by [pop_back]: the last element takes
    the place of the [i]-th. *)
Definition swap_pop {A} (i : nat) (l : list A) : list A :=
  match last l with
  | Some x => removelast (<[i := x]> l)
  | None => l
  end.

(** kernel/thread-manager.h:135-145, the first loop of SwitchToNextThread; [gone] is
    its test.  Each round makes the rest shorter. *)
Fixpoint sweep (fuel : nat) (gone : Z -> bool) (it : nat) (threads_ : list ThreadData)
  : outcome (list ThreadData) :=
  match threads_ !! it with
  | None => Ret threads_
  | Some d =>
      match fuel with
      | O => OutOfFuel
      | S n =>
          if gone (thread d) then sweep n gone it (swap_pop it threads_)
          else sweep n gone (S it) threads_
      end
  end.

(** The variables of the second loop. *)
Record scan : Type := mkScan { max : Z; min : Z; max_index : nat; min_index : nat }.

(** kernel/thread-manager.h:130-133, the values the second loop starts with. *)
Definition scan0 : scan := mkScan 0 (2 ^ 32 - 1) 0 0.

(** kernel/thread-manager.h:157-170, a round of the second loop for a thread with
    priority [p]. *)
Definition scan_step (s : scan) (i : nat) (p : Z) : scan :=
  let s := if p >? max s then mkScan p (min s) i (min_index s) else s in
  if p <? min s then mkScan (max s) p (max_index s) i else s.

(** kernel/thread-manager.h:150-172, the second loop of SwitchToNextThread: the
    variables and the entries with the priorities copied to them.  [info] is the type
    and the priority of a thread. *)
Fixpoint scan_loop (info : Z -> Thread.ThreadType * Z) (i : nat) (threads_ : list ThreadData) (s : scan)
  : scan * list ThreadData :=
  match threads_ with
  | [] => (s, [])
  | d :: rest =>
      let '(ty, p) := info (thread d) in
      if decide (ty = Thread.TERMINATED)
      then let '(s', rest') := scan_loop info (S i) rest s in (s', d :: rest')
      else let '(s', rest') := scan_loop info (S i) rest (scan_step s i p) in
           (s', SetPriority d p :: rest')
  end.

(** ** The state of one engine *)

Section Sched.
(** The queue of timers: a timer is a thread and the index of its timeout; and the queue of
    the delayed tasks of V8. *)
Context {Q QT : Type} `{PriorityQueue (Z * Z) Q} `{PriorityQueue Z QT}.

(** kernel/thread-manager.h:254-264, ThreadManager members, with the thread objects,
    the engine threads and the interrupt bindings they refer to, the new threads of
    the engine, the tasks of V8 that wait, and the number of times the clock was read. *)
Record world : Type := mkWorld {
  objects : gmap Z Thread.t;
  irqs : IrqDispatcher.t;
  new_threads_ : list Z;
  current_thread_ : option Z; current_thread_index_ : Z; threads_ : list ThreadData;
  ticks_counter_ : Z; timeouts_ : Q; ev_done_total_ : Z; ev_done_checkpoint_ : Z;
  v8_platform : V8Platform.t (Q := QT);
  reads : nat }.

Definition set_objects (w : world) (o : gmap Z Thread.t) : world :=
  mkWorld o (irqs w) (new_threads_ w) (current_thread_ w) (current_thread_index_ w) (threads_ w)
    (ticks_counter_ w) (timeouts_ w) (ev_done_total_ w) (ev_done_checkpoint_ w) (v8_platform w) (reads w).
Definition set_irqs (w : world) (i : IrqDispatcher.t) : world :=
  mkWorld (objects w) i (new_threads_ w) (current_thread_ w) (current_thread_index_ w) (threads_ w)
    (ticks_counter_ w) (timeouts_ w) (ev_done_total_ w) (ev_done_checkpoint_ w) (v8_platform w) (reads w).
Definition set_timeouts (w : world) (q : Q) : world :=
  mkWorld (objects w) (irqs w) (new_threads_ w) (current_thread_ w) (current_thread_index_ w) (threads_ w)
    (ticks_counter_ w) q (ev_done_total_ w) (ev_done_checkpoint_ w) (v8_platform w) (reads w).
Definition set_threads (w : world) (new : list Z) (cur : option Z) (i : Z) (l : list ThreadData) : world :=
  mkWorld (objects w) (irqs w) new cur i l
    (ticks_counter_ w) (timeouts_ w) (ev_done_total_ w) (ev_done_checkpoint_ w) (v8_platform w) (reads w).
Definition set_counters (w : world) (ticks total checkpoint : Z) (n : nat) : world :=
  mkWorld (objects w) (irqs w) (new_threads_ w) (current_thread_ w) (current_thread_index_ w) (threads_ w)
    ticks (timeouts_ w) total checkpoint (v8_platform w) n.
Definition set_platform (p : V8Platform.t (Q := QT)) (w : world) : world :=
  mkWorld (objects w) (irqs w) (new_threads_ w) (current_thread_ w) (current_thread_index_ w) (threads_ w)
    (ticks_counter_ w) (timeouts_ w) (ev_done_total_ w) (ev_done_checkpoint_ w) p (reads w).

Definition ethreads (w : world) : gmap Z EngineThread.t := IrqDispatcher.threads (irqs w).
Definition set_ethreads (w : world) (e : gmap Z EngineThread.t) : world :=
  set_irqs w (IrqDispatcher.mk (IrqDispatcher.bindings_ (irqs w)) e).

(** kernel/thread-manager.cc:42-54, ThreadManager::ThreadManager, over the engine
    threads and bindings of the machine. *)
Definition new (i : IrqDispatcher.t) : world :=
  mkWorld ∅ i [] None 0 [] 1 pq_empty 0 0 V8Platform.new 0.

(** A pointer to a thread object, followed. *)
Definition get_thread (w : world) (th : Z) : outcome Thread.t :=
  match objects w !! th with Some x => Ret x | None => Fatal "thread" end.
Definition put_thread (w : world) (th : Z) (x : Thread.t) : world :=
  set_objects w (<[th := x]> (objects w)).

(** What the scan reads of a thread. *)
Definition info (w : world) (th : Z) : Thread.ThreadType * Z :=
  match objects w !! th with
  | Some x => (Thread.type_ x, Thread.priority_ x)
  | None => (Thread.TERMINATED, 0)
  end.

(** kernel/thread-manager.h:137-137, the test of the first loop of SwitchToNextThread. *)
Definition gone (w : world) (th : Z) : bool :=
  bool_decide ((info w th).1 = Thread.TERMINATED) && bool_decide (current_thread_ w = Some th).

(** kernel/thread-manager.h:129-188, ThreadManager::SwitchToNextThread. *)
Definition SwitchToNextThread (w : world) : outcome (Z * world) :=
  l ← sweep (length (threads_ w)) (gone w) 0 (threads_ w);
  _ ← rt_assert (negb (Nat.eqb (length l) 0)) "threads_.size() > 0";
  let '(s, l) := scan_loop (info w) 0 l scan0 in
  let i :=
    if negb (max s =? min s) then Z.of_nat (max_index s)
    else let i := u64 (current_thread_index_ w + 1) in
         if i >=? Z.of_nat (length l) then 0 else i in
  match l !! Z.to_nat i with
  | None => Fatal "current_thread_index_ < threads_.size()"
  | Some d =>
      x ← get_thread w (thread d);
      Ret (thread d,
           put_thread (set_threads w (new_threads_ w) (Some (thread d)) i l) (thread d)
             (Thread.ResetPriority x))
  end.

(** ** Creating threads *)

(** The address of a new thread object and the stack of AllocStack. *)
Variable new_thread : world -> Z.
Variable alloc_stack : world -> Z * Z.

(** kernel/thread-manager.cc:60-64, ThreadManager::ThreadInit; the registers that the
    assembly code sets are left out. *)
Definition ThreadInit (x : Thread.t) : outcome unit :=
  b ← Thread.GetStackBottom x; rt_assert (negb (b =? 0)) "t->GetStackBottom()".

(** kernel/thread-manager.h:92-98, ThreadManager::CreateThread, with the assignment of
    ProcessNewThreads (thread-manager.cc:73). *)
Definition CreateThread (w : world) (ethread : Z) : outcome world :=
  match ethreads w !! ethread with
  | None => Fatal "!ethread.empty()"
  | Some e =>
      let th := new_thread w in
      let x := Thread.new (if is_idle e then Thread.IDLE else Thread.DEFAULT) ethread (alloc_stack w) in
      _ ← ThreadInit x;
      let w := put_thread w th x in
      let w := set_threads w (new_threads_ w) (current_thread_ w) (current_thread_index_ w)
                 (threads_ w ++ [ThreadData_new th]) in
      Ret (set_ethreads w
             (<[ethread := EngineThread.mk (status_ e) (Some th) (messages_ e) (is_idle e)]> (ethreads w)))
  end.

Fixpoint create_all (w : world) (l : list Z) : outcome world :=
  match l with
  | [] => Ret w
  | e :: l' => w' ← CreateThread w e; create_all w' l'
  end.

(** kernel/thread-manager.cc:66-75, ThreadManager::ProcessNewThreads. *)
Definition ProcessNewThreads (w : world) : outcome world :=
  let l := new_threads_ w in
  create_all (set_threads w [] (current_thread_ w) (current_thread_index_ w) (threads_ w)) l.

(** ** Time *)

(** What the [n]-th read of the clock returns. *)
Variable clock : nat -> Z.

Definition BootTimeMicroseconds (w : world) : Z * world :=
  (clock (reads w), set_counters w (ticks_counter_ w) (ev_done_total_ w) (ev_done_checkpoint_ w) (S (reads w))).

(** kernel/thread-manager.cc:83-88, the message of a timer. *)
Definition timeout_message (id : Z) : ThreadMessage := new_message TIMEOUT_EVENT None [] 0 id.

(** Sends a message to the engine thread of a thread. *)
Definition send (w : world) (th : Z) (m : ThreadMessage) : world :=
  match objects w !! th with
  | Some x => set_ethreads w (alter (fun e => PushMessage e m) (Thread.ethread_ x) (ethreads w))
  | None => w
  end.

(** kernel/thread-manager.cc:77-90, ThreadManager::ProcessTimeouts; the number of
    timers is enough fuel. *)
Definition ProcessTimeouts (w : world) : outcome world :=
  let '(ticks_now, w) := BootTimeMicroseconds w in
  '(w', q) ← Timeouts.drain (fun w t => send w t.1 (timeout_message t.2))
               (Timeouts.pq_size (timeouts_ w)) ticks_now (timeouts_ w) w;
  Ret (set_timeouts w' q).

(** kernel/thread-manager.cc:92-94, ThreadManager::TimerInterruptNotify. *)
Definition TimerInterruptNotify (w : world) : world :=
  set_counters w (u64 (ticks_counter_ w + 1)) (ev_done_total_ w) (ev_done_checkpoint_ w) (reads w).

(** kernel/thread-manager.cc:96-101, ThreadManager::SetTimeout. *)
Definition SetTimeout (w : world) (th timeout_id timeout_ms : Z) : world :=
  let '(time_now, w) := BootTimeMicroseconds w in
  let when := u64 (time_now + u64 (timeout_ms * 1000)) in
  set_timeouts w (Timeouts.Set_ (timeouts_ w) (th, timeout_id) when).

(** kernel/thread-manager.h:223-225, ThreadManager::SubmitEvWork. *)
Definition SubmitEvWork (w : world) (ev_count : Z) : world :=
  set_counters w (ticks_counter_ w) (u64 (ev_done_total_ w + ev_count)) (ev_done_checkpoint_ w) (reads w).

(** kernel/thread-manager.h:234-236, ThreadManager::SetEvCheckpoint. *)
Definition SetEvCheckpoint (w : world) : world :=
  set_counters w (ticks_counter_ w) (ev_done_total_ w) (ev_done_total_ w) (reads w).

(** kernel/thread-manager.h:238-240, ThreadManager::CanHalt. *)
Definition CanHalt (w : world) : bool := ev_done_checkpoint_ w =? ev_done_total_ w.

(** ** Natives *)

(** Whether a value is a function. *)
Variable is_function : Z -> bool.

(** kernel/native-object.cc:203-215, SetTimer. *)
Definition SetTimer (w : world) (th cb delay : Z) (autoreset : bool) : outcome (Z * world) :=
  x ← get_thread w th;
  _ ← rt_assert (is_function cb) "cb->IsFunction()";
  let '(i, x) := Thread.AddTimeoutData x (Thread.TimeoutData_new cb delay autoreset) in
  let index := u32 (Z.of_nat i) in
  Ret (index, SetTimeout (put_thread w th x) th index delay).

(** What a running script does: the natives it calls, and the interrupts that arrive
    while it runs, and the tasks that V8 posts.  The delay of a timer is the 32-bit value
    of the argument, that of a task is in microseconds. *)
Inductive action : Type :=
  | CallSetTimer (cb delay : Z) (autoreset : bool)
  | CallClearTimer (id : Z)
  | CallSetImmediate (cb : Z)
  | CallIrqOn (irq_number cb : Z)
  | Interrupt (number : Z)
  | Tick
  | PostTask (task : Z)
  | PostDelayedTask (task delay_us : Z).

(** kernel/native-object.cc:217-230, NativesObject::SetImmediate, with a function. *)
Definition SetImmediate (w : world) (th cb : Z) : outcome world :=
  x ← get_thread w th;
  let '(i, x) := Thread.PutObject x cb in
  Ret (send (put_thread w th x) th (new_message SET_IMMEDIATE None [] 0 (u32 (Z.of_nat i)))).

(** kernel/native-object.cc:1101-1118, ResourceIRQObject::On, with a function. *)
Definition IrqOn (w : world) (th irq_number cb : Z) : outcome world :=
  x ← get_thread w th;
  let '(i, x) := Thread.PutObject x cb in
  let w := put_thread w th x in
  d ← IrqDispatcher.Bind (irqs w) irq_number (Thread.ethread_ x) (u32 (Z.of_nat i));
  Ret (set_irqs w d).

(** kernel/native-object.cc:196-201, NativesObject::ClearTimer. *)
Definition ClearTimer (w : world) (th id : Z) : outcome (bool * world) :=
  x ← get_thread w th;
  let '(b, x) := Thread.FlagTimeoutCleared x (u32 id) in Ret (b, put_thread w th x).

(** kernel/native-object.cc:232-248, NativesObject::SetTimeout and SetInterval
    (and the first lines of the other natives): an argument that is not a function
    throws and changes nothing. *)
Definition act (th : Z) (w : world) (a : action) : outcome world :=
  match a with
  | CallSetTimer cb delay autoreset =>
      if is_function cb then '(_, w) ← SetTimer w th cb (u32 delay) autoreset; Ret w else Ret w
  | CallClearTimer id => '(_, w) ← ClearTimer w th id; Ret w
  | CallSetImmediate cb => if is_function cb then SetImmediate w th cb else Ret w
  | CallIrqOn n cb => if is_function cb then IrqOn w th n cb else Ret w
  | Interrupt n => d ← IrqDispatcher.Raise 0 (irqs w) n; Ret (set_irqs w d)
  | Tick => Ret (TimerInterruptNotify w)
  | PostTask task => p ← V8Platform.CallOnForegroundThread (v8_platform w) task; Ret (set_platform p w)
  | PostDelayedTask task delay =>
      let '(time_now, w) := BootTimeMicroseconds w in
      p ← V8Platform.CallDelayedOnForegroundThread (v8_platform w) task time_now delay; Ret (set_platform p w)
  end.

Fixpoint act_all (th : Z) (w : world) (l : list action) : outcome world :=
  match l with
  | [] => Ret w
  | a :: l' => w' ← act th w a; act_all th w' l'
  end.

(** ** The event loop *)

(** The JavaScript that the event loop runs. *)
Inductive js_call : Type :=
  | RunScript (code filename : TransportData.jsval)
  | CallWrapper (fn : option Z) (sender : Z) (args : TransportData.jsval) (index : Z)
  | Resolve (resolver : Z) (v : TransportData.jsval)
  | Reject (resolver : Z) (v : TransportData.jsval)
  | CallFunction (fn : Z).

(** What JavaScript does; a script that does not compile does nothing. *)
Variable js : js_call -> world -> list action.
(** [v8::String::Utf8Value] of a string. *)
Variable utf8_value : TransportData.jsval -> list Z.
(** The index and the export id of the ExternalFunction at an address. *)
Variable efn_at : Z -> Z * Z.

Definition run_js (th : Z) (c : js_call) (w : world) : outcome world := act_all th w (js c w).

Definition is_string (v : TransportData.jsval) : bool :=
  match v with TransportData.JString _ | TransportData.JUtf8 _ => true | _ => false end.

(** kernel/v8utils.h:94-102, V8Utils::ToString: the bytes up to the first zero. *)
Fixpoint c_string (bs : list Z) : list Z :=
  match bs with
  | [] => []
  | b :: bs' => if b =? 0 then [] else b :: c_string bs'
  end.

Definition unpack (m : ThreadMessage) : outcome TransportData.jsval :=
  TransportData.Unpack (TransportData.mkSt ∅ (data_ m) []).

(** kernel/thread.cc:206-229, the EVALUATE case of Thread::Run. *)
Definition on_evaluate (th : Z) (w : world) (m : ThreadMessage) : outcome world :=
  x ← get_thread w th;
  unpacked ← unpack m;
  match unpacked with
  | TransportData.JArray arr =>
      let code := default TransportData.JUndefined (arr !! 0%nat) in
      let filename := default TransportData.JUndefined (arr !! 1%nat) in
      _ ← rt_assert (is_string code) "code->IsString()";
      _ ← rt_assert (is_string filename) "filename->IsString()";
      let file := match Thread.filename_ x with
                  | [] => c_string (utf8_value filename) | f => f end in
      run_js th (RunScript code filename)
        (put_thread w th (Thread.set_stats x (Thread.terminate_ x) (Thread.runtime_ x) (Thread.ev_count_ x) file))
  | _ => Fatal "unpacked->IsArray()"
  end.

(** kernel/thread.cc:230-257, the FUNCTION_CALL case. *)
Definition on_function_call (th : Z) (w : world) (m : ThreadMessage) : outcome world :=
  x ← get_thread w th;
  unpacked ← unpack m;
  _ ← rt_assert (negb (ptr_ m =? 0)) "efn";
  let '(index, export_id) := efn_at (ptr_ m) in
  fnval ← FunctionExports.Get (Thread.exports_ x) index export_id;
  _ ← rt_assert (match fnval with Some f => is_function f | None => true end) "fnval->IsFunction()";
  _ ← rt_assert (match Thread.call_wrapper_ x with Some _ => true | None => false end) "!call_wrapper_.IsEmpty()";
  s ← sender m;
  run_js th (CallWrapper fnval s unpacked (recv_index_ m)) w.

(** kernel/thread.cc:258-283, the FUNCTION_RETURN_RESOLVE and FUNCTION_RETURN_REJECT
    cases; a promise that was taken already is an empty handle. *)
Definition on_function_return (th : Z) (w : world) (m : ThreadMessage) : outcome world :=
  x ← get_thread w th;
  unpacked ← unpack m;
  '(resolver, x) ← Thread.TakePromise x (recv_index_ m);
  match resolver with
  | None => Fatal "empty handle"
  | Some r =>
      run_js th (if decide (type_ m = FUNCTION_RETURN_RESOLVE) then Resolve r unpacked else Reject r unpacked)
        (put_thread w th x)
  end.

(** kernel/thread.cc:284-307, the TIMEOUT_EVENT case. *)
Definition on_timeout (th : Z) (w : world) (m : ThreadMessage) : outcome world :=
  x ← get_thread w th;
  _ ← rt_assert (recv_index_ m <? 2 ^ 32 - 1) "recv_index < std::numeric_limits<uint32_t>::max()";
  let timeout_id := u32 (recv_index_ m) in
  '(data, x) ← Thread.TakeTimeoutData x timeout_id;
  match data with
  | None => Fatal "!cb_.IsEmpty()"
  | Some data =>
      if Thread.cleared_ data then Ret (put_thread w th x)
      else
        _ ← rt_assert (is_function (Thread.cb_ data)) "fnv->IsFunction()";
        let w :=
          if Thread.autoreset_ data then
            let '(i, x) := Thread.AddTimeoutData x data in
            SetTimeout (put_thread w th x) th (u32 (Z.of_nat i)) (Thread.delay_ data)
          else put_thread w th x in
        run_js th (CallFunction (Thread.cb_ data)) w
  end.

(** kernel/thread.cc:308-317, the IRQ_RAISE case. *)
Definition on_irq (th : Z) (w : world) (m : ThreadMessage) : outcome world :=
  x ← get_thread w th;
  fnv ← Thread.GetObject x (recv_index_ m);
  match fnv with
  | None => Fatal "empty handle"
  | Some f =>
      _ ← rt_assert (is_function f) "fnv->IsFunction()";
      run_js th (CallFunction f) w
  end.

(** kernel/thread.cc:318-327, the SET_IMMEDIATE case. *)
Definition on_immediate (th : Z) (w : world) (m : ThreadMessage) : outcome world :=
  x ← get_thread w th;
  '(fnv, x) ← Thread.TakeObject x (recv_index_ m);
  match fnv with
  | None => Fatal "empty handle"
  | Some f =>
      _ ← rt_assert (is_function f) "fnv->IsFunction()";
      run_js th (CallFunction f) (put_thread w th x)
  end.

(** kernel/thread.cc:203-333, the switch of Thread::Run. *)
Definition handle (th : Z) (w : world) (m : ThreadMessage) : outcome world :=
  match type_ m with
  | EVALUATE => on_evaluate th w m
  | FUNCTION_CALL => on_function_call th w m
  | FUNCTION_RETURN_RESOLVE | FUNCTION_RETURN_REJECT => on_function_return th w m
  | TIMEOUT_EVENT => on_timeout th w m
  | IRQ_RAISE => on_irq th w m
  | SET_IMMEDIATE => on_immediate th w m
  | EMPTY => Ret w
  end.

(** kernel/thread.cc:197-338, the loop of Thread::Run over the messages; null
    messages are skipped. *)
Fixpoint handle_all (th : Z) (w : world) (ms : list (option ThreadMessage)) (ev_count : Z)
  : outcome (world * Z) :=
  match ms with
  | [] => Ret (w, ev_count)
  | None :: ms' => handle_all th w ms' ev_count
  | Some m :: ms' => w' ← handle th w m; handle_all th w' ms' (u64 (ev_count + 1))
  end.

(** kernel/thread.cc:364-391, the end of Thread::Run: the counters, the run time and
    the decision to go on. *)
Definition run_end (th : Z) (w : world) (time_now ev_count : Z) : outcome (bool * world) :=
  let w := if ev_count >? 0 then SubmitEvWork w ev_count else w in
  let '(time_now_end, w) := BootTimeMicroseconds w in
  x ← get_thread w th;
  let runtime := if time_now_end <? time_now then Thread.runtime_ x
                 else u64 (Thread.runtime_ x + (time_now_end - time_now)) in
  let stop := (Thread.ref_count_ x =? 0) || Thread.terminate_ x in
  let x := Thread.set_stats x stop runtime 
    (if ev_count >? 0 then u64 (Thread.ev_count_ x + ev_count) else Thread.ev_count_ x) (Thread.filename_ x) in
  Ret (negb stop, put_thread w th x).

(** kernel/thread.cc:153-392, Thread::Run.  An uncaught exception is only printed; an
    idle thread halts the processor when it can. *)
Definition Run (w : world) (th : Z) : outcome (bool * world) :=
  x ← get_thread w th;
  _ ← rt_assert (bool_decide (Thread.type_ x <> Thread.TERMINATED)) "ThreadType::TERMINATED != type_";
  if decide (Thread.type_ x = Thread.IDLE) then Ret (true, SetEvCheckpoint w)
  else
    _ ← rt_assert (Thread.iv8_ x) "iv8_";
    let '(time_now, w) := BootTimeMicroseconds w in
    match ethreads w !! Thread.ethread_ x with
    | None => Fatal "ethread_"
    | Some e =>
        let '(messages, e) := TakeMessages e in
        match messages with
        | [] => Ret (true, w)
        | _ =>
            let w := set_ethreads w (<[Thread.ethread_ x := e]> (ethreads w)) in
            let w := put_thread w th
              (Thread.set_type x (Thread.type_ x) (Thread.iv8_ x) true (Thread.call_wrapper_ x)) in
            '(w, ev_count) ← handle_all th w messages 0;
            run_end th w time_now ev_count
        end
    end.

(** What a task of V8 does, and how many tasks may run in a turn. *)
Variable task_Run : Z -> world -> outcome world.
Variable tasks_fuel : nat.

(** kernel/thread-manager.cc:109-110, the tasks of V8 that ThreadManager::Preempt runs. *)
Definition run_tasks (w : world) : outcome world :=
  w ← V8Platform.RunBackgroundTasks v8_platform set_platform task_Run tasks_fuel w;
  V8Platform.RunForegroundTasks v8_platform set_platform task_Run BootTimeMicroseconds tasks_fuel w.

(** kernel/thread-manager.cc:103-117, ThreadManager::Preempt: the thread to switch to,
    if it is another one. *)
Definition Preempt (w : world) : outcome (option Z * world) :=
  let curr_thread := current_thread_ w in
  '(new_thread, w) ← SwitchToNextThread w;
  w ← ProcessNewThreads w;
  w ← ProcessTimeouts w;
  w ← run_tasks w;
  Ret (if decide (curr_thread = Some new_thread) then None else Some new_thread, w).

(** ** The scheduler *)

Lemma swap_pop_spec {A} i (l : list A) d :
  l !! i = Some d ->
  take i (swap_pop i l) = take i l /\ drop i (swap_pop i l) ≡ₚ drop (S i) l /\
  S (length (swap_pop i l)) = length l.
Proof.
  intros Hi. unfold swap_pop. destruct l as [| x l0 _] using rev_ind; [done |].
  rewrite last_snoc. pose proof (lookup_lt_Some _ _ _ Hi) as Hl. rewrite length_app in Hl. simpl in Hl.
  destruct (decide (i = length l0)) as [-> | Hne].
  - rewrite list_insert_id by (by rewrite lookup_app_r, Nat.sub_diag by lia).
    rewrite removelast_last, take_app_length, firstn_all, skipn_all.
    rewrite skipn_all2 by (rewrite length_app; simpl; lia). rewrite length_app. simpl.
    split; [done |]. split; [done | lia].
  - rewrite insert_app_l by lia. rewrite removelast_last.
    rewrite take_app_le by lia. split; [by rewrite take_insert_ge |].
    rewrite length_insert, length_app. simpl. split; [| lia].
    rewrite (drop_S _ x) by (by rewrite list_lookup_insert_eq by lia).
    rewrite drop_insert_lt by lia. rewrite drop_app_le by lia. apply Permutation_cons_append.
Qed.

Lemma sweep_spec fuel g : forall it l,
  (length l <= it + fuel)%nat ->
  exists l', sweep fuel g it l = Ret l' /\
    l' ≡ₚ take it l ++ filter (fun d => g (thread d) = false) (drop it l).
Proof.
  induction fuel as [| n IH]; intros it l Hl; cbn [sweep]; destruct (l !! it) as [d |] eqn:E.
  - apply lookup_lt_Some in E. lia.
  - apply lookup_ge_None in E. exists l. split; [done |]. rewrite (skipn_all2 l), firstn_all2 by lia.
    cbn. by rewrite app_nil_r.
  - destruct (swap_pop_spec it l d E) as (T & D & L). pose proof (lookup_lt_Some _ _ _ E).
    destruct (g (thread d)) eqn:Eg.
    + destruct (IH it (swap_pop it l)) as (l' & -> & P); [lia |]. exists l'. split; [done |].
      rewrite P, T, D, (drop_S l d it) by done. rewrite filter_cons_False by congruence. done.
    + destruct (IH (S it) l) as (l' & -> & P); [lia |]. exists l'. split; [done |].
      rewrite P, (take_S_r l it d) by done. rewrite (drop_S l d it) by done.
      rewrite filter_cons_True by done. by rewrite <- app_assoc.
  - apply lookup_ge_None in E. exists l. split; [done |]. rewrite (skipn_all2 l), firstn_all2 by lia.
    cbn. by rewrite app_nil_r.
Qed.

(** The [j]-th entry is of a thread that has not ended, with priority [p]. *)
Definition runs (f : Z -> Thread.ThreadType * Z) (l : list ThreadData) (j : nat) (p : Z) : Prop :=
  exists d ty, l !! j = Some d /\ f (thread d) = (ty, p) /\ ty <> Thread.TERMINATED.

Lemma scan_step_spec s i p :
  max (scan_step s i p) = Z.max (max s) p /\ min (scan_step s i p) = Z.min (min s) p /\
  max_index (scan_step s i p) = if p >? max s then i else max_index s.
Proof.
  unfold scan_step. destruct (Z.gtb_spec p (max s)); cbn;
    destruct (Z.ltb_spec p (min s)); cbn; split_and!; lia || done.
Qed.

Lemma scan_loop_spec f l : forall i s s' l',
  scan_loop f i l s = (s', l') ->
  map thread l' = map thread l /\ max s <= max s' /\ min s' <= min s /\
  (forall j p, runs f l j p -> min s' <= p <= max s') /\
  (max s' = max s /\ max_index s' = max_index s \/
   exists j, max_index s' = (i + j)%nat /\ max s < max s' /\ runs f l j (max s') /\
     forall j' p, (j' < j)%nat -> runs f l j' p -> p < max s') /\
  (min s' = min s \/ exists j, runs f l j (min s')).
Proof.
  induction l as [| d l IH]; intros i s s' l' E; cbn in E.
  { injection E as <- <-. split_and!; try done; auto. intros j p (d & ty & Hd & _). by rewrite lookup_nil in Hd. }
  assert (forall j p, runs f (d :: l) (S j) p <-> runs f l j p) as RS by done.
  destruct (f (thread d)) as [ty p] eqn:Ef. case_decide as Ht.
  - destruct (scan_loop f (S i) l s) as [s1 l1] eqn:E1. injection E as <- <-.
    destruct (IH _ _ _ _ E1) as (H1 & H2 & H3 & H4 & H5 & H6). split_and!; try done.
    + cbn. by rewrite H1.
    + intros [| j] q Hq; [| by apply (H4 j); apply RS in Hq]. destruct Hq as (d' & ty' & [= <-] & Hf & Hne). congruence.
    + destruct H5 as [H5 | (j & E5 & G5 & R5 & M5)]; [by left | right]. exists (S j). split_and!; [lia | done | done |].
      intros [| j'] q Hj Hq; [| apply (M5 j'); [lia | done]].
      destruct Hq as (d' & ty' & [= <-] & Hf & Hne). congruence.
    + destruct H6 as [H6 | [j H6]]; [by left | right; by exists (S j)].
  - destruct (scan_loop f (S i) l (scan_step s i p)) as [s1 l1] eqn:E1. injection E as <- <-.
    destruct (IH _ _ _ _ E1) as (H1 & H2 & H3 & H4 & H5 & H6).
    destruct (scan_step_spec s i p) as (S1 & S2 & S3). rewrite S1 in *. rewrite S2 in *. rewrite S3 in *.
    assert (runs f (d :: l) 0 p) as R0 by (by exists d, ty).
    assert (forall q, runs f (d :: l) 0 q -> q = p) as R0'.
    { intros q (d' & ty' & [= <-] & Hf & Hne). congruence. }
    split_and!; try lia.
    + cbn. by rewrite H1.
    + intros [| j] q Hq; [apply R0' in Hq as ->; lia | by apply (H4 j); apply RS in Hq].
    + destruct H5 as [[H5 I5] | (j & E5 & G5 & R5 & M5)].
      * rewrite H5, I5. destruct (Z.gtb_spec p (max s)); [right | left; split; [lia | done]].
        exists 0%nat. rewrite Z.max_r by lia. split_and!; [lia | lia | done | lia].
      * right. exists (S j). split_and!; [lia | lia | done |].
        intros [| j'] q Hj Hq; [| apply (M5 j'); [lia | done]]. apply R0' in Hq as ->. lia.
    + destruct H6 as [H6 | [j H6]]; [| right; by exists (S j)].
      rewrite H6. destruct (Z.min_spec (min s) p) as [[_ ->] | [_ ->]]; [by left | right; by exists 0%nat].
Qed.

(** Every entry is of a thread that has not ended, with a 32-bit priority. *)
Definition all_run (f : Z -> Thread.ThreadType * Z) (l : list ThreadData) : Prop :=
  forall j d, l !! j = Some d -> (f (thread d)).1 <> Thread.TERMINATED /\ in_range 32 (f (thread d)).2.

Lemma all_run_runs f l j d :
  all_run f l -> l !! j = Some d -> runs f l j (f (thread d)).2.
Proof. intros A E. destruct (A j d E) as [A1 _]. exists d, (f (thread d)).1. split_and!; try done. by destruct (f (thread d)). Qed.

Lemma scan_pick f l s l' :
  all_run f l -> l <> [] -> scan_loop f 0 l scan0 = (s, l') ->
  map thread l' = map thread l /\
  (max s <> min s -> runs f l (max_index s) (max s)) /\
  (forall j p, runs f l j p -> min s <= p <= max s) /\
  (max s <> min s -> exists i j p q, runs f l i p /\ runs f l j q /\ p <> q).
Proof.
  intros A Hne E. destruct (scan_loop_spec _ _ _ _ _ _ E) as (H1 & H2 & H3 & H4 & H5 & H6). cbn in H2, H3, H5, H6.
  destruct l as [| d0 l]; [done |].
  pose proof (all_run_runs f _ 0 d0 A eq_refl) as R0. pose proof (H4 _ _ R0) as B0.
  destruct (A 0%nat d0 eq_refl) as [_ P0]. set (p0 := (f (thread d0)).2) in *. unfold in_range in P0.
  change (2 ^ 32) with 4294967296 in *.
  split_and!; try done.
  - intros Hm. destruct H5 as [[E5 _] | (j & -> & _ & R & _)]; [| done].
    destruct H6 as [E6 | [j R6]]; [lia |]. pose proof (H4 _ _ R6). destruct R6 as (d & ty & Ed & Ef & _).
    pose proof (proj2 (A _ _ Ed)) as B. rewrite Ef in B. cbn in B. unfold in_range in B. lia.
  - intros Hm. destruct H5 as [[E5 _] | (j & _ & _ & R & _)].
    + assert (p0 = 0) by lia. destruct H6 as [E6 | [j R6]]; [lia |]. exists j, 0%nat, (min s), p0. split_and!; [done | done | lia].
    + destruct H6 as [E6 | [k R6]]; [exists 0%nat, j, p0, (max s); split_and!; [done | done | lia] |].
      exists k, j, (min s), (max s). split_and!; [done | done | lia].
Qed.

(** The entries of the threads that stay, and what the scheduler relies on: the thread
    objects exist, and only the current thread can have ended. *)
Definition kept (w : world) : list ThreadData := filter (fun d => gone w (thread d) = false) (threads_ w).

Definition sched_ok (w : world) : Prop :=
  0 <= current_thread_index_ w < 2 ^ 63 /\
  Forall (fun d => exists x, objects w !! thread d = Some x /\ in_range 32 (Thread.priority_ x) /\
    (Thread.type_ x = Thread.TERMINATED -> current_thread_ w = Some (thread d))) (threads_ w).

Lemma kept_runs w l : sched_ok w -> l ≡ₚ kept w -> all_run (info w) l.
Proof.
  intros [_ F] P j d E. assert (d ∈ kept w) as Hd by (rewrite <- P; by eapply list_elem_of_lookup_2).
  apply list_elem_of_filter in Hd as [G Hd]. rewrite Forall_forall in F.
  destruct (F d Hd) as (x & Ex & Hp & Ht). unfold gone in G. unfold info in *. rewrite Ex in *. cbn in *.
  split; [| done]. intros T. rewrite (Ht T), !bool_decide_true in G by done. done.
Qed.

Lemma sweep_kept w :
  exists l, sweep (length (threads_ w)) (gone w) 0 (threads_ w) = Ret l /\ l ≡ₚ kept w.
Proof. destruct (sweep_spec (length (threads_ w)) (gone w) 0 (threads_ w)) as (l & E & P); [lia |]. by exists l. Qed.

(** What a switch does once the entries [l] are left. *)
Definition switched (w : world) (l : list ThreadData) (d : ThreadData) (x : Thread.t) (w' : world) : Prop :=
  map thread (threads_ w') = map thread l /\ 0 <= current_thread_index_ w' /\
  l !! Z.to_nat (current_thread_index_ w') = Some d /\ current_thread_ w' = Some (thread d) /\
  objects w !! thread d = Some x /\ objects w' = <[thread d := Thread.ResetPriority x]> (objects w) /\
  (forall e, e ∈ l -> (info w (thread e)).2 <= Thread.priority_ x) /\
  ((forall e e', e ∈ l -> e' ∈ l -> (info w (thread e)).2 = (info w (thread e')).2) ->
   current_thread_index_ w' = let i := current_thread_index_ w + 1 in
     if i <? Z.of_nat (length l) then i else 0).

Lemma switch_spec w l :
  sweep (length (threads_ w)) (gone w) 0 (threads_ w) = Ret l -> l <> [] -> all_run (info w) l ->
  0 <= current_thread_index_ w < 2 ^ 63 ->
  exists d x w', SwitchToNextThread w = Ret (thread d, w') /\ switched w l d x w'.
Proof.
  intros El Hl A Hi. change (2 ^ 63) with 9223372036854775808 in Hi.
  unfold SwitchToNextThread. rewrite El. cbn [mbind outcome_bind].
  replace (Nat.eqb (length l) 0) with false by (by destruct l). cbn [negb rt_assert mbind outcome_bind].
  destruct (scan_loop (info w) 0 l scan0) as [s l'] eqn:Es.
  destruct (scan_pick _ _ _ _ A Hl Es) as (M & R & B & D).
  assert (length l' = length l) as L by (by rewrite <- (length_map thread l'), M, length_map).
  unfold u64. rewrite wrap_small by (unfold in_range; lia).
  rewrite Z.geb_leb, L. set (i := if negb (max s =? min s) then _ else _).
  assert (exists d, l !! Z.to_nat i = Some d /\ 0 <= i /\ (max s <> min s -> (info w (thread d)).2 = max s)) as (d & Ed & Hi0 & Hd).
  { subst i. destruct (Z.eqb_spec (max s) (min s)) as [E | E]; cbn [negb].
    - destruct (Z.leb_spec (Z.of_nat (length l)) (current_thread_index_ w + 1)).
      + destruct l as [| d l]; [done |]. by exists d.
      + destruct (lookup_lt_is_Some_2 l (Z.to_nat (current_thread_index_ w + 1))) as [d Ed]; [lia |].
        exists d. split_and!; [done | lia | done].
    - destruct (R E) as (d & ty & Ed & Ef & _). rewrite Nat2Z.id. exists d. split_and!; [done | lia |]. by rewrite Ef. }
  assert (map thread l' !! Z.to_nat i = Some (thread d)) as Ed' by (by rewrite M, list_lookup_fmap, Ed).
  rewrite list_lookup_fmap in Ed'. destruct (l' !! Z.to_nat i) as [d' |] eqn:El'; [| done].
  cbn in Ed'. injection Ed' as Ed'. rewrite Ed'.
  pose proof (all_run_runs _ _ _ _ A Ed) as Rd. pose proof (B _ _ Rd) as Bd.
  destruct (A _ _ Ed) as [A1 _]. unfold info in A1, Hd, Bd. unfold get_thread.
  destruct (objects w !! thread d) as [x |] eqn:Ex; [| done]. cbn in A1, Hd, Bd. cbn [mbind outcome_bind].
  eexists d, x, _. split; [done |].
  unfold switched. cbn [threads_ current_thread_ current_thread_index_ objects put_thread set_objects set_threads].
  split_and!; try done.
  - intros e (j & Ej)%list_elem_of_lookup. pose proof (B _ _ (all_run_runs _ _ _ _ A Ej)).
    destruct (decide (max s = min s)) as [E | E]; [lia | rewrite (Hd E); lia].
  - intros All. subst i. destruct (Z.eqb_spec (max s) (min s)) as [E | E]; cbn [negb].
    + destruct (Z.leb_spec (Z.of_nat (length l)) (current_thread_index_ w + 1)),
        (Z.ltb_spec (current_thread_index_ w + 1) (Z.of_nat (length l))); lia || done.
    + destruct (D E) as (a & b & p & q & (da & ? & Ea & Fa & _) & (db & ? & Eb & Fb & _) & Hpq). exfalso. apply Hpq.
      apply list_elem_of_lookup_2 in Ea, Eb. pose proof (All da db Ea Eb) as X. by rewrite Fa, Fb in X.
Qed.

(** C24. The scheduler: among the threads that have not ended it picks one of the highest
    priority, drops the entry of the current thread when that has ended and no other
    entry, makes the pick current and resets its priority and nothing else; when all
    priorities are equal it picks the next entry in turn.  Without a thread left the
    machine stops. *)
Theorem SwitchToNextThread_correct w (Hok : sched_ok w) :
  (kept w = [] -> SwitchToNextThread w = Fatal "threads_.size() > 0") /\
  (kept w <> [] -> exists th w' x, SwitchToNextThread w = Ret (th, w') /\
    map thread (threads_ w') ≡ₚ map thread (kept w) /\
    map thread (threads_ w') !! Z.to_nat (current_thread_index_ w') = Some th /\
    current_thread_ w' = Some th /\ objects w !! th = Some x /\ Thread.type_ x <> Thread.TERMINATED /\
    (forall d, d ∈ kept w -> (info w (thread d)).2 <= Thread.priority_ x) /\
    objects w' = <[th := Thread.ResetPriority x]> (objects w) /\
    ((forall d e, d ∈ kept w -> e ∈ kept w -> (info w (thread d)).2 = (info w (thread e)).2) ->
     current_thread_index_ w' = let i := current_thread_index_ w + 1 in
       if i <? Z.of_nat (length (kept w)) then i else 0)).
Proof.
  destruct (sweep_kept w) as (l & El & P). split.
  { intros E. unfold SwitchToNextThread. rewrite El. cbn [mbind outcome_bind].
    rewrite E in P. apply Permutation_nil_r in P as ->. done. }
  intros Hne. assert (l <> []) as Hl by (intros ->; by apply Permutation_nil_l in P).
  pose proof (kept_runs w l Hok P) as A.
  destruct (switch_spec w l El Hl A (proj1 Hok)) as (d & x & w' & E & M & I0 & Id & C & Ex & O & G & N).
  exists (thread d), w', x. destruct (A _ _ Id) as [A1 _]. unfold info in A1. rewrite Ex in A1.
  split_and!; try done.
  - by rewrite M, P.
  - by rewrite M, list_lookup_fmap, Id.
  - intros e He. apply G. by rewrite P.
  - intros All. rewrite N; [cbn zeta; by rewrite (Permutation_length P) |]. intros e e' He He'. rewrite P in He, He'. by apply All.
Qed.

(** [n] switches in a row and the threads they pick. *)
Fixpoint switches (n : nat) (w : world) : outcome (list Z * world) :=
  match n with
  | O => Ret ([], w)
  | S k => '(th, w) ← SwitchToNextThread w; '(ths, w) ← switches k w; Ret (th :: ths, w)
  end.

(** Threads of equal priority, none of which has ended. *)
Definition equals (w : world) (ths : list Z) (i : nat) : Prop :=
  map thread (threads_ w) = ths /\ current_thread_index_ w = Z.of_nat i /\ (i < length ths)%nat /\
  Z.of_nat (length ths) < 2 ^ 63 /\
  Forall (fun th => exists x, objects w !! th = Some x /\ Thread.priority_ x = 1 /\
    Thread.type_ x <> Thread.TERMINATED) ths.

Lemma sweep_none fuel g : forall it l,
  (length l <= it + fuel)%nat -> (forall d, d ∈ l -> g (thread d) = false) -> sweep fuel g it l = Ret l.
Proof.
  induction fuel as [| n IH]; intros it l Hl Hg; cbn [sweep]; destruct (l !! it) as [d |] eqn:E; try done.
  - apply lookup_lt_Some in E. lia.
  - rewrite (Hg d) by (by eapply list_elem_of_lookup_2). apply IH; [lia | done].
Qed.

Lemma equals_kept w ths i : equals w ths i -> forall d, d ∈ threads_ w -> gone w (thread d) = false /\
  exists x, objects w !! thread d = Some x /\ Thread.priority_ x = 1 /\ Thread.type_ x <> Thread.TERMINATED.
Proof.
  intros (E & _ & _ & _ & F) d Hd. rewrite Forall_forall in F.
  destruct (F (thread d)) as (x & Ex & Hp & Ht). { rewrite <- E. by apply list_elem_of_fmap_2. }
  split; [| by exists x]. unfold gone, info. rewrite Ex. cbn. by rewrite bool_decide_false.
Qed.

Lemma equals_step w ths i :
  equals w ths i ->
  let j := if (S i <? length ths)%nat then S i else 0%nat in
  exists th w', SwitchToNextThread w = Ret (th, w') /\ ths !! j = Some th /\ equals w' ths j.
Proof.
  intros Q0. pose proof (equals_kept w ths i Q0) as K. destruct Q0 as (E & Ei & Hi & Hn & F). cbn zeta.
  assert (length (threads_ w) = length ths) as El by (by rewrite <- E, length_map).
  assert (forall d, d ∈ threads_ w -> (info w (thread d)).2 = 1) as H1.
  { intros d Hd. destruct (K d Hd) as [_ (x & Ex & Hp & _)]. unfold info. by rewrite Ex. }
  destruct (switch_spec w (threads_ w)) as (d & x & w' & Es & M & I0 & Id & C & Ex & O & _ & N).
  - apply sweep_none; [lia | intros d Hd; by apply K].
  - intros Z0. rewrite Z0 in El. simpl in El. lia.
  - intros j d Ed. apply list_elem_of_lookup_2 in Ed. rewrite (H1 d Ed).
    destruct (K d Ed) as [_ (x & Ex & _ & Ht)]. unfold info. by rewrite Ex.
  - change (2 ^ 63) with 9223372036854775808 in *. lia.
  - assert (current_thread_index_ w' = Z.of_nat (if (S i <? length ths)%nat then S i else 0%nat)) as Ei'.
    { rewrite N; [| intros e e' He He'; by rewrite !H1]. cbn zeta. rewrite Ei, El.
      destruct (Nat.ltb_spec (S i) (length ths)), (Z.ltb_spec (Z.of_nat i + 1) (Z.of_nat (length ths))); lia. }
    assert ((if (S i <? length ths)%nat then S i else 0) < length ths)%nat as Hj
      by (destruct (Nat.ltb_spec (S i) (length ths)); lia).
    set (j := if (S i <? length ths)%nat then S i else 0%nat) in *.
    rewrite Ei', Nat2Z.id in Id. exists (thread d), w'. split; [done |].
    split; [by rewrite <- E, list_lookup_fmap, Id |].
    split_and!; [by rewrite M | done | done | done |].
    rewrite Forall_forall in *. intros th Hth. rewrite O. destruct (decide (th = thread d)) as [-> | Hd].
    + rewrite lookup_insert_eq. exists (Thread.ResetPriority x). split_and!; try done.
      destruct (F (thread d) Hth) as (y & Ey & _ & Ht). rewrite Ex in Ey. by injection Ey as <-.
    + rewrite lookup_insert_ne by done. by apply F.
Qed.

Lemma switches_straight ths k : forall w i,
  equals w ths i -> (i + k < length ths)%nat ->
  exists w', switches k w = Ret (take k (drop (S i) ths), w') /\ equals w' ths (i + k).
Proof.
  induction k as [| k IH]; intros w i Q0 Hk; cbn [switches].
  { exists w. by rewrite Nat.add_0_r. }
  destruct (equals_step w ths i Q0) as (th & w1 & E1 & Et & Q1).
  rewrite (proj2 (Nat.ltb_lt _ _)) in Et, Q1 by lia. rewrite E1. cbn [mbind outcome_bind].
  destruct (IH w1 (S i) Q1) as (w2 & E2 & Q2); [lia |]. rewrite E2. cbn [mbind outcome_bind].
  exists w2. rewrite (drop_S ths th (S i)) by done. rewrite Nat.add_succ_r. done.
Qed.

Lemma switches_app n : forall m w,
  switches (n + m) w = ('(l1, w1) ← switches n w; '(l2, w2) ← switches m w1; Ret (l1 ++ l2, w2)).
Proof.
  induction n as [| n IH]; intros m w; cbn [Nat.add switches mbind outcome_bind].
  { by destruct (switches m w) as [[? ?] | |]. }
  destruct (SwitchToNextThread w) as [[th w1] | |]; try done. cbn [mbind outcome_bind]. rewrite IH.
  destruct (switches n w1) as [[l1 w2] | |]; try done. cbn [mbind outcome_bind].
  by destruct (switches m w2) as [[l2 w3] | |].
Qed.

(** C25. Fairness: with threads of equal priority, as many switches as there are threads
    pick each of them exactly once. *)
Theorem round_robin w ths i (Q0 : equals w ths i) :
  exists l w', switches (length ths) w = Ret (l, w') /\ l ≡ₚ ths /\ equals w' ths i.
Proof.
  pose proof Q0 as (_ & _ & Hi & _).
  replace (length ths) with ((length ths - S i) + (1 + i))%nat by lia. rewrite switches_app.
  destruct (switches_straight ths (length ths - S i) w i Q0) as (w1 & E1 & Q1); [lia |].
  rewrite E1. cbn [mbind outcome_bind]. replace (i + (length ths - S i))%nat with (length ths - 1)%nat in Q1 by lia.
  destruct (equals_step w1 ths _ Q1) as (th & w2 & E2 & Et & Q2).
  rewrite (proj2 (Nat.ltb_ge _ _)) in Et, Q2 by lia. cbn [Nat.add switches]. rewrite E2. cbn [mbind outcome_bind].
  destruct (switches_straight ths i w2 0 Q2) as (w3 & E3 & Q3); [lia |]. rewrite E3. cbn [mbind outcome_bind Nat.add] in *.
  eexists _, w3. split; [done |]. split; [| done].
  destruct ths as [| t0 ths]; [done |]. cbn in Et. injection Et as ->. cbn [length drop] in *.
  rewrite Nat.sub_succ, firstn_all2 by (rewrite length_drop; lia).
  cbn [app]. rewrite <- Permutation_middle, drop_0. apply perm_skip.
  rewrite Permutation_app_comm. by rewrite firstn_skipn.
Qed.

(** ** What the event loop keeps

    The pools of a thread, its timers, its messages and the interrupt bindings
    agree: every timeout in use has exactly one timer or one message, every
    function kept alive has exactly one binding or one message, and the reference
    count is at least what is in use. *)

Definition timeout_ids (ms : list ThreadMessage) : list Z :=
  map recv_index_ (filter (fun m => type_ m = TIMEOUT_EVENT) ms).
Definition immediate_ids (ms : list ThreadMessage) : list Z :=
  map recv_index_ (filter (fun m => type_ m = SET_IMMEDIATE) ms).
Definition timers_of (w : world) (th : Z) : list Z :=
  map (fun x => x.1.2) (filter (fun x => x.1.1 = th) (pq_elems (timeouts_ w))).
Definition bound_ids (i : IrqDispatcher.t) (et : Z) : list Z :=
  map IrqDispatcher.b_recv_index_
    (filter (fun b => IrqDispatcher.thread_ b = et) (concat (IrqDispatcher.bindings_ i))).

(** A message the kernel can have put into a queue; functions are never called across
    threads. *)
Definition message_ok (bound : list Z) (m : ThreadMessage) : Prop :=
  match type_ m with
  | EVALUATE => exists code file l, unpack m = Ret (TransportData.JArray (code :: file :: l)) /\
      is_string code = true /\ is_string file = true
  | IRQ_RAISE => recv_index_ m ∈ bound
  | FUNCTION_CALL | FUNCTION_RETURN_RESOLVE | FUNCTION_RETURN_REJECT => False
  | EMPTY | TIMEOUT_EVENT | SET_IMMEDIATE => True
  end.

(** The reference count: a reference per export, per timeout and per promise in use,
    and at least one per function kept alive. *)
Definition in_use (x : Thread.t) (k : nat) : Z :=
  Z.of_nat (length (FunctionExports.data_ (Thread.exports_ x)) + k +
    IndexedPool.count (Thread.timeout_data_ x) + IndexedPool.count (Thread.promises_ x)).
Definition accounted (x : Thread.t) : Prop :=
  exists k, (IndexedPool.count (Thread.object_handles_ x) <= k)%nat /\ Thread.ref_count_ x = u64 (in_use x k).

Definition slots (x : Thread.t) : Z :=
  Z.of_nat (length (Thread.timeout_data_ x) + length (Thread.object_handles_ x)).

Record vok (x : Thread.t) (ms : list ThreadMessage) (timers bound : list Z) : Prop := mkVok {
  vk_type : Thread.type_ x = Thread.DEFAULT /\ Thread.iv8_ x = true;
  vk_timers : timers ++ timeout_ids ms ≡ₚ Thread.live_ids (Thread.timeout_data_ x);
  vk_objects : bound ++ immediate_ids ms ≡ₚ Thread.live_ids (Thread.object_handles_ x);
  vk_msgs : Forall (message_ok bound) ms;
  vk_cbs : forall i d, IndexedPool.live (Thread.timeout_data_ x) i = Some d -> is_function (Thread.cb_ d) = true;
  vk_fns : forall i f, IndexedPool.live (Thread.object_handles_ x) i = Some f -> is_function f = true;
  vk_refs : accounted x;
  vk_slots : slots x < 2 ^ 32 - 1 }.

Definition bindings_ok (i : IrqDispatcher.t) : Prop :=
  length (IrqDispatcher.bindings_ i) = Z.to_nat IrqDispatcher.kIrqCount /\
  Forall (fun b => b = IrqDispatcher.IRQBinding_new (IrqDispatcher.thread_ b) (IrqDispatcher.b_recv_index_ b))
    (concat (IrqDispatcher.bindings_ i)).

(** The invariant of thread [th] while the messages [rest] are still to be handled. *)
Definition tinv (rest : list ThreadMessage) (w : world) (th : Z) : Prop :=
  exists x e, objects w !! th = Some x /\ ethreads w !! Thread.ethread_ x = Some e /\
    bindings_ok (irqs w) /\
    (forall th' x', objects w !! th' = Some x' -> th' <> th -> Thread.ethread_ x' <> Thread.ethread_ x) /\
    vok x (rest ++ pending e) (timers_of w th) (bound_ids (irqs w) (Thread.ethread_ x)).

(** ** The pools *)

Lemma Push_length {A} (p p' : list (option A)) v i :
  IndexedPool.Push p v = (i, p') -> (i < length p' /\ length p' <= S (length p))%nat.
Proof.
  unfold IndexedPool.Push. destruct (IndexedPool.first_empty p) as [k |] eqn:E; intros [= <- <-].
  - apply IndexedPool.first_empty_Some, lookup_lt_Some in E. rewrite length_insert. lia.
  - rewrite length_app. simpl. lia.
Qed.

Lemma Push_after_Take {A} (p p' q : list (option A)) v v' i j :
  IndexedPool.Take p i = Ret (v, p') -> IndexedPool.Push p' v' = (j, q) -> length q = length p.
Proof.
  unfold IndexedPool.Take, IndexedPool.Push. destruct (p !! i) as [y |] eqn:E; [| done]. intros [= <- <-].
  apply lookup_lt_Some in E.
  destruct (IndexedPool.first_empty _) as [k |] eqn:F; intros [= <- <-]; [by rewrite !length_insert |].
  unfold IndexedPool.first_empty in F. apply find_from_None in F. rewrite Forall_lookup in F.
  specialize (F i None). rewrite list_lookup_insert_eq in F by done. by discriminate F.
Qed.

Lemma Take_live {A} (p : list (option A)) i :
  is_Some (IndexedPool.live p i) -> exists v p', IndexedPool.Take p i = Ret (Some v, p') /\
    IndexedPool.live p i = Some v /\ length p' = length p.
Proof.
  unfold IndexedPool.live, IndexedPool.Take. intros [v Hv]. destruct (p !! i) as [y |] eqn:E; [| done].
  cbn in Hv. rewrite Hv. exists v, (<[i := None]> p). by rewrite length_insert.
Qed.

Lemma u32_index (n : nat) : Z.of_nat n < 2 ^ 32 -> u32 (Z.of_nat n) = Z.of_nat n.
Proof. intros Hn. apply wrap_small. unfold in_range. lia. Qed.

Lemma u64_pred a b : a = u64 (b + 1) -> u64 (a - 1) = u64 b.
Proof.
  intros ->. unfold u64, wrap. rewrite Zminus_mod_idemp_l. f_equal. lia.
Qed.

Lemma u64_succ a b : a = u64 b -> u64 (a + 1) = u64 (b + 1).
Proof. intros ->. unfold u64, wrap. by rewrite Zplus_mod_idemp_l. Qed.

Lemma message_ok_mono bound bound' m :
  (forall z, z ∈ bound -> z ∈ bound') -> message_ok bound m -> message_ok bound' m.
Proof. intros Hb. unfold message_ok. destruct (type_ m); auto. Qed.

Lemma timeout_ids_app a b : timeout_ids (a ++ b) = timeout_ids a ++ timeout_ids b.
Proof. unfold timeout_ids. by rewrite filter_app, map_app. Qed.
Lemma immediate_ids_app a b : immediate_ids (a ++ b) = immediate_ids a ++ immediate_ids b.
Proof. unfold immediate_ids. by rewrite filter_app, map_app. Qed.

#[local] Instance timeout_ids_Permutation : Proper (Permutation ==> Permutation) timeout_ids.
Proof. intros a b P. unfold timeout_ids. by rewrite P. Qed.
#[local] Instance immediate_ids_Permutation : Proper (Permutation ==> Permutation) immediate_ids.
Proof. intros a b P. unfold immediate_ids. by rewrite P. Qed.

(** The invariant only depends on the messages, timers and bindings as multisets. *)
Lemma vok_perm x ms ms' ts ts' bs bs' :
  ms ≡ₚ ms' -> ts ≡ₚ ts' -> bs ≡ₚ bs' -> vok x ms ts bs -> vok x ms' ts' bs'.
Proof.
  intros P1 P2 P3 [V1 V2 V3 V4 V5 V6 V7 V8]. split; try done.
  - by rewrite <- P1, <- P2.
  - by rewrite <- P1, <- P3.
  - rewrite <- P1. eapply Forall_impl; [exact V4 |]. intros m. apply message_ok_mono. intros z. by rewrite P3.
Qed.

(** Messages that belong to no pool. *)
Definition neutral (m : ThreadMessage) : Prop := type_ m <> TIMEOUT_EVENT /\ type_ m <> SET_IMMEDIATE.

Lemma ids_cons_neutral m ms : neutral m -> timeout_ids (m :: ms) = timeout_ids ms /\ immediate_ids (m :: ms) = immediate_ids ms.
Proof. intros [N1 N2]. unfold timeout_ids, immediate_ids. by rewrite !filter_cons_False. Qed.

Lemma vok_add_neutral x m ms ts bs : neutral m -> message_ok bs m -> vok x ms ts bs -> vok x (m :: ms) ts bs.
Proof.
  intros N Hm [V1 V2 V3 V4 V5 V6 V7 V8]. destruct (ids_cons_neutral m ms N) as [E1 E2].
  split; try done; [by rewrite E1 | by rewrite E2 | by constructor].
Qed.

Lemma vok_drop_neutral x m ms ts bs : neutral m -> vok x (m :: ms) ts bs -> vok x ms ts bs.
Proof.
  intros N [V1 V2 V3 V4 V5 V6 V7 V8]. destruct (ids_cons_neutral m ms N) as [E1 E2].
  rewrite E1 in V2. rewrite E2 in V3. split; try done. by apply Forall_cons in V4 as [_ V4].
Qed.

(** Changes of the thread that keep its pools and its count. *)
Lemma vok_thread x y ms ts bs :
  Thread.type_ y = Thread.type_ x -> Thread.iv8_ y = Thread.iv8_ x -> Thread.exports_ y = Thread.exports_ x ->
  Thread.ref_count_ y = Thread.ref_count_ x -> Thread.timeout_data_ y = Thread.timeout_data_ x ->
  Thread.object_handles_ y = Thread.object_handles_ x -> Thread.promises_ y = Thread.promises_ x ->
  vok x ms ts bs -> vok y ms ts bs.
Proof.
  intros E1 E2 E3 E4 E5 E6 E7 [V1 V2 V3 V4 V5 V6 V7 V8].
  split; rewrite ?E1, ?E2, ?E5, ?E6; try done.
  - unfold accounted, in_use in *. by rewrite E3, E4, E5, E6, E7.
  - unfold slots in *. by rewrite E5, E6.
Qed.

#[local] Arguments IndexedPool.count : simpl never.
#[local] Arguments Thread.live_ids : simpl never.
#[local] Arguments timeout_ids : simpl never.
#[local] Arguments immediate_ids : simpl never.

Lemma accounted_timeout x d i x' :
  Thread.AddTimeoutData x d = (i, x') -> accounted x -> accounted x'.
Proof.
  unfold Thread.AddTimeoutData. cbn. destruct (IndexedPool.Push _ d) as [j td] eqn:E. intros [= <- <-] (k & Hk & Er).
  exists k. split; [done |]. cbn. rewrite (u64_succ _ _ Er). f_equal. unfold in_use. cbn.
  apply IndexedPool.count_Push in E. cbn in E. lia.
Qed.

Lemma vok_add_timeout x d i x' ms ts bs :
  Thread.AddTimeoutData x d = (i, x') -> is_function (Thread.cb_ d) = true -> slots x' < 2 ^ 32 - 1 ->
  vok x ms ts bs ->
  vok x' ms (u32 (Z.of_nat i) :: ts) bs /\ Thread.ethread_ x' = Thread.ethread_ x /\ slots x' <= slots x + 1.
Proof.
  intros E Hf Hs [V1 V2 V3 V4 V5 V6 V7 V8]. pose proof (accounted_timeout _ _ _ _ E V7) as Ha.
  unfold Thread.AddTimeoutData in E. cbn in E. destruct (IndexedPool.Push _ d) as [j td] eqn:Ep.
  injection E as <- <-. pose proof (Push_length _ _ _ _ Ep) as [L1 L2]. unfold slots in *. cbn in *.
  rewrite u32_index by lia. split; [| split; [done | lia]]. split; try done.
  - cbn. rewrite (Thread.live_ids_Push _ _ _ _ Ep). by rewrite <- V2.
  - cbn. intros a b Hab. rewrite (proj2 (IndexedPool.live_Push _ _ _ _ a Ep)) in Hab.
    case_decide; [by injection Hab as <- | by eapply V5].
Qed.

Lemma vok_add_object x f i x' ms ts bs :
  Thread.PutObject x f = (i, x') -> is_function f = true -> slots x' < 2 ^ 32 - 1 ->
  vok x ms ts bs ->
  vok x' (new_message SET_IMMEDIATE None [] 0 (u32 (Z.of_nat i)) :: ms) ts bs /\
  vok x' ms ts (u32 (Z.of_nat i) :: bs) /\ Thread.ethread_ x' = Thread.ethread_ x /\ slots x' <= slots x + 1.
Proof.
  intros E Hf Hs [V1 V2 V3 V4 V5 V6 V7 V8]. unfold Thread.PutObject in E. cbn in E.
  destruct (IndexedPool.Push _ f) as [j oh] eqn:Ep. injection E as <- <-.
  pose proof (Push_length _ _ _ _ Ep) as [L1 L2]. unfold slots in *. cbn in *.
  assert (accounted (Thread.set_pools (Thread.Ref x) (Thread.exports_ x) (Thread.timeout_data_ x) oh (Thread.promises_ x))) as Ha.
  { destruct V7 as (k & Hk & Er). exists (S k). cbn. apply IndexedPool.count_Push in Ep. cbn in Ep. split; [lia |].
    rewrite (u64_succ _ _ Er). f_equal. unfold in_use. cbn. lia. }
  assert (forall a b, IndexedPool.live oh a = Some b -> is_function b = true) as Hfns.
  { intros a b Hab. rewrite (proj2 (IndexedPool.live_Push _ _ _ _ a Ep)) in Hab.
    case_decide; [by injection Hab as <- | by eapply V6]. }
  rewrite u32_index by lia. split_and!; [| | done | lia]; split; try done; cbn.
  - rewrite (Thread.live_ids_Push _ _ _ _ Ep), <- V3. unfold immediate_ids. rewrite filter_cons_True by done. cbn. by rewrite <- Permutation_middle.
  - by constructor.
  - by rewrite (Thread.live_ids_Push _ _ _ _ Ep), <- V3.
  - eapply Forall_impl; [exact V4 |]. intros m. apply message_ok_mono. clear. set_solver.
Qed.

Lemma vok_take_timeout x m ms ts bs :
  vok x (m :: ms) ts bs -> type_ m = TIMEOUT_EVENT ->
  exists i d x', recv_index_ m = Z.of_nat i /\ Z.of_nat i < 2 ^ 32 - 1 /\
    Thread.TakeTimeoutData x (recv_index_ m) = Ret (Some d, x') /\ is_function (Thread.cb_ d) = true /\
    vok x' ms ts bs /\ slots x' = slots x /\ Thread.ethread_ x' = Thread.ethread_ x /\
    IndexedPool.Take (Thread.timeout_data_ x) i = Ret (Some d, Thread.timeout_data_ x').
Proof.
  intros [V1 V2 V3 V4 V5 V6 V7 V8] Hm. unfold timeout_ids in V2. rewrite filter_cons_True in V2 by done. cbn in V2.
  rewrite <- Permutation_middle in V2.
  assert (recv_index_ m ∈ Thread.live_ids (Thread.timeout_data_ x)) as Hin by (rewrite <- V2; left).
  destruct (Thread.live_ids_nat _ _ Hin) as (i & Ei & Li & Hi). destruct (Take_live _ _ Hi) as (d & td & Et & El & Lt).
  unfold slots in V8. exists i, d. unfold Thread.TakeTimeoutData. rewrite Ei, u32_index, Nat2Z.id by lia.
  cbn. rewrite Et. cbn. eexists. split_and!; try done; [lia | by eapply V5 | | by unfold slots; cbn; rewrite Lt].
  rewrite Ei in V2. rewrite (Thread.live_ids_Take _ _ _ _ Et) in V2. apply Permutation_cons_inv in V2. split; try done.
  - unfold immediate_ids in *. rewrite filter_cons_False in V3 by congruence. done.
  - by apply Forall_cons in V4 as [_ V4].
  - cbn. intros a b Hab. rewrite (proj2 (IndexedPool.live_Take _ _ _ _ a Et)) in Hab.
    case_decide; [done | by eapply V5].
  - destruct V7 as (k & Hk & Er). exists k. split; [done |]. cbn. apply u64_pred. rewrite Er. f_equal.
    unfold in_use. cbn. apply IndexedPool.count_Take in Et. cbn in Et. lia.
  - unfold slots. cbn. rewrite Lt. done.
Qed.

Lemma vok_take_object x m ms ts bs :
  vok x (m :: ms) ts bs -> type_ m = SET_IMMEDIATE ->
  exists f x', Thread.TakeObject x (recv_index_ m) = Ret (Some f, x') /\ is_function f = true /\
    vok x' ms ts bs /\ slots x' = slots x /\ Thread.ethread_ x' = Thread.ethread_ x.
Proof.
  intros [V1 V2 V3 V4 V5 V6 V7 V8] Hm. unfold immediate_ids in V3. rewrite filter_cons_True in V3 by done. cbn in V3.
  rewrite <- Permutation_middle in V3.
  assert (recv_index_ m ∈ Thread.live_ids (Thread.object_handles_ x)) as Hin by (rewrite <- V3; left).
  destruct (Thread.live_ids_nat _ _ Hin) as (i & Ei & Li & Hi). destruct (Take_live _ _ Hi) as (d & oh & Et & El & Lt).
  unfold slots in V8. exists d. unfold Thread.TakeObject. rewrite Ei, u32_index, Nat2Z.id by lia.
  rewrite Et. cbn. eexists. split_and!; try done; [by eapply V6 | | by unfold slots; cbn; rewrite Lt].
  rewrite Ei in V3. rewrite (Thread.live_ids_Take _ _ _ _ Et) in V3. apply Permutation_cons_inv in V3. split; try done.
  - unfold timeout_ids in *. rewrite filter_cons_False in V2 by congruence. done.
  - by apply Forall_cons in V4 as [_ V4].
  - cbn. intros a b Hab. rewrite (proj2 (IndexedPool.live_Take _ _ _ _ a Et)) in Hab.
    case_decide; [done | by eapply V6].
  - destruct V7 as (k & Hk & Er). exists k. cbn. apply IndexedPool.count_Take in Et. cbn in Et. split; [lia | done].
  - unfold slots. cbn. rewrite Lt. done.
Qed.

Lemma vok_get_object x m ms ts bs :
  vok x (m :: ms) ts bs -> type_ m = IRQ_RAISE ->
  exists f, Thread.GetObject x (recv_index_ m) = Ret (Some f) /\ is_function f = true.
Proof.
  intros [V1 V2 V3 V4 V5 V6 V7 V8] Hm. apply Forall_cons in V4 as [Hok _]. unfold message_ok in Hok. rewrite Hm in Hok.
  assert (recv_index_ m ∈ Thread.live_ids (Thread.object_handles_ x)) as Hin.
  { rewrite <- V3. apply elem_of_app. by left. }
  destruct (Thread.live_ids_nat _ _ Hin) as (i & Ei & Li & [f Hi]). unfold slots in V8.
  unfold Thread.GetObject, IndexedPool.Get. rewrite Ei, u32_index, Nat2Z.id by lia.
  exists f. split; [| by eapply V6]. unfold IndexedPool.live in Hi.
  destruct (Thread.object_handles_ x !! i) as [y |]; [| done]. cbn in Hi. by rewrite Hi.
Qed.

Lemma vok_clear x id ms ts bs :
  vok x ms ts bs ->
  vok (Thread.FlagTimeoutCleared x id).2 ms ts bs /\
  Thread.ethread_ (Thread.FlagTimeoutCleared x id).2 = Thread.ethread_ x /\
  slots (Thread.FlagTimeoutCleared x id).2 = slots x.
Proof.
  unfold Thread.FlagTimeoutCleared. set (i := Z.to_nat (u32 id)).
  destruct (Thread.timeout_data_ x !! i) as [[d |] |] eqn:E; [| done..]. cbn.
  intros [V1 V2 V3 V4 V5 V6 V7 V8]. set (td := <[i := _]> _).
  assert (forall j, IndexedPool.live td j = if decide (i = j) then Some (Thread.SetCleared d)
                    else IndexedPool.live (Thread.timeout_data_ x) j) as L.
  { intros j. subst td. unfold IndexedPool.live. case_decide as Hij; [subst j | by rewrite list_lookup_insert_ne].
    rewrite list_lookup_insert_eq by (by eapply lookup_lt_Some). done. }
  assert (IndexedPool.count td = IndexedPool.count (Thread.timeout_data_ x)) as C.
  { pose proof (IndexedPool.count_insert _ _ _ (Some (Thread.SetCleared d)) E) as C. change (IndexedPool.count td + 1 = IndexedPool.count (Thread.timeout_data_ x) + 1)%nat in C. lia. }
  assert (slots (Thread.set_pools x (Thread.exports_ x) td (Thread.object_handles_ x) (Thread.promises_ x)) = slots x) as S.
  { unfold slots. cbn. subst td. by rewrite length_insert. }
  split; [| done]. split; try done.
  - cbn. rewrite V2. symmetry. change (Thread.live_ids td ≡ₚ [] ++ Thread.live_ids (Thread.timeout_data_ x)).
    apply Thread.live_ids_perm; [constructor | | set_solver]. intros z. split.
    + intros Hz. right. destruct (Thread.live_ids_nat _ _ Hz) as (j & -> & _ & Hj). apply Thread.elem_of_live_ids.
      rewrite L in Hj. case_decide; [subst j | done]. unfold IndexedPool.live. rewrite E. cbn. eauto.
    + intros [Hz | Hz]; [set_solver |]. destruct (Thread.live_ids_nat _ _ Hz) as (j & -> & _ & Hj).
      apply Thread.elem_of_live_ids. rewrite L. case_decide; eauto.
  - cbn. intros a b Hab. rewrite L in Hab. case_decide; [| by eapply V5]. injection Hab as <-. cbn.
    apply (V5 i). unfold IndexedPool.live. by rewrite E.
  - destruct V7 as (k & Hk & Er). exists k. split; [done |]. cbn. rewrite Er. f_equal. unfold in_use. cbn. lia.
  - by rewrite S.
Qed.

(** ** The state of the engine *)

Lemma tinv_update rest w w' th x x' e' :
  objects w !! th = Some x ->
  (forall th' y, objects w !! th' = Some y -> th' <> th -> Thread.ethread_ y <> Thread.ethread_ x) ->
  objects w' = <[th := x']> (objects w) -> Thread.ethread_ x' = Thread.ethread_ x ->
  ethreads w' !! Thread.ethread_ x = Some e' -> bindings_ok (irqs w') ->
  vok x' (rest ++ pending e') (timers_of w' th) (bound_ids (irqs w') (Thread.ethread_ x)) ->
  tinv rest w' th.
Proof.
  intros Ex Hex Eo Ee Hq Hb V. exists x', e'. rewrite Eo, lookup_insert_eq, Ee. split_and!; try done.
  intros th' y Hy Hne. rewrite lookup_insert_ne in Hy by done. by apply (Hex th').
Qed.

Lemma timers_SetTimeout w th id ms :
  timers_of (SetTimeout w th id ms) th ≡ₚ id :: timers_of w th.
Proof.
  unfold timers_of, SetTimeout. cbn [timeouts_ set_timeouts BootTimeMicroseconds set_counters]. unfold Timeouts.Set_. rewrite pq_push_elems. by rewrite filter_cons_True.
Qed.

Lemma concat_alter_perm {A} (L : list (list A)) k b :
  (k < length L)%nat -> concat (alter (fun l => l ++ [b]) k L) ≡ₚ b :: concat L.
Proof.
  revert k. induction L as [| l L IH]; intros k Hk; simpl in Hk; [lia |]. destruct k as [| k]; cbn.
  - rewrite <- app_assoc. cbn. symmetry. apply Permutation_middle.
  - rewrite (IH k) by lia. symmetry. apply Permutation_middle.
Qed.

(** The messages of a binding reach its thread only, and are interrupt messages. *)
Lemma push_irqs_sub ms : forall e, exists ms', pending (push_irqs e ms) = pending e ++ ms' /\
  forall m, m ∈ ms' -> m ∈ ms.
Proof.
  clear. induction ms as [| m ms IH]; intros e; cbn.
  { exists []. rewrite app_nil_r. set_solver. }
  destruct (IH (PushMessageIRQ e m)) as (ms' & E & S). unfold push_irqs in E. rewrite E, pending_irq.
  destruct (_ <? _); [exists (m :: ms') | exists ms']; rewrite <- app_assoc; set_solver.
Qed.

Lemma vok_add_neutrals x ms' : forall ms ts bs,
  (forall m, m ∈ ms' -> neutral m /\ message_ok bs m) -> vok x ms ts bs -> vok x (ms ++ ms') ts bs.
Proof.
  induction ms' as [| m ms' IH]; intros ms ts bs Hm V; [by rewrite app_nil_r |].
  eapply vok_perm; [apply Permutation_middle | done | done |].
  destruct (Hm m) as [N O]; [left |]. apply vok_add_neutral; [done | done |]. apply IH; [| done].
  intros m' Hm'. apply Hm. by right.
Qed.

Lemma interrupt_messages i number et m :
  bindings_ok i -> m ∈ IrqDispatcher.messages_for i number et ->
  neutral m /\ message_ok (bound_ids i et) m.
Proof.
  intros [_ B] Hm. unfold IrqDispatcher.messages_for in Hm. apply list_elem_of_fmap in Hm as (b & -> & Hb).
  apply list_elem_of_filter in Hb as [Ht Hb].
  assert (b ∈ concat (IrqDispatcher.bindings_ i)) as Hc.
  { destruct (IrqDispatcher.bindings_ i !! Z.to_nat number) as [l |] eqn:El; cbn in Hb; [| by apply elem_of_nil in Hb].
    apply list_elem_of_In, in_concat. exists l. split; apply list_elem_of_In; [by eapply list_elem_of_lookup_2 | done]. }
  rewrite Forall_forall in B. rewrite (B b Hc). split; [by split |]. cbn.
  unfold bound_ids. apply list_elem_of_fmap. exists b. split; [done |]. by apply list_elem_of_filter.
Qed.

(** ** What scripts do *)

(** The actions that can happen: interrupts arrive through the gates, which have numbers
    below the dispatcher's; a script names an interrupt by a number of 8 bits, which may
    lie above them; V8 posts no null pointer. *)
Definition arrives (a : action) : Prop :=
  match a with
  | CallIrqOn n _ => 0 <= n < 256
  | Interrupt n => 0 <= n < IrqDispatcher.kIrqCount
  | PostTask task | PostDelayedTask task _ => task <> 0
  | _ => True
  end.

(** A script binds a handler to an interrupt that the dispatcher does not have. *)
Definition binds_beyond (a : action) : Prop :=
  match a with CallIrqOn n cb => IrqDispatcher.kIrqCount <= n /\ is_function cb = true | _ => False end.

Definition tslots (w : world) (th : Z) : Z :=
  match objects w !! th with Some x => slots x | None => 0 end.

(** The code goes on, keeps the invariant and takes at most [n] slots more. *)
Definition goes_on (rest : list ThreadMessage) (w : world) (th : Z) (n : Z) (m : outcome world) : Prop :=
  exists w', m = Ret w' /\ tinv rest w' th /\ tslots w' th <= tslots w th + n.

(** The dispatcher's assertion stops the machine. *)
Definition stops_beyond {A} (m : outcome A) : Prop := m = Fatal "number < kIrqCount".

Lemma act_SetTimer rest w th cb delay auto :
  tinv rest w th -> tslots w th + 1 < 2 ^ 32 - 1 -> goes_on rest w th 1 (act th w (CallSetTimer cb delay auto)).
Proof.
  intros (x & e & Ex & Ee & Hb & Hex & V) Hs. unfold goes_on, tslots in *. rewrite Ex in *. cbn [act].
  destruct (is_function cb) eqn:Ef.
  2: { exists w. rewrite Ex. split; [done |]. split; [by exists x, e | lia]. }
  unfold SetTimer, get_thread. rewrite Ex, Ef. cbn [rt_assert mbind outcome_bind].
  destruct (Thread.AddTimeoutData x _) as [i x'] eqn:Ea. cbn [mbind outcome_bind].
  assert (slots x' <= slots x + 1) as Hs'.
  { unfold Thread.AddTimeoutData in Ea. cbn in Ea. destruct (IndexedPool.Push _ _) as [j td] eqn:Ep.
    apply Push_length in Ep. cbn in Ep. injection Ea as _ <-. unfold slots. cbn. lia. }
  eapply vok_add_timeout in V as (V & Et & _); [| exact Ea | done | lia].
  eexists. split; [done |]. split.
  - eapply (tinv_update rest w); try done.
    eapply vok_perm; [done | symmetry; apply timers_SetTimeout | done | exact V].
  - cbn. rewrite lookup_insert_eq. done.
Qed.

Lemma act_ClearTimer rest w th id : tinv rest w th -> goes_on rest w th 1 (act th w (CallClearTimer id)).
Proof.
  intros (x & e & Ex & Ee & Hb & Hex & V). unfold goes_on, tslots. rewrite Ex. cbn [act].
  unfold ClearTimer, get_thread. rewrite Ex. cbn [mbind outcome_bind].
  destruct (vok_clear x (u32 id) _ _ _ V) as (V' & Et & Es).
  destruct (Thread.FlagTimeoutCleared x (u32 id)) as [b x'] eqn:E. cbn in V', Et, Es. cbn [mbind outcome_bind].
  eexists. split; [done |]. split.
  - by eapply (tinv_update rest w).
  - cbn. rewrite lookup_insert_eq. lia.
Qed.

Lemma PutObject_slots x f i x' : Thread.PutObject x f = (i, x') -> slots x' <= slots x + 1.
Proof.
  unfold Thread.PutObject. cbn. destruct (IndexedPool.Push _ _) as [j oh] eqn:Ep. intros [= _ <-].
  apply Push_length in Ep. cbn in Ep. unfold slots. cbn. lia.
Qed.

Lemma act_SetImmediate rest w th cb :
  tinv rest w th -> tslots w th + 1 < 2 ^ 32 - 1 -> goes_on rest w th 1 (act th w (CallSetImmediate cb)).
Proof.
  intros (x & e & Ex & Ee & Hb & Hex & V) Hs. unfold goes_on, tslots in *. rewrite Ex in *. cbn [act].
  destruct (is_function cb) eqn:Ef.
  2: { exists w. rewrite Ex. split; [done |]. split; [by exists x, e | lia]. }
  unfold SetImmediate, get_thread. rewrite Ex. cbn [mbind outcome_bind].
  destruct (Thread.PutObject x cb) as [i x'] eqn:Ea. pose proof (PutObject_slots _ _ _ _ Ea) as Hs'.
  eapply vok_add_object in V as (V & _ & Et & _); [| exact Ea | done | lia].
  eexists. split; [done |]. unfold send. cbn [objects put_thread set_objects]. rewrite lookup_insert_eq. split.
  - eapply (tinv_update rest w); try done; [unfold ethreads in *; cbn; rewrite Et, lookup_alter_eq; by rewrite Ee |].
    rewrite pending_push. eapply vok_perm; [| done | done | exact V]. rewrite app_assoc. apply Permutation_cons_append.
  - cbn. rewrite lookup_insert_eq. done.
Qed.

Lemma act_IrqOn rest w th n cb :
  tinv rest w th -> tslots w th + 1 < 2 ^ 32 - 1 -> 0 <= n < IrqDispatcher.kIrqCount ->
  goes_on rest w th 1 (act th w (CallIrqOn n cb)).
Proof.
  intros (x & e & Ex & Ee & Hb & Hex & V) Hs Hn. unfold goes_on, tslots in *. rewrite Ex in *. cbn [act].
  destruct (is_function cb) eqn:Ef.
  2: { exists w. rewrite Ex. split; [done |]. split; [by exists x, e | lia]. }
  unfold IrqOn, get_thread. rewrite Ex. cbn [mbind outcome_bind].
  destruct (Thread.PutObject x cb) as [i x'] eqn:Ea. pose proof (PutObject_slots _ _ _ _ Ea) as Hs'.
  eapply vok_add_object in V as (_ & V & Et & _); [| exact Ea | done | lia].
  unfold IrqDispatcher.Bind. rewrite (proj2 (Z.ltb_lt _ _)) by lia. cbn [rt_assert mbind outcome_bind].
  destruct Hb as [Hl Hf]. rewrite Et.
  assert (Z.to_nat n < length (IrqDispatcher.bindings_ (irqs w)))%nat as Hk by lia.
  pose proof (concat_alter_perm _ _ (IrqDispatcher.IRQBinding_new (Thread.ethread_ x) (u32 (Z.of_nat i))) Hk) as P.
  eexists. split; [done |]. split.
  - eapply (tinv_update rest w); try done.
    + split; cbn; [by rewrite length_alter |]. rewrite P. by constructor.
    + eapply vok_perm; [done | done | | exact V]. unfold bound_ids. cbn. rewrite P. by rewrite filter_cons_True.
  - cbn. rewrite lookup_insert_eq. done.
Qed.

Lemma act_Interrupt rest w th n :
  tinv rest w th -> arrives (Interrupt n) -> goes_on rest w th 1 (act th w (Interrupt n)).
Proof.
  intros (x & e & Ex & Ee & Hb & Hex & V) Hn. unfold goes_on, tslots. rewrite Ex. cbn [act].
  unfold IrqDispatcher.Raise. cbn in Hn. rewrite (proj2 (Z.ltb_lt _ _)) by lia. cbn [rt_assert mbind outcome_bind Z.eqb].
  eexists. split; [done |].
  destruct (push_irqs_sub (IrqDispatcher.messages_for (irqs w) n (Thread.ethread_ x)) e) as (ms' & E & S).
  split; [| cbn; rewrite Ex; lia].
  exists x, (push_irqs e (IrqDispatcher.messages_for (irqs w) n (Thread.ethread_ x))). split_and!; try done.
  - unfold ethreads. cbn. rewrite IrqDispatcher.raise_all. unfold ethreads in Ee. by rewrite Ee.
  - rewrite E, app_assoc. apply vok_add_neutrals; [| done].
    intros m Hm. by eapply interrupt_messages, S.
Qed.

Lemma act_IrqOn_beyond rest w th n cb :
  tinv rest w th -> binds_beyond (CallIrqOn n cb) -> stops_beyond (act th w (CallIrqOn n cb)).
Proof.
  intros (x & e & Ex & _) [Hn Hf]. unfold stops_beyond. cbn [act]. rewrite Hf. unfold IrqOn, get_thread. rewrite Ex.
  cbn [mbind outcome_bind]. destruct (Thread.PutObject x cb) as [i x']. cbn [mbind outcome_bind].
  unfold IrqDispatcher.Bind. by rewrite (proj2 (Z.ltb_ge _ _)) by done.
Qed.

Lemma act_inv rest w th a :
  tinv rest w th -> arrives a -> tslots w th + 1 < 2 ^ 32 - 1 ->
  goes_on rest w th 1 (act th w a) \/ (stops_beyond (act th w a) /\ binds_beyond a).
Proof.
  intros T A S. destruct a as [| | | n cb | | | task | task delay]; [left .. | | left | left | left | left].
  - by apply act_SetTimer.
  - by apply act_ClearTimer.
  - by apply act_SetImmediate.
  - destruct (decide (binds_beyond (CallIrqOn n cb))) as [B | B].
    { right. split; [by eapply act_IrqOn_beyond | done]. }
    left. destruct (is_function cb) eqn:Ef; cbn in A, B.
    + apply act_IrqOn; [done | done |]. rewrite Ef in B. destruct (Z.lt_ge_cases n IrqDispatcher.kIrqCount); [lia |].
      by destruct B.
    + exists w. cbn [act]. rewrite Ef. split; [done |]. split; [done | lia].
  - by apply act_Interrupt.
  - exists (TimerInterruptNotify w). split; [done |]. split; [exact T |]. unfold tslots. cbn. lia.
  - cbn [act]. unfold V8Platform.CallOnForegroundThread. rewrite (proj2 (Z.eqb_neq task 0)) by done.
    eexists. split; [done |]. split; [exact T |]. unfold tslots. cbn. lia.
  - cbn [act BootTimeMicroseconds]. unfold V8Platform.CallDelayedOnForegroundThread.
    rewrite (proj2 (Z.eqb_neq task 0)) by done.
    eexists. split; [done |]. split; [exact T |]. unfold tslots. cbn. lia.
Qed.

Lemma act_all_inv rest th l : forall w,
  tinv rest w th -> Forall arrives l -> tslots w th + zlen l < 2 ^ 32 - 1 ->
  goes_on rest w th (zlen l) (act_all th w l) \/ (stops_beyond (act_all th w l) /\ Exists binds_beyond l).
Proof.
  induction l as [| a l IH]; intros w T A S; cbn [act_all].
  { left. exists w. split; [done |]. split; [done | unfold zlen; cbn; lia]. }
  apply Forall_cons in A as [A0 A]. unfold zlen in *. cbn [length] in *.
  destruct (act_inv rest w th a T A0) as [(w1 & E & T1 & S1) | [E B]]; [lia | |].
  - rewrite E. cbn [mbind outcome_bind]. destruct (IH w1) as [(w2 & E2 & T2 & S2) | [E2 B]]; [done | done | lia | |].
    + left. exists w2. split; [done |]. split; [done | lia].
    + right. split; [done | by right].
  - right. unfold stops_beyond in *. rewrite E. split; [done | by left].
Qed.

(** Scripts are finite: [calls] bounds the natives called and the interrupts taken during
    one run of JavaScript. *)
Variable calls : Z.
Hypothesis js_arrives : forall c w, Forall arrives (js c w).
Hypothesis js_calls : forall c w, zlen (js c w) <= calls.

(** Some script binds a handler to an interrupt beyond the dispatcher's. *)
Definition script_beyond : Prop := exists c w, Exists binds_beyond (js c w).

Definition handled (rest : list ThreadMessage) (w : world) (th : Z) (m : outcome world) : Prop :=
  goes_on rest w th calls m \/ (stops_beyond m /\ script_beyond).

Lemma run_js_inv rest w th c :
  tinv rest w th -> tslots w th + calls < 2 ^ 32 - 1 -> handled rest w th (run_js th c w).
Proof.
  intros T S. pose proof (js_calls c w) as L.
  destruct (act_all_inv rest th (js c w) w T (js_arrives c w)) as [(w' & E & T' & S') | [E B]]; [lia | |].
  - left. exists w'. split; [done |]. split; [done | lia].
  - right. split; [done |]. by exists c, w.
Qed.

Lemma calls_pos (w : world) : 0 <= calls.
Proof. pose proof (js_calls (CallFunction 0) w). unfold zlen in *. lia. Qed.

(** A handler runs a script in a world in which its thread has no more slots than before. *)
Lemma handled_from rest w w' th c :
  tinv rest w' th -> tslots w' th <= tslots w th -> tslots w th + calls < 2 ^ 32 - 1 ->
  handled rest w th (run_js th c w').
Proof.
  intros T L S. destruct (run_js_inv rest w' th c T) as [(w2 & E & T2 & S2) | Hs]; [lia | | by right].
  left. exists w2. split; [done |]. split; [done | lia].
Qed.

Lemma evaluate_inv m rest w th :
  tinv (m :: rest) w th -> type_ m = EVALUATE -> tslots w th + calls < 2 ^ 32 - 1 ->
  handled rest w th (on_evaluate th w m).
Proof.
  intros (x & e & Ex & Ee & Hb & Hex & V) Hm Hc. unfold on_evaluate, get_thread. rewrite Ex. cbn [mbind outcome_bind].
  pose proof (vk_msgs _ _ _ _ V) as F. apply Forall_cons in F as [O _]. unfold message_ok in O. rewrite Hm in O.
  destruct O as (code & file & l & Eu & Ec & Ef). rewrite Eu. cbn [mbind outcome_bind].
  change (default TransportData.JUndefined ((code :: file :: l) !! 0%nat)) with code.
  change (default TransportData.JUndefined ((code :: file :: l) !! 1%nat)) with file.
  rewrite Ec, Ef. cbn [rt_assert mbind outcome_bind].
  apply handled_from; [| unfold tslots; cbn; by rewrite Ex, lookup_insert_eq | done].
  eapply (tinv_update rest w); try done. eapply (vok_thread x); try done.
  by eapply vok_drop_neutral; [| exact V]; unfold neutral; rewrite Hm.
Qed.

Lemma timeout_inv m rest w th :
  tinv (m :: rest) w th -> type_ m = TIMEOUT_EVENT -> tslots w th + calls < 2 ^ 32 - 1 ->
  handled rest w th (on_timeout th w m).
Proof.
  intros (x & e & Ex & Ee & Hb & Hex & V) Hm Hc. unfold on_timeout, get_thread. rewrite Ex. cbn [mbind outcome_bind].
  pose proof (vk_slots _ _ _ _ V) as Hsl.
  destruct (vok_take_timeout _ _ _ _ _ V Hm) as (i & d & x' & Ei & Hi & Et & Hf & V' & Hs & Hee & Ht).
  rewrite (proj2 (Z.ltb_lt (recv_index_ m) (2 ^ 32 - 1))) by lia. cbn [rt_assert mbind outcome_bind].
  replace (u32 (recv_index_ m)) with (recv_index_ m) by (rewrite Ei, u32_index by lia; done).
  rewrite Et. cbn [mbind outcome_bind]. destruct (Thread.cleared_ d).
  { left. eexists. split; [done |]. split; [by eapply (tinv_update rest w) |].
    unfold tslots. cbn. rewrite Ex, lookup_insert_eq. pose proof (calls_pos w). lia. }
  rewrite Hf. cbn [rt_assert mbind outcome_bind].
  destruct (Thread.autoreset_ d).
  2: { apply handled_from; [by eapply (tinv_update rest w) | | done].
       unfold tslots. cbn. rewrite Ex, lookup_insert_eq. lia. }
  destruct (Thread.AddTimeoutData x' d) as [j y] eqn:Ea.
  assert (slots y = slots x') as Hy.
  { unfold Thread.AddTimeoutData in Ea. cbn in Ea. destruct (IndexedPool.Push _ d) as [j' td] eqn:Ep.
    injection Ea as _ <-. unfold Thread.TakeTimeoutData in Et.
    pose proof (Push_after_Take _ _ _ _ _ _ _ Ht Ep) as L. unfold slots in *. cbn. rewrite L.
    clear -Hs Ht. unfold IndexedPool.Take in Ht. destruct (Thread.timeout_data_ x !! i); [| done].
    injection Ht as _ Ht. rewrite <- Ht in *. rewrite length_insert in *. lia. }
  eapply vok_add_timeout in V' as (V' & Ey & _); [| exact Ea | done | lia].
  apply handled_from; [| unfold tslots; cbn; rewrite Ex, lookup_insert_eq; lia | done].
  eapply (tinv_update rest w); try done; [by rewrite Ey |].
  eapply vok_perm; [done | symmetry; apply timers_SetTimeout | done | exact V'].
Qed.

Lemma irq_inv m rest w th :
  tinv (m :: rest) w th -> type_ m = IRQ_RAISE -> tslots w th + calls < 2 ^ 32 - 1 ->
  handled rest w th (on_irq th w m).
Proof.
  intros (x & e & Ex & Ee & Hb & Hex & V) Hm Hc. unfold on_irq, get_thread. rewrite Ex. cbn [mbind outcome_bind].
  destruct (vok_get_object _ _ _ _ _ V Hm) as (f & Eg & Hf). rewrite Eg. cbn [mbind outcome_bind].
  rewrite Hf. cbn [rt_assert mbind outcome_bind]. apply handled_from; [| lia | done]. exists x, e. split_and!; try done.
  by eapply vok_drop_neutral; [| exact V]; unfold neutral; rewrite Hm.
Qed.

Lemma immediate_inv m rest w th :
  tinv (m :: rest) w th -> type_ m = SET_IMMEDIATE -> tslots w th + calls < 2 ^ 32 - 1 ->
  handled rest w th (on_immediate th w m).
Proof.
  intros (x & e & Ex & Ee & Hb & Hex & V) Hm Hc. unfold on_immediate, get_thread. rewrite Ex. cbn [mbind outcome_bind].
  destruct (vok_take_object _ _ _ _ _ V Hm) as (f & x' & Et & Hf & V' & Hs & Hee). rewrite Et. cbn [mbind outcome_bind].
  rewrite Hf. cbn [rt_assert mbind outcome_bind].
  apply handled_from; [by eapply (tinv_update rest w) | | done]. unfold tslots. cbn. rewrite Ex, lookup_insert_eq. lia.
Qed.

Lemma handle_inv m rest w th :
  tinv (m :: rest) w th -> tslots w th + calls < 2 ^ 32 - 1 -> handled rest w th (handle th w m).
Proof.
  intros T Hc. unfold handle. destruct (type_ m) eqn:Hm.
  2-5: by first [apply evaluate_inv | apply timeout_inv | apply irq_inv | apply immediate_inv].
  - left. exists w. pose proof (calls_pos w). split; [done |]. split; [| lia].
    destruct T as (x & e & Ex & Ee & Hb & Hex & V). exists x, e. split_and!; try done.
    by eapply vok_drop_neutral; [| exact V]; unfold neutral; rewrite Hm.
  - destruct T as (x & e & _ & _ & _ & _ & V). apply vk_msgs, Forall_cons in V as [O _].
    unfold message_ok in O. by rewrite Hm in O.
  - destruct T as (x & e & _ & _ & _ & _ & V). apply vk_msgs, Forall_cons in V as [O _].
    unfold message_ok in O. by rewrite Hm in O.
  - destruct T as (x & e & _ & _ & _ & _ & V). apply vk_msgs, Forall_cons in V as [O _].
    unfold message_ok in O. by rewrite Hm in O.
Qed.

Lemma handle_all_inv th ms : forall w ev,
  tinv (omap id ms) w th -> tslots w th + calls * zlen (omap id ms) < 2 ^ 32 - 1 ->
  (exists w' ev', handle_all th w ms ev = Ret (w', ev') /\ tinv [] w' th) \/
  (stops_beyond (handle_all th w ms ev) /\ script_beyond).
Proof.
  induction ms as [| [m |] ms IH]; intros w ev T S; cbn [handle_all]; [by eauto | | by apply IH].
  cbn in T, S. replace (zlen (m :: omap id ms)) with (1 + zlen (omap id ms)) in S by (unfold zlen; cbn; lia). pose proof (calls_pos w). pose proof (zlen_nonneg (omap id ms)).
  destruct (handle_inv _ _ _ _ T) as [(w1 & -> & T1 & S1) | [E B]]; [nia | |].
  - cbn [mbind outcome_bind]. apply IH; [done | nia].
  - right. unfold stops_beyond in *. by rewrite E.
Qed.

(** The end of a turn of the loop. *)
Lemma run_end_inv w1 th now ev : tinv [] w1 th ->
  exists go w', run_end th w1 now ev = Ret (go, w') /\ tinv [] w' th /\
    (go = false -> exists x, objects w' !! th = Some x /\
       (Thread.ref_count_ x = 0 \/ Thread.terminate_ x = true)).
Proof.
  intros (y & e1 & Ey & Ee1 & Hb1 & Hex1 & V1).
  unfold run_end. set (w2 := if ev >? 0 then SubmitEvWork w1 ev else w1).
  assert (objects w2 = objects w1 /\ irqs w2 = irqs w1 /\ timeouts_ w2 = timeouts_ w1) as (O2 & I2 & T2)
    by (subst w2; by destruct (ev >? 0)).
  cbn [BootTimeMicroseconds]. unfold get_thread. cbn [objects set_counters]. rewrite O2, Ey. cbn [mbind outcome_bind].
  eexists _, _. split; [done |]. split.
  - match goal with |- tinv _ (put_thread _ _ ?z) _ => apply (tinv_update _ w1 _ th y z e1); try done end.
    + cbn. by rewrite O2.
    + unfold ethreads in *. cbn. rewrite I2. exact Ee1.
    + cbn. by rewrite I2.
    + unfold timers_of. cbn [timeouts_ irqs put_thread set_objects set_counters]. rewrite I2, T2.
      by eapply (vok_thread y).
  - intros Hgo. cbn [objects put_thread set_objects set_counters]. rewrite lookup_insert_eq. eexists. split; [done |].
    cbn. apply negb_false_iff in Hgo. destruct (Z.eqb_spec (Thread.ref_count_ y) 0); [by left | right]. done.
Qed.


(** ** Timers *)

Lemma vok_fire x ids : forall ms ts bs,
  vok x ms (ids ++ ts) bs -> vok x (ms ++ map timeout_message ids) ts bs.
Proof.
  intros ms ts bs [V1 V2 V3 V4 V5 V6 V7 V8].
  assert (timeout_ids (map timeout_message ids) = ids /\ immediate_ids (map timeout_message ids) = []) as [E1 E2].
  { unfold timeout_ids, immediate_ids. clear. induction ids as [| i ids [IH1 IH2]]; [done |]. cbn [map].
    rewrite filter_cons_True, filter_cons_False by done. cbn. by rewrite IH1, IH2. }
  split; try done.
  - rewrite timeout_ids_app, E1, <- V2, <- app_assoc, Permutation_app_comm, <- app_assoc.
    rewrite (Permutation_app_comm (timeout_ids ms)), <- app_assoc. by rewrite (Permutation_app_comm ts).
  - by rewrite immediate_ids_app, E2, app_nil_r.
  - apply Forall_app. split; [done |]. apply Forall_forall. by intros m (i & -> & _)%list_elem_of_fmap.
Qed.

(** The messages of timers reach the queues of their threads. *)
Lemma sends_spec l : forall w th x e,
  objects w !! th = Some x -> ethreads w !! Thread.ethread_ x = Some e ->
  (forall th' x', objects w !! th' = Some x' -> th' <> th -> Thread.ethread_ x' <> Thread.ethread_ x) ->
  let w' := fold_left (fun w t => send w t.1 (timeout_message t.2)) l w in
  objects w' = objects w /\ IrqDispatcher.bindings_ (irqs w') = IrqDispatcher.bindings_ (irqs w) /\
  exists e', ethreads w' !! Thread.ethread_ x = Some e' /\
    pending e' = pending e ++ map timeout_message (map snd (filter (fun t => t.1 = th) l)).
Proof.
  induction l as [| [th0 i] l IH]; intros w th x e Ex Ee Hex; cbn [fold_left].
  { split; [done |]. split; [done |]. exists e. by rewrite app_nil_r. }
  set (w1 := send w _ _).
  assert (objects w1 = objects w /\ IrqDispatcher.bindings_ (irqs w1) = IrqDispatcher.bindings_ (irqs w) /\
    exists e1, ethreads w1 !! Thread.ethread_ x = Some e1 /\
      pending e1 = pending e ++ (if decide (th0 = th) then [timeout_message i] else [])) as (O1 & B1 & e1 & Ee1 & P1).
  { subst w1. unfold send. cbn [fst snd]. destruct (decide (th0 = th)) as [-> | Hne].
    - rewrite Ex. unfold ethreads in *. cbn. split; [done |]. split; [done |].
      rewrite lookup_alter_eq, Ee. eexists. split; [done |]. apply pending_push.
    - destruct (objects w !! th0) as [y |] eqn:Ey; [| by eauto using app_nil_r].
      unfold ethreads in *. cbn. split; [done |]. split; [done |]. rewrite lookup_alter_ne by (by eapply Hex).
      exists e. by rewrite app_nil_r. }
  destruct (IH w1 th x e1) as (O2 & B2 & e2 & Ee2 & P2); [by rewrite O1 | done | by rewrite O1 |].
  split; [by rewrite O2 |]. split; [by rewrite B2 |]. exists e2. split; [done |]. rewrite P2, P1, <- app_assoc. f_equal.
  destruct (decide (th0 = th)); [rewrite filter_cons_True | rewrite filter_cons_False]; done.
Qed.

(** Elapsed timers: ProcessTimeouts always returns; every thread whose invariant held
    keeps it, so each timer that is due became exactly one message of its thread and
    no other timer fired. *)
Theorem ProcessTimeouts_inv w :
  exists w', ProcessTimeouts w = Ret w' /\
    (forall x, x ∈ pq_elems (timeouts_ w') -> x ∈ pq_elems (timeouts_ w) /\ clock (reads w) < x.2) /\
    forall th, tinv [] w th -> tinv [] w' th.
Proof.
  unfold ProcessTimeouts. cbn [BootTimeMicroseconds]. set (w0 := set_counters _ _ _ _ _).
  destruct (Timeouts.drain_spec (fun w t => send w t.1 (timeout_message t.2)) (Timeouts.pq_size (timeouts_ w0))
    (clock (reads w)) (timeouts_ w0) w0 (le_n _)) as (taken & q & E & P & F1 & F2 & _).
  rewrite E. cbn [mbind outcome_bind]. eexists. split; [done |]. cbn [timeouts_ set_timeouts]. split.
  { intros x Hx. rewrite Forall_forall in F2. split; [| by apply F2].
    change (timeouts_ w) with (timeouts_ w0). rewrite P. apply elem_of_app. by right. }
  intros th (x & e & Ex & Ee & Hb & Hex & V).
  destruct (sends_spec (map fst taken) w0 th x e Ex Ee Hex) as (O & B & e' & Ee' & P').
  set (w1 := fold_left _ _ _) in *. exists x, e'. split_and!; try done.
  - cbn. by rewrite O.
  - unfold bindings_ok in *. cbn. by rewrite B.
  - cbn. rewrite O. exact Hex.
  - cbn [app]. rewrite P'.
    assert (bound_ids (irqs (set_timeouts w1 q)) (Thread.ethread_ x) = bound_ids (irqs w) (Thread.ethread_ x)) as ->
      by (unfold bound_ids; cbn; by rewrite B).
    apply vok_fire. eapply vok_perm; [done | | done | exact V]. unfold timers_of. cbn [timeouts_ set_timeouts].
    change (timeouts_ w) with (timeouts_ w0). rewrite P, filter_app, map_app. apply Permutation_app_tail.
    clear. induction taken as [| [[a b] c] l IH]; [done |]. cbn [map fst].
    destruct (decide (a = th)); [rewrite !filter_cons_True | rewrite !filter_cons_False]; try done.
    cbn. by apply perm_skip.
Qed.

(** An interval loses its identifier: when an interval fires while a lower slot of the
    pool is empty, it moves to that slot.  Clearing it by the identifier that
    setInterval returned then reports failure and the interval goes on. *)
Theorem interval_id_moves w th x i d j
  (Ex : objects w !! th = Some x) (Hi : Z.of_nat i < 2 ^ 32 - 1)
  (Ed : Thread.timeout_data_ x !! i = Some (Some d)) (Hf : is_function (Thread.cb_ d) = true)
  (Ha : Thread.autoreset_ d = true) (Hc : Thread.cleared_ d = false)
  (Hj : (j < i)%nat) (Ej : Thread.timeout_data_ x !! j = Some None)
  (Hjs : forall w, js (CallFunction (Thread.cb_ d)) w = []) :
  exists w' k, on_timeout th w (timeout_message (Z.of_nat i)) = Ret w' /\ (k <= j)%nat /\
    (k < i)%nat /\ timers_of w' th ≡ₚ Z.of_nat k :: timers_of w th /\
    (exists y, objects w' !! th = Some y /\ IndexedPool.live (Thread.timeout_data_ y) k = Some d) /\
    exists w'', ClearTimer w' th (Z.of_nat i) = Ret (false, w'').
Proof.
  unfold on_timeout, get_thread. rewrite Ex. cbn [mbind outcome_bind timeout_message new_message recv_index_].
  rewrite (proj2 (Z.ltb_lt (Z.of_nat i) (2 ^ 32 - 1))) by lia. cbn [rt_assert mbind outcome_bind].
  rewrite u32_index by lia. unfold Thread.TakeTimeoutData. cbn. rewrite u32_index, Nat2Z.id by lia.
  unfold IndexedPool.Take. rewrite Ed. cbn [mbind outcome_bind]. rewrite Hc, Hf, Ha. cbn [rt_assert mbind outcome_bind].
  unfold Thread.AddTimeoutData. cbn. unfold IndexedPool.Push.
  destruct (IndexedPool.first_empty _) as [k |] eqn:F.
  2: { exfalso. unfold IndexedPool.first_empty in F. apply find_from_None in F. rewrite Forall_lookup in F.
       specialize (F j None). rewrite list_lookup_insert_ne in F by lia. by discriminate (F Ej). }
  unfold IndexedPool.first_empty in F. apply find_from_Some in F as (k' & y & -> & Ek & _ & Hmin). cbn [Nat.add] in *.
  assert (k' <= j)%nat as Hk.
  { destruct (decide (k' <= j)%nat) as [| L]; [done |]. specialize (Hmin j None ltac:(lia)).
    rewrite list_lookup_insert_ne in Hmin by lia. by discriminate (Hmin Ej). }
  unfold run_js. rewrite Hjs. cbn [act_all]. eexists _, k'. split; [done |]. split_and!; [done | lia | | |].
  - rewrite u32_index by lia. exact (timers_SetTimeout w th (Z.of_nat k') (Thread.delay_ d)).
  - cbn. rewrite lookup_insert_eq. eexists. split; [done |]. cbn. unfold IndexedPool.live.
    rewrite list_lookup_insert_eq by (by eapply lookup_lt_Some). done.
  - unfold ClearTimer, get_thread. cbn. rewrite lookup_insert_eq. cbn. unfold Thread.FlagTimeoutCleared. cbn.
    rewrite !u32_index, Nat2Z.id by (rewrite ?u32_index by lia; lia). rewrite list_lookup_insert_ne by lia.
    rewrite list_lookup_insert_eq by (by eapply lookup_lt_Some). eauto.
Qed.

End Sched.

(** ** An engine with two threads of equal priority *)

#[local] Notation Q0 := (Timeouts.sorted_list (Z * Z)).
#[local] Notation QT0 := (Timeouts.sorted_list Z).
#[local] Existing Instance Timeouts.sorted_list_queue.

Definition eval0 : ThreadMessage :=
  new_message EVALUATE None
    (TransportData.data_ (TransportData.SetEvalData (TransportData.mkSt ∅ [] []) [49] [97])) 0 0.
Definition thread0 (et : Z) : Thread.t :=
  Thread.set_type (Thread.new Thread.DEFAULT et (0x400000, 0x200000)) Thread.DEFAULT true false None.
Definition irqs0 : IrqDispatcher.t :=
  IrqDispatcher.new {[ 10 := PushMessage (EngineThread.new false) eval0; 20 := EngineThread.new false ]}.
Definition engine0 : world (Q := Q0) (QT := QT0) :=
  mkWorld {[ 1 := thread0 10; 2 := thread0 20 ]} irqs0 [] (Some 1) 0 [mkData 1 1; mkData 2 1] 1
    (pq_empty (A := Z * Z)) 0 0 V8Platform.new 0.

(** A script that sets a timer and an immediate and binds a handler to interrupt [n]. *)
Definition js0 (n : Z) (c : js_call) (w : world (Q := Q0) (QT := QT0)) : list action :=
  match c with
  | RunScript _ _ => [CallSetTimer 77 5 true; CallSetImmediate 77; CallIrqOn n 77; Interrupt 3; PostTask 5]
  | _ => []
  end.

Lemma js0_arrives n c w : 0 <= n < 256 -> Forall arrives (js0 n c w).
Proof. intros. unfold js0. destruct c; repeat constructor; done || lia. Qed.

Lemma js0_calls n c w : zlen (js0 n c w) <= 5.
Proof. destruct c; cbv; by intros. Qed.

Lemma SwitchToNextThread_correct_witness :
  exists th w', SwitchToNextThread engine0 = Ret (th, w') /\ current_thread_ w' = Some th.
Proof.
  destruct (SwitchToNextThread_correct engine0) as [_ P].
  - split; [by cbn |]. repeat constructor; eexists; (split; [done |]); done.
  - destruct (P ltac:(by vm_compute)) as (th & w' & x & E & _ & _ & C & _). exists th, w'. exact (conj E C).
Defined.

Lemma round_robin_witness :
  exists l w', switches 2 engine0 = Ret (l, w') /\ l ≡ₚ [1; 2].
Proof.
  destruct (round_robin engine0 [1; 2] 0) as (l & w' & E & P & _).
  - split_and!; [done | done | cbn; lia | done |]. repeat constructor; eexists; (split; [done |]); done.
  - exists l, w'. exact (conj E P).
Defined.

Lemma engine0_inv : tinv (fun f => f =? 77) [] engine0 1.
Proof.
  exists (thread0 10), (PushMessage (EngineThread.new false) eval0). split_and!; try done.
  - intros th' x' Hx Hne. cbn in Hx. rewrite lookup_insert_ne in Hx by done.
    apply lookup_singleton_Some in Hx as [<- <-]. done.
  - split; try done.
    + constructor; [| constructor]. unfold message_ok. cbn [type_ eval0 new_message].
      exists (TransportData.JUtf8 [49]), (TransportData.JUtf8 [97]), []. split_and!; vm_compute; reflexivity.
    + exists 0%nat. by vm_compute.
Qed.

#[local] Notation run0 n :=
  (Run Z.of_nat (fun f => f =? 77) (js0 n) (fun _ => []) (fun _ => (0, 0)) engine0 1).


Definition interval0 : Thread.TimeoutData := Thread.TimeoutData_new 77 5 true.
Definition moved0 : world (Q := Q0) (QT := QT0) :=
  put_thread engine0 1
    (Thread.set_pools (thread0 10) FunctionExports.new [None; Some interval0] [] []).

Lemma interval_id_moves_witness :
  exists w', on_timeout (fun n => Z.of_nat n) (fun f => f =? 77) (js0 3) 1 moved0 (timeout_message 1) = Ret w' /\
    exists w'', ClearTimer w' 1 1 = Ret (false, w'').
Proof.
  destruct (interval_id_moves (fun n => Z.of_nat n) (fun f => f =? 77) (js0 3) moved0 1
    (Thread.set_pools (thread0 10) FunctionExports.new [None; Some interval0] [] []) 1 interval0 0)
    as (w' & k & E & _ & _ & _ & _ & C); try done; [lia |].
  exists w'. exact (conj E C).
Defined.

End Sched.
