(* ===== verification/Natives.v ===== *)
(** * kernel/native-object.h, .cc, v8utils.h: the system resources given to JavaScript

    The natives that hand out ranges of memory, ports and interrupts, the physical
    addresses of buffers and the memory of devices, over the page tables and the
    physical allocator.  The theorems: nothing obtained from a resource lies outside
    it (Io adds what accesses through port objects reach); the addresses reported for a buffer are those of each of its bytes; memory
    for devices is at the same address for the processor and the device. *)

From S2P Require Import Prelude Utils AddressSpace PhysMem MemManager Engine.

(** ** Arguments and results of natives *)
Module Args.

(** An argument, as far as the natives tell arguments apart; numbers are integral. *)
Inductive arg : Type :=
  | AUndefined | ANumber (z : Z) | AString (bytes : list Z) | AFunction (f : Z)
  | AUint8Array (data offset length : Z) | AArrayBuffer (data length : Z) | AOther.

(** kernel/v8utils.h:80-92, V8Utils::ArgType, the ones the natives ask for. *)
Inductive ArgType : Type := STRING | FUNCTION | UINT32 | NUMBER | UINT8ARRAY | ARRAYBUFFER.

(** [args[i]]: an argument that is not there is undefined. *)
Definition nth_arg (args : list arg) (i : nat) : arg := default AUndefined (args !! i).

(** kernel/v8utils.h:118-155, V8Utils::ValidateArg. *)
Definition ValidateArg (args : list arg) (argnum : Z) (type : ArgType) : bool :=
  if argnum <? 0 then false
  else if Z.of_nat (length args) <? argnum then false
  else
    match type, nth_arg args (Z.to_nat argnum) with
    | STRING, AString _ => true
    | FUNCTION, AFunction _ => true
    | UINT32, ANumber z => (0 <=? z) && (z <? 2 ^ 32)
    | NUMBER, ANumber _ => true
    | UINT8ARRAY, AUint8Array _ _ _ => true
    | ARRAYBUFFER, AArrayBuffer _ _ => true
    | _, _ => false
    end.

(** A native returns a value or throws. *)
Inductive native (A : Type) : Type :=
  | Return (a : A)
  | Throw (message : string).
Arguments Return {A} a.
Arguments Throw {A} message.

(** The number of an argument that [VALIDATEARG] accepted, else the exception. *)
Definition number (args : list arg) (i : nat) : Z :=
  match nth_arg args i with ANumber z => z | _ => 0 end.

(** [Uint32Value] of an integral number. *)
Definition Uint32Value (z : Z) : Z := u32 z.

(** [v8::Uint32::New]: the class has no New of its own, the one of Integer takes an
    [int32_t]. *)
Definition Uint32_New (z : Z) : Z := sign_of 32 z.

End Args.

Module Resources.
Import Args Utils.

(** The objects the natives wrap. *)
Inductive resource : Type :=
  | MemoryRange (r : Range)      (* Range<size_t> *)
  | IORange (r : Range)          (* Range<uint16_t> *)
  | IRQRange (r : Range)         (* Range<uint8_t> *)
  | Block (base size : Z)
  | IoPort (port_number : Z)
  | IRQ (irq_number : Z).

(** A range of a type of [w] bits: the constructor and [Contains] convert their
    arguments. *)
Definition Range_w (w b e : Z) : outcome Range := Range_new (wrap w b) (wrap w e).
Definition Contains_w (w : Z) (r : Range) (v : Z) : bool := Contains r (wrap w v).

(** kernel/native-object.cc:441-463, NativesObject::GetSystemResources. *)
Definition GetSystemResources : outcome (list resource) :=
  m ← Range_w 64 0 0xffffffff;
  io ← Range_w 16 1 0xffff;
  irq ← Range_w 8 1 255;
  Ret [MemoryRange m; IORange io; IRQRange irq].

(** kernel/utils.h:55-57, Utils::IsSafeDouble. *)
Definition IsSafeDouble (value : Z) : bool := value =? Z.land value 0x1fffffffffffff.

(** kernel/native-object.cc:959-964, ResourceMemoryRangeObject::Begin. *)
Definition Memory_Begin (r : Range) : outcome Z :=
  _ ← rt_assert (IsSafeDouble (begin_ r)) "Utils::IsSafeDouble(begin)"; Ret (begin_ r).

(** kernel/native-object.cc:966-971, ResourceMemoryRangeObject::End. *)
Definition Memory_End (r : Range) : outcome Z :=
  _ ← rt_assert (IsSafeDouble (end_ r)) "Utils::IsSafeDouble(end)"; Ret (end_ r).

(** kernel/native-object.cc:973-995, ResourceMemoryRangeObject::Subrange. *)
Definition Memory_Subrange (r : Range) (args : list arg) : outcome (native resource) :=
  if negb (ValidateArg args 0 NUMBER) then Ret (Throw "subrange: argument 0 is not a number")
  else if negb (ValidateArg args 1 NUMBER) then Ret (Throw "subrange: argument 1 is not a number")
  else
    let b := u64 (number args 0) in
    let e := u64 (number args 1) in
    if b >? e then Ret (Throw "subrange: invalid range (begin > end)")
    else
      subrange ← Range_w 64 b e;
      if negb (IsSubrangeOf subrange r) then Ret (Throw "subrange: invalid range (out of bounds)")
      else Ret (Return (MemoryRange subrange)).

(** kernel/native-object.cc:997-1016, ResourceMemoryRangeObject::Block. *)
Definition Memory_Block (r : Range) (args : list arg) : outcome (native resource) :=
  if negb (ValidateArg args 0 NUMBER) then Ret (Throw "block: argument 0 is not a number")
  else if negb (ValidateArg args 1 NUMBER) then Ret (Throw "block: argument 1 is not a number")
  else
    let base := u64 (number args 0) in
    let size := Uint32Value (number args 1) in
    subrange ← Range_w 64 base (base + size);
    if negb (IsSubrangeOf subrange r) then Ret (Throw "block: out of bounds")
    else Ret (Return (Block base size)).

(** kernel/native-object.cc:1018-1022, ResourceIORangeObject::Begin. *)
Definition IO_Begin (r : Range) : Z := Uint32_New (begin_ r).

(** kernel/native-object.cc:1024-1028, ResourceIORangeObject::End. *)
Definition IO_End (r : Range) : Z := Uint32_New (end_ r).

(** kernel/native-object.cc:1030-1052, ResourceIORangeObject::Subrange. *)
Definition IO_Subrange (r : Range) (args : list arg) : outcome (native resource) :=
  if negb (ValidateArg args 0 NUMBER) then Ret (Throw "subrange: argument 0 is not a number")
  else if negb (ValidateArg args 1 NUMBER) then Ret (Throw "subrange: argument 1 is not a number")
  else
    let b := Uint32Value (number args 0) in
    let e := Uint32Value (number args 1) in
    if b >? e then Ret (Throw "subrange: invalid range (begin > end)")
    else
      subrange ← Range_w 16 b e;
      if negb (IsSubrangeOf subrange r) then Ret (Throw "subrange: invalid range (out of bounds)")
      else Ret (Return (IORange subrange)).

(** kernel/native-object.cc:1054-1067, ResourceIORangeObject::Port; the constructor of
    the port takes 16 bits. *)
Definition IO_Port (r : Range) (args : list arg) : outcome (native resource) :=
  if negb (ValidateArg args 0 NUMBER) then Ret (Throw "port: argument 0 is not a number")
  else
    let n := Uint32Value (number args 0) in
    if negb (Contains_w 16 r n) then Ret (Throw "port: invalid port number (required <= 0xffff)")
    else Ret (Return (IoPort (u16 n))).

(** kernel/native-object.cc:1069-1084, ResourceIORangeObject::OffsetPort. *)
Definition IO_OffsetPort (r : Range) (args : list arg) : outcome (native resource) :=
  if negb (ValidateArg args 0 NUMBER) then Ret (Throw "offsetPort: argument 0 is not a number")
  else
    let n := u32 (begin_ r + Uint32Value (number args 0)) in
    if negb (Contains_w 16 r n) then Ret (Throw "offsetPort: port offset is out of range")
    else Ret (Return (IoPort (u16 n))).

(** kernel/native-object.cc:1086-1099, ResourceIRQRangeObject::Irq; the constructor of
    the object takes 8 bits. *)
Definition IRQ_Irq (r : Range) (args : list arg) : outcome (native resource) :=
  if negb (ValidateArg args 0 NUMBER) then Ret (Throw "irq: argument 0 is not a number")
  else
    let n := Uint32Value (number args 0) in
    if negb (Contains_w 8 r n) then Ret (Throw "irq: irq number is out of range")
    else Ret (Return (IRQ (u8 n))).

(** kernel/native-object.cc:1120-1128, ResourceMemoryBlockObject::Buffer: the address
    and the length of the array buffer. *)
Definition Block_Buffer (base size : Z) : outcome (Z * Z) :=
  _ ← rt_assert (negb (base =? 0)) "ptr";
  _ ← rt_assert (size >? 0) "length > 0";
  Ret (base, size).

(** kernel/native-object.cc:1130-1134, ResourceMemoryBlockObject::Length. *)
Definition Block_Length (size : Z) : Z := Uint32_New size.

(** The methods of the objects. *)
Inductive method : Type := subrange | block | port | offsetPort | irq.

(** kernel/native-object.h:175-247, the methods that the classes export (ObjectInit);
    [None] is a method the object does not have. *)
Definition invoke (o : resource) (m : method) (args : list arg) : option (outcome (native resource)) :=
  match o, m with
  | MemoryRange r, subrange => Some (Memory_Subrange r args)
  | MemoryRange r, block => Some (Memory_Block r args)
  | IORange r, subrange => Some (IO_Subrange r args)
  | IORange r, port => Some (IO_Port r args)
  | IORange r, offsetPort => Some (IO_OffsetPort r args)
  | IRQRange r, irq => Some (IRQ_Irq r args)
  | _, _ => None
  end.

(** ** Confinement *)

(** The numbers that an object names: addresses, ports or interrupts. *)
Inductive kind : Type := Memory | PortNumbers | Interrupts.
Definition extent (o : resource) : kind * Z * Z :=
  match o with
  | MemoryRange r => (Memory, begin_ r, end_ r)
  | IORange r => (PortNumbers, begin_ r, end_ r)
  | IRQRange r => (Interrupts, begin_ r, end_ r)
  | Block base size => (Memory, base, base + size)
  | IoPort n => (PortNumbers, n, n)
  | IRQ n => (Interrupts, n, n)
  end.

Definition within (o o' : resource) : Prop :=
  (extent o).1.1 = (extent o').1.1 /\ (extent o').1.2 <= (extent o).1.2 /\ (extent o).2 <= (extent o').2.

(** One object obtained from another by a call. *)
Definition obtained (o o' : resource) : Prop :=
  exists m args, invoke o m args = Some (Ret (Return o')).

Lemma Contains_spec r v : Contains r v = true <-> begin_ r <= v <= end_ r.
Proof. unfold Contains. rewrite andb_true_iff, Z.geb_le, Z.leb_le. lia. Qed.

Lemma IsSubrangeOf_spec r r' : IsSubrangeOf r r' = true <-> begin_ r' <= begin_ r /\ end_ r <= end_ r'.
Proof. unfold IsSubrangeOf. rewrite andb_true_iff, Z.geb_le, Z.leb_le. lia. Qed.

Lemma Range_w_Ret w b e r : Range_w w b e = Ret r -> begin_ r = wrap w b /\ end_ r = wrap w e /\ wrap w b <= wrap w e.
Proof.
  unfold Range_w, Range_new. destruct (Z.leb_spec (wrap w b) (wrap w e)); [| done]. cbn. by intros [= <-].
Qed.

Ltac native_cases E :=
  repeat match type of E with
  | Some _ = Some _ => injection E as E
  | (if negb ?b then _ else _) = _ => destruct b eqn:?; cbn [negb] in E; [| discriminate E]
  | (if ?b then _ else _) = _ => destruct b eqn:?; [discriminate E |]
  | (_ ≫= _) = Ret _ => let s := fresh "s" in let Es := fresh "Es" in
      apply bind_Ret in E as (s & Es & E); apply Range_w_Ret in Es
  | Ret (Return _) = Ret (Return _) => injection E as <-
  end.

Lemma obtained_within o o' : obtained o o' -> within o' o.
Proof.
  intros (m & args & E). destruct o as [r | r | r | base size | n | n], m; try discriminate E; cbn in E;
    unfold Memory_Subrange, Memory_Block, IO_Subrange, IO_Port, IO_OffsetPort, IRQ_Irq in E; cbn zeta in E;
    native_cases E; unfold within; cbn; split; try done;
    repeat match goal with
    | H : IsSubrangeOf _ _ = true |- _ => apply IsSubrangeOf_spec in H
    | H : Contains_w _ _ _ = true |- _ => unfold Contains_w in H; apply Contains_spec in H
    end; unfold u16, u8 in *; try lia.
  destruct Es as (E1 & E2 & E3). unfold u64 in *. rewrite wrap_idemp in E1, E3.
  set (b := wrap 64 (number args 0)) in *. set (n := Uint32Value (number args 1)) in *.
  pose proof (wrap_range 64 (number args 0) ltac:(lia)) as B. fold b in B.
  pose proof (wrap_range 32 (number args 1) ltac:(lia)) as N. fold (u32 (number args 1)) in N.
  fold (Uint32Value (number args 1)) in N. fold n in N. unfold in_range in *.
  assert (b + n < 2 ^ 64) as L.
  { destruct (decide (b + n < 2 ^ 64)); [done |]. unfold wrap in E3.
    replace (b + n) with (b + n - 2 ^ 64 + 1 * 2 ^ 64) in E3 by lia. rewrite Z.mod_add, Z.mod_small in E3 by lia. lia. }
  rewrite (wrap_small 64 (b + n)) in E2 by (unfold in_range; lia). lia.
Qed.

Lemma within_trans a b c : within a b -> within b c -> within a c.
Proof. unfold within. intros (-> & ? & ?) (-> & ? & ?). split; [done | lia]. Qed.

Lemma rtc_within o o' : rtc obtained o o' -> within o' o.
Proof.
  induction 1 as [o | o x o' H _ IH]; [unfold within; split; [done | lia] |]. eapply within_trans; [exact IH | by apply obtained_within].
Qed.

(** What comes from the resources of the system. *)
Lemma system_within o o' l : within o' o -> GetSystemResources = Ret l -> o ∈ l ->
  match extent o' with
  | (Memory, lo, hi) => 0 <= lo /\ hi <= 0xffffffff
  | (PortNumbers, lo, hi) => 1 <= lo /\ hi <= 0xffff
  | (Interrupts, lo, hi) => 1 <= lo /\ hi <= 255
  end.
Proof.
  intros (K & L & H) [= <-] Ho.
  assert (o = MemoryRange (mkRange 0 0xffffffff) \/ o = IORange (mkRange 1 0xffff) \/ o = IRQRange (mkRange 1 255))
    as [-> | [-> | ->]] by set_solver; destruct (extent o') as [[k lo] hi]; cbn in *; subst k; lia.
Qed.

(** The checks work on truncated numbers: a port number is accepted when its low 16
    bits are in the range and an interrupt number when its low 8 bits are, although
    the port and the interrupt asked for do not exist; and a port range that ends just
    beyond the last port stops the machine instead of throwing. *)
Theorem numbers_truncated r n k (Hn : 0 <= n) (Hk : 0 <= k) (Hs : n + k * 2 ^ 16 < 2 ^ 32) :
  IO_Port r [ANumber (n + k * 2 ^ 16)] = IO_Port r [ANumber n] /\
  IRQ_Irq r [ANumber (n + k * 2 ^ 16)] = IRQ_Irq r [ANumber n] /\
  IO_Subrange r [ANumber 0xffff; ANumber 0x10000] = Fatal "begin_ <= end_".
Proof.
  assert (u32 (n + k * 2 ^ 16) = n + k * 2 ^ 16 /\ u32 n = n) as [E1 E2]
    by (split; apply wrap_small; unfold in_range; lia).
  assert (wrap 16 (n + k * 2 ^ 16) = wrap 16 n) as E16 by (unfold wrap; by rewrite Z.mod_add).
  assert (wrap 8 (n + k * 2 ^ 16) = wrap 8 n) as E8.
  { unfold wrap. replace (k * 2 ^ 16) with (k * 2 ^ 8 * 2 ^ 8) by lia. by rewrite Z.mod_add. }
  unfold IO_Port, IRQ_Irq, Contains_w, Uint32Value, number, u16, u8. cbn -[u32 wrap Contains Z.pow].
  rewrite E1, E2, E16, E8. done.
Qed.

Lemma numbers_truncated_witness :
  IO_Port (mkRange 1 0xffff) [ANumber 0x10070] = Ret (Return (IoPort 0x70)).
Proof.
  destruct (numbers_truncated (mkRange 1 0xffff) 0x70 1) as [E _]; [lia.. |].
  change (0x70 + 1 * 2 ^ 16) with 0x10070 in E. rewrite E. reflexivity.
Defined.

End Resources.

Module MemoryNatives.
Import Args PhysicalAllocator VirtualAddress AddressSpaceX64 MemManager.

Section WithMspace.
Context {mspace : Type} `{MspaceOps mspace}.

(** The 32-bit halves of an address. *)
Definition low32 (p : Z) : Z := u32 (Z.land p 0xffffffff).
Definition high32 (p : Z) : Z := u32 (Z.shiftr p 32).

(** kernel/native-object.cc:390-439, NativesObject::BufferAddress: for each of at most
    two pieces of the buffer its length and the halves of its physical address. *)
Definition BufferAddress (s : t (mspace := mspace)) (args : list arg) : outcome (native (list Z)) :=
  if negb (ValidateArg args 0 UINT8ARRAY) then Ret (Throw "bufferAddress: argument 0 is not a Uint8Array")
  else
    match nth_arg args 0 with
    | AUint8Array data offset length =>
        if length =? 0 then Ret (Throw "Uint8Array is empty")
        else
          let vaddr := u64 (data + offset) in
          pstart ← VirtualToPhysical (addr_space_ s) vaddr;
          let pend := u64 (pstart + length) in
          let pboundary := Z.land pend (u64 (Z.lnot 0x1FFFFF)) in
          if pstart <? pboundary then
            let len1 := u64 (pboundary - pstart) in
            let len2 := u64 (length - len1) in
            let vaddr2 := u64 (vaddr + len1) in
            pstart2 ← VirtualToPhysical (addr_space_ s) vaddr2;
            Ret (Return [u32 len1; low32 pstart; high32 pstart; u32 len2; low32 pstart2; high32 pstart2])
          else Ret (Return [u32 length; low32 pstart; high32 pstart; 0; 0; 0])
    | _ => Fatal "arg0->IsUint8Array()"
    end.

(** kernel/native-object.cc:1136-1165, NativesObject::AllocDMA: the address and the
    size.  The [memset] writes to the whole page; a page fault maps it. *)
Definition AllocDMA (s : t (mspace := mspace)) : outcome ((Z * Z) * t (mspace := mspace)) :=
  '(ptr, s) ← AllocPage32 s;
  _ ← rt_assert (negb (ptr =? 0)) "ptr";
  _ ← rt_assert (ptr =? Z.land ptr 0xffffffff) "ptrvalue == (ptrvalue & 0xffffffff)";
  let size := chunk_size in
  _ ← rt_assert (size >? 0) "size > 0";
  s ← touch s ptr;
  Ret ((Uint32_New (u32 ptr), Uint32_New (u32 size)), s).

(** The physical address that the halves stand for. *)
Definition address (low high : Z) : Z := low + high * 2 ^ 32.

Lemma address_halves p : in_range 64 p -> address (low32 p) (high32 p) = p.
Proof.
  intros Hp. unfold address, low32, high32, u32. rewrite (land_mask 32) by (done || lia).
  rewrite wrap_idemp, Z.shiftr_div_pow2 by lia. unfold in_range in Hp.
  rewrite (wrap_small 32 (p / _)).
  - unfold wrap. pose proof (Z.div_mod p (2 ^ 32) ltac:(lia)). lia.
  - split; [apply Z.div_pos; lia | apply Z.div_lt_upper_bound; lia].
Qed.

(** A mapped page starts at a multiple of its size, in the first 2^38 bytes. *)
Lemma mapped_page (s : t (mspace := mspace)) pg a v q wt :
  inv s pg a -> 0 <= v < 512 * 256 * GiB -> pg !! vpage v = Some (q, wt) ->
  exists n, q = n * 2 ^ 21 /\ 0 <= n < 2 ^ 17 + 2 ^ 16.
Proof.
  intros I Hv E. destruct (decide (v < 4 * GiB)) as [L | L].
  - exists (v / 2 ^ 21). rewrite (i_low _ _ _ I v q wt ltac:(lia) E). split; [done |]. split; [apply Z.div_pos; lia |].
    apply Z.div_lt_upper_bound; unfold GiB in *; lia.
  - destruct (i_demand _ _ _ I v q wt) as (p & Hp & ->); [split; lia | done |].
    destruct (i_phys _ _ _ I) as (l32 & l64 & Hr). apply (rep_used _ _ _ _ Hr) in Hp as [[Hp1 Hp2] _].
    change first_page with 16 in Hp1. change kMaxPage with 133118 in Hp2. exists p. lia.
Qed.

Lemma page_offset_mod v : 0 <= v -> page_offset v = v `mod` 2 ^ 21.
Proof. intros Hv. unfold page_offset. by rewrite (land_mask 21) by (done || lia). Qed.

(** The translation of an address in the page of another one. *)
Lemma V2P_in_page (s : t (mspace := mspace)) pg a v k q wt :
  inv s pg a -> 0 <= v -> 0 <= k -> v + k < 2 ^ 47 -> v `mod` 2 ^ 21 + k < 2 ^ 21 ->
  pg !! vpage v = Some (q, wt) ->
  VirtualToPhysical (addr_space_ s) (v + k) = Ret (q + v `mod` 2 ^ 21 + k).
Proof.
  intros I Hv Hk Hm Ho E. destruct (i_tables _ _ _ I) as (own & Ht & _). rewrite (V2P_tree _ _ _ _ Ht).
  assert ((v + k) / 2 ^ 21 = v / 2 ^ 21 /\ (v + k) `mod` 2 ^ 21 = v `mod` 2 ^ 21 + k) as [E1 E2].
  { pose proof (Z.div_mod v (2 ^ 21) ltac:(lia)) as D. pose proof (Z.mod_pos_bound v (2 ^ 21) ltac:(lia)).
    split; symmetry; [apply (Z.div_unique _ _ _ (v `mod` 2 ^ 21 + k)) | apply (Z.mod_unique _ _ (v / 2 ^ 21))]; lia. }
  assert (vpage (v + k) = vpage v) as ->.
  { apply vpage_eq; [unfold in_range; lia | unfold in_range; lia | done]. }
  rewrite E, page_offset_mod, E2 by lia. f_equal. lia.
Qed.

(** The boundary below an address. *)
Lemma boundary_floor p : in_range 64 p -> Z.land p (u64 (Z.lnot 0x1FFFFF)) = p / 2 ^ 21 * 2 ^ 21.
Proof.
  intros Hp. rewrite <- Z.shiftr_div_pow2, <- Z.shiftl_mul_pow2 by lia.
  unfold u64. change 0x1FFFFF with (Z.ones 21). bits. destruct (decide (i < 64)) as [L | L].
  - rewrite bool_decide_true by done. cbn [andb]. destruct (decide (i < 21)).
    + rewrite bool_decide_true by lia. rewrite (Z.testbit_neg_r (Z.shiftr _ _)) by lia. by rewrite andb_false_r.
    + rewrite bool_decide_false by lia. rewrite Z.shiftr_spec by lia. rewrite andb_true_r. f_equal. lia.
  - rewrite (testbit_high 64 p) by (done || lia). cbn. symmetry. destruct (decide (21 <= i)).
    + rewrite Z.shiftr_spec by lia. apply (testbit_high 64); [done | lia].
    + lia.
Qed.

(** The addresses reported for a buffer of at most 2 MiB, all of whose pages are
    mapped: at most two pieces whose lengths add up to the length of the buffer and
    whose addresses are the physical addresses of every byte of the buffer. *)
Theorem BufferAddress_correct (s : t (mspace := mspace)) pg a data offset length
  (I : inv s pg a) (Hd : 0 <= data) (Ho : 0 <= offset) (Hl : 0 < length <= 2 * MiB)
  (Hv : data + offset + length < 2 ^ 47)
  (Hm : forall k, 0 <= k < length -> pg !! vpage (data + offset + k) <> None) :
  exists len1 lo1 hi1 len2 lo2 hi2,
    BufferAddress s [AUint8Array data offset length] = Ret (Return [len1; lo1; hi1; len2; lo2; hi2]) /\
    len1 + len2 = length /\ 0 < len1 /\ 0 <= len2 /\
    forall k, 0 <= k < length ->
      VirtualToPhysical (addr_space_ s) (data + offset + k) =
      Ret (if k <? len1 then address lo1 hi1 + k else address lo2 hi2 + (k - len1)).
Proof.
  change (2 * MiB) with (2 ^ 21) in Hl. set (v := data + offset) in *.
  assert (forall k, 0 <= k < length -> exists q wt n, pg !! vpage (v + k) = Some (q, wt) /\ q = n * 2 ^ 21 /\ 0 <= n < 2 ^ 17 + 2 ^ 16) as P.
  { intros k Hk. specialize (Hm k Hk). destruct (pg !! vpage (v + k)) as [[q wt] |] eqn:E; [| done].
    destruct (mapped_page s pg a (v + k) q wt I) as (n & En & Hn); [unfold GiB; lia | done |]. eauto 10. }
  destruct (P 0 ltac:(lia)) as (q & wt & n & E0 & Eq & Hn). rewrite Z.add_0_r in E0.
  pose proof (Z.mod_pos_bound v (2 ^ 21) ltac:(lia)) as Bo. set (o := v `mod` 2 ^ 21) in *.
  pose proof (fun k => V2P_in_page s pg a v k q wt I) as V. fold o in V.
  unfold BufferAddress. cbn [ValidateArg nth_arg negb]. change (ValidateArg _ 0 UINT8ARRAY) with true. cbn [negb].
  change (nth_arg [AUint8Array data offset length] 0) with (AUint8Array data offset length). cbv iota.
  fold v. rewrite (proj2 (Z.eqb_neq length 0)) by lia.
  assert (forall z, in_range 64 z -> u64 z = z) as U by (intros z; apply wrap_small).
  rewrite (U v) by (unfold in_range; lia).
  pose proof (V 0) as V0. rewrite Z.add_0_r in V0. rewrite V0 by (done || lia). cbn [mbind outcome_bind]. rewrite Z.add_0_r.
  rewrite (U (q + o + length)) by (unfold in_range; lia).
  rewrite boundary_floor by (unfold in_range; lia).
  destruct (Z.ltb_spec (o + length) (2 ^ 21)) as [L | L].
  - replace ((q + o + length) / 2 ^ 21) with n by (apply (Z.div_unique _ _ _ (o + length)); lia).
    rewrite (proj2 (Z.ltb_ge (q + o) (n * 2 ^ 21))) by lia.
    eexists _, _, _, _, _, _. split; [done |]. unfold u32. rewrite wrap_small by (unfold in_range; lia).
    rewrite address_halves by (unfold in_range; lia). split_and!; try lia.
    intros k Hk. rewrite (proj2 (Z.ltb_lt k length)) by lia. apply V; (done || lia).
  - replace ((q + o + length) / 2 ^ 21) with (n + 1) by (apply (Z.div_unique _ _ _ (o + length - 2 ^ 21)); lia).
    rewrite (proj2 (Z.ltb_lt (q + o) ((n + 1) * 2 ^ 21))) by lia.
    replace ((n + 1) * 2 ^ 21 - (q + o)) with (2 ^ 21 - o) by lia. set (len1 := 2 ^ 21 - o).
    rewrite (U len1), (U (length - len1)), (U (v + len1))
      by (unfold in_range; lia).
    destruct (i_tables _ _ _ I) as (own & Ht & _). rewrite (V2P_tree _ _ _ _ Ht). cbn [mbind outcome_bind].
    eexists _, _, _, _, _, _. split; [done |]. unfold u32. rewrite !wrap_small by (unfold in_range; lia).
    rewrite (address_halves (q + o)) by (unfold in_range; lia). split_and!; try lia.
    intros k Hk. destruct (Z.ltb_spec k len1); [apply V; (done || lia) |].
    assert ((v + len1) `mod` 2 ^ 21 = 0) as M.
    { pose proof (Z.div_mod v (2 ^ 21) ltac:(lia)). symmetry. apply (Z.mod_unique _ _ (v / 2 ^ 21 + 1)); lia. }
    destruct (P len1 ltac:(lia)) as (q2 & wt2 & n2 & E2 & Eq2 & Hn2). rewrite E2, page_offset_mod, M by lia.
    rewrite address_halves by (unfold in_range; lia).
    replace (v + k) with (v + len1 + (k - len1)) by lia. rewrite (V2P_in_page s pg a (v + len1) _ q2 wt2) by (done || lia).
    by rewrite M.
Qed.

(** Memory for devices: with a free page below 4 GiB and tables left, AllocDMA returns
    the address of a whole page that was free; after it every byte of the page is
    mapped, at the same address for the processor as for the device.  The number that
    JavaScript gets is the address only below 2 GiB: from there on it is the address
    minus 2^32, a negative number. *)
Theorem AllocDMA_correct (s : t (mspace := mspace)) pg a
  (I : inv s pg a) (R : room s) (Hf : exists p, p ∈ free_pages a /\ p <= last_32bit) :
  exists p s' pg', AllocDMA s = Ret ((if p <? 1024 then p * 2 ^ 21 else p * 2 ^ 21 - 2 ^ 32, 2 * MiB), s') /\
    p ∈ free_pages a /\ inv s' pg' (take_page a p) /\
    forall off, 0 <= off < 2 * MiB ->
      VirtualToPhysical (addr_space_ s') (p * 2 ^ 21 + off) = Ret (p * 2 ^ 21 + off).
Proof.
  destruct (alloc32_refines _ _ (i_phys _ _ _ I) Hf) as (p & pmm & Ea & Hp & Hle & R').
  pose proof (i_phys _ _ _ I) as (l32 & l64 & Hr).
  assert (page_ok p) as [Hp1 _] by (by eapply free_ok). change first_page with 16 in Hp1.
  change last_32bit with 2047 in Hle. unfold AllocDMA, AllocPage32. rewrite Ea. cbn [mbind outcome_bind].
  change kPageSizeBytes with (2 ^ 21). set (v := p * 2 ^ 21). rewrite (proj2 (Z.eqb_neq v 0)) by lia.
  cbn [negb rt_assert mbind outcome_bind].
  assert (v = Z.land v 0xffffffff) as Ev.
  { rewrite (land_mask 32) by (done || lia). symmetry. apply wrap_small. unfold in_range. lia. }
  rewrite <- Ev, Z.eqb_refl. cbn [rt_assert mbind outcome_bind]. change (chunk_size >? 0) with true.
  cbn [rt_assert mbind outcome_bind]. set (s1 := mk pmm _ _ _ _).
  assert (inv s1 pg (take_page a p)) as I1.
  { destruct I as [I1 I2 I3 I4 I5]. split; try done.
    intros w x wt Hw E. destruct (I4 w x wt Hw E) as (r & Hr' & ->). exists r. set_solver. }
  assert (exists s2 pg2, touch s1 v = Ret s2 /\ inv s2 pg2 (take_page a p) /\
    exists wt, pg2 !! vpage v = Some (v, wt)) as (s2 & pg2 & E2 & I2 & wt2 & Ev2).
  { assert (v / 2 ^ 21 * 2 ^ 21 = v) as Ef by (unfold v; by rewrite Z.div_mul by lia).
    assert (0 < v < 4 * GiB) as Hv by (unfold v, GiB; lia).
    destruct (touch_cases s1 pg _ v I1) as [([q wt] & Eq & ->) | [Hnone ->]].
    - exists s1, pg. split; [done |]. split; [done |]. exists wt.
      pose proof (i_low _ _ _ I1 v q wt ltac:(lia) Eq) as X. congruence.
    - destruct (PageFault_low s1 pg _ v I1 Hv) as [(s' & -> & F & I') | [Hn _]].
      + rewrite Hnone, Ef in I'. eexists s', _. split; [done |]. split; [exact I' |]. exists true. by rewrite lookup_insert_eq.
      + by destruct Hn. }
  rewrite E2. cbn [mbind outcome_bind]. exists p, s2, pg2. unfold u32. change chunk_size with (2 * MiB).
  rewrite !wrap_small by (unfold in_range, MiB; lia). split_and!; [| done | done |].
  { change (Uint32_New (2 * MiB)) with (2 * MiB). do 3 f_equal. unfold Uint32_New, sign_of. change (2 ^ (32 - 1)) with (2 ^ 31).
    rewrite wrap_small by (unfold in_range; lia). destruct (Z.ltb_spec p 1024); [rewrite decide_True by lia | rewrite decide_False by lia]; done. }
  intros off Hoff. fold v. change (2 * MiB) with (2 ^ 21) in Hoff.
  assert (v `mod` 2 ^ 21 = 0) as M by (unfold v; by rewrite Z.mod_mul by lia).
  rewrite (V2P_in_page s2 pg2 _ v off v wt2 I2) by (done || lia). rewrite M. f_equal. lia.
Qed.

End WithMspace.

Lemma BufferAddress_correct_witness :
  exists len1 lo1 hi1 len2 lo2 hi2,
    BufferAddress booted [AUint8Array (6 * MiB - 16) 0 64] = Ret (Return [len1; lo1; hi1; len2; lo2; hi2]) /\
    len1 + len2 = 64.
Proof.
  destruct booted_inv as (pg & I & Id).
  destruct (BufferAddress_correct booted pg small_pages (6 * MiB - 16) 0 64 I)
    as (len1 & lo1 & hi1 & len2 & lo2 & hi2 & E & L & _); [by vm_compute | by vm_compute | split; by vm_compute | by vm_compute | |].
  - intros k Hk. rewrite (Id (6 * MiB - 16 + 0 + k)) by (unfold in_range, MiB; lia).
    rewrite decide_True; [done |]. apply Z.div_lt_upper_bound; unfold MiB; lia.
  - exists len1, lo1, hi1, len2, lo2, hi2. exact (conj E L).
Defined.

Lemma AllocDMA_correct_witness :
  exists p s', AllocDMA booted = Ret ((if p <? 1024 then p * 2 ^ 21 else p * 2 ^ 21 - 2 ^ 32, 2 * MiB), s') /\
    p ∈ free_pages small_pages.
Proof.
  destruct booted_inv as (pg & I & _).
  destruct (AllocDMA_correct booted pg small_pages I booted_room) as (p & s' & pg' & E & Hp & _).
  - exists 17. split; by vm_compute.
  - exists p, s'. exact (conj E Hp).
Defined.

End MemoryNatives.
