(* ===== verification/Io.v ===== *)
(** * kernel/x64/io-x64.h, native-object.cc: port input and output

    The instructions that read and write ports are an interface that a device
    implements; the accesses to the PCI configuration space are proved against a
    device that implements configuration mechanism 1 of the PCI bus; [PortAccess] says which
    ports the port objects of scripts reach. *)

From S2P Require Import Prelude Utils Natives.

(** What the machine does on [in] and [out] of [n] bytes. *)
Class Ports (S : Type) := {
  out : nat -> Z -> Z -> S -> S;
  inp : nat -> Z -> S -> Z * S }.

Module IoPortsX64.

Section Ports.
Context {S : Type} `{Ports S}.

(** kernel/x64/io-x64.h:25-27, IoPortsX64::OutB. *)
Definition OutB (port value : Z) (s : S) : S := out 1 (u16 port) (u8 value) s.
(** kernel/x64/io-x64.h:29-31, IoPortsX64::OutW. *)
Definition OutW (port value : Z) (s : S) : S := out 2 (u16 port) (u16 value) s.
(** kernel/x64/io-x64.h:33-35, IoPortsX64::OutDW. *)
Definition OutDW (port value : Z) (s : S) : S := out 4 (u16 port) (u32 value) s.
(** kernel/x64/io-x64.h:37-41, IoPortsX64::InB. *)
Definition InB (port : Z) (s : S) : Z * S := inp 1 (u16 port) s.
(** kernel/x64/io-x64.h:43-47, IoPortsX64::InW. *)
Definition InW (port : Z) (s : S) : Z * S := inp 2 (u16 port) s.
(** kernel/x64/io-x64.h:49-53, IoPortsX64::InDW. *)
Definition InDW (port : Z) (s : S) : Z * S := inp 4 (u16 port) s.

(** kernel/x64/io-x64.h:89-90, kPciAddressPort and kPciDataPort. *)
Definition kPciAddressPort : Z := 0xCF8.
Definition kPciDataPort : Z := 0xCFC.

(** kernel/x64/io-x64.h:95-96, the address that PciWriteAddr writes. *)
Definition pci_addr (bus slot func offset : Z) : Z :=
  Z.lor (Z.lor (Z.lor (Z.lor (Z.shiftl bus 16) (Z.shiftl slot 11)) (Z.shiftl func 8))
    (Z.land offset 0xfc)) 0x80000000.

(** kernel/x64/io-x64.h:92-98, IoPortsX64::PciWriteAddr. *)
Definition PciWriteAddr (bus slot func offset : Z) (s : S) : outcome S :=
  _ ← rt_assert (slot <? 32) "slot < 32";
  _ ← rt_assert (func <? 8) "func < 8";
  Ret (OutDW kPciAddressPort (pci_addr bus slot func offset) s).

(** kernel/x64/io-x64.h:55-58, IoPortsX64::PciReadB. *)
Definition PciReadB (bus slot func offset : Z) (s : S) : outcome (Z * S) :=
  s ← PciWriteAddr bus slot func offset s;
  let '(v, s) := InDW kPciDataPort s in
  Ret (u8 (Z.land (Z.shiftr v (Z.land offset 3 * 8)) 0xff), s).

(** kernel/x64/io-x64.h:60-64, IoPortsX64::PciReadW. *)
Definition PciReadW (bus slot func offset : Z) (s : S) : outcome (Z * S) :=
  _ ← rt_assert (Z.land offset 1 =? 0) "(offset & 1) == 0";
  s ← PciWriteAddr bus slot func offset s;
  let '(v, s) := InDW kPciDataPort s in
  Ret (u16 (Z.land (Z.shiftr v (Z.land offset 2 * 8)) 0xffff), s).

(** kernel/x64/io-x64.h:66-70, IoPortsX64::PciReadDW. *)
Definition PciReadDW (bus slot func offset : Z) (s : S) : outcome (Z * S) :=
  _ ← rt_assert (Z.land offset 3 =? 0) "(offset & 3) == 0";
  s ← PciWriteAddr bus slot func offset s;
  let '(v, s) := InDW kPciDataPort s in Ret (u32 v, s).

(** kernel/x64/io-x64.h:72-75, IoPortsX64::PciWriteB. *)
Definition PciWriteB (bus slot func offset value : Z) (s : S) : outcome S :=
  s ← PciWriteAddr bus slot func offset s;
  Ret (OutB (kPciDataPort + Z.land offset 3) value s).

(** kernel/x64/io-x64.h:77-81, IoPortsX64::PciWriteW. *)
Definition PciWriteW (bus slot func offset value : Z) (s : S) : outcome S :=
  _ ← rt_assert (Z.land offset 1 =? 0) "(offset & 1) == 0";
  s ← PciWriteAddr bus slot func offset s;
  Ret (OutW (kPciDataPort + Z.land offset 2) value s).

(** kernel/x64/io-x64.h:83-87, IoPortsX64::PciWriteDW. *)
Definition PciWriteDW (bus slot func offset value : Z) (s : S) : outcome S :=
  _ ← rt_assert (Z.land offset 3 =? 0) "(offset & 3) == 0";
  s ← PciWriteAddr bus slot func offset s;
  Ret (OutDW kPciDataPort value s).

(** ** Natives on a port *)

(** kernel/native-object.cc:595-602, IoPortX64Object::Write8. *)
Definition Write8 (port_number : Z) (args : list Args.arg) (s : S) : Args.native unit * S :=
  if negb (Args.ValidateArg args 0 Args.UINT32)
  then (Args.Throw "argument 0 is not a uint32 number value", s)
  else (Args.Return tt, OutB port_number (Z.land (Args.number args 0) 0xFF) s).

(** kernel/native-object.cc:604-611, IoPortX64Object::Write16. *)
Definition Write16 (port_number : Z) (args : list Args.arg) (s : S) : Args.native unit * S :=
  if negb (Args.ValidateArg args 0 Args.UINT32)
  then (Args.Throw "argument 0 is not a uint32 number value", s)
  else (Args.Return tt, OutW port_number (Z.land (Args.number args 0) 0xFFFF) s).

(** kernel/native-object.cc:613-620, IoPortX64Object::Write32. *)
Definition Write32 (port_number : Z) (args : list Args.arg) (s : S) : Args.native unit * S :=
  if negb (Args.ValidateArg args 0 Args.UINT32)
  then (Args.Throw "argument 0 is not a uint32 number value", s)
  else (Args.Return tt, OutDW port_number (Args.number args 0) s).

(** kernel/native-object.cc:622-626, IoPortX64Object::Read8. *)
Definition Read8 (port_number : Z) (s : S) : Z * S := InB port_number s.
(** kernel/native-object.cc:628-632, IoPortX64Object::Read16. *)
Definition Read16 (port_number : Z) (s : S) : Z * S := InW port_number s.
(** kernel/native-object.cc:634-638, IoPortX64Object::Read32. *)
Definition Read32 (port_number : Z) (s : S) : Z * S := InDW port_number s.

(** ** The serial port *)

(** kernel/x64/io-x64.h:106-115, SerialPortX64::Init. *)
Definition Serial_Init (s : S) : S :=
  let port_ := 0x3F8 in
  OutB (port_ + 4) 0x0B (OutB (port_ + 2) 0xC7 (OutB (port_ + 3) 0x03 (OutB (port_ + 1) 0x00
    (OutB (port_ + 0) 0x03 (OutB (port_ + 3) 0x80 (OutB (port_ + 1) 0x00 s)))))).

(** kernel/x64/io-x64.h:125-128, SerialPortX64::write_serial, for at most [fuel] polls
    of a busy transmitter. *)
Fixpoint write_serial (fuel : nat) (a : Z) (s : S) : outcome S :=
  let '(v, s) := InB (0x3F8 + 5) s in
  if Z.land v 0x20 =? 0 then match fuel with O => OutOfFuel | Datatypes.S n => write_serial n a s end
  else Ret (OutB 0x3F8 a s).

End Ports.

(** ** Configuration mechanism 1 *)

(** The address register and the configuration space, byte by byte, at the place the
    register selects (bus, device, function and register number). *)
Record pci : Type := mkPci { address : Z; config : Z -> Z }.

Definition selected (d : pci) : Z := Z.land (address d) 0xfffffc.

(** Writes the bytes of a value. *)
Definition store (c : Z -> Z) (at_ : Z) (n : nat) (v : Z) : Z -> Z := fun x =>
  if decide (at_ <= x < at_ + Z.of_nat n) then (v / 2 ^ (8 * (x - at_))) `mod` 256 else c x.

#[export] Instance pci_ports : Ports pci := {|
  out n port v d :=
    if port =? 0xCF8 then mkPci v (config d)
    else if (0xCFC <=? port) && (port + Z.of_nat n <=? 0xD00) && Z.testbit (address d) 31
    then mkPci (address d) (store (config d) (selected d + (port - 0xCFC)) n v)
    else d;
  inp n port d :=
    (if (port =? 0xCFC) && (n =? 4)%nat && Z.testbit (address d) 31
     then load (config d) (selected d) 4 else 2 ^ (8 * Z.of_nat n) - 1, d) |}.

(** The place of a register of a function in the configuration space. *)
Definition place (bus slot func offset : Z) : Z := bus * 2 ^ 16 + slot * 2 ^ 11 + func * 2 ^ 8 + offset.

Definition valid (bus slot func offset : Z) : Prop :=
  in_range 8 bus /\ 0 <= slot < 32 /\ 0 <= func < 8 /\ in_range 8 offset.

#[local] Ltac Zify.zify_post_hook ::= Z.div_mod_to_equations.

Lemma pci_addr_value bus slot func offset :
  valid bus slot func offset ->
  pci_addr bus slot func offset = 2 ^ 31 + place bus slot func (offset - offset `mod` 4).
Proof.
  intros (Hb & Hs & Hf & Ho). unfold in_range in *.
  assert (Z.land offset 0xfc = offset - offset `mod` 4) as El.
  { replace (Z.land offset 0xfc) with (Z.shiftl (Z.shiftr offset 2) 2).
    - rewrite Z.shiftl_mul_pow2, Z.shiftr_div_pow2 by lia. change (2 ^ 2) with 4. lia.
    - change 0xfc with (Z.shiftl (Z.ones 6) 2). bits. destruct (decide (2 <= i)).
      + rewrite Z.shiftr_spec by lia. rewrite Z.ones_spec by lia. replace (i - 2 + 2) with i by lia.
        case_bool_decide; [by rewrite andb_true_r |]. rewrite (testbit_high 8 offset) by (unfold in_range; lia). done.
      + rewrite !(Z.testbit_neg_r _ (i - 2)) by lia. by rewrite andb_false_r. }
  unfold pci_addr. rewrite El. set (o := offset - offset `mod` 4).
  assert (0 <= o < 256) as Bo by (subst o; pose proof (Z.mod_pos_bound offset 4 ltac:(lia)); pose proof (Z.mod_le offset 4); lia).
  replace (Z.lor _ 0x80000000) with
    (Z.lor (Z.lor (Z.lor (Z.lor o (Z.shiftl func 8)) (Z.shiftl slot 11)) (Z.shiftl bus 16)) (Z.shiftl 1 31)).
  - rewrite (Utils.lor_shiftl_add o) by (unfold in_range; lia).
    rewrite (Utils.lor_shiftl_add (o + _)) by (unfold in_range; lia).
    rewrite (Utils.lor_shiftl_add (o + _ + _)) by (unfold in_range; lia).
    rewrite (Utils.lor_shiftl_add (o + _ + _ + _)) by (unfold in_range; lia). unfold place. lia.
  - change (Z.shiftl 1 31) with 0x80000000. bits. btauto.
Qed.

(** What PciWriteAddr selects. *)
Lemma PciWriteAddr_spec bus slot func offset d :
  valid bus slot func offset ->
  exists d', PciWriteAddr bus slot func offset d = Ret d' /\ config d' = config d /\
    Z.testbit (address d') 31 = true /\ selected d' = place bus slot func (offset - offset `mod` 4).
Proof.
  intros V. pose proof V as (Hb & Hs & Hf & Ho). unfold PciWriteAddr.
  rewrite (proj2 (Z.ltb_lt slot 32)), (proj2 (Z.ltb_lt func 8)) by lia. cbn [rt_assert mbind outcome_bind].
  eexists. split; [done |]. unfold OutDW. cbn [out pci_ports]. change (u16 kPciAddressPort =? 0xCF8) with true.
  cbn [config address]. split; [done |]. rewrite pci_addr_value by done.
  pose proof (Z.mod_pos_bound offset 4 ltac:(lia)) as Bm. pose proof (Z.mod_le offset 4) as Lm.
  pose proof (Z.div_mod offset 4 ltac:(lia)) as Dm. unfold in_range in *.
  set (o := offset - offset `mod` 4) in *. assert (o = 4 * (offset / 4)) as Eo by lia.
  assert (0 <= place bus slot func o < 2 ^ 24) as Bp by (unfold place; lia).
  unfold u32. rewrite wrap_small by (unfold in_range; lia).
  replace (2 ^ 31 + place bus slot func o) with (Z.lor (place bus slot func o) (Z.shiftl 1 31)).
  2: { rewrite Utils.lor_shiftl_add by (unfold in_range; lia). lia. }
  split.
  - rewrite Z.lor_spec, Z.shiftl_spec by lia. by rewrite orb_true_r.
  - unfold selected. cbn [address]. replace (Z.land _ 0xfffffc) with (Z.shiftl (Z.shiftr (place bus slot func o) 2) 2).
    + rewrite Z.shiftl_mul_pow2, Z.shiftr_div_pow2 by lia.
      assert (place bus slot func o = (bus * 2 ^ 14 + slot * 2 ^ 9 + func * 2 ^ 6 + offset / 4) * 2 ^ 2) as -> by (unfold place; lia).
      by rewrite Z.div_mul by lia.
    + change 0xfffffc with (Z.shiftl (Z.ones 22) 2). bits. destruct (decide (2 <= i)).
      * rewrite Z.shiftr_spec, Z.ones_spec by lia. replace (i - 2 + 2) with i by lia.
        destruct (decide (i < 24)).
        -- rewrite (Z.testbit_neg_r 1 (i - 31)), orb_false_r by lia. by rewrite bool_decide_true, andb_true_r by lia.
        -- rewrite bool_decide_false, andb_false_r by lia. apply (testbit_high 24); [done | lia].
      * rewrite !(Z.testbit_neg_r _ (i - 2)) by lia. by rewrite andb_false_r.
Qed.



Lemma load_S c a n : ram_ok c -> load c a (S n) = c a + 2 ^ 8 * load c (a + 1) n.
Proof.
  intros C. unfold load. cbn [seq map little_endian_to_Z]. rewrite Z.add_0_r.
  rewrite (Utils.lor_shiftl_add (c a)) by (apply C || lia). rewrite <- seq_shift, map_map.
  replace (map _ (seq 0 n)) with (map (fun i => c (a + 1 + Z.of_nat i)) (seq 0 n)); [lia |].
  apply map_ext. intros i. f_equal. lia.
Qed.

Lemma load_app c k m : ram_ok c -> forall a,
  load c a (k + m) = load c a k + 2 ^ (8 * Z.of_nat k) * load c (a + Z.of_nat k) m.
Proof.
  intros C. induction k as [| k IH]; intros a; cbn [Nat.add].
  - change (load c a 0) with 0. change (2 ^ (8 * Z.of_nat 0)) with 1. rewrite Z.add_0_r. lia.
  - rewrite !load_S, IH by done. rewrite Nat2Z.inj_succ.
    replace (8 * Z.succ (Z.of_nat k)) with (8 + 8 * Z.of_nat k) by lia. rewrite Z.pow_add_r by lia.
    replace (a + 1 + Z.of_nat k) with (a + Z.succ (Z.of_nat k)) by lia. ring.
Qed.

(** [n] bytes of a double word, from byte [k] on. *)
Lemma load4_bytes c a k n :
  ram_ok c -> (k + n <= 4)%nat ->
  Z.land (Z.shiftr (load c a 4) (Z.of_nat k * 8)) (Z.ones (8 * Z.of_nat n)) = load c (a + Z.of_nat k) n.
Proof.
  intros C Hk. rewrite Z.land_ones, Z.shiftr_div_pow2 by lia.
  assert (forall a n, 0 <= load c a n < 2 ^ (8 * Z.of_nat n)) as B by (intros; by apply load_range).
  replace 4%nat with (k + (n + (4 - k - n)))%nat by lia. rewrite load_app, (Z.mul_comm (Z.of_nat k) 8) by done.
  rewrite Z.add_comm, (Z.mul_comm (2 ^ _)), Z.div_add_l, Z.div_small, Z.add_0_r by (apply B || lia).
  rewrite load_app, (Z.mul_comm (2 ^ _)), Z.mod_add by (done || lia). apply Z.mod_small, B.
Qed.

Lemma land3 offset : Z.land offset 3 = offset `mod` 4.
Proof. by rewrite (land_mask 2). Qed.

Lemma land1 offset : Z.land offset 1 = offset `mod` 2.
Proof. by rewrite (land_mask 1). Qed.

Lemma land2 offset : 0 <= offset -> offset `mod` 2 = 0 -> Z.land offset 2 = offset `mod` 4.
Proof.
  intros H0 H2. rewrite <- land3. bits. change 3 with (Z.ones 2). rewrite Z.ones_spec by lia.
  destruct (decide (i = 0)) as [-> | H1]; [| destruct (decide (i = 1)) as [-> | H1']].
  - rewrite Z.bit0_odd, Zodd_mod. replace (Zeq_bool (offset mod 2) 1) with false by (by rewrite H2). done.
  - done.
  - rewrite bool_decide_false by lia. change 2 with (2 ^ 1). rewrite Z.pow2_bits_false by lia. done.
Qed.

(** PCI configuration space, on a bus that implements configuration mechanism 1: the
    reads return exactly the bytes of the register of the function, little endian, and
    change nothing; the writes change exactly these bytes; a misaligned access and a
    device or function number out of range stop the machine. *)
Theorem Pci_correct d bus slot func offset v
  (V : valid bus slot func offset) (C : ram_ok (config d)) :
  let at_ := place bus slot func offset in
  (exists d', PciReadB bus slot func offset d = Ret (config d at_, d') /\ config d' = config d) /\
  (offset `mod` 2 = 0 -> exists d', PciReadW bus slot func offset d = Ret (load (config d) at_ 2, d') /\ config d' = config d) /\
  (offset `mod` 4 = 0 -> exists d', PciReadDW bus slot func offset d = Ret (load (config d) at_ 4, d') /\ config d' = config d) /\
  (exists d', PciWriteB bus slot func offset v d = Ret d' /\ config d' = store (config d) at_ 1 (u8 v)) /\
  (offset `mod` 2 = 0 -> exists d', PciWriteW bus slot func offset v d = Ret d' /\ config d' = store (config d) at_ 2 (u16 v)) /\
  (offset `mod` 4 = 0 -> exists d', PciWriteDW bus slot func offset v d = Ret d' /\ config d' = store (config d) at_ 4 (u32 v)) /\
  (offset `mod` 2 <> 0 -> PciReadW bus slot func offset d = Fatal "(offset & 1) == 0" /\
     PciWriteW bus slot func offset v d = Fatal "(offset & 1) == 0").
Proof.
  destruct (PciWriteAddr_spec bus slot func offset d V) as (d1 & E1 & C1 & T1 & S1).
  pose proof V as (_ & _ & _ & Ho). unfold in_range in Ho.
  set (k := offset `mod` 4) in *. assert (0 <= k < 4) as Hk by (subst k; lia).
  assert (place bus slot func offset = selected d1 + k) as Ep by (rewrite S1; unfold place; lia).
  assert (InDW kPciDataPort d1 = (load (config d1) (selected d1) 4, d1)) as Ein.
  { unfold InDW. cbn [inp pci_ports]. by rewrite T1. }
  assert (forall n w, (n <= 4)%nat -> k + Z.of_nat n <= 4 ->
    config (out n (u16 (kPciDataPort + k)) w d1) = store (config d) (place bus slot func offset) n w) as Out.
  { intros n w Hn Hkn. assert (u16 (kPciDataPort + k) = 0xCFC + k) as -> by (apply wrap_small; unfold in_range, kPciDataPort; lia).
    cbn [out pci_ports]. rewrite (proj2 (Z.eqb_neq _ _)) by lia.
    rewrite (proj2 (Z.leb_le _ _)), (proj2 (Z.leb_le _ _)), T1 by lia. cbn. rewrite C1, Ep. f_equal. lia. }
  assert (forall b, config d b = u8 (config d b)) as U8 by (intros b; symmetry; apply wrap_small, C).
  assert (forall a n, in_range (8 * Z.of_nat n) (load (config d) a n)) as Ld by (intros; by apply load_range).
  unfold PciReadB, PciReadW, PciReadDW, PciWriteB, PciWriteW, PciWriteDW. rewrite land3, land1, E1. fold k.
  cbn [mbind outcome_bind]. rewrite Ein, C1. cbn zeta.
  split_and!.
  - exists d1. split; [| done]. do 2 f_equal. pose proof (load4_bytes (config d) (selected d1) (Z.to_nat k) 1 C ltac:(lia)) as L.
    rewrite Z2Nat.id in L by lia. change (Z.ones (8 * Z.of_nat 1)) with 0xff in L. rewrite L.
    rewrite load_S by done. change (load _ _ 0) with 0. rewrite Z.mul_0_r, Z.add_0_r, Ep. by rewrite <- U8.
  - intros H2. rewrite H2. cbn [Z.eqb rt_assert mbind outcome_bind]. exists d1. split; [| done]. do 2 f_equal.
    rewrite land2 by lia. fold k. assert (k = 0 \/ k = 2) as Hk2 by (subst k; lia).
    pose proof (load4_bytes (config d) (selected d1) (Z.to_nat k) 2 C ltac:(lia)) as L.
    rewrite Z2Nat.id in L by lia. change (Z.ones (8 * Z.of_nat 2)) with 0xffff in L. rewrite L, Ep. apply wrap_small, Ld.
  - intros H4. rewrite H4. cbn [Z.eqb rt_assert mbind outcome_bind]. exists d1. split; [| done]. do 2 f_equal.
    rewrite Ep, H4, Z.add_0_r. apply wrap_small, Ld.
  - eexists. split; [done |]. apply Out; lia.
  - intros H2. rewrite H2. cbn [Z.eqb rt_assert mbind outcome_bind]. eexists. split; [done |].
    rewrite land2 by lia. fold k. apply Out; [lia | subst k; lia].
  - intros H4. rewrite H4. cbn [Z.eqb rt_assert mbind outcome_bind]. eexists. split; [done |].
    rewrite H4, Z.add_0_r in Out. apply Out; lia.
  - intros H2. rewrite (proj2 (Z.eqb_neq (offset `mod` 2) 0)) by done. done.
Qed.

Lemma Pci_correct_witness :
  exists d', PciReadB 1 2 3 0x0e (mkPci 0 (fun x => x `mod` 256)) = Ret (14, d').
Proof.
  destruct (Pci_correct (mkPci 0 (fun x => x `mod` 256)) 1 2 3 0x0e 0) as ((d' & E & _) & _).
  - repeat split; lia.
  - intros x. apply (wrap_range 8). lia.
  - exists d'. exact E.
Defined.

End IoPortsX64.

(** ** What a script reaches through ports *)
Module PortAccess.
Import Args Utils Resources IoPortsX64.

(** A machine that keeps the accesses to its ports: how many bytes, and from which port on. *)
Definition recorder : Ports (list (nat * Z)) := {| out k p _ s := (k, p) :: s; inp k p s := (0, (k, p) :: s) |}.
#[local] Existing Instance recorder.

Inductive port_method : Type := write8 | write16 | write32 | read8 | read16 | read32.

(** kernel/native-object.h:104-111, IoPortX64Object::ObjectInit: the methods of a port, here the
    accesses that each of them makes. *)
Definition accesses (port_number : Z) (m : port_method) (args : list arg) : list (nat * Z) :=
  match m with
  | write8 => (Write8 port_number args []).2 | write16 => (Write16 port_number args []).2
  | write32 => (Write32 port_number args []).2
  | read8 => (Read8 port_number []).2 | read16 => (Read16 port_number []).2 | read32 => (Read32 port_number []).2
  end.

Lemma accesses_spec n m args k p : in_range 16 n -> (k, p) ∈ accesses n m args -> p = n /\ (k = 1 \/ k = 2 \/ k = 4)%nat.
Proof.
  intros Hn. assert (u16 n = n) as E by (by apply wrap_small).
  destruct m; cbn -[u16]; unfold Write8, Write16, Write32; try (destruct (negb _); cbn -[u16 u8 u32]);
    unfold OutB, OutW, OutDW; cbn -[u16 u8 u32]; rewrite ?E; intros H; try (by apply elem_of_nil in H);
    apply list_elem_of_singleton in H; injection H as -> ->; auto.
Qed.

(** C27. Confinement: whatever calls JavaScript makes on a resource and on what it got from
    it, every object it obtains names part of that resource only.  In particular what comes from
    the resources of the system names addresses below 4 GiB, the ports 1 to 0xffff and the interrupts
    1 to 255.  Every access through a port starts at that port, so that a byte that is read or written
    lies inside the resource.  Accesses of 16 and 32 bits are not checked for the ports behind the first:
    they reach up to three ports behind the end of a range, and the last port of every range
    lets a script do that. *)
Theorem resources_confined o o' (R : rtc obtained o o') :
  within o' o /\
  (forall l, GetSystemResources = Ret l -> o ∈ l ->
     match extent o' with
     | (Memory, lo, hi) => 0 <= lo /\ hi <= 0xffffffff
     | (PortNumbers, lo, hi) => 1 <= lo /\ hi <= 0xffff
     | (Interrupts, lo, hi) => 1 <= lo /\ hi <= 255
     end) /\
  (forall n m args k p, o' = IoPort n -> in_range 16 n -> (k, p) ∈ accesses n m args ->
     (extent o).1.2 <= p <= (extent o).2 /\ (k = 1%nat \/ p + Z.of_nat k - 1 <= (extent o).2 + 3)) /\
  (forall r, o' = IORange r -> 0 <= begin_ r <= end_ r -> end_ r < 2 ^ 16 ->
     obtained o' (IoPort (end_ r)) /\ accesses (end_ r) write32 [ANumber 0] = [(4%nat, end_ r)]).
Proof.
  pose proof (rtc_within o o' R) as W. split; [done |]. split; [intros l El Ho; by apply (system_within o o' l) |]. split.
  - intros n m args k p -> Hn Ha. destruct (accesses_spec n m args k p Hn Ha) as [-> Hk]. destruct W as (_ & L & H). cbn in L, H.
    split; [lia |]. destruct Hk as [-> | Hk]; [by left | right; lia].
  - intros r -> Hb He. assert (u32 (end_ r) = end_ r /\ u16 (end_ r) = end_ r) as [E1 E2] by (split; apply wrap_small; unfold in_range; lia).
    split.
    + exists port, [ANumber (end_ r)]. cbn [invoke]. unfold IO_Port, Contains_w, Uint32Value. cbn -[u32 u16 wrap Contains].
      rewrite E1. fold (u16 (end_ r)). rewrite E2. assert (Contains r (end_ r) = true) as -> by (apply Contains_spec; lia). done.
    + cbn [accesses]. unfold Write32, OutDW. cbn -[u16 u32]. by rewrite E2.
Qed.

Lemma resources_confined_witness :
  within (IoPort 0x70) (IORange (mkRange 1 0xffff)) /\
  exists k p, (k, p) ∈ accesses 0x80 write32 [ANumber 0] /\ 0x80 < p + Z.of_nat k - 1.
Proof.
  assert (rtc obtained (IORange (mkRange 1 0xffff)) (IORange (mkRange 0x60 0x80))) as S.
  { apply rtc_once. exists subrange, [ANumber 0x60; ANumber 0x80]. reflexivity. }
  split.
  - destruct (resources_confined (IORange (mkRange 1 0xffff)) (IoPort 0x70)) as [W _]; [| exact W].
    eapply rtc_r; [exact S |]. exists offsetPort, [ANumber 0x10]. reflexivity.
  - destruct (resources_confined _ _ S) as (_ & _ & _ & A).
    destruct (A (mkRange 0x60 0x80) eq_refl) as [_ E]; [cbn; lia | cbn; lia |]. cbn [end_] in E.
    exists 4%nat, 0x80. rewrite E. split; [by left | lia].
Defined.

End PortAccess.
