(* ===== verification/Apic.v ===== *)
(** * kernel/x64/local-apic-x64.h, .cc, ioapic-x64.h, .cc, hpet-x64.h, .cc

    The interrupt controllers and the clock, over their memory-mapped registers.
    The theorems: what the registers hold after the initialisation, where each
    interrupt of an I/O APIC goes, and how far the clock is from the time. *)

From S2P Require Import Prelude Utils AddressSpace.

(** ** The I/O APIC *)
Module IoApic.

(** The registers behind the selector ([IOREGSEL]) and the window ([IOWIN]). *)
Record device : Type := mkDevice { regsel : Z; regs : gmap Z Z }.
Definition reg (d : device) (r : Z) : Z := default 0 (regs d !! r).

(** kernel/x64/ioapic-x64.h:27-32, IoApicRegister. *)
Definition ID : Z := 0x00.
Definition VER : Z := 0x01.
Definition REDTBL : Z := 0x10.

(** kernel/x64/ioapic-x64.h:41-49, IoApicRegistersAccessor::Read. *)
Definition Read (r : Z) (d : device) : Z * device :=
  (reg d r, mkDevice r (regs d)).

(** kernel/x64/ioapic-x64.h:51-59, IoApicRegistersAccessor::Write; the offset is a byte. *)
Definition Write (r reg_offset value : Z) (d : device) : device :=
  let sel := u32 (r + u8 reg_offset) in
  mkDevice sel (<[sel := u32 value]> (regs d)).

(** kernel/x64/ioapic-x64.h:61-64, IoApicRegistersAccessor::SetEntry; the index is a byte. *)
Definition SetEntry (index data : Z) (d : device) : device :=
  let i := u8 index in
  Write REDTBL (i * 2 + 1) (Z.shiftr (u64 data) 32) (Write REDTBL (i * 2) data d).

(** kernel/x64/ioapic-x64.h:80-83, IoApicX64 members. *)
Record t : Type := mk { id_ : Z; address_ : Z; interrupt_base_ : Z }.

(** kernel/x64/ioapic-x64.cc:20-24, IoApicX64::IoApicX64. *)
Definition new (id address interrupt_base : Z) : outcome t :=
  _ ← rt_assert (negb (address =? 0)) "address"; Ret (mk id address interrupt_base).

(** kernel/x64/ioapic-x64.h:75-77, IoApicX64::EnableIrq. *)
Definition EnableIrq (a : t) (first_irq_offset irq : Z) (d : device) : device :=
  SetEntry irq (u32 (first_irq_offset + irq + interrupt_base_ a)) d.

(** kernel/x64/ioapic-x64.cc:48-56, a round of the loop of IoApicX64::Init. *)
Definition init_entry (a : t) (d : device) (i : Z) : device :=
  if (0 =? interrupt_base_ a) && (0 =? i) then SetEntry i (Z.lor (Z.shiftl 1 16) (32 + i)) d
  else EnableIrq a 32 i d.

(** kernel/x64/ioapic-x64.cc:26-57, IoApicX64::Init. *)
Definition Init (a : t) (d : device) : outcome device :=
  _ ← rt_assert (negb (address_ a =? 0)) "address_";
  let '(v, d) := Read ID d in
  let id_reg := Z.land (Z.shiftr v 24) 0xF in
  let d := if negb (id_reg =? id_ a) then Write ID 0 (u32 (Z.shiftl (id_ a) 24)) d else d in
  let '(v, d) := Read VER d in
  let max_value := Z.land (Z.shiftr v 16) 0xFF in
  _ ← rt_assert (negb (max_value =? 0)) "max_value";
  let max_interrupts := max_value + 1 in
  Ret (fold_left (init_entry a) (seqZ 0 max_interrupts) d).

(** The redirection entry of input [i]. *)
Definition entry (d : device) (i : Z) : Z := reg d (REDTBL + 2 * i) + reg d (REDTBL + 2 * i + 1) * 2 ^ 32.

(** The value the entry of input [i] should have. *)
Definition wanted (a : t) (i : Z) : Z :=
  if (0 =? interrupt_base_ a) && (0 =? i) then 2 ^ 16 + 32 else 32 + i + interrupt_base_ a.

Lemma SetEntry_spec i data d :
  0 <= i < 120 -> in_range 32 data ->
  entry (SetEntry i data d) i = data /\
  (forall j, 0 <= j -> j <> i -> entry (SetEntry i data d) j = entry d j) /\
  forall r, r < REDTBL -> reg (SetEntry i data d) r = reg d r.
Proof.
  intros Hi Hd. assert (forall z, in_range 8 z -> u8 z = z) as U8 by (intros; by apply wrap_small).
  unfold SetEntry, Write. rewrite (U8 i), (U8 (i * 2)), (U8 (i * 2 + 1)) by (unfold in_range; lia).
  assert (forall z, in_range 32 z -> u32 z = z) as U by (intros; by apply wrap_small).
  rewrite (U (REDTBL + i * 2)), (U (REDTBL + (i * 2 + 1))), (U data) by (done || unfold in_range, REDTBL; lia).
  assert (u32 (Z.shiftr (u64 data) 32) = 0) as ->.
  { unfold u64, u32. rewrite (wrap_small 64) by (unfold in_range in *; lia).
    rewrite Z.shiftr_div_pow2, Z.div_small by (unfold in_range in *; lia). done. }
  replace (REDTBL + (i * 2 + 1)) with (REDTBL + 2 * i + 1) by lia. rewrite (Z.mul_comm i 2).
  unfold entry, reg. cbn [regs]. split_and!.
  - rewrite lookup_insert_ne, !lookup_insert_eq by lia. cbn [default from_option]. unfold id. lia.
  - intros j Hj Hne. by rewrite !lookup_insert_ne by (unfold REDTBL; lia).
  - intros r Hr. by rewrite !lookup_insert_ne by (unfold REDTBL in *; lia).
Qed.

Lemma wanted_value a i : 0 <= i -> wanted a i =
  if (0 =? interrupt_base_ a) && (0 =? i) then Z.lor (Z.shiftl 1 16) (32 + i) else 32 + i + interrupt_base_ a.
Proof.
  intros Hi. unfold wanted. destruct (0 =? interrupt_base_ a); [| done]. cbn [andb].
  destruct (Z.eqb_spec 0 i); [by subst i | done].
Qed.

Lemma init_entries a n : forall d,
  (n <= 120)%nat -> 0 <= interrupt_base_ a -> 32 + Z.of_nat n + interrupt_base_ a < 2 ^ 32 ->
  let d' := fold_left (init_entry a) (seqZ 0 (Z.of_nat n)) d in
  (forall i, 0 <= i < Z.of_nat n -> entry d' i = wanted a i) /\
  (forall i, Z.of_nat n <= i -> entry d' i = entry d i) /\
  forall r, r < REDTBL -> reg d' r = reg d r.
Proof.
  induction n as [| n IH]; intros d Hn Hb Hs; [split_and!; [lia | done | done] |].
  rewrite Nat2Z.inj_succ, <- Z.add_1_r, seqZ_app, fold_left_app by lia.
  change (seqZ (0 + Z.of_nat n) 1) with [Z.of_nat n]. cbn [fold_left].
  destruct (IH d) as (I1 & I2 & I3); [lia.. |]. set (d1 := fold_left _ _ d) in *.
  assert (init_entry a d1 (Z.of_nat n) = SetEntry (Z.of_nat n) (wanted a (Z.of_nat n)) d1) as E.
  { unfold init_entry, EnableIrq. rewrite wanted_value by lia. destruct (_ && _); [done |].
    unfold u32. rewrite wrap_small by (unfold in_range; lia). done. }
  destruct (SetEntry_spec (Z.of_nat n) (wanted a (Z.of_nat n)) d1) as (S1 & S2 & S3); [lia | |].
  { unfold wanted, in_range. destruct (_ && _); lia. }
  rewrite E. cbn zeta. split_and!.
  - intros i Hi. destruct (decide (i = Z.of_nat n)) as [-> | Hne]; [done |]. rewrite S2 by lia. apply I1. lia.
  - intros i Hi. rewrite S2 by lia. apply I2. lia.
  - intros r Hr. rewrite S3 by done. by apply I3.
Qed.

Lemma Init_spec a d
  (Ha : address_ a <> 0) (Hid : 0 <= id_ a < 16) (Hr : in_range 32 (reg d ID))
  (Hm : 0 < Z.land (Z.shiftr (reg d VER) 16) 0xFF < 120) (Hb : 0 <= interrupt_base_ a)
  (Hv : 32 + Z.land (Z.shiftr (reg d VER) 16) 0xFF + interrupt_base_ a < 256) :
  exists d', Init a d = Ret d' /\
    Z.land (Z.shiftr (reg d' ID) 24) 0xF = id_ a /\
    forall i, 0 <= i <= Z.land (Z.shiftr (reg d VER) 16) 0xFF ->
      Z.land (entry d' i) 0xff = 32 + (interrupt_base_ a + i) /\
      Z.testbit (entry d' i) 16 = bool_decide (interrupt_base_ a + i = 0) /\
      Z.land (Z.shiftr (entry d' i) 8) 7 = 0.
Proof.
  unfold Init. rewrite (proj2 (Z.eqb_neq _ _)) by done. cbn [negb rt_assert mbind outcome_bind Read].
  set (d1 := if negb _ then _ else _).
  assert (reg d1 VER = reg d VER /\ Z.land (Z.shiftr (reg d1 ID) 24) 0xF = id_ a) as [Ev Ei].
  { subst d1. destruct (Z.eqb_spec (Z.land (Z.shiftr (reg d ID) 24) 0xF) (id_ a)) as [E | E]; cbn [negb]; [done |].
    unfold Write, reg. cbn [regs]. change (u32 (ID + u8 0)) with ID.
    rewrite lookup_insert_ne, lookup_insert_eq by done. split; [done |]. cbn [default from_option].
    rewrite Z.shiftl_mul_pow2 by lia. unfold u32. rewrite !wrap_small by (unfold in_range; rewrite ?wrap_small by (unfold in_range; lia); lia).
    unfold id. rewrite Z.shiftr_div_pow2, Z.div_mul by lia. rewrite (land_mask 4) by (done || lia). apply wrap_small. unfold in_range. lia. }
  rewrite Ev. set (m := Z.land (Z.shiftr (reg d VER) 16) 0xFF) in *.
  rewrite (proj2 (Z.eqb_neq m 0)) by lia. cbn [negb rt_assert mbind outcome_bind].
  eexists. split; [done |].
  destruct (init_entries a (Z.to_nat (m + 1)) (mkDevice VER (regs d1))) as (I1 & _ & I3); [lia.. |].
  rewrite Z2Nat.id in I1, I3 by lia. split; [rewrite (I3 ID) by done; exact Ei |].
  intros i Hi. rewrite I1 by lia. unfold wanted.
  destruct (Z.eqb_spec 0 (interrupt_base_ a)) as [Eb | Eb], (Z.eqb_spec 0 i) as [Ez | Ez]; cbn [andb].
  1: { subst i. rewrite <- Eb. done. }
  all: set (w := 32 + i + interrupt_base_ a);
    assert (0 <= w < 256) as Hw by lia; assert (in_range 8 w) as Hw8 by (unfold in_range; lia);
    rewrite (land_mask 8), wrap_small by (done || lia); rewrite (testbit_high 8 w 16) by (done || lia);
    rewrite Z.shiftr_div_pow2, Z.div_small by lia; rewrite bool_decide_false by lia; split_and!; [lia | done | done].
Qed.

(** The I/O APIC after its initialisation: every input [i] it has is sent, unmasked, to
    vector 32 plus its global interrupt number, except the input of the timer
    (interrupt 0), which is masked; its identifier is the one of the ACPI table. *)
Theorem Init_correct a d
  (Ha : address_ a <> 0) (Hid : 0 <= id_ a < 16) (Hr : in_range 32 (reg d ID))
  (Hm : 0 < Z.land (Z.shiftr (reg d VER) 16) 0xFF < 120) (Hb : 0 <= interrupt_base_ a)
  (Hv : 32 + Z.land (Z.shiftr (reg d VER) 16) 0xFF + interrupt_base_ a < 256) :
  exists d', Init a d = Ret d' /\
    Z.land (Z.shiftr (reg d' ID) 24) 0xF = id_ a /\
    forall i, 0 <= i <= Z.land (Z.shiftr (reg d VER) 16) 0xFF ->
      Z.land (entry d' i) 0xff = 32 + (interrupt_base_ a + i) /\
      Z.testbit (entry d' i) 16 = bool_decide (interrupt_base_ a + i = 0) /\
      Z.land (Z.shiftr (entry d' i) 8) 7 = 0.
Proof. by apply Init_spec. Qed.

Lemma Init_correct_witness :
  exists d', Init (mk 2 0xfec00000 0) (mkDevice 0 {[ 1 := 0x170020 ]}) = Ret d' /\
    Z.land (entry d' 4) 0xff = 36.
Proof.
  destruct (Init_correct (mk 2 0xfec00000 0) (mkDevice 0 {[ 1 := 0x170020 ]})) as (d' & E & _ & K); try done.
  exists d'. split; [exact E |]. exact (proj1 (K 4 ltac:(done))).
Defined.

End IoApic.

(** ** The clock *)
Module Hpet.

(** kernel/x64/hpet-x64.h:21-28, HPETRegisters, and the main counter: what the code
    uses of the device. *)
Record device : Type := mkDevice {
  generalCapabilities : Z; counterPeriod : Z; generalConfiguration : Z; counter : Z }.

(** The counter has 64 bits if bit 13 of the capabilities says so, and 32 bits otherwise; while
    it is enabled it counts the ticks and starts again from zero after its last value. *)
Definition counter_bits (d : device) : Z := if Z.testbit (generalCapabilities d) 13 then 64 else 32.
Definition tick (d : device) (n : Z) : device :=
  if Z.testbit (generalConfiguration d) 0
  then mkDevice (generalCapabilities d) (counterPeriod d) (generalConfiguration d) (wrap (counter_bits d) (counter d + n))
  else d.

(** kernel/x64/hpet-x64.cc:36-38, the test for a 32-bit counter, whose warning goes to the
    screen: [!] binds before [&]. *)
Definition warns (d : device) : bool := negb (Z.land (if generalCapabilities d =? 0 then 1 else 0) (Z.shiftl 1 13) =? 0).

(** kernel/x64/hpet-x64.h:74-78, HpetX64 members. *)
Record t : Type := mk { address_ : Z; frequency_ : Z; us_div_ : Z }.

(** kernel/x64/hpet-x64.cc:21-66, HpetX64::HpetX64. *)
Definition new (address : Z) (d : device) : outcome (t * device) :=
  _ ← rt_assert (negb (address =? 0)) "registers_";
  let period := counterPeriod d in
  _ ← rt_assert (negb (0 =? period)) "0 != period";
  _ ← rt_assert (period <=? 0x05F5E100) "period <= 0x05F5E100";
  let frequency := 1000000000000000 / period in
  _ ← rt_assert (frequency >=? 1000000) "frequency_ >= 1000000";
  let us_div := frequency / 1000000 in
  _ ← rt_assert (us_div >? 0) "us_div_ > 0";
  Ret (mk address frequency us_div,
       mkDevice (generalCapabilities d) (counterPeriod d) (Z.lor (generalConfiguration d) 1) 0).

(** kernel/x64/hpet-x64.h:54-56, HpetX64::ReadCounter. *)
Definition ReadCounter (d : device) : Z := counter d.

(** kernel/x64/hpet-x64.h:47-49, HpetX64::ReadMicroseconds. *)
Definition ReadMicroseconds (h : t) (d : device) : Z := ReadCounter d / us_div_ h.

(** The whole microseconds that [n] ticks of [period] femtoseconds take. *)
Definition true_microseconds (period n : Z) : Z := n * period / 10 ^ 9.

Lemma us_div_value period : 0 < period -> 1000000000000000 / period / 1000000 = 10 ^ 9 / period.
Proof. intros Hp. rewrite Z.div_div, (Z.mul_comm period), <- Z.div_div by lia. done. Qed.

Lemma hpet_new_spec address d : address <> 0 -> 0 < counterPeriod d <= 100000000 ->
  exists h d0, new address d = Ret (h, d0) /\ us_div_ h = 10 ^ 9 / counterPeriod d /\ 10 <= us_div_ h /\ counter d0 = 0 /\
    generalCapabilities d0 = generalCapabilities d /\ Z.testbit (generalConfiguration d0) 0 = true.
Proof.
  intros Ha Hp. set (p := counterPeriod d) in *. unfold new. rewrite (proj2 (Z.eqb_neq address 0)) by done. fold p.
  rewrite (proj2 (Z.eqb_neq 0 p)) by lia. rewrite (proj2 (Z.leb_le p _)) by lia. cbn [negb rt_assert mbind outcome_bind].
  assert (10000000 <= 1000000000000000 / p) as Hf by (apply Z.div_le_lower_bound; lia).
  rewrite (proj2 (Z.geb_le _ _)) by lia. cbn [rt_assert mbind outcome_bind]. rewrite us_div_value by lia.
  set (q := 10 ^ 9 / p). assert (10 <= q) as Hq by (apply Z.div_le_lower_bound; lia).
  rewrite (proj2 (Z.gtb_lt q 0)) by lia. cbn [rt_assert mbind outcome_bind].
  eexists _, _. split; [done |]. split_and!; try done. cbn [generalConfiguration]. rewrite Z.lor_spec. apply orb_true_r.
Qed.

(** Dividing by the rounded number of ticks. *)
Lemma rounded_time p n : 0 < p -> 10 <= 10 ^ 9 / p -> 0 <= n ->
  let q := 10 ^ 9 / p in let t0 := true_microseconds p n in t0 <= n / q <= t0 + t0 / q + 2.
Proof.
  intros Hp Hq Hn. cbn zeta. unfold true_microseconds. set (q := 10 ^ 9 / p) in *.
  assert (q * p <= 10 ^ 9 < (q + 1) * p) as [Q1 Q2].
  { pose proof (Z.div_mod (10 ^ 9) p ltac:(lia)). pose proof (Z.mod_pos_bound (10 ^ 9) p ltac:(lia)). fold q in H. lia. }
  set (r := n / q). set (t0 := n * p / 10 ^ 9).
  assert (q * r <= n < q * r + q) as [R1 R2].
  { pose proof (Z.div_mod n q ltac:(lia)). pose proof (Z.mod_pos_bound n q ltac:(lia)). fold r in H. lia. }
  assert (10 ^ 9 * t0 <= n * p < 10 ^ 9 * t0 + 10 ^ 9) as [T1 T2].
  { pose proof (Z.div_mod (n * p) (10 ^ 9) ltac:(lia)). pose proof (Z.mod_pos_bound (n * p) (10 ^ 9) ltac:(lia)). fold t0 in H. lia. }
  set (e := t0 / q). assert (q * e <= t0 < q * e + q) as [E1 E2].
  { pose proof (Z.div_mod t0 q ltac:(lia)). pose proof (Z.mod_pos_bound t0 q ltac:(lia)). fold e in H. lia. }
  assert (0 <= r) by (apply Z.div_pos; lia). split.
  - assert (n * p < (r + 1) * 10 ^ 9) by nia. nia.
  - assert (n < (q + 1) * (t0 + 1)) as B1 by nia. assert (q * r < (q + 1) * (t0 + 1)) as B2 by lia. nia.
Qed.


Definition qemu : device := mkDevice 0x8086a201 10000000 0 77.


End Hpet.

(** ** The local APIC *)
Module LocalApic.

(** kernel/x64/local-apic-x64.h:31-57, LocalApicRegister, the ones that are used. *)
Definition ID : Z := 0x20.
Definition TASK_PRIORITY : Z := 0x80.
Definition EOI_ : Z := 0xb0.
Definition LOGICAL_DESTINATION : Z := 0xd0.
Definition DESTINATION_FORMAT : Z := 0xe0.
Definition SPURIOUS_INTERRUPT_VECTOR : Z := 0xf0.
Definition INTERRUPT_COMMAND_LO : Z := 0x300.
Definition INTERRUPT_COMMAND_HI : Z := 0x310.
Definition TIMER : Z := 0x320.
Definition PERF : Z := 0x340.
Definition LINT0 : Z := 0x350.
Definition LINT1 : Z := 0x360.
Definition TIMER_INITIAL_COUNT : Z := 0x380.
Definition TIMER_DIVIDE_CONFIG : Z := 0x3e0.

(** The writes to the registers, the last one first. *)
#[local] Notation trace := (list (Z * Z)).

(** kernel/x64/local-apic-x64.h:124-126, LocalApicRegisterAccessor::Write. *)
Definition Write (r value : Z) (d : trace) : trace := (r, u32 value) :: d.

(** What a register was set to last. *)
Fixpoint last_write (d : trace) (r : Z) : option Z :=
  match d with
  | [] => None
  | (r', v) :: d' => if r' =? r then Some v else last_write d' r
  end.

(** kernel/x64/local-apic-x64.h:65-72, DeliveryMode, the ones that are used. *)
Definition INIT : Z := 5.
Definition STARTUP : Z := 6.

(** kernel/x64/local-apic-x64.h:91-107, LocalApicInterruptCommand: the high and the low
    word. *)
Definition LocalApicInterruptCommand (vector_num dmode destmode : Z) (is_no_deassert trigger_mode : bool)
  (dshort dest : Z) : Z * Z :=
  (u32 (Z.shiftl dest 24),
   u32 (Z.lor (Z.lor (Z.lor (Z.lor (Z.lor vector_num (Z.shiftl dmode 8)) (Z.shiftl destmode 11))
     (Z.shiftl (Z.b2z is_no_deassert) 14)) (Z.shiftl (Z.b2z trigger_mode) 15)) (Z.shiftl dshort 18))).

(** kernel/x64/local-apic-x64.h:128-131, LocalApicRegisterAccessor::InterruptCommand. *)
Definition InterruptCommand (command : Z * Z) (d : trace) : trace :=
  Write INTERRUPT_COMMAND_LO command.2 (Write INTERRUPT_COMMAND_HI command.1 d).

(** kernel/x64/local-apic-x64.h:144-154, LocalApicX64::SendApicInit. *)
Definition SendApicInit (apicid : Z) (d : trace) : trace :=
  InterruptCommand (LocalApicInterruptCommand 0 INIT 0 true false 0 (u8 apicid)) d.

(** kernel/x64/local-apic-x64.h:159-169, LocalApicX64::SendApicStartup. *)
Definition SendApicStartup (apicid vector_num : Z) (d : trace) : trace :=
  InterruptCommand (LocalApicInterruptCommand vector_num STARTUP 0 true false 0 (u8 apicid)) d.

(** kernel/x64/local-apic-x64.h:175-177, LocalApicX64::EOI. *)
Definition EOI (d : trace) : trace := Write EOI_ 0 d.

(** kernel/x64/local-apic-x64.cc:32-38, LocalApicX64::CpuSetAPICBase: the words written
    to the base register. *)
Definition CpuSetAPICBase (apic : Z) : Z * Z :=
  (Z.lor (Z.land apic 0xfffff100) 0x800, Z.land (Z.shiftr apic 32) 0x0f).

(** kernel/x64/local-apic-x64.cc:40-43, LocalApicX64::CpuGetAPICBase. *)
Definition CpuGetAPICBase (lo hi : Z) : Z :=
  Z.lor (Z.land lo 0xfffff100) (Z.shiftl (Z.land hi 0x0f) 32).

(** kernel/x64/local-apic-x64.h:198-200, LocalApicX64 members, with the address space
    that the kernel uses, the base register (low and high word) and the writes. *)
Record t : Type := mk {
  local_apic_address_ : Z; bus_freq_ : Z; addr_space : AddressSpaceX64.t; base_msr : Z * Z; writes : trace }.

(** kernel/x64/local-apic-x64.cc:90-92, the loop that waits for a hundredth of a second;
    [clock] is what it reads. *)
Fixpoint wait_10ms (clock : list Z) (start : Z) : outcome unit :=
  match clock with
  | [] => OutOfFuel
  | now :: clock' => if u64 (now - start) <? 10000 then wait_10ms clock' start else Ret tt
  end.

(** kernel/x64/local-apic-x64.cc:98-100, the frequency from the counter. *)
Definition bus_frequency (curr_count : Z) : Z := u32 (u32 (0xFFFFFFFF - curr_count + 1) * 16 * 100).

(** kernel/x64/local-apic-x64.cc:104-114, the initial count of the timer. *)
Definition initial_count (bus_freq : Z) : Z :=
  let init_count := bus_freq / 32 / 16 in
  if init_count <? 0x1000 then 0x1000 else init_count.

(** kernel/x64/local-apic-x64.cc:54-72, the writes of InitCpu before the timer. *)
Definition init_writes (d : trace) : trace :=
  Write SPURIOUS_INTERRUPT_VECTOR (Z.lor 0x100 0xff)
  (Write LOGICAL_DESTINATION 1
  (Write DESTINATION_FORMAT 0xffffffff
  (Write PERF (Z.shiftl 4 8)
  (Write TIMER (Z.shiftl 1 16)
  (Write LINT1 (Z.shiftl 1 16)
  (Write LINT0 (Z.shiftl 1 16)
  (Write TASK_PRIORITY 0 d))))))).

(** kernel/x64/local-apic-x64.cc:76-101, the calibration of InitCpu, on the boot processor:
    the frequency and the writes. *)
Definition calibrate (cpuid start : Z) (clock : list Z) (curr_count bus_freq : Z) (d : trace) : outcome (Z * trace) :=
  if negb (0 =? bus_freq) then Ret (bus_freq, d)
  else
    _ ← rt_assert (0 =? cpuid) "0 == Cpu::id()";
    let d := Write TIMER_INITIAL_COUNT 0xffffffff (Write TIMER_DIVIDE_CONFIG 0x03 (Write TIMER 32 d)) in
    _ ← wait_10ms clock start;
    Ret (bus_frequency curr_count, Write TIMER (Z.shiftl 1 16) d).

(** kernel/x64/local-apic-x64.cc:45-124, LocalApicX64::InitCpu; [curr_count] is what the
    counter of the timer shows after the wait. *)
Definition InitCpu (a : t) (cpuid start : Z) (clock : list Z) (curr_count : Z) : outcome t :=
  as_ ← AddressSpaceX64.MapPage (addr_space a) (local_apic_address_ a) (local_apic_address_ a) true true;
  let '(lo, hi) := base_msr a in
  let msr := CpuSetAPICBase (CpuGetAPICBase lo hi) in
  '(bus_freq, d) ← calibrate cpuid start clock curr_count (bus_freq_ a) (init_writes (writes a));
  _ ← rt_assert (negb (bus_freq =? 0)) "bus_freq_";
  let d := Write TIMER_DIVIDE_CONFIG 0x03 (Write TIMER (Z.lor 32 0x20000)
             (Write TIMER_INITIAL_COUNT (initial_count bus_freq) d)) in
  Ret (mk (local_apic_address_ a) bus_freq as_ msr (EOI d)).

(** A wait ends at the first read of the clock that is late enough. *)
Lemma wait_10ms_spec clock start :
  (exists now, now ∈ clock /\ 10000 <= u64 (now - start)) -> wait_10ms clock start = Ret tt.
Proof.
  induction clock as [| c clock IH]; intros (now & Hn & L); [by apply elem_of_nil in Hn |]. cbn.
  destruct (Z.ltb_spec (u64 (c - start)) 10000) as [Lt | Ge]; [| done]. apply IH. exists now.
  apply elem_of_cons in Hn as [-> | Hn]; [lia | done].
Qed.

(** The base register: the address and the flag of the boot processor are kept, and the
    controller is enabled. *)
Lemma base_kept lo hi :
  let '(lo', hi') := CpuSetAPICBase (CpuGetAPICBase lo hi) in
  CpuGetAPICBase lo' hi' = CpuGetAPICBase lo hi /\ Z.testbit lo' 11 = true.
Proof.
  unfold CpuSetAPICBase. split; [| by rewrite Z.lor_spec, orb_true_r].
  set (M := 0xfffff100). set (h := Z.land hi 0x0f). fold M.
  assert (Z.land (Z.shiftl h 32) M = 0) as Z1.
  { apply Z.bits_inj'. intros i Hi. rewrite Z.land_spec, Z.testbit_0_l. destruct (decide (i < 32)).
    - rewrite Z.shiftl_spec, Z.testbit_neg_r by lia. done.
    - rewrite (testbit_high 32 M) by (done || lia). apply andb_false_r. }
  assert (Z.land (CpuGetAPICBase lo hi) M = Z.land lo M) as E1.
  { unfold CpuGetAPICBase. fold M h. rewrite Z.land_lor_distr_l, Z1, Z.lor_0_r.
    rewrite <- Z.land_assoc. by rewrite Z.land_diag. }
  assert (Z.land (Z.shiftr (CpuGetAPICBase lo hi) 32) 0x0f = h) as E2.
  { unfold CpuGetAPICBase. fold M h. rewrite Z.shiftr_lor, Z.shiftr_shiftl_l, Z.sub_diag, Z.shiftl_0_r by lia.
    rewrite Z.shiftr_land. change (Z.shiftr M 32) with 0. rewrite Z.land_0_r, Z.lor_0_l. subst h.
    rewrite <- Z.land_assoc. done. }
  rewrite E1, E2. unfold CpuGetAPICBase. fold M. rewrite Z.land_lor_distr_l. change (Z.land 0x800 M) with 0.
  rewrite Z.lor_0_r, <- Z.land_assoc, Z.land_diag. subst h. by rewrite <- Z.land_assoc.
Qed.

(** The local APIC of the boot processor after its initialisation: the page of the
    registers is mapped, the base address is kept and the controller enabled; the
    spurious vector is 255, the timer is periodic on vector 32 and counts down from the
    calibrated count, at least 0x1000; the inputs LINT0 and LINT1 are masked. *)
Theorem InitCpu_correct a start clock curr_count as_
  (Em : AddressSpaceX64.MapPage (addr_space a) (local_apic_address_ a) (local_apic_address_ a) true true = Ret as_)
  (Hb : bus_freq_ a = 0) (Hc : exists now, now ∈ clock /\ 10000 <= u64 (now - start))
  (Ht : 2 ^ 32 - 2 ^ 32 / 1600 <= curr_count < 2 ^ 32) :
  exists a', InitCpu a 0 start clock curr_count = Ret a' /\ addr_space a' = as_ /\
    bus_freq_ a' = (2 ^ 32 - curr_count) * 1600 /\
    CpuGetAPICBase (base_msr a').1 (base_msr a').2 = CpuGetAPICBase (base_msr a).1 (base_msr a).2 /\
    Z.testbit (base_msr a').1 11 = true /\
    last_write (writes a') SPURIOUS_INTERRUPT_VECTOR = Some 0x1ff /\
    last_write (writes a') TIMER = Some (2 ^ 17 + 32) /\
    last_write (writes a') TIMER_INITIAL_COUNT = Some (Z.max 0x1000 (bus_freq_ a' / 512)) /\
    last_write (writes a') LINT0 = Some (2 ^ 16) /\ last_write (writes a') LINT1 = Some (2 ^ 16) /\
    (exists d, writes a' = (EOI_, 0) :: d).
Proof.
  set (ticks := 2 ^ 32 - curr_count). assert (0 < ticks <= 2684354) as Hk by (change (2 ^ 32 / 1600) with 2684354 in Ht; lia).
  assert (bus_frequency curr_count = ticks * 1600) as Ef.
  { unfold bus_frequency. replace (0xFFFFFFFF - curr_count + 1) with ticks by lia. unfold u32.
    rewrite (wrap_small 32 ticks) by (unfold in_range; lia). rewrite wrap_small by (unfold in_range; lia). lia. }
  pose proof (base_kept (base_msr a).1 (base_msr a).2) as K. unfold InitCpu. rewrite Em. cbn [mbind outcome_bind].
  destruct (base_msr a) as [lo hi]. cbn [fst snd] in *.
  destruct (CpuSetAPICBase (CpuGetAPICBase lo hi)) as [lo' hi']. destruct K as [K1 K2].
  unfold calibrate. rewrite Hb. cbn [Z.eqb negb rt_assert mbind outcome_bind].
  rewrite wait_10ms_spec by done. cbn [mbind outcome_bind]. rewrite Ef.
  rewrite (proj2 (Z.eqb_neq (ticks * 1600) 0)) by lia. cbn [negb rt_assert mbind outcome_bind].
  assert (u32 (initial_count (ticks * 1600)) = Z.max 0x1000 (ticks * 1600 / 512)) as Ei.
  { unfold initial_count. rewrite Z.div_div by lia. change (32 * 16) with 512.
    assert (0 <= ticks * 1600 / 512 < 2 ^ 32) by (split; [apply Z.div_pos; lia | apply Z.div_lt_upper_bound; lia]).
    destruct (Z.ltb_spec (ticks * 1600 / 512) 0x1000); unfold u32; rewrite wrap_small by (unfold in_range; lia); lia. }
  eexists. split; [reflexivity |]. cbn [addr_space bus_freq_ base_msr writes fst snd].
  split_and!; try done; [| by eexists].
  change (last_write _ TIMER_INITIAL_COUNT) with (Some (u32 (initial_count (ticks * 1600)))). by rewrite Ei.
Qed.

Definition apic0 : t := mk 0xfee00000 0 AddressSpaceX64.fresh (0xfee00900, 0) [].

Lemma InitCpu_correct_witness :
  exists a', InitCpu apic0 0 100 [200; 10101] (2 ^ 32 - 62500) = Ret a' /\ bus_freq_ a' = 100000000.
Proof.
  destruct (AddressSpaceX64.MapPage (addr_space apic0) 0xfee00000 0xfee00000 true true) as [as_ | w |] eqn:Em.
  - destruct (InitCpu_correct apic0 100 [200; 10101] (2 ^ 32 - 62500) as_ Em eq_refl) as (a' & E & _ & F & _).
    + exists 10101. split; [right; left | by vm_compute].
    + split; by vm_compute.
    + exists a'. exact (conj E F).
  - vm_compute in Em. discriminate Em.
  - vm_compute in Em. discriminate Em.
Defined.

End LocalApic.
