(* ===== verification/Acpi.v ===== *)
(** * kernel/x64/acpi-x64.h, .cc: the ACPI tables and the start of the processors

    The search for the root pointer, the walk over the tables and the entries of the
    interrupt controller table, over the memory the firmware leaves, and the start of
    the other processors.  The theorems: the processors and I/O APICs found are those
    the table lists; when the walk does not end; which processors are started. *)

From S2P Require Import Prelude Utils Apic.

Module AcpiX64.

(** kernel/x64/acpi-x64.h:32-36, AcpiCPU. *)
Record AcpiCPU : Type := mkCPU { cpu_id : Z; local_apic_id : Z; enabled : bool }.

(** kernel/x64/acpi-x64.h:74-79, AcpiX64 members; the local APIC is its address. *)
Record t : Type := mk {
  local_apic_ : option Z; hpet_ : option Hpet.t; cpus_ : list AcpiCPU;
  io_apics_ : list IoApic.t; cpu_count_ : Z }.

(** kernel/x64/acpi-x64.h:40-45, the state the constructor starts from. *)
Definition empty : t := mk None None [] [] 0.

(** kernel/x64/acpi-x64.cc:33-38, TableUint32. *)
Definition TableUint32 (c0 c1 c2 c3 : Z) : Z :=
  Z.lor (Z.lor (Z.lor (Z.shiftl c0 0) (Z.shiftl c1 8)) (Z.shiftl c2 16)) (Z.shiftl c3 24).

(** kernel/x64/acpi-x64.cc:21-31, sizeof(AcpiHeader); 43-47, sizeof(AcpiHeaderMADT). *)
Definition kHeaderSize : Z := 36.
Definition kHeaderMADTSize : Z := 44.

Section Acpi.
(** The memory, and the registers of the HPET at an address. *)
Variable m : ram.
Variable hpet_at : Z -> Hpet.device.

(** kernel/x64/acpi-x64.cc:207-229, the switch of ParseTableAPIC for the entry at [p]. *)
Definition madt_entry (p : Z) (s : t) : outcome t :=
  let type := m p in
  if type =? 0 then
    let cpu := mkCPU (m (p + 2)) (m (p + 3)) (1 =? Z.land (load32 m (p + 4)) 1) in
    Ret (mk (local_apic_ s) (hpet_ s) (cpus_ s ++ [cpu]) (io_apics_ s) (u32 (cpu_count_ s + 1)))
  else if type =? 1 then
    a ← IoApic.new (m (p + 2)) (load32 m (p + 4)) (load32 m (p + 8));
    Ret (mk (local_apic_ s) (hpet_ s) (cpus_ s) (io_apics_ s ++ [a]) (cpu_count_ s))
  else Ret s.

(** kernel/x64/acpi-x64.cc:202-232, the loop of ParseTableAPIC. *)
Fixpoint madt_loop (fuel : nat) (p end_ : Z) (s : t) : outcome t :=
  if p <? end_ then
    match fuel with
    | O => OutOfFuel
    | S n => s ← madt_entry p s; madt_loop n (p + m (p + 1)) end_ s
    end
  else Ret s.

(** kernel/x64/acpi-x64.cc:189-233, AcpiX64::ParseTableAPIC.  Entries are not empty, so
    the length of the table is enough fuel. *)
Definition ParseTableAPIC (header : Z) (s : t) : outcome t :=
  _ ← rt_assert (negb (header =? 0)) "header";
  let local_apic_address := load32 m (header + 36) in
  _ ← rt_assert (negb (local_apic_address =? 0)) "header->localApicAddr";
  let length := load32 m (header + 4) in
  madt_loop (Z.to_nat length) (header + kHeaderMADTSize) (header + length)
    (mk (Some local_apic_address) (hpet_ s) (cpus_ s) (io_apics_ s) (cpu_count_ s)).

(** kernel/x64/acpi-x64.cc:175-187, AcpiX64::ParseTableHPET; the address is behind the
    header and the four bytes of the identification and of the address format each. *)
Definition ParseTableHPET (header : Z) (s : t) : outcome t :=
  _ ← rt_assert (negb (header =? 0)) "header";
  match hpet_ s with
  | Some _ => Ret s
  | None =>
      let address := load64 m (header + 44) in
      _ ← rt_assert (negb (address =? 0)) "address";
      '(h, _) ← Hpet.new address (hpet_at address);
      Ret (mk (local_apic_ s) (Some h) (cpus_ s) (io_apics_ s) (cpu_count_ s))
  end.

(** kernel/x64/acpi-x64.cc:159-173, AcpiX64::ParseDT. *)
Definition ParseDT (ptr : Z) (s : t) : outcome t :=
  _ ← rt_assert (negb (ptr =? 0)) "ptr";
  let signature := load32 m ptr in
  if signature =? TableUint32 65 80 73 67 (* APIC *) then ParseTableAPIC ptr s
  else if signature =? TableUint32 72 80 69 84 (* HPET *) then ParseTableHPET ptr s
  else Ret s.

(** kernel/x64/acpi-x64.cc:153-156, the loop of ParseRSDT. *)
Fixpoint rsdt_loop (fuel : nat) (p end_ : Z) (s : t) : outcome t :=
  if p <? end_ then
    match fuel with
    | O => OutOfFuel
    | S n => s ← ParseDT (load32 m p) s; rsdt_loop n (p + 4) end_ s
    end
  else Ret s.

(** kernel/x64/acpi-x64.cc:147-157, AcpiX64::ParseRSDT. *)
Definition ParseRSDT (ptr : Z) (s : t) : outcome t :=
  _ ← rt_assert (negb (ptr =? 0)) "ptr";
  let length := load32 m (ptr + 4) in
  rsdt_loop (Z.to_nat length) (ptr + kHeaderSize) (ptr + length) s.

(** kernel/x64/acpi-x64.cc:116-125, the checksum of ParseRSDP. *)
Definition rsdp_sum (p : Z) : Z :=
  fold_left (fun sum i => u8 (sum + m (p + i))) (seqZ 0 20) 0.

(** kernel/x64/acpi-x64.cc:113-145, AcpiX64::ParseRSDP. *)
Definition ParseRSDP (p : Z) (s : t) : outcome (bool * t) :=
  if negb (rsdp_sum p =? 0) then Ret (false, s)
  else
    let rev := m (p + 15) in
    if (rev =? 0) || (rev =? 2) then
      let rsdt_addr := load32 m (p + 16) in
      _ ← rt_assert (negb (rsdt_addr =? 0)) "rsdt_addr";
      s ← ParseRSDT rsdt_addr s; Ret (true, s)
    else Ret (false, s).

(** kernel/x64/acpi-x64.cc:98-105, the search of Init, [n] places from [p] on. *)
Fixpoint rsdp_search (n : nat) (p : Z) (s : t) : outcome t :=
  match n with
  | O => Ret s
  | S k =>
      if 0x2052545020445352 =? load64 m p then
        '(ok, s) ← ParseRSDP p s;
        if (ok : bool) then Ret s else rsdp_search k (p + 16) s
      else rsdp_search k (p + 16) s
  end.

(** kernel/x64/acpi-x64.cc:97-111, AcpiX64::Init: the places from 0xe0000 to 0x1000000. *)
Definition Init (s : t) : outcome t :=
  s ← rsdp_search (Z.to_nat ((0x1000000 - 0xe0000) / 16)) 0xe0000 s;
  match io_apics_ s with
  | [] => Fatal "Unable to find IO APIC to setup interrupts."
  | _ => Ret s
  end.

(** kernel/x64/acpi-x64.h:40-55, AcpiX64::AcpiX64. *)
Definition new : outcome t :=
  s ← Init empty;
  _ ← rt_assert (match local_apic_ s with Some _ => true | None => false end) "local_apic_";
  match hpet_ s with
  | None => Fatal "Unable to find HPET device."
  | Some _ => Ret s
  end.

(** ** The interrupt controller table *)

(** The entries of the table and their bytes. *)
Inductive entry : Type :=
  | ECpu (processor apic flags : Z)
  | EIoApic (id address base : Z)
  | EOther (type : Z) (data : list Z).

Definition encode (e : entry) : list Z :=
  match e with
  | ECpu processor apic flags => [0; 8; processor; apic] ++ le_bytes 4 flags
  | EIoApic id address base => [1; 12; id; 0] ++ le_bytes 4 address ++ le_bytes 4 base
  | EOther type data => type :: Z.of_nat (length data + 2) :: data
  end.

Definition entry_ok (e : entry) : Prop :=
  match e with
  | ECpu processor apic flags => in_range 8 processor /\ in_range 8 apic /\ in_range 32 flags
  | EIoApic id address base => in_range 8 id /\ in_range 32 address /\ address <> 0 /\ in_range 32 base
  | EOther type data => 2 <= type < 256 /\ (length data < 254)%nat
  end.

(** What the entries stand for. *)
Definition cpus_of (es : list entry) : list AcpiCPU :=
  omap (fun e => match e with ECpu p a f => Some (mkCPU p a (Z.odd f)) | _ => None end) es.
Definition io_apics_of (es : list entry) : list IoApic.t :=
  omap (fun e => match e with EIoApic i a b => Some (IoApic.mk i a b) | _ => None end) es.

Lemma entry_spec p e s :
  holds m p (encode e) -> entry_ok e ->
  madt_entry p s = Ret (mk (local_apic_ s) (hpet_ s) (cpus_ s ++ cpus_of [e]) (io_apics_ s ++ io_apics_of [e])
    (u32 (cpu_count_ s + Z.of_nat (length (cpus_of [e]))))) \/
  cpus_of [e] = [] /\ madt_entry p s =
    Ret (mk (local_apic_ s) (hpet_ s) (cpus_ s) (io_apics_ s ++ io_apics_of [e]) (cpu_count_ s)).
Proof.
  intros H O. destruct e as [processor apic flags | id address base | type data]; cbn [encode] in H.
  - left. cbn [app] in H. rewrite !holds_cons in H. destruct H as (H0 & H1 & H2 & H3 & H4).
    destruct O as (_ & _ & Of). unfold madt_entry. rewrite H0. cbn [Z.eqb]. unfold load32.
    replace (p + 1 + 1) with (p + 2) in * by lia. replace (p + 2 + 1) with (p + 3) in * by lia.
    replace (p + 3 + 1) with (p + 4) in * by lia. rewrite H2, H3, (holds_load _ _ 4 flags H4 Of).
    cbn [cpus_of io_apics_of omap list_omap]. rewrite app_nil_r. do 3 f_equal.
    rewrite (land_mask 1) by (done || lia). unfold wrap. change (2 ^ 1) with 2. rewrite Zmod_odd. by destruct (Z.odd flags).
  - right. split; [done |]. cbn [app] in H. rewrite !holds_cons, holds_app in H. destruct H as (H0 & H1 & H2 & H3 & H4 & H5).
    destruct O as (_ & Oa & Oz & Ob). unfold madt_entry. rewrite H0. cbn [Z.eqb Pos.eqb]. unfold load32.
    unfold zlen in H5; rewrite length_le_bytes in H5 by lia. change (Z.of_nat (Z.to_nat 4)) with 4 in H5.
    replace (p + 1 + 1) with (p + 2) in * by lia. replace (p + 2 + 1 + 1) with (p + 4) in * by lia.
    replace (p + 4 + 4) with (p + 8) in * by lia.
    rewrite H2, (holds_load _ _ 4 address H4 Oa), (holds_load _ _ 4 base H5 Ob). unfold IoApic.new.
    rewrite (proj2 (Z.eqb_neq address 0)) by done. done.
  - right. split; [done |]. rewrite holds_cons in H. destruct H as [H0 _]. destruct O as [O _]. unfold madt_entry. rewrite H0.
    rewrite (proj2 (Z.eqb_neq type 0)), (proj2 (Z.eqb_neq type 1)) by lia. cbn. rewrite app_nil_r. by destruct s.
Qed.

Lemma encode_length p e :
  holds m p (encode e) -> entry_ok e -> m (p + 1) = Z.of_nat (length (encode e)) /\ (0 < length (encode e))%nat.
Proof.
  intros H O. destruct e as [processor apic flags | id address base | type data]; cbn [encode app] in *;
    rewrite !holds_cons in H; destruct H as (_ & H1 & _); rewrite H1; cbn [length];
    rewrite ?length_app, ?length_le_bytes by lia; split; lia.
Qed.

Definition found (s : t) (es : list entry) : t :=
  mk (local_apic_ s) (hpet_ s) (cpus_ s ++ cpus_of es) (io_apics_ s ++ io_apics_of es)
     (cpu_count_ s + Z.of_nat (length (cpus_of es))).

Lemma madt_loop_spec es : forall fuel p s,
  holds m p (concat (map encode es)) -> Forall entry_ok es -> (length (concat (map encode es)) <= fuel)%nat ->
  0 <= cpu_count_ s -> cpu_count_ s + Z.of_nat (length es) < 2 ^ 32 ->
  madt_loop fuel p (p + Z.of_nat (length (concat (map encode es)))) s = Ret (found s es).
Proof.
  induction es as [| e es IH]; intros fuel p s H F L C0 C; cbn [map concat length] in *.
  - rewrite Z.add_0_r. unfold found. cbn. rewrite !app_nil_r, Z.add_0_r.
    destruct fuel; cbn; rewrite Z.ltb_irrefl; by destruct s.
  - rewrite length_app in *. rewrite holds_app in H. destruct H as [He H]. apply Forall_cons in F as [Oe F].
    destruct (encode_length p e He Oe) as [El Ep]. destruct fuel as [| fuel]; [lia |]. cbn [madt_loop].
    rewrite (proj2 (Z.ltb_lt _ _)) by lia.
    assert (exists s', madt_entry p s = Ret s' /\ s' = found s [e]) as (s' & -> & ->).
    { destruct (entry_spec p e s He Oe) as [E | [E0 E]]; eexists; (split; [exact E |]); unfold found.
      - f_equal. apply wrap_small. unfold in_range. destruct e; cbn in *; lia.
      - rewrite E0. cbn. by rewrite app_nil_r, Z.add_0_r. }
    cbn [mbind outcome_bind]. rewrite El.
    replace (p + Z.of_nat (length (encode e) + length (concat (map encode es)))) with
      (p + Z.of_nat (length (encode e)) + Z.of_nat (length (concat (map encode es)))) by lia.
    assert (length (cpus_of [e]) <= 1)%nat by (destruct e; cbn; lia).
    rewrite IH; [| done | done | lia | cbn; lia | cbn [found cpu_count_]; lia]. unfold found. cbn [local_apic_ hpet_ cpus_ io_apics_ cpu_count_].
    change (e :: es) with ([e] ++ es). unfold cpus_of, io_apics_of. rewrite !omap_app, !length_app, <- !app_assoc. do 2 f_equal. lia.
Qed.

(** C30. The interrupt controller table: for every list of entries, the table that encodes it
    is parsed to exactly its processors and I/O APICs, in order, added to what was
    known, with the address of the local APIC; entries of other kinds are skipped. *)
Theorem ParseTableAPIC_correct header es s
  (Hh : header <> 0) (Ha : load32 m (header + 36) <> 0)
  (Hl : load32 m (header + 4) = kHeaderMADTSize + Z.of_nat (length (concat (map encode es))))
  (Hm : holds m (header + kHeaderMADTSize) (concat (map encode es))) (F : Forall entry_ok es)
  (C0 : 0 <= cpu_count_ s) (C : cpu_count_ s + Z.of_nat (length es) < 2 ^ 32) :
  ParseTableAPIC header s =
  Ret (mk (Some (load32 m (header + 36))) (hpet_ s) (cpus_ s ++ cpus_of es) (io_apics_ s ++ io_apics_of es)
    (cpu_count_ s + Z.of_nat (length (cpus_of es)))).
Proof.
  unfold ParseTableAPIC. rewrite (proj2 (Z.eqb_neq header 0)), (proj2 (Z.eqb_neq (load32 m (header + 36)) 0)) by done.
  cbn [negb rt_assert mbind outcome_bind]. rewrite Hl.
  rewrite Z.add_assoc. rewrite madt_loop_spec; [done | done | done | unfold kHeaderMADTSize; lia | done | done].
Qed.

(** An entry of the interrupt controller table whose length byte is zero (and that is
    no I/O APIC with a null address) is parsed over and over: the loop never ends. *)
Theorem madt_zero_length fuel p end_ s
  (Hp : p < end_) (Hz : m (p + 1) = 0) (Ht : m p <> 1) :
  madt_loop fuel p end_ s = OutOfFuel.
Proof.
  revert s. induction fuel as [| n IH]; intros s; cbn [madt_loop]; rewrite (proj2 (Z.ltb_lt _ _)) by done; [done |].
  unfold madt_entry. rewrite Hz, Z.add_0_r, (proj2 (Z.eqb_neq (m p) 1)) by done.
  destruct (m p =? 0); cbn [mbind outcome_bind]; apply IH.
Qed.

End Acpi.

(** ** Starting the other processors *)

(** kernel/x64/acpi-x64.cc:243-248, the first loop of StartCPUs: the INIT commands. *)
Definition send_inits (cpus : list AcpiCPU) (bsp_apic_id : Z) (d : list (Z * Z)) : list (Z * Z) :=
  fold_left (fun d cpu => if local_apic_id cpu =? bsp_apic_id then d
                          else LocalApic.SendApicInit (local_apic_id cpu) d) cpus d.

(** kernel/x64/acpi-x64.cc:252-263, the second loop of StartCPUs.  [answers] tells whether
    a processor runs the trampoline when it is started; the loop waits until it did. *)
Fixpoint start_cpus (answers : AcpiCPU -> bool) (cpus : list AcpiCPU) (bsp_apic_id startup_vec : Z)
  (cpus_started : Z) (d : list (Z * Z)) : outcome (Z * list (Z * Z)) :=
  match cpus with
  | [] => Ret (cpus_started, d)
  | cpu :: rest =>
      if local_apic_id cpu =? bsp_apic_id then start_cpus answers rest bsp_apic_id startup_vec cpus_started d
      else
        let d := LocalApic.SendApicStartup (local_apic_id cpu) startup_vec d in
        if answers cpu then start_cpus answers rest bsp_apic_id startup_vec (u16 (cpus_started + 1)) d
        else OutOfFuel
  end.

(** kernel/x64/acpi-x64.cc:235-266, AcpiX64::StartCPUs; [id_register] is the identifier
    register of the local APIC, as [LocalApicX64::Id] reads it. *)
Definition StartCPUs (answers : AcpiCPU -> bool) (s : t) (id_register : Z) (d : list (Z * Z))
  : outcome (Z * list (Z * Z)) :=
  start_cpus answers (cpus_ s) id_register 0x08 0 (send_inits (cpus_ s) id_register d).

(** The register holds the identifier in its upper byte. *)
Definition id_register (apic_id : Z) : Z := apic_id * 2 ^ 24.

Lemma send_inits_spec cpus b : forall d,
  exists d', send_inits cpus b d = d' ++ d /\
    forall cpu, cpu ∈ cpus -> local_apic_id cpu <> b ->
      (LocalApic.INTERRUPT_COMMAND_HI, u32 (Z.shiftl (u8 (local_apic_id cpu)) 24)) ∈ d'.
Proof.
  induction cpus as [| c cpus IH]; intros d; cbn [send_inits fold_left].
  { exists []. split; [done |]. intros cpu H. by apply elem_of_nil in H. }
  destruct (Z.eqb_spec (local_apic_id c) b) as [E | E].
  - destruct (IH d) as (d' & Ed & K). exists d'. split; [done |].
    intros cpu [-> | H]%elem_of_cons Hb; [done | by apply K].
  - destruct (IH (LocalApic.SendApicInit (local_apic_id c) d)) as (d' & Ed & K). unfold send_inits in Ed. rewrite Ed.
    unfold LocalApic.SendApicInit, LocalApic.InterruptCommand, LocalApic.Write. cbn [fst snd LocalApic.LocalApicInterruptCommand].
    eexists (d' ++ [_; _]). split; [by rewrite <- app_assoc |].
    intros cpu [-> | H]%elem_of_cons Hb; apply elem_of_app; [right | left; by apply K].
    unfold u32. rewrite !wrap_idemp. right. left.
Qed.

(** Starting the processors: a boot processor whose identifier is not zero does not
    recognise itself in the table (the identifier register holds it in the upper byte)
    and sends the INIT command to itself; and a processor in the table that does not
    run, for instance one marked as disabled, is waited for without end. *)
Theorem StartCPUs_faults answers s cpu d b
  (Hin : cpu ∈ cpus_ s) (Hb : local_apic_id cpu = b) (H0 : 0 < b < 256) :
  (exists d', send_inits (cpus_ s) (id_register b) d = d' ++ d /\
     (LocalApic.INTERRUPT_COMMAND_HI, Z.shiftl b 24) ∈ d') /\
  (answers cpu = false -> StartCPUs answers s (id_register b) d = OutOfFuel).
Proof.
  assert (local_apic_id cpu <> id_register b) as Hne by (unfold id_register; lia). split.
  - destruct (send_inits_spec (cpus_ s) (id_register b) d) as (d' & E & K). exists d'. split; [done |].
    specialize (K cpu Hin Hne). rewrite Hb in K. unfold u8, u32 in K.
    rewrite (wrap_small 8) in K by (unfold in_range; lia). rewrite wrap_small in K; [done |].
    rewrite Z.shiftl_mul_pow2 by lia. unfold in_range. lia.
  - intros Ha. unfold StartCPUs. generalize (send_inits (cpus_ s) (id_register b) d) as e. generalize 0 as n.
    clear d. revert Hin. generalize (cpus_ s) as l. intros l Hin. induction l as [| c l IH]; intros n e; [by apply elem_of_nil in Hin |].
    cbn [start_cpus]. apply elem_of_cons in Hin as [<- | Hin].
    + by rewrite (proj2 (Z.eqb_neq _ _)), Ha.
    + destruct (_ =? _); [by apply IH |]. destruct (answers c); [by apply IH | done].
Qed.

(** A machine with two processors and one I/O APIC. *)
Definition entries0 : list entry := [ECpu 0 0 1; EOther 2 [0; 0; 2; 0; 0; 0; 0; 0]; EIoApic 2 0xfec00000 0; ECpu 1 1 0].
Definition madt0 : list Z :=
  le_bytes 4 (TableUint32 65 80 73 67) ++ le_bytes 4 (44 + 38) ++ replicate 28 0 ++
  le_bytes 4 0xfee00000 ++ le_bytes 4 1 ++ concat (map encode entries0).

Lemma ParseTableAPIC_correct_witness :
  ParseTableAPIC (ram_of 0x1000 madt0) 0x1000 empty =
  Ret (mk (Some 0xfee00000) None [mkCPU 0 0 true; mkCPU 1 1 false] [IoApic.mk 2 0xfec00000 0] 2).
Proof.
  assert (holds (ram_of 0x1000 madt0) (0x1000 + kHeaderMADTSize) (concat (map encode entries0))) as Hm.
  { intros i b Hi. pose proof (lookup_lt_Some _ _ _ Hi) as L. vm_compute in L.
    assert (forallb (fun i => bool_decide (Some (ram_of 0x1000 madt0 (0x1000 + kHeaderMADTSize + Z.of_nat i)) =
      concat (map encode entries0) !! i)) (seq 0 38) = true) as K by (vm_compute; reflexivity).
    rewrite forallb_forall in K. specialize (K i). rewrite in_seq, bool_decide_eq_true in K.
    assert (i < 38)%nat as L' by exact L. specialize (K ltac:(lia)). congruence. }
  assert (Forall entry_ok entries0) as F by (repeat constructor; vm_compute; congruence).
  etransitivity; [| vm_compute; reflexivity].
  apply (ParseTableAPIC_correct (ram_of 0x1000 madt0) 0x1000 entries0 empty);
    [done | vm_compute; congruence | vm_compute; reflexivity | exact Hm | exact F | vm_compute; congruence | vm_compute; reflexivity].
Defined.

Lemma madt_zero_length_witness : madt_loop (fun _ => 0) 1000 0x102c 0x1030 empty = OutOfFuel.
Proof. exact (madt_zero_length (fun _ => 0) 1000 0x102c 0x1030 empty eq_refl eq_refl ltac:(done)). Defined.

Lemma StartCPUs_faults_witness :
  StartCPUs (fun c => enabled c) (mk None None [mkCPU 1 1 false] [] 1) (id_register 1) [] = OutOfFuel.
Proof.
  destruct (StartCPUs_faults (fun c => enabled c) (mk None None [mkCPU 1 1 false] [] 1) (mkCPU 1 1 false) [] 1)
    as [_ K]; [left | done | lia |].
  exact (K eq_refl).
Defined.

End AcpiX64.
