(* ===== verification/Idt.v ===== *)
(** * kernel/x64/irqs-x64.cc, irqs.cc, platform.h, platform-x64.cc: interrupts

    The interrupt descriptor table that the kernel builds at address zero, the
    programming of the legacy interrupt controllers, the gates (irq-vectors-x64.asm)
    and the events they call.  The theorems follow an interrupt from the input of the
    I/O APIC through the vector, the table and the gate to the queues of the threads
    bound to it. *)

From S2P Require Import Prelude Utils AddressSpace MemManager Engine Sched Io Apic.

Module IrqsArch.
Import IoPortsX64.

(** kernel/x64/irqs-x64.cc:22-41, the exceptions that have a gate. *)
Inductive exception : Type :=
  | DE | DB | NMI | BP | OF | BR | UD | NM | DF | TS | NP | SS | GP | PF | MF | AC | MC | XF | SX | other.
#[global] Instance exception_eq_dec : EqDecision exception.
Proof. solve_decision. Defined.

(** kernel/x64/irqs-x64.cc:20-270, the gates; [irq_gate v] is [_irq_gate_v]. *)
Inductive gate : Type :=
  | int_gate_exception (e : exception)
  | int_gate_irq_timer | int_gate_irq_spurious
  | irq_gate (v : Z).
#[global] Instance gate_eq_dec : EqDecision gate.
Proof. solve_decision. Defined.

(** kernel/x64/irqs-x64.h:30-31, kIDTTableBase and kCodeSelector. *)
Definition kIDTTableBase : Z := 0.
Definition kCodeSelector : Z := 0x8.

(** kernel/x64/irqs-x64.cc:285-303, the descriptor that InstallGate makes. *)
Definition gate_bytes (func type : Z) : list Z :=
  let b k := Z.shiftr (Z.land func (Z.shiftl 0xFF (8 * k))) (8 * k) in
  [b 0; b 1; kCodeSelector; 0; 0; type; b 2; b 3; b 4; b 5; b 6; b 7; 0; 0; 0; 0].

(** kernel/x64/irqs-x64.cc:283-308, IrqsArch::InstallGate. *)
Definition InstallGate (m : ram) (vector func type : Z) : ram :=
  store_bytes m (kIDTTableBase + u8 vector * 16) (gate_bytes func type).

(** kernel/x64/irqs-x64.cc:333-365, the gates of the exceptions that SetUp installs. *)
Definition exception_gates : list (Z * gate) :=
  map (fun '(v, e) => (v, int_gate_exception e))
  [(0x00, DE); (0x01, DB); (0x02, NMI); (0x03, BP); (0x04, OF); (0x05, BR); (0x06, UD); (0x07, NM);
   (0x08, DF); (0x09, other); (0x0A, TS); (0x0B, NP); (0x0C, SS); (0x0D, GP); (0x0E, PF); (0x0F, other);
   (0x10, MF); (0x11, AC); (0x12, MC); (0x13, XF); (0x14, other); (0x15, other); (0x16, other); (0x17, other);
   (0x18, other); (0x19, other); (0x1A, other); (0x1B, other); (0x1C, other); (0x1D, other); (0x1E, SX); (0x1F, other)].

(** kernel/x64/irqs-x64.cc:367-595, the other gates that SetUp installs: the timer at
    0x20 and 0x22, [_irq_gate_v] at every other [v] up to 0xfe, the spurious interrupt
    at 0xff. *)
Definition irq_gates : list (Z * gate) :=
  [(0x20, int_gate_irq_timer); (0x21, irq_gate 0x21); (0x22, int_gate_irq_timer)] ++
  map (fun v => (v, irq_gate v)) (seqZ 0x23 (0xff - 0x23)) ++
  [(0xff, int_gate_irq_spurious)].

Section SetUp.
Context {S : Type} `{Ports S}.

(** The address the linker gave to a gate. *)
Variable address_of : gate -> Z.

(** kernel/x64/irqs-x64.cc:275-277, IrqsArch::DisableNMI. *)
Definition DisableNMI (s : S) : S :=
  let '(v, s) := InB 0x70 s in OutB 0x70 (Z.lor v 0x80) s.

(** kernel/x64/irqs-x64.cc:279-281, IrqsArch::EnableNMI. *)
Definition EnableNMI (s : S) : S :=
  let '(v, s) := InB 0x70 s in OutB 0x70 (Z.land v 0x7F) s.

(** kernel/x64/irqs-x64.cc:313-328, SetUp: the legacy interrupt controllers. *)
Definition remap_pic (s : S) : S :=
  fold_left (fun s '(port, value) => OutB port value s)
    [(0x20, 0x11); (0xA0, 0x11); (0x21, 0x20); (0xA1, 0x28); (0x21, 0x04); (0xA1, 0x02);
     (0x21, 0x01); (0xA1, 0x01); (0x21, 0xFF); (0xA1, 0xFF)] s.

(** kernel/x64/irqs-x64.cc:310-596, IrqsArch::SetUp. *)
Definition SetUp (s : S) (m : ram) : S * ram :=
  (remap_pic (DisableNMI s),
   fold_left (fun m '(vector, g) => InstallGate m vector (address_of g) 0x8e)
     (exception_gates ++ irq_gates) m).

End SetUp.

(** ** What the processor reads: a gate descriptor of 64-bit mode *)

Definition descriptor_offset (m : ram) (vector : Z) : Z :=
  let b k := m (kIDTTableBase + vector * 16 + k) in
  little_endian_to_Z 8 [b 0; b 1; b 6; b 7; b 8; b 9; b 10; b 11].
Definition descriptor_selector (m : ram) (vector : Z) : Z :=
  little_endian_to_Z 8 [m (kIDTTableBase + vector * 16 + 2); m (kIDTTableBase + vector * 16 + 3)].
(** Present, level 0, 64-bit interrupt gate, on the current stack. *)
Definition interrupt_gate (m : ram) (vector : Z) : Prop :=
  m (kIDTTableBase + vector * 16 + 5) = 0x8e /\ m (kIDTTableBase + vector * 16 + 4) = 0.

(** The gate each vector is meant for. *)
Definition gate_of (v : Z) : gate :=
  if v <? 32 then
    int_gate_exception (default other (list_to_map (M := gmap Z exception)
      [(0, DE); (1, DB); (2, NMI); (3, BP); (4, OF); (5, BR); (6, UD); (7, NM); (8, DF); (10, TS); (11, NP);
       (12, SS); (13, GP); (14, PF); (16, MF); (17, AC); (18, MC); (19, XF); (30, SX)] !! v))
  else if (v =? 32) || (v =? 34) then int_gate_irq_timer
  else if v =? 255 then int_gate_irq_spurious
  else irq_gate v.

(** The gates that exist. *)
Definition all_gates : list gate := map gate_of (seqZ 0 256).

Lemma gates_spec : exception_gates ++ irq_gates = map (fun v => (v, gate_of v)) (seqZ 0 256).
Proof. vm_compute. reflexivity. Qed.

Lemma gate_bytes_offset func type :
  in_range 64 func ->
  forall m a, (forall i b, gate_bytes func type !! i = Some b -> m (a + Z.of_nat i) = b) ->
  little_endian_to_Z 8 [m (a + 0); m (a + 1); m (a + 6); m (a + 7); m (a + 8); m (a + 9); m (a + 10); m (a + 11)]
  = func.
Proof.
  intros Hf m a Hm.
  assert (forall k, 0 <= k -> Z.shiftr (Z.land func (Z.shiftl 0xFF (8 * k))) (8 * k) = Z.land (Z.shiftr func (8 * k)) 255) as B.
  { intros k Hk. rewrite Z.shiftr_land, Z.shiftr_shiftl_l, Z.sub_diag, Z.shiftl_0_r by lia. done. }
  pose proof (fun i b => Hm i b) as G. unfold gate_bytes in G. rewrite !B in G by lia.
  pose proof (G 0%nat _ eq_refl) as G0. pose proof (G 1%nat _ eq_refl) as G1. pose proof (G 6%nat _ eq_refl) as G6.
  pose proof (G 7%nat _ eq_refl) as G7. pose proof (G 8%nat _ eq_refl) as G8. pose proof (G 9%nat _ eq_refl) as G9.
  pose proof (G 10%nat _ eq_refl) as G10. pose proof (G 11%nat _ eq_refl) as G11.
  transitivity (little_endian_to_Z 8 (map (fun i => m (a + Z.of_nat i)) [0; 1; 6; 7; 8; 9; 10; 11]%nat)); [done |].
  cbn [map]. rewrite G0, G1, G6, G7, G8, G9, G10, G11.
  change 255 with (Z.ones 8) in *.
  assert (Z_to_little_endian 8 8 func = map (fun k => Z.land (Z.shiftr func (8 * k)) (Z.ones 8)) (seqZ 0 8)) as E.
  { change 8 with (Z.succ (Z.succ (Z.succ (Z.succ (Z.succ (Z.succ (Z.succ (Z.succ 0)))))))) at 1.
    rewrite !Z_to_little_endian_succ by lia. rewrite !Z.shiftr_shiftr by lia. reflexivity. }
  transitivity (little_endian_to_Z 8 (Z_to_little_endian 8 8 func)).
  - rewrite E. reflexivity.
  - rewrite little_endian_to_Z_to_little_endian by lia. apply Z.mod_small. exact Hf.
Qed.

Section Table.
Context {S : Type} `{Ports S}.
Variable address_of : gate -> Z.

(** The memory after the gates of the vectors [0..n-1] were installed. *)
Lemma install_all m n :
  (n <= 256)%nat ->
  let m' := fold_left (fun m '(vector, g) => InstallGate m vector (address_of g) 0x8e)
              (map (fun v => (v, gate_of v)) (seqZ 0 (Z.of_nat n))) m in
  (forall v i b, 0 <= v < Z.of_nat n -> gate_bytes (address_of (gate_of v)) 0x8e !! i = Some b ->
     m' (kIDTTableBase + v * 16 + Z.of_nat i) = b) /\
  forall a, a < 0 \/ 16 * Z.of_nat n <= a -> m' a = m a.
Proof.
  induction n as [| n IH]; intros Hn; [cbn; split; [lia | done] |].
  rewrite seqZ_S, map_app, fold_left_app. cbn [map fold_left].
  destruct IH as [I1 I2]; [lia |]. set (m0 := fold_left _ _ m) in *. cbn zeta.
  unfold InstallGate, u8. rewrite Z.add_0_l, wrap_small by (unfold in_range; lia). unfold kIDTTableBase in *.
  assert (forall f ty, length (gate_bytes f ty) = 16%nat) as L by reflexivity.
  split.
  - intros v i b Hv E. assert (i < 16)%nat by (apply lookup_lt_Some in E; exact E).
    destruct (decide (v = Z.of_nat n)) as [-> | Hne]; [by apply store_bytes_in |].
    rewrite store_bytes_out by (rewrite L; lia). apply I1; [lia | done].
  - intros a Ha. rewrite store_bytes_out by (rewrite L; lia). apply I2. lia.
Qed.

Lemma SetUp_table s m :
  let m' := (SetUp address_of s m).2 in
  (forall v i b, 0 <= v < 256 -> gate_bytes (address_of (gate_of v)) 0x8e !! i = Some b ->
     m' (kIDTTableBase + v * 16 + Z.of_nat i) = b) /\
  forall a, a < 0 \/ 4096 <= a -> m' a = m a.
Proof. unfold SetUp. cbn [snd]. rewrite gates_spec. exact (install_all m 256 (le_n _)). Qed.

End Table.

(** ** The legacy interrupt controllers and the gate of the NMI

    Two 8259 controllers: a write of ICW1 to the command port starts the
    initialisation, the next writes to the data port are ICW2 (the first vector), ICW3
    and ICW4, and any later one is the mask.  Bit 7 of port 0x70 holds the NMI off. *)
Record pic : Type := mkPic { stage : nat; base : Z; icw3 : Z; icw4 : Z; mask : Z }.
Record pc : Type := mkPc { master : pic; slave : pic; cmos : Z }.

Definition pic_command (value : Z) (p : pic) : pic :=
  if Z.testbit value 4 then mkPic 1 (base p) (icw3 p) (icw4 p) 0 else p.
Definition pic_data (value : Z) (p : pic) : pic :=
  match stage p with
  | 1%nat => mkPic 2 value (icw3 p) (icw4 p) (mask p)
  | 2%nat => mkPic 3 (base p) value (icw4 p) (mask p)
  | 3%nat => mkPic 0 (base p) (icw3 p) value (mask p)
  | _ => mkPic 0 (base p) (icw3 p) (icw4 p) value
  end.

#[global] Instance pc_ports : Ports pc := {
  out _ port value d :=
    if port =? 0x20 then mkPc (pic_command value (master d)) (slave d) (cmos d)
    else if port =? 0x21 then mkPc (pic_data value (master d)) (slave d) (cmos d)
    else if port =? 0xA0 then mkPc (master d) (pic_command value (slave d)) (cmos d)
    else if port =? 0xA1 then mkPc (master d) (pic_data value (slave d)) (cmos d)
    else if port =? 0x70 then mkPc (master d) (slave d) value
    else d;
  inp _ port d := (if port =? 0x70 then cmos d else 0, d) }.

Lemma pic_ports d :
  let d' := remap_pic (DisableNMI d) in
  master d' = mkPic 0 0x20 4 1 0xff /\ slave d' = mkPic 0 0x28 2 1 0xff /\ Z.testbit (cmos d') 7 = true.
Proof.
  destruct d as [[st1 b1 i1 j1 m1] [st2 b2 i2 j2 m2] c]. split_and!; [vm_compute; reflexivity .. |].
  transitivity (Z.testbit (u8 (Z.lor c 0x80)) 7); [reflexivity |].
  unfold u8. rewrite testbit_wrap, Z.lor_spec by lia. change (Z.testbit 0x80 7) with true. by rewrite orb_true_r.
Qed.

(** The interrupt descriptor table: after SetUp every one of the 256 vectors has a
    present interrupt gate in the code segment of the kernel that leads to the gate meant
    for the vector; memory outside the 4 KiB of the table is unchanged.  The legacy
    controllers, whatever state they were in, are moved to the vectors 0x20 to 0x2f and
    fully masked, and the NMI is off. *)
Theorem SetUp_correct (address_of : gate -> Z) (d : pc) (m : ram)
  (Ha : forall g, in_range 64 (address_of g)) :
  let '(d', m') := SetUp address_of d m in
  (forall v, 0 <= v < 256 ->
     descriptor_offset m' v = address_of (gate_of v) /\ descriptor_selector m' v = 8 /\ interrupt_gate m' v) /\
  (forall a, a < 0 \/ 4096 <= a -> m' a = m a) /\
  master d' = mkPic 0 0x20 4 1 0xff /\ slave d' = mkPic 0 0x28 2 1 0xff /\ Z.testbit (cmos d') 7 = true.
Proof.
  destruct (SetUp_table address_of d m) as [T1 T2]. destruct (SetUp address_of d m) as [d' m'] eqn:E. cbn [snd] in *.
  split_and!; [| done | ..].
  - intros v Hv. pose proof (fun i b => T1 v i b Hv) as G. split_and!.
    + unfold descriptor_offset. by apply (gate_bytes_offset _ 0x8e).
    + unfold descriptor_selector. pose proof (G 2%nat _ eq_refl) as G2. pose proof (G 3%nat _ eq_refl) as G3.
      change (Z.of_nat 2) with 2 in G2. change (Z.of_nat 3) with 3 in G3. by rewrite G2, G3.
    + split; [exact (G 5%nat _ eq_refl) | exact (G 4%nat _ eq_refl)].
  - unfold SetUp in E. injection E as <- _. apply (pic_ports d).
  - unfold SetUp in E. injection E as <- _. apply (pic_ports d).
  - unfold SetUp in E. injection E as <- _. apply (pic_ports d).
Qed.

(** Gates at an example of addresses. *)
Definition exception_code (e : exception) : Z :=
  match e with
  | DE => 0 | DB => 1 | NMI => 2 | BP => 3 | OF => 4 | BR => 5 | UD => 6 | NM => 7 | DF => 8 | TS => 10 | NP => 11
  | SS => 12 | GP => 13 | PF => 14 | MF => 16 | AC => 17 | MC => 18 | XF => 19 | SX => 30 | other => 31
  end.

Definition address0 (g : gate) : Z :=
  match g with
  | irq_gate v => 0x100000 + wrap 8 v
  | int_gate_exception e => 0x200000 + exception_code e
  | int_gate_irq_timer => 0x300000
  | int_gate_irq_spurious => 0x400000
  end.

Lemma address0_range g : in_range 64 (address0 g).
Proof.
  destruct g as [e | | | v]; [by destruct e | done | done |].
  pose proof (wrap_range 8 v ltac:(lia)) as W. unfold in_range in *. cbn. lia.
Qed.

Lemma SetUp_correct_witness :
  let m' := (SetUp address0 (mkPc (mkPic 0 8 0 0 0) (mkPic 0 0x70 0 0 0) 0) (fun _ => 0)).2 in
  descriptor_offset m' 0x2b = 0x10002b.
Proof.
  destruct (SetUp_correct address0 (mkPc (mkPic 0 8 0 0 0) (mkPic 0 0x70 0 0 0) 0) (fun _ => 0)) as [P _].
  - exact address0_range.
  - destruct (P 0x2b ltac:(lia)) as [E _]. exact E.
Defined.

End IrqsArch.

(** ** The events *)
Module Interrupts.
Import IrqsArch.

Section Kernel.
Context {mspace Q QT : Type}.

(** What interrupt handlers work on: the memory manager, the thread manager and the
    queues of the processor that takes the interrupt, the engines, whether the table of
    the ACPI named a local APIC, and the writes to its registers. *)
Record kernel : Type := mk {
  mm : MemManager.t (mspace := mspace);
  sched : Sched.world (Q := Q) (QT := QT);
  engines : Engines.t;
  local_apic : bool;
  apic : list (Z * Z) }.

(** kernel/x64/platform-x64.cc:35-38, PlatformArch::AckIRQ. *)
Definition AckIRQ (s : kernel) : outcome kernel :=
  _ ← rt_assert (local_apic s) "acpi_.local_apic()";
  Ret (mk (mm s) (sched s) (engines s) (local_apic s) (LocalApic.EOI (apic s))).

(** kernel/platform.h:84-87, Platform::HandleIRQ. *)
Definition HandleIRQ (cpu : Z) (s : kernel) (number : Z) : outcome kernel :=
  d ← IrqDispatcher.Raise cpu (Sched.irqs (sched s)) (u8 number);
  AckIRQ (mk (mm s) (Sched.set_irqs (sched s) d) (engines s) (local_apic s) (apic s)).

(** kernel/irqs.cc:138-149, irq_handler_any, with the context
    (system-context.h:31-33). *)
Definition irq_handler_any (cpu : Z) (s : kernel) (number : Z) : outcome kernel :=
  _ ← rt_assert (0 =? cpu) "0 == Cpu::id()";
  _ ← rt_assert (number <=? 0xff) "number <= 0xff";
  HandleIRQ cpu s (Z.land number 0xff).

(** kernel/irqs.cc:127-134, irq_keyboard_event; no gate leads to it. *)
Definition irq_keyboard_event (cpu : Z) (s : kernel) : outcome kernel :=
  _ ← rt_assert (0 =? cpu) "0 == Cpu::id()";
  HandleIRQ cpu s 1.

(** kernel/irqs.cc:153-168, irq_timer_event.  The registers are found by the base
    address of the processor. *)
Definition irq_timer_event (cpu : Z) (s : kernel) : outcome kernel :=
  '(notified, e) ← Engines.TimerTick (engines s) cpu;
  let w := if (notified : bool) then Sched.TimerInterruptNotify (sched s) else sched s in
  Ret (mk (mm s) w e (local_apic s) (LocalApic.Write LocalApic.EOI_ 0 (apic s))).

(** kernel/irqs.cc:27-125, the events of the exceptions.  All but two stop the machine;
    after GP the gate itself does (irq-vectors-x64.asm:554-557). *)
Definition exception_event (e : exception) (s : kernel) (fault_address : Z) : outcome kernel :=
  match e with
  | DE => Fatal "!Ex_x86_64_DE" | DB => Fatal "!Ex_x86_64_DB" | NMI => Fatal "!Ex_x86_64_NMI"
  | BP => Fatal "!Ex_x86_64_BP" | OF => Fatal "!Ex_x86_64_OF" | BR => Fatal "!Ex_x86_64_BR"
  | UD => Fatal "!Ex_x86_64_UD" | NM => Fatal "!Ex_x86_64_NM" | DF => Fatal "!Ex_x86_64_DF"
  | TS => Fatal "!Ex_x86_64_TS" | NP => Fatal "!Ex_x86_64_NP" | SS => Fatal "!Ex_x86_64_SS"
  | GP => Fatal "cli; hlt"
  | PF => m ← MemManager.PageFault (mm s) fault_address;
          Ret (mk m (sched s) (engines s) (local_apic s) (apic s))
  | MF => Fatal "!Ex_x86_64_MF" | AC => Fatal "!Ex_x86_64_AC" | MC => Fatal "!Ex_x86_64_MC"
  | XF => Fatal "!Ex_x86_64_XF" | SX => Fatal "!Ex_x86_64_SX" | other => Fatal "!Ex_OTHER"
  end.

(** kernel/x64/irq-vectors-x64.asm:614-865, the gates: what each one calls. *)
Definition run_gate (cpu : Z) (s : kernel) (cr2 : Z) (g : gate) : outcome kernel :=
  match g with
  | int_gate_exception e => exception_event e s cr2
  | int_gate_irq_timer => irq_timer_event cpu s
  | int_gate_irq_spurious => Ret s
  | irq_gate v => irq_handler_any cpu s (v - 0x20)
  end.

Variable address_of : gate -> Z.

(** An interrupt: the processor reads the descriptor of the vector from memory and runs
    the code it finds at the offset. *)
Definition interrupt (cpu : Z) (s : kernel) (m : ram) (vector cr2 : Z) : outcome kernel :=
  match list_find (fun g => address_of g = descriptor_offset m vector) all_gates with
  | Some (_, g) => run_gate cpu s cr2 g
  | None => Fatal "no code at the offset"
  end.

(** The linker gives every gate an address of its own. *)
Hypothesis address_range : forall g, in_range 64 (address_of g).
Hypothesis address_inj : forall g g', g ∈ all_gates -> g' ∈ all_gates -> address_of g = address_of g' -> g = g'.

Lemma all_gates_of v : 0 <= v < 256 -> gate_of v ∈ all_gates.
Proof.
  intros Hv. apply list_elem_of_fmap_2, elem_of_seqZ. lia.
Qed.

Lemma find_gate g : g ∈ all_gates ->
  exists i, list_find (fun g' => address_of g' = address_of g) all_gates = Some (i, g).
Proof.
  intros Hg. destruct (list_find_elem_of (fun g' => address_of g' = address_of g) all_gates g Hg eq_refl) as [[i g'] E].
  exists i. rewrite E. do 2 f_equal. apply list_find_Some in E as (E1 & E2 & _).
  apply address_inj; [by eapply list_elem_of_lookup_2 | done | done].
Qed.

(** An interrupt after SetUp runs the gate of its vector. *)
Lemma interrupt_SetUp {S} `{Ports S} (p : S) m cpu s vector cr2 :
  0 <= vector < 256 ->
  interrupt cpu s (SetUp address_of p m).2 vector cr2 = run_gate cpu s cr2 (gate_of vector).
Proof.
  intros Hv. unfold interrupt.
  assert (descriptor_offset (SetUp address_of p m).2 vector = address_of (gate_of vector)) as ->.
  { unfold descriptor_offset. apply (gate_bytes_offset _ 0x8e); [done |].
    intros i b E. by apply (proj1 (SetUp_table address_of p m)). }
  destruct (find_gate (gate_of vector) (all_gates_of _ Hv)) as [i ->]. done.
Qed.

Lemma gate_of_irq v : 32 <= v < 255 -> v <> 32 -> v <> 34 -> gate_of v = irq_gate v.
Proof.
  intros Hv H1 H2. unfold gate_of. rewrite (proj2 (Z.ltb_ge v 32)) by lia.
  by rewrite !(proj2 (Z.eqb_neq v _)) by lia.
Qed.

Lemma irq_handler_spec s number :
  local_apic s = true -> 0 <= number < IrqDispatcher.kIrqCount ->
  exists ths, irq_handler_any 0 s number =
    Ret (mk (mm s) (Sched.set_irqs (sched s) (IrqDispatcher.mk (IrqDispatcher.bindings_ (Sched.irqs (sched s))) ths))
            (engines s) (local_apic s) ((LocalApic.EOI_, 0) :: apic s)) /\
    forall x, ths !! x =
      (fun e => EngineThread.push_irqs e (IrqDispatcher.messages_for (Sched.irqs (sched s)) number x)) <$>
        IrqDispatcher.threads (Sched.irqs (sched s)) !! x.
Proof.
  intros Hl Hn. unfold IrqDispatcher.kIrqCount in Hn. unfold irq_handler_any, HandleIRQ, IrqDispatcher.Raise.
  rewrite (proj2 (Z.leb_le number 0xff)) by lia. rewrite (land_mask 8 _ 0xff) by done.
  unfold u8. rewrite !(wrap_small 8 number) by (unfold in_range; lia).
  rewrite (proj2 (Z.ltb_lt number _)) by (unfold IrqDispatcher.kIrqCount; lia).
  cbn [rt_assert Z.eqb mbind outcome_bind]. unfold AckIRQ. cbn [local_apic]. rewrite Hl. cbn [rt_assert mbind outcome_bind].
  eexists. split; [done |]. intros x. apply IrqDispatcher.raise_all.
Qed.

(** The timer touches no queue of a thread and no binding. *)
Lemma irq_timer_frame cpu s s' : irq_timer_event cpu s = Ret s' ->
  mm s' = mm s /\ Sched.irqs (sched s') = Sched.irqs (sched s) /\ apic s' = (LocalApic.EOI_, 0) :: apic s.
Proof.
  unfold irq_timer_event. intros ([notified e] & _ & E)%bind_Ret. injection E as <-. cbn. by destruct notified.
Qed.


End Kernel.

Lemma address0_inj g g' :
  g ∈ all_gates -> g' ∈ all_gates -> address0 g = address0 g' -> g = g'.
Proof.
  assert (forallb (fun g => forallb (fun g' => bool_decide (address0 g = address0 g' -> g = g')) all_gates) all_gates = true)
    as E by (vm_compute; reflexivity).
  intros Hg Hg'. rewrite forallb_forall in E. apply list_elem_of_In in Hg, Hg'.
  specialize (E g Hg). rewrite forallb_forall in E. exact (bool_decide_eq_true_1 _ (E g' Hg')).
Qed.

(** A machine with two threads that takes the interrupt of input 4. *)
Definition kernel0 : kernel := mk MemManager.booted Sched.engine0 Engines.engines0 true [].
Definition pc0 : pc := mkPc (mkPic 0 8 0 0 0) (mkPic 0 0x70 0 0 0) 0.


End Interrupts.

(** ** The platform *)
Module Platform.
Import IoPortsX64.

(** kernel/platform.h:127-132, Platform members: the real time clock and the command
    line of the kernel. *)
Record t : Type := mk { time_int_ : Z; command_line_ : list Z }.

(** kernel/platform.h:35-35, Platform::Platform. *)
Definition new : t := mk 0 [].

(** kernel/platform.h:104-106, Platform::RealTimeMicroseconds; [boot] is the time since
    boot. *)
Definition RealTimeMicroseconds (p : t) (boot : Z) : Z := u64 (time_int_ p + boot).

(** kernel/platform.h:108-110, Platform::SetTimeMicroseconds. *)
Definition SetTimeMicroseconds (p : t) (new_t : Z) : t := mk new_t (command_line_ p).

(** kernel/platform.h:112-118, Platform::SetCommandLine and GetCommandLine. *)
Definition SetCommandLine (p : t) (cmd : list Z) : t := mk (time_int_ p) cmd.

Section Reboot.
Context {S : Type} `{Ports S}.

(** kernel/x64/platform-x64.cc:40-51, PlatformArch::Reboot, up to the final hang; it polls
    the keyboard controller at most [fuel] times. *)
Fixpoint Reboot (fuel : nat) (s : S) : outcome S :=
  match fuel with
  | O => OutOfFuel
  | Datatypes.S n =>
      let '(value, s) := InB 0x64 s in
      if Z.land value 0x02 =? 0 then Ret (OutB 0x64 0xfe s) else Reboot n s
  end.

End Reboot.

(** kernel/platform.cc:58-65, Platform::EnterSleepState: the state that is given to ACPI
    before the machine hangs. *)
Definition EnterSleepState (state : Z) : outcome Z :=
  _ ← rt_assert (state <=? 5) "state <= ACPI_S_STATES_MAX"; Ret (Z.land state 0xff).

(** The clock after it was set: it runs on with the time since boot, and shows the time
    since boot more than it was set to. *)
Lemma SetTime_offset p now boot :
  in_range 64 now -> in_range 64 boot -> now + boot < 2 ^ 64 ->
  RealTimeMicroseconds (SetTimeMicroseconds p now) boot = now + boot.
Proof. intros H1 H2 H3. unfold RealTimeMicroseconds. cbn. apply wrap_small. unfold in_range in *. lia. Qed.

End Platform.
