(* ===== verification/Printf.v ===== *)
(** * deps/printf/printf.cc: the formatter behind the console and the C functions

    [tfp_format] expands a format for [Logger], [FileIo] and sprintf.  The characters it puts are
    a list; the position of a character in the list is the third argument of [putf].  The
    theorems: numbers are printed in positional notation without leading zeros and fit
    the buffer, a format made of directives prints its fields, any format terminates, and
    snprintf stays inside its buffer. *)

From S2P Require Import Prelude.

Module Printf.

(** An argument behind the format: an integer in its slot of 64 bits, or a string. *)
Inductive varg : Type := VInt (z : Z) | VStr (s : list Z).

(** deps/printf/printf.cc:49-58, param; [bf] are the characters before the final zero. *)
Record param : Type := mkParam {
  lz : bool; alt : bool; uc : bool; align_left : bool; width : Z; sign : Z; base : Z; bf : list Z }.

Definition set_bf (p : param) (l : list Z) : param := mkParam (lz p) (alt p) (uc p) (align_left p) (width p) (sign p) (base p) l.
Definition set_sign (p : param) (c : Z) : param := mkParam (lz p) (alt p) (uc p) (align_left p) (width p) c (base p) (bf p).
Definition set_base (p : param) (b : Z) (u : bool) : param := mkParam (lz p) (alt p) u (align_left p) (width p) (sign p) b (bf p).
Definition set_lz (p : param) : param := mkParam true (alt p) (uc p) (align_left p) (width p) (sign p) (base p) (bf p).
Definition set_alt (p : param) : param := mkParam (lz p) true (uc p) (align_left p) (width p) (sign p) (base p) (bf p).
Definition set_left (p : param) : param := mkParam (lz p) (alt p) (uc p) true (width p) (sign p) (base p) (bf p).
Definition set_width (p : param) (w : Z) : param := mkParam (lz p) (alt p) (uc p) (align_left p) w (sign p) (base p) (bf p).

(** ** Numbers *)

(** deps/printf/printf.cc:66-67, the first loop of ulli2a: the weight of the first digit. *)
Fixpoint scale (fuel : nat) (w num b d : Z) : outcome Z :=
  if num / d >=? b then
    match fuel with O => OutOfFuel | S n => scale n w num b (wrap w (d * b)) end
  else Ret d.

(** deps/printf/printf.cc:73-73, the character of a digit. *)
Definition digit_char (u : bool) (dgt : Z) : Z := dgt + (if dgt <? 10 then 48 else (if u then 65 else 97) - 10).

(** deps/printf/printf.cc:68-76, the second loop of ulli2a; [n] tells whether a digit was put. *)
Fixpoint digits (fuel : nat) (b : Z) (u : bool) (num d : Z) (n : bool) : outcome (list Z) :=
  if negb (d =? 0) then
    match fuel with
    | O => OutOfFuel
    | S f =>
        let dgt := num / d in
        let num := num mod d in
        let d := d / b in
        if n || (dgt >? 0) || (d =? 0) then l ← digits f b u num d true; Ret (digit_char u dgt :: l)
        else digits f b u num d n
    end
  else Ret [].

(** deps/printf/printf.cc:61-78, the body that ulli2a, uli2a and ui2a share, for integers of [w] bits. *)
Definition number (w num : Z) (p : param) : outcome param :=
  d ← scale 64 w num (base p) 1; l ← digits 65 (base p) (uc p) num d false; Ret (set_bf p l).

(** deps/printf/printf.cc:61-78, ulli2a. *)
Definition ulli2a (num : Z) (p : param) : outcome param := number 64 num p.
(** deps/printf/printf.cc:80-87, lli2a. *)
Definition lli2a (num : Z) (p : param) : outcome param :=
  if num <? 0 then ulli2a (u64 (- num)) (set_sign p 45) else ulli2a num p.
(** deps/printf/printf.cc:89-106, uli2a. *)
Definition uli2a (num : Z) (p : param) : outcome param := number 64 num p.
(** deps/printf/printf.cc:108-115, li2a. *)
Definition li2a (num : Z) (p : param) : outcome param :=
  if num <? 0 then uli2a (u64 (- num)) (set_sign p 45) else uli2a num p.
(** deps/printf/printf.cc:117-134, ui2a. *)
Definition ui2a (num : Z) (p : param) : outcome param := number 32 num p.
(** deps/printf/printf.cc:136-143, i2a. *)
Definition i2a (num : Z) (p : param) : outcome param :=
  if num <? 0 then ui2a (u32 (- num)) (set_sign p 45) else ui2a num p.

(** deps/printf/printf.cc:145-155, a2d. *)
Definition a2d (ch : Z) : Z :=
  if (48 <=? ch) && (ch <=? 57) then ch - 48
  else if (97 <=? ch) && (ch <=? 102) then ch - 97 + 10
  else if (65 <=? ch) && (ch <=? 70) then ch - 65 + 10
  else -1.

(** The next character of a format, which a zero ends. *)
Definition next (fmt : list Z) : Z * list Z := match fmt with [] => (0, []) | c :: r => (c, r) end.

(** deps/printf/printf.cc:157-171, a2u: the number, the character behind it and the rest. *)
Fixpoint a2u (ch : Z) (src : list Z) (b num : Z) : Z * list Z * Z :=
  let digit := a2d ch in
  if (digit >=? 0) && negb (digit >? b) then
    let num := u32 (num * b + digit) in
    match src with [] => (0, [], num) | c :: r => a2u c r b num end
  else (ch, src, num).

(** ** Fields *)

Definition fill (n c : Z) : list Z := replicate (Z.to_nat n) c.

(** deps/printf/printf.cc:173-231, putchw. *)
Definition putchw (p : param) : list Z :=
  let n := sign_of 32 (width p) in
  let n := n - Z.min (zlen (bf p)) (Z.max n 0) in
  let n := if negb (sign p =? 0) then n - 1 else n in
  let n := if alt p && (base p =? 16) then n - 2 else if alt p && (base p =? 8) then n - 1 else n in
  (if negb (lz p) && negb (align_left p) then fill n 32 else []) ++
  (if negb (sign p =? 0) then [sign p] else []) ++
  (if alt p && (base p =? 16) then [48; if uc p then 88 else 120] else if alt p && (base p =? 8) then [48] else []) ++
  (if lz p then fill n 48 else []) ++
  bf p ++
  (if negb (lz p) && align_left p then fill n 32 else []).

(** deps/printf/printf.cc:255-270, the flags of a directive: the character behind them. *)
Fixpoint flags (p : param) (fmt : list Z) : Z * param * list Z :=
  match fmt with
  | [] => (0, p, [])
  | c :: r =>
      if c =? 45 then flags (set_left p) r
      else if c =? 48 then flags (set_lz p) r
      else if c =? 35 then flags (set_alt p) r
      else (c, p, r)
  end.

(** deps/printf/printf.cc:284-286, the digits of a precision. *)
Fixpoint skip_digits (fmt : list Z) : Z * list Z :=
  match fmt with
  | [] => (0, [])
  | c :: r => if (48 <=? c) && (c <=? 57) then skip_digits r else (c, r)
  end.

(** va_arg: an argument that is not there, or of another type, is an error of the caller. *)
Definition arg_int (va : list varg) : outcome (Z * list varg) :=
  match va with VInt z :: r => Ret (z, r) | _ => Fatal "va_arg" end.
Definition arg_str (va : list varg) : outcome (list Z * list varg) :=
  match va with VStr s :: r => Ret (s, r) | _ => Fatal "va_arg" end.

(** deps/printf/printf.cc:302-309, a number without sign of the length [lng]; the same for 'x'. *)
Definition put_unsigned (p : param) (lng : Z) (va : list varg) : outcome (list Z * param * list varg) :=
  '(z, va) ← arg_int va;
  p ← (if 2 =? lng then ulli2a (u64 z) p else if 1 =? lng then uli2a (u64 z) p else ui2a (u32 z) p);
  Ret (putchw p, p, va).

(** deps/printf/printf.cc:313-321, a number with sign. *)
Definition put_signed (p : param) (lng : Z) (va : list varg) : outcome (list Z * param * list varg) :=
  '(z, va) ← arg_int va;
  p ← (if 2 =? lng then lli2a (sign_of 64 z) p else if 1 =? lng then li2a (sign_of 64 z) p else i2a (sign_of 32 z) p);
  Ret (putchw p, p, va).

(** deps/printf/printf.cc:297-364, the switch over the conversion [ch], which is not zero. *)
Definition convert (p : param) (lng ch : Z) (va : list varg) : outcome (list Z * param * list varg) :=
  if ch =? 117 then put_unsigned (set_base p 10 (uc p)) lng va
  else if (ch =? 100) || (ch =? 105) then put_signed (set_base p 10 (uc p)) lng va
  else if ch =? 112 then put_unsigned (set_base (set_alt p) 16 false) 1 va
  else if (ch =? 120) || (ch =? 88) then put_unsigned (set_base p 16 (ch =? 88)) lng va
  else if ch =? 111 then '(z, va) ← arg_int va; p ← ui2a (u32 z) (set_base p 8 (uc p)); Ret (putchw p, p, va)
  else if ch =? 99 then '(z, va) ← arg_int va; Ret ([u8 z], p, va)
  else if ch =? 115 then '(s, va) ← arg_str va; Ret (putchw (set_bf p s), p, va)
  else if ch =? 37 then Ret ([ch], p, va)
  else Ret ([], p, va).

(** deps/printf/printf.cc:245-296, a directive up to its conversion: the conversion, the
    length and the parameters. *)
Definition directive (p : param) (fmt : list Z) : Z * Z * param * list Z :=
  let p := mkParam false false (uc p) false 0 0 (base p) (bf p) in
  let '(ch, p, fmt) := flags p fmt in
  let '(ch, fmt, p) := if (48 <=? ch) && (ch <=? 57) then let '(ch, fmt, w) := a2u ch fmt 10 0 in (ch, fmt, set_width p w)
                       else (ch, fmt, p) in
  let '(ch, fmt, p) := if ch =? 46 then let '(ch, fmt) := skip_digits fmt in (ch, fmt, set_lz p) else (ch, fmt, p) in
  if ch =? 108 then
    let '(ch, fmt) := next fmt in
    if ch =? 108 then let '(ch, fmt) := next fmt in (ch, 2, p, fmt) else (ch, 1, p, fmt)
  else (ch, 0, p, fmt).

(** deps/printf/printf.cc:243-366, the loop of tfp_format, from the state [p] of the parameters,
    whose base nothing sets before the first number. *)
Fixpoint tfp_loop (fuel : nat) (p : param) (fmt : list Z) (va : list varg) : outcome (list Z) :=
  match fmt with
  | [] => Ret []
  | ch :: fmt =>
      match fuel with
      | O => OutOfFuel
      | S n =>
          if negb (ch =? 37) then l ← tfp_loop n p fmt va; Ret (ch :: l)
          else
            let '(ch, lng, p, fmt) := directive p fmt in
            if ch =? 0 then Ret []
            else
              '(out, p, va) ← convert p lng ch va;
              l ← tfp_loop n p fmt va; Ret (out ++ l)
      end
  end.

(** deps/printf/printf.cc:233-368, tfp_format. *)
Definition tfp_format (p : param) (fmt : list Z) (va : list varg) : outcome (list Z) := tfp_loop (length fmt) p fmt va.

(** ** Buffers *)

(** deps/printf/printf.cc:370-374, cp_opt. *)
Record cp_opt : Type := mkOpt { buf : Z; mem : ram; max_len : Z; max_len_enabled : bool }.

(** deps/printf/printf.cc:376-386, putcp. *)
Definition putcp (o : cp_opt) (c offset : Z) : cp_opt :=
  if max_len_enabled o && (max_len o =? 0) then o
  else if negb (max_len_enabled o) || (offset <? max_len o - 1) then
    mkOpt (buf o + 1) (fun a => if decide (a = buf o) then c else mem o a) (max_len o) (max_len_enabled o)
  else o.

(** [count++]: the count of tfp_format and of putchw is an int, which starts again from the
    least one after the greatest. *)
Definition incr (count : Z) : Z := sign_of 32 (count + 1).

(** deps/printf/printf.cc:235-247, the characters of a format, each put at the count; the count is
    converted to a size_t. *)
Fixpoint put_from (o : cp_opt) (count : Z) (l : list Z) : cp_opt :=
  match l with [] => o | c :: l => put_from (putcp o c (u64 count)) (incr count) l end.

(** deps/printf/printf.cc:404-413, tfp_vsprintf. *)
Definition tfp_vsprintf (p : param) (m : ram) (s : Z) (fmt : list Z) (va : list varg) : outcome (Z * ram) :=
  l ← tfp_format p fmt va;
  let o := put_from (mkOpt s m 0 false) 0 l in
  Ret (sign_of 32 (zlen l), mem (putcp o 0 0)).

(** deps/printf/printf.cc:415-427, tfp_vsnprintf. *)
Definition tfp_vsnprintf (p : param) (m : ram) (s n : Z) (fmt : list Z) (va : list varg) : outcome (Z * ram) :=
  l ← tfp_format p fmt va;
  let o := put_from (mkOpt s m n true) 0 l in
  Ret (sign_of 32 (zlen l), if n >? 0 then mem (putcp (mkOpt (buf o) (mem o) n false) 0 0) else mem o).

Definition p0 : param := mkParam false false false false 0 0 10 [].
Definition str (s : string) : list Z := map (fun c => Z.of_N (Ascii.N_of_ascii c)) (String.list_ascii_of_string s).

Example fmt1 : tfp_format p0 (str "%5d|%-6x|%#p|%lu|%s%%%c|%03i") [VInt (-42); VInt 0xBEEF; VInt 4096; VInt (2 ^ 64 - 1); VStr (str "abc"); VInt 65; VInt 7]
  = Ret (str "  -42|beef  |0x1000|18446744073709551615|abc%A|007").
Proof. vm_compute. reflexivity. Qed.

(** The width of "%1ad" is read as 1 * 10 + 10. *)
Example fmt_bug : tfp_format p0 (str "%1ad") [VInt 7] = Ret (replicate 19 32 ++ [55]).
Proof. vm_compute. reflexivity. Qed.

(** ** Numbers in positional notation *)

(** The value of digits, most significant first, and the digits of a number, by repeated division. *)
Definition value (b : Z) (ds : list Z) : Z := foldl (fun v d => v * b + d) 0 ds.

Fixpoint numeral_upto (fuel : nat) (b num : Z) : list Z :=
  if num <? b then [num]
  else match fuel with O => [] | S n => numeral_upto n b (num / b) ++ [num mod b] end.
Definition numeral (b num : Z) : list Z := numeral_upto 64 b num.

Definition is_digit (b d : Z) : Prop := 0 <= d < b.
Record is_numeral (b num : Z) (ds : list Z) : Prop := {
  num_digits : Forall (is_digit b) ds;
  num_value : value b ds = num;
  num_lead : exists d r, ds = d :: r /\ (d = 0 -> r = []) }.

Lemma value_snoc b ds d : value b (ds ++ [d]) = value b ds * b + d.
Proof. unfold value. by rewrite foldl_app. Qed.

Lemma value_cons b d ds : value b (d :: ds) = d * b ^ zlen ds + value b ds.
Proof.
  induction ds as [| x ds IH] using rev_ind; [unfold value, zlen; simpl; lia |].
  rewrite app_comm_cons, !value_snoc, IH, zlen_app. change (zlen [x]) with 1.
  rewrite Z.pow_add_r by (unfold zlen; lia). lia.
Qed.

Lemma value_bound b ds : 2 <= b -> Forall (is_digit b) ds -> 0 <= value b ds < b ^ zlen ds.
Proof.
  intros Hb. induction ds as [| x ds IH] using rev_ind; intros F; [unfold value, zlen; simpl; lia |].
  apply Forall_app in F as [F [Hx _]%Forall_cons]. unfold is_digit in Hx. specialize (IH F).
  rewrite value_snoc, zlen_app, Z.pow_add_r by (unfold zlen; lia). change (zlen [x]) with 1. nia.
Qed.

(** Digits without a leading zero are the numeral of their value. *)
Lemma is_numeral_unique n b num ds :
  2 <= b -> is_numeral b num ds -> (length ds <= S n)%nat -> ds = numeral_upto n b num.
Proof.
  intros Hb. revert n num. induction ds as [| d ds IH] using rev_ind; intros n num [F <- (x & r & E & Hx)] Hn; [done |].
  apply Forall_app in F as [F [Hd _]%Forall_cons]. unfold is_digit in Hd. rewrite value_snoc.
  destruct ds as [| y ds].
  - unfold value; simpl. destruct n; simpl; by rewrite (proj2 (Z.ltb_lt _ _)) by lia.
  - injection E as <- <-. pose proof (value_bound b _ Hb F) as B. pose proof (value_bound b ds Hb) as B'.
    rewrite length_app in Hn. simpl in Hn. destruct n as [| n]; [lia |]. simpl.
    assert (0 < value b (y :: ds)).
    { rewrite value_cons in *. apply Forall_cons in F as [Hy F]. specialize (B' F). unfold is_digit in Hy.
      assert (y <> 0) by (intros E; by destruct ds; specialize (Hx E)). nia. }
    rewrite (proj2 (Z.ltb_ge _ _)) by nia. rewrite Z.div_add_l, (Z.div_small d), Z.add_0_r by lia.
    rewrite Z.add_comm, Z.mod_add, Z.mod_small by lia.
    rewrite app_comm_cons. f_equal. apply IH; [| simpl; lia].
    split; [done | done |]. exists y, ds. split; [done |]. intros E. by destruct ds; specialize (Hx E).
Qed.

(** The first loop ends with the weight of the first digit; no multiplication overflows. *)
Lemma scale_spec fuel w num b j d :
  d = b ^ Z.of_nat j -> 2 <= b -> 0 <= w -> in_range w num -> (j = 0%nat \/ b ^ Z.of_nat j <= num) -> num < b ^ Z.of_nat (j + S fuel) ->
  exists e, scale fuel w num b d = Ret (b ^ Z.of_nat e) /\ num < b ^ Z.of_nat (S e) /\
            (e = 0%nat \/ b ^ Z.of_nat e <= num) /\ (e <= j + fuel)%nat.
Proof.
  intros Hd Hb Hw Hr. revert d j Hd. induction fuel as [| fuel IH]; intros d j -> Hj Hn; simpl;
    (assert (P : 0 < b ^ Z.of_nat j) by (apply Z.pow_pos_nonneg; lia));
    (assert (S1 : b ^ Z.of_nat (S j) = b ^ Z.of_nat j * b) by (rewrite Nat2Z.inj_succ, Z.pow_succ_r by lia; lia)).
  - exists j. replace (j + 1)%nat with (S j) in Hn by lia.
    rewrite Z.geb_leb, (proj2 (Z.leb_gt _ _)) by (apply Z.div_lt_upper_bound; lia). repeat split; auto; lia.
  - destruct (num / b ^ Z.of_nat j >=? b) eqn:G.
    + apply Z.geb_le in G. assert (b ^ Z.of_nat j * b <= num) by (pose proof (Z.mul_div_le num _ P); nia).
      rewrite wrap_small by (unfold in_range in *; lia). rewrite <- S1.
      destruct (IH _ (S j) eq_refl) as (e & He & ?); [right; lia | by replace (S j + S fuel)%nat with (j + S (S fuel))%nat by lia |].
      exists e. split; [exact He |]. intuition lia.
    + exists j. rewrite Z.geb_leb in G. apply Z.leb_gt in G.
      repeat split; auto; try lia. rewrite S1. pose proof (Z.mul_succ_div_gt num _ P). nia.
Qed.

(** The second loop puts the digits, from the first one that is not zero on. *)
Lemma digits_spec b u e : forall fuel num n,
  2 <= b -> (e < fuel)%nat -> 0 <= num < b ^ Z.of_nat (S e) -> (n = true \/ e = 0%nat \/ b ^ Z.of_nat e <= num) ->
  exists ds, digits fuel b u num (b ^ Z.of_nat e) n = Ret (map (digit_char u) ds) /\ length ds = S e /\
    Forall (is_digit b) ds /\ value b ds = num.
Proof.
  induction e as [| e IH]; intros fuel num n Hb Hf Hn Hd; (destruct fuel as [| fuel]; [lia |]).
  - change (Z.of_nat 1) with 1 in Hn. rewrite Z.pow_1_r in Hn. cbn [digits]. change (b ^ Z.of_nat 0) with 1.
    rewrite Z.div_1_r, Z.mod_1_r, (Z.div_small 1 b) by lia. cbn [Z.eqb negb]. rewrite orb_true_r. exists [num]. destruct fuel; cbn [digits]; simpl; repeat split; auto; repeat constructor; unfold is_digit; lia.
  - assert (P : 0 < b ^ Z.of_nat e) by (apply Z.pow_pos_nonneg; lia).
    assert (S1 : b ^ Z.of_nat (S e) = b ^ Z.of_nat e * b) by (rewrite Nat2Z.inj_succ, Z.pow_succ_r by lia; lia).
    assert (S2 : b ^ Z.of_nat (S (S e)) = b ^ Z.of_nat (S e) * b) by (rewrite (Nat2Z.inj_succ (S e)), Z.pow_succ_r by lia; lia).
    pose proof (Z.div_mod num (b ^ Z.of_nat (S e)) ltac:(nia)) as DM.
    pose proof (Z.mod_pos_bound num (b ^ Z.of_nat (S e)) ltac:(nia)) as MB.
    assert (D : 0 <= num / b ^ Z.of_nat (S e) < b) by (split; [apply Z.div_pos | apply Z.div_lt_upper_bound]; nia).
    destruct (IH fuel (num mod b ^ Z.of_nat (S e)) true) as (ds & E & L & F & V); [done | lia | lia | by left |].
    cbn [digits]. rewrite (proj2 (Z.eqb_neq _ _)) by nia. cbn [negb].
    replace (b ^ Z.of_nat (S e) / b) with (b ^ Z.of_nat e) by (rewrite S1, Z.div_mul; lia).
    replace (n || (num / b ^ Z.of_nat (S e) >? 0) || (b ^ Z.of_nat e =? 0)) with true.
    + rewrite E. simpl. exists (num / b ^ Z.of_nat (S e) :: ds). split_and!; [done | simpl; lia | by constructor |].
      rewrite value_cons, V. unfold zlen. rewrite L. lia.
    + destruct Hd as [-> | [? | Hd]]; [done | lia |].
      rewrite (proj2 (Z.gtb_lt _ _)), orb_true_r; [done |]. apply Z.div_str_pos. lia.
Qed.

Definition printed (b num : Z) (ds : list Z) : Prop :=
  is_numeral b num ds /\ (zlen ds = 1 \/ b ^ (zlen ds - 1) <= num).

Lemma number_fuel f w num p :
  2 <= base p -> 0 <= w <= Z.of_nat f -> in_range w num ->
  exists ds, (d ← scale f w num (base p) 1; l ← digits (S f) (base p) (uc p) num d false; Ret (set_bf p l)) =
             Ret (set_bf p (map (digit_char (uc p)) ds)) /\ printed (base p) num ds.
Proof.
  intros Hb Hw Hr. destruct (scale_spec f w num (base p) 0 1) as (e & E & N & L & B); [done | done | lia | done | by left | |].
  { unfold in_range in Hr. apply Z.lt_le_trans with (2 ^ w); [lia |].
    transitivity (2 ^ Z.of_nat (0 + S f)); [apply Z.pow_le_mono_r; lia | apply Z.pow_le_mono_l; lia]. }
  destruct (digits_spec (base p) (uc p) e (S f) num false) as (ds & D & Len & F & V);
    [done | lia | unfold in_range in Hr; lia | by right |].
  exists ds. rewrite E. cbn [mbind outcome_bind]. rewrite D. split; [done |].
  unfold printed, zlen. rewrite Len. split; [| destruct L as [-> | L]; [by left | right]].
  2: { by replace (Z.of_nat (S e) - 1) with (Z.of_nat e) by lia. }
  split; [done | done |]. destruct ds as [| d r]; [done |]. exists d, r. split; [done |]. intros ->.
  apply Forall_cons in F as [_ F]. pose proof (value_bound _ _ Hb F) as VB. rewrite value_cons in V.
  simpl in Len. destruct L as [-> | L]; [destruct r; [done | simpl in Len; lia] |].
  unfold zlen in VB. replace (length r) with e in VB by lia. lia.
Qed.

(** The digits of a number of [w] bits are those of its numeral, and at most [k] of them if
    the number has at most [k] in its base. *)
Lemma number_spec w num p :
  2 <= base p -> 0 <= w <= 64 -> in_range w num ->
  number w num p = Ret (set_bf p (map (digit_char (uc p)) (numeral (base p) num))) /\
  printed (base p) num (numeral (base p) num).
Proof.
  intros Hb Hw Hr. destruct (number_fuel 64 w num p) as (ds & E & N & L); [done | lia | done |].
  assert (length ds <= 65)%nat.
  { destruct L as [L | L]; [unfold zlen in L; lia |]. unfold in_range in Hr.
    assert (2 ^ (zlen ds - 1) < 2 ^ 64); [| apply Z.pow_lt_mono_r_iff in H; unfold zlen in *; lia].
    apply Z.le_lt_trans with (base p ^ (zlen ds - 1)); [apply Z.pow_le_mono_l; lia |].
    assert (2 ^ w <= 2 ^ 64) by (apply Z.pow_le_mono_r; lia). lia. }
  unfold numeral. rewrite <- (is_numeral_unique 64 (base p) num ds) by done. done.
Qed.

Lemma printed_length b num ds k : 2 <= b -> 0 < k -> num < b ^ k -> printed b num ds -> zlen ds <= k.
Proof.
  intros Hb Hk Hn [_ [L | L]]; [lia |]. destruct (Z.le_gt_cases (zlen ds) k); [done |].
  assert (b ^ k <= b ^ (zlen ds - 1)) by (apply Z.pow_le_mono_r; lia). lia.
Qed.

(** ** Formats as lists of pieces *)

Inductive conversion : Type := CUnsigned | CSigned | CHex (upper : bool) | CPointer | COctal | CChar | CString | CPercent.

Record field : Type := mkField { f_left : bool; f_zero : bool; f_alt : bool; f_width : Z; f_long : nat; f_conv : conversion }.

Inductive piece : Type := Lit (c : Z) | Field (f : field).

(** How a piece is written in a format. *)
Definition conv_char (c : conversion) : Z :=
  match c with
  | CUnsigned => 117 | CSigned => 100 | CHex u => if u then 88 else 120 | CPointer => 112
  | COctal => 111 | CChar => 99 | CString => 115 | CPercent => 37
  end.
Definition write_flags (f : field) : list Z :=
  (if f_left f then [45] else []) ++ (if f_zero f then [48] else []) ++ (if f_alt f then [35] else []).
Definition write_width (f : field) : list Z := if f_width f =? 0 then [] else map (digit_char false) (numeral 10 (f_width f)).
Definition write_field (f : field) : list Z :=
  write_flags f ++ write_width f ++ replicate (f_long f) 108 ++ [conv_char (f_conv f)].
Definition write_piece (x : piece) : list Z := match x with Lit c => [c] | Field f => 37 :: write_field f end.

(** A sign, a prefix and a body in a field. *)
Definition pad (f : field) (sgn prefix body : list Z) : list Z :=
  let n := f_width f - zlen (sgn ++ prefix ++ body) in
  if f_zero f then sgn ++ prefix ++ fill n 48 ++ body
  else if f_left f then sgn ++ prefix ++ body ++ fill n 32
  else fill n 32 ++ sgn ++ prefix ++ body.

Definition in_base (b : Z) (u : bool) (z : Z) : list Z := map (digit_char u) (numeral b z).
Definition bits (f : field) : Z := match f_long f with O => 32 | _ => 64 end.

(** What a field shows of its argument. *)
Definition show_field (f : field) (va : list varg) : option (list Z * list varg) :=
  match f_conv f, va with
  | CUnsigned, VInt z :: va => Some (pad f [] [] (in_base 10 false (wrap (bits f) z)), va)
  | CSigned, VInt z :: va =>
      let z := sign_of (bits f) z in Some (pad f (if z <? 0 then [45] else []) [] (in_base 10 false (Z.abs z)), va)
  | CHex u, VInt z :: va =>
      Some (pad f [] (if f_alt f then [48; if u then 88 else 120] else []) (in_base 16 u (wrap (bits f) z)), va)
  | CPointer, VInt z :: va => Some (pad f [] [48; 120] (in_base 16 false (u64 z)), va)
  | COctal, VInt z :: va => Some (pad f [] (if f_alt f then [48] else []) (in_base 8 false (wrap (bits f) z)), va)
  | CChar, VInt z :: va => Some ([u8 z], va)
  | CString, VStr s :: va => Some (pad f [] [] s, va)
  | CPercent, va => Some ([37], va)
  | _, _ => None
  end.

Fixpoint show (ps : list piece) (va : list varg) : option (list Z) :=
  match ps with
  | [] => Some []
  | Lit c :: ps => l ← show ps va; Some (c :: l)
  | Field f :: ps => '(out, va) ← show_field f va; l ← show ps va; Some (out ++ l)
  end.

(** A width fits an int and there are at most two 'l's. *)
Definition field_fits (f : field) : Prop := 0 <= f_width f < 2 ^ 31 /\ (f_long f <= 2)%nat.

(** Fields that are shown as meant: '#' is for numbers, and octal numbers have no 'l'. *)
Definition field_ok (f : field) : Prop :=
  field_fits f /\ (f_conv f = CString -> f_alt f = false) /\ (f_conv f = COctal -> f_long f = O).
Definition piece_ok (x : piece) : Prop := match x with Lit c => c <> 37 /\ c <> 0 | Field f => field_ok f end.

(** The parameters of a field before its conversion. *)
Definition params (f : field) (p : param) : param :=
  mkParam (f_zero f) (f_alt f) (uc p) (f_left f) (f_width f) 0 (base p) (bf p).

Lemma a2d_digit d : is_digit 10 d -> a2d (digit_char false d) = d.
Proof.
  unfold is_digit, a2d, digit_char. intros H. rewrite (proj2 (Z.ltb_lt d 10)) by lia.
  rewrite !(proj2 (Z.leb_le _ _)) by lia. simpl. lia.
Qed.

Lemma a2u_spec ds : forall d c r v, Forall (is_digit 10) (d :: ds) -> (a2d c < 0 \/ 10 < a2d c) ->
  a2u (digit_char false d) (map (digit_char false) ds ++ c :: r) 10 (u32 v) =
  (c, r, u32 (foldl (fun v d => v * 10 + d) v (d :: ds))).
Proof.
  assert (W : forall v d, u32 (u32 v * 10 + d) = u32 (v * 10 + d)).
  { intros v d. unfold u32, wrap. rewrite Z.add_mod, Z.mul_mod_idemp_l, <- Z.add_mod by done. done. }
  induction ds as [| x ds IH]; intros d c r v F Hc; apply Forall_cons in F as [Hd F].
  - unfold is_digit in Hd. cbn [map app a2u foldl]. rewrite a2d_digit by done.
    rewrite Z.geb_leb, (proj2 (Z.leb_le _ _)), Z.gtb_ltb, (proj2 (Z.ltb_ge _ _)), W by lia. cbn [andb negb].
    destruct r; cbn [a2u]; destruct (a2d c >=? 0) eqn:G; simpl; try done;
      rewrite Z.geb_leb in G; apply Z.leb_le in G; rewrite Z.gtb_ltb, (proj2 (Z.ltb_lt _ _)) by lia; done.
  - unfold is_digit in Hd. cbn [map app a2u]. rewrite a2d_digit by done.
    rewrite Z.geb_leb, (proj2 (Z.leb_le _ _)), Z.gtb_ltb, (proj2 (Z.ltb_ge _ _)), W by lia. cbn [andb negb].
    by apply IH.
Qed.

Lemma flags_stop p f c r :
  c <> 45 -> c <> 48 -> c <> 35 ->
  flags (mkParam false false (uc p) false 0 0 (base p) (bf p)) (write_flags f ++ c :: r) =
  (c, mkParam (f_zero f) (f_alt f) (uc p) (f_left f) 0 0 (base p) (bf p), r).
Proof.
  intros H1 H2 H3. unfold write_flags.
  destruct (f_left f), (f_zero f), (f_alt f); simpl;
    by rewrite (proj2 (Z.eqb_neq c 45)), (proj2 (Z.eqb_neq c 48)), (proj2 (Z.eqb_neq c 35)) by done.
Qed.

Lemma numeral_ok b num : 2 <= b -> in_range 64 num -> printed b num (numeral b num).
Proof. intros Hb Hn. apply (number_spec 64 num (mkParam false false false false 0 0 b [])); simpl; [done | lia | done]. Qed.

(** The width of a field is read back. *)
Lemma read_width w c r :
  0 < w < 2 ^ 31 -> (a2d c < 0 \/ 10 < a2d c) ->
  exists d ds, map (digit_char false) (numeral 10 w) = digit_char false d :: ds /\ 1 <= d <= 9 /\
               a2u (digit_char false d) (ds ++ c :: r) 10 0 = (c, r, w).
Proof.
  intros Hw Hc. destruct (numeral_ok 10 w) as [[F V (d & ds & E & Z0)] _]; [lia | unfold in_range; lia |].
  rewrite E in *. exists d, (map (digit_char false) ds). split; [done |].
  pose proof F as [Hd _]%Forall_cons. unfold is_digit in Hd. split.
  - assert (d <> 0); [| lia]. intros ->. rewrite (Z0 eq_refl) in V. cbn in V. lia.
  - pose proof (a2u_spec ds d c r 0 F Hc) as A. change (u32 0) with 0 in A. rewrite A. f_equal.
    change (foldl (fun v d => v * 10 + d) 0 (d :: ds)) with (value 10 (d :: ds)). rewrite V.
    apply wrap_small. unfold in_range. lia.
Qed.

(** The part of a directive behind its width. *)
Definition after_width (ch : Z) (fmt : list Z) (p : param) : Z * Z * param * list Z :=
  let '(ch, fmt, p) := if ch =? 46 then let '(ch, fmt) := skip_digits fmt in (ch, fmt, set_lz p) else (ch, fmt, p) in
  if ch =? 108 then
    let '(ch, fmt) := next fmt in
    if ch =? 108 then let '(ch, fmt) := next fmt in (ch, 2, p, fmt) else (ch, 1, p, fmt)
  else (ch, 0, p, fmt).

(** The length and the conversion of a field, with the first character of them. *)
Lemma after_width_spec f r p : (f_long f <= 2)%nat ->
  exists c s, replicate (f_long f) 108 ++ conv_char (f_conv f) :: r = c :: s /\
    after_width c s p = (conv_char (f_conv f), Z.of_nat (f_long f), p, r) /\
    (a2d c < 0 \/ 10 < a2d c) /\ c <> 45 /\ c <> 48 /\ c <> 35 /\ (48 <=? c) && (c <=? 57) = false.
Proof.
  intros L. destruct (f_long f) as [| [| [|]]]; [| | | lia]; destruct (f_conv f) as [| | [] | | | | |]; simpl;
    eexists _, _; (split; [reflexivity |]); (split; [reflexivity |]); repeat split; try discriminate; vm_compute; auto.
Qed.

Lemma directive_spec p f r : field_fits f ->
  directive p (write_field f ++ r) = (conv_char (f_conv f), Z.of_nat (f_long f), params f p, r).
Proof.
  intros (Hw & Hl). unfold write_field. rewrite <- !app_assoc. cbn [app].
  unfold write_width, params. destruct (f_width f =? 0) eqn:E.
  - apply Z.eqb_eq in E. rewrite E. cbn [app].
    destruct (after_width_spec f r (mkParam (f_zero f) (f_alt f) (uc p) (f_left f) 0 0 (base p) (bf p)) Hl)
      as (c & s & -> & A & _ & H1 & H2 & H3 & D).
    unfold directive. rewrite flags_stop by done. rewrite D. exact A.
  - apply Z.eqb_neq in E.
    destruct (after_width_spec f r (mkParam (f_zero f) (f_alt f) (uc p) (f_left f) (f_width f) 0 (base p) (bf p)) Hl)
      as (c & s & -> & A & Hc & _).
    destruct (read_width (f_width f) c s) as (d & ds & -> & Hd & R); [lia | done |].
    assert (digit_char false d = d + 48) as Ed by (unfold digit_char; by rewrite (proj2 (Z.ltb_lt _ _)) by lia).
    cbn [app]. unfold directive. rewrite flags_stop by lia.
    rewrite !(proj2 (Z.leb_le _ _)) by lia. cbn [andb]. rewrite R. exact A.
Qed.

(** putchw pads. *)
Lemma putchw_pad f q :
  field_fits f -> lz q = f_zero f -> align_left q = f_left f -> width q = f_width f ->
  putchw q = pad f (if sign q =? 0 then [] else [sign q])
                   (if alt q && (base q =? 16) then [48; if uc q then 88 else 120]
                    else if alt q && (base q =? 8) then [48] else []) (bf q).
Proof.
  intros (Hw & _) E1 E2 E3. unfold putchw, pad. rewrite E1, E2, E3, sign_of_small by lia.
  assert (F : forall a b c, a = b \/ (a <= 0 /\ b <= 0) -> fill a c = fill b c).
  { intros a b c [-> | [? ?]]; [done |]. unfold fill. by rewrite !Z2Nat.nonpos by lia. }
  rewrite !zlen_app. pose proof (zlen_nonneg (bf q)).
  destruct (sign q =? 0), (alt q && (base q =? 16)), (alt q && (base q =? 8)); cbn [negb];
    destruct (f_zero f), (f_left f); cbn [negb andb app]; rewrite ?app_nil_r;
    repeat (f_equal; try (apply F; unfold zlen; simpl; lia)).
Qed.

Lemma in_base_small b u z : 2 <= b <= 10 -> in_range 64 z -> in_base b u z = in_base b false z.
Proof.
  intros Hb Hz. destruct (numeral_ok b z) as [[F _ _] _]; [lia | done |]. unfold in_base.
  apply list_map_ext || apply map_ext_in. intros d Hd.
  rewrite Forall_forall in F. specialize (F d (proj2 (list_elem_of_In _ _) Hd)). unfold is_digit in F.
  unfold digit_char. by rewrite (proj2 (Z.ltb_lt _ _)) by lia.
Qed.

Lemma range32 z : in_range 32 z -> in_range 64 z.
Proof. unfold in_range. lia. Qed.

(** The conversions of numbers, with the width that the length asks for. *)
Lemma put_unsigned_spec q n z va :
  2 <= base q -> (n <= 2)%nat ->
  exists q', q' = set_bf q (in_base (base q) (uc q) (wrap (match n with O => 32 | _ => 64 end) z)) /\
    put_unsigned q (Z.of_nat n) (VInt z :: va) = Ret (putchw q', q', va).
Proof.
  intros Hb Hn. eexists. split; [reflexivity |]. unfold put_unsigned. cbn [arg_int mbind outcome_bind].
  destruct n as [| [| [|]]]; [| | | lia]; change (Z.of_nat 0) with 0; change (Z.of_nat 1) with 1; change (Z.of_nat 2) with 2; cbn [Z.eqb Pos.eqb].
  all: unfold ulli2a, uli2a, ui2a, u32, u64;
    match goal with |- context [number ?w ?x ?y] => destruct (number_spec w x y) as [-> _] end;
    [done | lia | apply wrap_range; lia | done].
Qed.

Lemma put_signed_spec q n z va :
  base q = 10 -> (n <= 2)%nat ->
  let z' := sign_of (match n with O => 32 | _ => 64 end) z in
  exists q', q' = set_bf (if z' <? 0 then set_sign q 45 else q) (in_base 10 (uc q) (Z.abs z')) /\
    put_signed q (Z.of_nat n) (VInt z :: va) = Ret (putchw q', q', va).
Proof.
  intros Hb Hn z'. eexists. split; [reflexivity |]. unfold put_signed. cbn [arg_int mbind outcome_bind].
  assert (Sg : forall w, 0 < w -> - 2 ^ (w - 1) <= sign_of w z < 2 ^ (w - 1)).
  { intros w Hw. pose proof (wrap_range w z ltac:(lia)) as R. unfold in_range, sign_of in *.
    assert (2 ^ w = 2 * 2 ^ (w - 1)) by (rewrite <- Z.pow_succ_r by lia; f_equal; lia). case_decide; lia. }
  subst z'. destruct n as [| [| [|]]]; [| | | lia]; change (Z.of_nat 0) with 0; change (Z.of_nat 1) with 1; change (Z.of_nat 2) with 2; cbn [Z.eqb Pos.eqb];
    unfold lli2a, li2a, i2a, ulli2a, uli2a, ui2a, u32, u64;
    match goal with |- context [sign_of ?w z] => pose proof (Sg w ltac:(lia)) as B end;
    destruct (sign_of _ z <? 0) eqn:G; (apply Z.ltb_lt in G || apply Z.ltb_ge in G); simpl in B;
    rewrite ?wrap_small, ?Z.abs_neq, ?Z.abs_eq by (unfold in_range; lia);
    (match goal with |- context [number ?w ?x ?q'] => destruct (number_spec w x q') as [-> _] end;
    [simpl; lia | lia | unfold in_range; lia | simpl; by rewrite ?Hb]).
Qed.

Lemma sign_range w z : 0 < w <= 64 -> in_range 64 (Z.abs (sign_of w z)).
Proof.
  intros Hw. pose proof (wrap_range w z ltac:(lia)) as R. unfold in_range, sign_of in *.
  assert (2 ^ w = 2 * 2 ^ (w - 1)) by (rewrite <- Z.pow_succ_r by lia; f_equal; lia).
  assert (2 ^ (w - 1) <= 2 ^ 63) by (apply Z.pow_le_mono_r; lia). case_decide; lia.
Qed.

Lemma wrap_range64 f z : in_range 64 (wrap (bits f) z).
Proof. unfold bits. destruct (f_long f); [apply range32 |]; apply wrap_range; lia. Qed.

(** A number in the base of its conversion, as a field. *)
Lemma convert_unsigned f q n z va :
  field_fits f -> lz q = f_zero f -> align_left q = f_left f -> width q = f_width f -> sign q = 0 ->
  2 <= base q -> (n <= 2)%nat ->
  exists q', put_unsigned q (Z.of_nat n) (VInt z :: va) =
    Ret (pad f [] (if alt q && (base q =? 16) then [48; if uc q then 88 else 120]
                   else if alt q && (base q =? 8) then [48] else [])
             (in_base (base q) (uc q) (wrap (match n with O => 32 | _ => 64 end) z)), q', va).
Proof.
  intros Hf E1 E2 E3 E4 Hb Hn. destruct (put_unsigned_spec q n z va Hb Hn) as (? & -> & Q).
  eexists. rewrite Q, (putchw_pad f) by done. cbn [sign set_bf]. rewrite E4. reflexivity.
Qed.

(** An octal number shows 32 bits, whatever its length. *)
Lemma convert_octal f p z va : field_fits f ->
  exists p', convert (params f p) (Z.of_nat (f_long f)) 111 (VInt z :: va) =
    Ret (pad f [] (if f_alt f then [48] else []) (in_base 8 false (u32 z)), p', va).
Proof.
  intros Hf. unfold convert. destruct (number_spec 32 (u32 z) (set_base (params f p) 8 (uc (params f p)))) as [N _];
    [done | lia | apply wrap_range; lia |].
  eexists. cbn [Z.eqb Pos.eqb orb arg_int mbind outcome_bind]. unfold ui2a. rewrite N. cbn [mbind outcome_bind].
  rewrite (putchw_pad f) by done. cbn [sign alt base bf uc set_bf set_base Z.eqb Pos.eqb params].
  rewrite andb_true_r, andb_false_r. f_equal. f_equal. f_equal. f_equal.
  by apply in_base_small; [lia | apply range32, wrap_range].
Qed.

(** A string with '#' gets the prefix of the base that the last number left. *)
Definition left_prefix (f : field) (p : param) : list Z :=
  if f_alt f && (base p =? 16) then [48; if uc p then 88 else 120] else if f_alt f && (base p =? 8) then [48] else [].

Lemma convert_string f p str va : field_fits f ->
  exists p', convert (params f p) (Z.of_nat (f_long f)) 115 (VStr str :: va) = Ret (pad f [] (left_prefix f p) str, p', va).
Proof.
  intros Hf. unfold convert. eexists. cbn [Z.eqb Pos.eqb orb arg_str mbind outcome_bind].
  rewrite (putchw_pad f) by done. cbn [sign alt base bf uc set_bf set_base Z.eqb Pos.eqb params]. reflexivity.
Qed.

Lemma convert_spec f p va out va' :
  field_ok f -> show_field f va = Some (out, va') ->
  exists p', convert (params f p) (Z.of_nat (f_long f)) (conv_char (f_conv f)) va = Ret (out, p', va').
Proof.
  intros [Hf [Ha Ho]] E. pose proof Hf as (_ & Hl). unfold show_field in E.
  destruct (f_conv f) as [| | u | | | | |]; cbn [conv_char]; (destruct va as [| [z | s] va]; try discriminate E);
    simplify_eq; unfold convert; try (eexists; reflexivity).
  - destruct (convert_unsigned f (set_base (params f p) 10 (uc (params f p))) (f_long f) z va') as (q & Q); try done.
    exists q. cbn [Z.eqb Pos.eqb]. rewrite Q. cbn [base set_base Z.eqb Pos.eqb]. rewrite !andb_false_r.
    by rewrite in_base_small by (lia || apply wrap_range64).
  - destruct (put_signed_spec (set_base (params f p) 10 (uc (params f p))) (f_long f) z va') as (? & -> & Q); [done | done |].
    eexists. cbn [Z.eqb Pos.eqb orb]. rewrite Q. fold (bits f).
    match goal with |- Ret (?x, _, _) = Ret (?y, _, _) => assert (x = y) as ->; [| reflexivity] end.
    rewrite (putchw_pad f) by (by destruct (_ <? 0)). rewrite in_base_small by (lia || (apply sign_range; unfold bits; destruct (f_long f); lia)).
    destruct (sign_of (bits f) z <? 0); cbn [sign alt base bf set_bf set_sign set_base Z.eqb Pos.eqb params]; by rewrite !andb_false_r.
  - destruct (convert_unsigned f (set_base (params f p) 16 u) (f_long f) z va') as (q & Q); try done.
    exists q. destruct u; cbn [Z.eqb Pos.eqb orb]; rewrite Q; cbn [alt base uc set_base Z.eqb Pos.eqb params];
      by rewrite andb_true_r, andb_false_r.
  - destruct (convert_unsigned f (set_base (set_alt (params f p)) 16 false) 1 z va') as (q & Q); try done; [lia |].
    exists q. cbn [Z.eqb Pos.eqb orb]. exact Q.
  - destruct (convert_octal f p z va' Hf) as (q & Q). exists q. unfold convert in Q. cbn [Z.eqb Pos.eqb orb] in *. rewrite Q.
    unfold bits. by rewrite Ho.
  - destruct (convert_string f p s va' Hf) as (q & Q). exists q. unfold convert in Q. cbn [Z.eqb Pos.eqb orb] in *. rewrite Q.
    unfold left_prefix. by rewrite Ha.
Qed.

(** A format made of pieces prints the fields. *)
Lemma tfp_loop_show ps : forall n p va out,
  Forall piece_ok ps -> show ps va = Some out -> (length (concat (map write_piece ps)) <= n)%nat ->
  tfp_loop n p (concat (map write_piece ps)) va = Ret out.
Proof.
  induction ps as [| x ps IH]; intros n p va out F E L; [destruct n; simpl in *; congruence |].
  apply Forall_cons in F as [Hx F]. destruct x as [c | f].
  - cbn [show] in E. apply bind_Some in E as (l & E & [= <-]). destruct Hx as [Hc _].
    cbn in L. destruct n as [| n]; [lia |]. cbn. rewrite (proj2 (Z.eqb_neq c 37)) by done. simpl.
    rewrite (IH n p va l); [done | done | done | lia].
  - cbn [show] in E. apply bind_Some in E as ([o va'] & E & E'). apply bind_Some in E' as (l & E' & [= <-]).
    cbn [map concat write_piece app] in *. simpl in L. destruct n as [| n]; [lia |]. cbn [tfp_loop Z.eqb Pos.eqb negb].
    rewrite directive_spec by apply Hx. destruct (convert_spec f p va o va' Hx E) as (p' & C).
    rewrite (proj2 (Z.eqb_neq (conv_char _) 0)) by (by destruct (f_conv f) as [| | [] | | | | |]).
    rewrite C. cbn [mbind outcome_bind]. rewrite length_app in L. rewrite (IH n p' va' l); [done | done | done | lia].
Qed.

(** A format of one directive. *)
Lemma format_field f p va out p' : field_fits f ->
  convert (params f p) (Z.of_nat (f_long f)) (conv_char (f_conv f)) va = Ret (out, p', []) ->
  tfp_format p (write_piece (Field f)) va = Ret out.
Proof.
  intros Hf C. unfold tfp_format. cbn [write_piece length tfp_loop Z.eqb Pos.eqb negb].
  pose proof (directive_spec p f [] Hf) as D. rewrite app_nil_r in D. rewrite D.
  rewrite (proj2 (Z.eqb_neq (conv_char _) 0)) by (by destruct (f_conv f) as [| | [] | | | | |]).
  rewrite C. cbn [mbind outcome_bind]. destruct (length (write_field f)); cbn [tfp_loop mbind outcome_bind]; by rewrite app_nil_r.
Qed.

(** A width that is no int is taken as none. *)
Lemma putchw_wide q : 2 ^ 31 <= width q < 2 ^ 32 -> putchw q = putchw (set_width q 0).
Proof.
  intros H. unfold putchw. cbn [width set_width bf sign alt base lz align_left uc].
  assert (sign_of 32 (width q) = width q - 2 ^ 32) as ->.
  { unfold sign_of. rewrite wrap_small by (unfold in_range; lia). by rewrite decide_False by (simpl; lia). }
  change (sign_of 32 0) with 0. pose proof (zlen_nonneg (bf q)).
  assert (forall a b c, a <= 0 -> b <= 0 -> fill a c = fill b c) as F by (intros; unfold fill; by rewrite !Z2Nat.nonpos by lia).
  destruct (negb (sign q =? 0)), (alt q && (base q =? 16)), (alt q && (base q =? 8)), (lz q), (align_left q); cbn [negb andb app];
    repeat (f_equal; try (apply F; lia)).
Qed.

(** ** Any format *)

Lemma flags_length fmt : forall p, (length (flags p fmt).2 <= length fmt)%nat.
Proof. induction fmt as [| c r IH]; intros p; simpl; [done |]. repeat case_match; simpl; try (etrans; [apply IH | lia]); lia. Qed.

Lemma a2u_length src : forall ch b v, (length (a2u ch src b v).1.2 <= length src)%nat.
Proof. induction src as [| c r IH]; intros ch b v; cbn [a2u]; case_match; simpl; try lia. etrans; [apply IH | lia]. Qed.

Lemma skip_digits_length fmt : (length (skip_digits fmt).2 <= length fmt)%nat.
Proof. induction fmt as [| c r IH]; simpl; [done |]. case_match; simpl; lia. Qed.

Lemma next_length fmt : (length (next fmt).2 <= length fmt)%nat.
Proof. destruct fmt; simpl; lia. Qed.

Lemma directive_length p fmt : (length (directive p fmt).2 <= length fmt)%nat.
Proof.
  unfold directive. destruct (flags _ fmt) as [[ch q] r] eqn:E1.
  pose proof (flags_length fmt (mkParam false false (uc p) false 0 0 (base p) (bf p))) as L1. rewrite E1 in L1. simpl in L1.
  assert (forall c s q', (length s <= length fmt)%nat -> (length (after_width c s q').2 <= length fmt)%nat) as A.
  { intros c s q' L. unfold after_width. pose proof (skip_digits_length s) as K. destruct (skip_digits s) as [c' s']. simpl in K.
    destruct (c =? 46); pose proof (next_length s) as N; pose proof (next_length s') as N'.
    - destruct (c' =? 108); simpl; [| lia]. destruct (next s') as [c2 s2]. simpl in N'. pose proof (next_length s2) as N2.
      destruct (c2 =? 108); simpl; [| lia]. destruct (next s2) as [c3 s3]. simpl in *. lia.
    - destruct (c =? 108); simpl; [| lia]. destruct (next s) as [c2 s2]. simpl in N. pose proof (next_length s2) as N2.
      destruct (c2 =? 108); simpl; [| lia]. destruct (next s2) as [c3 s3]. simpl in *. lia. }
  destruct ((48 <=? ch) && (ch <=? 57)).
  - pose proof (a2u_length r ch 10 0) as L2. destruct (a2u ch r 10 0) as [[c s] w]. simpl in L2. apply (A c s). lia.
  - by apply (A ch r).
Qed.

Definition no_arg {A} : outcome A := Fatal "va_arg".

(** A conversion returns, unless its argument is missing. *)
Lemma convert_total p n ch va : 0 <= n <= 2 -> (exists r, convert p n ch va = Ret r) \/ convert p n ch va = no_arg.
Proof.
  intros Hn.
  assert (U : forall q k, 0 <= k <= 2 -> 2 <= base q -> (exists r, put_unsigned q k va = Ret r) \/ put_unsigned q k va = no_arg).
  { intros q k Hk Hb. destruct va as [| [z | s] va]; [by right | | by right].
    destruct (put_unsigned_spec q (Z.to_nat k) z va Hb) as (q' & _ & E); [lia |].
    rewrite Z2Nat.id in E by lia. left. eauto. }
  assert (D : forall q, base q = 10 -> (exists r, put_signed q n va = Ret r) \/ put_signed q n va = no_arg).
  { intros q Hb. destruct va as [| [z | s] va]; [by right | | by right].
    destruct (put_signed_spec q (Z.to_nat n) z va Hb) as (q' & _ & E); [lia |].
    rewrite Z2Nat.id in E by lia. left. eauto. }
  unfold convert. repeat (destruct (_ =? _) || destruct (_ || _)); try (by apply U); try (by apply D); try (by left; eauto).
  all: destruct va as [| [z | s] va]; cbn [arg_int arg_str mbind outcome_bind]; try (by right); try (by left; eauto).
  all: destruct (number_spec 32 (u32 z) (set_base p 8 (uc p))) as [N _]; [done | lia | apply wrap_range; lia |];
    unfold ui2a; rewrite N; left; eexists; reflexivity.
Qed.

Lemma directive_long p fmt : 0 <= (directive p fmt).1.1.2 <= 2.
Proof.
  unfold directive. destruct (flags _ fmt) as [[ch q] r]. repeat case_match; simplify_eq; simpl; lia.
Qed.

Lemma tfp_loop_total n : forall p fmt va, (length fmt <= n)%nat ->
  (exists l, tfp_loop n p fmt va = Ret l) \/ tfp_loop n p fmt va = no_arg.
Proof.
  induction n as [| n IH]; intros p fmt va L; (destruct fmt as [| ch fmt]; [left; eexists; by destruct n || reflexivity |]); [simpl in L; lia |].
  simpl in L. cbn [tfp_loop]. destruct (ch =? 37); cbn [negb].
  - pose proof (directive_length p fmt) as K. pose proof (directive_long p fmt) as G.
    destruct (directive p fmt) as [[[c lng] q] r]. simpl in K, G. destruct (c =? 0); [left; eauto |].
    destruct (convert_total q lng c va G) as [[[[o q'] va'] ->] | ->]; [| by right]. cbn [mbind outcome_bind].
    destruct (IH q' r va') as [[l ->] | ->]; [lia | left; eauto | by right].
  - destruct (IH p fmt va) as [[l ->] | ->]; [lia | left; eauto | by right].
Qed.

(** ** Writing into a buffer *)

(** The characters, from the count [i] on, that are put below the limit. *)
Fixpoint kept (limit i : Z) (l : list Z) : list Z :=
  match l with
  | [] => []
  | c :: l => if u64 i <? limit then c :: kept limit (incr i) l else kept limit (incr i) l
  end.

(** The characters that reach the buffer. *)
Definition reach (o : cp_opt) (i : Z) (l : list Z) : list Z :=
  if max_len_enabled o then kept (max_len o - 1) i l else l.

Definition written (m m' : ram) (s : Z) (bs : list Z) : Prop :=
  holds m' s bs /\ forall a, ~ (s <= a < s + zlen bs) -> m' a = m a.

Lemma put_from_spec l : forall o i, (max_len_enabled o = true -> 0 < max_len o) ->
  let o' := put_from o i l in
  buf o' = buf o + zlen (reach o i l) /\ written (mem o) (mem o') (buf o) (reach o i l).
Proof.
  induction l as [| c l IH]; intros o i Hm.
  - unfold reach. assert ((if max_len_enabled o then kept (max_len o - 1) i [] else []) = []) as -> by (by destruct (max_len_enabled o)).
    split; [unfold zlen; simpl; lia |]. split; [by intros k b |]. done.
  - cbn [put_from]. assert (putcp o c (u64 i) = o /\ reach o i (c :: l) = reach o (incr i) l \/
      putcp o c (u64 i) = mkOpt (buf o + 1) (fun a => if decide (a = buf o) then c else mem o a) (max_len o) (max_len_enabled o) /\
      reach o i (c :: l) = c :: reach o (incr i) l) as [[-> ->] | [-> ->]].
    { unfold reach, putcp. cbn [kept]. destruct (max_len_enabled o) eqn:En; [| by right]. specialize (Hm eq_refl).
      rewrite (proj2 (Z.eqb_neq _ _)) by lia. cbn [andb negb orb]. destruct (u64 i <? max_len o - 1); [by right | by left]. }
    + by apply IH.
    + destruct (IH (mkOpt (buf o + 1) (fun a => if decide (a = buf o) then c else mem o a) (max_len o) (max_len_enabled o)) (incr i) Hm)
        as (B & H & K). unfold reach in *. cbn [buf mem max_len max_len_enabled] in *. rewrite B.
      split; [unfold zlen; simpl; lia |]. split.
      * apply holds_cons. split; [| done]. rewrite K by lia. by rewrite decide_True.
      * intros a Ha. unfold zlen in *. simpl in Ha. rewrite K by lia. by rewrite decide_False by lia.
Qed.

(** As long as the count does not overflow, the first characters are kept. *)
Lemma kept_take limit l : forall i, 0 <= i -> i + zlen l <= 2 ^ 31 -> kept limit i l = take (Z.to_nat (limit - i)) l.
Proof.
  induction l as [| c l IH]; intros i Hi Hl; cbn [kept]; [by rewrite take_nil |].
  unfold zlen in Hl. cbn [length] in Hl. unfold u64. rewrite wrap_small by (unfold in_range; lia).
  assert (Hn : kept limit (incr i) l = take (Z.to_nat (limit - (i + 1))) l).
  { destruct l as [| d l]; [by rewrite take_nil |]. cbn [length] in Hl. unfold incr. rewrite sign_of_small by lia.
    apply IH; [lia | unfold zlen; cbn [length]; lia]. }
  rewrite Hn. destruct (Z.ltb_spec i limit).
  - replace (Z.to_nat (limit - i)) with (S (Z.to_nat (limit - (i + 1)))) by lia. done.
  - by replace (Z.to_nat (limit - (i + 1))) with 0%nat by lia; replace (Z.to_nat (limit - i)) with 0%nat by lia.
Qed.

Lemma kept_app limit l1 : forall i l2, sign_of 32 i = i -> kept limit i (l1 ++ l2) = kept limit i l1 ++ kept limit (sign_of 32 (i + zlen l1)) l2.
Proof.
  assert (W : forall x y, sign_of 32 (sign_of 32 x + y) = sign_of 32 (x + y)).
  { assert (forall u v, wrap 32 u = wrap 32 v -> sign_of 32 u = sign_of 32 v) as S by (unfold sign_of; by intros u v ->).
    intros x y. apply S. unfold sign_of, wrap. case_decide.
    - by rewrite Z.add_mod_idemp_l.
    - replace (x mod 2 ^ 32 - 2 ^ 32 + y) with (x mod 2 ^ 32 + y + -1 * 2 ^ 32) by lia.
      by rewrite Z.mod_add, Z.add_mod_idemp_l by done. }
  induction l1 as [| c l1 IH]; intros i l2 Hi; [cbn; by rewrite Z.add_0_r, Hi |].
  cbn [app kept]. assert (sign_of 32 (incr i) = incr i) as Hn.
  { pose proof (W (i + 1) 0) as E0. rewrite !Z.add_0_r in E0. exact E0. }
  assert (sign_of 32 (incr i + zlen l1) = sign_of 32 (i + zlen (c :: l1))) as Hs.
  { unfold incr. rewrite W. f_equal. unfold zlen. cbn [length]. lia. }
  rewrite (IH (incr i) l2 Hn), Hs. by destruct (u64 i <? limit).
Qed.

(** A text of more than 2^32 characters is put from the start again. *)
Lemma kept_again limit l (a b : nat) : Z.of_nat a = 2 ^ 31 -> Z.of_nat b = 2 ^ 32 ->
  1 <= limit <= 2 ^ 31 -> 2 ^ 32 < zlen l -> limit < zlen (kept limit 0 l).
Proof.
  intros Ea Eb Hl Hz. unfold zlen in Hz. rewrite <- (take_drop b l), kept_app by reflexivity.
  assert (zlen (take b l) = 2 ^ 32) as -> by (unfold zlen; rewrite length_take; lia).
  change (sign_of 32 (0 + 2 ^ 32)) with 0. rewrite zlen_app.
  assert (limit <= zlen (kept limit 0 (take b l))) as L1.
  { rewrite <- (take_drop a (take b l)), take_take, Nat.min_l by lia. rewrite kept_app, zlen_app by reflexivity.
    rewrite (kept_take limit (take a l)) by (unfold zlen; rewrite ?length_take; lia).
    unfold zlen in *. rewrite !length_take. lia. }
  assert (1 <= zlen (kept limit 0 (drop b l))) as L2; [| lia].
  pose proof (length_drop l b) as D. destruct (drop b l) as [| c r]; [cbn in D; lia |].
  cbn [kept]. change (u64 0) with 0. rewrite (proj2 (Z.ltb_lt _ _)) by lia. unfold zlen. cbn [length]. lia.
Qed.

Lemma kept_over limit l : 1 <= limit <= 2 ^ 31 -> 2 ^ 32 < zlen l -> limit < zlen (kept limit 0 l).
Proof. apply (kept_again limit l (Z.to_nat (2 ^ 31)) (Z.to_nat (2 ^ 32))); by apply Z2Nat.id. Qed.

(** The final zero. *)
Lemma put_zero m m' s l n e :
  written m m' s l -> let o := putcp (mkOpt (s + zlen l) m' n e) 0 0 in e = false -> written m (mem o) s (l ++ [0]).
Proof.
  intros [H K] o He. subst o e. unfold putcp. cbn [max_len_enabled andb negb orb mem buf]. split.
  - apply holds_app. split.
    + intros i b Hi. apply lookup_lt_Some in Hi as Hl. rewrite decide_False by (unfold zlen; lia). by apply H.
    + apply holds_cons. split; [by rewrite decide_True | by intros i b].
  - intros a Ha. rewrite zlen_app in Ha. change (zlen [0]) with 1 in Ha. pose proof (zlen_nonneg l).
    rewrite decide_False by lia. apply K. lia.
Qed.

Lemma put_from_mode l : forall o i, max_len_enabled (put_from o i l) = max_len_enabled o.
Proof. induction l as [| c l IH]; intros o i; [done |]. cbn [put_from]. rewrite IH. unfold putcp. by repeat case_match. Qed.

Lemma put_nothing l : forall o i, max_len_enabled o = true -> max_len o = 0 -> put_from o i l = o.
Proof.
  induction l as [| c l IH]; intros o i En Em; [done |]. cbn [put_from].
  replace (putcp o c (u64 i)) with o; [by apply IH |]. unfold putcp. by rewrite En, Em.
Qed.


Definition sample_pieces : list piece :=
  [Lit 91; Field (mkField false false false 5 0 CSigned); Lit 32; Field (mkField true false true 12 2 (CHex true));
   Lit 124; Field (mkField false true false 4 0 CUnsigned); Field (mkField true false false 4 0 CString);
   Field (mkField false false false 0 0 CPercent); Lit 93].
Definition sample_args : list varg := [VInt (-42); VInt 0xDEADBEEF; VInt 7; VStr (str "ok")].


(** C36. sprintf writes the whole text and a zero, and nothing else.  snprintf writes the characters that it
    counts below its limit and a zero, and nothing for [n] = 0.  For a text of at most 2^31 - 1 characters it never writes
    outside the [n] bytes of its buffer, it writes
    as much of the text as there is room for before the final zero, and both functions return the length of the
    whole text.  The count is an int: a text of 2^31 characters or more has another length than the one that is returned, and one of
    more than 2^32 characters is put from the start again and overruns a buffer of 2 to 2^31 bytes. *)
Theorem tfp_vsnprintf_bounded p m s n fmt va l :
  0 <= n -> tfp_format p fmt va = Ret l ->
  (exists m', tfp_vsprintf p m s fmt va = Ret (sign_of 32 (zlen l), m') /\ written m m' s (l ++ [0])) /\
  (exists m', tfp_vsnprintf p m s n fmt va = Ret (sign_of 32 (zlen l), m') /\
     written m m' s (if decide (0 < n) then kept (n - 1) 0 l ++ [0] else []) /\
     (zlen l < 2 ^ 31 -> (forall a, ~ (s <= a < s + n) -> m' a = m a) /\ (0 < n -> written m m' s (take (Z.to_nat (n - 1)) l ++ [0])))) /\
  (zlen l < 2 ^ 31 -> sign_of 32 (zlen l) = zlen l) /\
  (2 ^ 31 <= zlen l -> sign_of 32 (zlen l) <> zlen l) /\
  (2 ^ 32 < zlen l -> 2 <= n <= 2 ^ 31 -> n < zlen (kept (n - 1) 0 l ++ [0])).
Proof.
  intros Hn E. unfold tfp_vsprintf, tfp_vsnprintf. rewrite E. cbn [mbind outcome_bind]. pose proof (zlen_nonneg l). split_and!.
  - eexists. split; [reflexivity |].
    destruct (put_from_spec l (mkOpt s m 0 false) 0) as [B W]; [done |]. unfold reach in *.
    cbn [buf mem max_len_enabled] in *. pose proof (put_zero _ _ _ _ 0 false W eq_refl) as Z0.
    destruct (put_from _ 0 l) as [bu me ml en] eqn:P. cbn [buf mem] in *. rewrite B in *.
    assert (en = false) as -> by (change en with (max_len_enabled (mkOpt (s + zlen l) me ml en)); rewrite <- P; apply put_from_mode).
    exact Z0.
  - eexists. split; [reflexivity |]. case_decide as Hp.
    + destruct (put_from_spec l (mkOpt s m n true) 0) as [B W]; [intros _; simpl; lia |]. unfold reach in *.
      cbn [buf mem max_len_enabled max_len] in *.
      pose proof (put_zero _ _ _ _ n false W eq_refl) as Z0. rewrite <- B in Z0.
      rewrite (proj2 (Z.gtb_lt _ _)) by lia. split; [exact Z0 |]. intros Hl.
      rewrite kept_take, Z.sub_0_r in Z0 by lia. split; [| intros _; exact Z0].
      intros a Ha. apply Z0. rewrite zlen_app. change (zlen [0]) with 1.
      assert (zlen (take (Z.to_nat (n - 1)) l) <= n - 1) by (unfold zlen; rewrite length_take; lia). lia.
    + replace n with 0 by lia. rewrite put_nothing by done. split; [split; [by intros k b | done] |]. intros _. split; [done | lia].
  - intros Hl. apply sign_of_small; lia.
  - intros Hl Eq. pose proof (wrap_range 32 (zlen l) ltac:(lia)) as R. unfold sign_of, in_range in *. case_decide; simpl in *; lia.
  - intros Hl H2. rewrite zlen_app. change (zlen [0]) with 1. pose proof (kept_over (n - 1) l ltac:(lia) Hl). lia.
Qed.

Lemma tfp_vsnprintf_bounded_witness :
  exists m', tfp_vsnprintf p0 (fun _ => 170) 1000 4 (str "%d") [VInt (-12345)] = Ret (6, m') /\
    map m' [999; 1000; 1001; 1002; 1003; 1004] = [170; 45; 49; 50; 0; 170].
Proof.
  destruct (tfp_vsnprintf_bounded p0 (fun _ => 170) 1000 4 (str "%d") [VInt (-12345)] (str "-12345"))
    as [_ [(m' & E & _ & K) _]]; [lia | vm_compute; reflexivity |]. destruct (K ltac:(vm_compute; reflexivity)) as [O W].
  exists m'. split; [exact E |]. destruct (W ltac:(lia)) as [H _].
  cbn [map]. rewrite (O 999), (O 1004) by lia.
  rewrite (H 0%nat 45 eq_refl : m' 1000 = 45), (H 1%nat 49 eq_refl : m' 1001 = 49).
  rewrite (H 2%nat 50 eq_refl : m' 1002 = 50), (H 3%nat 0 eq_refl : m' 1003 = 0). reflexivity.
Defined.

End Printf.
