(* ===== verification/Console.v ===== *)
(** * kernel/logger.h, .cc, fileio.h, .cc, libc_calls.cc: the console

    The text screen at 0xb8000 with its copy in memory, the logger that writes to the
    screen and to the serial port under their locks, and the C files and functions that
    write through it.  The screen refines a terminal that is a list of lines: it always
    shows the last 25 of them. *)

From S2P Require Import Prelude Utils Natives Io.

Module LogWriterVideo.
Import IoPortsX64.

(** kernel/logger.h:30-35, LogDataType. *)
Inductive LogDataType : Type := DEFAULT | DBG | ERR | SNAPSHOT.

(** kernel/logger.h:70-73, LogWriterVideo constants. *)
Definition kWidth : Z := 80.
Definition kHeight : Z := 25.
Definition kClearColor : Z := 0x0F.
Definition kVideo : Z := 0xb8000.

(** kernel/logger.h:75-78, LogWriterVideo members, with the memory that holds the screen;
    [display_buf_] is the content of the array by offset. *)
Record t : Type := mk {
  display_buf_ : ram; memory : ram; attribute_ : Z; cursor_x_ : Z; cursor_y_ : Z }.

(** kernel/utils.h:113-119, Utils::Memset16. *)
Definition Memset16 (m : ram) (dst val : Z) (n : nat) : ram :=
  store_bytes m dst (concat (replicate n [Z.land val 0xff; Z.land (Z.shiftr val 8) 0xff])).

(** [memcpy] and [memmove] of [n] bytes at [p] of memory [src]. *)
Definition memcpy (m : ram) (dst : Z) (src : ram) (p n : Z) : ram := fun a =>
  if decide (dst <= a < dst + n) then src (p + (a - dst)) else m a.

(** kernel/logger.cc:42-42, the blank cell. *)
Definition blank16 : Z := Z.lor 0x20 (Z.shiftl kClearColor 8).

Section New.
Context {S : Type} `{Ports S}.

(** kernel/logger.cc:31-46, LogWriterVideo::LogWriterVideo. *)
Definition new (s : S) (m : ram) : S * t :=
  (OutB 0x3d5 0xff (OutB 0x3d4 0x0f (OutB 0x3d5 0xff (OutB 0x3d4 0x0e s))),
   mk (Memset16 (fun _ => 0) 0 blank16 (Z.to_nat (kWidth * kHeight)))
      (Memset16 m kVideo blank16 (Z.to_nat (kWidth * kHeight))) 0x0F 0 0).

End New.

(** kernel/logger.cc:79-89, LogWriterVideo::NewLine. *)
Definition NewLine (s : t) : t :=
  let cursor_y := u32 (cursor_y_ s + 1) in
  if cursor_y >=? kHeight then
    let buf := memcpy (display_buf_ s) 0 (display_buf_ s) (kWidth * 2) (kWidth * (kHeight - 1) * 2) in
    let buf := Memset16 buf (kWidth * (kHeight - 1) * 2) blank16 (Z.to_nat kWidth) in
    mk buf (memcpy (memory s) kVideo buf 0 (kWidth * kHeight * 2)) (attribute_ s) 0 (cursor_y - 1)
  else mk (display_buf_ s) (memory s) (attribute_ s) 0 cursor_y.

(** kernel/logger.cc:91-97, LogWriterVideo::PutChar.  An index outside the array would
    write over the members that follow it. *)
Definition PutChar (s : t) (c color x y : Z) : outcome t :=
  let i := u32 ((y * kWidth + x) * 2) in
  _ ← rt_assert (i + 1 <? kWidth * kHeight * 2) "display_buf_ index";
  Ret (mk (store_bytes (display_buf_ s) i [c; color]) (store_bytes (memory s) (kVideo + i) [c; color])
    (attribute_ s) (cursor_x_ s) (cursor_y_ s)).

(** kernel/logger.cc:49-60, WriteChar: the attribute of a message. *)
Definition attribute (type : LogDataType) (attr : Z) : Z :=
  match type with DBG => 0x0A | ERR => 0x4F | DEFAULT => 0x0F | SNAPSHOT => attr end.

(** kernel/logger.cc:48-77, LogWriterVideo::WriteChar. *)
Definition WriteChar (s : t) (type : LogDataType) (c : Z) : outcome t :=
  let s := mk (display_buf_ s) (memory s) (attribute type (attribute_ s)) (cursor_x_ s) (cursor_y_ s) in
  s ← (if c =? 10 then Ret (NewLine s)
       else if c =? 9 then Ret (mk (display_buf_ s) (memory s) (attribute_ s) (u32 (cursor_x_ s + 4)) (cursor_y_ s))
       else
         let x := cursor_x_ s in
         PutChar (mk (display_buf_ s) (memory s) (attribute_ s) (u32 (x + 1)) (cursor_y_ s)) c (attribute_ s) x (cursor_y_ s));
  Ret (if cursor_x_ s >=? kWidth then NewLine s else s).

Fixpoint WriteAll (s : t) (text : list (LogDataType * Z)) : outcome t :=
  match text with
  | [] => Ret s
  | (ty, c) :: text' => s' ← WriteChar s ty c; WriteAll s' text'
  end.

(** ** The specification: a terminal

    The lines written so far, the last one being written; a cell is a character and its
    colour.  A line takes 80 cells; a tabulator moves four cells. *)
Definition cell : Type := Z * Z.
Definition blank : cell := (0x20, kClearColor).
Record terminal : Type := mkTerm { past : list (list cell); line : list cell; colour : Z }.

Definition fit (l : terminal) : terminal :=
  if 80 <=? Z.of_nat (length (line l)) then mkTerm (past l ++ [line l]) [] (colour l) else l.

Definition type_char (l : terminal) (type : LogDataType) (c : Z) : terminal :=
  let a := attribute type (colour l) in
  fit (if c =? 10 then mkTerm (past l ++ [line l]) [] a
       else if c =? 9 then mkTerm (past l) (line l ++ replicate 4 blank) a
       else mkTerm (past l) (line l ++ [(c, a)]) a).

Definition type_all (l : terminal) (text : list (LogDataType * Z)) : terminal :=
  fold_left (fun l '(ty, c) => type_char l ty c) text l.

(** Cell [x] of line [r]; there are blanks where nothing was written. *)
Definition cell_of (l : terminal) (r x : Z) : cell :=
  default blank ((past l ++ [line l]) !! Z.to_nat r ≫= fun row => row !! Z.to_nat x).

(** The first line that is on the screen. *)
Definition first_line (l : terminal) : Z := Z.max 0 (Z.of_nat (length (past l)) - 24).

(** Cell [x] of row [y] of a screen at address [p]. *)
Definition cell_at (m : ram) (p y x : Z) : cell := (m (p + (y * 80 + x) * 2), m (p + (y * 80 + x) * 2 + 1)).

Definition on_screen (y x : Z) : Prop := 0 <= y < 25 /\ 0 <= x < 80.

(** The array and the screen show the last lines of the terminal, and the rest of the
    memory is that of [m0]. *)
Record shows (m0 : ram) (s : t) (l : terminal) : Prop := {
  sh_y : cursor_y_ s = Z.of_nat (length (past l)) - first_line l;
  sh_buf : forall y x, on_screen y x -> cell_at (display_buf_ s) 0 y x = cell_of l (first_line l + y) x;
  sh_video : forall y x, on_screen y x -> cell_at (memory s) kVideo y x = cell_of l (first_line l + y) x;
  sh_rest : forall a, a < kVideo \/ kVideo + 4000 <= a -> memory s a = m0 a;
  sh_attr : attribute_ s = colour l }.

(** ** Memory operations, cell by cell *)

Lemma pairs_lookup (a b : Z) n : forall k, (k < n)%nat ->
  concat (replicate n [a; b]) !! (2 * k)%nat = Some a /\ concat (replicate n [a; b]) !! (2 * k + 1)%nat = Some b.
Proof.
  induction n as [| n IH]; intros k Hk; [lia |]. destruct k as [| k]; [done |].
  replace (2 * S k)%nat with (S (S (2 * k))) by lia. apply IH. lia.
Qed.

Lemma pairs_length (a b : Z) n : length (concat (replicate n [a; b])) = (2 * n)%nat.
Proof. induction n as [| n IH]; [done |]. cbn [replicate concat app length]. lia. Qed.

Lemma Memset16_cell m dst n k :
  0 <= k < Z.of_nat n ->
  (Memset16 m dst blank16 n (dst + k * 2), Memset16 m dst blank16 n (dst + k * 2 + 1)) = blank.
Proof.
  intros Hk. unfold Memset16.
  destruct (pairs_lookup (Z.land blank16 0xff) (Z.land (Z.shiftr blank16 8) 0xff) n (Z.to_nat k)) as [E1 E2]; [lia |].
  apply (store_bytes_in m dst) in E1, E2.
  replace (dst + Z.of_nat (2 * Z.to_nat k)) with (dst + k * 2) in E1 by lia.
  replace (dst + Z.of_nat (2 * Z.to_nat k + 1)) with (dst + k * 2 + 1) in E2 by lia.
  rewrite E1, E2. done.
Qed.

Lemma Memset16_out m dst v n a :
  a < dst \/ dst + 2 * Z.of_nat n <= a -> Memset16 m dst v n a = m a.
Proof. intros Ha. unfold Memset16. apply store_bytes_out. rewrite pairs_length. lia. Qed.

Lemma cell_at_store m p y x c a y' x' :
  on_screen y x -> on_screen y' x' ->
  cell_at (store_bytes m (p + (y * 80 + x) * 2) [c; a]) p y' x' =
  if decide (y' = y /\ x' = x) then (c, a) else cell_at m p y' x'.
Proof.
  intros [Hy Hx] [Hy' Hx']. unfold cell_at. case_decide as D.
  - destruct D as [-> ->]. set (q := p + (y * 80 + x) * 2).
    pose proof (store_bytes_in m q [c; a] 0 c eq_refl) as E0. pose proof (store_bytes_in m q [c; a] 1 a eq_refl) as E1.
    change (Z.of_nat 0) with 0 in E0. change (Z.of_nat 1) with 1 in E1. rewrite Z.add_0_r in E0. by rewrite E0, E1.
  - assert (y' * 80 + x' <> y * 80 + x) by lia. rewrite !store_bytes_out by (cbn; lia). done.
Qed.

Lemma cell_of_newline l r x : cell_of (mkTerm (past l ++ [line l]) [] (colour l)) r x = cell_of l r x.
Proof.
  unfold cell_of. cbn [past line]. destruct (decide (Z.to_nat r < length (past l ++ [line l]))%nat) as [L | L].
  - by rewrite (lookup_app_l (past l ++ [line l])) by done.
  - rewrite (lookup_ge_None_2 (past l ++ [line l])) by lia. cbn.
    rewrite lookup_app_r by lia. by destruct (Z.to_nat r - _)%nat.
Qed.

Lemma cell_of_below l r x : Z.of_nat (length (past l)) < r -> cell_of l r x = blank.
Proof. intros Hr. unfold cell_of. rewrite lookup_ge_None_2; [done |]. rewrite length_app. cbn. lia. Qed.

Lemma NewLine_shows m0 s l :
  shows m0 s l -> shows m0 (NewLine s) (mkTerm (past l ++ [line l]) [] (colour l)) /\ cursor_x_ (NewLine s) = 0.
Proof.
  intros [Hy Hb Hv Hr Ha]. unfold NewLine, first_line in *. set (n := Z.of_nat (length (past l))) in *.
  unfold u32. rewrite wrap_small by (unfold in_range; lia). unfold kHeight.
  destruct (Z.geb_spec (cursor_y_ s + 1) 25) as [G | G]; (split; [| done]).
  - set (buf := Memset16 _ _ _ _).
    assert (forall y x, on_screen y x -> cell_at buf 0 y x = cell_of l (Z.max 0 (n - 24) + 1 + y) x) as Hbuf.
    { intros y x [Yy Xx]. unfold buf, cell_at, kWidth. change (80 * (25 - 1) * 2) with 3840.
      destruct (decide (y < 24)) as [L | L].
      - rewrite !Memset16_out by lia. unfold memcpy. rewrite !decide_True by lia.
        replace (Z.max 0 (n - 24) + 1 + y) with (Z.max 0 (n - 24) + (1 + y)) by lia.
        rewrite <- Hb by (split; lia). unfold cell_at. f_equal; f_equal; lia.
      - replace (0 + (y * 80 + x) * 2) with (3840 + x * 2) by lia. rewrite Memset16_cell by lia.
        symmetry. apply cell_of_below. lia. }
    assert (first_line (mkTerm (past l ++ [line l]) [] (colour l)) = Z.max 0 (n - 24) + 1) as EF.
    { unfold first_line. cbn [past]. rewrite length_app. cbn [length]. lia. }
    split; cbn [cursor_y_ display_buf_ memory attribute_ colour]; rewrite ?EF; cbn [past].
    + rewrite length_app. cbn [length]. lia.
    + intros y x O. by rewrite Hbuf, cell_of_newline by done.
    + intros y x O. rewrite cell_of_newline, <- Hbuf by done. unfold cell_at, memcpy, kWidth. destruct O.
      rewrite !decide_True by lia. f_equal; f_equal; lia.
    + intros a Hout. unfold memcpy, kWidth. rewrite decide_False by lia. by apply Hr.
    + done.
  - assert (first_line (mkTerm (past l ++ [line l]) [] (colour l)) = Z.max 0 (n - 24)) as EF.
    { unfold first_line. cbn [past]. rewrite length_app. cbn [length]. lia. }
    split; cbn [cursor_y_ display_buf_ memory attribute_ colour]; rewrite ?EF; cbn [past]; try done.
    + rewrite length_app. cbn [length]. lia.
    + intros y x O. by rewrite Hb, cell_of_newline by done.
    + intros y x O. by rewrite Hv, cell_of_newline by done.
Qed.

Lemma cell_of_append l cs co r x :
  0 <= r -> 0 <= x ->
  cell_of (mkTerm (past l) (line l ++ cs) co) r x =
  if decide (r = Z.of_nat (length (past l)) /\ Z.of_nat (length (line l)) <= x)
  then default blank (cs !! (Z.to_nat x - length (line l))%nat) else cell_of l r x.
Proof.
  intros Hr Hx. unfold cell_of. cbn [past line].
  destruct (decide (r = Z.of_nat (length (past l)))) as [-> | Hne].
  - rewrite Nat2Z.id, !list_lookup_middle by done. cbn [mbind option_bind].
    destruct (decide (Z.of_nat (length (line l)) <= x)).
    + rewrite decide_True by done. rewrite lookup_app_r by lia. done.
    + rewrite decide_False by lia. rewrite lookup_app_l by lia. done.
  - rewrite decide_False by lia. destruct (decide (Z.to_nat r < length (past l))%nat).
    + by rewrite !(lookup_app_l (past l)) by done.
    + rewrite !(lookup_app_r (past l)) by lia.
      destruct (Z.to_nat r - length (past l))%nat as [| k] eqn:E; [lia | done].
Qed.

(** A tabulator leaves the cells it passes blank. *)
Lemma cell_of_tab l co r x :
  0 <= r -> 0 <= x -> cell_of (mkTerm (past l) (line l ++ replicate 4 blank) co) r x = cell_of l r x.
Proof.
  intros Hr Hx. rewrite cell_of_append by done. case_decide as D; [| done]. destruct D as [-> Dx].
  unfold cell_of. rewrite Nat2Z.id, list_lookup_middle by done. cbn [mbind option_bind].
  rewrite (lookup_ge_None_2 (line l)) by lia. cbn [default].
  destruct (replicate 4 blank !! _) as [b |] eqn:E; [| done]. by apply lookup_replicate in E as [-> _].
Qed.

Lemma PutChar_shows m0 s l c a :
  shows m0 s l -> Z.of_nat (length (line l)) < 80 ->
  exists s', PutChar s c a (Z.of_nat (length (line l))) (cursor_y_ s) = Ret s' /\
    cursor_x_ s' = cursor_x_ s /\ shows m0 s' (mkTerm (past l) (line l ++ [(c, a)]) (colour l)).
Proof.
  intros [Hy Hb Hv Hr Ha] Hx. unfold PutChar, kWidth, kHeight. set (x := Z.of_nat (length (line l))) in *.
  assert (0 <= cursor_y_ s < 25) as By by (unfold first_line in Hy; lia).
  unfold u32. rewrite wrap_small by (unfold in_range; lia). rewrite (proj2 (Z.ltb_lt _ _)) by lia.
  cbn [rt_assert mbind outcome_bind]. eexists. split; [done |]. split; [done |].
  assert (forall y x', on_screen y x' -> cell_of (mkTerm (past l) (line l ++ [(c, a)]) (colour l)) (first_line l + y) x' =
    if decide (y = cursor_y_ s /\ x' = x) then (c, a) else cell_of l (first_line l + y) x') as Hc.
  { intros y x' [Oy Ox]. rewrite cell_of_append by (unfold first_line; lia). fold x. case_decide as D.
    - destruct (decide (x' = x)) as [-> | Hne].
      + rewrite decide_True by lia. replace (Z.to_nat x - length (line l))%nat with 0%nat by lia. done.
      + rewrite decide_False by lia. rewrite lookup_ge_None_2 by (cbn; lia). cbn.
        symmetry. unfold cell_of. destruct D as [-> Dx]. rewrite Nat2Z.id, list_lookup_middle by done. cbn.
        by rewrite lookup_ge_None_2 by lia.
    - rewrite decide_False by lia. done. }
  split; cbn [cursor_y_ display_buf_ memory attribute_ colour]; try done.
  - intros y x' O. change (first_line _) with (first_line l). rewrite Hc by done.
    rewrite <- (Z.add_0_l ((cursor_y_ s * 80 + x) * 2)), cell_at_store by (done || (split; lia)). case_decide; [done |]. by apply Hb.
  - intros y x' O. change (first_line _) with (first_line l). rewrite Hc by done.
    rewrite cell_at_store by (done || (split; lia)). case_decide; [done |]. by apply Hv.
  - intros b Hout. rewrite store_bytes_out by (cbn [length]; lia). by apply Hr.
Qed.

Definition ok (m0 : ram) (s : t) (l : terminal) : Prop :=
  shows m0 s l /\ cursor_x_ s = Z.of_nat (length (line l)) /\ Z.of_nat (length (line l)) < 80.

Lemma fit_shows m0 s l :
  shows m0 s l -> cursor_x_ s = Z.of_nat (length (line l)) ->
  ok m0 (if cursor_x_ s >=? kWidth then NewLine s else s) (fit l).
Proof.
  intros Hs Hx. unfold fit, kWidth. rewrite Hx. rewrite Z.geb_leb. destruct (Z.leb_spec 80 (Z.of_nat (length (line l)))).
  - destruct (NewLine_shows m0 s l Hs) as [Hs' Hx']. split; [done |]. split; [done | cbn; lia].
  - by split.
Qed.

Lemma WriteChar_shows m0 s l type c :
  ok m0 s l -> exists s', WriteChar s type c = Ret s' /\ ok m0 s' (type_char l type c).
Proof.
  intros ([Hy Hb Hv Hr Ha] & Hx & H80). unfold WriteChar, type_char. rewrite Ha.
  set (a := attribute type (colour l)). set (s0 := mk _ _ a _ _). set (l0 := mkTerm (past l) (line l) a).
  assert (shows m0 s0 l0) as Hs0 by by split.
  destruct (Z.eqb_spec c 10); [| destruct (Z.eqb_spec c 9)].
  - destruct (NewLine_shows m0 s0 l0 Hs0) as [Hs' Hx']. cbn [mbind outcome_bind]. eexists. split; [done |].
    apply fit_shows; [exact Hs' | exact Hx'].
  - cbn [mbind outcome_bind]. eexists. split; [done |]. apply fit_shows.
    + destruct Hs0 as [Zy Zb Zv Zr Za]. split; try done; intros y x O; change (first_line _) with (first_line l0).
      * rewrite (cell_of_tab l0) by (destruct O; unfold first_line; lia). by apply Zb.
      * rewrite (cell_of_tab l0) by (destruct O; unfold first_line; lia). by apply Zv.
    + subst s0 l0. cbn [cursor_x_ line]. rewrite Hx, length_app, length_replicate. unfold u32. rewrite wrap_small; unfold in_range; lia.
  - destruct (PutChar_shows m0 (mk (display_buf_ s0) (memory s0) a (u32 (cursor_x_ s + 1)) (cursor_y_ s)) l0 c a)
      as (s' & E & Ex & Hs'); [by destruct Hs0 | done |].
    subst s0 l0. cbn [cursor_x_ cursor_y_ attribute_ display_buf_ memory past line colour] in *. rewrite <- Hx in E. rewrite E.
    cbn [mbind outcome_bind]. eexists. split; [done |]. apply fit_shows; [exact Hs' |].
    rewrite Ex. cbn [line]. rewrite length_app. cbn [length]. unfold u32. rewrite wrap_small; unfold in_range; lia.
Qed.

Lemma new_shows {S} `{Ports S} (p : S) m0 : ok m0 (new p m0).2 (mkTerm [] [] 0x0F).
Proof.
  assert (forall m dst y x, on_screen y x -> cell_at (Memset16 m dst blank16 (Z.to_nat (kWidth * kHeight))) dst y x =
    cell_of (mkTerm [] [] 0x0F) (0 + y) x) as Hc.
  { intros m dst y x [Hy Hx]. unfold cell_at. rewrite Memset16_cell by (unfold kWidth, kHeight; lia).
    unfold cell_of. cbn [past line app]. by destruct (Z.to_nat (0 + y)) as [| []]. }
  split; [| done]. unfold new. cbn [snd]. split; cbn [cursor_y_ display_buf_ memory attribute_]; try done.
  - intros y x O. by apply Hc.
  - intros y x O. by apply Hc.
  - intros a Ha. apply Memset16_out. unfold kWidth, kHeight. lia.
Qed.

Lemma WriteAll_shows m0 text : forall s l,
  ok m0 s l -> exists s', WriteAll s text = Ret s' /\ ok m0 s' (type_all l text).
Proof.
  induction text as [| [ty c] text IH]; intros s l Hs; [by exists s |].
  destruct (WriteChar_shows m0 s l ty c Hs) as (s1 & E & Hs1). cbn [WriteAll]. rewrite E. by apply IH.
Qed.

(** C34. The screen: whatever is written after the screen was set up, no write leaves the
    array or the 4000 bytes of the screen; the 25 rows show the last lines of the text,
    with lines of 80 cells, in the colours of the messages, and the cursor stays on the
    screen. *)
Theorem console_shows {S} `{Ports S} (p : S) (m0 : ram) (text : list (LogDataType * Z)) :
  exists s', WriteAll (new p m0).2 text = Ret s' /\
    let l := type_all (mkTerm [] [] 0x0F) text in
    (forall y x, on_screen y x -> cell_at (memory s') kVideo y x = cell_of l (first_line l + y) x) /\
    (forall a, a < kVideo \/ kVideo + 4000 <= a -> memory s' a = m0 a) /\
    cursor_x_ s' = Z.of_nat (length (line l)) /\ 0 <= cursor_x_ s' < 80 /\
    cursor_y_ s' = Z.of_nat (length (past l)) - first_line l /\ 0 <= cursor_y_ s' < 25.
Proof.
  destruct (WriteAll_shows m0 text _ _ (new_shows p m0)) as (s' & E & [Hy Hb Hv Hr Ha] & Hx & H80).
  exists s'. split; [done |]. cbn zeta. split_and!; try done; unfold first_line in *; lia.
Qed.

End LogWriterVideo.

Module Logger.
Import LogWriterVideo IoPortsX64.

Section Logger.
Context {S : Type} `{Ports S}.

(** How often a busy serial port is polled. *)
Variable polls : nat.

(** kernel/logger.h:182-187, Logger members (the mode is only stored), with the locks of
    the two writers (logger.h:56) and the ports. *)
Record t : Type := mk {
  console_enabled_ : bool; video_enabled_ : bool; type_ : LogDataType;
  video_writer_ : LogWriterVideo.t; video_lock : bool; serial_lock : bool; ports : S }.

Definition set_video (log : t) (v : LogWriterVideo.t) : t :=
  mk (console_enabled_ log) (video_enabled_ log) (type_ log) v (video_lock log) (serial_lock log) (ports log).
Definition set_ports (log : t) (s : S) : t :=
  mk (console_enabled_ log) (video_enabled_ log) (type_ log) (video_writer_ log) (video_lock log) (serial_lock log) s.
Definition set_locks (log : t) (v s : bool) : t :=
  mk (console_enabled_ log) (video_enabled_ log) (type_ log) (video_writer_ log) v s (ports log).
Definition set_type (log : t) (ty : LogDataType) : t :=
  mk (console_enabled_ log) (video_enabled_ log) ty (video_writer_ log) (video_lock log) (serial_lock log) (ports log).

(** kernel/logger.h:136-140, Logger::Logger. *)
Definition new (s : S) (m : ram) : t :=
  let '(s, v) := LogWriterVideo.new s m in
  mk false true DEFAULT v false false (Serial_Init s).

(** kernel/threadlib/spinlock.h:12-19, lock, on the processor that already holds the lock:
    it spins without end. *)
Definition acquire (held : bool) : outcome unit := if held then OutOfFuel else Ret tt.

(** kernel/logger.h:128-134, EnableConsole and DisableVideo. *)
Definition EnableConsole (log : t) : t :=
  mk true (video_enabled_ log) (type_ log) (video_writer_ log) (video_lock log) (serial_lock log) (ports log).
Definition DisableVideo (log : t) : t :=
  mk (console_enabled_ log) false (type_ log) (video_writer_ log) (video_lock log) (serial_lock log) (ports log).

(** kernel/logger.h:170-180, Logger::PutChar. *)
Definition PutChar (log : t) (c : Z) : outcome t :=
  log ← (if video_enabled_ log then v ← WriteChar (video_writer_ log) (type_ log) c; Ret (set_video log v) else Ret log);
  if console_enabled_ log then s ← write_serial polls c (ports log); Ret (set_ports log s) else Ret log.

Fixpoint put_all (log : t) (text : list Z) : outcome t :=
  match text with
  | [] => Ret log
  | c :: text' => log' ← PutChar log c; put_all log' text'
  end.

(** kernel/logger.h:143-168, Logger::PrintFormat, with the text that the format expands to;
    the result is its length. *)
Definition PrintFormat (log : t) (type : LogDataType) (text : list Z) : outcome (Z * t) :=
  let video := video_enabled_ log in
  let console := console_enabled_ log in
  _ ← (if video then acquire (video_lock log) else Ret tt);
  let log := if video then set_locks log true (serial_lock log) else log in
  _ ← (if console then acquire (serial_lock log) else Ret tt);
  let log := if console then set_locks log (video_lock log) true else log in
  log ← put_all (set_type log type) text;
  let log := if console then set_locks log (video_lock log) false else log in
  let log := if video then set_locks log false (serial_lock log) else log in
  Ret (Z.of_nat (length text), log).

(** kernel/logger.h:111-116, Logger::PutCharSnapshot. *)
Definition PutCharSnapshot (log : t) (c : Z) : outcome t :=
  _ ← rt_assert (negb (console_enabled_ log)) "!console_enabled_";
  _ ← acquire (serial_lock log);
  s ← write_serial polls c (ports log);
  Ret (set_ports log s).

(** kernel/logger.h:124-126, Logger::__tmp_Putch. *)
Definition tmp_Putch (log : t) (c : Z) : outcome t :=
  v ← WriteChar (video_writer_ log) ERR c; Ret (set_video log v).

End Logger.
End Logger.

(** ** Files *)
Module FileIo.
Import LogWriterVideo Logger.

Section FileIo.
Context {S : Type} `{Ports S}.
Variable polls : nat.

(** kernel/fileio.h:119-124, the files of FileIo. *)
Inductive file : Type := stdout | stderr | stdin | v8_log | v8_snapshot.

(** The bytes of a name. *)
Fixpoint bytes_of (s : string) : list Z :=
  match s with
  | EmptyString => []
  | String a s' => Z.of_N (Ascii.N_of_ascii a) :: bytes_of s'
  end.

(** kernel/boot-services.h:28-39, BootServices::FatalError: the machine hangs after the
    message. *)
Definition FatalError (log : t (S := S)) (why : string) : outcome (t (S := S)) :=
  '(_, log) ← PrintFormat polls log ERR (bytes_of "Kernel error: ");
  '(_, log) ← PrintFormat polls log ERR (bytes_of why);
  '(_, log) ← PrintFormat polls log ERR [10];
  Fatal why.

(** kernel/fileio.cc:44-73, the write events of the files, as FileIo::FileIo binds them
    (the log of V8 has none). *)
Definition onwrite (f : file) (log : t (S := S)) (c : Z) : outcome (t (S := S)) :=
  match f with
  | stdout => '(_, log) ← PrintFormat polls log DEFAULT [c]; Ret log
  | stderr => tmp_Putch log c
  | stdin => Fatal "!Stdin is not writeable."
  | v8_log => Ret log
  | v8_snapshot => PutCharSnapshot polls log c
  end.

(** kernel/fileio.h:32-37, FileIoFile::WriteByte. *)
Definition WriteByte (f : file) (log : t (S := S)) (c : Z) : outcome (t (S := S)) := onwrite f log c.

(** kernel/fileio.h:49-67, FileIo::FOpen. *)
Definition FOpen (log : t (S := S)) (name : string) : outcome (file * t (S := S)) :=
  '(_, log) ← PrintFormat polls log DEFAULT (bytes_of "open: " ++ bytes_of name ++ [10]);
  if String.eqb name "v8.log" then Ret (v8_log, log)
  else if String.eqb name "snapshot" then Ret (v8_snapshot, log)
  else if String.eqb name "deopt" then Ret (stdout, log)
  else Fatal "!Trying to open unknown file.".

(** kernel/fileio.h:69-74, FileIo::FPutc. *)
Definition FPutc (log : t (S := S)) (c : Z) (f : file) : outcome (Z * t (S := S)) :=
  log ← WriteByte f log (u8 c); Ret (c, log).

Fixpoint write_bytes (f : file) (log : t (S := S)) (data : list Z) : outcome (t (S := S)) :=
  match data with
  | [] => Ret log
  | c :: data' => log' ← WriteByte f log c; write_bytes f log' data'
  end.

(** kernel/fileio.h:76-87, FileIo::FWrite of the [size * nmemb] bytes [data]; the result
    is the number of bytes. *)
Definition FWrite (log : t (S := S)) (data : list Z) (f : file) : outcome (Z * t (S := S)) :=
  log ← write_bytes f log data; Ret (Z.of_nat (length data), log).

(** kernel/fileio.h:89-92, FileIo::VFPrintf, with the text that the format expands to
    (the printer is fileio.cc:38-42). *)
Definition VFPrintf (log : t (S := S)) (f : file) (text : list Z) : outcome (Z * t (S := S)) :=
  log ← write_bytes f log text; Ret (Z.of_nat (length text), log).

(** libc_calls.cc:117-125, printf. *)
Definition printf (log : t (S := S)) (text : list Z) : outcome (Z * t (S := S)) :=
  PrintFormat polls log DEFAULT text.

(** libc_calls.cc:131-137, vfprintf; fprintf (175-181) is the same. *)
Definition vfprintf (log : t (S := S)) (f : file) (text : list Z) : outcome (Z * t (S := S)) :=
  _ ← acquire (video_lock log);
  '(c, log) ← VFPrintf (set_locks log true (serial_lock log)) f text;
  Ret (c, set_locks log false (serial_lock log)).

(** ** Writing to a file and to the screen *)

Lemma PrintFormat_screen log type text v :
  video_enabled_ log = true -> console_enabled_ log = false -> video_lock log = false ->
  WriteAll (video_writer_ log) (map (pair type) text) = Ret v ->
  PrintFormat polls log type text = Ret (Z.of_nat (length text), set_type (set_video log v) type).
Proof.
  intros Hv Hc Hl. unfold PrintFormat. rewrite Hv, Hc, Hl. cbn [acquire mbind outcome_bind].
  set (log1 := set_type (set_locks log true (serial_lock log)) type).
  assert (forall text l v, video_enabled_ l = true -> console_enabled_ l = false -> type_ l = type ->
    WriteAll (video_writer_ l) (map (pair type) text) = Ret v -> put_all polls l text = Ret (set_video l v)) as P.
  { clear. induction text as [| c text IH]; intros l v V C T E; cbn [map WriteAll put_all] in *.
    - injection E as <-. destruct l. done.
    - apply bind_Ret in E as (v1 & E1 & E2). unfold PutChar. rewrite V, T, E1.
      cbn [mbind outcome_bind]. change (console_enabled_ (set_video l v1)) with (console_enabled_ l). rewrite C.
      cbn [mbind outcome_bind]. by rewrite (IH (set_video l v1) v). }
  intros E. rewrite (P text log1 v); [| done ..]. cbn. destruct log. cbn in *. by subst.
Qed.

(** Formatted output to stdout: with the screen on, fprintf or vfprintf to stdout takes
    the lock of the screen and then, for the first character, takes it again: it never
    returns.  Writing the same text to stdout with fwrite works, and shows what printf
    shows. *)
Theorem stdout_locks log text
  (Hv : video_enabled_ log = true) (Hc : console_enabled_ log = false) (Hl : video_lock log = false)
  (Ht : text <> []) (m0 : ram) (l : terminal) (Hok : LogWriterVideo.ok m0 (video_writer_ log) l) :
  vfprintf log stdout text = OutOfFuel /\
  exists log', FWrite log text stdout = Ret (Z.of_nat (length text), log') /\
    printf log text = Ret (Z.of_nat (length text), log') /\
    LogWriterVideo.ok m0 (video_writer_ log') (type_all l (map (pair DEFAULT) text)).
Proof.
  split.
  - destruct text as [| c text]; [done |]. unfold vfprintf, VFPrintf. rewrite Hl. cbn [acquire mbind outcome_bind write_bytes].
    unfold WriteByte, onwrite, PrintFormat. cbn [set_locks video_enabled_ video_lock]. rewrite Hv. done.
  - destruct (WriteAll_shows m0 (map (pair DEFAULT) text) _ _ Hok) as (v & E & Hok').
    exists (set_type (set_video log v) DEFAULT). unfold printf. rewrite (PrintFormat_screen _ _ _ v) by done.
    split_and!; [| done | done]. unfold FWrite.
    assert (forall text log v, text <> [] -> video_enabled_ log = true -> console_enabled_ log = false -> video_lock log = false ->
      WriteAll (video_writer_ log) (map (pair DEFAULT) text) = Ret v ->
      write_bytes stdout log text = Ret (set_type (set_video log v) DEFAULT)) as P.
    { clear. induction text as [| c text IH]; intros log v Ht Hv Hc Hl E; [done |]. cbn [map WriteAll] in E.
      apply bind_Ret in E as (v1 & E1 & E2). cbn [write_bytes]. unfold WriteByte, onwrite.
      rewrite (PrintFormat_screen log DEFAULT [c] v1); [| done .. | cbn; by rewrite E1].
      cbn [mbind outcome_bind]. destruct text as [| c' text].
      - cbn in E2 |- *. by injection E2 as ->.
      - by rewrite (IH (set_type (set_video log v1) DEFAULT) v). }
    by rewrite (P text log v).
Qed.

End FileIo.

(** The console after the start, over ports that do nothing. *)
#[local] Instance no_ports : Ports unit := { out _ _ _ s := s; inp _ _ s := (0, s) }.

Lemma stdout_locks_witness :
  vfprintf 3 (Logger.new tt (fun _ => 0)) stdout [72; 105] = OutOfFuel /\
  exists log', FWrite 3 (Logger.new tt (fun _ => 0)) [72; 105] stdout = Ret (2, log').
Proof.
  destruct (stdout_locks 3 (Logger.new tt (fun _ => 0)) [72; 105] eq_refl eq_refl eq_refl ltac:(done) (fun _ => 0)
    (mkTerm [] [] 0x0F) (new_shows tt (fun _ => 0))) as [P (log' & E & _)].
  split; [exact P | exists log'; exact E].
Defined.

End FileIo.
