(* ===== verification/Threadlib.v ===== *)
(** * kernel/threadlib/: spinlock.h, mutex.h, semaphore.h, condvar.h

    The locks of the kernel as programs of single memory accesses that processors
    interleave.  A schedule is a list of processors with what each does next; the theorems
    hold after every schedule (fewer than 2^32 steps for the mutex, which counts its
    recursion).  A mutex takes the processor for the thread (platform.cc), so threads of one
    processor share a recursive one.  The kernel's scheduling hook is not implemented, so a
    wait that would have to yield stops the machine. *)

From S2P Require Import Prelude.

(** Local states of processors, by their number. *)
#[local] Notation locals L := (gmap Z L).

Module Spinlock.

(** Where a processor is in its use of the lock. *)
Inductive pc : Type :=
  | Out          (** outside *)
  | Swap         (** about to exchange *)
  | Spin         (** about to read *)
  | In.          (** holds the lock *)
#[global] Instance pc_eq_dec : EqDecision pc.
Proof. solve_decision. Defined.

(** What a processor does next: one of the calls, or the next access of the call it is in. *)
Inductive cmd : Type := Lock | TryLock | Unlock | Go.

(** kernel/threadlib/spinlock.h:30-30, p_, with the processors. *)
Record t : Type := mk { p_ : Z; pcs : locals pc }.

(** kernel/threadlib/spinlock.h:10-10, spinlock_t. *)
Definition new : t := mk 0 ∅.

Definition at_ (s : t) (i : Z) : pc := default Out (pcs s !! i).
Definition goto (s : t) (p i : Z) (c : pc) : t := mk p (<[i := c]> (pcs s)).

(** kernel/threadlib/spinlock.h:14-14, 23-23, __sync_lock_test_and_set(p, 1): the
    processor that found zero has the lock; [failed] is where it goes otherwise. *)
Definition test_and_set (s : t) (i : Z) (failed : pc) : t :=
  if p_ s =? 0 then goto s 1 i In else goto s 1 i failed.

(** kernel/threadlib/spinlock.h:12-28, lock, try_lock and unlock, one access at a time.
    A processor calls unlock only when it holds the lock, and calls nothing while it is in
    a call. *)
Definition step (s : t) (i : Z) (c : cmd) : t :=
  match at_ s i, c with
  | Out, Lock => goto s (p_ s) i Swap
  | Out, TryLock => test_and_set s i Out
  | Swap, Go => test_and_set s i Spin
  | Spin, Go => if p_ s =? 0 then goto s (p_ s) i Swap else s
  | In, Unlock => goto s 0 i Out
  | _, _ => s
  end.

Definition run (s : t) (schedule : list (Z * cmd)) : t := fold_left (fun s '(i, c) => step s i c) schedule s.

(** The lock is taken exactly when one processor, and no other, has it. *)
Definition inv (s : t) : Prop :=
  (p_ s = 0 /\ forall i, at_ s i <> In) \/ (p_ s = 1 /\ exists h, at_ s h = In /\ forall i, at_ s i = In -> i = h).

Lemma spinlock_at_goto s p i c j : at_ (goto s p i c) j = if decide (j = i) then c else at_ s j.
Proof.
  unfold at_, goto. cbn. case_decide as D; [subst; by rewrite lookup_insert_eq | by rewrite lookup_insert_ne].
Qed.

(** A processor that does not take or give back the lock. *)
Lemma spinlock_inv_move s i c : inv s -> at_ s i <> In -> c <> In -> inv (goto s (p_ s) i c).
Proof.
  intros [[Hp Hn] | (Hp & h & Hh & Hu)] Hi Hc; [left | right]; cbn; split; try done.
  - intros j. rewrite spinlock_at_goto. case_decide; [done | apply Hn].
  - exists h. rewrite spinlock_at_goto, decide_False by congruence. split; [done |].
    intros j. rewrite spinlock_at_goto. case_decide; [done | apply Hu].
Qed.

Lemma inv_swap s i failed : inv s -> at_ s i <> In -> failed <> In -> inv (test_and_set s i failed).
Proof.
  intros I Hi Hf. unfold test_and_set. destruct (Z.eqb_spec (p_ s) 0) as [E | E].
  - destruct I as [[_ Hn] | (? & _)]; [| lia]. right. split; [done |]. exists i. rewrite spinlock_at_goto, decide_True by done.
    split; [done |]. intros j. rewrite spinlock_at_goto. case_decide; [done |]. intros X. by destruct (Hn j).
  - assert (p_ s = 1) as <- by (destruct I as [[? _] | [? _]]; lia). by apply spinlock_inv_move.
Qed.

Lemma spinlock_step_inv s i c : inv s -> inv (step s i c).
Proof.
  intros I. unfold step. destruct (at_ s i) eqn:E, c; try done.
  - apply spinlock_inv_move; congruence.
  - apply inv_swap; congruence.
  - apply inv_swap; congruence.
  - destruct (p_ s =? 0); [| done]. apply spinlock_inv_move; congruence.
  - destruct I as [[_ Hn] | (_ & h & Hh & Hu)]; [by destruct (Hn i) |]. left. split; [done |]. intros j.
    rewrite spinlock_at_goto. case_decide; [done |]. intros X. apply Hu in X, E. congruence.
Qed.

Lemma spinlock_run_inv schedule : forall s, inv s -> inv (run s schedule).
Proof.
  induction schedule as [| [i c] l IH]; intros s I; [done |]. apply IH. by apply spinlock_step_inv.
Qed.

Lemma new_inv : inv new.
Proof. left. split; [done |]. intros i. unfold at_. cbn. by rewrite lookup_empty. Qed.

(** C37. The spinlock: after every schedule at most one processor holds the lock, and the word
    tells whether one does.  While it is held no other processor gets in, however often it
    tries; once it is free, a waiting processor that runs alone has it after two accesses. *)
Theorem spinlock_exclusion schedule :
  let s := run new schedule in
  (forall i j, at_ s i = In -> at_ s j = In -> i = j) /\
  (p_ s = 0 <-> forall i, at_ s i <> In) /\
  (forall i j c, at_ s i = In -> j <> i -> at_ (step s j c) j <> In) /\
  (p_ s = 0 -> forall i, at_ s i = Swap \/ at_ s i = Spin -> at_ (run s [(i, Go); (i, Go)]) i = In).
Proof.
  pose proof (spinlock_run_inv schedule new new_inv) as I. cbn zeta. set (s := run new schedule) in *. clearbody s. split_and!.
  - intros i j Hi Hj. destruct I as [[_ Hn] | (_ & h & _ & Hu)]; [by destruct (Hn i) |]. rewrite (Hu i), (Hu j); done.
  - destruct I as [[Hp Hn] | (Hp & h & Hh & _)]; [done |]. split; [lia |]. intros Hn. by destruct (Hn h).
  - intros i j c Hi Hj. destruct I as [[_ Hn] | (Hp & h & Hh & Hu)]; [by destruct (Hn i) |].
    assert (at_ s j <> In) as Hjn by (intros X; apply Hu in X, Hi; congruence).
    unfold step, test_and_set. rewrite Hp. destruct (at_ s j) eqn:E, c; cbn [Z.eqb]; rewrite ?spinlock_at_goto, ?decide_True by done; congruence.
  - intros Hp i Hi. cbn [run fold_left]. unfold step at 2. destruct Hi as [-> | ->].
    + unfold test_and_set. rewrite Hp. cbn [Z.eqb]. unfold step. rewrite spinlock_at_goto, decide_True by done.
      by rewrite spinlock_at_goto, decide_True by done.
    + rewrite Hp. cbn [Z.eqb]. unfold step. rewrite spinlock_at_goto, decide_True by done. unfold test_and_set. cbn [p_ goto Z.eqb].
      by rewrite spinlock_at_goto, decide_True by done.
Qed.

End Spinlock.

Module Mutex.

(** Where a thread is in a call; [blocking] tells lock from try_lock. *)
Inductive pc : Type :=
  | Idle
  | Check (blocking : bool)     (** about to read owner_ *)
  | Try (blocking : bool)       (** about to exchange the word of the spinlock *)
  | Own                         (** about to write owner_ *)
  | Inc | IncTo (d : Z)         (** [++depth_]: about to read, to write *)
  | Dec | DecTo (d : Z)         (** [--depth_]: about to read, to write *)
  | Clear                       (** about to write owner_ = 0 *)
  | Release.                    (** about to release the spinlock *)

(** kernel/threadlib/mutex.h:61-63, mutex_t members, with the word of the spinlock, and for
    every thread where it is and how many locks it has not given back. *)
Record t : Type := mk {
  word : Z; owner_ : Z; depth_ : Z; is_recursive_ : bool; threads : gmap Z (pc * Z) }.

(** kernel/threadlib/mutex.h:11-20, mutex_t and set_recursive. *)
Definition new (recursive : bool) : t := mk 0 0 0 recursive ∅.

Definition local (s : t) (i : Z) : pc * Z := default (Idle, 0) (threads s !! i).
Definition held (s : t) (i : Z) : Z := (local s i).2.

Definition set_local (s : t) (i : Z) (l : pc * Z) : t :=
  mk (word s) (owner_ s) (depth_ s) (is_recursive_ s) (<[i := l]> (threads s)).
Definition set_word (s : t) (w : Z) : t := mk w (owner_ s) (depth_ s) (is_recursive_ s) (threads s).
Definition set_owner (s : t) (o : Z) : t := mk (word s) o (depth_ s) (is_recursive_ s) (threads s).
Definition set_depth (s : t) (d : Z) : t := mk (word s) (owner_ s) d (is_recursive_ s) (threads s).

Section OnProcessors.
(** The processor that a thread runs on. *)
Variable cpu_of : Z -> Z.

(** kernel/platform.cc:36-38, get_thread_id, called by thread [i]. *)
Definition get_thread_id (i : Z) : Z := u32 (cpu_of i + 1).

(** kernel/threadlib/mutex.h:22-59, lock, try_lock and unlock by thread [i], one access at
    a time.  A thread gives back only locks it has; lock yields with sched() (platform.cc:24-26)
    when the spinlock is taken. *)
Definition step (s : t) (i : Z) (c : Spinlock.cmd) : outcome t :=
  let '(at_, k) := local s i in
  match at_, c with
  | Idle, Spinlock.Lock => Ret (set_local s i (Check true, k))
  | Idle, Spinlock.TryLock => Ret (set_local s i (Check false, k))
  | Check b, Spinlock.Go =>
      if is_recursive_ s && (owner_ s =? get_thread_id i) then Ret (set_local s i (Inc, k)) else Ret (set_local s i (Try b, k))
  | Try b, Spinlock.Go =>
      if word s =? 0 then Ret (set_local (set_word s 1) i (Own, k))
      else if b then Fatal "!not implemented" else Ret (set_local (set_word s 1) i (Idle, k))
  | Own, Spinlock.Go => Ret (set_local (set_owner s (get_thread_id i)) i (Inc, k))
  | Inc, Spinlock.Go => Ret (set_local s i (IncTo (depth_ s), k))
  | IncTo d, Spinlock.Go => Ret (set_local (set_depth s (u32 (d + 1))) i (Idle, k + 1))
  | Idle, Spinlock.Unlock =>
      if k =? 0 then Ret s
      else _ ← rt_assert (depth_ s >? 0) "trying to unlock() unlocked mutex"; Ret (set_local s i (Dec, k))
  | Dec, Spinlock.Go => Ret (set_local s i (DecTo (depth_ s), k))
  | DecTo d, Spinlock.Go =>
      let d' := u32 (d - 1) in
      Ret (set_local (set_depth s d') i (if d' =? 0 then Clear else Idle, k - 1))
  | Clear, Spinlock.Go => Ret (set_local (set_owner s 0) i (Release, k))
  | Release, Spinlock.Go => Ret (set_local (set_word s 0) i (Idle, k))
  | _, _ => Ret s
  end.

Fixpoint run (s : t) (schedule : list (Z * Spinlock.cmd)) : outcome t :=
  match schedule with
  | [] => Ret s
  | (i, c) :: l => s' ← step s i c; run s' l
  end.

(** The threads that use the mutex; if it is recursive, each has a processor of its own. *)
Context (users : Z -> Prop) (recursive : bool).
Hypothesis id_pos : forall i, users i -> get_thread_id i <> 0.
Hypothesis id_inj : recursive = true -> forall i j, users i -> users j -> get_thread_id i = get_thread_id j -> i = j.

(** A thread that has no part in the lock. *)
Definition outside (l : pc * Z) : Prop :=
  l.2 = 0 /\ match l.1 with Idle | Check _ | Try _ => True | _ => False end.

(** The thread that has it: what the members are at each point of its calls. *)
Definition inside (s : t) (h : Z) : Prop :=
  let k := held s h in let id := get_thread_id h in
  match (local s h).1 with
  | Idle | Check _ | Try _ | Dec => 0 < k /\ owner_ s = id /\ depth_ s = k
  | DecTo d => 0 < k /\ owner_ s = id /\ depth_ s = k /\ d = k
  | Own | Release => k = 0 /\ owner_ s = 0 /\ depth_ s = 0
  | Inc => owner_ s = id /\ depth_ s = k
  | IncTo d => owner_ s = id /\ depth_ s = k /\ d = k
  | Clear => k = 0 /\ owner_ s = id /\ depth_ s = 0
  end.

Definition inv (n : Z) (s : t) : Prop := is_recursive_ s = recursive /\
  ((word s = 0 /\ owner_ s = 0 /\ depth_ s = 0 /\ forall i, outside (local s i)) \/
   (word s = 1 /\ exists h, users h /\ 0 <= held s h <= n /\ inside s h /\ forall i, i <> h -> outside (local s i))).

Lemma local_set s i l j : local (set_local s i l) j = if decide (j = i) then l else local s j.
Proof.
  unfold local, set_local. cbn. case_decide as D; [subst; by rewrite lookup_insert_eq | by rewrite lookup_insert_ne].
Qed.

(** A thread outside moves to another place outside. *)
Lemma mutex_inv_move n s i l : inv n s -> outside (local s i) -> outside l -> inv n (set_local s i l).
Proof.
  intros [Rec I] Hi Hl. split; [done |]. destruct I as [(W & O & D & A) | (W & h & H0 & Hk & Hin & A)]; [left | right].
  - split_and!; try done. intros j. rewrite local_set. by case_decide.
  - split; [done |]. exists h. destruct (decide (h = i)) as [-> | Hne].
    + exfalso. unfold inside, held in Hin. destruct Hi as [K P]. destruct (local s i) as [[] k]; cbn in *; try done; lia.
    + unfold inside, held in *. rewrite local_set, decide_False by done. split_and!; try done; try lia.
      intros j Hj. rewrite local_set. case_decide; [done | by apply A].
Qed.

(** The thread inside moves, or the free lock is taken, with the members changed. *)
Lemma inv_holder n s' i l :
  is_recursive_ s' = recursive -> users i -> word s' = 1 -> local s' i = l -> (forall j, j <> i -> outside (local s' j)) ->
  0 <= l.2 <= n -> inside s' i -> inv n s'.
Proof.
  intros Rec Hi W E A K Hin. split; [done |]. right. split; [done |]. exists i. unfold held. rewrite E. split_and!; try done; lia.
Qed.

(** [h] is the thread inside after the step. *)
Ltac go_on h :=
  eapply (inv_holder _ _ h);
  [ done | done | done | reflexivity | intros j Hj; rewrite local_set, decide_False by done; by eauto
  | rewrite local_set, decide_True by done; cbn; lia
  | unfold inside, held; rewrite local_set, decide_True by done; cbn; split_and!; (done || lia) ].

(** A step of the thread that is inside; it goes on being inside, or gives the lock back. *)
Lemma step_inside n s h c s' :
  is_recursive_ s = recursive -> word s = 1 -> users h -> 0 <= held s h <= n -> inside s h -> (forall i, i <> h -> outside (local s i)) ->
  0 <= n < 2 ^ 32 - 1 -> step s h c = Ret s' -> inv (n + 1) s'.
Proof.
  intros Rec W H0 Hk Hin A Hn E. unfold step in E. unfold inside, held in *.
  destruct (local s h) as [at_ k] eqn:L. cbn [fst snd] in *.
  assert (forall j, j <> h -> forall l, outside (local (set_local s h l) j)) as A'.
  { intros j Hj l. rewrite local_set, decide_False by done. by apply A. }
  destruct at_, c; try (injection E as <-; split; [done |]; right; split; [done |]; exists h; unfold inside, held; rewrite L; cbn; split_and!; (done || lia)).
  - injection E as <-. go_on h.
  - injection E as <-. go_on h.
  - destruct (Z.eqb_spec k 0); [lia |]. apply bind_Ret in E as (? & _ & E). injection E as <-. go_on h.
  - destruct (is_recursive_ s && (owner_ s =? get_thread_id h)); injection E as <-; go_on h.
  - rewrite W in E. destruct blocking; [done |]. injection E as <-. go_on h.
  - injection E as <-. go_on h.
  - injection E as <-. go_on h.
  - injection E as <-. unfold u32. rewrite wrap_small by (unfold in_range; lia). go_on h.
  - injection E as <-. go_on h.
  - injection E as <-. unfold u32. rewrite wrap_small by (unfold in_range; lia). destruct (Z.eqb_spec (d - 1) 0); go_on h.
  - injection E as <-. go_on h.
  - injection E as <-. split; [done |]. left. destruct Hin as (-> & O & D). cbn. split_and!; try done. intros i.
    rewrite local_set. case_decide; [done |]. by apply A.
Qed.

Lemma inv_mono n m s : n <= m -> inv n s -> inv m s.
Proof.
  intros Hm [Rec [I | (W & h & H0 & Hk & I)]]; (split; [done |]); [by left | right]. split; [done |].
  exists h. split_and!; try done; try lia; apply I.
Qed.

Lemma owner_outside n s i : inv n s -> users i -> outside (local s i) -> is_recursive_ s && (owner_ s =? get_thread_id i) = false.
Proof.
  intros [-> I] Hi [K P]. destruct recursive; [| done]. cbn [andb]. apply Z.eqb_neq.
  destruct I as [(_ & -> & _) | (_ & h & H0 & _ & Hin & _)]; [by apply not_eq_sym, id_pos |]. intros E.
  assert (h = i \/ owner_ s = 0) as [-> | E0].
  { unfold inside, held in Hin. destruct (local s h) as [[] k]; cbn in Hin; try (left; apply (id_inj eq_refl); (done || lia)); right; lia. }
  - unfold inside, held in Hin. destruct (local s i) as [[] k]; cbn in *; (done || lia).
  - rewrite E0 in E. by apply (id_pos i).
Qed.

(** A step of a thread outside; it stays outside, or takes the free lock. *)
Lemma step_outside n s i c s' :
  inv n s -> users i -> 0 <= n -> outside (local s i) -> step s i c = Ret s' -> inv (n + 1) s'.
Proof.
  intros I Hi Hn Ho E. pose proof (owner_outside n s i I Hi Ho) as Hown. apply (inv_mono n (n + 1)) in I; [| lia].
  pose proof (fun l => mutex_inv_move (n + 1) s i l I Ho) as Move. pose proof Ho as [K P]. unfold step in E.
  destruct (local s i) as [at_ k] eqn:L. cbn [fst snd] in *. subst k.
  destruct at_, c; try done; try (injection E as <-; (exact I || by apply Move)).
  - rewrite Hown in E. injection E as <-. by apply Move.
  - destruct (Z.eqb_spec (word s) 0) as [W | W].
    + injection E as <-. destruct I as [Rec [(_ & O & D & A) | (? & _)]]; [| lia].
      eapply (inv_holder _ _ i); [done | done | done | reflexivity | ..].
      * intros j Hj. rewrite local_set, decide_False by done. apply A.
      * rewrite local_set, decide_True by done. cbn. lia.
      * unfold inside, held. rewrite local_set, decide_True by done. done.
    + destruct blocking; [done |]. injection E as <-.
      assert (set_word s 1 = s) as -> by (destruct I as [_ [[? _] | [? _]]]; [lia |]; destruct s; cbn in *; by subst).
      by apply Move.
Qed.

Lemma outside_dec l : {outside l} + {~ outside l}.
Proof.
  destruct l as [p k]. unfold outside. cbn. destruct (decide (k = 0)) as [-> | Hk]; [| right; tauto].
  destruct p; (left; tauto) || (right; tauto).
Qed.

Lemma mutex_step_inv n s i c s' :
  inv n s -> users i -> 0 <= n < 2 ^ 32 - 1 -> step s i c = Ret s' -> inv (n + 1) s'.
Proof.
  intros I Hi Hn E. destruct (outside_dec (local s i)) as [Ho | Ho].
  - eapply step_outside; [exact I | done | lia | done | exact E].
  - destruct I as [Rec [(_ & _ & _ & A) | (W & h & H0 & Hk & Hin & A)]]; [by destruct (Ho (A i)) |].
    destruct (decide (i = h)) as [-> | Hne]; [| by destruct (Ho (A i Hne))].
    by apply (step_inside n s h c).
Qed.

Lemma mutex_run_inv schedule : forall n s s',
  inv n s -> 0 <= n -> n + Z.of_nat (length schedule) < 2 ^ 32 -> Forall (fun x => users x.1) schedule ->
  run s schedule = Ret s' -> inv (n + Z.of_nat (length schedule)) s'.
Proof.
  induction schedule as [| [i c] l IH]; intros n s s' I Hn Hlen F E.
  { injection E as <-. by rewrite Z.add_0_r. }
  inversion_clear F. cbn [run length] in *. apply bind_Ret in E as (s1 & E1 & E2).
  replace (n + Z.of_nat (S (length l))) with (n + 1 + Z.of_nat (length l)) by lia.
  apply (IH (n + 1) s1 s'); [| lia | lia | done | done]. eapply mutex_step_inv; [exact I | done | lia | exact E1].
Qed.

(** What holds in a state of the invariant. *)
Lemma mutex_inv_holds n s : inv n s ->
  (forall i j, 0 < held s i -> 0 < held s j -> i = j) /\
  (forall i, 0 < held s i -> (local s i).1 = Idle -> word s = 1 /\ owner_ s = get_thread_id i /\ depth_ s = held s i) /\
  ((forall i, local s i = (Idle, 0)) -> word s = 0 /\ owner_ s = 0 /\ depth_ s = 0) /\
  (forall i j, 0 < held s i -> local s j = (Try true, 0) -> step s j Spinlock.Go = Fatal "!not implemented").
Proof.
  intros [_ [(W & O & D & A) | (W & h & H0 & Hk & Hin & A)]].
  - assert (forall i, held s i = 0) as Z0 by (intros i; apply A). split_and!.
    + intros i j. rewrite Z0. lia.
    + intros i. rewrite Z0. lia.
    + done.
    + intros i j. rewrite Z0. lia.
  - assert (forall i, 0 < held s i -> i = h) as U.
    { intros i Hi. destruct (decide (i = h)) as [| Hne]; [done |]. destruct (A i Hne) as [K _]. unfold held in Hi. lia. }
    split_and!.
    + intros i j Hi Hj. by rewrite (U i), (U j).
    + intros i Hi P. rewrite (U i Hi) in *. unfold inside in Hin. rewrite P in Hin. split; [done |]. lia.
    + intros All. exfalso. unfold inside, held in Hin. rewrite (All h) in Hin. cbn in Hin. lia.
    + intros i j Hi L. unfold step. rewrite L, W. done.
Qed.

End OnProcessors.

(** Thread [i] locks a mutex and thread [j] locks it as well, each without the other in between. *)
Definition both (i j : Z) : list (Z * Spinlock.cmd) :=
  (i, Spinlock.Lock) :: replicate 5 (i, Spinlock.Go) ++ (j, Spinlock.Lock) :: replicate 3 (j, Spinlock.Go).

(** A step of a run, with [C] the equation of [run]. *)
Ltac walk C := rewrite C; unfold step, local;
  cbn [mbind outcome_bind set_local set_word set_owner set_depth threads word owner_ depth_ is_recursive_ andb].
Ltac done_step := cbn [mbind outcome_bind set_local set_word set_owner set_depth threads word owner_ depth_ is_recursive_ andb default from_option].

(** On one processor the owner of a recursive mutex is not told from the other threads. *)
Lemma both_hold cpu_of i j : i <> j -> 0 <= cpu_of i < 2 ^ 32 - 1 -> cpu_of i = cpu_of j ->
  exists s, run cpu_of (new true) (both i j) = Ret s /\ held s i = 1 /\ held s j = 1.
Proof.
  intros N R E. assert (get_thread_id cpu_of i = cpu_of i + 1) as Gi by (apply wrap_small; unfold in_range; lia).
  assert (get_thread_id cpu_of j = get_thread_id cpu_of i) as Gj by (unfold get_thread_id; by rewrite E).
  assert (forall (x : Z) (l : pc * Z) th, default (Idle, 0) (<[x := l]> th !! x) = l) as L by (intros; by rewrite lookup_insert_eq).
  assert (forall s x c l, run cpu_of s ((x, c) :: l) = s' ← step cpu_of s x c; run cpu_of s' l) as C by done.
  unfold both, new. cbn [replicate app]. walk C. rewrite lookup_empty. done_step.
  walk C. rewrite L. done_step. rewrite (proj2 (Z.eqb_neq 0 _)) by lia. done_step.
  do 4 (walk C; rewrite L; done_step; try (rewrite Z.eqb_refl; done_step)).
  walk C. rewrite !lookup_insert_ne, lookup_empty by done. done_step.
  walk C. rewrite L. done_step. rewrite Gj, Z.eqb_refl. done_step.
  do 2 (walk C; rewrite L; done_step).
  eexists. split; [reflexivity |]. unfold held, local. done_step.
  rewrite !lookup_insert_eq, !lookup_insert_ne, lookup_insert_eq by done. done.
Qed.

(** C38. The mutex, over every schedule of fewer than 2^32 steps (so that the depth cannot
    overflow), if it is not recursive, or if it is and no two of the threads that use it run on the same
    processor: at most one thread has locks it did not give back; a thread that has [k] of them and is in no call is the
    owner and the depth is [k] (no update of the depth is lost); when no thread is in a call and none has
    a lock, the mutex is free. A thread that meets a taken mutex in lock() stops the
    machine, because the kernel has no scheduler for it. But a recursive mutex is not exclusive among the
    threads of one processor: the owner is known by the processor only, and two such threads can both have it. *)
Theorem mutex_exclusion cpu_of recursive schedule s
  (Hids : Forall (fun x => 0 <= cpu_of x.1 < 2 ^ 32 - 1) schedule)
  (Hcpu : recursive = true -> forall x y, x ∈ schedule -> y ∈ schedule -> cpu_of x.1 = cpu_of y.1 -> x.1 = y.1)
  (Hlen : Z.of_nat (length schedule) < 2 ^ 32) (E : run cpu_of (new recursive) schedule = Ret s) :
  (forall i j, 0 < held s i -> 0 < held s j -> i = j) /\
  (forall i, 0 < held s i -> (local s i).1 = Idle -> word s = 1 /\ owner_ s = get_thread_id cpu_of i /\ depth_ s = held s i) /\
  ((forall i, local s i = (Idle, 0)) -> word s = 0 /\ owner_ s = 0 /\ depth_ s = 0) /\
  (forall i j, 0 < held s i -> local s j = (Try true, 0) -> step cpu_of s j Spinlock.Go = Fatal "!not implemented") /\
  (forall i j, i <> j -> 0 <= cpu_of i < 2 ^ 32 - 1 -> cpu_of i = cpu_of j ->
     exists s', run cpu_of (new true) (both i j) = Ret s' /\ 0 < held s' i /\ 0 < held s' j).
Proof.
  set (users i := exists c, (i, c) ∈ schedule).
  assert (forall i, users i -> get_thread_id cpu_of i = cpu_of i + 1 /\ 0 <= cpu_of i) as Id.
  { intros i [c Hc]. rewrite Forall_forall in Hids. specialize (Hids _ Hc). cbn in Hids.
    unfold get_thread_id, u32. rewrite wrap_small by (unfold in_range; lia). lia. }
  assert (inv cpu_of users recursive (Z.of_nat (length schedule)) s) as I.
  { apply (mutex_run_inv cpu_of users recursive) with (schedule := schedule) (n := 0) (s := new recursive); try done.
    - intros i Hi. destruct (Id i Hi). lia.
    - intros R i j Hi Hj Eij. destruct (Id i Hi), (Id j Hj), Hi as [c Hc], Hj as [c' Hc']. apply (Hcpu R (i, c) (j, c') Hc Hc'). cbn. lia.
    - split; [done |]. left. by split_and!.
    - apply Forall_forall. intros [i c] Hx. by exists c. }
  destruct (mutex_inv_holds cpu_of users recursive _ s I) as (H1 & H2 & H3 & H4). split_and!; try done.
  intros i j N Hc Ec. destruct (both_hold cpu_of i j N Hc Ec) as (s' & Es & Hi & Hj). exists s'. rewrite Hi, Hj. done.
Qed.

(** Thread 1 locks a recursive mutex twice; thread 2 tries to. *)
Definition schedule0 : list (Z * Spinlock.cmd) :=
  [(1, Spinlock.Lock); (1, Spinlock.Go); (2, Spinlock.Lock); (1, Spinlock.Go); (1, Spinlock.Go); (1, Spinlock.Go);
   (2, Spinlock.Go); (1, Spinlock.Go); (1, Spinlock.Lock); (1, Spinlock.Go); (1, Spinlock.Go); (1, Spinlock.Go)].

Lemma mutex_exclusion_witness :
  exists s, run (fun i => i - 1) (new true) schedule0 = Ret s /\ depth_ s = 2 /\ step (fun i => i - 1) s 2 Spinlock.Go = Fatal "!not implemented".
Proof.
  destruct (run (fun i => i - 1) (new true) schedule0) as [s | |] eqn:E; [| discriminate E | discriminate E].
  exists s. split; [reflexivity |].
  destruct (mutex_exclusion (fun i => i - 1) true schedule0 s) as (_ & P & _ & Q & _).
  - repeat constructor; cbn; (discriminate || reflexivity).
  - intros _ x y _ _. cbn. lia.
  - reflexivity.
  - exact E.
  - vm_compute in E. injection E as <-. split.
    + exact (proj2 (proj2 (P 1 eq_refl eq_refl))).
    + exact (Q 1 2 eq_refl eq_refl).
Defined.

End Mutex.

Module Semaphore.

(** How a thread waits: once, until it succeeds, or until a time. *)
Inductive mode : Type := Once | Forever | Until (end_time : Z).

Inductive pc : Type :=
  | Idle
  | WaitRead (m : mode) | WaitSwap (m : mode) (count : Z)
  | SignalRead | SignalSwap (count : Z).

(** The call a thread begins, or the next access of the call it is in, with the time the
    clock shows then. *)
Inductive cmd : Type :=
  | TryWait | Wait | TimedWait (now max_time_microseconds : Z) | Signal | Go (now : Z).

(** kernel/threadlib/semaphore.h:10-10, count_, with the threads and the number of waits
    and signals that are done. *)
Record t : Type := mk { count_ : Z; threads : gmap Z pc; waits : Z; signals : Z }.

(** kernel/threadlib/semaphore.h:11-11, semaphore_t. *)
Definition new (initial_count : Z) : t := mk initial_count ∅ 0 0.

Definition at_ (s : t) (i : Z) : pc := default Idle (threads s !! i).
Definition goto (s : t) (i : Z) (c : pc) : t := mk (count_ s) (<[i := c]> (threads s)) (waits s) (signals s).

(** kernel/threadlib/semaphore.h:31-38, timed_wait: no time to wait is a single try. *)
Definition timed (now max_time_microseconds : Z) : mode :=
  if max_time_microseconds =? 0 then Once else Until (u64 (now + max_time_microseconds)).

(** kernel/threadlib/semaphore.h:13-55, try_wait, wait, timed_wait and signal by thread [i],
    one access at a time; a wait that finds zero yields with sched(), which stops the
    machine. *)
Definition step (s : t) (i : Z) (c : cmd) : outcome t :=
  match at_ s i, c with
  | Idle, TryWait => Ret (goto s i (WaitRead Once))
  | Idle, Wait => Ret (goto s i (WaitRead Forever))
  | Idle, TimedWait now max => Ret (goto s i (WaitRead (timed now max)))
  | Idle, Signal => Ret (goto s i SignalRead)
  | WaitRead m, Go now =>
      if count_ s >? 0 then Ret (goto s i (WaitSwap m (count_ s)))
      else match m with
           | Once => Ret (goto s i Idle)
           | Until end_time => if now >? end_time then Ret (goto s i Idle) else Fatal "!not implemented"
           | Forever => Fatal "!not implemented"
           end
  | WaitSwap m count, Go _ =>
      if count_ s =? count
      then Ret (goto (mk (u32 (count - 1)) (threads s) (waits s + 1) (signals s)) i Idle)
      else Ret (goto s i (WaitRead m))
  | SignalRead, Go _ => Ret (goto s i (SignalSwap (count_ s)))
  | SignalSwap count, Go _ =>
      if count_ s =? count
      then Ret (goto (mk (u32 (count + 1)) (threads s) (waits s) (signals s + 1)) i Idle)
      else Ret (goto s i SignalRead)
  | _, _ => Ret s
  end.

Fixpoint run (s : t) (schedule : list (Z * cmd)) : outcome t :=
  match schedule with
  | [] => Ret s
  | (i, c) :: l => s' ← step s i c; run s' l
  end.

(** The counter is exact, and a thread that is about to take a unit has seen one. *)
Record inv (initial n : Z) (s : t) : Prop := {
  i_count : count_ s = initial + signals s - waits s;
  i_range : 0 <= count_ s;
  i_signals : 0 <= signals s <= n /\ 0 <= waits s;
  i_swap : forall i m c, at_ s i = WaitSwap m c -> 0 < c }.

Lemma semaphore_at_goto s i c j : at_ (goto s i c) j = if decide (j = i) then c else at_ s j.
Proof.
  unfold at_, goto. cbn. case_decide as D; [subst; by rewrite lookup_insert_eq | by rewrite lookup_insert_ne].
Qed.

Lemma inv_goto initial n s i c count w g :
  inv initial n s -> (forall m x, c = WaitSwap m x -> 0 < x) ->
  count = initial + g - w -> 0 <= count -> 0 <= g <= n + 1 -> 0 <= w ->
  inv initial (n + 1) (goto (mk count (threads s) w g) i c).
Proof.
  intros [I1 I2 I3 I4] Hc Hcount Hpos Hg Hw. split; try done; cbn.
  intros j m x. rewrite semaphore_at_goto. case_decide; [apply Hc | apply (I4 j)].
Qed.

Lemma semaphore_step_inv initial n s i c s' :
  inv initial n s -> 0 <= initial -> 0 <= n -> initial + n + 1 < 2 ^ 32 -> step s i c = Ret s' -> inv initial (n + 1) s'.
Proof.
  intros I Hi0 Hn0 Hn E. pose proof I as [I1 I2 I3 I4]. unfold step in E.
  assert (inv initial (n + 1) s) as Same by (split; try done; lia).
  assert (forall c, (forall m x, c = WaitSwap m x -> 0 < x) -> inv initial (n + 1) (goto s i c)) as Move.
  { intros pc' Hp. destruct s as [co th w g]. cbn in *. apply (inv_goto initial n (mk co th w g)); try done; lia. }
  destruct (at_ s i) eqn:A, c; try (injection E as <-; (exact Same || by apply Move)).
  - destruct (Z.gtb_spec (count_ s) 0).
    + injection E as <-. apply Move. intros ? ? [= _ <-]. lia.
    + destruct m as [| | e]; [| done | destruct (now >? e); [| done]]; injection E as <-; by apply Move.
  - destruct (Z.eqb_spec (count_ s) count) as [C | C]; injection E as <-; [| by apply Move].
    pose proof (I4 _ _ _ A). unfold u32. rewrite wrap_small by (unfold in_range; lia). apply inv_goto; try done; lia.
  - destruct (Z.eqb_spec (count_ s) count) as [C | C]; injection E as <-; [| by apply Move].
    unfold u32. rewrite wrap_small by (unfold in_range; lia). apply inv_goto; try done; lia.
Qed.

Lemma semaphore_run_inv initial schedule : forall n s s',
  inv initial n s -> 0 <= initial -> 0 <= n -> initial + n + Z.of_nat (length schedule) < 2 ^ 32 ->
  run s schedule = Ret s' -> inv initial (n + Z.of_nat (length schedule)) s'.
Proof.
  induction schedule as [| [i c] l IH]; intros n s s' I H0 Hn Hlen E.
  { injection E as <-. by rewrite Z.add_0_r. }
  cbn [run length] in *. apply bind_Ret in E as (s1 & E1 & E2).
  replace (n + Z.of_nat (S (length l))) with (n + 1 + Z.of_nat (length l)) by lia.
  apply (IH (n + 1) s1 s'); [| done | lia | lia | done]. eapply semaphore_step_inv; [exact I | done | done | lia | exact E1].
Qed.

(** The semaphore: after every schedule the counter is the initial count plus the signals
    minus the waits that are done, so there are never more waits than units, and no unit is
    lost; a thread that tries to wait and runs alone takes a unit when there is one, in two
    accesses, and otherwise returns without it. *)
Theorem semaphore_counts initial schedule s
  (H0 : 0 <= initial) (Hlen : initial + Z.of_nat (length schedule) < 2 ^ 32)
  (E : run (new initial) schedule = Ret s) :
  count_ s = initial + signals s - waits s /\ waits s <= initial + signals s /\
  forall i now, at_ s i = WaitRead Once ->
    (0 < count_ s -> exists s', run s [(i, Go now); (i, Go now)] = Ret s' /\ at_ s' i = Idle /\
       waits s' = waits s + 1 /\ count_ s' = count_ s - 1) /\
    (count_ s = 0 -> exists s', run s [(i, Go now)] = Ret s' /\ at_ s' i = Idle /\ waits s' = waits s).
Proof.
  assert (inv initial (Z.of_nat (length schedule)) s) as [I1 I2 I3 I4].
  { apply (semaphore_run_inv initial schedule 0 (new initial)); [| done | done | lia | done]. split; try done; cbn; lia. }
  split; [done |]. split; [lia |]. intros i now A. split; intros C.
  - cbn [run mbind outcome_bind]. unfold step at 2. rewrite A, (proj2 (Z.gtb_lt _ _)) by lia. cbn [mbind outcome_bind].
    unfold step. rewrite semaphore_at_goto, decide_True by done. cbn [count_ goto]. rewrite Z.eqb_refl.
    eexists. split; [done |]. rewrite semaphore_at_goto, decide_True by done. cbn. split_and!; try done.
    unfold u32. apply wrap_small. unfold in_range. lia.
  - cbn [run mbind outcome_bind]. unfold step. rewrite A, C. cbn. eexists. split; [done |].
    rewrite semaphore_at_goto, decide_True by done. done.
Qed.

Definition schedule0 : list (Z * cmd) := [(1, Signal); (1, Go 0); (2, TryWait); (1, Go 0)].

Lemma semaphore_counts_witness : exists s, run (new 0) schedule0 = Ret s /\ count_ s = 1.
Proof.
  destruct (run (new 0) schedule0) as [s | |] eqn:E; [| discriminate E | discriminate E].
  exists s. split; [reflexivity |]. destruct (semaphore_counts 0 schedule0 s ltac:(done) ltac:(done) E) as [C _].
  rewrite C. vm_compute in E. injection E as <-. reflexivity.
Defined.

End Semaphore.

Module Condvar.

(** kernel/threadlib/condvar.h:83-87, condvar_node_t: the count of its semaphore and the
    pointer to the next node. *)
Record node : Type := mkNode { sem : Z; next : option Z }.

(** kernel/threadlib/condvar.h:89-90, condvar_t members (the mutex [m_] is held during every
    operation below); the nodes are the local variables of the threads that wait. *)
Record t : Type := mk { q_ : option Z; nodes : gmap Z node }.

(** kernel/threadlib/condvar.h:12-12, condvar_t. *)
Definition new : t := mk None ∅.

Definition get (s : t) (n : Z) : outcome node :=
  match nodes s !! n with Some d => Ret d | None => Fatal "use of a destroyed node" end.
Definition put (s : t) (n : Z) (d : node) : t := mk (q_ s) (<[n := d]> (nodes s)).

(** kernel/threadlib/condvar.h:19-23, wait (and timed_wait): a new node [n] is put first. *)
Definition enqueue (s : t) (n : Z) : t := mk (Some n) (<[n := mkNode 0 (q_ s)]> (nodes s)).

(** kernel/threadlib/condvar.h:26-28, the wait on the semaphore of the node: it returns once the
    semaphore was signalled, and the node is gone.  The calls of the client's mutex around it (25 and 27) act on
    that mutex alone, and the second stops the machine if another thread has it then (see [Mutex]). *)
Definition leave (s : t) (n : Z) : outcome t :=
  d ← get s n;
  if sem d >? 0 then Ret (mk (q_ s) (delete n (nodes s))) else OutOfFuel.

(** kernel/threadlib/condvar.h:68-68, the semaphore of the first node [n]. *)
Definition signal_node (s : t) (n : Z) : outcome t :=
  d ← get s n; Ret (put s n (mkNode (u32 (sem d + 1)) (next d))).

(** kernel/threadlib/condvar.h:69-69, the first node [n] is taken off. *)
Definition pop_node (s : t) (n : Z) : outcome t :=
  d ← get s n; Ret (mk (next d) (nodes s)).

(** kernel/threadlib/condvar.h:65-72, signal. *)
Definition signal (s : t) : outcome t :=
  match q_ s with
  | None => Ret s
  | Some n => s ← signal_node s n; pop_node s n
  end.

(** kernel/threadlib/condvar.h:74-81, broadcast. *)
Fixpoint broadcast (fuel : nat) (s : t) : outcome t :=
  match q_ s with
  | None => Ret s
  | Some n =>
      match fuel with
      | O => OutOfFuel
      | S fuel' => s ← signal_node s n; s ← pop_node s n; broadcast fuel' s
      end
  end.

(** kernel/threadlib/condvar.h:43-59, the loop of timed_wait that takes its node [n] off the
    list after the time is over. *)
Fixpoint unlink (fuel : nat) (s : t) (n : Z) (prev it : option Z) : outcome t :=
  match it with
  | None => Ret s
  | Some i =>
      d ← get s i;
      if decide (n = i) then
        s ← match prev with
            | Some p => dp ← get s p; Ret (put s p (mkNode (sem dp) (next d)))
            | None => Ret (mk (next d) (nodes s))
            end;
        Ret (put s i (mkNode (sem d) None))
      else
        match fuel with
        | O => OutOfFuel
        | S fuel' => unlink fuel' s n (Some i) (next d)
        end
  end.

(** ** The specification: a stack of waiting threads *)

(** The nodes [l], linked from [q] to [r]. *)
Fixpoint seg (m : gmap Z node) (q : option Z) (l : list Z) (r : option Z) : Prop :=
  match l with
  | [] => q = r
  | n :: l' => q = Some n /\ exists d, m !! n = Some d /\ seg m (next d) l' r
  end.

Definition waiting (s : t) (l : list Z) : Prop := seg (nodes s) (q_ s) l None /\ NoDup l.

Lemma seg_app m l1 l2 : forall q r, seg m q (l1 ++ l2) r <-> exists x, seg m q l1 x /\ seg m x l2 r.
Proof.
  induction l1 as [| n l1 IH]; intros q r; cbn; [naive_solver |]. split.
  - intros [-> (d & E & S)]. apply IH in S as (x & S1 & S2). eauto 10.
  - intros (x & [-> (d & E & S1)] & S2). split; [done |]. exists d. split; [done |]. apply IH. eauto.
Qed.

Lemma seg_insert m n d l : forall q r, n ∉ l -> seg m q l r -> seg (<[n := d]> m) q l r.
Proof.
  induction l as [| k l IH]; intros q r Hn; cbn; [done |]. intros [-> (e & E & S)]. apply not_elem_of_cons in Hn as [H1 H2].
  split; [done |]. exists e. rewrite lookup_insert_ne by done. auto.
Qed.

(** The semaphore of a node. *)
Definition sem_of (s : t) (n : Z) : option Z := sem <$> nodes s !! n.

Lemma signal_spec s n l :
  waiting s (n :: l) -> exists s', signal s = Ret s' /\ waiting s' l /\
    sem_of s' n = (fun c => u32 (c + 1)) <$> sem_of s n /\ (forall k, k <> n -> nodes s' !! k = nodes s !! k) /\
    dom (nodes s') = dom (nodes s).
Proof.
  intros [[Q (d & E & S)] ND]. inversion_clear ND as [| ? ? Hn ND']. unfold signal, signal_node, pop_node, get.
  rewrite Q, E. cbn [mbind outcome_bind put nodes]. rewrite lookup_insert_eq. cbn [mbind outcome_bind next].
  eexists. split; [done |]. split; [split; [by apply seg_insert | done] |]. unfold sem_of. cbn [nodes]. split_and!.
  - by rewrite lookup_insert_eq, E.
  - intros k Hk. by rewrite lookup_insert_ne.
  - rewrite dom_insert_L. apply elem_of_dom_2 in E. set_solver.
Qed.

Lemma broadcast_spec l : forall s fuel,
  waiting s l -> (length l <= fuel)%nat -> exists s', broadcast fuel s = Ret s' /\ waiting s' [] /\
    (forall k, k ∈ l -> sem_of s' k = (fun c => u32 (c + 1)) <$> sem_of s k) /\
    (forall k, k ∉ l -> nodes s' !! k = nodes s !! k).
Proof.
  induction l as [| n l IH]; intros s fuel W Hf.
  - destruct W as [Q ND]. cbn in Q. exists s. destruct fuel; cbn; rewrite Q; (split; [done |]); (split; [done |]); set_solver.
  - destruct fuel as [| fuel]; [cbn in Hf; lia |]. destruct (signal_spec s n l W) as (s1 & E1 & W1 & S1 & F1 & _).
    unfold signal in E1. cbn [broadcast]. destruct W as [[Q _] ND]. rewrite Q in *. inversion_clear ND as [| ? ? Hn _].
    apply bind_Ret in E1 as (s0 & E0 & E1). rewrite E0. cbn [mbind outcome_bind]. rewrite E1. cbn [mbind outcome_bind].
    destruct (IH s1 fuel W1) as (s' & -> & W' & S' & F'); [cbn in Hf; lia |]. exists s'. split; [done |]. split; [done |]. split.
    + intros k [-> | Hk]%elem_of_cons; [unfold sem_of in *; by rewrite F' |].
      rewrite S' by done. unfold sem_of. by rewrite F1 by set_solver.
    + intros k [H1 H2]%not_elem_of_cons. by rewrite F', F1.
Qed.

(** The list from [it] on, when the nodes [l1] were passed. *)
Lemma unlink_spec l2 : forall l1 s n fuel prev it,
  seg (nodes s) (q_ s) l1 it -> seg (nodes s) it l2 None -> prev = last l1 -> NoDup (l1 ++ l2) -> n ∈ l2 ->
  (length l2 <= fuel)%nat ->
  exists s' l3 l4, l2 = l3 ++ n :: l4 /\ unlink fuel s n prev it = Ret s' /\ seg (nodes s') (q_ s') (l1 ++ l3 ++ l4) None /\
    forall k, sem_of s' k = sem_of s k.
Proof.
  induction l2 as [| i l2 IH]; intros l1 s n fuel prev it S1 S2 Hp ND Hn Hf; [by apply elem_of_nil in Hn |].
  destruct S2 as [-> (d & E & S2)]. apply NoDup_app in ND as (ND1 & Dis & ND2). inversion_clear ND2 as [| ? ? Hi ND2'].
  assert (i ∉ l1) as Hi1 by (intros X; apply (Dis i X); left).
  unfold unlink; fold unlink. assert (get s i = Ret d) as Eg by (unfold get; by rewrite E).
  destruct fuel as [| fuel]; [cbn in Hf; lia |]. cbn [unlink]. rewrite Eg. cbn [mbind outcome_bind].
  destruct (decide (n = i)) as [-> | Hne].
  - destruct (last l1) as [p |] eqn:Lp; subst prev.
    + apply last_Some in Lp as [l0 ->]. apply seg_app in S1 as (x & S0 & [-> (dp & Ep & Sp)]). cbn in Sp. subst.
      apply not_elem_of_app in Hi1 as [Hi0 Hip]. apply not_elem_of_cons in Hip as [Hip _].
      apply NoDup_app in ND1 as (_ & Dis0 & _). assert (p ∉ l0) as Hp0 by (intros X; apply (Dis0 p X); left).
      assert (p ∉ l2) as Hp2 by (intros X; apply (Dis p); [apply elem_of_app; right; left | by right]).
      unfold get. rewrite Ep. cbn [mbind outcome_bind]. eexists _, [], l2. split; [done |]. split; [done |].
      cbn [put nodes q_ app]. split.
      * rewrite <- app_assoc. apply seg_app. exists (Some p). split; [by repeat apply seg_insert |]. cbn. split; [done |].
        exists (mkNode (sem dp) (next d)). rewrite lookup_insert_ne, lookup_insert_eq by done. split; [done |].
        cbn. by repeat apply seg_insert.
      * intros k. unfold sem_of. cbn [nodes put]. destruct (decide (k = i)) as [-> | ]; [by rewrite lookup_insert_eq, E |].
        rewrite lookup_insert_ne by done. destruct (decide (k = p)) as [-> | ]; [by rewrite lookup_insert_eq, Ep |].
        by rewrite lookup_insert_ne.
    + apply last_None in Lp as ->. cbn in S1. subst. eexists _, [], l2. split; [done |]. split; [done |].
      cbn [put nodes q_ app]. split; [by apply seg_insert |]. intros k. unfold sem_of. cbn [nodes put].
      destruct (decide (k = i)) as [-> | ]; [by rewrite lookup_insert_eq, E | by rewrite lookup_insert_ne].
  - destruct (IH (l1 ++ [i]) s n fuel (Some i) (next d)) as (s' & l3 & l4 & -> & E' & S' & K).
    + apply seg_app. exists (Some i). split; [done |]. cbn. eauto.
    + done.
    + by rewrite last_snoc.
    + rewrite <- app_assoc. apply NoDup_app. split_and!; [done | done |]. by constructor.
    + by apply elem_of_cons in Hn as [-> |].
    + cbn in Hf. lia.
    + exists s', (i :: l3), l4. split_and!; try done. by rewrite <- app_assoc in S'.
Qed.

(** C39. The condition variable keeps a stack of waiting threads: a new waiter goes on top,
    signal wakes exactly the top one, broadcast wakes all of them once, and a waiter whose
    time is over is taken out with the others kept in order.  But a woken thread may return
    before signal has read the link of its node, which is a local variable of that thread:
    in this order of steps the destroyed node is used. *)
Theorem condvar_stack s l (W : waiting s l) (fuel : nat) (Hf : (length l <= fuel)%nat) :
  (forall n, n ∉ l -> waiting (enqueue s n) (n :: l)) /\
  (l = [] -> signal s = Ret s) /\
  (forall n l', l = n :: l' -> exists s', signal s = Ret s' /\ waiting s' l' /\
     sem_of s' n = (fun c => u32 (c + 1)) <$> sem_of s n /\ forall k, k <> n -> nodes s' !! k = nodes s !! k) /\
  (exists s', broadcast fuel s = Ret s' /\ waiting s' [] /\
     (forall k, k ∈ l -> sem_of s' k = (fun c => u32 (c + 1)) <$> sem_of s k) /\
     (forall k, k ∉ l -> nodes s' !! k = nodes s !! k)) /\
  (forall n, n ∈ l -> exists s', unlink fuel s n None (q_ s) = Ret s' /\ waiting s' (filter (fun k => k <> n) l) /\
     forall k, sem_of s' k = sem_of s k) /\
  (forall n l' d, l = n :: l' -> nodes s !! n = Some d -> 0 <= sem d < 2 ^ 32 - 1 ->
     exists s1 s2, signal_node s n = Ret s1 /\ leave s1 n = Ret s2 /\ pop_node s2 n = Fatal "use of a destroyed node").
Proof.
  pose proof W as [S ND]. split_and!.
  - intros n Hn. split; [| by constructor]. cbn. split; [done |]. exists (mkNode 0 (q_ s)). rewrite lookup_insert_eq.
    split; [done |]. by apply seg_insert.
  - intros ->. cbn in S. unfold signal. by rewrite S.
  - intros n l' ->. destruct (signal_spec s n l' W) as (s' & E & W' & P & F & _). eauto 10.
  - by apply broadcast_spec.
  - intros n Hn. destruct (unlink_spec l [] s n fuel None (q_ s)) as (s' & l3 & l4 & El & E & S' & K); try done.
    exists s'. split; [done |]. split; [| done]. subst l.
    assert (filter (fun k => k <> n) (l3 ++ n :: l4) = l3 ++ l4) as ->.
    { apply NoDup_app in ND as (_ & D & ND). inversion_clear ND as [| ? ? Hn4 _].
      assert (forall l : list Z, n ∉ l -> filter (fun k => k <> n) l = l) as F.
      { clear. induction l as [| k l IH]; intros Hk; [done |]. apply not_elem_of_cons in Hk as [H1 H2].
        rewrite filter_cons_True by done. by rewrite IH. }
      rewrite filter_app, filter_cons_False, !F; [done | done | | by intros []]. intros X. apply (D n X). left. }
    split; [done |]. apply NoDup_app in ND as (N1 & D & N2). inversion_clear N2. apply NoDup_app. split_and!; try done.
    intros x X1 X2. apply (D x X1). by right.
  - intros n l' d -> Ed Hd. unfold signal_node, get. rewrite Ed. cbn [mbind outcome_bind].
    eexists (put s n _), _. split; [done |]. unfold leave, get. cbn [put nodes q_]. rewrite lookup_insert_eq.
    cbn [mbind outcome_bind sem]. unfold u32. rewrite wrap_small by (unfold in_range; lia).
    rewrite (proj2 (Z.gtb_lt _ _)) by lia. split; [done |]. unfold pop_node, get. cbn [nodes].
    by rewrite lookup_delete_eq.
Qed.

Lemma condvar_stack_witness :
  exists s', signal (enqueue (enqueue new 1) 2) = Ret s' /\ waiting s' [1].
Proof.
  assert (waiting (enqueue (enqueue new 1) 2) [2; 1]) as W.
  { split; [vm_compute; repeat (split; [reflexivity |] || eexists) | apply (bool_decide_unpack _); vm_compute; exact I]. }
  destruct (condvar_stack _ [2; 1] W 2 (le_n _)) as (_ & _ & P & _).
  destruct (P 2 [1] eq_refl) as (s' & E & W' & _). exists s'. split; [exact E | exact W'].
Defined.

End Condvar.
