(* ===== verification/Boot.v ===== *)
(** * kernel/kernel-main.cc: the start of the kernel

    The order in which the boot processor constructs the global objects, and the boot
    module.  The theorem composes the console, the physical and virtual memory, the
    interrupt table, the archive reader and the inflater: from what the boot loader left in memory to
    the files of the archive.

    Physical memory is shared: the kernel's data, its stack, the stacks of free pages, the
    page tables and the pages that are faulted in lie in the memory that the module is read
    from.  What the kernel has written to them is not followed; they hold arbitrary bytes
    ([kernel_writes]) once they were used. *)

From S2P Require Import Prelude Utils Multiboot PhysMem AddressSpace MemManager DlHeap Dlmalloc DlSpace KernelHeap Initrd Engine Sched Io Apic Idt Console Deflate Tinfl TinflInflate.

Module KernelMain.
Import Multiboot LogWriterVideo.

Section Boot.
Context {S mspace : Type} `{Ports S} `{MspaceOps mspace}.
Variable polls : nat.
Variable address_of : IrqsArch.gate -> Z.
Variable tinfl : ram -> Z -> Z -> Z -> option (list Z).
(** The data and bss sections of the kernel, which the linker places. *)
Variables data_start data_end : Z.

(** kernel/kernel-main.cc:37-45, the global objects that exist after Initialize; the
    memory of the machine is the one of the screen writer. *)
Record globals : Type := mk {
  boot_services : Logger.t (S := S); mem_manager : MemManager.t (mspace := mspace); cr3 : Z; initrd : Initrd.t }.

Definition memory_of (log : Logger.t (S := S)) : ram := memory (Logger.video_writer_ log).
Definition set_memory (log : Logger.t (S := S)) (m : ram) : Logger.t (S := S) :=
  let v := Logger.video_writer_ log in
  Logger.set_video log (LogWriterVideo.mk (display_buf_ v) m (attribute_ v) (cursor_x_ v) (cursor_y_ v)).

(** kernel/mem-manager.h:91-107, the layout of memory, with the constants of lines 198-203:
    the memory that the kernel writes to.  That is its own data, the screen, its stack (18
    to 22 MiB), the stacks of free pages and their states (22 to 26 MiB), the page tables (26
    to 32 MiB), and the pages that were handed out. *)
Definition owned (mm : MemManager.t (mspace := mspace)) (a : Z) : bool :=
  ((data_start <=? a) && (a <? data_end)) || ((kVideo <=? a) && (a <? kVideo + 4000)) ||
  ((18 * MiB <=? a) && (a <? PhysicalAllocator.kAllocStartAddress)) ||
  ((PhysicalAllocator.kAllocStartAddress <=? a) &&
   PhysicalAllocator.status (MemManager.pmm_ mm) (a / PhysicalAllocator.kPageSizeBytes)).

(** The memory [m] when the kernel left [scratch] in the parts that it writes to. *)
Definition kernel_writes (mm : MemManager.t (mspace := mspace)) (scratch m : ram) : ram :=
  fun a => if owned mm a then scratch a else m a.

(** kernel/kernel-main.cc:66-82, KernelMain::Initialize, up to the static constructors of
    V8; [banner] is the first message, [fuel] bounds the memory map, [accs] are the
    addresses that the heap accesses when it is made, and [scratch] is what the memory of the
    kernel's own holds afterwards (the screen too, where later messages go). *)
Definition Initialize (s : S) (m : ram) (mbt : Z) (banner : list Z) (fuel : nat) (accs : list Z) (scratch : ram)
  : outcome globals :=
  '(_, log) ← FileIo.printf polls (Logger.new s m) banner;
  mm ← MemManager.new (memory_of log) mbt fuel;
  let '(s, m) := IrqsArch.SetUp address_of (Logger.ports log) (memory_of log) in
  let log := set_memory (Logger.set_ports log s) m in
  '(cr3, mm) ← MemManager.InitSubsystems mm 0 accs;
  Ret (mk (set_memory log (kernel_writes mm scratch (memory_of log))) mm cr3 Initrd.new).

(** [malloc] of the kernel, where the accesses of the call were made. *)
Definition kernel_malloc (mm : MemManager.t (mspace := mspace)) (n : Z) : Z :=
  match MemManager.malloc mm [] n with Ret (p, _) => p | _ => 0 end.

(** kernel/kernel-main.cc:92-131, KernelMain::ParseMultiboot: the command line, the files
    and the memory with the inflated archive.  [accs] are the addresses that [malloc] and the
    inflater access, and [scratch] is what the kernel's own memory holds, the pages for these
    addresses included. *)
Definition ParseMultiboot (mm : MemManager.t (mspace := mspace)) (accs : list Z) (scratch : ram) (m : ram) (mbt : Z)
  (files : Initrd.t) : outcome (cptr * Initrd.t * ram) :=
  _ ← rt_assert (negb (mbt =? 0)) "s";
  let s := MultibootStruct_at m mbt in
  let mod_count := module_count s in
  let mod_addr := module_addr s in
  if (0 =? mod_count) || (0 =? mod_addr) then Fatal "aborted"
  else
    let cmd := if negb (0 =? cmdline s) then Ptr (cmdline s) else Lit [] in
    let rd_end := mod_end (module_at m mod_addr) in
    let rd_start := mod_addr in
    let len := u32 (rd_end - rd_start) in
    if (0 =? len) || (len >? 128 * MiB) then Fatal "aborted"
    else
      mm ← MemManager.touches mm accs;
      '(files, m) ← Initrd.Init (kernel_malloc mm) tinfl (kernel_writes mm scratch m) files rd_start len;
      Ret (cmd, files, m).

(** kernel/kernel-main.cc:147-156, the random numbers that libsodium is given. *)
Definition runtime_rng_random : Z := 42.
Definition runtime_rng_buf (size : nat) : list Z := replicate size 42.

(** ** The memory that the start does not touch *)

Definition untouched (a : Z) : Prop :=
  4096 <= a < 18 * MiB /\ ~ (kVideo <= a < kVideo + 4000) /\ ~ (data_start <= a < data_end).
Definition agrees (m m' : ram) : Prop := forall a, untouched a -> m' a = m a.

(** The [n] bytes from [a] on are not touched. *)
Definition clear_of (a n : Z) : Prop := forall i, 0 <= i < n -> untouched (a + i).

Lemma clear_untouched a n i : clear_of a n -> 0 <= i < n -> untouched (a + i).
Proof. intros C. apply C. Qed.

Lemma kernel_writes_agrees mm scratch m m' : agrees m m' -> agrees m (kernel_writes mm scratch m').
Proof.
  intros A a Ha. unfold kernel_writes. replace (owned mm a) with false; [by apply A |]. symmetry.
  destruct Ha as (H1 & H2 & H3). unfold owned. change PhysicalAllocator.kAllocStartAddress with (32 * MiB).
  rewrite !orb_false_iff, !andb_false_iff, !Z.leb_gt, !Z.ltb_ge. unfold MiB in *. split_and!; lia.
Qed.

Lemma kernel_writes_ok mm scratch m : ram_ok scratch -> ram_ok m -> ram_ok (kernel_writes mm scratch m).
Proof. intros Hs Hm a. unfold kernel_writes. destruct (owned mm a); [apply Hs | apply Hm]. Qed.

Lemma load_agrees m m' a n : agrees m m' -> clear_of a (Z.of_nat n) -> load m' a n = load m a n.
Proof.
  intros A C. unfold load. f_equal. apply map_ext_in. intros i Hi%in_seq. apply A, (clear_untouched a (Z.of_nat n)); [done | lia].
Qed.

Lemma clear_sub a n b k : clear_of a n -> a <= b -> b + k <= a + n -> 0 <= k -> clear_of b k.
Proof. intros C H1 H2 H3 i Hi. replace (b + i) with (a + (b - a + i)) by lia. apply C. lia. Qed.

Lemma struct_agrees m m' p : agrees m m' -> clear_of p 68 -> MultibootStruct_at m' p = MultibootStruct_at m p.
Proof.
  intros A C. unfold MultibootStruct_at, load32.
  assert (forall i, 0 <= i < 17 -> load m' (p + 4 * i) 4 = load m (p + 4 * i) 4) as L.
  { intros i Hi. apply load_agrees; [done |]. apply (clear_sub p 68); [done | lia..]. }
  by rewrite !L by lia.
Qed.

Lemma holds_agrees m m' p bs :
  agrees m m' -> clear_of p (Z.of_nat (length bs)) -> holds m p bs -> holds m' p bs.
Proof.
  intros A C Hh i b E. rewrite A; [by apply Hh |]. apply (clear_untouched p (Z.of_nat (length bs))); [done |].
  apply lookup_lt_Some in E. lia.
Qed.

(** An entry is read whole, so a map may be followed by bytes of the last one. *)
Lemma mmap_agrees m m' cur stop es :
  agrees m m' -> clear_of cur (stop + 24 - cur) -> mmap_wf m cur stop es -> mmap_wf m' cur stop es.
Proof.
  intros A C W. revert C. induction W as [stop | cur stop ent es H1 H2 H3 Hent H4 H5 W IH]; intros C; [apply mmap_nil |].
  apply mmap_cons; try done.
  - rewrite <- Hent. unfold entry_at, load32, load64.
    by rewrite !(load_agrees m m') by (done || (apply (clear_sub _ _ _ _ C); lia)).
  - apply IH. apply (clear_sub _ _ _ _ C); lia.
Qed.

Lemma unsigned_agrees m m' pos : agrees m m' -> clear_of pos 8 -> Initrd.unsigned_at m pos -> Initrd.unsigned_at m' pos.
Proof.
  intros A C. unfold Initrd.unsigned_at, Utils.ReadUint32BE, PackageReader.is_pckg.
  assert (forall i, 0 <= i < 8 -> m' (pos + i) = m (pos + i)) as E by (intros i Hi; apply A; by apply (clear_untouched pos 8)).
  pose proof (E 0 ltac:(lia)) as E0. rewrite Z.add_0_r in E0. rewrite E0.
  replace (pos + 4 + 1) with (pos + 5) by lia. replace (pos + 4 + 2) with (pos + 6) by lia.
  replace (pos + 4 + 3) with (pos + 7) by lia. by rewrite !E by lia.
Qed.

(** ** The parts that are touched hold bytes *)

Lemma gate_bytes_range func type b :
  0 <= func -> in_range 8 type -> b ∈ IrqsArch.gate_bytes func type -> in_range 8 b.
Proof.
  intros Hf Ht Hb.
  assert (forall k, 0 <= k -> in_range 8 (Z.shiftr (Z.land func (Z.shiftl 0xFF (8 * k))) (8 * k))) as B.
  { intros k Hk. rewrite Z.shiftr_land, Z.shiftr_shiftl_l, Z.sub_diag, Z.shiftl_0_r by lia.
    apply land_range; [lia | by apply Z.shiftr_nonneg | done]. }
  unfold IrqsArch.gate_bytes in Hb. repeat (apply elem_of_cons in Hb as [-> | Hb]; [first [apply B; lia | done] |]).
  by apply elem_of_nil in Hb.
Qed.

Definition cell_ok (c : cell) : Prop := in_range 8 c.1 /\ in_range 8 c.2.
Definition term_ok (l : terminal) : Prop :=
  Forall (Forall cell_ok) (past l) /\ Forall cell_ok (line l) /\ in_range 8 (colour l).

Lemma type_ok text : forall l, term_ok l -> Forall (fun x => in_range 8 x.2) text -> term_ok (type_all l text).
Proof.
  induction text as [| [ty c] text IH]; intros l Hl F; [done |]. inversion_clear F as [| ? ? Fc F']. apply IH; [| done].
  destruct Hl as (P & L & C). unfold type_char. set (a := attribute ty (colour l)).
  assert (in_range 8 a) as Ha by (unfold a; destruct ty; done).
  assert (forall l, term_ok l -> term_ok (fit l)) as Fit.
  { clear. intros l (P & L & C). unfold fit. destruct (80 <=? _); [| done]. split_and!; cbn; [| constructor | done].
    apply Forall_app. split; [done |]. by constructor. }
  apply Fit. destruct (c =? 10); [| destruct (c =? 9)]; split_and!; cbn [past line colour]; try done.
  - apply Forall_app. split; [done |]. by constructor.
  - apply Forall_app. split; [done |]. by apply Forall_replicate.
  - apply Forall_app. split; [done |]. apply Forall_singleton. by split.
Qed.

Lemma cell_of_ok l r x : term_ok l -> cell_ok (cell_of l r x).
Proof.
  intros (P & L & _). unfold cell_of. destruct ((past l ++ [line l]) !! _) as [row |] eqn:E; [| by split]. cbn.
  destruct (row !! _) as [c |] eqn:E'; [| by split]. cbn.
  assert (Forall (Forall cell_ok) (past l ++ [line l])) as F by (apply Forall_app; split; [done | by constructor]).
  apply (Forall_lookup_1 _ _ _ _ F) in E. by apply (Forall_lookup_1 _ _ _ _ E) in E'.
Qed.

(** The console before the interrupts: the memory after the banner. *)
Lemma banner_memory s m banner :
  ram_ok m -> Forall (in_range 8) banner ->
  exists log, FileIo.printf polls (Logger.new s m) banner = Ret (Z.of_nat (length banner), log) /\
    ram_ok (memory_of log) /\ forall a, a < kVideo \/ kVideo + 4000 <= a -> memory_of log a = m a.
Proof.
  intros Hm Hb. pose proof (new_shows s m) as Ok.
  destruct (WriteAll_shows m (map (pair DEFAULT) banner) _ _ Ok) as (v & E & [_ _ Hv Hr _] & _).
  unfold FileIo.printf. rewrite (FileIo.PrintFormat_screen _ _ _ _ v); try done.
  eexists. split; [done |]. unfold memory_of. cbn [Logger.set_type Logger.set_video Logger.video_writer_]. split; [| done].
  intros a. destruct (decide (kVideo <= a < kVideo + 4000)) as [D | D]; [| rewrite Hr by lia; apply Hm].
  set (l := type_all _ _) in *. assert (term_ok l) as Tl.
  { apply type_ok; [by repeat constructor |]. apply Forall_forall. intros x (c & -> & Hc)%list_elem_of_fmap.
    by apply (proj1 (Forall_forall _ _) Hb). }
  set (o := a - kVideo). set (y := o / 160). set (x := (o `mod` 160) / 2).
  pose proof (Z.div_mod o 160 ltac:(lia)) as D1. pose proof (Z.mod_pos_bound o 160 ltac:(lia)) as D2.
  pose proof (Z.div_mod (o `mod` 160) 2 ltac:(lia)) as D3. pose proof (Z.mod_pos_bound (o `mod` 160) 2 ltac:(lia)) as D4.
  fold y in D1. fold x in D3.
  assert (on_screen y x) as O by (split; [split; [apply Z.div_pos; lia | apply Z.div_lt_upper_bound; lia]
    | split; [apply Z.div_pos; lia | apply Z.div_lt_upper_bound; lia]]).
  pose proof (Hv y x O) as Hc. pose proof (cell_of_ok l (first_line l + y) x Tl) as [K1 K2]. rewrite <- Hc in K1, K2.
  unfold cell_at in K1, K2. cbn [fst snd] in *.
  assert ((o `mod` 160) `mod` 2 = 0 \/ (o `mod` 160) `mod` 2 = 1) as [Par | Par] by lia.
  - replace a with (kVideo + (y * 80 + x) * 2) by lia. exact K1.
  - replace a with (kVideo + (y * 80 + x) * 2 + 1) by lia. exact K2.
Qed.

(** The memory after the interrupt table. *)
Lemma setup_memory (p : S) m :
  (forall g, in_range 64 (address_of g)) -> ram_ok m ->
  let m' := (IrqsArch.SetUp address_of p m).2 in
  ram_ok m' /\ forall a, 4096 <= a -> m' a = m a.
Proof.
  intros Ha Hm. destruct (IrqsArch.SetUp_table address_of p m) as [T1 T2]. cbn zeta. split; [| intros a Ha'; apply T2; lia].
  intros a. destruct (decide (0 <= a < 4096)) as [D | D]; [| rewrite T2 by lia; apply Hm].
  set (v := a / 16). set (i := a `mod` 16). pose proof (Z.div_mod a 16 ltac:(lia)) as E.
  pose proof (Z.mod_pos_bound a 16 ltac:(lia)) as Hi. fold i v in E, Hi.
  assert (0 <= v < 256) as Hv by (split; [apply Z.div_pos; lia | apply Z.div_lt_upper_bound; lia]).
  destruct (lookup_lt_is_Some_2 (IrqsArch.gate_bytes (address_of (IrqsArch.gate_of v)) 0x8e) (Z.to_nat i)) as [b Eb].
  { change (length (IrqsArch.gate_bytes (address_of (IrqsArch.gate_of v)) 0x8e)) with 16%nat. lia. }
  specialize (T1 v (Z.to_nat i) b Hv Eb). replace a with (IrqsArch.kIDTTableBase + v * 16 + Z.of_nat (Z.to_nat i)).
  - rewrite T1. apply (gate_bytes_range (address_of (IrqsArch.gate_of v)) 0x8e); [apply Ha | done |].
    by eapply list_elem_of_lookup_2.
  - unfold IrqsArch.kIDTTableBase. lia.
Qed.

(** ** What the boot loader leaves *)

(** A memory map with at least 94 MiB of free pages, and a module table followed by the
    module with the archive, all of it clear of the interrupt table and the screen. *)
Record left_by_loader (m : ram) (mbt : Z) (es : list MultibootMemoryMapEntry) (rd : Z)
  (rt app : list Z) (files : list Initrd.entry) (z : list Z) : Prop := {
  lb_ram : ram_ok m;
  lb_struct : clear_of mbt 68;
  lb_map : 0 < mmap_addr (MultibootStruct_at m mbt) /\ 0 < mmap_len (MultibootStruct_at m mbt) /\
    mmap_addr (MultibootStruct_at m mbt) + mmap_len (MultibootStruct_at m mbt) < 2 ^ 32;
  lb_map_clear : clear_of (mmap_addr (MultibootStruct_at m mbt)) (mmap_len (MultibootStruct_at m mbt) + 24);
  lb_entries : mmap_wf m (mmap_addr (MultibootStruct_at m mbt))
    (mmap_addr (MultibootStruct_at m mbt) + mmap_len (MultibootStruct_at m mbt)) es;
  lb_zones : Forall (fun z => Utils.zone_empty z = false /\ PhysicalAllocator.zone_ok z) (zones es);
  lb_pages : exists ps, NoDup ps /\ (47 <= length ps)%nat /\
    forall p, p ∈ ps -> exists z, z ∈ zones es /\ PhysicalAllocator.zone_has z p;
  lb_module : module_count (MultibootStruct_at m mbt) <> 0;
  lb_table : let tab := module_addr (MultibootStruct_at m mbt) in
    0 < tab /\ (4 | tab) /\ tab + 8 <= rd /\ clear_of tab (rd + 24 + zlen z - tab) /\
    rd + 24 + zlen z <= mod_end (module_at m tab) < 2 ^ 32 /\ mod_end (module_at m tab) - tab <= 128 * MiB /\
    forall j, 0 <= j < (rd - tab) / 4 -> Initrd.unsigned_at m (tab + 4 * j);
  lb_rd : (4 | rd);
  lb_image : holds m rd (Initrd.image rt app files z);
  lb_names : Initrd.name_ok rt /\ Initrd.name_ok app;
  lb_files : zlen files < 2 ^ 32 /\ Initrd.entries_ok files 0;
  lb_payload : zlen (Initrd.payload rt app files) < 2 ^ 32 /\
    Forall (in_range 8) (Initrd.payload rt app files) }.

Hypothesis address_range : forall g, in_range 64 (address_of g).

(** The start up to the initialisation of the memory manager. *)
Lemma Initialize_spec s m mbt es rd rt app files z banner fuel :
  left_by_loader m mbt es rd rt app files z -> Forall (in_range 8) banner -> (length es < fuel)%nat ->
  exists pa a as_ log, AddressSpaceX64.new = Ret as_ /\ PhysicalAllocator.refines pa a /\
    PhysicalAllocator.used_pages a = ∅ /\
    (forall p, p ∈ PhysicalAllocator.free_pages a <-> exists z, z ∈ zones es /\ PhysicalAllocator.zone_has z p) /\
    ram_ok (memory_of log) /\ agrees m (memory_of log) /\
    forall accs scratch, Initialize s m mbt banner fuel accs scratch =
      ('(cr3, mm) ← MemManager.InitSubsystems (MemManager.mk pa VirtualAllocator.kStacks as_ None false) 0 accs;
       Ret (mk (set_memory log (kernel_writes mm scratch (memory_of log))) mm cr3 Initrd.new)).
Proof.
  intros L Hb Hf. destruct L as [Lr Ls (Lm1 & Lm2 & Lm3) Lmc Le Lz (ps & P1 & P2 & P3) _ _ _ _ _ _ _].
  unfold Initialize. destruct (banner_memory s m banner Lr Hb) as (log & -> & R1 & A1). cbn [mbind outcome_bind].
  assert (agrees m (memory_of log)) as Ag1 by (intros a (Ha & Hv & _); apply A1; unfold kVideo in *; lia).
  destruct (PhysicalAllocator.new_spec (memory_of log) mbt es fuel (mmap_addr (MultibootStruct_at m mbt))
    (mmap_len (MultibootStruct_at m mbt))) as (a & U & Fr & N).
  { by rewrite (struct_agrees m (memory_of log)). } { by rewrite (struct_agrees m (memory_of log)). }
  { done. } { done. } { done. }
  { apply (mmap_agrees m); [done | | done]. apply (clear_sub _ _ _ _ Lmc); lia. } { done. } { done. }
  rewrite decide_False in N.
  2: { enough (47 <= size (PhysicalAllocator.free_pages a))%nat by lia.
       transitivity (length ps); [done |]. unfold size, set_size. cbn.
       apply submseteq_length, NoDup_submseteq; [done |]. intros p Hp%P3%Fr. by apply elem_of_elements. }
  destruct N as (pa & EN & Rf). unfold MemManager.new. rewrite EN. cbn [mbind outcome_bind].
  destruct AddressSpaceX64.new as [as_ | |] eqn:Eas; [| discriminate Eas | discriminate Eas]. cbn [mbind outcome_bind].
  destruct (setup_memory (Logger.ports log) (memory_of log) address_range R1) as [R2 A2].
  destruct (IrqsArch.SetUp address_of (Logger.ports log) (memory_of log)) as [s2 m2] eqn:ES. cbn [snd] in R2, A2.
  exists pa, a, as_, (set_memory (Logger.set_ports log s2) m2). do 4 (split; [done |]).
  split; [exact R2 |]. split; [| by intros].
  intros x Hx. change (m2 x = m x). rewrite A2 by (destruct Hx as (Hx & _); lia). by apply Ag1.
Qed.

(** [malloc] does not depend on the pages that were faulted in. *)
Lemma kernel_malloc_touches mm accs mm' n : MemManager.touches mm accs = Ret mm' -> kernel_malloc mm' n = kernel_malloc mm n.
Proof.
  intros (_ & E1 & E2)%MemManager.touches_rest. unfold kernel_malloc, MemManager.malloc, MemManager.with_mspace. rewrite E1, E2.
  destruct (MemManager.malloc_available_ mm), (MemManager.default_mspace_ mm) as [ms |]; try done. cbn.
  by destruct (mspace_malloc ms n) as [[r ms'] | |].
Qed.

(** The boot module, read from a memory that agrees with what the loader left. *)
Lemma ParseMultiboot_spec m m' mbt es rd rt app files z mm accs scratch :
  left_by_loader m mbt es rd rt app files z -> agrees m m' -> ram_ok m' -> ram_ok scratch ->
  0 < kernel_malloc mm (zlen (Initrd.payload rt app files)) ->
  (forall m'', ram_ok m'' -> holds m'' rd (Initrd.image rt app files z) ->
   tinfl m'' (rd + 24) (mod_end (module_at m (module_addr (MultibootStruct_at m mbt))) -
     module_addr (MultibootStruct_at m mbt) - 20) (zlen (Initrd.payload rt app files)) =
     Some (Initrd.payload rt app files)) ->
  match MemManager.touches mm accs with
  | Ret _ => exists cmd fs m2, ParseMultiboot mm accs scratch m' mbt Initrd.new = Ret (cmd, fs, m2) /\
      Forall2 (Initrd.file_rep m2) (Initrd.files_ fs) (Initrd.contents files []) /\
      cptr_string m2 (Initrd.runtime_index_name_ fs) = Ret rt /\ cptr_string m2 (Initrd.app_index_name_ fs) = Ret app
  | Fatal why => ParseMultiboot mm accs scratch m' mbt Initrd.new = Fatal why
  | OutOfFuel => True
  end.
Proof.
  intros L Ag Rm Rs Hptr Htin. destruct L as [_ Ls _ _ _ _ _ Lc (T1 & T2 & T3 & T4 & T5 & T6 & T7) Lrd Li [N1 N2] [F1 F2] [P1 P2]].
  set (tab := module_addr (MultibootStruct_at m mbt)) in *. set (rd_end := mod_end (module_at m tab)) in *.
  pose proof (zlen_nonneg z) as Hz. pose proof (Ls 0 ltac:(lia)) as ((Hmbt & _) & _). pose proof (T4 0 ltac:(lia)) as ((Htab & _) & _).
  unfold ParseMultiboot. rewrite (struct_agrees m m') by done. fold tab.
  assert (module_at m' tab = module_at m tab) as ->.
  { unfold module_at, load32. by rewrite !(load_agrees m m') by (done || (apply (clear_sub _ _ _ _ T4); lia)). }
  fold rd_end. rewrite (proj2 (Z.eqb_neq mbt 0)) by lia. cbn [negb rt_assert mbind outcome_bind].
  rewrite (proj2 (Z.eqb_neq 0 _)), (proj2 (Z.eqb_neq 0 tab)) by (done || lia). cbn [orb].
  assert (u32 (rd_end - tab) = rd_end - tab) as -> by (apply wrap_small; unfold in_range; lia).
  rewrite (proj2 (Z.eqb_neq 0 (rd_end - tab))) by lia.
  destruct (Z.gtb_spec (rd_end - tab) (128 * MiB)) as [G | G]; [lia |]. cbn [orb].
  destruct (MemManager.touches mm accs) as [mm1 | why |] eqn:Et; [| done | done]. cbn [mbind outcome_bind].
  set (m1 := kernel_writes mm1 scratch m'). assert (agrees m m1) as Ag1 by (by apply kernel_writes_agrees).
  assert (ram_ok m1) as Rm1 by (by apply kernel_writes_ok).
  assert (Him : holds m1 rd (Initrd.image rt app files z)).
  { apply (holds_agrees m); [done | | done]. change (Z.of_nat (length (Initrd.image rt app files z))) with (zlen (Initrd.image rt app files z)).
    apply (clear_sub _ _ _ _ T4); [lia | | apply zlen_nonneg]. unfold Initrd.image, zlen in *. rewrite !length_app. cbn. lia. }
  rewrite <- (kernel_malloc_touches _ _ _ _ Et) in Hptr.
  destruct (Initrd.Init_image (kernel_malloc mm1) tinfl m1 tab (rd_end - tab) rd rt app files z
    (kernel_malloc mm1 (zlen (Initrd.payload rt app files)))) as (fs & m2 & E & R); try done.
  - lia.
  - lia.
  - intros j Hj. apply (unsigned_agrees m); [done | | by apply T7]. apply (clear_sub _ _ _ _ T4); [lia | | lia].
    assert (4 * j + 4 <= rd - tab); [| lia]. pose proof (Z.mul_div_le (rd - tab) 4 ltac:(lia)). lia.
  - unfold u64. rewrite wrap_small by (unfold in_range; lia). by apply Htin.
  - rewrite E. cbn [mbind outcome_bind]. eexists _, fs, m2. split; [done | exact R].
Qed.

(** A module that cannot be used. *)
Definition no_module (m : ram) (p : Z) : Prop :=
  let tab := module_addr (MultibootStruct_at m p) in
  module_count (MultibootStruct_at m p) = 0 \/ tab = 0 \/
  u32 (mod_end (module_at m tab) - tab) = 0 \/ 128 * MiB < u32 (mod_end (module_at m tab) - tab).

Lemma ParseMultiboot_stops mm accs scratch m p fs :
  p <> 0 -> no_module m p -> ParseMultiboot mm accs scratch m p fs = Fatal "aborted".
Proof.
  intros Hp Hbad. unfold ParseMultiboot, no_module in *. rewrite (proj2 (Z.eqb_neq p 0)) by done. cbn [negb rt_assert mbind outcome_bind].
  destruct (Z.eqb_spec 0 (module_count (MultibootStruct_at m p))); [done |].
  destruct (Z.eqb_spec 0 (module_addr (MultibootStruct_at m p))); [done |]. cbn [orb]. cbn zeta in Hbad.
  destruct (Z.eqb_spec 0 (u32 (mod_end (module_at m (module_addr (MultibootStruct_at m p))) - module_addr (MultibootStruct_at m p)))); [done |].
  cbn [orb]. destruct (Z.gtb_spec (u32 (mod_end (module_at m (module_addr (MultibootStruct_at m p))) - module_addr (MultibootStruct_at m p))) (128 * MiB));
    [done | exfalso; lia].
Qed.

End Boot.

(** kernel/initrd.cc:74-76, the call of the inflater, with the [n] bytes at [p] as its input and a buffer of
    [o] bytes that holds [old o]. *)
Definition inflate (old : Z -> list Z) (m : ram) (p n o : Z) : option (list Z) :=
  default None (result (Tinfl.tinfl_decompress_mem_to_mem (old o) (map m (seqZ p n)))).

Lemma inflate_spec old cmf flg xs z data m p n o :
  Deflate.zlib cmf flg xs = Some z -> Deflate.expand_blocks [] xs = Some data -> zlen (old o) = o -> zlen data <= o ->
  ram_ok m -> holds m p z -> zlen z <= n -> inflate old m p n o = Some data.
Proof.
  intros Ez Ed Ho Hd Hm Hh Hn. unfold inflate. pose proof (zlen_nonneg z).
  assert (map m (seqZ p n) = z ++ map m (seqZ (p + zlen z) (n - zlen z))) as ->.
  { replace n with (zlen z + (n - zlen z)) at 1 by lia. rewrite seqZ_app, map_app by lia. f_equal.
    apply list_eq_same_length with (length z); [done | by rewrite length_map, length_seqZ; unfold zlen; lia |].
    intros i x y Hi Hx Hy. apply list_lookup_fmap_Some in Hx as (a & -> & Ha). apply lookup_seqZ in Ha as [-> _]. by apply Hh. }
  rewrite (TinflInflate.tinfl_decompress_spec cmf flg xs z data); [done | done | done | lia |].
  apply Forall_forall. intros x (a & -> & _)%list_elem_of_fmap. apply Hm.
Qed.

Lemma image_stream m rd rt app files z : holds m rd (Initrd.image rt app files z) -> holds m (rd + 24) z.
Proof.
  unfold Initrd.image. rewrite !app_assoc. intros [_ H]%holds_app. rewrite !zlen_app in H. unfold zlen in H. exact H.
Qed.

Section Dlmalloc.
Context {S : Type} `{Ports S}.
Variable polls : nat.
Variable address_of : IrqsArch.gate -> Z.
Hypothesis address_range : forall g, in_range 64 (address_of g).
Variables data_start data_end : Z.
Variable m0 : ram.
#[local] Instance dl : MspaceOps Chunk.mstate := KernelHeap.dlmalloc m0.

(** The first request of the kernel is served. *)
Lemma first_kernel_malloc mm ms n :
  Mspace.create_mspace_with_base m0 VirtualAllocator.GetSharedSpace VirtualAllocator.GetSpaceSize = Some ms ->
  0 <= n < 2 ^ 32 -> 0 < kernel_malloc (MemManager.ready mm ms) n.
Proof.
  intros Hc Hn. destruct (KernelHeap.first_malloc m0) as (ms' & Hc' & Hm). rewrite Hc in Hc'. injection Hc' as <-.
  destruct (Hm n Hn) as (r & ms' & E & Hr). unfold kernel_malloc, MemManager.malloc, MemManager.with_mspace, MemManager.ready. cbn.
  change (mspace_malloc ms n) with (Mspace.mspace_malloc ms n). by rewrite E.
Qed.


End Dlmalloc.

(** ** A machine of 128 MiB with an archive of two files at 2 MiB *)

Definition blocks0 : list Deflate.block := [Deflate.Fixed (map Deflate.Literal Initrd.pay0)].
Definition stream0 : list Z := Eval vm_compute in default [] (Deflate.zlib 120 218 blocks0).
Definition image0 : list Z := Initrd.image [97] [98; 99] Initrd.es0 stream0.
Definition loader_bytes : list Z :=
  concat (map (le_bytes 4) [0; 0; 0; 0; 0; 1; 0x200100; 0; 0; 0; 0; 48; 0x200044; 0; 0; 0; 0]) ++
  le_bytes 4 20 ++ le_bytes 8 0 ++ le_bytes 8 0xA0000 ++ le_bytes 4 1 ++
  le_bytes 4 20 ++ le_bytes 8 0x100000 ++ le_bytes 8 (127 * MiB) ++ le_bytes 4 1 ++
  replicate (256 - 68 - 48) 0 ++ le_bytes 4 0x200110 ++ le_bytes 4 (0x200110 + 24 + zlen stream0) ++ le_bytes 8 0 ++ image0.
Definition loader_ram : ram := ram_of 0x200000 loader_bytes.
Definition map0 : list MultibootMemoryMapEntry := [mkEntry 20 0 0xA0000 1; mkEntry 20 0x100000 (127 * MiB) 1].

Lemma loader_holds : holds loader_ram 0x200110 image0.
Proof.
  intros i b E. unfold loader_ram, ram_of. rewrite decide_True by lia.
  replace (Z.to_nat (0x200110 + Z.of_nat i - 0x200000)) with (272 + i)%nat by lia.
  assert (drop 272 loader_bytes = image0) as D by (vm_compute; reflexivity).
  rewrite <- lookup_drop, D, E. done.
Qed.

Lemma clear0 a n : 0x100000 <= a -> a + n <= 0x300000 -> clear_of 0x300000 0x400000 a n.
Proof. intros H1 H2 i Hi. unfold untouched, kVideo, MiB. lia. Qed.

(** The kernel's data is from 3 to 4 MiB. *)
Lemma loader_left : left_by_loader 0x300000 0x400000 loader_ram 0x200000 map0 0x200110 [97] [98; 99] Initrd.es0 stream0.
Proof.
  split.
  - apply ram_of_ok, (bool_decide_unpack _). vm_compute. exact I.
  - by apply clear0.
  - vm_compute. done.
  - change (clear_of 0x300000 0x400000 0x200044 72). by apply clear0.
  - change (mmap_wf loader_ram 0x200044 (0x200044 + 48) map0).
    repeat (apply mmap_cons; [lia | lia | lia | vm_compute; reflexivity | simpl; lia | simpl; lia | simpl]). apply mmap_nil.
  - repeat constructor; vm_compute; discriminate || reflexivity.
  - exists (seqZ 16 48). split; [apply NoDup_seqZ |]. split; [vm_compute; lia |]. intros p Hp%elem_of_seqZ.
    exists (Utils.mkZone 0x100000 (127 * MiB)). split; [vm_compute; right; left |]. unfold PhysicalAllocator.zone_has.
    change PhysicalAllocator.first_page with 16. change PhysicalAllocator.kPageSizeBytes with (2 ^ 21).
    cbn [Utils.zone_ptr Utils.zone_size]. unfold MiB. lia.
  - vm_compute. discriminate.
  - change (module_addr (MultibootStruct_at loader_ram 0x200000)) with 0x200100.
    change (mod_end (module_at loader_ram 0x200100)) with 0x20015d. split_and!.
    + done.
    + exists 0x80040. done.
    + done.
    + apply clear0; [done |]. vm_compute. discriminate.
    + done.
    + done.
    + done.
    + intros j Hj. assert (j = 0 \/ j = 1 \/ j = 2 \/ j = 3) as [-> | [-> | [-> | ->]]] by (change ((0x200110 - 0x200100) / 4) with 4 in Hj; lia);
        left; vm_compute; discriminate.
  - exists 0x80044. done.
  - exact loader_holds.
  - split; apply (bool_decide_unpack _); vm_compute; exact I.
  - split; [done |]. apply (bool_decide_unpack _). vm_compute. exact I.
  - split; [done |]. apply (bool_decide_unpack _). vm_compute. exact I.
Qed.

#[local] Instance no_ports : Ports unit := { out _ _ _ s := s; inp _ _ s := (0, s) }.
#[local] Instance dl0 : MspaceOps Chunk.mstate := KernelHeap.dlmalloc (fun _ => 0).

Definition old0 (o : Z) : list Z := replicate (Z.to_nat o) 0.


End KernelMain.
