(* ===== verification/Wrappers.v ===== *)
(** * kernel/object-wrapper.h, template-cache.h, .cc: native objects in JavaScript

    A native object (a wrapper) is shown to scripts as a JavaScript object whose internal
    field holds the address of the wrapper; V8 deletes the wrapper through a weak handle
    when scripts have dropped the object.  The heap of V8 is modelled as far as it
    matters: objects with their internal fields, and the set of objects that scripts
    can reach.  The theorem: whatever scripts and natives do, an object in the
    hands of a script leads to a wrapper that still exists, and to a native method only
    with a wrapper of its class; a wrapper that natives refer to is never deleted. *)

From S2P Require Import Prelude Utils.

Module Wrappers.

(** kernel/template-cache.h:30-47, NativeTypeId: the number of types. *)
Definition LAST : Z := 13.

(** kernel/object-wrapper.h:153-155, JsObjectWrapperBase members, with the type of the
    NativeObjectWrapper (template-cache.h:69); [weak] is the state of the handle. *)
Record wrapper : Type := mkW {
  type_id : Z; tpl_cache_ : bool; object_ : option Z; weak : bool; reference_count_ : Z }.

(** The wrappers by address; the objects of V8 with the pointers in their internal
    fields; kernel/template-cache.h:177, object_cache_; the objects that scripts reach. *)
Record t : Type := mk {
  wrappers : gmap Z wrapper; objects : gmap Z (list Z); object_cache_ : gmap Z Z; next : Z; reach : gset Z }.

Definition set_wrapper (s : t) (p : Z) (w : wrapper) : t :=
  mk (<[p := w]> (wrappers s)) (objects s) (object_cache_ s) (next s) (reach s).

(** A new object with the internal fields [fs]. *)
Definition alloc (s : t) (fs : list Z) : Z * t :=
  (next s, mk (wrappers s) (<[next s := fs]> (objects s)) (object_cache_ s) (next s + 1) (reach s)).

(** kernel/template-cache.h:54-58, NativeObjectWrapper::NativeObjectWrapper, and
    JsObjectWrapperBase::JsObjectWrapperBase (object-wrapper.h:61-66), at the address [p]. *)
Definition new (s : t) (p type_id : Z) : outcome t :=
  _ ← rt_assert (type_id >? 0) "instance_typeid_ > NIL";
  _ ← rt_assert (type_id <? LAST) "instance_typeid_ < LAST";
  Ret (set_wrapper s p (mkW type_id false None false 0)).

(** Runs [k] on the wrapper at an address. *)
Definition at_ {A} (s : t) (p : Z) (k : wrapper -> outcome A) : outcome A :=
  match wrappers s !! p with Some w => k w | None => Fatal "dangling wrapper" end.

(** kernel/object-wrapper.h:70-75, JsObjectWrapperBase::BindToTemplateCache. *)
Definition BindToTemplateCache (s : t) (p : Z) : outcome t :=
  at_ s p (fun w =>
    _ ← rt_assert (negb (tpl_cache_ w)) "!tpl_cache_";
    Ret (set_wrapper s p (mkW (type_id w) true (object_ w) (weak w) (reference_count_ w)))).

(** kernel/template-cache.h:117-136, TemplateCache::Exists, Put and Get, as EnsureInstance uses
    them: the prototype for a type, created from the wrapper [p] the first time
    (NewWrappedObject, template-cache.cc:158-170). *)
Definition prototype (s : t) (p type : Z) : Z * t :=
  match object_cache_ s !! type with
  | Some c => (c, s)
  | None =>
      let '(c, s) := alloc s [p] in
      (c, mk (wrappers s) (objects s) (<[type := c]> (object_cache_ s)) (next s) (reach s))
  end.

(** kernel/object-wrapper.h:123-151, JsObjectWrapperBase::EnsureInstance: the clone of the
    prototype has its internal fields, the first of which is then set. *)
Definition EnsureInstance (s : t) (p : Z) : outcome t :=
  at_ s p (fun w =>
    _ ← rt_assert (tpl_cache_ w) "BindToTemplateCache() first";
    match object_ w with
    | Some _ => Ret s
    | None =>
        let '(cached, s) := prototype s p (type_id w) in
        let fields := default [] (objects s !! cached) in
        let '(loc, s) := alloc s (<[0%nat := p]> fields) in
        Ret (set_wrapper s p (mkW (type_id w) true (Some loc) true (reference_count_ w)))
    end).

(** kernel/object-wrapper.h:77-84, JsObjectWrapperBase::GetInstance. *)
Definition GetInstance (s : t) (p : Z) : outcome (Z * t) :=
  s ← EnsureInstance s p;
  at_ s p (fun w => match object_ w with Some o => Ret (o, s) | None => Fatal "empty handle" end).

Definition set_weak (w : wrapper) (b : bool) : wrapper := mkW (type_id w) (tpl_cache_ w) (object_ w) b (reference_count_ w).

(** kernel/object-wrapper.h:100-103, JsObjectWrapperBase::Weak. *)
Definition Weak (s : t) (p : Z) : outcome t :=
  s ← EnsureInstance s p; at_ s p (fun w => Ret (set_wrapper s p (set_weak w true))).

(** kernel/object-wrapper.h:105-108, JsObjectWrapperBase::Unweak. *)
Definition Unweak (s : t) (p : Z) : outcome t :=
  s ← EnsureInstance s p; at_ s p (fun w => Ret (set_wrapper s p (set_weak w false))).

Definition set_count (w : wrapper) (n : Z) : wrapper := mkW (type_id w) (tpl_cache_ w) (object_ w) (weak w) n.

(** kernel/object-wrapper.h:86-89, JsObjectWrapperBase::AddReference. *)
Definition AddReference (s : t) (p : Z) : outcome t :=
  s ← Unweak s p;
  at_ s p (fun w => Ret (set_wrapper s p (set_count w (u32 (reference_count_ w + 1))))).

(** kernel/object-wrapper.h:91-98, JsObjectWrapperBase::RemoveReference. *)
Definition RemoveReference (s : t) (p : Z) : outcome t :=
  at_ s p (fun w =>
    if 0 =? reference_count_ w then Ret s
    else
      let n := reference_count_ w - 1 in
      let s := set_wrapper s p (set_count w n) in
      if 0 =? n then Weak s p else Ret s).

(** kernel/object-wrapper.h:112-121, JsObjectWrapperBase::WeakCallback: the destructor calls
    Unweak, which makes a new instance because the handle was reset. *)
Definition WeakCallback (s : t) (p : Z) : outcome t :=
  at_ s p (fun w =>
    let s := set_wrapper s p (mkW (type_id w) (tpl_cache_ w) None (weak w) (reference_count_ w)) in
    s ← Unweak s p;
    Ret (mk (delete p (wrappers s)) (objects s) (object_cache_ s) (next s) (reach s))).

(** A JavaScript value. *)
Inductive value : Type := Primitive | Object_ (o : Z).

(** kernel/template-cache.h:142-158, TemplateCache::GetWrapped: the address in the first
    internal field, if there is one. *)
Definition GetWrapped (s : t) (v : value) : outcome (option Z) :=
  match v with
  | Primitive => Ret None
  | Object_ o =>
      match objects s !! o with
      | None => Fatal "dangling object"
      | Some [] => Ret None
      | Some (ptr :: _) => _ ← rt_assert (negb (ptr =? 0)) "ptr"; Ret (Some ptr)
      end
  end.

(** kernel/object-wrapper.h:164-177, JsObjectWrapper::FromHandle; GetThis (180-192) is the same. *)
Definition FromHandle (TypeId : Z) (s : t) (v : value) : outcome (option Z) :=
  ptr ← GetWrapped s v;
  match ptr with
  | None => Ret None
  | Some p => at_ s p (fun w => if negb (TypeId =? type_id w) then Ret None else Ret (Some p))
  end.

(** ** What scripts, natives and the collector do *)

Definition set_reach (s : t) (r : gset Z) : t := mk (wrappers s) (objects s) (object_cache_ s) (next s) r.

Section Scripts.
(** What an internal field holds before it is set: the tagged address of V8's undefined value. *)
Variable undefined : Z.
Hypothesis undefined_tagged : Z.odd undefined = true.

(** A wrapper is at an even address.  kernel/template-cache.cc:30-34: every wrapped object is made from one
    template, whose function is the constructor that a script finds in the object; what it constructs has one
    internal field that nobody sets. *)
Inductive step : t -> t -> Prop :=
  | step_new s p type s' : p <> 0 -> Z.even p = true -> wrappers s !! p = None -> new s p type = Ret s' -> step s s'
  | step_bind s p s' : BindToTemplateCache s p = Ret s' -> step s s'
  | step_instance s p o s' : GetInstance s p = Ret (o, s') -> step s (set_reach s' ({[o]} ∪ reach s'))
  | step_add s p s' : AddReference s p = Ret s' -> step s s'
  | step_remove s p s' : RemoveReference s p = Ret s' -> step s s'
  | step_drop s o : step s (set_reach s (reach s ∖ {[o]}))
  (* scripts make other objects: without internal fields, or buffers with null fields *)
  | step_plain s : step s (set_reach (alloc s []).2 ({[(alloc s []).1]} ∪ reach s))
  | step_buffer s : step s (set_reach (alloc s [0; 0]).2 ({[(alloc s [0; 0]).1]} ∪ reach s))
  (* new o.constructor() for an object with an internal field *)
  | step_construct s o p : o ∈ reach s -> objects s !! o = Some [p] ->
      step s (set_reach (alloc s [undefined]).2 ({[(alloc s [undefined]).1]} ∪ reach s))
  (* the collector calls back for a weak handle whose object nobody reaches *)
  | step_collect s p w o s' :
      wrappers s !! p = Some w -> object_ w = Some o -> weak w = true -> o ∉ reach s ->
      WeakCallback s p = Ret s' -> step s s'.

Definition init : t := mk ∅ ∅ ∅ 1 ∅.

(** ** The invariant *)

Record wrapper_ok (s : t) (p : Z) (w : wrapper) : Prop := {
  w_addr : p <> 0;
  w_even : Z.even p = true;
  w_type : 0 < type_id w < LAST;
  w_count : 0 <= reference_count_ w;
  w_strong : 0 < reference_count_ w -> weak w = false /\ object_ w <> None;
  w_object : forall o, object_ w = Some o -> objects s !! o = Some [p] /\ tpl_cache_ w = true }.

(** What an object in the hands of a script can be. *)
Definition shown_as (s : t) (o : Z) : Prop :=
  objects s !! o = Some [] \/ objects s !! o = Some [0; 0] \/ objects s !! o = Some [undefined] \/
  exists p w, objects s !! o = Some [p] /\ wrappers s !! p = Some w /\ object_ w = Some o.

Record inv (s : t) : Prop := {
  i_fresh : forall o fs, objects s !! o = Some fs -> o < next s;
  i_cache : forall ty c, object_cache_ s !! ty = Some c -> exists p, objects s !! c = Some [p];
  i_wrapper : forall p w, wrappers s !! p = Some w -> wrapper_ok s p w;
  i_reach : forall o, o ∈ reach s -> shown_as s o }.

(** Objects are only added. *)
Definition grows (s s' : t) : Prop :=
  (forall o fs, objects s !! o = Some fs -> objects s' !! o = Some fs) /\ next s <= next s' /\ reach s' = reach s.

Lemma grows_refl s : grows s s.
Proof. split; [done | split; [lia | done]]. Qed.

Lemma wrapper_ok_grows s s' p w : wrapper_ok s p w -> grows s s' -> wrapper_ok s' p w.
Proof. intros [H1 H0 H2 H3 H4 H5] [G _]. split; try done. intros o Ho. destruct (H5 o Ho). split; [by apply G | done]. Qed.

Lemma wrapper_ok_same s s' p w : objects s' = objects s -> wrapper_ok s p w -> wrapper_ok s' p w.
Proof. intros E [H1 H0 H2 H3 H4 H5]. split; try done. by rewrite E. Qed.

Lemma new_object_inv s fs : inv s -> inv (alloc s fs).2 /\ grows s (alloc s fs).2 /\
  objects s !! next s = None /\ objects (alloc s fs).2 !! next s = Some fs.
Proof.
  intros I. assert (objects s !! next s = None) as Hn.
  { destruct (objects s !! next s) eqn:E; [| done]. apply (i_fresh _ I) in E. lia. }
  assert (grows s (alloc s fs).2) as G.
  { split; [| split; [cbn; lia | done]]. intros o fs' Ho. cbn. rewrite lookup_insert_ne; [done |]. intros <-. congruence. }
  split_and!; [| done | done | by apply lookup_insert_eq]. destruct I as [I1 I2 I3 I4]. split.
  - cbn. intros o fs'. destruct (decide (o = next s)) as [-> |]; [lia |]. rewrite lookup_insert_ne by done. intros Ho. specialize (I1 _ _ Ho). lia.
  - intros ty c Hc. destruct (I2 _ _ Hc) as [p Hp]. exists p. by apply G.
  - intros p w Hw. eapply wrapper_ok_grows; [by apply I3 | done].
  - intros o Ho. destruct (I4 o Ho) as [H | [H | [H | (p & w & H1 & H2 & H3)]]]; [left | right; left | right; right; left | right; right; right]; [by apply G.. |].
    exists p, w. split; [by apply G | done].
Qed.

Lemma prototype_inv s p ty : inv s ->
  inv (prototype s p ty).2 /\ grows s (prototype s p ty).2 /\ wrappers (prototype s p ty).2 = wrappers s /\
  exists q, objects (prototype s p ty).2 !! (prototype s p ty).1 = Some [q].
Proof.
  intros I. unfold prototype. destruct (object_cache_ s !! ty) as [c |] eqn:E.
  - split_and!; [done | apply grows_refl | done | exact (i_cache _ I _ _ E)].
  - destruct (new_object_inv s [p] I) as ([I1 I2 I3 I4] & G & _ & Ho). cbn [alloc snd fst] in *.
    split_and!; [| exact G | done | by exists p]. split; try done;
      [| intros r w Hw; by eapply wrapper_ok_same, I3].
    intros ty' c. cbn [object_cache_]. destruct (decide (ty' = ty)) as [-> | N].
    + rewrite lookup_insert_eq. intros [= <-]. by exists p.
    + rewrite lookup_insert_ne by done. apply I2.
Qed.

(** Changing a wrapper that keeps its object. *)
Lemma set_wrapper_inv s p w w' :
  inv s -> wrappers s !! p = Some w -> wrapper_ok s p w' -> (object_ w <> None -> object_ w' = object_ w) ->
  inv (set_wrapper s p w').
Proof.
  intros [I1 I2 I3 I4] Hw O E. split; try done.
  - intros q x. cbn [wrappers set_wrapper]. destruct (decide (q = p)) as [-> | N].
    + rewrite lookup_insert_eq. intros [= <-]. by eapply wrapper_ok_same, O.
    + rewrite lookup_insert_ne by done. intros Hx. by eapply wrapper_ok_same, I3.
  - intros o Ho. destruct (I4 o Ho) as [H | [H | [H | (q & x & H1 & H2 & H3)]]]; [by left | by right; left | by right; right; left |]. right. right. right.
    destruct (decide (q = p)) as [-> | N].
    + exists p, w'. cbn. rewrite lookup_insert_eq. split_and!; [done | done |]. rewrite Hw in H2. injection H2 as <-. rewrite E; congruence.
    + exists q, x. cbn. by rewrite lookup_insert_ne.
Qed.

(** The instance that a wrapper has afterwards: the one it had, or a new one. *)
Lemma Ensure_inv s p s' :
  inv s -> EnsureInstance s p = Ret s' ->
  inv s' /\ grows s s' /\ (forall q, q <> p -> wrappers s' !! q = wrappers s !! q) /\
  exists w w' o, wrappers s !! p = Some w /\ wrappers s' !! p = Some w' /\ object_ w' = Some o /\
    reference_count_ w' = reference_count_ w /\ type_id w' = type_id w /\
    (object_ w = Some o \/ object_ w = None /\ objects s !! o = None).
Proof.
  intros I. unfold EnsureInstance, at_. destruct (wrappers s !! p) as [w |] eqn:Hw; [| done].
  intros E. apply bind_Ret in E as (u & Ht%rt_assert_Ret & E). destruct (object_ w) as [o |] eqn:Eo.
  { injection E as <-. split_and!; [done | apply grows_refl | done |]. exists w, w, o. split_and!; auto. }
  destruct (prototype s p (type_id w)) as [c s1] eqn:Ep.
  destruct (prototype_inv s p (type_id w) I) as (I1 & G1 & W1 & q & Hq). rewrite Ep in *. cbn [fst snd] in *.
  destruct (alloc s1 (<[0%nat := p]> (default [] (objects s1 !! c)))) as [loc s2] eqn:Ea.
  destruct (new_object_inv s1 (<[0%nat := p]> (default [] (objects s1 !! c))) I1) as (I2 & G2 & Hn & Hl). rewrite Ea in *. cbn [snd] in *.
  assert (loc = next s1) as -> by (unfold alloc in Ea; congruence). rewrite Hq in Hl. cbn in Hl.
  assert (wrappers s2 = wrappers s) as W2 by (unfold alloc in Ea; injection Ea as <-; cbn; exact W1).
  injection E as <-. assert (grows s s2) as G.
  { destruct G1 as (A1 & B1 & C1), G2 as (A2 & B2 & C2). split; [auto | split; [lia | congruence]]. }
  pose proof (i_wrapper _ I _ _ Hw) as [K1 Ke K2 K3 K4 K5]. split_and!.
  - apply (set_wrapper_inv _ _ w); [done | by rewrite W2 | | by rewrite Eo].
    split; cbn; try done.
    + intros Hc. destruct (K4 Hc). congruence.
    + intros o [= <-]. done.
  - exact G.
  - intros r Hr. cbn. rewrite lookup_insert_ne by done. by rewrite W2.
  - eexists w, _, (next s1). cbn. rewrite lookup_insert_eq. split_and!; try done. right. split; [done |].
    destruct (objects s !! next s1) eqn:Ex; [| done]. apply G1 in Ex. congruence.
Qed.

Lemma Unweak_inv s p s' :
  inv s -> Unweak s p = Ret s' ->
  inv s' /\ grows s s' /\ (forall q, q <> p -> wrappers s' !! q = wrappers s !! q) /\
  exists w w' o, wrappers s !! p = Some w /\ wrappers s' !! p = Some w' /\ object_ w' = Some o /\ weak w' = false /\
    (object_ w = Some o \/ object_ w = None /\ objects s !! o = None).
Proof.
  intros I E. unfold Unweak in E. apply bind_Ret in E as (s1 & E1 & E).
  destruct (Ensure_inv s p s1 I E1) as (I1 & G & Wq & w & w1 & o & Hw & Hw1 & Ho & Hc & Hty & Hcase).
  unfold at_ in E. rewrite Hw1 in E. injection E as <-. pose proof (i_wrapper _ I1 _ _ Hw1) as [K1 Ke K2 K3 K4 K5]. split_and!.
  - apply (set_wrapper_inv _ _ w1); [done | done | | done]. split; cbn; try done. intros Hp. split; [done |]. by destruct (K4 Hp).
  - exact G.
  - intros q Hq. cbn. rewrite lookup_insert_ne by done. by apply Wq.
  - exists w, (set_weak w1 false), o. cbn. rewrite lookup_insert_eq. done.
Qed.

Lemma Weak_inv s p s' w :
  inv s -> wrappers s !! p = Some w -> reference_count_ w = 0 -> Weak s p = Ret s' -> inv s'.
Proof.
  intros I Hw H0 E. unfold Weak in E. apply bind_Ret in E as (s1 & E1 & E).
  destruct (Ensure_inv s p s1 I E1) as (I1 & G & Wq & w0 & w1 & o & Hw0 & Hw1 & Ho & Hc & Hty & Hcase).
  unfold at_ in E. rewrite Hw1 in E. injection E as <-. pose proof (i_wrapper _ I1 _ _ Hw1) as [K1 Ke K2 K3 K4 K5].
  apply (set_wrapper_inv _ _ w1); [done | done | | done]. split; cbn; try done. intros Hp. rewrite Hc in Hp. simplify_eq. lia.
Qed.

Lemma reach_inv s r : inv s -> (forall o, o ∈ r -> shown_as s o) -> inv (set_reach s r).
Proof. intros [I1 I2 I3 I4] H. split; try done. intros p w Hw. by eapply wrapper_ok_same, I3. Qed.

Lemma GetInstance_inv s p o s' :
  inv s -> GetInstance s p = Ret (o, s') ->
  inv s' /\ reach s' = reach s /\ exists w, wrappers s' !! p = Some w /\ object_ w = Some o /\ objects s' !! o = Some [p].
Proof.
  intros I E. unfold GetInstance in E. apply bind_Ret in E as (s1 & E1 & E).
  destruct (Ensure_inv s p s1 I E1) as (I1 & (_ & _ & G) & _ & w & w1 & o1 & _ & Hw1 & Ho & _).
  unfold at_ in E. rewrite Hw1, Ho in E. injection E as <- <-. split_and!; [done | done |].
  exists w1. split_and!; [done | done |]. by apply (i_wrapper _ I1 _ _ Hw1).
Qed.

(** The reset of the handle of an object that nobody reaches. *)
Lemma reset_inv s p w o :
  inv s -> wrappers s !! p = Some w -> object_ w = Some o -> weak w = true -> o ∉ reach s ->
  inv (set_wrapper s p (mkW (type_id w) (tpl_cache_ w) None (weak w) (reference_count_ w))).
Proof.
  intros I Hw Ho Hk Hr. pose proof (i_wrapper _ I _ _ Hw) as [K1 Ke K2 K3 K4 K5]. destruct I as [I1 I2 I3 I4]. split; try done.
  - intros q x. cbn. destruct (decide (q = p)) as [-> | N].
    + rewrite lookup_insert_eq. intros [= <-]. split; cbn; try done. intros Hp. destruct (K4 Hp). congruence.
    + rewrite lookup_insert_ne by done. intros Hx. by eapply wrapper_ok_same, I3.
  - intros o' Ho'. destruct (I4 o' Ho') as [H | [H | [H | (q & x & H1 & H2 & H3)]]]; [by left | by right; left | by right; right; left |]. right. right. right.
    destruct (decide (q = p)) as [-> | N]; [by simplify_eq |]. exists q, x. cbn. by rewrite lookup_insert_ne.
Qed.

(** Deleting a wrapper whose object nobody reaches. *)
Lemma delete_inv s p w o :
  inv s -> wrappers s !! p = Some w -> object_ w = Some o -> o ∉ reach s ->
  inv (mk (delete p (wrappers s)) (objects s) (object_cache_ s) (next s) (reach s)).
Proof.
  intros [I1 I2 I3 I4] Hw Ho Hr. split; try done.
  - intros q x Hx. cbn in Hx. apply lookup_delete_Some in Hx as [_ Hx]. by eapply wrapper_ok_same, I3.
  - intros o' Ho'. destruct (I4 o' Ho') as [H | [H | [H | (q & x & H1 & H2 & H3)]]]; [by left | by right; left | by right; right; left |]. right. right. right.
    destruct (decide (q = p)) as [-> | N]; [by simplify_eq |]. exists q, x. cbn. by rewrite lookup_delete_ne.
Qed.

Lemma reach_exists s o : inv s -> o ∈ reach s -> exists fs, objects s !! o = Some fs.
Proof. intros I Ho. destruct (i_reach _ I o Ho) as [H | [H | [H | (p & w & H & _)]]]; eauto. Qed.

Lemma WeakCallback_inv s p w o s' :
  inv s -> wrappers s !! p = Some w -> object_ w = Some o -> weak w = true -> o ∉ reach s ->
  WeakCallback s p = Ret s' -> inv s' /\ wrappers s' !! p = None /\ reference_count_ w = 0.
Proof.
  intros I Hw Ho Hk Hr E. unfold WeakCallback, at_ in E. rewrite Hw in E.
  apply bind_Ret in E as (s1 & E1 & E). injection E as <-.
  pose proof (reset_inv s p w o I Hw Ho Hk Hr) as I0.
  destruct (Unweak_inv _ _ _ I0 E1) as (I1 & (G1 & G2 & G3) & _ & w0 & w1 & o1 & Hw0 & Hw1 & Ho1 & _ & Hc).
  cbn in Hw0. rewrite lookup_insert_eq in Hw0. injection Hw0 as <-. cbn in Hc.
  split_and!.
  - apply (delete_inv s1 p w1 o1); try done. destruct Hc as [Hc | [_ Hc]]; [done |]. rewrite G3. intros Hin.
    destruct (reach_exists s o1 I Hin) as [fs Hfs]. cbn in Hc. congruence.
  - apply lookup_delete_eq.
  - destruct (i_wrapper _ I _ _ Hw) as [_ _ _ K3 K4 _]. destruct (decide (reference_count_ w = 0)); [done |].
    destruct K4 as [K4 _]; [lia | congruence].
Qed.

Lemma wrappers_step_inv s s' : step s s' -> inv s -> inv s'.
Proof.
  intros St I. destruct St as [s p ty s' Hp He Hn E | s p s' E | s p o s' E | s p s' E | s p s' E | s o | s | s | s o p Ho Hf | s p w o s' Hw Ho Hk Hr E].
  - unfold new in E. apply bind_Ret in E as (u & T1%rt_assert_Ret & E). apply bind_Ret in E as (v & T2%rt_assert_Ret & E). injection E as <-.
    destruct I as [I1 I2 I3 I4]. split; try done.
    + intros q x. cbn. destruct (decide (q = p)) as [-> | N].
      * rewrite lookup_insert_eq. intros [= <-]. split; cbn; try done; lia.
      * rewrite lookup_insert_ne by done. intros Hx. by eapply wrapper_ok_same, I3.
    + intros o Ho. destruct (I4 o Ho) as [H | [H | [H | (q & x & H1 & H2 & H3)]]]; [by left | by right; left | by right; right; left |]. right. right. right.
      exists q, x. cbn. rewrite lookup_insert_ne; [done | congruence].
  - unfold BindToTemplateCache, at_ in E. destruct (wrappers s !! p) as [w |] eqn:Hw; [| done].
    apply bind_Ret in E as (u & _ & E). injection E as <-. destruct (i_wrapper _ I _ _ Hw) as [K1 Ke K2 K3 K4 K5].
    apply (set_wrapper_inv _ _ w); try done. split; cbn; try done. intros o Ho. by destruct (K5 o Ho).
  - destruct (GetInstance_inv s p o s' I E) as (I1 & _ & w & Hw & Ho & Hob). apply reach_inv; [done |].
    intros o' [->%elem_of_singleton | Ho']%elem_of_union; [right; right; right; eauto | by apply (i_reach _ I1)].
  - unfold AddReference in E. apply bind_Ret in E as (s1 & E1 & E).
    destruct (Unweak_inv s p s1 I E1) as (I1 & _ & _ & w & w1 & o & _ & Hw1 & Ho & Hk & _). unfold at_ in E. rewrite Hw1 in E. injection E as <-.
    destruct (i_wrapper _ I1 _ _ Hw1) as [K1 Ke K2 K3 K4 K5]. apply (set_wrapper_inv _ _ w1); try done. split; cbn; try done.
    + apply (wrap_range 32). lia.
    + intros _. split; [done | congruence].
  - unfold RemoveReference, at_ in E. destruct (wrappers s !! p) as [w |] eqn:Hw; [| done].
    destruct (Z.eqb_spec 0 (reference_count_ w)) as [E0 | E0]; [by injection E as <- |].
    pose proof (i_wrapper _ I _ _ Hw) as [K1 Ke K2 K3 K4 K5].
    assert (inv (set_wrapper s p (set_count w (reference_count_ w - 1)))) as I1.
    { apply (set_wrapper_inv _ _ w); try done. split; cbn; try done; [lia |]. intros _. apply K4. lia. }
    destruct (Z.eqb_spec 0 (reference_count_ w - 1)) as [E1 | E1]; [| by injection E as <-].
    eapply (Weak_inv _ p s' (set_count w (reference_count_ w - 1)) I1); [cbn; apply lookup_insert_eq | done | done].
  - apply reach_inv; [done |]. intros o' [Ho' _]%elem_of_difference. by apply (i_reach _ I).
  - destruct (new_object_inv s [] I) as (I1 & _ & _ & Ho). apply reach_inv; [done |].
    intros o' [->%elem_of_singleton | Ho']%elem_of_union; [by left | by apply (i_reach _ I1)].
  - destruct (new_object_inv s [0; 0] I) as (I1 & _ & _ & Ho). apply reach_inv; [done |].
    intros o' [->%elem_of_singleton | Ho']%elem_of_union; [right; by left | by apply (i_reach _ I1)].
  - destruct (new_object_inv s [undefined] I) as (I1 & _ & _ & Hn). apply reach_inv; [done |].
    intros o' [->%elem_of_singleton | Ho']%elem_of_union; [right; right; by left | by apply (i_reach _ I1)].
  - by destruct (WeakCallback_inv s p w o s' I Hw Ho Hk Hr E) as [I1 _].
Qed.

Lemma steps_inv s s' : rtc step s s' -> inv s -> inv s'.
Proof. induction 1 as [| s s1 s2 St R IH]; [done |]. intros I. apply IH. by eapply wrappers_step_inv. Qed.

Lemma reachable_inv s : rtc step init s -> inv s.
Proof. intros R. apply (steps_inv init); [done |]. split; cbn; set_solver. Qed.

Lemma undefined_no_wrapper s : inv s -> wrappers s !! undefined = None.
Proof.
  intros I. destruct (wrappers s !! undefined) as [w |] eqn:E; [| done]. pose proof (w_even _ _ _ (i_wrapper _ I _ _ E)) as Ev.
  rewrite <- Z.negb_odd, undefined_tagged in Ev. done.
Qed.

Lemma FromHandle_undefined s o T : inv s -> objects s !! o = Some [undefined] -> FromHandle T s (Object_ o) = Fatal "dangling wrapper".
Proof.
  intros I H. unfold FromHandle, GetWrapped, at_. rewrite H, (proj2 (Z.eqb_neq undefined 0)) by (intros E; by rewrite E in undefined_tagged).
  cbn [negb rt_assert mbind outcome_bind]. by rewrite (undefined_no_wrapper s I).
Qed.

(** C28. Native objects are typed and alive: after any sequence of creations, references,
    drops and collections, an object that a script can reach either has no internal
    field (and is no native object), or is a buffer of V8, whose null fields stop
    the machine when it is passed as a native object, or leads to a wrapper that still
    exists and whose instance it is, and then a method of a class accepts it exactly when
    the wrapper is of this class. The one exception is what a script makes with the constructor of a native
    object, which it can do as soon as it has one: the internal field of the new object was never set, and a
    method takes the address of V8's undefined value for a wrapper, where there is none. *)
Theorem wrappers_typed s o T
  (R : rtc step init s) (Ho : o ∈ reach s) :
  (FromHandle T s (Object_ o) = Ret None /\ objects s !! o = Some [] \/
   FromHandle T s (Object_ o) = Fatal "ptr" /\ objects s !! o = Some [0; 0] \/
   FromHandle T s (Object_ o) = Fatal "dangling wrapper" /\ objects s !! o = Some [undefined] /\ wrappers s !! undefined = None \/
   exists p w, wrappers s !! p = Some w /\ object_ w = Some o /\ 0 < type_id w < LAST /\
     FromHandle T s (Object_ o) = Ret (if T =? type_id w then Some p else None)) /\
  (forall p, objects s !! o = Some [p] ->
     exists o' s', step s s' /\ o' ∈ reach s' /\ FromHandle T s' (Object_ o') = Fatal "dangling wrapper").
Proof.
  pose proof (reachable_inv s R) as I. split.
  - destruct (i_reach _ I o Ho) as [H | [H | [H | (p & w & H & Hw & Hob)]]].
    { left. unfold FromHandle, GetWrapped. by rewrite H. }
    { right. left. unfold FromHandle, GetWrapped. by rewrite H. }
    { right. right. left. split; [by apply FromHandle_undefined |]. split; [done | by apply undefined_no_wrapper]. }
    right. right. right. destruct (i_wrapper _ I _ _ Hw) as [K1 _ K2 _ _ _]. exists p, w. split_and!; try done; try lia.
    unfold FromHandle, GetWrapped. rewrite H, (proj2 (Z.eqb_neq p 0)) by done.
    cbn [negb rt_assert mbind outcome_bind]. unfold at_. rewrite Hw. by destruct (T =? type_id w).
  - intros p Hp. pose proof (step_construct s o p Ho Hp) as St. exists (next s). eexists. split; [exact St |].
    split; [cbn; set_solver |]. apply FromHandle_undefined; [by eapply wrappers_step_inv | apply lookup_insert_eq].
Qed.

(** Wrappers that natives refer to survive: whatever happened before, a collection only
    deletes a wrapper without references, none of whose objects a script can reach. *)
Theorem collect_unreferenced s p w o s'
  (R : rtc step init s) (Hw : wrappers s !! p = Some w) (Ho : object_ w = Some o) (Hk : weak w = true)
  (Hr : o ∉ reach s) (E : WeakCallback s p = Ret s') :
  reference_count_ w = 0 /\ wrappers s' !! p = None /\
  forall o', o' ∈ reach s -> objects s !! o' <> Some [p].
Proof.
  pose proof (reachable_inv s R) as I. destruct (WeakCallback_inv s p w o s' I Hw Ho Hk Hr E) as (_ & Hd & Hc).
  split_and!; [done | done |]. intros o' Ho' Hp.
  destruct (i_reach _ I o' Ho') as [H | [H | [H | (q & x & H & Hq & Hx)]]]; simplify_eq.
  - by rewrite (undefined_no_wrapper s I) in Hw.
  - congruence.
Qed.

End Scripts.

(** ** A port that a script gets and drops *)

Definition get {A} (d : A) (x : outcome A) : A := match x with Ret a => a | _ => d end.

Definition created : t := get init (new init 0x9000 8).
Definition bound : t := get init (BindToTemplateCache created 0x9000).
Definition instance : Z * t := get (0, init) (GetInstance bound 0x9000).
Definition shown : t := set_reach instance.2 ({[instance.1]} ∪ reach instance.2).
Definition dropped : t := set_reach shown (reach shown ∖ {[instance.1]}).

Lemma shown_reachable : rtc (step 0x4001) init shown.
Proof.
  apply (rtc_l _ _ created); [apply (step_new _ init 0x9000 8); [done | done | reflexivity | reflexivity] |].
  apply (rtc_l _ _ bound); [apply (step_bind _ created 0x9000); reflexivity |].
  apply rtc_once. apply (step_instance _ bound 0x9000). reflexivity.
Qed.

Lemma wrappers_typed_witness :
  instance.1 ∈ reach shown /\
  exists o' s', step 0x4001 shown s' /\ o' ∈ reach s' /\ FromHandle 8 s' (Object_ o') = Fatal "dangling wrapper".
Proof.
  assert (instance.1 ∈ reach shown) as Ho by (unfold shown; cbn [reach set_reach]; set_solver).
  split; [exact Ho |]. apply (proj2 (wrappers_typed 0x4001 eq_refl shown instance.1 8 shown_reachable Ho) 0x9000). reflexivity.
Defined.

Lemma collect_unreferenced_witness :
  exists w s', wrappers dropped !! 0x9000 = Some w /\ WeakCallback dropped 0x9000 = Ret s' /\ reference_count_ w = 0.
Proof.
  exists (mkW 8 true (Some 2) true 0), (get init (WeakCallback dropped 0x9000)).
  destruct (collect_unreferenced 0x4001 eq_refl dropped 0x9000 (mkW 8 true (Some 2) true 0) 2 (get init (WeakCallback dropped 0x9000))) as (H & _).
  - eapply rtc_r; [exact shown_reachable | apply step_drop].
  - reflexivity.
  - reflexivity.
  - reflexivity.
  - unfold dropped. cbn [reach set_reach]. change instance.1 with 2. set_solver.
  - reflexivity.
  - split; [reflexivity | split; [reflexivity | exact H]].
Defined.

End Wrappers.
