(* ===== verification/AcpiOs.v ===== *)
(** * kernel/acpica-platform.cc: what the kernel provides to the ACPI interpreter

    The operating system layer of ACPICA: access to PCI configuration space, to
    memory and to ports with the width as an argument, waiting, and the address
    translation.  An output parameter is an option, [None] when it is left alone.
    The semaphores and locks keep no state and always succeed.  The theorems: each access reads or writes exactly the bytes that were asked
    for, what is written is read back, and no other width reaches the hardware. *)

From S2P Require Import Prelude Utils Natives Engine Io.

Module AcpiOs.
Import IoPortsX64.

(** An [ACPI_STATUS]; zero is success. *)
Definition AE_OK : Z := 0.
Definition AE_NO_ACPI_TABLES : Z := 0x0002.
Definition AE_ALREADY_EXISTS : Z := 0x0007.
Definition AE_SUPPORT : Z := 0x000F.
Definition AE_BAD_PARAMETER : Z := 0x1001.
Definition AE_BAD_DATA : Z := 0x1004.
Definition AE_CTRL_TERMINATE : Z := 0x4003.
Definition ACPI_FAILURE (s : Z) : bool := negb (s =? AE_OK).

(** An [ACPI_PCI_ID]: the segment is not used. *)
Record pci_id : Type := mkPciId { Bus : Z; Device : Z; Function : Z }.

Section Access.
Context {S : Type} `{Ports S}.

(** kernel/acpica-platform.cc:108-129, AcpiOsReadPciConfiguration.  The helpers take
    bytes: the arguments are truncated. *)
Definition AcpiOsReadPciConfiguration (pciid : pci_id) (reg width : Z) (s : S) : outcome (Z * option Z * S) :=
  let read (f : Z -> Z -> Z -> Z -> S -> outcome (Z * S)) :=
    '(v, s) ← f (u8 (Bus pciid)) (u8 (Device pciid)) (u8 (Function pciid)) (u8 reg) s;
    Ret (AE_OK, Some v, s) in
  if width =? 8 then read PciReadB
  else if width =? 16 then read PciReadW
  else if width =? 32 then read PciReadDW
  else if width =? 64 then Fatal "AcpiOsReadPciConfiguration 64 bit is not supported."
  else Ret (AE_BAD_PARAMETER, None, s).

(** kernel/acpica-platform.cc:131-150, AcpiOsWritePciConfiguration. *)
Definition AcpiOsWritePciConfiguration (pciid : pci_id) (reg value width : Z) (s : S) : outcome (Z * S) :=
  let write (f : Z -> Z -> Z -> Z -> Z -> S -> outcome S) v :=
    s ← f (u8 (Bus pciid)) (u8 (Device pciid)) (u8 (Function pciid)) (u8 reg) v s;
    Ret (AE_OK, s) in
  if width =? 8 then write PciWriteB (Z.land value 0xff)
  else if width =? 16 then write PciWriteW (Z.land value 0xffff)
  else if width =? 32 then write PciWriteDW (Z.land value 0xffffffff)
  else if width =? 64 then Fatal "AcpiOsWritePciConfiguration 64 bit is not supported."
  else Ret (AE_BAD_PARAMETER, s).

(** kernel/acpica-platform.cc:225-245, AcpiOsReadPort. *)
Definition AcpiOsReadPort (address width : Z) (s : S) : Z * option Z * S :=
  let port := u16 address in
  let read (r : Z * S) := (AE_OK, Some r.1, r.2) in
  if width =? 8 then read (InB port s)
  else if width =? 16 then read (InW port s)
  else if width =? 32 then read (InDW port s)
  else (AE_BAD_PARAMETER, None, s).

(** kernel/acpica-platform.cc:247-265, AcpiOsWritePort. *)
Definition AcpiOsWritePort (address value width : Z) (s : S) : Z * S :=
  let port := u16 address in
  if width =? 8 then (AE_OK, OutB port (u8 value) s)
  else if width =? 16 then (AE_OK, OutW port (u16 value) s)
  else if width =? 32 then (AE_OK, OutDW port (u32 value) s)
  else (AE_BAD_PARAMETER, s).

End Access.

(** kernel/acpica-platform.cc:175-199, AcpiOsReadMemory. *)
Definition AcpiOsReadMemory (m : ram) (address width : Z) : outcome (Z * option Z) :=
  _ ← rt_assert (address <=? 0xFFFFFFFF) "address <= 0xFFFFFFFF";
  Ret (if width =? 8 then (AE_OK, Some (load m address 1))
       else if width =? 16 then (AE_OK, Some (load m address 2))
       else if width =? 32 then (AE_OK, Some (load m address 4))
       else if width =? 64 then (AE_OK, Some (load m address 8))
       else (AE_BAD_PARAMETER, None)).

(** kernel/acpica-platform.cc:201-223, AcpiOsWriteMemory. *)
Definition AcpiOsWriteMemory (m : ram) (address value width : Z) : outcome (Z * ram) :=
  _ ← rt_assert (address <=? 0xFFFFFFFF) "address <= 0xFFFFFFFF";
  Ret (if width =? 8 then (AE_OK, store_bytes m address (le_bytes 1 (u8 value)))
       else if width =? 16 then (AE_OK, store_bytes m address (le_bytes 2 (u16 value)))
       else if width =? 32 then (AE_OK, store_bytes m address (le_bytes 4 (u32 value)))
       else if width =? 64 then (AE_OK, store_bytes m address (le_bytes 8 (u64 value)))
       else (AE_BAD_PARAMETER, m)).

(** kernel/acpica-platform.cc:267-270, AcpiOsMapMemory. *)
Definition AcpiOsMapMemory (PhysicalAddress : Z) : outcome Z :=
  _ ← rt_assert (PhysicalAddress <=? 0xFFFFFFFF) "PhysicalAddress <= 0xFFFFFFFF"; Ret PhysicalAddress.

(** kernel/acpica-platform.cc:276-279, AcpiOsGetPhysicalAddress. *)
Definition AcpiOsGetPhysicalAddress (LogicalAddress : Z) : Z * Z := (AE_OK, LogicalAddress).

(** kernel/acpica-platform.cc:66-69, AcpiOsStall, without what it prints; [counter] is
    what the loop of Sleep reads of the tick counter. *)
Definition AcpiOsStall (e : Engines.t) (Microseconds : Z) (counter : list Z) : outcome nat :=
  Engines.Sleep e Microseconds counter.

(** kernel/acpica-platform.cc:71-74, AcpiOsSleep. *)
Definition AcpiOsSleep (e : Engines.t) (Milliseconds : Z) (counter : list Z) : outcome nat :=
  Engines.Sleep e (u64 (Milliseconds * 1000)) counter.

(** kernel/acpica-platform.cc:99-106, AcpiOsPredefinedOverride: the status and what is
    stored in [NewVal] (null). *)
Definition AcpiOsPredefinedOverride (InitVal NewVal : Z) : Z * option Z :=
  if (InitVal =? 0) || (NewVal =? 0) then (AE_BAD_PARAMETER, None) else (AE_OK, Some 0).

(** kernel/acpica-platform.cc:166-173, AcpiOsTableOverride. *)
Definition AcpiOsTableOverride (ExistingTable NewTable : Z) : Z * option Z :=
  if (ExistingTable =? 0) || (NewTable =? 0) then (AE_BAD_PARAMETER, None) else (AE_NO_ACPI_TABLES, Some 0).

(** The functions for semaphores, locks and handlers. *)
Inductive service : Type :=
  | AcpiOsInitialize | AcpiOsTerminate | AcpiOsCreateSemaphore | AcpiOsDeleteSemaphore
  | AcpiOsWaitSemaphore | AcpiOsSignalSemaphore | AcpiOsCreateLock | AcpiOsDeleteLock
  | AcpiOsAcquireLock | AcpiOsReleaseLock.

(** kernel/acpica-platform.cc:26-64, AcpiOsInitialize to AcpiOsReleaseLock: what they
    return ([None]: void); they keep no state. *)
Definition service_result (f : service) : option Z :=
  match f with
  | AcpiOsAcquireLock => Some 1
  | AcpiOsDeleteLock | AcpiOsReleaseLock => None
  | _ => Some AE_OK
  end.

(** kernel/acpica-platform.cc:76-86, AcpiOsInstallInterruptHandler and
    AcpiOsRemoveInterruptHandler: the handler is dropped. *)
Definition AcpiOsInterruptHandler (level : Z) : Z := AE_OK.

(** kernel/acpica-platform.cc:88-96, AcpiOsWaitEventsComplete and AcpiOsExecute. *)
Definition AcpiOsExecute : outcome Z := Fatal "Not implemented".

(** kernel/acpica-platform.cc:152-164, AcpiOsPhysicalTableOverride, AcpiOsSignal and AcpiOsGetTimer. *)
Definition AcpiOs_stubs : outcome Z * outcome Z * outcome Z :=
  (Ret AE_SUPPORT, Ret AE_OK, Fatal "Not implemented.").

(** ** Specification *)

(** The widths of an access and their bytes. *)
Definition bytes_of_width (w : Z) : option nat :=
  if w =? 8 then Some 1%nat else if w =? 16 then Some 2%nat
  else if w =? 32 then Some 4%nat else if w =? 64 then Some 8%nat else None.

Lemma width_cases w n : bytes_of_width w = Some n ->
  w = 8 /\ n = 1%nat \/ w = 16 /\ n = 2%nat \/ w = 32 /\ n = 4%nat \/ w = 64 /\ n = 8%nat.
Proof.
  unfold bytes_of_width. intros E. repeat case_match; simplify_eq;
    rewrite ?Z.eqb_eq in *; subst; eauto 10.
Qed.

Lemma load_store_bytes m p n v :
  load (store_bytes m p (le_bytes (Z.of_nat n) (wrap (8 * Z.of_nat n) v))) p n = wrap (8 * Z.of_nat n) v.
Proof. apply holds_load; [apply store_holds | apply wrap_range; lia]. Qed.

Lemma WriteMemory_spec m a v w n :
  bytes_of_width w = Some n -> a <= 0xFFFFFFFF ->
  AcpiOsWriteMemory m a v w = Ret (AE_OK, store_bytes m a (le_bytes (Z.of_nat n) (wrap w v))).
Proof.
  intros W Ha. unfold AcpiOsWriteMemory. rewrite (proj2 (Z.leb_le _ _)) by done.
  by destruct (width_cases w n W) as [[-> ->] | [[-> ->] | [[-> ->] | [-> ->]]]].
Qed.

Lemma ReadMemory_spec m a w n :
  bytes_of_width w = Some n -> a <= 0xFFFFFFFF -> AcpiOsReadMemory m a w = Ret (AE_OK, Some (load m a n)).
Proof.
  intros W Ha. unfold AcpiOsReadMemory. rewrite (proj2 (Z.leb_le _ _)) by done.
  by destruct (width_cases w n W) as [[-> ->] | [[-> ->] | [[-> ->] | [-> ->]]]].
Qed.

Lemma width_bits w n : bytes_of_width w = Some n -> w = 8 * Z.of_nat n.
Proof. intros W. destruct (width_cases w n W) as [[-> ->] | [[-> ->] | [[-> ->] | [-> ->]]]]; done. Qed.

(** Memory for the ACPI interpreter: a write of 8, 16, 32 or 64 bits below 4 GiB
    stores exactly these bytes and reading them back with the same width returns the
    value modulo the width; every other width is refused with AE_BAD_PARAMETER and
    leaves memory and the result alone; an address from 4 GiB on stops the machine. *)
Theorem AcpiOs_memory m a v w :
  (forall n, bytes_of_width w = Some n -> a <= 0xFFFFFFFF ->
    exists m', AcpiOsWriteMemory m a v w = Ret (AE_OK, m') /\
      AcpiOsReadMemory m' a w = Ret (AE_OK, Some (wrap w v)) /\
      (forall b, b < a \/ a + Z.of_nat n <= b -> m' b = m b)) /\
  (bytes_of_width w = None -> a <= 0xFFFFFFFF ->
    AcpiOsWriteMemory m a v w = Ret (AE_BAD_PARAMETER, m) /\ AcpiOsReadMemory m a w = Ret (AE_BAD_PARAMETER, None)) /\
  (0xFFFFFFFF < a -> result (AcpiOsWriteMemory m a v w) = None /\ result (AcpiOsReadMemory m a w) = None).
Proof.
  split_and!.
  - intros n W Ha. eexists. split; [by apply WriteMemory_spec |]. split.
    + rewrite (ReadMemory_spec _ _ _ n) by done. rewrite (width_bits w n W). by rewrite load_store_bytes.
    + intros b Hb. apply store_bytes_out. rewrite length_le_bytes by lia. lia.
  - intros W Ha. unfold AcpiOsWriteMemory, AcpiOsReadMemory. rewrite (proj2 (Z.leb_le _ _)) by done.
    unfold bytes_of_width in W. cbn [rt_assert mbind outcome_bind]. by repeat case_match.
  - intros Ha. unfold AcpiOsWriteMemory, AcpiOsReadMemory. by rewrite (proj2 (Z.leb_gt _ _)).
Qed.

(** *** Configuration space *)

Lemma store_holds_le c a n v : holds (store c a n v) a (le_bytes (Z.of_nat n) v).
Proof.
  intros i b Hi. pose proof (lookup_lt_Some _ _ _ Hi) as L. rewrite length_le_bytes in L by lia.
  apply Z_to_little_endian_lookup_Some in Hi as [_ ->]; [| lia..].
  unfold store. rewrite decide_True by lia. replace (a + Z.of_nat i - a) with (Z.of_nat i) by lia.
  by rewrite Z.land_ones, Z.shiftr_div_pow2, (Z.mul_comm 8) by lia.
Qed.

Lemma store_ram_ok c a n v : ram_ok c -> ram_ok (store c a n v).
Proof. intros C x. unfold store. destruct (decide _); [apply (wrap_range 8); lia | apply C]. Qed.

Lemma load_store c a n v : in_range (8 * Z.of_nat n) v -> load (store c a n v) a n = v.
Proof. intros Hv. apply holds_load; [apply store_holds_le | done]. Qed.

(** The function and register that an access names. *)
Definition register_of (id : pci_id) (reg : Z) : Z := place (u8 (Bus id)) (Device id) (Function id) (u8 reg).

Definition id_ok (id : pci_id) : Prop := 0 <= Device id < 32 /\ 0 <= Function id < 8.

Lemma register_valid id reg : id_ok id -> valid (u8 (Bus id)) (Device id) (Function id) (u8 reg).
Proof. intros [Hd Hf]. repeat split; try apply (wrap_range 8); lia. Qed.

Lemma u8_small z : in_range 8 z -> u8 z = z.
Proof. apply wrap_small. Qed.

Lemma u8_mod k reg : (k | 256) -> (u8 reg) `mod` k = reg `mod` k.
Proof. intros D. unfold u8, wrap. by apply Z.mod_mod_divide. Qed.

Lemma ReadPci_spec d id reg w n :
  ram_ok (config d) -> id_ok id -> bytes_of_width w = Some n -> w <> 64 -> reg `mod` Z.of_nat n = 0 ->
  exists d', AcpiOsReadPciConfiguration id reg w d = Ret (AE_OK, Some (load (config d) (register_of id reg) n), d') /\
    config d' = config d.
Proof.
  intros C V W Hw A.
  destruct (Pci_correct d _ _ _ _ 0 (register_valid id reg V) C) as (RB & RW & RDW & _).
  unfold AcpiOsReadPciConfiguration. destruct V as [Vd Vf].
  rewrite !(u8_small (Device id)), !(u8_small (Function id)) by (red; lia).
  destruct (width_cases w n W) as [[-> ->] | [[-> ->] | [[-> ->] | [-> ->]]]]; cbn [Z.eqb Pos.eqb].
  - destruct RB as (d' & -> & E). exists d'. cbn [mbind outcome_bind]. split; [| done]. do 3 f_equal.
    rewrite load_S by done. change (load _ _ 0) with 0. unfold register_of. by rewrite Z.mul_0_r, Z.add_0_r.
  - destruct RW as (d' & -> & E); [by rewrite u8_mod by (by exists 128) |]. by exists d'.
  - destruct RDW as (d' & -> & E); [by rewrite u8_mod by (by exists 64) |]. by exists d'.
  - done.
Qed.

Lemma WritePci_spec d id reg v w n :
  ram_ok (config d) -> id_ok id -> bytes_of_width w = Some n -> w <> 64 -> reg `mod` Z.of_nat n = 0 ->
  exists d', AcpiOsWritePciConfiguration id reg v w d = Ret (AE_OK, d') /\
    config d' = store (config d) (register_of id reg) n (wrap w v).
Proof.
  intros C V W Hw A. unfold AcpiOsWritePciConfiguration.
  rewrite (land_mask 8 v), (land_mask 16 v), (land_mask 32 v) by (done || lia).
  pose proof (fun x => Pci_correct d _ _ _ _ x (register_valid id reg V) C) as P. destruct V as [Vd Vf].
  rewrite !(u8_small (Device id)), !(u8_small (Function id)) by (red; lia).
  destruct (width_cases w n W) as [[-> ->] | [[-> ->] | [[-> ->] | [-> ->]]]]; cbn [Z.eqb Pos.eqb].
  - destruct (P (wrap 8 v)) as (_ & _ & _ & (d' & -> & E) & _). exists d'. split; [done |].
    rewrite E. unfold u8 at 3. by rewrite wrap_idemp.
  - destruct (P (wrap 16 v)) as (_ & _ & _ & _ & (d' & -> & E) & _);
      [by rewrite u8_mod by (by exists 128) |]. exists d'. split; [done |].
    rewrite E. unfold u16. by rewrite wrap_idemp.
  - destruct (P (wrap 32 v)) as (_ & _ & _ & _ & _ & (d' & -> & E) & _);
      [by rewrite u8_mod by (by exists 64) |]. exists d'. split; [done |].
    rewrite E. unfold u32. by rewrite wrap_idemp.
  - done.
Qed.

(** C33. PCI configuration space for the ACPI interpreter, on a bus that implements
    configuration mechanism 1: an aligned access of 8, 16 or 32 bits reads exactly the bytes
    of the register and changes nothing, a write changes exactly these bytes and is
    read back; 64 bits stop the machine although the fall through means to refuse them;
    the register number is taken modulo 256, so the registers of the extended
    configuration space are those of the first 256 bytes. *)
Theorem AcpiOs_pci d id reg v w n
  (C : ram_ok (config d)) (V : id_ok id) (W : bytes_of_width w = Some n) (Hw : w <> 64)
  (A : reg `mod` Z.of_nat n = 0) :
  (exists d', AcpiOsReadPciConfiguration id reg w d = Ret (AE_OK, Some (load (config d) (register_of id reg) n), d') /\
    config d' = config d) /\
  (exists d', AcpiOsWritePciConfiguration id reg v w d = Ret (AE_OK, d') /\
    config d' = store (config d) (register_of id reg) n (wrap w v) /\
    exists d'', AcpiOsReadPciConfiguration id reg w d' = Ret (AE_OK, Some (wrap w v), d'')) /\
  AcpiOsReadPciConfiguration id (reg + 256) w d = AcpiOsReadPciConfiguration id reg w d /\
  result (AcpiOsReadPciConfiguration id reg 64 d) = None.
Proof.
  split_and!; [by apply ReadPci_spec | | | done].
  - destruct (WritePci_spec d id reg v w n C V W Hw A) as (d' & E & Ec). exists d'. split_and!; [done.. |].
    destruct (ReadPci_spec d' id reg w n) as (d'' & -> & _); [| done.. |].
    + rewrite Ec. by apply store_ram_ok.
    + exists d''. rewrite Ec, load_store; [done |]. rewrite <- (width_bits w n W).
      apply wrap_range. rewrite (width_bits w n W). lia.
  - unfold AcpiOsReadPciConfiguration. assert (u8 (reg + 256) = u8 reg) as -> by (apply (Z.mod_add reg 1 256); done). done.
Qed.

Lemma AcpiOs_memory_witness :
  exists m', AcpiOsWriteMemory (fun _ => 0) 0x7000 0x12345678 16 = Ret (AE_OK, m') /\
    AcpiOsReadMemory m' 0x7000 16 = Ret (AE_OK, Some 0x5678).
Proof.
  destruct (AcpiOs_memory (fun _ => 0) 0x7000 0x12345678 16) as (P & _ & _).
  destruct (P 2%nat eq_refl ltac:(lia)) as (m' & E & R & _). exists m'. split; [exact E | exact R].
Defined.

Lemma AcpiOs_pci_witness :
  exists d', AcpiOsReadPciConfiguration (mkPciId 1 2 3) 0x0e 16 (mkPci 0 (fun x => x `mod` 256)) = Ret (AE_OK, Some 0x0f0e, d').
Proof.
  destruct (AcpiOs_pci (mkPci 0 (fun x => x `mod` 256)) (mkPciId 1 2 3) 0x0e 0 16 2) as ((d' & E & _) & _).
  - intros x. apply (wrap_range 8). lia.
  - repeat split; cbn; lia.
  - reflexivity.
  - lia.
  - reflexivity.
  - exists d'. exact E.
Defined.

(** Waiting: both waits end after at most 100 ticks, a second, whatever is asked for. *)
Lemma AcpiOsSleep_capped ms : 1 <= Engines.sleep_ticks (u64 (ms * 1000)) <= 100.
Proof. unfold Engines.sleep_ticks. repeat case_match; rewrite ?Z.gtb_ltb, ?Z.ltb_lt, ?Z.ltb_ge in *; lia. Qed.

End AcpiOs.
