(* ===== verification/AcpiPci.v ===== *)
(** * kernel/acpi-manager.h, .cc, native-object.cc: devices and interrupt routing from ACPI

    The manager that starts the ACPI interpreter and enumerates devices, and the
    natives on a device: its kind, address and hardware identifier, the interrupt
    routing table of a bridge and the bus number of a root bridge.  What the
    interpreter answers (ACPICA) is a parameter; the walk over a list of
    resources, which calls back into the kernel, is translated.  The theorems: the
    interrupt routing table is decoded to exactly the routes it describes; the bus
    number of a root bridge is never returned; the start stops at the first failure. *)

From S2P Require Import Prelude Utils Natives AcpiOs.

Module AcpiManager.
Import AcpiOs.

(** The calls of ACPICA that the manager makes. *)
Inductive call : Type :=
  | AcpiInitializeSubsystem | AcpiInitializeTables | AcpiLoadTables
  | AcpiEnableSubsystem | AcpiInitializeObjects | AcpiEvaluate_PIC (mode : Z).

Section Manager.
(** The status that each call returns. *)
Variable status : call -> Z.

(** Runs the calls until one fails. *)
Fixpoint run_calls (cs : list call) : bool * list call :=
  match cs with
  | [] => (true, [])
  | c :: cs' => if ACPI_FAILURE (status c) then (false, [c]) else let '(ok, done_) := run_calls cs' in (ok, c :: done_)
  end.

(** kernel/acpi-manager.cc:58-92, AcpiManager::Init: whether it succeeds and the calls
    that were made. *)
Definition Init : bool * list call :=
  run_calls [AcpiInitializeSubsystem; AcpiInitializeTables; AcpiLoadTables; AcpiEnableSubsystem; AcpiInitializeObjects].

(** kernel/acpi-manager.cc:31-56, AcpiManager::SetInterruptRoutingMode. *)
Definition SetInterruptRoutingMode : bool * list call :=
  let mode := 1 in (negb (ACPI_FAILURE (status (AcpiEvaluate_PIC mode))), [AcpiEvaluate_PIC mode]).

(** kernel/acpi-manager.cc:21-29, AcpiManager::AcpiManager: the calls that were made. *)
Definition new : list call :=
  let '(ok, calls) := Init in if ok then calls ++ SetInterruptRoutingMode.2 else calls.

End Manager.

(** kernel/acpi-manager.h:24-45, AcpiObjectsList. *)
Definition AcpiObjectsList : Type := list Z.

(** kernel/acpi-manager.h:28-31, AcpiObjectsList::Push. *)
Definition Push (l : AcpiObjectsList) (object : Z) : outcome AcpiObjectsList :=
  _ ← rt_assert (negb (object =? 0)) "object"; Ret (l ++ [object]).

(** kernel/acpi-manager.h:33-36, AcpiObjectsList::Get. *)
Definition Get (l : AcpiObjectsList) (index : nat) : outcome Z :=
  match l !! index with Some h => Ret h | None => Fatal "index < _objects.size()" end.

(** kernel/acpi-manager.cc:94-99, WalkCallback. *)
Definition WalkCallback (object : Z) (list : AcpiObjectsList) : outcome (Z * AcpiObjectsList) :=
  list ← Push list object; Ret (AE_OK, list).

(** kernel/acpi-manager.cc:101-106, AcpiManager::GetPciDevices: [devices] are the handles with
    which AcpiGetDevices calls back; the callback never ends the walk. *)
Fixpoint GetPciDevices (devices : list Z) (devlist : AcpiObjectsList) : outcome AcpiObjectsList :=
  match devices with
  | [] => Ret devlist
  | h :: devices' => '(_, devlist) ← WalkCallback h devlist; GetPciDevices devices' devlist
  end.

(** kernel/acpi-manager.h:47-66, AcpiPciIrqRoute. *)
Record AcpiPciIrqRoute : Type := mkRoute { device : Z; pin : Z; irq : Z }.

(** kernel/acpi-manager.h:49-52, AcpiPciIrqRoute::AcpiPciIrqRoute: the arguments are bytes. *)
Definition AcpiPciIrqRoute_new (device pin irq : Z) : AcpiPciIrqRoute := mkRoute (u8 device) (u8 pin) (u8 irq).

(** kernel/acpi-manager.h:68-86, AcpiPciIrqRoutingTable, with AddRoute. *)
Definition AddRoute (routes : list AcpiPciIrqRoute) (route : AcpiPciIrqRoute) : list AcpiPciIrqRoute :=
  routes ++ [route].

(** The start of the interpreter: the calls are made in order up to and including the
    first that fails, and the interrupt controllers are only announced (_PIC with
    mode 1, the APIC) when all of the initialisation succeeded. *)
Theorem new_calls status :
  let all := [AcpiInitializeSubsystem; AcpiInitializeTables; AcpiLoadTables; AcpiEnableSubsystem;
              AcpiInitializeObjects; AcpiEvaluate_PIC 1] in
  exists n, new status = take n all /\
    (forall i c, (i + 1 < n)%nat -> all !! i = Some c -> status c = AE_OK) /\
    ((n < 6)%nat -> exists c, last (new status) = Some c /\ status c <> AE_OK).
Proof.
  cbv zeta. unfold new, Init, run_calls, SetInterruptRoutingMode, ACPI_FAILURE.
  destruct (Z.eqb_spec (status AcpiInitializeSubsystem) AE_OK) as [E1 | N1]; [| exists 1%nat].
  1: destruct (Z.eqb_spec (status AcpiInitializeTables) AE_OK) as [E2 | N2]; [| exists 2%nat].
  1: destruct (Z.eqb_spec (status AcpiLoadTables) AE_OK) as [E3 | N3]; [| exists 3%nat].
  1: destruct (Z.eqb_spec (status AcpiEnableSubsystem) AE_OK) as [E4 | N4]; [| exists 4%nat].
  1: destruct (Z.eqb_spec (status AcpiInitializeObjects) AE_OK) as [E5 | N5]; [exists 6%nat | exists 5%nat].
  all: cbn; split; [reflexivity |]; split; [| intros; first [lia | eexists; split; [reflexivity | done]]].
  all: intros i c Hi Hc; repeat (destruct i as [| i]; [injection Hc as <-; assumption || lia | cbn in Hc]); lia || done.
Qed.

Lemma GetPciDevices_spec devices : forall l,
  Forall (fun h => h <> 0) devices -> GetPciDevices devices l = Ret (l ++ devices).
Proof.
  induction devices as [| h ds IH]; intros l F; cbn [GetPciDevices]; [by rewrite app_nil_r |].
  apply Forall_cons in F as [Hh F]. unfold WalkCallback, Push. rewrite (proj2 (Z.eqb_neq h 0)) by done. cbn [negb rt_assert mbind outcome_bind].
  rewrite IH by done. by rewrite <- app_assoc.
Qed.

End AcpiManager.

Module AcpiResources.
Import AcpiOs.

(** An [ACPI_RESOURCE]: the descriptors the kernel looks into, the end tag, and the others
    by their type. *)
Inductive data : Type :=
  | ACPI_RESOURCE_TYPE_IRQ (Interrupts : list Z)
  | ACPI_RESOURCE_TYPE_EXTENDED_IRQ (Interrupts : list Z)
  | ACPI_RESOURCE_TYPE_ADDRESS (bits : Z) (ResourceType Minimum : Z)
  | ACPI_RESOURCE_TYPE_END_TAG
  | other (type : Z).
Record resource : Type := mkRes { Length : Z; Data : data }.

Definition AE_AML_INVALID_RESOURCE_TYPE : Z := 0x3017.
Definition AE_AML_BAD_RESOURCE_LENGTH : Z := 0x301F.

Definition is_end (r : resource) : bool :=
  match Data r with ACPI_RESOURCE_TYPE_END_TAG => true | _ => false end.
Definition bad_type (r : resource) : bool := match Data r with other type => 19 <? type | _ => false end.

(** deps/acpica/source/components/resources/rsxface.c:678-749, AcpiWalkResourceBuffer: the
    user function may change the context and ends the walk with a failure. *)
Fixpoint AcpiWalkResourceBuffer {C} (UserFunction : resource -> C -> outcome (Z * C)) (rs : list resource) (c : C)
  : outcome (Z * C) :=
  match rs with
  | [] => Ret (AE_OK, c)
  | r :: rs' =>
      if bad_type r then Ret (AE_AML_INVALID_RESOURCE_TYPE, c)
      else if Length r =? 0 then Ret (AE_AML_BAD_RESOURCE_LENGTH, c)
      else
        '(Status, c) ← UserFunction r c;
        if ACPI_FAILURE Status then Ret (if Status =? AE_CTRL_TERMINATE then AE_OK else Status, c)
        else if is_end r then Ret (Status, c)
        else AcpiWalkResourceBuffer UserFunction rs' c
  end.

(** deps/acpica/source/components/resources/rsxface.c:775-811, AcpiWalkResources, for the
    current resources of a device: [crs] evaluates _CRS, [None] stands for a failure
    (with some status, here AE_NOT_FOUND). *)
Definition AcpiWalkResources {C} (crs : Z -> option (list resource)) (DeviceHandle : Z)
  (UserFunction : resource -> C -> outcome (Z * C)) (c : C) : outcome (Z * C) :=
  if DeviceHandle =? 0 then Ret (AE_BAD_PARAMETER, c)
  else match crs DeviceHandle with
       | None => Ret (0x0005, c)
       | Some rs => AcpiWalkResourceBuffer UserFunction rs c
       end.

(** The resources that the walk hands to the user function when it never fails. *)
Fixpoint visited (rs : list resource) : list resource :=
  match rs with
  | [] => []
  | r :: rs' =>
      if bad_type r || (Length r =? 0) then [] else r :: (if is_end r then [] else visited rs')
  end.

(** A user function that always succeeds is folded over the resources it is given,
    whatever the status of the walk. *)
Lemma walk_fold {C} (f : resource -> C -> outcome (Z * C)) (g : C -> resource -> C) rs :
  Forall (fun r => forall c, f r c = Ret (AE_OK, g c r)) (visited rs) ->
  forall c, exists st, AcpiWalkResourceBuffer f rs c = Ret (st, fold_left g (visited rs) c).
Proof.
  induction rs as [| r rs IH]; intros F c; cbn [AcpiWalkResourceBuffer visited] in *; [by exists AE_OK |].
  destruct (bad_type r); [by eexists |]. destruct (Length r =? 0); [by eexists |]. cbn [orb] in *.
  apply Forall_cons in F as [E F]. rewrite E. cbn [mbind outcome_bind]. unfold ACPI_FAILURE. cbn [Z.eqb AE_OK negb].
  destruct (is_end r); [by exists AE_OK |]. destruct (IH F (g c r)) as [st E']. by exists st.
Qed.

End AcpiResources.

Module AcpiHandleObject.
Import Args AcpiOs AcpiManager AcpiResources.

(** What is used of an [ACPI_DEVICE_INFO]; the bytes of the hardware identifier include
    its terminating zero, and are empty when there is none. *)
Record device_info : Type := mkInfo { Flags : Z; Valid : Z; Type_ : Z; Address_ : Z; HardwareId_ : list Z }.

Definition ACPI_PCI_ROOT_BRIDGE : Z := 0x01.
Definition ACPI_VALID_ADR : Z := 0x02.
Definition ACPI_TYPE_DEVICE : Z := 0x06.
Definition ACPI_BUS_NUMBER_RANGE : Z := 2.

(** kernel/native-object.h:171-172, AcpiHandleObject members. *)
Record t : Type := mk { handle_ : Z; devinfo_ : option device_info }.

(** kernel/native-object.h:123-128, AcpiHandleObject::AcpiHandleObject. *)
Definition new (handle : Z) : outcome t := _ ← rt_assert (negb (handle =? 0)) "handle"; Ret (mk handle None).

(** kernel/native-object.cc:950-954, the loop of NativesObject::AcpiGetPciDevices. *)
Fixpoint wrap_handles (l : AcpiObjectsList) : outcome (list t) :=
  match l with
  | [] => Ret []
  | h :: l' => o ← new h; os ← wrap_handles l'; Ret (o :: os)
  end.

(** kernel/native-object.cc:943-957, NativesObject::AcpiGetPciDevices. *)
Definition AcpiGetPciDevices (devices : list Z) : outcome (list t) :=
  l ← GetPciDevices devices []; wrap_handles l.

(** Every device that ACPICA enumerates gets an object, in order. *)
Lemma AcpiGetPciDevices_all devices :
  Forall (fun h => h <> 0) devices -> AcpiGetPciDevices devices = Ret (map (fun h => mk h None) devices).
Proof.
  intros F. unfold AcpiGetPciDevices. rewrite GetPciDevices_spec by done. cbn [mbind outcome_bind app].
  induction F as [| h hs Hh F IH]; [done |]. cbn [wrap_handles]. unfold new. rewrite (proj2 (Z.eqb_neq h 0)) by done.
  cbn [negb rt_assert mbind outcome_bind]. rewrite IH. done.
Qed.

(** A JavaScript value that a native returns. *)
Inductive value : Type :=
  | Undefined | Null | Boolean (b : bool) | Number (z : Z) | String_ (bytes : list Z) | Handle (o : t)
  | Routes (rs : list AcpiPciIrqRoute).

Section Natives.
(** The interpreter: AcpiGetObjectInfo, AcpiGetParent (which fails without or with a
    null parent stored), AcpiGetHandle, AcpiGetIrqRoutingTable (status, the length it
    leaves in the buffer and the bytes it wrote there), _CRS and _BBN of a device. *)
Variable AcpiGetObjectInfo : Z -> option device_info.
Variable AcpiGetParent : Z -> Z * option Z.
Variable AcpiGetHandle : Z -> list Z -> option Z.
Variable AcpiGetIrqRoutingTable : Z -> Z * Z * list Z.
Variable crs : Z -> option (list resource).
Variable AcpiEvaluateInteger : Z -> string -> Z * Z.
(** What the stack holds around the local variables. *)
Variable stack : ram.

(** kernel/native-object.h:158-168, AcpiHandleObject::GetInfo. *)
Definition GetInfo (that : t) : option device_info * t :=
  match devinfo_ that with
  | Some i => (Some i, that)
  | None =>
      match AcpiGetObjectInfo (handle_ that) with
      | None => (None, that)
      | Some i => (Some i, mk (handle_ that) (Some i))
      end
  end.

(** [GetInfo] followed by [RT_ASSERT(devinfo)]. *)
Definition with_info (that : t) (k : device_info -> outcome value) : outcome (value * t) :=
  match GetInfo that with
  | (None, _) => Fatal "devinfo"
  | (Some i, that) => v ← k i; Ret (v, that)
  end.

(** kernel/native-object.cc:640-645, AcpiHandleObject::IsRootBridge. *)
Definition IsRootBridge (that : t) : outcome (value * t) :=
  with_info that (fun i => Ret (Boolean (negb (Z.land (Flags i) ACPI_PCI_ROOT_BRIDGE =? 0)))).

(** kernel/native-object.cc:647-663, AcpiHandleObject::IsDevice. *)
Definition IsDevice (that : t) : outcome (value * t) :=
  with_info that (fun i =>
    if 0 =? Z.land ACPI_VALID_ADR (Valid i) then Ret (Boolean false)
    else if negb (ACPI_TYPE_DEVICE =? Type_ i) then Ret (Boolean false)
    else Ret (Boolean true)).

(** kernel/native-object.cc:665-670, AcpiHandleObject::Address: the number is signed. *)
Definition Address (that : t) : outcome (value * t) :=
  with_info that (fun i => Ret (Number (Uint32_New (Z.land (Address_ i) 0xffffffff)))).

(** kernel/native-object.cc:672-684, AcpiHandleObject::Parent: a failure does not return, and
    [junk] is the value of the variable when nothing was stored. *)
Definition Parent (junk : Z) (that : t) : outcome value :=
  let '(s, stored) := AcpiGetParent (handle_ that) in
  let parent_handle := default junk stored in
  o ← new parent_handle; Ret (Handle o).

(** kernel/native-object.cc:686-702, AcpiHandleObject::HardwareId. *)
Definition HardwareId (that : t) : outcome (value * t) :=
  with_info that (fun i =>
    let hwid := HardwareId_ i in
    match last hwid with
    | None => Ret (String_ [])
    | Some b => _ ← rt_assert (b =? 0) "'\0' == hwid[len - 1]"; Ret (String_ (removelast hwid))
    end).

(** kernel/native-object.cc:704-731, WalkResourcesIrqContext: the routes are shared with
    the caller. *)
Record WalkResourcesIrqContext : Type := mkCtx { device : Z; pin : Z; source_index : Z }.

(** kernel/native-object.cc:733-766, WalkResourcesCallback. *)
Definition WalkResourcesCallback (ct : WalkResourcesIrqContext) (res : resource) (routes : list AcpiPciIrqRoute)
  : outcome (Z * list AcpiPciIrqRoute) :=
  let add Interrupts :=
    if (length Interrupts =? 0)%nat then Ret (AE_OK, routes)
    else match Interrupts !! Z.to_nat (source_index ct) with
         | None => Fatal "ct->source_index() < irq->InterruptCount"
         | Some i => Ret (AE_OK, AddRoute routes (AcpiPciIrqRoute_new (device ct) (pin ct) i))
         end in
  match Data res with
  | ACPI_RESOURCE_TYPE_IRQ Interrupts => add Interrupts
  | ACPI_RESOURCE_TYPE_EXTENDED_IRQ Interrupts => add Interrupts
  | _ => Ret (AE_OK, routes)
  end.

Definition kBufSize : Z := 8192.

(** kernel/native-object.cc:797-822, one row of the table that
    AcpiHandleObject::GetIrqRoutingTable walks: a row with a source that cannot be found
    is skipped, and so is the status of the walk over its resources. *)
Definition prt_row (b : ram) (that : t) (table : Z) (routes : list AcpiPciIrqRoute) : outcome (list AcpiPciIrqRoute) :=
  let device_id := u8 (Z.shiftr (load64 b (table + 8)) 16) in
  let pin := u8 (load32 b (table + 4)) in
  let source_index := u8 (load32 b (table + 16)) in
  if b (table + 20) =? 0 then Ret (AddRoute routes (AcpiPciIrqRoute_new device_id pin source_index))
  else
    name ← cstr b (table + 20) (Z.to_nat kBufSize);
    match AcpiGetHandle (handle_ that) name with
    | None => Ret routes
    | Some source =>
        '(_, routes) ← AcpiWalkResources crs source (WalkResourcesCallback (mkCtx device_id pin source_index)) routes;
        Ret routes
    end.

(** kernel/native-object.cc:793-823, the loop of AcpiHandleObject::GetIrqRoutingTable. *)
Fixpoint prt_loop (fuel : nat) (b : ram) (that : t) (table : Z) (routes : list AcpiPciIrqRoute)
  : outcome (list AcpiPciIrqRoute) :=
  if load32 b table =? 0 then Ret routes
  else match fuel with
       | O => OutOfFuel
       | S n => routes ← prt_row b that table routes; prt_loop n b that (table + load32 b table) routes
       end.

(** The local buffer, cleared and then written by the interpreter. *)
Definition databuf (written : list Z) : ram := fun a =>
  if (0 <=? a) && (a <? kBufSize) then default 0 (written !! Z.to_nat a) else stack a.

(** kernel/native-object.cc:768-839, AcpiHandleObject::GetIrqRoutingTable: a failure is only
    printed. *)
Definition GetIrqRoutingTable (that : t) : outcome value :=
  _ ← rt_assert (negb (handle_ that =? 0)) "that->handle_";
  let '(s, Length, written) := AcpiGetIrqRoutingTable (handle_ that) in
  _ ← rt_assert (0 <? Length) "buf.Length > 0";
  routes ← prt_loop (Z.to_nat kBufSize) (databuf written) that 0 [];
  Ret (Routes routes).

(** kernel/native-object.cc:841-869, WalkResourcesBusLookupCallback. *)
Definition WalkResourcesBusLookupCallback (res : resource) (bus : Z) : outcome (Z * Z) :=
  match Data res with
  | ACPI_RESOURCE_TYPE_ADDRESS _ ResourceType Minimum =>
      if negb (ResourceType =? ACPI_BUS_NUMBER_RANGE) then Ret (AE_OK, bus)
      else if negb (bus =? -1) then Ret (AE_ALREADY_EXISTS, bus)
      else if 0xFFFF <? Minimum then Ret (AE_BAD_DATA, bus)
      else Ret (AE_OK, Minimum)
  | _ => Ret (AE_OK, bus)
  end.

(** kernel/native-object.cc:871-880, EvalObjectTyped, for an integer. *)
Definition EvalObjectTyped (handle : Z) (pathname : string) : outcome (Z * Z) :=
  _ ← rt_assert (String.length pathname =? 4)%nat "4 == strnlen(pathname, 5)";
  Ret (AcpiEvaluateInteger handle pathname).

(** kernel/native-object.cc:882-898, EvalInteger: the status, and the value when it
    is a success. *)
Definition EvalInteger (handle : Z) (name : string) : outcome (Z * option Z) :=
  '(as_, v) ← EvalObjectTyped handle name;
  Ret (as_, if ACPI_FAILURE as_ then None else Some v).

(** kernel/native-object.cc:900-907, WalkResources, of _CRS. *)
Definition WalkResources {C} (handle : Z) (pathname : string) (f : resource -> C -> outcome (Z * C)) (c : C)
  : outcome (Z * C) :=
  _ ← rt_assert (String.length pathname =? 4)%nat "4 == strnlen(pathname, 5)";
  AcpiWalkResources crs handle f c.

(** kernel/native-object.cc:909-929, AcpiHandleObject::GetRootBridgeBusNumber: [ret] is the
    return value, which a later Set replaces. *)
Definition GetRootBridgeBusNumber (that : t) : outcome value :=
  let ret := Undefined in
  '(as_, busnum) ← EvalInteger (handle_ that) "_BBN";
  let ret := match busnum with Some b => Number (Z.land b 0xFF) | None => ret end in
  let invalid_bus := -1 in
  '(s, bus) ← WalkResources (handle_ that) "_CRS" WalkResourcesBusLookupCallback invalid_bus;
  if ACPI_FAILURE s || (bus =? invalid_bus) then let ret := Null in Ret ret
  else let ret := Number (Uint32_New s) in Ret ret.

(** ** The interrupt routing table *)

(** A row of the table as the interpreter lays it out: the length is a multiple of 8 and
    the source is a path, empty when the interrupt is wired. *)
Record row : Type := mkRow { row_pin : Z; row_address : Z; row_index : Z; row_source : list Z }.

Definition row_length (e : row) : Z := 8 * ((zlen (row_source e) + 28) / 8).

Definition encode (e : row) : list Z :=
  le_bytes 4 (row_length e) ++ le_bytes 4 (row_pin e) ++ le_bytes 8 (row_address e) ++
  le_bytes 4 (row_index e) ++ (row_source e ++ [0]) ++ replicate (Z.to_nat (row_length e - 21 - zlen (row_source e))) 0.

Definition row_ok (e : row) : Prop :=
  in_range 32 (row_pin e) /\ in_range 64 (row_address e) /\ in_range 32 (row_index e) /\
  zlen (row_source e) < kBufSize /\ Forall (fun b => b <> 0) (row_source e).

(** The lists of interrupts in the current resources of the source of a row. *)
Definition interrupts_of (r : resource) : option (list Z) :=
  match Data r with
  | ACPI_RESOURCE_TYPE_IRQ (i :: ints) | ACPI_RESOURCE_TYPE_EXTENDED_IRQ (i :: ints) => Some (i :: ints)
  | _ => None
  end.

Definition link_interrupts (that : t) (e : row) : list (list Z) :=
  match AcpiGetHandle (handle_ that) (row_source e) with
  | Some source => if source =? 0 then [] else match crs source with Some rs => omap interrupts_of (visited rs) | None => [] end
  | None => []
  end.

(** The routes that a row describes: device, pin and interrupt, as bytes. *)
Definition route_to (e : row) (i : Z) : AcpiPciIrqRoute := mkRoute (u8 (row_address e / 2 ^ 16)) (u8 (row_pin e)) (u8 i).

Definition row_routes (that : t) (e : row) : list AcpiPciIrqRoute :=
  match row_source e with
  | [] => [route_to e (row_index e)]
  | _ => omap (fun ints => route_to e <$> ints !! Z.to_nat (u8 (row_index e))) (link_interrupts that e)
  end.

(** The source index of a row selects an interrupt of each list. *)
Definition index_ok (that : t) (e : row) : Prop :=
  row_source e <> [] -> Forall (fun ints => u8 (row_index e) < zlen ints) (link_interrupts that e).

Lemma row_length_ok e : row_ok e -> 21 + zlen (row_source e) <= row_length e < 2 ^ 32 /\ row_length e <= 28 + zlen (row_source e).
Proof.
  intros (_ & _ & _ & H & _). unfold row_length, kBufSize in *. pose proof (zlen_nonneg (row_source e)).
  pose proof (Z.div_mod (zlen (row_source e) + 28) 8 ltac:(lia)). pose proof (Z.mod_pos_bound (zlen (row_source e) + 28) 8 ltac:(lia)). lia.
Qed.

Lemma zlen_le_bytes n z : 0 <= n -> zlen (le_bytes n z) = n.
Proof. intros H. unfold zlen. rewrite length_le_bytes by done. lia. Qed.

Lemma zlen_encode e : row_ok e -> zlen (encode e) = row_length e.
Proof.
  intros O. pose proof (row_length_ok e O). unfold encode. rewrite !zlen_app, !zlen_le_bytes by lia.
  unfold zlen at 2 3. rewrite length_replicate. cbn [length]. lia.
Qed.

(** The fields of a row in the buffer. *)
Lemma row_fields b p e :
  row_ok e -> holds b p (encode e) ->
  load32 b p = row_length e /\ load32 b (p + 4) = row_pin e /\ load64 b (p + 8) = row_address e /\
  load32 b (p + 16) = row_index e /\ holds b (p + 20) (row_source e ++ [0]).
Proof.
  intros O H. pose proof (row_length_ok e O) as L. pose proof (zlen_nonneg (row_source e)). destruct O as (O1 & O2 & O3 & _). unfold encode in H.
  repeat (apply holds_app in H as [?H H]). rewrite !zlen_le_bytes in * by lia.
  rewrite <- !Z.add_assoc in *. unfold load32, load64.
  split_and!; try (apply holds_load; [assumption | assumption || (red; lia)]). assumption.
Qed.

Lemma callback_spec ct r routes :
  0 <= source_index ct ->
  (forall ints, interrupts_of r = Some ints -> source_index ct < zlen ints) ->
  WalkResourcesCallback ct r routes =
  Ret (AE_OK, routes ++ from_option (fun ints => from_option (fun i => [AcpiPciIrqRoute_new (device ct) (pin ct) i]) []
                                               (ints !! Z.to_nat (source_index ct))) [] (interrupts_of r)).
Proof.
  intros H0 H. unfold WalkResourcesCallback, interrupts_of, zlen in *.
  destruct (Data r) as [[| i ints] | [| i ints] | | |]; cbn [length Nat.eqb from_option]; rewrite ?app_nil_r; try done;
    (destruct (lookup_lt_is_Some_2 (i :: ints) (Z.to_nat (source_index ct))) as [x ->]; [specialize (H _ eq_refl); cbn [length] in *; lia | done]).
Qed.

Lemma fold_left_app_map {A B} (f : A -> list B) l : forall acc, fold_left (fun acc x => acc ++ f x) l acc = acc ++ concat (map f l).
Proof.
  induction l as [| x l IH]; intros acc; cbn [fold_left map concat]; [by rewrite app_nil_r |]. by rewrite IH, <- app_assoc.
Qed.

Lemma omap_concat {A B C} (f : A -> option B) (g : B -> option C) l :
  concat (map (fun x => from_option (fun y => from_option (fun z => [z]) [] (g y)) [] (f x)) l) = omap g (omap f l).
Proof.
  induction l as [| x l IH]; [done |]. cbn [map concat]. rewrite IH. cbn. destruct (f x) as [y |]; [| done]. cbn. by destruct (g y).
Qed.

(** The walk over the resources of a source. *)
Lemma walk_routes e rs routes ct :
  ct = mkCtx (u8 (row_address e / 2 ^ 16)) (u8 (row_pin e)) (u8 (row_index e)) ->
  Forall (fun ints => u8 (row_index e) < zlen ints) (omap interrupts_of (visited rs)) ->
  exists st, AcpiWalkResourceBuffer (WalkResourcesCallback ct) rs routes =
    Ret (st, routes ++ omap (fun ints => route_to e <$> ints !! Z.to_nat (u8 (row_index e))) (omap interrupts_of (visited rs))).
Proof.
  intros -> F. set (ct := mkCtx _ _ _).
  set (g := fun r => from_option (fun ints => from_option (fun i => [AcpiPciIrqRoute_new (device ct) (pin ct) i]) []
                                     (ints !! Z.to_nat (source_index ct))) [] (interrupts_of r)).
  destruct (walk_fold (WalkResourcesCallback ct) (fun acc r => acc ++ g r) rs) with (c := routes) as [st ->].
  - rewrite Forall_forall in F. apply Forall_forall. intros r Hr acc. apply callback_spec; [apply (wrap_range 8); lia |].
    intros ints Hi. apply F. apply list_elem_of_omap. by exists r.
  - exists st. do 2 f_equal. rewrite fold_left_app_map. f_equal. rewrite <- omap_concat. f_equal. apply map_ext. intros r.
    unfold g. destruct (interrupts_of r) as [ints |]; [| done]. cbn. destruct (ints !! _) as [i |]; [| done].
    cbn. unfold AcpiPciIrqRoute_new, route_to, u8. by rewrite !wrap_idemp.
Qed.

Lemma prt_row_spec b that p e routes :
  row_ok e -> index_ok that e -> holds b p (encode e) ->
  prt_row b that p routes = Ret (routes ++ row_routes that e).
Proof.
  intros O X H. destruct (row_fields b p e O H) as (_ & E1 & E2 & E3 & Hs). unfold prt_row.
  rewrite E1, E2, E3, Z.shiftr_div_pow2 by lia. destruct O as (_ & _ & _ & Ln & Nz).
  unfold row_routes, index_ok, link_interrupts in *. destruct (row_source e) as [| c cs] eqn:Es.
  - pose proof (Hs 0%nat 0 eq_refl) as E0. rewrite Z.add_0_r in E0. rewrite E0. cbn [Z.eqb]. unfold AddRoute, AcpiPciIrqRoute_new, route_to, u8.
    by rewrite !wrap_idemp.
  - pose proof (Hs 0%nat c eq_refl) as E0. rewrite Z.add_0_r in E0. rewrite E0.
    rewrite (proj2 (Z.eqb_neq c 0)) by (by apply Forall_cons in Nz as [? _]).
    rewrite (holds_cstr b (p + 20) (c :: cs)); [| done | done | unfold zlen, kBufSize in *; lia].
    cbn [mbind outcome_bind]. specialize (X ltac:(done)).
    destruct (AcpiGetHandle (handle_ that) (c :: cs)) as [source |]; [| by rewrite app_nil_r].
    unfold AcpiWalkResources. destruct (source =? 0); [cbn; by rewrite app_nil_r |].
    destruct (crs source) as [rs |]; [| cbn; by rewrite app_nil_r].
    destruct (walk_routes e rs routes _ eq_refl X) as [st ->]. done.
Qed.

Lemma prt_loop_spec b that es : forall fuel p routes,
  Forall row_ok es -> Forall (index_ok that) es -> (length es <= fuel)%nat ->
  holds b p (concat (map encode es) ++ le_bytes 4 0) ->
  prt_loop fuel b that p routes = Ret (routes ++ concat (map (row_routes that) es)).
Proof.
  induction es as [| e es IH]; intros fuel p routes O X L H; cbn [map concat app] in *.
  - assert (load32 b p = 0) as E by (apply holds_load; [done | red; lia]).
    destruct fuel; cbn [prt_loop]; rewrite E; cbn [Z.eqb]; by rewrite app_nil_r.
  - destruct fuel as [| fuel]; [cbn in L; lia |]. apply Forall_cons in O as [Oe O]. apply Forall_cons in X as [Xe X].
    rewrite <- app_assoc in H. apply holds_app in H as [He H]. rewrite zlen_encode in H by done.
    pose proof (row_length_ok e Oe) as Le. pose proof (zlen_nonneg (row_source e)).
    cbn [prt_loop]. destruct (row_fields b p e Oe He) as (E & _). rewrite E, (proj2 (Z.eqb_neq _ 0)) by lia.
    rewrite (prt_row_spec b that p e) by done. cbn [mbind outcome_bind].
    rewrite IH by (done || (cbn in L; lia)). by rewrite app_assoc.
Qed.

(** The buffer holds what was written, followed by zeroes. *)
Lemma databuf_holds written : zlen written + 4 <= kBufSize -> holds (databuf written) 0 (written ++ le_bytes 4 0).
Proof.
  intros L i b Hi. pose proof (lookup_lt_Some _ _ _ Hi) as Hl. rewrite length_app, length_le_bytes in Hl by lia.
  unfold databuf, zlen in *. rewrite Z.add_0_l, (proj2 (Z.leb_le _ _)), (proj2 (Z.ltb_lt _ _)) by lia. cbn [andb].
  rewrite Nat2Z.id. apply lookup_app_Some in Hi as [Hi | [Hg Hi]]; [by rewrite Hi |].
  rewrite lookup_ge_None_2 by lia. unfold le_bytes in Hi. apply Z_to_little_endian_lookup_Some in Hi as [_ ->]; [| lia..].
  by rewrite Z.shiftr_0_l.
Qed.

Lemma rows_fit es : Forall row_ok es -> Z.of_nat (length es) * 24 <= zlen (concat (map encode es)).
Proof.
  induction 1 as [| e es O F IH]; [done |]. cbn [map concat length]. rewrite zlen_app, zlen_encode by done.
  assert (24 <= row_length e); [| lia]. unfold row_length. pose proof (zlen_nonneg (row_source e)).
  assert (3 <= (zlen (row_source e) + 28) / 8) by (apply Z.div_le_lower_bound; lia). lia.
Qed.

(** C32. Interrupt routing: for every table of rows that fits the buffer of 8 KiB with its
    terminator, as the interpreter lays it out (rounded lengths, wired interrupts with
    an empty source, links with a path), the native returns exactly the routes of the
    table, in order: the wired interrupt, or for every list of interrupts in the current
    resources of the link, up to the end tag, the one that the source index selects.  A
    link that cannot be found or evaluated contributes nothing; a status of failure is
    ignored. *)
Theorem GetIrqRoutingTable_correct that es st len
  (Hh : handle_ that <> 0) (Hl : 0 < len)
  (E : AcpiGetIrqRoutingTable (handle_ that) = (st, len, concat (map encode es)))
  (O : Forall row_ok es) (X : Forall (index_ok that) es) (Fit : zlen (concat (map encode es)) + 4 <= kBufSize) :
  GetIrqRoutingTable that = Ret (Routes (concat (map (row_routes that) es))).
Proof.
  pose proof (rows_fit es O) as R.
  assert (length es <= Z.to_nat kBufSize)%nat as Hf
    by (apply Nat2Z.inj_le; rewrite Z2Nat.id; unfold kBufSize in *; lia).
  unfold GetIrqRoutingTable. revert Hf. generalize (Z.to_nat kBufSize) as fuel. intros fuel Hf.
  rewrite (proj2 (Z.eqb_neq _ 0)), E, (proj2 (Z.ltb_lt 0 len)) by done.
  cbn [negb rt_assert mbind outcome_bind].
  by rewrite (prt_loop_spec _ that es fuel 0 [] O X Hf (databuf_holds _ Fit)).
Qed.

(** ** The bus number of a root bridge *)

(** The bus number ranges among the resources that are walked over. *)
Definition bus_range (r : resource) : option Z :=
  match Data r with
  | ACPI_RESOURCE_TYPE_ADDRESS _ type min => if type =? ACPI_BUS_NUMBER_RANGE then Some min else None
  | _ => None
  end.
Definition bus_ranges (rs : list resource) : list Z := omap bus_range (visited rs).

(** Whether the walk ends well: not at a resource it refuses. *)
Fixpoint well_formed (rs : list resource) : bool :=
  match rs with
  | [] => true
  | r :: rs' => negb (bad_type r || (Length r =? 0)) && (is_end r || well_formed rs')
  end.

Definition single (l : list Z) : bool := match l with [min] => min <=? 0xFFFF | _ => false end.

Lemma bus_callback r bus :
  WalkResourcesBusLookupCallback r bus =
  match bus_range r with
  | None => Ret (AE_OK, bus)
  | Some min =>
      if negb (bus =? -1) then Ret (AE_ALREADY_EXISTS, bus)
      else if 0xFFFF <? min then Ret (AE_BAD_DATA, bus) else Ret (AE_OK, min)
  end.
Proof. unfold WalkResourcesBusLookupCallback, bus_range. destruct (Data r) as [| | bits type min | |]; try done. by destruct (type =? _). Qed.

Lemma bus_range_end r : bus_range r <> None -> is_end r = false.
Proof. unfold bus_range, is_end. by destruct (Data r). Qed.

(** One step of the walk: a refused resource, a resource that is no bus number range, or
    one that is. *)
Lemma bus_step r rs bus :
  let walk := AcpiWalkResourceBuffer WalkResourcesBusLookupCallback in
  walk (r :: rs) bus =
    (if bad_type r || (Length r =? 0) then Ret (if bad_type r then AE_AML_INVALID_RESOURCE_TYPE else AE_AML_BAD_RESOURCE_LENGTH, bus)
     else match bus_range r with
          | None => if is_end r then Ret (AE_OK, bus) else walk rs bus
          | Some min =>
              if negb (bus =? -1) then Ret (AE_ALREADY_EXISTS, bus)
              else if 0xFFFF <? min then Ret (AE_BAD_DATA, bus) else walk rs min
          end) /\
  well_formed (r :: rs) = negb (bad_type r || (Length r =? 0)) && (is_end r || well_formed rs) /\
  bus_ranges (r :: rs) =
    (if bad_type r || (Length r =? 0) then []
     else match bus_range r with
          | None => if is_end r then [] else bus_ranges rs
          | Some min => min :: bus_ranges rs
          end) /\
  (bus_range r <> None -> is_end r = false).
Proof.
  cbv zeta. cbn [AcpiWalkResourceBuffer well_formed]. rewrite bus_callback. unfold bus_ranges. cbn [visited].
  pose proof (bus_range_end r) as N. destruct (bad_type r); [done |]. destruct (Length r =? 0); [done |]. cbn [orb omap list_omap].
  destruct (bus_range r) as [min |]; [rewrite N by done; destruct (bus =? -1), (0xFFFF <? min) | destruct (is_end r)]; done.
Qed.

(** After a bus number was found, another one is an error. *)
Lemma bus_walk_found rs bus : 0 <= bus ->
  exists st, AcpiWalkResourceBuffer WalkResourcesBusLookupCallback rs bus = Ret (st, bus) /\
    (st =? AE_OK) = well_formed rs && (length (bus_ranges rs) =? 0)%nat.
Proof.
  intros Hb. induction rs as [| r rs IH]; [by exists AE_OK |].
  destruct (bus_step r rs bus) as (-> & -> & -> & N). destruct (bad_type r || (Length r =? 0)).
  { destruct (bad_type r); by eexists. }
  destruct (bus_range r) as [min |].
  - rewrite (proj2 (Z.eqb_neq bus (-1))) by lia. eexists. split; [done |]. by rewrite andb_false_r.
  - destruct (is_end r); [by exists AE_OK | exact IH].
Qed.

(** Before, the walk succeeds with a bus exactly when there is one. *)
Lemma bus_walk rs : Forall (fun z => 0 <= z) (bus_ranges rs) ->
  exists st bus, AcpiWalkResourceBuffer WalkResourcesBusLookupCallback rs (-1) = Ret (st, bus) /\
    ACPI_FAILURE st || (bus =? -1) = negb (well_formed rs && single (bus_ranges rs)).
Proof.
  induction rs as [| r rs IH]; [by exists AE_OK, (-1) |].
  destruct (bus_step r rs (-1)) as (-> & -> & -> & N). destruct (bad_type r || (Length r =? 0)).
  { destruct (bad_type r); by do 2 eexists. }
  destruct (bus_range r) as [min |].
  - intros [Hm F]%Forall_cons. rewrite N by done. cbn [Z.eqb Pos.eqb negb orb andb].
    destruct (Z.ltb_spec 0xFFFF min) as [Hx | Hx].
    + do 2 eexists. split; [done |]. destruct (bus_ranges rs); cbn [single]; [| by rewrite andb_false_r].
      rewrite (proj2 (Z.leb_gt _ _)) by done. by rewrite andb_false_r.
    + destruct (bus_walk_found rs min Hm) as (st & -> & Es). exists st, min. split; [done |].
      unfold ACPI_FAILURE. rewrite Es, (proj2 (Z.eqb_neq min (-1))), orb_false_r by lia.
      destruct (bus_ranges rs); cbn [single length Nat.eqb]; [| done]. by rewrite (proj2 (Z.leb_le _ _)).
  - destruct (is_end r); [by exists AE_OK, (-1) | exact IH].
Qed.

(** The bus number of a root bridge is lost: whatever _BBN evaluates to and whatever
    the resources say, the native returns 0 (the status of the walk) when the current resources hold
    exactly one bus number range and null otherwise; it never returns a bus number. *)
Theorem GetRootBridgeBusNumber_lost that
  (Hb : forall rs, crs (handle_ that) = Some rs -> Forall (fun z => 0 <= z) (bus_ranges rs)) :
  GetRootBridgeBusNumber that =
  Ret (if from_option (fun rs => negb (handle_ that =? 0) && well_formed rs && single (bus_ranges rs)) false (crs (handle_ that))
       then Number 0 else Null).
Proof.
  unfold GetRootBridgeBusNumber, EvalInteger, EvalObjectTyped, WalkResources, AcpiWalkResources.
  cbn [String.length Nat.eqb rt_assert mbind outcome_bind]. destruct (AcpiEvaluateInteger _ _) as [as_ v]. cbn [mbind outcome_bind].
  destruct (handle_ that =? 0); [destruct (crs _); done |]. destruct (crs (handle_ that)) as [rs |]; [| done].
  destruct (bus_walk rs (Hb rs eq_refl)) as (st & bus & -> & E). cbn [mbind outcome_bind from_option negb andb]. rewrite E.
  destruct (well_formed rs && single (bus_ranges rs)); cbn [negb]; [| done].
  apply orb_false_iff in E as [E _]. unfold ACPI_FAILURE in E. apply negb_false_iff, Z.eqb_eq in E as ->. done.
Qed.

(** The information of a device is asked for once: after a native that looked at it,
    the interpreter is no longer consulted, and the address is the low half of _ADR read as
    a signed number. *)
Lemma Address_cached that v that' :
  Address that = Ret (v, that') ->
  exists i, devinfo_ that' = Some i /\ handle_ that' = handle_ that /\
    v = Number (Uint32_New (Z.land (Address_ i) 0xffffffff)) /\ Address that' = Ret (v, that').
Proof.
  unfold Address, with_info, GetInfo. destruct (devinfo_ that) as [i |] eqn:E.
  - cbn. intros [= <- <-]. exists i. rewrite E. done.
  - destruct (AcpiGetObjectInfo (handle_ that)) as [i |]; [| done]. cbn. intros [= <- <-]. by exists i.
Qed.

(** The parent of an object that has none: the failure is not returned, and the null
    handle that the interpreter stored stops the machine. *)
Lemma Parent_of_root junk that s : AcpiGetParent (handle_ that) = (s, Some 0) -> Parent junk that = Fatal "handle".
Proof. intros E. unfold Parent. by rewrite E. Qed.

End Natives.

(** ** Examples *)

Definition rows0 : list row := [mkRow 0 0x1ffff 16 []; mkRow 1 0x2ffff 1 [92; 76; 78; 75; 65]].
Definition handles0 (h : Z) (name : list Z) : option Z := if decide (name = [92; 76; 78; 75; 65]) then Some 7 else None.
Definition crs0 (h : Z) : option (list resource) :=
  if h =? 7 then Some [mkRes 12 (ACPI_RESOURCE_TYPE_IRQ [10; 11]); mkRes 8 ACPI_RESOURCE_TYPE_END_TAG]
  else Some [mkRes 40 (ACPI_RESOURCE_TYPE_ADDRESS 16 2 3); mkRes 8 ACPI_RESOURCE_TYPE_END_TAG].
Definition table0 (h : Z) : Z * Z * list Z := (AE_OK, 64, concat (map encode rows0)).

Lemma GetIrqRoutingTable_correct_witness :
  GetIrqRoutingTable handles0 table0 crs0 (fun _ => 1) (mk 5 None) = Ret (Routes [mkRoute 1 0 16; mkRoute 2 1 11]).
Proof.
  rewrite (GetIrqRoutingTable_correct handles0 table0 crs0 (fun _ => 1) (mk 5 None) rows0 AE_OK 64);
    [vm_compute; reflexivity | done | lia | reflexivity | | | vm_compute; discriminate].
  - repeat constructor; vm_compute; try reflexivity; discriminate.
  - repeat constructor; intros; vm_compute; repeat constructor.
Defined.

Lemma GetRootBridgeBusNumber_lost_witness :
  GetRootBridgeBusNumber crs0 (fun _ _ => (AE_OK, 3)) (mk 5 None) = Ret (Number 0).
Proof.
  rewrite (GetRootBridgeBusNumber_lost crs0 (fun _ _ => (AE_OK, 3)) (mk 5 None)); [reflexivity |].
  intros rs [= <-]. vm_compute. repeat constructor. discriminate.
Defined.

End AcpiHandleObject.
