(* ===== verification/Startup.v ===== *)
(** * kernel/engines.h, thread-manager.h, .cc, kernel-main.cc: from the engines to the first script

    After the archive is loaded the kernel makes the engines, gives the first one a
    thread with a message that holds the source of the loader, and enters the engine.
    [ThreadEntryPoint] is the loop of every thread; threads give up the processor only in
    it, so a machine is the scheduler's world with the set of threads whose stacks have
    been entered, and [turn] is what happens between two switches, the tasks of V8 included.  The theorem follows
    the kernel from the archive to the JavaScript it runs first. *)

From S2P Require Import Prelude Utils Initrd Transport Engine Timeouts Pool Thread Sched.

Module Startup.
Import EngineThread Sched.
#[local] Existing Instance Engines.EngineType_eq_dec.

(** kernel/engines.cc:21-26, EntropySource, with the times the clock reports. *)
Definition EntropySource (times : list Z) (length : nat) : list Z :=
  map (fun t => Z.land t 0xFF) (take length times).

(** The name that the loader is compiled with: __loader. *)
Definition loader_name : list Z := [95; 95; 108; 111; 97; 100; 101; 114].

(** The objects of the threads that an engine made, by the order of their creation. *)
Definition engine_objects (e : Engines.Engine) : gmap Z EngineThread.t :=
  list_to_map (imap (fun k idle => (Z.of_nat k, EngineThread.new idle)) (Engines.threads_ e)).

Definition first_objects (s : Engines.t) : gmap Z EngineThread.t :=
  match Engines.engines_execution s with e :: _ => engine_objects e | [] => ∅ end.

(** Changes the first engine that runs threads; [engines_] and [engines_execution_] share
    the engines. *)
Fixpoint at_first {A} (f : Engines.Engine -> A * Engines.Engine) (l : list Engines.Engine)
  : option (A * list Engines.Engine) :=
  match l with
  | [] => None
  | e :: l' =>
      if decide (Engines.type_ e = Engines.EXECUTION) then let '(a, e') := f e in Some (a, e' :: l')
      else match at_first f l' with Some (a, l'') => Some (a, e :: l'') | None => None end
  end.

Definition set_engines (s : Engines.t) (l : list Engines.Engine) : Engines.t :=
  Engines.mk (Engines.cpu_count_ s) l (Engines.buffers_size_ s) (Engines.buffers_count_ s)
    (Engines.non_isolate_ticks_ s) (Engines.global_ticks_counter_ s).

(** kernel/engines.h:110-115, the message of Engines::Startup. *)
Definition startup_message (code : list Z) : ThreadMessage :=
  new_message EVALUATE None
    (TransportData.data_ (TransportData.SetEvalData (TransportData.mkSt ∅ [] []) code loader_name)) 0 0.

(** kernel/engines.h:97-118, Engines::Startup; [objs] are the engine threads of the first
    engine. *)
Definition Startup (m : ram) (files : Initrd.t) (s : Engines.t) (objs : gmap Z EngineThread.t)
  : outcome (Engines.t * gmap Z EngineThread.t) :=
  match at_first (fun e => Engines.Create e false) (Engines.engines_ s) with
  | None => Fatal "engines_execution_.size() > 0"
  | Some (st, l) =>
      let objs := <[Z.of_nat st := EngineThread.new false]> objs in
      filename ← cptr_string m (Initrd.runtime_index_name_ files);
      startup_file ← Initrd.Get m files filename;
      if Initrd._is_empty startup_file then Fatal "aborted"
      else
        _ ← rt_assert (negb (Initrd.is_null (Initrd._data startup_file))) "buf";
        let code := Initrd.bytes_at_cptr m (Initrd._data startup_file) (Initrd._size startup_file) in
        Ret (set_engines s l, alter (fun e => PushMessage e (startup_message code)) (Z.of_nat st) objs)
  end.

(** The engines of the kernel: one engine, with an idle thread. *)
Definition one_engine : Engines.t := Engines.mk 1 [Engines.new_engine 0] 0 0 0 1.

Lemma one_engine_new : Engines.new 1 = Ret one_engine.
Proof. done. Qed.

Lemma Startup_missing m files xs rt : Forall2 (Initrd.file_rep m) (Initrd.files_ files) xs ->
  cptr_string m (Initrd.runtime_index_name_ files) = Ret rt -> (forall x, x ∈ xs -> x.1 <> rt) ->
  Startup m files one_engine (first_objects one_engine) = Fatal "aborted".
Proof.
  intros F Hrt Hno. unfold Startup. cbn [at_first one_engine Engines.engines_]. rewrite decide_True by done.
  cbn [Engines.Create]. rewrite Hrt. cbn [mbind outcome_bind].
  destruct (Initrd.Get_correct m files xs rt F) as [(i & x & f & E1 & E2 & _) | [_ ->]]; [| done].
  exfalso. apply (Hno x); [| done]. by eapply list_elem_of_lookup_2.
Qed.

Lemma Startup_found m files xs rt code i : Forall2 (Initrd.file_rep m) (Initrd.files_ files) xs ->
  cptr_string m (Initrd.runtime_index_name_ files) = Ret rt ->
  xs !! i = Some (rt, code) -> (forall j y, (j < i)%nat -> xs !! j = Some y -> y.1 <> rt) ->
  Startup m files one_engine (first_objects one_engine) =
  Ret (set_engines one_engine [(Engines.Create (Engines.new_engine 0) false).2],
       {[ 0 := EngineThread.new true; 1 := PushMessage (EngineThread.new false) (startup_message code) ]}).
Proof.
  intros F Hrt Hi Hmin. unfold Startup. cbn [at_first one_engine Engines.engines_]. rewrite decide_True by done.
  cbn [Engines.Create]. rewrite Hrt. cbn [mbind outcome_bind].
  destruct (Initrd.Get_correct m files xs rt F) as [(k & x & f & E1 & E2 & E3 & -> & Hk) | [Hno _]].
  2: { exfalso. apply (Hno (rt, code)); [| done]. by eapply list_elem_of_lookup_2. }
  assert (k = i) as ->.
  { destruct (lt_eq_lt_dec k i) as [[L | ->] | L]; [| done |]; exfalso.
    - by apply (Hmin k x L E1). - by apply (Hk i _ L Hi). }
  rewrite Hi in E1. injection E1 as <-. destruct (Forall2_lookup_lr _ _ _ _ _ _ F E3 Hi) as (_ & _ & He & Hs & q & Hq & Hd & Hh).
  cbn [mbind outcome_bind]. rewrite He, Hs, Hd. cbn [Initrd.is_null snd]. rewrite (proj2 (Z.eqb_neq q 0)) by lia.
  cbn [negb rt_assert mbind outcome_bind Initrd.bytes_at_cptr]. unfold zlen. rewrite Nat2Z.id, Initrd.holds_bytes_at by done.
  done.
Qed.

(** ** The threads of an engine *)

Section Turns.
Context {Q QT : Type} `{PriorityQueue (Z * Z) Q} `{PriorityQueue Z QT}.
Variable new_thread : world (Q := Q) (QT := QT) -> Z.
Variable alloc_stack : world (Q := Q) (QT := QT) -> Z * Z.
Variable clock : nat -> Z.
Variable is_function : Z -> bool.
Variable js : js_call -> world (Q := Q) (QT := QT) -> list action.
Variable utf8_value : TransportData.jsval -> list Z.
Variable efn_at : Z -> Z * Z.
Variable task_Run : Z -> world (Q := Q) (QT := QT) -> outcome (world (Q := Q) (QT := QT)).
Variable tasks_fuel : nat.

#[local] Notation Run := (Sched.Run clock is_function js utf8_value efn_at).
#[local] Notation Preempt := (Sched.Preempt new_thread alloc_stack clock task_Run tasks_fuel).

(** kernel/thread-manager.h:108-123, ThreadManager::Run, up to the entry of the first
    thread. *)
Definition enter_first (w : world) : outcome world :=
  w ← ProcessNewThreads new_thread alloc_stack w;
  match threads_ w !! 0%nat with
  | None => Fatal "has_threads()"
  | Some d => Ret (set_threads w (new_threads_ w) (Some (thread d)) 0 (threads_ w))
  end.

(** kernel/engines.h:144-151, Engines::CpuEnter, with Engine::Enter (engine.cc:40-71); the
    objects of the engine's threads and the interrupt bindings are [i]. *)
Definition CpuEnter (s : Engines.t) (cpu_id : Z) (i : IrqDispatcher.t) : outcome (Engines.t * world) :=
  _ ← rt_assert (cpu_id <? Engines.cpu_count_ s) "cpu_id < cpu_count_";
  match Engines.engines_ s !! Z.to_nat cpu_id with
  | None => Fatal "cpu_id < engines_.size()"
  | Some e =>
      e ← Engines.Enter e;
      let '(l, e) := Engines.TakeNewThreads e in
      w ← enter_first (set_threads (Sched.new (Q := Q) (QT := QT) i) (map Z.of_nat l) None 0 []);
      Ret (set_engines s (<[Z.to_nat cpu_id := e]> (Engines.engines_ s)), w)
  end.

(** kernel/thread-manager.cc:28-39, the rest of ThreadEntryPoint when the [Run] of thread
    [t] has returned. *)
Definition after_run (started : gset Z) (t : Z) (go_on : bool) (w : world) : outcome (gset Z * world) :=
  if go_on then '(_, w) ← Preempt w; Ret ({[t]} ∪ started, w)
  else
    x ← get_thread w t; x ← Thread.TearDown x;
    '(next, w) ← Preempt (put_thread w t x);
    match next with
    | None => Fatal "HangSystem"
    | Some _ => Ret ({[t]} ∪ started, w)
    end.

(** kernel/thread-manager.cc:22-40, ThreadEntryPoint: what the current thread does until
    [Preempt] gives the processor to the next one.  A thread that is entered for the first
    time sets itself up; one that was switched away from comes back at the end of [Preempt].
    [started] are the threads that were entered. *)
Definition turn (st : gset Z * world) : outcome (gset Z * world) :=
  let '(started, w) := st in
  match current_thread_ w with
  | None => Fatal "t"
  | Some t =>
      w ← (if decide (t ∈ started) then Ret w
           else x ← get_thread w t; x ← Thread.SetUp x; Ret (put_thread w t x));
      '(go_on, w) ← Run w t;
      after_run started t go_on w
  end.

(** ** The first script *)

(** A new thread object has a new address; its stack can be used. *)
Hypothesis fresh : forall w, objects w !! new_thread w = None.
Hypothesis stack_ok : forall w, let '(top, len) := alloc_stack w in
  top <> 0 /\ len <> 0 /\ (2 | top) /\ (2 | len) /\ u64 (top + len - 264) <> 0.

Lemma ThreadInit_ok ty et w : ThreadInit (Thread.new ty et (alloc_stack w)) = Ret tt.
Proof.
  unfold ThreadInit, Thread.GetStackBottom. cbn [Thread.stack_ Thread.new]. pose proof (stack_ok w) as Ok.
  destruct (alloc_stack w) as [top len]. destruct Ok as (H1 & H2 & H3%Z.mod_divide & H4%Z.mod_divide & H5); try done.
  rewrite H3, H4, (proj2 (Z.eqb_neq top 0)), (proj2 (Z.eqb_neq len 0)) by done. cbn [negb rt_assert mbind outcome_bind Z.mul Z.eqb].
  replace (top + len - 256 - 8) with (top + len - 264) by lia.
  rewrite (proj2 (Z.eqb_neq (u64 (top + len - 264)) 0) H5), Z.mul_0_l. cbn -[u64].
  by rewrite (proj2 (Z.eqb_neq (u64 (top + len - 264)) 0) H5).
Qed.

(** The engine thread of a thread that was created. *)
Definition attached (e : EngineThread.t) (th : Z) : EngineThread.t :=
  EngineThread.mk (status_ e) (Some th) (messages_ e) (is_idle e).

Lemma CreateThread_ok w et e : ethreads w !! et = Some e ->
  CreateThread new_thread alloc_stack w et =
  Ret (set_ethreads
    (set_threads (put_thread w (new_thread w)
        (Thread.new (if is_idle e then Thread.IDLE else Thread.DEFAULT) et (alloc_stack w)))
      (new_threads_ w) (current_thread_ w) (current_thread_index_ w) (threads_ w ++ [ThreadData_new (new_thread w)]))
    (<[et := attached e (new_thread w)]> (ethreads w))).
Proof. intros E. unfold CreateThread. rewrite E, ThreadInit_ok. done. Qed.

(** The world after the entry of an engine with an idle thread and one thread with a
    message. *)
Record entered (w : world (Q := Q) (QT := QT)) (t0 t1 : Z) (m : ThreadMessage) : Prop := mkEntered {
  en_ne : t0 <> t1;
  en_objects : exists k0 k1, objects w = {[ t0 := Thread.new Thread.IDLE 0 k0; t1 := Thread.new Thread.DEFAULT 1 k1 ]};
  en_threads : threads_ w = [ThreadData_new t0; ThreadData_new t1];
  en_current : current_thread_ w = Some t0 /\ current_thread_index_ w = 0;
  en_new : new_threads_ w = [];
  en_ethread : ethreads w !! 1 = Some (attached (PushMessage (EngineThread.new false) m) t1);
  en_timeouts : timeouts_ w = pq_empty;
  en_tasks : v8_platform w = V8Platform.new }.

Lemma enter_first_ok objs m :
  objs = {[ 0 := EngineThread.new true; 1 := PushMessage (EngineThread.new false) m ]} ->
  exists w t0 t1, enter_first (set_threads (Sched.new (Q := Q) (QT := QT) (IrqDispatcher.new objs)) [0; 1] None 0 []) = Ret w /\
    entered w t0 t1 m.
Proof.
  intros ->. unfold enter_first, ProcessNewThreads. cbn [new_threads_ set_threads create_all].
  rewrite (CreateThread_ok _ 0 (EngineThread.new true)) by done. cbn [mbind outcome_bind].
  match goal with |- context [new_thread ?w] => set (t0 := new_thread w) end.
  match goal with |- context [CreateThread _ _ ?w 1] => set (w1 := w) end.
  rewrite (CreateThread_ok w1 1 (PushMessage (EngineThread.new false) m)) by done. cbn [mbind outcome_bind].
  assert (t0 <> new_thread w1) as Ne.
  { intros E. pose proof (fresh w1) as Fr. rewrite <- E in Fr. cbn in Fr. by rewrite lookup_insert_eq in Fr. }
  eexists _, t0, (new_thread w1). split; [done |]. split; try done. eexists _, _. cbn. by rewrite insert_insert_ne.
Qed.

(** No timer is due when none is set. *)
Lemma ProcessTimeouts_none (w : world (Q := Q) (QT := QT)) : timeouts_ w = pq_empty ->
  exists w', ProcessTimeouts clock w = Ret w' /\ objects w' = objects w /\ ethreads w' = ethreads w /\
    current_thread_ w' = current_thread_ w /\ v8_platform w' = v8_platform w.
Proof.
  intros E. unfold ProcessTimeouts, BootTimeMicroseconds. cbn [timeouts_ set_counters]. rewrite E.
  assert (Timeouts.Elapsed (A := Z * Z) pq_empty (clock (reads w)) = false) as El.
  { unfold Timeouts.Elapsed. by rewrite (proj2 (pq_top_None _) pq_empty_elems). }
  unfold Timeouts.pq_size. rewrite pq_empty_elems. cbn [length Timeouts.drain]. rewrite El. cbn [mbind outcome_bind].
  eexists. split; [done |]. done.
Qed.

(** The scheduler with two threads of the same priority. *)
Lemma Switch_two (w : world (Q := Q) (QT := QT)) t0 t1 x0 x1 : t0 <> t1 ->
  objects w !! t0 = Some x0 -> objects w !! t1 = Some x1 ->
  threads_ w = [ThreadData_new t0; ThreadData_new t1] -> current_thread_index_ w = 0 ->
  Thread.type_ x0 <> Thread.TERMINATED -> Thread.type_ x1 <> Thread.TERMINATED ->
  Thread.priority_ x0 = 1 -> Thread.priority_ x1 = 1 ->
  SwitchToNextThread w =
  Ret (t1, put_thread (set_threads w (new_threads_ w) (Some t1) 1 (threads_ w)) t1 (Thread.ResetPriority x1)).
Proof.
  intros Hne E0 E1 Et Ei T0 T1 P0 P1. unfold SwitchToNextThread. rewrite Et.
  assert (gone w t0 = false /\ gone w t1 = false) as [G0 G1].
  { unfold gone, info. rewrite E0, E1. cbn [fst].
    by rewrite !(bool_decide_eq_false_2 (_ = Thread.TERMINATED)) by done. }
  cbn [length sweep lookup list_lookup thread ThreadData_new]. rewrite G0. cbn. rewrite G1. cbn.
  unfold info. rewrite E0, E1, P0, P1. cbn. rewrite !decide_False by done. rewrite Ei. cbn.
  match goal with |- context [Z.to_nat ?i] => change i with 1 end.
  change (Z.to_nat 1) with 1%nat. cbn. unfold get_thread. by rewrite E1.
Qed.

(** No task of V8 waits before there is an isolate; the clock is read. *)
Lemma run_tasks_none (w : world (Q := Q) (QT := QT)) : v8_platform w = V8Platform.new ->
  run_tasks clock task_Run tasks_fuel w = Ret (BootTimeMicroseconds clock w).2.
Proof.
  intros E. unfold run_tasks.
  destruct (V8Platform.run_nothing v8_platform set_platform task_Run (BootTimeMicroseconds clock) tasks_fuel w E E)
    as [-> E']. exact E'.
Qed.

(** The idle thread, which is entered first, gives the processor to the other thread. *)
Lemma idle_turn w t0 t1 m : entered w t0 t1 m ->
  exists w', turn (∅, w) = Ret ({[t0]} ∪ ∅, w') /\ current_thread_ w' = Some t1 /\ t1 <> t0 /\
    (exists k, objects w' !! t1 = Some (Thread.new Thread.DEFAULT 1 k)) /\
    ethreads w' !! 1 = Some (attached (PushMessage (EngineThread.new false) m) t1).
Proof.
  intros [Ne (k0 & k1 & Eo) Et [Ec Ei] En Ee Eq Ep]. unfold turn. rewrite Ec, decide_False by set_solver.
  assert (objects w !! t0 = Some (Thread.new Thread.IDLE 0 k0)) as E0 by (rewrite Eo; apply lookup_insert_eq).
  assert (objects w !! t1 = Some (Thread.new Thread.DEFAULT 1 k1)) as E1
    by (rewrite Eo, lookup_insert_ne by done; apply lookup_insert_eq).
  unfold get_thread at 1. rewrite E0. cbn [mbind outcome_bind]. unfold Thread.SetUp. rewrite decide_True by done.
  cbn [mbind outcome_bind].
  assert (put_thread w t0 (Thread.new Thread.IDLE 0 k0) = w) as ->.
  { unfold put_thread. rewrite insert_id by done. by destruct w. }
  unfold Sched.Run, get_thread. rewrite E0. cbn [mbind outcome_bind]. rewrite bool_decide_eq_true_2, decide_True by done.
  cbn [rt_assert mbind outcome_bind]. unfold after_run, Sched.Preempt.
  rewrite (Switch_two (SetEvCheckpoint w) t0 t1 (Thread.new Thread.IDLE 0 k0) (Thread.new Thread.DEFAULT 1 k1)) by done.
  cbn [mbind outcome_bind]. match goal with |- context [ProcessNewThreads _ _ ?w] => set (w1 := w) end.
  unfold ProcessNewThreads. cbn [new_threads_ w1 put_thread set_objects set_threads SetEvCheckpoint set_counters]. rewrite En.
  cbn [create_all mbind outcome_bind]. match goal with |- context [ProcessTimeouts _ ?w] => set (w2 := w) end.
  destruct (ProcessTimeouts_none w2 Eq) as (w3 & -> & Eo3 & Ee3 & Ec3 & Ep3). cbn [mbind outcome_bind].
  assert (objects w2 = objects w) as Eo2 by (cbn; by apply insert_id).
  rewrite run_tasks_none by (by rewrite Ep3). cbn [mbind outcome_bind]. eexists. split; [done |].
  change (ethreads (BootTimeMicroseconds clock w3).2) with (ethreads w3). cbn [BootTimeMicroseconds snd set_counters objects current_thread_].
  rewrite Ec3, Ee3, Eo3, Eo2. split_and!; try done. by exists k1.
Qed.

Lemma take_startup m t :
  TakeMessages (attached (PushMessage (EngineThread.new false) m) t) =
  ([Some m], EngineThread.mk S_EMPTY (Some t) (Vector.reserve Vector.empty 128) false).
Proof. done. Qed.

(** The message of the loader is read back and run. *)
Lemma on_evaluate_loader t (w : world) x code : Z.of_nat (length code) < 2 ^ 32 - 1 ->
  objects w !! t = Some x -> Thread.filename_ x = [] ->
  on_evaluate clock is_function js utf8_value t w (startup_message code) =
  run_js clock is_function js t (RunScript (TransportData.JUtf8 code) (TransportData.JUtf8 loader_name))
    (put_thread w t (Thread.set_stats x (Thread.terminate_ x) (Thread.runtime_ x) (Thread.ev_count_ x)
      (c_string (utf8_value (TransportData.JUtf8 loader_name))))).
Proof.
  intros Hl Ex Ef. unfold on_evaluate, get_thread. rewrite Ex. cbn [mbind outcome_bind]. unfold unpack.
  pose proof (TransportData.SetEvalData_roundtrip (TransportData.mkSt ∅ [] []) code loader_name Hl ltac:(done)) as R.
  cbn [data_ startup_message new_message].
  assert (forall s, TransportData.Unpack (TransportData.mkSt ∅ (TransportData.data_ s) []) = TransportData.Unpack s) as -> by done.
  rewrite R. cbn [mbind outcome_bind]. cbn. by rewrite Ef.
Qed.

(** A thread with the message of the loader, entered for the first time. *)
Lemma script_turn started w t k code : Z.of_nat (length code) < 2 ^ 32 - 1 ->
  current_thread_ w = Some t -> t ∉ started -> objects w !! t = Some (Thread.new Thread.DEFAULT 1 k) ->
  ethreads w !! 1 = Some (attached (PushMessage (EngineThread.new false) (startup_message code)) t) ->
  exists w' x, objects w' !! t = Some x /\ Thread.filename_ x = c_string (utf8_value (TransportData.JUtf8 loader_name)) /\
    Thread.type_ x = Thread.DEFAULT /\ Thread.iv8_ x = true /\ Thread.context_ x = true /\
    Thread.terminate_ x = false /\ Thread.ref_count_ x = 0 /\
    turn (started, w) =
      (w' ← run_js clock is_function js t (RunScript (TransportData.JUtf8 code) (TransportData.JUtf8 loader_name)) w';
       '(go_on, w') ← run_end clock t w' (clock (reads w)) 1;
       after_run started t go_on w').
Proof.
  intros Hl Ec Hs Eo Ee. unfold turn. rewrite Ec, decide_False by done. unfold get_thread at 1. rewrite Eo.
  cbn [mbind outcome_bind]. unfold Thread.SetUp. rewrite decide_False by done. cbn [Thread.iv8_ Thread.new negb rt_assert mbind outcome_bind].
  unfold Sched.Run, get_thread. cbn [objects put_thread set_objects]. rewrite lookup_insert_eq. cbn [mbind outcome_bind].
  rewrite bool_decide_eq_true_2, decide_False by done. cbn [rt_assert mbind outcome_bind Thread.iv8_ Thread.set_type BootTimeMicroseconds].
  change (ethreads (set_counters _ _ _ _ _)) with (ethreads w). cbn [Thread.ethread_ Thread.new Thread.set_type].
  rewrite Ee, take_startup. cbn [handle_all mbind outcome_bind].
  match goal with |- context [handle ?a ?b ?c ?d ?e t ?w1 ?m] =>
    change (handle a b c d e t w1 m) with (on_evaluate a b c d t w1 m) end.
  erewrite on_evaluate_loader; [| exact Hl | apply lookup_insert_eq | done].
  match goal with |- context [run_js _ _ _ _ _ (put_thread ?a t ?x)] => exists (put_thread a t x), x end.
  split; [apply lookup_insert_eq |]. split_and!; try done.
  match goal with |- _ = (run_js _ _ _ _ _ ?w ≫= _) => by destruct (run_js clock is_function js t _ w) end.
Qed.

(** ** What a script does not change *)

(** The threads stay, with their types, isolates and termination flags. *)
Definition same_kind (x y : Thread.t) : Prop :=
  Thread.type_ y = Thread.type_ x /\ Thread.iv8_ y = Thread.iv8_ x /\ Thread.terminate_ y = Thread.terminate_ x.
Definition keeps (w w' : world (Q := Q) (QT := QT)) : Prop :=
  forall t x, objects w !! t = Some x -> exists y, objects w' !! t = Some y /\ same_kind x y.

Lemma keeps_refl w w' : objects w' = objects w -> keeps w w'.
Proof. intros E t x Ex. exists x. by rewrite E. Qed.

Lemma keeps_trans w1 w2 w3 : keeps w1 w2 -> keeps w2 w3 -> keeps w1 w3.
Proof.
  intros K1 K2 t x Ex. destruct (K1 t x Ex) as (y & Ey & S1 & S2 & S3). destruct (K2 t y Ey) as (z & Ez & R1 & R2 & R3).
  exists z. split; [done |]. unfold same_kind. by rewrite R1, R2, R3.
Qed.

Lemma keeps_put w w' t x y :
  objects w !! t = Some x -> same_kind x y -> objects w' = <[t := y]> (objects w) -> keeps w w'.
Proof.
  intros Ex S E t' x' Ex'. rewrite E. destruct (decide (t' = t)) as [-> | Hne].
  - rewrite lookup_insert_eq. rewrite Ex in Ex'. injection Ex' as <-. by exists y.
  - rewrite lookup_insert_ne by done. by exists x'.
Qed.

Lemma act_keeps t w a w' : act clock is_function t w a = Ret w' -> keeps w w'.
Proof.
  unfold act. destruct a as [cb delay auto | id | cb | n cb | n | | task | task delay].
  1, 3, 4: destruct (is_function cb) eqn:Ef; [| intros [= <-]; by apply keeps_refl].
  1-4: unfold SetTimer, SetImmediate, IrqOn, ClearTimer, get_thread; destruct (objects w !! t) as [x |] eqn:Ex; [| done];
    cbn [mbind outcome_bind].
  - rewrite Ef. cbn [rt_assert mbind outcome_bind]. unfold Thread.AddTimeoutData. cbn. destruct (IndexedPool.Push _ _).
    cbn. intros [= <-]. eapply (keeps_put w _ t x); [done | | done]. done.
  - unfold Thread.PutObject. cbn. destruct (IndexedPool.Push _ _). cbn. intros [= <-].
    eapply (keeps_put w _ t x); [done | | unfold send; cbn; rewrite lookup_insert_eq; done]. done.
  - unfold Thread.PutObject. cbn. destruct (IndexedPool.Push _ _). cbn.
    destruct (IrqDispatcher.Bind _ _ _ _) as [d | |]; cbn; try done. intros [= <-].
    eapply (keeps_put w _ t x); [done | | done]. done.
  - unfold Thread.FlagTimeoutCleared. destruct (Thread.timeout_data_ x !! _) as [[d |] |]; cbn; intros [= <-];
      (eapply (keeps_put w _ t x); [done | | done]); done.
  - destruct (IrqDispatcher.Raise _ _ _) as [d | |]; cbn; try done. intros [= <-]. by apply keeps_refl.
  - intros [= <-]. by apply keeps_refl.
  - unfold V8Platform.CallOnForegroundThread. destruct (negb (task =? 0)); cbn; [| done]. intros [= <-]. by apply keeps_refl.
  - unfold V8Platform.CallDelayedOnForegroundThread. cbn. destruct (negb (task =? 0)); cbn; [| done].
    intros [= <-]. by apply keeps_refl.
Qed.

Lemma run_js_keeps t c w w' : run_js clock is_function js t c w = Ret w' -> keeps w w'.
Proof.
  unfold run_js. generalize (js c w) as l. intros l. revert w. induction l as [| a l IH]; intros w; cbn [act_all].
  { intros [= <-]. by apply keeps_refl. }
  destruct (act clock is_function t w a) as [w1 | |] eqn:E; cbn [mbind outcome_bind]; try done.
  intros E'. eapply keeps_trans; [by eapply act_keeps | by apply IH].
Qed.

(** A thread without references ends, and the kernel with it; another one goes on. *)
Lemma script_ends y started t w now : objects w !! t = Some y -> Thread.type_ y = Thread.DEFAULT ->
  Thread.iv8_ y = true -> Thread.terminate_ y = false ->
  (Thread.ref_count_ y = 0 ->
   ('(go_on, w) ← run_end clock t w now 1; after_run started t go_on w) = Fatal "main isolate exited") /\
  (Thread.ref_count_ y <> 0 -> exists w', run_end clock t w now 1 = Ret (true, w')).
Proof.
  intros Ex Ety Ei Et. unfold run_end, get_thread. cbn -[Thread.set_stats]. rewrite Ex. cbn -[Thread.set_stats after_run].
  rewrite Et. split; intros Er.
  - rewrite Er. cbn [Z.eqb orb negb]. unfold after_run, get_thread. cbn [objects put_thread set_objects].
    rewrite lookup_insert_eq. cbn [mbind outcome_bind]. unfold Thread.TearDown. cbn [Thread.type_ Thread.set_stats Thread.iv8_].
    rewrite Ety, Ei. done.
  - rewrite (proj2 (Z.eqb_neq _ 0)) by done. by eexists.
Qed.

(** C2. The kernel gets to its first script: with an archive whose index names a file, the
    engine is set up and entered with an idle thread current, which is entered first, runs
    no JavaScript and gives up the processor to the thread made for the loader.  That thread
    then sets up its isolate and runs exactly the source of that file under the name
    __loader.  When the script leaves the thread without references, whatever it did, the
    kernel stops; when it leaves some, the loop of the threads goes on.  Without such a
    file the kernel stops before it enters the engine.  The stacks of new threads are
    assumed to be usable (non-empty, at even addresses), and their objects to have new
    addresses. *)
Theorem startup_runs_loader m files xs rt
  (F : Forall2 (Initrd.file_rep m) (Initrd.files_ files) xs)
  (Hrt : cptr_string m (Initrd.runtime_index_name_ files) = Ret rt) :
  Engines.new 1 = Ret one_engine /\
  ((forall x, x ∈ xs -> x.1 <> rt) -> Startup m files one_engine (first_objects one_engine) = Fatal "aborted") /\
  (forall i code, xs !! i = Some (rt, code) -> (forall j y, (j < i)%nat -> xs !! j = Some y -> y.1 <> rt) ->
    zlen code < 2 ^ 32 - 1 ->
    let loader := RunScript (TransportData.JUtf8 code) (TransportData.JUtf8 loader_name) in
    exists s1 objs s2 w0 t0 x0 w1 t w2 x,
      Startup m files one_engine (first_objects one_engine) = Ret (s1, objs) /\
      CpuEnter s1 0 (IrqDispatcher.new objs) = Ret (s2, w0) /\
      current_thread_ w0 = Some t0 /\ objects w0 !! t0 = Some x0 /\ Thread.type_ x0 = Thread.IDLE /\
      Run w0 t0 = Ret (true, SetEvCheckpoint w0) /\
      turn (∅, w0) = Ret ({[t0]} ∪ ∅, w1) /\ current_thread_ w1 = Some t /\ t <> t0 /\
      objects w2 !! t = Some x /\ Thread.filename_ x = c_string (utf8_value (TransportData.JUtf8 loader_name)) /\
      Thread.iv8_ x = true /\ Thread.context_ x = true /\ Thread.ref_count_ x = 0 /\
      turn ({[t0]} ∪ ∅, w1) =
        (w ← run_js clock is_function js t loader w2;
         '(go_on, w) ← run_end clock t w (clock (reads w1)) 1;
         after_run ({[t0]} ∪ ∅) t go_on w) /\
      forall w3, run_js clock is_function js t loader w2 = Ret w3 ->
        exists y, objects w3 !! t = Some y /\
          (Thread.ref_count_ y = 0 -> turn ({[t0]} ∪ ∅, w1) = Fatal "main isolate exited") /\
          (Thread.ref_count_ y <> 0 -> exists w4,
             turn ({[t0]} ∪ ∅, w1) = ('(_, w) ← Preempt w4; Ret ({[t]} ∪ ({[t0]} ∪ ∅), w)))).
Proof.
  split; [exact one_engine_new |]. split; [by apply Startup_missing |]. intros i code Hi Hmin Hl loader.
  pose proof (Startup_found m files xs rt code i F Hrt Hi Hmin) as ES.
  destruct (enter_first_ok _ (startup_message code) eq_refl) as (w0 & t0 & t1 & Een & En).
  destruct (idle_turn _ _ _ _ En) as (w1 & E1 & Ec & Ne & (k & Eo) & Ee).
  destruct (script_turn ({[t0]} ∪ ∅) w1 t1 k code Hl Ec ltac:(set_solver) Eo Ee) as (w2 & x & Ex & Ef & Ety & Ei & Ect & Etm & Er & ET).
  destruct En as [_ (k0 & k1 & Eo0) _ [Ec0 _] _ _ _ _].
  assert (objects w0 !! t0 = Some (Thread.new Thread.IDLE 0 k0)) as E0 by (rewrite Eo0; apply lookup_insert_eq).
  eexists _, _, _, w0, t0, _, w1, t1, w2, x. split; [exact ES |]. split.
  { change (CpuEnter ?s 0 ?i) with (w ← enter_first (set_threads (Sched.new (Q := Q) (QT := QT) i) [0; 1] None 0 []);
      Ret (set_engines s (<[0%nat := Engines.mkEngine Engines.EXECUTION true true [true; false] []]> (Engines.engines_ s)), w)).
    rewrite Een. done. }
  split_and!; try done.
  { unfold Sched.Run, get_thread. by rewrite E0. }
  intros w3 E3. destruct (run_js_keeps _ _ _ _ E3 t1 x Ex) as (y & Ey & Sy1 & Sy2 & Sy3).
  destruct (script_ends y ({[t0]} ∪ ∅) t1 w3 (clock (reads w1)) Ey) as [Z1 Z2];
    [by rewrite Sy1 | by rewrite Sy2 | by rewrite Sy3 |].
  exists y. split; [done |]. subst loader. rewrite ET, E3. cbn [mbind outcome_bind]. split; [exact Z1 |].
  intros Hr. destruct (Z2 Hr) as (w4 & ->). by exists w4.
Qed.

End Turns.

(** ** An archive whose loader only posts a task *)

#[local] Notation Q0 := (Timeouts.sorted_list (Z * Z)).
#[local] Notation QT0 := (Timeouts.sorted_list Z).
#[local] Existing Instance Timeouts.sorted_list_queue.

Definition new_thread0 (w : world (Q := Q0) (QT := QT0)) : Z := base.fresh (dom (objects w) : gset Z).

Lemma new_thread0_fresh w : objects w !! new_thread0 w = None.
Proof. apply (not_elem_of_dom (D := gset Z)). unfold new_thread0. apply is_fresh. Qed.

Definition stack0 (w : world (Q := Q0) (QT := QT0)) : Z * Z := (0x400000, 0x200000).

Lemma stack0_ok w : let '(top, len) := stack0 w in
  top <> 0 /\ len <> 0 /\ (2 | top) /\ (2 | len) /\ u64 (top + len - 264) <> 0.
Proof. split_and!; [done | done | exists 0x200000; done | exists 0x100000; done | by vm_compute]. Qed.

Lemma startup_runs_loader_witness :
  let files := Initrd.loaded0.1 in let m := Initrd.loaded0.2 in
  let turn0 := turn new_thread0 stack0 Z.of_nat (fun f => f =? 77) (fun _ _ => [PostTask 9; CallClearTimer 3])
    (fun _ => []) (fun _ => (0, 0)) (fun _ => Ret) 1 in
  exists s1 objs s2 w0 t0 w1,
    Startup m files one_engine (first_objects one_engine) = Ret (s1, objs) /\
    CpuEnter new_thread0 stack0 s1 0 (IrqDispatcher.new objs) = Ret (s2, w0) /\
    current_thread_ w0 = Some t0 /\ turn0 (∅, w0) = Ret ({[t0]} ∪ ∅, w1) /\
    turn0 ({[t0]} ∪ ∅, w1) = Fatal "main isolate exited".
Proof.
  destruct (startup_runs_loader new_thread0 stack0 Z.of_nat (fun f => f =? 77) (fun _ _ => [PostTask 9; CallClearTimer 3])
    (fun _ => []) (fun _ => (0, 0)) (fun _ => Ret) 1 new_thread0_fresh stack0_ok) with (m := Initrd.loaded0.2)
    (files := Initrd.loaded0.1) (xs := [([97], [1; 2; 3]); ([98; 99], [1; 2; 3])] : list (list Z * list Z))
    (rt := [97] : list Z) as (_ & _ & P).
  - exact Initrd.loaded0_files.
  - vm_compute. reflexivity.
  - destruct (P 0%nat [1; 2; 3]) as (s1 & objs & s2 & w0 & t0 & x0 & w1 & t & w2 & x & E1 & E2 & E3 & _ & _ & _ & E4 & _ & _ &
      Ex & _ & _ & _ & Er & _ & E5).
    + done.
    + intros j y Hj. lia.
    + done.
    + exists s1, objs, s2, w0, t0, w1. split_and!; [exact E1 | exact E2 | exact E3 | exact E4 |].
      destruct (E5 (put_thread (set_platform (V8Platform.mk (V8Platform.background_tasks_ (v8_platform w2))
          (V8Platform.foreground_tasks_ (v8_platform w2) ++ [9]) (V8Platform.foreground_delayed_tasks_ (v8_platform w2))) w2)
          t (Thread.FlagTimeoutCleared x (u32 3)).2)) as (z & Ez & E6 & _).
      { unfold run_js. cbn [act_all act]. unfold ClearTimer, get_thread. cbn -[u32 Thread.FlagTimeoutCleared].
        rewrite Ex. cbn -[u32 Thread.FlagTimeoutCleared]. destruct (Thread.FlagTimeoutCleared x (u32 3)). reflexivity. }
      apply E6. cbn -[Thread.FlagTimeoutCleared u32] in Ez. rewrite lookup_insert_eq in Ez. injection Ez as <-. unfold Thread.FlagTimeoutCleared.
      destruct (Thread.timeout_data_ x !! _) as [[d |] |]; exact Er.
Defined.

End Startup.
