(* ===== verification/Syscalls.v ===== *)
(** * kernel/native-object.cc: console, files, text and information for JavaScript

    The natives that print on the console, read the files of the boot archive, convert
    text, and report on the system, over the models of these parts.  What V8 does
    (conversion of a value to a string, UTF-8) is a parameter.  The theorems: log shows
    its arguments separated by blanks on the screen; the files of the archive are
    returned byte by byte, in a fresh buffer that is accounted for. *)

From S2P Require Import Prelude Utils Crc32 PhysMem MemManager Initrd Engine Natives Io Console Idt.

Module ConsoleNatives.
Import Args LogWriterVideo Logger FileIo.

(** What a C string shows of some bytes: they end at the first zero. *)
Fixpoint c_string (bs : list Z) : list Z :=
  match bs with
  | [] => []
  | b :: bs' => if b =? 0 then [] else b :: c_string bs'
  end.

(** [WriteOneByte]: the low byte of every code unit. *)
Definition WriteOneByte (s : list Z) : list Z := map u8 s.

Section Natives.
Context {S : Type} `{Ports S}.
Variable polls : nat.
(** The code units of the string that a value converts to; [None] when the conversion throws,
    which ToLocalChecked does not survive. *)
Variable ToString : arg -> option (list Z).

(** kernel/native-object.cc:253-267, the loop of NativesObject::Log. *)
Fixpoint print_args (log : t (S := S)) (args : list arg) : outcome (t (S := S)) :=
  match args with
  | [] => Ret log
  | v :: args' =>
      match ToString v with
      | None => Fatal "ToLocalChecked"
      | Some s =>
          '(_, log) ← printf polls log (c_string (WriteOneByte s));
          '(_, log) ← (if (length args' =? 0)%nat then Ret (0, log) else printf polls log [32]);
          print_args log args'
      end
  end.

(** kernel/native-object.cc:250-270, NativesObject::Log. *)
Definition Log (log : t (S := S)) (args : list arg) : outcome (t (S := S)) :=
  log ← print_args log args;
  '(_, log) ← printf polls log [10];
  Ret log.

(** kernel/native-object.cc:272-291, NativesObject::Write: the same without the line end. *)
Definition Write (log : t (S := S)) (args : list arg) : outcome (t (S := S)) := print_args log args.

(** kernel/native-object.cc:542-545, NativesObject::StopVideoLog. *)
Definition StopVideoLog (log : t (S := S)) : t (S := S) := DisableVideo log.

(** ** What is printed *)

(** The text of the arguments, with a blank between two of them. *)
Fixpoint text_of (ss : list (list Z)) : list Z :=
  match ss with
  | [] => []
  | [s] => c_string (WriteOneByte s)
  | s :: ss' => c_string (WriteOneByte s) ++ [32] ++ text_of ss'
  end.

(** The logger prints on the screen and nobody holds its lock. *)
Definition screen_on (log : t (S := S)) : Prop :=
  video_enabled_ log = true /\ console_enabled_ log = false /\ video_lock log = false.

Lemma type_all_app l a b : type_all l (a ++ b) = type_all (type_all l a) b.
Proof. unfold type_all. by rewrite fold_left_app. Qed.

Lemma printf_shows log text m0 l :
  screen_on log -> ok m0 (video_writer_ log) l ->
  exists log', printf polls log text = Ret (Z.of_nat (length text), log') /\ screen_on log' /\
    ok m0 (video_writer_ log') (type_all l (map (pair DEFAULT) text)).
Proof.
  intros (Hv & Hc & Hl) Hok. destruct (WriteAll_shows m0 (map (pair DEFAULT) text) _ _ Hok) as (v & E & Hok').
  exists (set_type (set_video log v) DEFAULT). unfold printf.
  rewrite (PrintFormat_screen _ _ _ _ v) by done. done.
Qed.

Lemma print_args_shows args : forall ss log m0 l,
  Forall2 (fun a s => ToString a = Some s) args ss ->
  screen_on log -> ok m0 (video_writer_ log) l ->
  exists log', print_args log args = Ret log' /\ screen_on log' /\
    ok m0 (video_writer_ log') (type_all l (map (pair DEFAULT) (text_of ss))).
Proof.
  induction args as [| a args IH]; intros ss log m0 l F Hs Hok.
  { apply Forall2_nil_inv_l in F as ->. by exists log. }
  apply Forall2_cons_inv_l in F as (s & ss' & Es & F & ->). cbn [print_args]. rewrite Es.
  destruct (printf_shows log (c_string (WriteOneByte s)) m0 l Hs Hok) as (log1 & -> & Hs1 & Hok1). cbn [mbind outcome_bind].
  destruct args as [| a' args].
  - apply Forall2_nil_inv_l in F as ->. cbn [length Nat.eqb print_args]. by exists log1.
  - destruct ss' as [| s' ss']; [by apply Forall2_cons_nil_inv in F |]. cbn [length Nat.eqb].
    destruct (printf_shows log1 [32] m0 _ Hs1 Hok1) as (log2 & -> & Hs2 & Hok2). cbn [mbind outcome_bind].
    destruct (IH (s' :: ss') log2 m0 _ F Hs2 Hok2) as (log3 & E3 & Hs3 & Hok3). exists log3. split_and!; [done | done |].
    change (text_of (s :: s' :: ss')) with (c_string (WriteOneByte s) ++ [32] ++ text_of (s' :: ss')).
    by rewrite !map_app, !type_all_app.
Qed.

(** A string of characters below 256 without zero is printed as it is. *)
Lemma visible_latin1 s : Forall (fun c => 0 < c < 256) s -> c_string (WriteOneByte s) = s.
Proof.
  induction 1 as [| c s Hc F IH]; [done |]. unfold WriteOneByte in *. cbn [map c_string].
  unfold u8 in *. rewrite wrap_small by (red; lia). rewrite (proj2 (Z.eqb_neq c 0)) by lia. by rewrite IH.
Qed.

(** console.log: with the screen on, the native shows exactly the low bytes of its
    arguments, each up to its first zero, separated by blanks and ended by a new line, on the
    terminal that the screen displays; the screen stays on and unlocked, so that calls
    may follow one another, and no other memory is touched. *)
Theorem Log_shows log args ss m0 l
  (F : Forall2 (fun a s => ToString a = Some s) args ss)
  (Hs : screen_on log) (Hok : ok m0 (video_writer_ log) l) :
  exists log', Log log args = Ret log' /\ screen_on log' /\
    ok m0 (video_writer_ log') (type_all l (map (pair DEFAULT) (text_of ss ++ [10]))).
Proof.
  destruct (print_args_shows args ss log m0 l F Hs Hok) as (log1 & E1 & Hs1 & Hok1).
  destruct (printf_shows log1 [10] m0 _ Hs1 Hok1) as (log2 & E2 & Hs2 & Hok2).
  exists log2. unfold Log. rewrite E1. cbn [mbind outcome_bind]. rewrite E2. by rewrite map_app, type_all_app.
Qed.

End Natives.

#[local] Instance no_ports : Ports unit := { out _ _ _ s := s; inp _ _ s := (0, s) }.

Definition units_of (a : arg) : option (list Z) := match a with AString bs => Some bs | _ => None end.

Lemma Log_shows_witness :
  exists log', Log 3 units_of (Logger.new tt (fun _ => 0)) [AString [72; 105]; AString [33]] = Ret log' /\
    ok (fun _ => 0) (video_writer_ log') (type_all (mkTerm [] [] 0x0F) (map (pair DEFAULT) [72; 105; 32; 33; 10])).
Proof.
  destruct (Log_shows 3 units_of (Logger.new tt (fun _ => 0)) [AString [72; 105]; AString [33]] [[72; 105]; [33]]
    (fun _ => 0) (mkTerm [] [] 0x0F)) as (log' & E & _ & Hok).
  - repeat constructor.
  - by repeat split.
  - exact (new_shows tt (fun _ => 0)).
  - exists log'. split; [exact E | exact Hok].
Defined.

End ConsoleNatives.

Module FileNatives.
Import Args Initrd ConsoleNatives.

(** A JavaScript value that the natives return; a typed array by its address and length. *)
Inductive value : Type := Undefined | Null | String_ (units : list Z) | Uint8Array (data length : Z) | Array (vs : list value).

Section Natives.
(** [String::NewFromUtf8]; [None] when the string would be too long. *)
Variable NewFromUtf8 : list Z -> option (list Z).

(** The argument that the natives look up: the bytes of a string, up to a zero. *)
Definition filename (args : list arg) : list Z :=
  match nth_arg args 0 with AString bs => c_string bs | _ => [] end.

(** kernel/native-object.cc:293-315, NativesObject::InitrdReadFile. *)
Definition InitrdReadFile (m : ram) (fs : t) (args : list arg) : outcome (native value) :=
  if negb (ValidateArg args 0 STRING) then Ret (Throw "argument 0 is not a string")
  else
    file ← Get m fs (filename args);
    if _is_empty file then Ret (Return Null)
    else match NewFromUtf8 (bytes_at_cptr m (_data file) (_size file)) with
         | None => Fatal "ToLocalChecked"
         | Some s => Ret (Return (String_ s))
         end.

(** kernel/native-object.cc:317-343, NativesObject::InitrdReadFileBuffer, with the buffer
    [buf] that malloc returns; the result has the counters of the buffers and the
    memory with the copy. *)
Definition InitrdReadFileBuffer (m : ram) (fs : t) (e : Engines.t) (args : list arg) (buf : Z)
  : outcome (native value * Engines.t * ram) :=
  if negb (ValidateArg args 0 STRING) then Ret (Throw "argument 0 is not a string", e, m)
  else
    file ← Get m fs (filename args);
    if _is_empty file then Ret (Return Null, e, m)
    else
      let '(buf, e) := Engines.AllocateBuffer e buf (_size file) in
      _ ← rt_assert (negb (buf =? 0)) "buf";
      let m := store_bytes m buf (bytes_at_cptr m (_data file) (_size file)) in
      Ret (Return (Uint8Array buf (_size file)), e, m).

(** kernel/native-object.cc:345-349, NativesObject::InitrdGetKernelIndex. *)
Definition InitrdGetKernelIndex (m : ram) (fs : t) : outcome value :=
  name ← cptr_string m (runtime_index_name_ fs);
  match NewFromUtf8 name with None => Fatal "ToLocalChecked" | Some s => Ret (String_ s) end.

(** kernel/native-object.cc:356-361, the loop of NativesObject::InitrdListFiles, from index
    [i] on, [n] times. *)
Fixpoint list_files (n : nat) (i : Z) (m : ram) (fs : t) : outcome (list value) :=
  match n with
  | O => Ret []
  | S n' =>
      file ← GetByIndex fs i;
      _ ← rt_assert (negb (_is_empty file)) "!file.IsEmpty()";
      name ← cptr_string m (_name file);
      match NewFromUtf8 name with
      | None => Fatal "ToLocalChecked"
      | Some s => vs ← list_files n' (i + 1) m fs; Ret (String_ s :: vs)
      end
  end.

(** kernel/native-object.cc:351-364, NativesObject::InitrdListFiles. *)
Definition InitrdListFiles (m : ram) (fs : t) : outcome value :=
  vs ← list_files (length (files_ fs)) 0 m fs; Ret (Array vs).

(** ** The archive as a map from names to contents *)

(** The contents of the first file with a name. *)
Fixpoint file_named (xs : list (list Z * list Z)) (nm : list Z) : option (list Z) :=
  match xs with
  | [] => None
  | (n, d) :: xs' => if decide (nm = n) then Some d else file_named xs' nm
  end.

Lemma Get_named m xs nm : forall files,
  Forall2 (file_rep m) files xs ->
  match file_named xs nm with
  | None => Get_in m files nm = Ret InitrdFile_empty
  | Some d => exists f q, Get_in m files nm = Ret f /\ _is_empty f = false /\ _size f = zlen d /\ _data f = Ptr q /\ holds m q d
  end.
Proof.
  induction xs as [| [n d] xs IH]; intros files F.
  - by apply Forall2_nil_inv_r in F as ->.
  - apply Forall2_cons_inv_r in F as (f & files' & Hf & F & ->). destruct Hf as (E & _ & He & Hsz & q & _ & Hd & Hh).
    cbn [file_named Get_in]. rewrite E. cbn [mbind outcome_bind fst]. case_decide; [| by apply IH]. by exists f, q.
Qed.

Lemma c_string_id nm : Forall (fun b => b <> 0) nm -> c_string nm = nm.
Proof. induction 1 as [| b nm Hb F IH]; [done |]. cbn. rewrite (proj2 (Z.eqb_neq b 0)) by done. by rewrite IH. Qed.

Lemma list_files_spec m fs xs : Forall2 (file_rep m) (files_ fs) xs ->
  forall names, Forall2 (fun x s => NewFromUtf8 x.1 = Some s) xs names ->
  InitrdListFiles m fs = Ret (Array (map String_ names)).
Proof.
  intros F names N. unfold InitrdListFiles.
  assert (forall k i, (i + k = length (files_ fs))%nat ->
    list_files k (Z.of_nat i) m fs = Ret (map String_ (drop i names))) as P.
  { induction k as [| k IH]; intros i Hi; cbn [list_files].
    - pose proof (Forall2_length _ _ _ F). pose proof (Forall2_length _ _ _ N). by rewrite drop_ge by lia.
    - destruct (lookup_lt_is_Some_2 (files_ fs) i) as [f Ef]; [lia |].
      destruct (Forall2_lookup_l _ _ _ _ _ F Ef) as (x & Ex & Hn & _ & He & _).
      destruct (Forall2_lookup_l _ _ _ _ _ N Ex) as (s & Es & Hs).
      unfold GetByIndex. rewrite (proj2 (Z.ltb_lt _ _)), Nat2Z.id, Ef by lia. cbn [rt_assert mbind outcome_bind].
      rewrite He, Hn. cbn [negb rt_assert mbind outcome_bind]. rewrite Hs.
      replace (Z.of_nat i + 1) with (Z.of_nat (S i)) by lia. rewrite IH by lia. cbn [mbind outcome_bind].
      by rewrite (drop_S _ _ _ Es). }
  pose proof (P (length (files_ fs)) 0%nat eq_refl) as E. change (Z.of_nat 0) with 0 in E. by rewrite E.
Qed.

(** The files of the boot archive: when the archive holds the files [xs], reading a
    name returns the text of the first file with that name and, in a buffer, a copy of
    exactly its bytes, which is accounted for; no other memory changes, so that writing to
    the buffer leaves the archive as it was.  A name that is not there gives null; the list of
    files is the list of the names. *)
Theorem archive_files m fs xs e nm buf
  (F : Forall2 (file_rep m) (files_ fs) xs) (Hn : Forall (fun b => b <> 0) nm) (Hb : buf <> 0) :
  match file_named xs nm with
  | None =>
      InitrdReadFile m fs [AString nm] = Ret (Return Null) /\
      InitrdReadFileBuffer m fs e [AString nm] buf = Ret (Return Null, e, m)
  | Some d =>
      (forall s, NewFromUtf8 d = Some s -> InitrdReadFile m fs [AString nm] = Ret (Return (String_ s))) /\
      exists m', InitrdReadFileBuffer m fs e [AString nm] buf =
          Ret (Return (Uint8Array buf (zlen d)), (Engines.AllocateBuffer e buf (zlen d)).2, m') /\
        holds m' buf d /\ (forall a, a < buf \/ buf + zlen d <= a -> m' a = m a)
  end /\
  (forall names, Forall2 (fun x s => NewFromUtf8 x.1 = Some s) xs names ->
     InitrdListFiles m fs = Ret (Array (map String_ names))).
Proof.
  split; [| by apply list_files_spec].
  pose proof (Get_named m xs nm _ F) as G. unfold InitrdReadFile, InitrdReadFileBuffer, filename, Get.
  change (ValidateArg [AString nm] 0 STRING) with true. change (nth_arg [AString nm] 0) with (AString nm).
  cbn [negb]. rewrite c_string_id by done. destruct (file_named xs nm) as [d |].
  - destruct G as (f & q & -> & He & Hs & Hd & Hh). cbn [mbind outcome_bind]. rewrite He, Hs, Hd. unfold bytes_at_cptr.
    assert (CRC32.bytes_at m q (Z.to_nat (zlen d)) = d) as -> by (unfold zlen; rewrite Nat2Z.id; by apply holds_bytes_at).
    split; [by intros s -> |]. unfold Engines.AllocateBuffer. rewrite !(proj2 (Z.eqb_neq buf 0)) by done. cbn [negb rt_assert mbind outcome_bind snd].
    eexists. split; [done |]. split; [apply store_holds |]. intros a Ha. by apply store_bytes_out.
  - rewrite G. done.
Qed.

End Natives.

(** Bytes are their own code units. *)
Lemma archive_files_witness :
  InitrdListFiles Some loaded0.2 loaded0.1 = Ret (Array [String_ [97]; String_ [98; 99]]).
Proof.
  destruct (archive_files Some loaded0.2 loaded0.1 [([97], [1; 2; 3]); ([98; 99], [1; 2; 3])]
    (Engines.mk 1 [] 0 0 0 1) [97] 0x20000) as [_ L].
  - exact loaded0_files.
  - repeat constructor; discriminate.
  - discriminate.
  - apply (L [[97]; [98; 99]]). repeat constructor.
Defined.

End FileNatives.

Module TextNatives.
Import Args ConsoleNatives FileNatives.

Section Natives.
(** UTF-8 in V8: the encoding of a string (WriteUtf8, of which Utf8Length gives the length)
    and [String::NewFromUtf8]. *)
Variable ToString : arg -> option (list Z).
Variable WriteUtf8 : list Z -> list Z.
Variable NewFromUtf8 : list Z -> option (list Z).

(** kernel/native-object.cc:105-123, NativesObject::TextEncoderEncode, with the pointer [ptr] that
    malloc returns: it is not checked. *)
Definition TextEncoderEncode (m : ram) (e : Engines.t) (args : list arg) (ptr : Z) : outcome (value * Engines.t * ram) :=
  match ToString (nth_arg args 0) with
  | None => Fatal "ToLocalChecked"
  | Some str =>
      let buf_len := zlen (WriteUtf8 str) in
      if negb (buf_len =? 0) then
        let '(data, e) := Engines.AllocateBuffer e ptr buf_len in
        Ret (Uint8Array data buf_len, e, store_bytes m data (WriteUtf8 str))
      else Ret (Uint8Array 0 0, e, m)
  end.

(** kernel/native-object.cc:125-168, NativesObject::TextDecoderDecode; [Undefined] when
    V8 refuses the string. *)
Definition TextDecoderDecode (m : ram) (args : list arg) : native value :=
  let decode data offset length :=
    if 0 =? length then Return (String_ [])
    else if 0x7fffffff <? length then Throw "buffer is too big"
    else
      let dataPtr := u64 (data + offset) in
      match NewFromUtf8 (CRC32.bytes_at m dataPtr (Z.to_nat length)) with
      | None => Return Undefined
      | Some s => Return (String_ s)
      end in
  match nth_arg args 0 with
  | AUint8Array data offset length => decode data offset length
  | AArrayBuffer data length => decode data 0 length
  | _ => Throw "argument 0 is not an ArrayBuffer or Uint8Array"
  end.

(** kernel/native-object.cc:170-181, NativesObject::TextEncoder; TextDecoder (183-194) is the
    same: the encoding that the new object gets. *)
Definition TextEncoder (IsConstructCall : bool) : native string :=
  if negb IsConstructCall then Throw "constructor cannot be called as a function" else Return "utf-8".

(** Text survives encoding and decoding: what V8 decodes is the bytes that it encoded, for every
    string whose encoding fits an int, from the typed array and from any view of its buffer
    that covers it. *)
Theorem text_roundtrip m e args str ptr
  (Hs : ToString (nth_arg args 0) = Some str) (Hp : 0 < ptr) (Hr : ptr + zlen (WriteUtf8 str) < 2 ^ 64)
  (Hl : zlen (WriteUtf8 str) <= 0x7fffffff)
  (Hu : NewFromUtf8 (WriteUtf8 str) = Some str) (H0 : WriteUtf8 str = [] -> str = []) :
  exists data len e' m', TextEncoderEncode m e args ptr = Ret (Uint8Array data len, e', m') /\
    TextDecoderDecode m' [AUint8Array data 0 len] = Return (String_ str) /\
    TextDecoderDecode m' [AUint8Array (data - 8) 8 len] = Return (String_ str).
Proof.
  unfold TextEncoderEncode. rewrite Hs. pose proof (zlen_nonneg (WriteUtf8 str)) as L0.
  destruct (Z.eqb_spec (zlen (WriteUtf8 str)) 0) as [E | E]; cbn [negb].
  - exists 0, 0, e, m. rewrite H0; [done |]. apply nil_length_inv. unfold zlen in E. lia.
  - unfold Engines.AllocateBuffer. rewrite (proj2 (Z.eqb_neq ptr 0)) by lia. eexists _, _, _, _. split; [done |].
    unfold TextDecoderDecode. change (nth_arg [AUint8Array ptr 0 (zlen (WriteUtf8 str))] 0) with (AUint8Array ptr 0 (zlen (WriteUtf8 str))).
    change (nth_arg [AUint8Array (ptr - 8) 8 (zlen (WriteUtf8 str))] 0) with (AUint8Array (ptr - 8) 8 (zlen (WriteUtf8 str))).
    cbv iota beta. rewrite (proj2 (Z.eqb_neq 0 _)), (proj2 (Z.ltb_ge _ _)) by lia. cbv zeta.
    replace (ptr - 8 + 8) with ptr by lia. rewrite Z.add_0_r. unfold u64. rewrite wrap_small by (red; lia).
    unfold zlen at 1 2. rewrite Nat2Z.id, Initrd.holds_bytes_at by apply store_holds. by rewrite Hu.
Qed.

End Natives.

Lemma text_roundtrip_witness :
  exists data len e' m', TextEncoderEncode units_of id (fun _ => 0) (Engines.mk 1 [] 0 0 0 1) [AString [72; 105]] 0x9000 =
      Ret (Uint8Array data len, e', m') /\
    TextDecoderDecode Some m' [AUint8Array data 0 len] = Return (String_ [72; 105]).
Proof.
  destruct (text_roundtrip units_of id Some (fun _ => 0) (Engines.mk 1 [] 0 0 0 1) [AString [72; 105]] [72; 105] 0x9000)
    as (data & len & e' & m' & E & D & _); try done.
  exists data, len, e', m'. split; [exact E | exact D].
Defined.

End TextNatives.

Module InfoNatives.
Import Args.

Section Natives.
Context {mspace : Type} `{MspaceOps mspace}.

(** What memoryInfo reports. *)
Record memory_info : Type := mkInfo {
  heapTotal : Z; heapUsed : Z; pmTotal : Z; pmUsed : Z; buffersSize : Z; buffersCount : Z }.

(** kernel/native-object.cc:35-62, NativesObject::MemoryInfo; [total] and [used] are the
    statistics of V8. *)
Definition MemoryInfo (total used : Z) (s : MemManager.t (mspace := mspace)) (e : Engines.t) : memory_info :=
  mkInfo total used (PhysicalAllocator.available_phys_memory_ (MemManager.pmm_ s))
    (PhysicalAllocator.used_phys_memory_ (MemManager.pmm_ s)) (Engines.buffers_size_ e) (Engines.buffers_count_ e).

(** What memoryInfo says about physical memory: two megabytes for every page that was given
    out, out of those for every page that exists; what is used never exceeds the total. *)
Theorem MemoryInfo_exact total used (s : MemManager.t (mspace := mspace)) pg a e
  (I : MemManager.inv s pg a) :
  let i := MemoryInfo total used s e in
  pmUsed i = 2 * MiB * Z.of_nat (size (PhysicalAllocator.used_pages a)) /\
  pmTotal i - pmUsed i = 2 * MiB * Z.of_nat (size (PhysicalAllocator.free_pages a)) /\ pmUsed i <= pmTotal i.
Proof.
  destruct (MemManager.i_phys _ _ _ I) as (l32 & l64 & R). unfold MemoryInfo. cbn [pmUsed pmTotal].
  rewrite (PhysicalAllocator.rep_used_count _ _ _ _ R), (PhysicalAllocator.rep_avail_count _ _ _ _ R).
  rewrite size_union by (intros p H1 H2; by destruct (PhysicalAllocator.rep_used _ _ _ _ R p H2)).
  change PhysicalAllocator.kPageSizeBytes with (2 * MiB). unfold MiB. lia.
Qed.

End Natives.

(** kernel/native-object.cc:366-388, NativesObject::SystemInfo: the irq counters and the
    number of events, as 32 bits. *)
Definition SystemInfo (ticks_count events_count : Z) : list Z * Z := ([u32 ticks_count], u32 events_count).

(** kernel/native-object.cc:547-554, NativesObject::SetTime, for a number that is a natural. *)
Definition SetTime (p : Platform.t) (args : list arg) : native unit * Platform.t :=
  if negb (ValidateArg args 0 NUMBER) then (Throw "argument 0 is not a number value", p)
  else (Return tt, Platform.SetTimeMicroseconds p (u64 (number args 0))).

(** kernel/native-object.cc:495-506, NativesObject::Version: the number of the kernel and
    the version of V8. *)
Definition Version (v8 : string) : Z * string := (PackageReader.getVersionNumber, v8).

(** kernel/native-object.cc:90-103, NativesObject::GetCommandLine; [None] when V8 refuses the
    string. *)
Definition GetCommandLine (NewFromUtf8 : list Z -> option (list Z)) (p : Platform.t) : option (list Z) :=
  NewFromUtf8 (Platform.command_line_ p).

End InfoNatives.
