(* ===== verification/Profiler.v ===== *)
(** * kernel/profiler/, runtime-state.h, allocation-tracker.h, heap-snapshot.cc: measuring

    The profiler (the code that V8 compiled, by address, and the counters of samples), the
    stack of runtime states, the tracker of allocations and the stream of a heap
    snapshot.  The theorems: the profiler names the code that contains an address as
    long as the announced code does not overlap, and the name of moved code is made of bytes
    of the code, since an event is a union; the counters add up; the log of
    the profiler has no bound; a heap snapshot is returned complete and in order. *)

From Stdlib Require Import Sorted.
From S2P Require Import Prelude Utils Engine.

Module Profiler.

(** kernel/profiler/profiler.h:105-109, Profiler::CodeEventEntry. *)
Record CodeEventEntry : Type := mkEntry { name : list Z; code_start : Z; code_len : Z }.

(** kernel/profiler/profiler.h:110-110, Profiler::CodeEntries: a [std::map], kept in the order of its keys. *)
Definition CodeEntries : Type := list (Z * CodeEventEntry).

(** [insert] of a [std::map]: an existing key keeps its entry. *)
Fixpoint insert (m : CodeEntries) (k : Z) (e : CodeEventEntry) : CodeEntries :=
  match m with
  | [] => [(k, e)]
  | (k', e') :: m' =>
      if k <? k' then (k, e) :: m else if k =? k' then m else (k', e') :: insert m' k e
  end.

Definition erase (m : list (Z * CodeEventEntry)) (k : Z) : CodeEntries := filter (fun x => x.1 <> k) m.

Definition has (m : CodeEntries) (k : Z) : bool := existsb (fun x => x.1 =? k) m.

(** v8::JitCodeEvent. *)
Inductive EventType : Type := CODE_ADDED | CODE_MOVED | CODE_REMOVED | OTHER_EVENT.

(** The members that are used. [name.str] and [new_code_start] are the first word of one union and
    [name.len] is the second: V8 sets both words for CODE_ADDED, and for CODE_MOVED only the first;
    the second is then what the stack of V8 held. *)
Record JitCodeEvent : Type := mkEvent { type : EventType; ev_start : Z; ev_len : Z; word0 : Z; word1 : Z }.
Definition name_str (ev : JitCodeEvent) : Z := word0 ev.
Definition name_len (ev : JitCodeEvent) : Z := word1 ev.
Definition new_code_start (ev : JitCodeEvent) : Z := word0 ev.

Section Events.
(** The longest string that there is memory for: a longer one ends in abort. *)
Variable longest : Z.

Definition bytes (m : ram) (str len : Z) : list Z := map (fun i => m (str + i)) (seqZ 0 len).
Definition std_string (m : ram) (str len : Z) : outcome (list Z) :=
  if len <=? longest then Ret (bytes m str len) else Fatal "std::bad_alloc".

(** kernel/profiler/profiler.cc:147-177, Profiler::OnJitCodeEvent; [m] is the memory. *)
Definition OnJitCodeEvent (entries : CodeEntries) (m : ram) (event : JitCodeEvent) : outcome CodeEntries :=
  match type event with
  | CODE_ADDED =>
      nm ← std_string m (name_str event) (name_len event);
      Ret (insert entries (ev_start event) (mkEntry nm (ev_start event) (ev_len event)))
  | CODE_MOVED =>
      _ ← rt_assert (has entries (ev_start event)) "it != code_entries_.end()";
      nm ← std_string m (name_str event) (name_len event);
      Ret (insert (erase entries (ev_start event)) (new_code_start event) (mkEntry nm (new_code_start event) (ev_len event)))
  | CODE_REMOVED => Ret (erase entries (ev_start event))
  | OTHER_EVENT => Ret entries
  end.

(** The last entry before [upper_bound(address)]. *)
Fixpoint before_upper_bound (m : CodeEntries) (address : Z) (best : option CodeEventEntry) : option CodeEventEntry :=
  match m with
  | [] => best
  | (k, e) :: m' => if address <? k then best else before_upper_bound m' address (Some e)
  end.

(** kernel/profiler/profiler.cc:179-186, Profiler::FindEventEntry. *)
Definition FindEventEntry (m : CodeEntries) (address : Z) : outcome (option CodeEventEntry) :=
  _ ← rt_assert (negb (address =? 0)) "address";
  Ret (match before_upper_bound m address None with
       | None => None
       | Some entry => if address <? code_start entry + code_len entry then Some entry else None
       end).

(** *** Samples *)

(** kernel/profiler/profiler.h:38-46, ProfilerCounters, the counters of samples. *)
Record counters : Type := mkCounters {
  sampleCount : Z; idleCount : Z; jsCount : Z; gcCount : Z; compilerCount : Z; otherCount : Z;
  externalCount : Z; v8idleCount : Z }.

(** The state of V8 in a sample, [NO_ISOLATE] for an idle thread. *)
Inductive vm_state : Type := NO_ISOLATE | JS (frame : option Z) | GC | COMPILER | OTHER | EXTERNAL | IDLE.

(** kernel/profiler/profiler.h:102-114, Profiler members; of the log the number of bytes
    that were written, if there is one. *)
Record t : Type := mk { enabled_ : bool; counters_ : counters; code_entries_ : CodeEntries; log_position_ : option Z }.

Definition kLogSize : Z := 2 * MiB.

(** kernel/profiler/profiler.cc:36-44, Profiler::Enable, without the time it notes. *)
Definition Enable (p : t) : t := mk true (counters_ p) (code_entries_ p) (Some 0).

(** kernel/profiler/profiler.h:116-122, Profiler::LogWrite. *)
Definition LogWrite (p : t) (str : list Z) : outcome t :=
  match log_position_ p with
  | None => Fatal "log_position_"
  | Some n => Ret (mk (enabled_ p) (counters_ p) (code_entries_ p) (Some (n + zlen str)))
  end.

Definition set_counters (p : t) (c : counters) : t := mk (enabled_ p) c (code_entries_ p) (log_position_ p).

Definition inc (z : Z) : Z := u64 (z + 1).

(** kernel/profiler/profiler.cc:66-145, Profiler::MakeSample, without what it prints;
    [filename] is the name of the thread. *)
Definition MakeSample (p : t) (filename : list Z) (state : vm_state) : outcome t :=
  if negb (enabled_ p) then Ret p
  else
    let '(mkCounters s i j g c o e v) := counters_ p in
    let s := inc s in
    match state with
    | NO_ISOLATE => Ret (set_counters p (mkCounters s (inc i) j g c o e v))
    | JS frame =>
        let p := set_counters p (mkCounters s i (inc j) g c o e v) in
        entry ← match frame with None => Ret None | Some a => FindEventEntry (code_entries_ p) a end;
        p ← LogWrite p filename;
        p ← LogWrite p [58];
        p ← LogWrite p (from_option name [] entry);
        LogWrite p [10]
    | GC => Ret (set_counters p (mkCounters s i j (inc g) c o e v))
    | COMPILER => Ret (set_counters p (mkCounters s i j g (inc c) o e v))
    | OTHER => Ret (set_counters p (mkCounters s i j g c (inc o) e v))
    | EXTERNAL => Ret (set_counters p (mkCounters s i j g c o (inc e) v))
    | IDLE => Ret (set_counters p (mkCounters s i j g c o e (inc v)))
    end.

(** ** The code map *)

Definition sorted (m : CodeEntries) : Prop := StronglySorted (fun x y => x.1 < y.1) m.

(** Every entry is under its start, and the entries do not overlap. *)
Record wf (m : CodeEntries) : Prop := {
  wf_sorted : sorted m;
  wf_start : Forall (fun x => code_start x.2 = x.1 /\ 0 < code_len x.2) m;
  wf_disjoint : forall k e k' e', (k, e) ∈ m -> (k', e') ∈ m -> k < k' -> k + code_len e <= k' }.

Definition covers (e : CodeEventEntry) (a : Z) : Prop := code_start e <= a < code_start e + code_len e.

Lemma has_false m k : has m k = false <-> forall e, (k, e) ∉ m.
Proof.
  unfold has. rewrite <- not_true_iff_false, existsb_exists. split.
  - intros H e He. apply H. exists (k, e). split; [by apply list_elem_of_In | apply Z.eqb_refl].
  - intros H ([k' e] & Hin & E%Z.eqb_eq). cbn in E. subst k'. by apply (H e), list_elem_of_In.
Qed.

Lemma insert_elem m k e x : has m k = false -> x ∈ insert m k e <-> x = (k, e) \/ x ∈ m.
Proof.
  induction m as [| [k' e'] m IH]; intros H; cbn [insert]; [set_solver |].
  cbn [has existsb] in H. apply orb_false_iff in H as [H1 H2]. cbn [fst] in H1.
  destruct (k <? k'); [set_solver |]. rewrite Z.eqb_sym in H1. rewrite H1. rewrite !elem_of_cons, IH by exact H2. naive_solver.
Qed.

Lemma insert_sub m k e x : x ∈ insert m k e -> x = (k, e) \/ x ∈ m.
Proof.
  induction m as [| [k' e'] m IH]; cbn [insert]; [set_solver |].
  destruct (k <? k'); [set_solver |]. destruct (k =? k'); set_solver.
Qed.

Lemma insert_sorted m k e : sorted m -> sorted (insert m k e).
Proof.
  intros S. induction S as [| [k' e'] m S IH F]; cbn [insert]; [repeat constructor |].
  destruct (Z.ltb_spec k k') as [L | L].
  - constructor; [by constructor |]. constructor; [done |]. eapply Forall_impl; [exact F |]. cbn. intros; lia.
  - destruct (Z.eqb_spec k k') as [-> | N]; [by constructor |]. constructor; [exact IH |].
    rewrite Forall_forall in *. intros x [-> | Hx]%insert_sub; [cbn; lia | by apply F].
Qed.

Lemma erase_elem m k x : x ∈ erase m k <-> x ∈ m /\ x.1 <> k.
Proof. unfold erase. rewrite list_elem_of_filter. naive_solver. Qed.

Lemma erase_sorted m k : sorted m -> sorted (erase m k).
Proof.
  intros S. unfold erase. induction S as [| x m S IH F]; [constructor |]. rewrite filter_cons. case_decide; [| exact IH].
  constructor; [exact IH |]. rewrite Forall_forall in *. intros y [_ Hy]%list_elem_of_filter. by apply F.
Qed.

Lemma sorted_unique m k e e' : sorted m -> (k, e) ∈ m -> (k, e') ∈ m -> e = e'.
Proof.
  induction 1 as [| [k0 e0] m S IH F]; [set_solver |]. rewrite Forall_forall in F.
  intros [E1 | H1]%elem_of_cons [E2 | H2]%elem_of_cons; simplify_eq; [done | | | by apply IH].
  - specialize (F _ H2). cbn in F. lia.
  - specialize (F _ H1). cbn in F. lia.
Qed.

Lemma erase_wf m k : wf m -> wf (erase m k).
Proof.
  intros [S F D]. split; [by apply erase_sorted | |].
  - rewrite Forall_forall in *. intros x [Hx _]%erase_elem. by apply F.
  - intros k1 e1 k2 e2 [H1 _]%erase_elem [H2 _]%erase_elem. exact (D _ _ _ _ H1 H2).
Qed.

(** A range of code that meets none of the entries. *)
Definition fresh (m : CodeEntries) (start len : Z) : Prop :=
  0 < len /\ forall k e, (k, e) ∈ m -> k + code_len e <= start \/ start + len <= k.

Lemma fresh_has m start len : wf m -> fresh m start len -> has m start = false.
Proof.
  intros [_ F _] [L H]. apply has_false. intros e He. rewrite Forall_forall in F.
  destruct (F _ He) as [_ Hl]. cbn in Hl. destruct (H _ _ He); lia.
Qed.

Lemma insert_wf m nm start len : wf m -> fresh m start len -> wf (insert m start (mkEntry nm start len)).
Proof.
  intros W Fr. pose proof (fresh_has _ _ _ W Fr) as Hh. destruct W as [S F D]. destruct Fr as [L H].
  rewrite Forall_forall in F. split; [by apply insert_sorted | |].
  - rewrite Forall_forall. intros x [-> | Hx]%insert_sub; [done | by apply F].
  - intros k e k' e' H1 H2 Hk. apply insert_elem in H1 as [[= -> ->] | H1], H2 as [[= -> ->] | H2]; try done; cbn; try lia.
    + destruct (H _ _ H2); [| lia]. destruct (F _ H2) as [_ X]. cbn in X. lia.
    + destruct (H _ _ H1); [lia |]. cbn in *. lia.
    + exact (D _ _ _ _ H1 H2 Hk).
Qed.

(** The entry before the upper bound is the one with the greatest key that does not
    exceed the address. *)
Lemma before_upper_bound_spec m a : sorted m -> forall best,
  ((forall k e, (k, e) ∈ m -> a < k) /\ before_upper_bound m a best = best) \/
  (exists k e, (k, e) ∈ m /\ k <= a /\ before_upper_bound m a best = Some e /\
     forall k' e', (k', e') ∈ m -> k' <= a -> k' <= k).
Proof.
  induction 1 as [| [k0 e0] m S IH F]; intros best; cbn [before_upper_bound].
  { left. split; [set_solver | done]. }
  rewrite Forall_forall in F. destruct (Z.ltb_spec a k0) as [L | L].
  - left. split; [| done]. intros k e [[= -> ->] | Hin]%elem_of_cons; [done |]. specialize (F _ Hin). cbn in F. lia.
  - right. destruct (IH (Some e0)) as [[H1 ->] | (k & e & H1 & H2 & -> & H3)].
    + exists k0, e0. split_and!; [set_solver | done | done |]. intros k' e' [[= -> ->] | Hin]%elem_of_cons; [lia |].
      intros. specialize (H1 _ _ Hin). lia.
    + exists k, e. split_and!; [set_solver | done | done |]. intros k' e' [[= -> ->] | Hin]%elem_of_cons Hle; [| by eapply H3].
      specialize (F _ H1). cbn in F. lia.
Qed.

Lemma Find_spec m a e : wf m -> a <> 0 ->
  FindEventEntry m a = Ret (Some e) <-> exists k, (k, e) ∈ m /\ covers e a.
Proof.
  intros [S F D] Ha. rewrite Forall_forall in F. unfold FindEventEntry, covers. rewrite (proj2 (Z.eqb_neq a 0)) by done.
  cbn [negb rt_assert mbind outcome_bind]. destruct (before_upper_bound_spec m a S None) as [[H1 ->] | (k & e1 & H1 & H2 & -> & H3)].
  - split; [done |]. intros (k & Hin & Hc). destruct (F _ Hin) as [Hs _]. cbn in Hs. specialize (H1 _ _ Hin). lia.
  - destruct (F _ H1) as [Hs Hl]. cbn in Hs, Hl. destruct (Z.ltb_spec a (code_start e1 + code_len e1)) as [L | L]; split.
    + intros [= ->]. exists k. split; [done | lia].
    + intros (k' & Hin & Hc). destruct (F _ Hin) as [Hs' _]. cbn in Hs'. assert (k' <= k) by (eapply H3; [exact Hin | lia]).
      destruct (decide (k' = k)) as [-> | N]; [by rewrite (sorted_unique m k e e1) |].
      pose proof (D _ _ _ _ Hin H1 ltac:(lia)). lia.
    + done.
    + intros (k' & Hin & Hc). destruct (F _ Hin) as [Hs' _]. cbn in Hs'. assert (k' <= k) by (eapply H3; [exact Hin | lia]).
      destruct (decide (k' = k)) as [-> | N]; [rewrite (sorted_unique m k e e1) in Hc by done; lia |].
      pose proof (D _ _ _ _ Hin H1 ltac:(lia)). lia.
Qed.

(** *** Histories *)

(** The code that exists after an event.  Added code has the name that was given; the name of
    moved code is made of its own instructions. *)
Definition after (live : list CodeEventEntry) (x : ram * JitCodeEvent) : list CodeEventEntry :=
  let '(m, ev) := x in
  match type ev with
  | CODE_ADDED => mkEntry (bytes m (name_str ev) (name_len ev)) (ev_start ev) (ev_len ev) :: live
  | CODE_MOVED =>
      mkEntry (bytes m (new_code_start ev) (word1 ev)) (new_code_start ev) (ev_len ev) :: filter (fun e => code_start e <> ev_start ev) live
  | CODE_REMOVED => filter (fun e => code_start e <> ev_start ev) live
  | OTHER_EVENT => live
  end.

Definition range_free (live : list CodeEventEntry) (start len : Z) : Prop :=
  0 < len /\ Forall (fun e => code_start e + code_len e <= start \/ start + len <= code_start e) live.

(** Existing code is moved to where there is none. *)
Definition moves (live : list CodeEventEntry) (ev : JitCodeEvent) : Prop :=
  type ev = CODE_MOVED /\ (exists e, e ∈ live /\ code_start e = ev_start ev) /\
  range_free (filter (fun e => code_start e <> ev_start ev) live) (new_code_start ev) (ev_len ev).

(** Code is only put where there is none, only existing code is moved, and the second word of the
    union is no longer than memory, by intent or by luck. *)
Definition event_ok (live : list CodeEventEntry) (ev : JitCodeEvent) : Prop :=
  match type ev with
  | CODE_ADDED => range_free live (ev_start ev) (ev_len ev) /\ name_len ev <= longest
  | CODE_MOVED => moves live ev /\ word1 ev <= longest
  | _ => True
  end.

Fixpoint history_ok (live : list CodeEventEntry) (evs : list (ram * JitCodeEvent)) : Prop :=
  match evs with [] => True | x :: evs' => event_ok live x.2 /\ history_ok (after live x) evs' end.

Fixpoint run (entries : CodeEntries) (evs : list (ram * JitCodeEvent)) : outcome CodeEntries :=
  match evs with [] => Ret entries | x :: evs' => entries' ← OnJitCodeEvent entries x.1 x.2; run entries' evs' end.

(** The map represents the code that exists. *)
Definition represents (m : CodeEntries) (live : list CodeEventEntry) : Prop :=
  wf m /\ forall e, e ∈ live <-> (code_start e, e) ∈ m.

Lemma range_fresh m live start len : represents m live -> range_free live start len -> fresh m start len.
Proof.
  intros [[_ F _] R] [L Fr]. split; [done |]. rewrite Forall_forall in F. rewrite Forall_forall in Fr. intros k e He.
  destruct (F _ He) as [E _]. cbn in E. subst k. by apply Fr, R.
Qed.

Lemma insert_represents m live nm start len :
  represents m live -> range_free live start len ->
  represents (insert m start (mkEntry nm start len)) (mkEntry nm start len :: live).
Proof.
  intros Rp Fr. pose proof (range_fresh _ _ _ _ Rp Fr) as Fr'. destruct Rp as [W R]. split; [by apply insert_wf |].
  intros e. rewrite elem_of_cons, insert_elem, R by (by eapply fresh_has). split.
  - intros [-> | H]; [by left | by right].
  - intros [[= _ ->] | H]; [by left | by right].
Qed.

Lemma erase_represents m live start :
  represents m live -> represents (erase m start) (filter (fun e => code_start e <> start) live).
Proof.
  intros [W R]. split; [by apply erase_wf |]. intros e. rewrite list_elem_of_filter, erase_elem, R. cbn. naive_solver.
Qed.

Lemma represents_has m live e : represents m live -> e ∈ live -> has m (code_start e) = true.
Proof.
  intros Rp He. destruct (has m (code_start e)) eqn:Eh; [done |]. rewrite has_false in Eh. destruct (Eh e). by apply Rp.
Qed.

Lemma event_represents entries live m ev :
  represents entries live -> event_ok live ev -> exists entries', OnJitCodeEvent entries m ev = Ret entries' /\ represents entries' (after live (m, ev)).
Proof.
  intros Rp O. unfold OnJitCodeEvent, after, event_ok, std_string in *. destruct (type ev).
  - destruct O as [O L]. rewrite (proj2 (Z.leb_le _ _)) by done. eexists. split; [done |]. by apply insert_represents.
  - destruct O as [(_ & (e & He & Es) & O) L]. rewrite <- Es, (represents_has entries live e Rp He), Es.
    unfold name_len. rewrite (proj2 (Z.leb_le _ _)) by done. eexists. split; [done |].
    apply insert_represents; [by apply erase_represents | done].
  - eexists. split; [done |]. by apply erase_represents.
  - by eexists.
Qed.

(** A move with a length that is too large. *)
Lemma move_stops entries live m ev : represents entries live -> moves live ev -> longest < word1 ev ->
  OnJitCodeEvent entries m ev = Fatal "std::bad_alloc".
Proof.
  intros Rp (Ty & (e & He & Es) & _) L. unfold OnJitCodeEvent, std_string. rewrite Ty, <- Es, (represents_has entries live e Rp He).
  cbn [rt_assert mbind outcome_bind]. unfold name_len. by rewrite (proj2 (Z.leb_gt _ _)).
Qed.

Lemma run_represents evs : forall entries live,
  represents entries live -> history_ok live evs ->
  exists entries', run entries evs = Ret entries' /\ represents entries' (fold_left after evs live).
Proof.
  induction evs as [| [m ev] evs IH]; intros entries live Rp H; cbn [run fold_left]; [by exists entries |]. destruct H as [O H]. cbn [fst snd] in *.
  destruct (event_represents entries live m ev Rp O) as (entries' & -> & Rp'). by apply IH.
Qed.


End Events.

(** Code that is announced at an address where code was announced before, and not
    removed, keeps the old name: [insert] does not replace. *)
Lemma stale_name nm nm' len len' start a :
  0 < start <= a -> a < start + len ->
  FindEventEntry (insert (insert [] start (mkEntry nm start len)) start (mkEntry nm' start len')) a =
  Ret (Some (mkEntry nm start len)).
Proof.
  intros H1 H2. cbn. rewrite Z.ltb_irrefl, Z.eqb_refl. unfold FindEventEntry. rewrite (proj2 (Z.eqb_neq a 0)) by lia.
  cbn. rewrite (proj2 (Z.ltb_ge a start)) by lia. cbn. by rewrite (proj2 (Z.ltb_lt a (start + len))) by lia.
Qed.

(** *** Counters and log *)

Definition counted (c : counters) : Z :=
  idleCount c + jsCount c + gcCount c + compilerCount c + otherCount c + externalCount c + v8idleCount c.

Lemma inc_eq z : exists q, inc z = z + 1 + q * 2 ^ 64.
Proof. exists (- ((z + 1) / 2 ^ 64)). unfold inc, u64, wrap. pose proof (Z.div_mod (z + 1) (2 ^ 64) ltac:(lia)). lia. Qed.

Lemma count_one s x rest : u64 (inc s - (rest + inc x)) = u64 (s - (rest + x)).
Proof.
  destruct (inc_eq s) as [q ->], (inc_eq x) as [r ->]. unfold u64, wrap.
  rewrite <- (Z.mod_add (s - (rest + x)) (q - r)) by lia. f_equal. lia.
Qed.

Lemma LogWrite_frame p str p' : LogWrite p str = Ret p' ->
  counters_ p' = counters_ p /\ enabled_ p' = enabled_ p /\ code_entries_ p' = code_entries_ p /\
  exists n, log_position_ p = Some n /\ log_position_ p' = Some (n + zlen str).
Proof. unfold LogWrite. destruct (log_position_ p) as [n |] eqn:E; [| done]. intros [= <-]. eauto 10. Qed.

(** Every sample is counted in exactly one of the states. *)
Lemma MakeSample_counts p filename st p' :
  MakeSample p filename st = Ret p' ->
  u64 (sampleCount (counters_ p') - counted (counters_ p')) = u64 (sampleCount (counters_ p) - counted (counters_ p)).
Proof.
  unfold MakeSample. destruct (enabled_ p); cbn [negb]; [| by intros [= <-]].
  destruct (counters_ p) as [s i j g c o e v]. unfold counted.
  assert (forall x rest T, T = rest + x -> u64 (inc s - (rest + inc x)) = u64 (s - T)) as X by (intros x rest T ->; apply count_one).
  destruct st; intros E.
  2: { apply bind_Ret in E as (en & _ & E). apply bind_Ret in E as (p1 & [E1 _]%LogWrite_frame & E).
       apply bind_Ret in E as (p2 & [E2 _]%LogWrite_frame & E). apply bind_Ret in E as (p3 & [E3 _]%LogWrite_frame & [E4 _]%LogWrite_frame).
       rewrite E4, E3, E2, E1. cbn. rewrite <- (X j (i + g + c + o + e + v)) by lia. f_equal; lia. }
  all: injection E as <-; cbn.
  - rewrite <- (X i (j + g + c + o + e + v)) by lia. f_equal; lia.
  - rewrite <- (X g (i + j + c + o + e + v)) by lia. f_equal; lia.
  - rewrite <- (X c (i + j + g + o + e + v)) by lia. f_equal; lia.
  - rewrite <- (X o (i + j + g + c + e + v)) by lia. f_equal; lia.
  - rewrite <- (X e (i + j + g + c + o + v)) by lia. f_equal; lia.
  - rewrite <- (X v (i + j + g + c + o + e)) by lia. f_equal; lia.
Qed.

Fixpoint samples (p : t) (sts : list (list Z * vm_state)) : outcome t :=
  match sts with [] => Ret p | (f, st) :: sts' => p' ← MakeSample p f st; samples p' sts' end.

(** The samples of JavaScript code. *)
Definition js_samples (sts : list (list Z * vm_state)) : list (list Z) :=
  omap (fun x => match x.2 with JS _ => Some x.1 | _ => None end) sts.

Lemma samples_log sts : forall p p' n,
  enabled_ p = true -> log_position_ p = Some n -> samples p sts = Ret p' ->
  exists n', log_position_ p' = Some n' /\ n + 2 * zlen (js_samples sts) + zlen (concat (js_samples sts)) <= n'.
Proof.
  induction sts as [| [f st] sts IH]; intros p p' n He Hn; cbn [samples].
  { intros [= <-]. exists n. split; [done |]. unfold zlen, js_samples. cbn. lia. }
  intros E. apply bind_Ret in E as (p1 & E1 & E).
  assert (enabled_ p1 = true /\ exists n1, log_position_ p1 = Some n1 /\
    n + match st with JS _ => 2 + zlen f | _ => 0 end <= n1) as (He1 & n1 & Hn1 & L).
  { unfold MakeSample in E1. rewrite He in E1. cbn [negb] in E1. destruct (counters_ p) as [? ? ? ? ? ? ? ?].
    destruct st; try (injection E1 as <-; split; [done |]; exists n; split; [done | lia]).
    apply bind_Ret in E1 as (en & _ & E1).
    apply bind_Ret in E1 as (q1 & (_ & F1 & _ & m1 & G1 & G1')%LogWrite_frame & E1).
    apply bind_Ret in E1 as (q2 & (_ & F2 & _ & m2 & G2 & G2')%LogWrite_frame & E1).
    apply bind_Ret in E1 as (q3 & (_ & F3 & _ & m3 & G3 & G3')%LogWrite_frame & (_ & F4 & _ & m4 & G4 & G4')%LogWrite_frame).
    cbn in F1, G1. split; [congruence |]. eexists. split; [exact G4' |].
    pose proof (zlen_nonneg (from_option name [] en)). rewrite Hn in G1. simplify_eq. unfold zlen in *. cbn [length] in *. lia. }
  destruct (IH p1 p' n1 He1 Hn1 E) as (n' & Hn' & L'). exists n'. split; [done |].
  unfold js_samples in *. cbn [omap list_omap snd]. destruct st; try lia. cbn [concat]. rewrite zlen_app. unfold zlen in *. cbn [length fst] in *. lia.
Qed.

(** The log of the profiler has no bound: every sample in JavaScript code writes at least
    the name of the thread and two characters to a buffer of 2 MiB, and nothing stops
    it at the end; after 2^20 samples it has written past the buffer. *)
Theorem profiler_log_overflows p sts p'
  (R : samples (Enable p) sts = Ret p') (Hn : 2 ^ 20 < zlen (js_samples sts)) :
  exists n, log_position_ p' = Some n /\ kLogSize < n.
Proof.
  destruct (samples_log sts (Enable p) p' 0 eq_refl eq_refl R) as (n & E & L). exists n. split; [done |].
  pose proof (zlen_nonneg (concat (js_samples sts))). unfold kLogSize, MiB. lia.
Qed.

(** A function named f is added and moved: it is found by the two bytes of its code. *)
Definition moved0 : list (ram * JitCodeEvent) :=
  [(ram_of 0x500 [102], mkEvent CODE_ADDED 0x1000 16 0x500 1); (ram_of 0x2000 [0x55; 0x48], mkEvent CODE_MOVED 0x1000 16 0x2000 2)].


End Profiler.

(** ** The stack of runtime states *)
Module RuntimeStateStack.

(** kernel/runtime-state.h:63-65, RuntimeStateStack members. *)
Record t : Type := mk { stack_ : list Z; size_ : nat }.

Definition kMaxDepth : nat := 16.

(** kernel/runtime-state.h:45-46, RuntimeStateStack::RuntimeStateStack. *)
Definition new : t := mk (replicate kMaxDepth 0) 0.

(** kernel/runtime-state.h:48-51, RuntimeStateStack::Push. *)
Definition Push (s : t) (state : Z) : outcome t :=
  _ ← rt_assert (size_ s <? kMaxDepth)%nat "size_ < kMaxDepth";
  Ret (mk (<[size_ s := state]> (stack_ s)) (S (size_ s))).

(** kernel/runtime-state.h:53-56, RuntimeStateStack::Pop. *)
Definition Pop (s : t) : outcome t :=
  match size_ s with O => Fatal "size_ > 0" | S n => Ret (mk (stack_ s) n) end.

(** kernel/runtime-state.h:58-61, RuntimeStateStack::current. *)
Definition current (s : t) : outcome Z :=
  match size_ s with
  | O => Fatal "size_ > 0"
  | S n => match stack_ s !! n with Some v => Ret v | None => Fatal "stack_ index" end
  end.

(** The states on the stack, the current one first. *)
Definition states (s : t) : list Z := reverse (take (size_ s) (stack_ s)).

Definition ok (s : t) : Prop := length (stack_ s) = kMaxDepth /\ (size_ s <= kMaxDepth)%nat.

(** The array and its size implement a stack of at most 16 states. *)
Theorem state_stack_correct s (O : ok s) :
  (forall v, (length (states s) < kMaxDepth)%nat -> exists s', Push s v = Ret s' /\ ok s' /\ states s' = v :: states s) /\
  (forall v, (kMaxDepth <= length (states s))%nat -> Push s v = Fatal "size_ < kMaxDepth") /\
  match states s with
  | [] => Pop s = Fatal "size_ > 0" /\ current s = Fatal "size_ > 0"
  | v :: rest => current s = Ret v /\ exists s', Pop s = Ret s' /\ ok s' /\ states s' = rest
  end.
Proof.
  destruct s as [l n]. destruct O as [Hl Hn]. cbn [stack_ size_] in *. unfold states. cbn [stack_ size_].
  rewrite length_reverse, length_take, Nat.min_l by lia. split_and!.
  - intros v Hv. unfold Push. cbn [size_ stack_]. rewrite (proj2 (Nat.ltb_lt _ _)) by done. eexists. split; [done |]. split.
    + split; cbn [stack_ size_]; [by rewrite length_insert | lia].
    + cbn [stack_ size_]. rewrite (take_S_r _ _ v) by (apply list_lookup_insert_eq; lia).
      by rewrite reverse_snoc, take_insert_ge by lia.
  - intros v Hv. unfold Push. cbn [size_]. by rewrite (proj2 (Nat.ltb_ge _ _)).
  - destruct n as [| n]; [done |]. destruct (lookup_lt_is_Some_2 l n) as [v Ev]; [lia |].
    rewrite (take_S_r _ _ v) by done. rewrite reverse_snoc. unfold current, Pop. cbn [size_ stack_]. rewrite Ev.
    split; [done |]. eexists. split; [done |]. split; [unfold ok; cbn [stack_ size_]; lia | done].
Qed.

Lemma state_stack_correct_witness : exists s', Push new 4 = Ret s' /\ current s' = Ret 4.
Proof.
  destruct (state_stack_correct new) as (P & _); [vm_compute; repeat constructor |].
  destruct (P 4) as (s' & E & O & _); [vm_compute; repeat constructor |]. exists s'. split; [exact E |].
  injection E as <-. reflexivity.
Defined.

End RuntimeStateStack.

(** ** The tracker of allocations *)
Module AllocationTracker.

(** kernel/allocation-tracker.h:71-72, AllocationTracker members. *)
Record t : Type := mk { nested_ : bool; map_ : gset Z }.

(** kernel/allocation-tracker.h:29-29, AllocationTracker::AllocationTracker. *)
Definition new : t := mk false ∅.

(** kernel/allocation-tracker.h:34-42, AllocationTracker::RegisterAlloc. *)
Definition RegisterAlloc (s : t) (ptr : Z) : t :=
  if nested_ s then s else mk false ({[ptr]} ∪ map_ s).

(** kernel/allocation-tracker.h:48-59, AllocationTracker::UnregisterAlloc. *)
Definition UnregisterAlloc (s : t) (ptr : Z) : t :=
  if nested_ s then s else mk false (map_ s ∖ {[ptr]}).

(** kernel/allocation-tracker.h:64-69, AllocationTracker::unfreed_allocations_count. *)
Definition unfreed_allocations_count (s : t) : Z * t := (Z.of_nat (size (map_ s)), mk false (map_ s)).

(** Registering and freeing a pointer leaves the count as it was, if the pointer was not
    tracked already. *)
Lemma tracker_balance s ptr :
  nested_ s = false -> ptr ∉ map_ s ->
  (unfreed_allocations_count (RegisterAlloc s ptr)).1 = (unfreed_allocations_count s).1 + 1 /\
  map_ (UnregisterAlloc (RegisterAlloc s ptr) ptr) = map_ s.
Proof.
  intros N H. unfold RegisterAlloc, UnregisterAlloc. rewrite N. cbn. split; [| set_solver].
  rewrite size_union, size_singleton by set_solver. lia.
Qed.

End AllocationTracker.

(** ** Heap snapshots *)
Module HeapSnapshotStream.

(** kernel/heap-snapshot.h:36-36, HeapSnapshotStream members: the address and the length of
    each chunk. *)
Definition t : Type := list (Z * Z).

(** kernel/heap-snapshot.cc:20-31, HeapSnapshotStream::WriteAsciiChunk of [data], with the
    buffer [buf] that malloc returns; the result has the memory with the copy. *)
Definition WriteAsciiChunk (chunks_ : t) (m : ram) (e : Engines.t) (data : list Z) (buf : Z) : t * ram * Engines.t :=
  if zlen data =? 0 then (chunks_, m, e)
  else
    let '(buf, e) := Engines.AllocateBuffer e buf (zlen data) in
    (chunks_ ++ [(buf, zlen data)], store_bytes m buf data, e).

(** kernel/heap-snapshot.cc:33-52, HeapSnapshotStream::FetchBuffers: the typed arrays, and the
    stream without chunks. *)
Definition FetchBuffers (chunks_ : t) : list (Z * Z) * t := (chunks_, []).

(** The snapshot V8 writes, chunk by chunk, each into the buffer that malloc returned. *)
Fixpoint write_all (chunks_ : t) (m : ram) (e : Engines.t) (w : list (list Z * Z)) : t * ram * Engines.t :=
  match w with
  | [] => (chunks_, m, e)
  | (data, buf) :: w' => let '(c, m, e) := WriteAsciiChunk chunks_ m e data buf in write_all c m e w'
  end.

(** The buffers do not overlap. *)
Definition apart (x y : list Z * Z) : Prop := x.2 + zlen x.1 <= y.2 \/ y.2 + zlen y.1 <= x.2.

Lemma write_all_spec w : forall c m e,
  Forall (fun x => x.2 <> 0) w -> (forall i j x y, (i < j)%nat -> w !! i = Some x -> w !! j = Some y -> apart x y) ->
  exists m' e', write_all c m e w = (c ++ map (fun x => (x.2, zlen x.1)) (filter (fun x => x.1 <> []) w), m', e') /\
    (forall x, x ∈ w -> holds m' x.2 x.1) /\
    (forall a, (forall x, x ∈ w -> a < x.2 \/ x.2 + zlen x.1 <= a) -> m' a = m a).
Proof.
  induction w as [| [data buf] w IH]; intros c m e N A; cbn [write_all].
  { exists m, e. rewrite app_nil_r. split_and!; [done | set_solver | done]. }
  apply Forall_cons in N as [Nb N]. cbn in Nb.
  assert (forall i j x y, (i < j)%nat -> w !! i = Some x -> w !! j = Some y -> apart x y) as A'.
  { intros i j x y Hij Hi Hj. apply (A (S i) (S j)); [lia | done | done]. }
  unfold WriteAsciiChunk. destruct (Z.eqb_spec (zlen data) 0) as [E | E].
  - assert (data = []) as -> by (apply nil_length_inv; unfold zlen in E; lia).
    destruct (IH c m e N A') as (m' & e' & -> & H & F). exists m', e'. rewrite filter_cons_False by (cbn; auto). split_and!; [done | |].
    + intros x [-> | Hx]%elem_of_cons; [| by apply H]. intros i b Hi. done.
    + intros a Ha. apply F. intros x Hx. apply Ha. by right.
  - unfold Engines.AllocateBuffer. rewrite (proj2 (Z.eqb_neq buf 0)) by done.
    destruct (IH (c ++ [(buf, zlen data)]) (store_bytes m buf data) (Engines.set_buffers e (u64 (Engines.buffers_size_ e + zlen data))
      (u64 (Engines.buffers_count_ e + 1))) N A') as (m' & e' & -> & H & F).
    exists m', e'. rewrite filter_cons_True by (cbn; intros ->; done). cbn [map fst snd]. rewrite <- app_assoc. split_and!; [done | |].
    + intros x [-> | Hx]%elem_of_cons; [| by apply H]. cbn [fst snd]. intros i b Hi. rewrite F; [by apply store_bytes_in |].
      intros y Hy. apply list_elem_of_lookup in Hy as [j Hj]. destruct (A 0%nat (S j) (data, buf) y) as [Hd | Hd]; [lia | done | done | |].
      * cbn in Hd. apply lookup_lt_Some in Hi. unfold zlen in *. lia.
      * cbn in Hd. lia.
    + intros a Ha. rewrite F by (intros x Hx; apply Ha; by right). apply store_bytes_out. apply (Ha (data, buf)). by left.
Qed.

(** A heap snapshot is returned complete: whatever chunks V8 writes, into buffers that do
    not overlap, the typed arrays that are fetched hold, one after the other, exactly the
    bytes that were written, chunks without bytes left out, and the stream is empty again. *)
Theorem snapshot_complete m e w
  (N : Forall (fun x => x.2 <> 0) w)
  (A : forall i j x y, (i < j)%nat -> w !! i = Some x -> w !! j = Some y -> apart x y) :
  exists c m' e', write_all [] m e w = (c, m', e') /\ (FetchBuffers c).2 = [] /\
    exists parts, Forall2 (fun x d => zlen d = x.2 /\ holds m' x.1 d) (FetchBuffers c).1 parts /\
      concat parts = concat (map fst w).
Proof.
  destruct (write_all_spec w [] m e N A) as (m' & e' & E & H & _). eexists _, m', e'. split; [exact E |]. split; [done |].
  exists (map fst (filter (fun x => x.1 <> []) w)). cbn [FetchBuffers fst app]. split.
  - assert (Forall (fun x => holds m' x.2 x.1) (filter (fun x => x.1 <> []) w)) as F.
    { apply Forall_forall. intros x [_ Hx]%list_elem_of_filter. by apply H. }
    clear -F. induction F; constructor; done.
  - clear. induction w as [| [[| b d] buf] w IH]; [done | |].
    + rewrite filter_cons_False by (cbn; auto). exact IH.
    + rewrite filter_cons_True by done. cbn. by rewrite IH.
Qed.

Lemma snapshot_complete_witness :
  exists c m' e', write_all [] (fun _ => 0) (Engines.mk 1 [] 0 0 0 1) [([1; 2], 0x9000); ([], 0x9100); ([3], 0x9200)] = (c, m', e') /\
    (FetchBuffers c).2 = [].
Proof.
  destruct (snapshot_complete (fun _ => 0) (Engines.mk 1 [] 0 0 0 1) [([1; 2], 0x9000); ([], 0x9100); ([3], 0x9200)])
    as (c & m' & e' & E & F & _).
  - repeat constructor; discriminate.
  - intros i j x y Hij Hi Hj. destruct i as [| [| [| i]]]; try discriminate Hi; destruct j as [| [| [| j]]]; try discriminate Hj; try lia;
      injection Hi as <-; injection Hj as <-; left; vm_compute; discriminate.
  - exists c, m', e'. split; [exact E | exact F].
Defined.

End HeapSnapshotStream.
